(* ===== verification/_CoqProject ===== *)
-Q . S2P
Prelude.v
F64.v
Enums.v
Jobs.v
Db.v
Queue.v
Instances.v
QueueSpec.v
Text.v
Net.v
Normalize.v
NormalizeSpec.v
Envelope.v
EnvelopeSpec.v
Cleanup.v
Proc.v
Preview.v
PreviewSpec.v
VideoSequence.v
Alignment.v
Library.v
VideoSequenceSpec.v
AlignmentSpec.v
Telegram.v
LibraryRepo.v
LibraryStorage.v
MediaIdentity.v
WorkerIdentity.v
LibraryInv.v
LibrarySpec.v
IdentitySpec.v
IdentityWitness.v
Publisher.v
PublisherRepo.v
PublisherOps.v
PublisherSend.v
PublisherDemo.v
PublisherInv.v
PublisherSpec.v
Execute.v
NormalizeVideo.v
Download.v
YtDlp.v
DownloadSpec.v
YtDlpSpec.v
NetSpec.v
Config.v
FileLogic.v
ExecuteSpec.v
NormalizeVideoSpec.v
PublishWorker.v
PublisherHistory.v
PublishWorkerSpec.v
CadenceSpec.v
PublisherReplay.v
LibraryHistory.v
Settlement.v
SettlementSpec.v
RecoverySpec.v
Runner.v
RunnerSpec.v
Retention.v
RetentionSpec.v
Inbox.v
InboxRepo.v
InboxOps.v
UploadProvider.v
Bot.v
BotSpec.v
Workspace.v
IngestWorker.v
UploadSystem.v
InboxInv.v
InboxCalls.v
InboxSpec.v
IngestWorkerSpec.v
UploadSpec.v
InboxWitness.v
UploadWitness.v
ConfigSpec.v
