(* ===== verification/Prelude.v ===== *)
(** * A verification of sooqa

    sooqa takes links, Telegram messages and uploads, runs them through a media
    pipeline, keeps the result in a Telegram storage chat and publishes posts on a
    cadence.  A server and a worker share one PostgreSQL database.  The server accepts
    requests over HTTP and from a Telegram bot; the worker claims jobs from the durable
    queue, downloads, probes and encodes sources, uploads the results, publishes posts, and
    records every outcome through the repositories.  This library models the repositories
    ([src/crates/persistence/src/]), the domain crates they use ([src/crates/jobs], [inbox],
    [library], [publisher]), the media code ([src/crates/media/src/]), the Telegram adapter
    ([src/crates/telegram/src/]), the configuration ([src/crates/config/src/lib.rs]) and the
    handlers and the loop of the worker ([src/apps/worker/src/]).

    ** How the code is modelled

    - The database is one record of finite maps, [Db.Db], a map per table with the rows of
      the migrations; [Db.db_wf] states the CHECK and UNIQUE constraints the proofs use.
    - A repository method is a transaction, [Prelude.txn]: a function of the clock readings
      and the database to an error or an answer with a new database.  An error rolls back
      ([Prelude.run_txn]); a method that decodes after its commit is [Prelude.commit_then].
      A locking SELECT is a read: a transaction runs alone, and concurrency is a history of
      transactions by different callers.
    - An asynchronous function is a program, [Proc.proc]: it is finished, or it awaits a
      call (a repository method, a request, a file operation, a command) and goes on with
      the answer.  Each component declares its calls by an instance of [Proc.Interface].
      A protocol ([Proc.wp]) says which calls are allowed when; a system is a step relation
      that interleaves programs with each other, with crashes, lost answers and everybody
      else's transactions.
    - Identifiers and tokens the code draws at random are arguments; where a theorem needs
      them new, it says so.
    - Integers are [Z] with the bounds, saturations and wrap-arounds of the Rust types
      written out where they can be reached; text is the list of its scalar values;
      instants and durations are microseconds; [usize] has sixty-four bits; doubles are
      correctly rounded rationals ([F64]).
    - Code outside the repository is an interface, a class with the laws the proofs use:
      JSON values and serde ([Jobs.Json], [Jobs.PayloadSerde], [Envelope.EnvelopeSerde]),
      the url crate ([Inbox.UrlLib], [Net.UrlSyntax]), the TOML decoder ([Config.Toml]),
      chrono-tz ([Publisher.TimeZones]), SHA-256 and the image crate ([Preview.Sha256],
      [Preview.ImageLib]), teloxide ([Telegram.TelegramPublicationApi],
      [UploadProvider.TelegramStorageApi]), frame features ([VideoSequence.FrameFeatures]),
      case mapping, and the text forms of errors, times and identifiers.  [Instances],
      [PublisherDemo] and the sections of witnesses inhabit them; every property with a
      hypothesis has a witness evaluated there.

    ** Files

    - [Prelude], [Text], [F64], [Proc]: results, transactions and their inversion, record
      update, machine integers, text, doubles, programs.  [Enums]: the database
      enumerations with their text forms and the transitions of an ingest.
    - The queue: [Jobs] (commands and payloads, [jobs/src/lib.rs]), [Db] (the tables),
      [Queue] ([persistence/src/jobs.rs]), [Cleanup] ([cleanup.rs]), [Settlement]
      ([settlement.rs] with the settlement and recovery of every job family), [Retention]
      ([retention.rs]).  [QueueSpec], [SettlementSpec], [RecoverySpec], [RetentionSpec] prove.
    - Ingests: [Envelope] (the versioned input envelope), [Inbox] (submissions and the
      aggregate, [inbox/src/lib.rs]), [InboxRepo], [InboxOps] (every writing method of
      [persistence/src/inbox.rs]).  [EnvelopeSpec], [InboxInv], [InboxCalls], [InboxSpec]
      prove, [InboxWitness] evaluates.
    - The library: [Library] ([library/src/lib.rs]), [LibraryRepo], [LibraryStorage],
      [MediaIdentity] ([persistence/src/library.rs]: captions, storage uploads, media
      resolution, near duplicates, video identity), [WorkerIdentity] (the decision of
      [apps/worker/src/identity.rs]).  [LibraryInv], [LibrarySpec], [LibraryHistory],
      [IdentitySpec], [IdentityWitness] prove.
    - Publishing: [Publisher] ([publisher/src/lib.rs]), [PublisherRepo], [PublisherOps],
      [PublisherSend] ([persistence/src/publisher.rs]: channels, posts, the cadence, the send
      protocol).  [PublisherInv], [PublisherSpec], [PublisherHistory], [PublisherReplay],
      [CadenceSpec] prove.
    - Telegram: [Telegram] (errors, publication requests, captions), [UploadProvider] (the
      upload protocol of [telegram/src/storage.rs] and the storage handlers of the worker),
      [Bot] ([telegram/src/service.rs], [polling.rs], and the ingest service of
      [apps/server/src/main.rs]), [BotSpec].
    - Media: [Preview], [PreviewSpec] (bounded previews); [VideoSequence], [Alignment] and
      their specifications (fingerprints and their comparison); [Normalize], [NormalizeSpec]
      (the video planner); [Execute], [NormalizeVideo] (running ffmpeg, choosing and
      publishing an encode), [FileLogic], [ExecuteSpec], [NormalizeVideoSpec]; [Net],
      [NetSpec] (addresses), [Download] ([direct_http.rs], [two_ch.rs]), [YtDlp] ([ytdlp.rs]
      and the source router), [DownloadSpec], [YtDlpSpec].
    - The worker: [Runner] (the loop, [runner.rs]), [Workspace] (directories, disk admission,
      cleanup, reconciliation), [IngestWorker] (inspection, download, probe, normalization),
      [PublishWorker] (publication), [UploadSystem] (uploads running together).
      [RunnerSpec], [IngestWorkerSpec], [PublishWorkerSpec], [UploadSpec], [UploadWitness]
      prove.
    - Configuration: [Config] (command line, file, environment, validation), [ConfigSpec].

    ** What is proved

    - Systems (C1 to C8): over every interleaving with crashes and lost answers a post has
      at most one message and so has a generation of a media object; a stopped worker holds
      no lease; the video normalization returns without leaving a file behind, a cancellation
      leaves at most the one that was being made, no published output is changed,
      and sizes are reported truthfully; stage handlers report what they recorded; downloads and
      inspections are confined to public addresses, their byte limit and their directory;
      the scavenger spares current workspaces.
    - The queue (C9 to C13): the claim takes the first eligible job, a stale lease changes
      nothing and stays stale, claims are bounded by the attempts, every operation keeps the
      table well formed.
    - Publishing (C14 to C18): every publisher transaction refines one step of the post
      machine, final posts never change, completions are fenced, cadence slots are exclusive
      and the earliest ones through zone gaps and folds.
    - The library (C19 to C22): every transaction refines one step of the upload and caption
      machines, unknown uploads wait for an operator, completions need their reservation.
    - Settlement, recovery, retention (C23 to C26): settlement is fenced for every family and
      settles the owner; a recovery pass frees every expired lease; a retention pass ends,
      and every deletion is of a job that is old enough, unlocked and released.
    - Fingerprints and identity (C27 to C31): exact codecs, storable evidence, optimal
      alignments, one media for the same bytes.
    - Ingests (C32 to C35): requests are immutable and states follow the lifecycle, stage
      calls are fenced by their lease, submissions are idempotent, duplicate decisions final.
    - The video planner (C36, C37), the configuration (C38, C40), blocked addresses (C39).
    - Beside these: the Telegram intake acknowledges a submission only after it is recorded
      ([BotSpec.acknowledged_submissions_are_recorded]); round trips of the envelope,
      acceptance of previews, replays of publication requests, machine bounds of alignments,
      and the theorems that exhibit the flaws listed in the manifest.

    ** Fuel and bounds

    The cadence scan is structural over the 370 days of the source.  The retention loop runs
    with [scan_size + 1] rounds, and C25 shows that this suffices.  The preview loop runs with
    640 rounds, the sum of the two largest sides, which every round lowers
    ([PreviewSpec.bounded_preview_terminates]).  The resolution ladder has the first short
    edge as fuel and reaches its end within it (C36).  The walk back through the direction
    table has the sum of its indices as fuel.  The loops of the worker, of an upload and of
    the bot never end by themselves; they take a number of rounds, and their theorems hold
    for every number.

    ** Assumptions and limits

    - A handler is cancelled while it awaits a call, whose effect may come later.  ffmpeg
      writes only to the output it is given; the probe of a file, the image normalizer and
      the decoder of animations are single calls.
    - A response body is a finite list of chunks; the text of a validated URL parses to that
      URL again.  The reconciliation and the database read clocks that agree as the step
      relation of C8 states.
    - Histories of the library (C19 to C22, C31) are made of the transactions of the library
      repository; the ingest repository also changes media rows, in [accept_duplicate],
      [fail_storage_for_media], [complete_storage_for_media] and [begin_workspace_cleanup].
      Histories of the ingest repository (C32 to C35) do not contain the settlement of jobs
      or the storage commands of the library.
    - Telegram keeps updates that were not acknowledged (it drops them after a day).

    ** Not modelled

    The HTTP API, the companion, the start-up of the applications and logging (glue over
    axum and tracing); the administration page and the user scripts (browser code); the
    version check and the token provider of yt-dlp at start-up; the fingerprint and
    finalization handlers around the modelled repository calls; frame extraction, frame
    features and image codecs; file downloads from Telegram; the manifest of a workspace and
    other functions only tests call ([record_media_metadata],
    [record_video_sequence_fingerprint]); read-only listings, counts and searches. *)

From stdpp Require Export base tactics numbers option list strings sorting relations fin_maps gmap pretty.
From Stdlib Require Export ZArith Lia.

#[global] Open Scope Z_scope.

(** ** Results: Rust's [Result<A, E>] *)

Inductive result (E A : Type) : Type :=
| Ok (a : A)
| Err (e : E).
Arguments Ok {E A} a.
Arguments Err {E A} e.

#[global] Instance result_ret E : MRet (result E) := fun A a => Ok a.
#[global] Instance result_bind E : MBind (result E) := fun A B f r =>
  match r with Ok a => f a | Err e => Err e end.
#[global] Instance result_fmap E : FMap (result E) := fun A B f r =>
  match r with Ok a => Ok (f a) | Err e => Err e end.

Definition ok_or {E A} (o : option A) (e : E) : result E A :=
  match o with Some a => Ok a | None => Err e end.

Definition map_err {E F A} (f : E → F) (r : result E A) : result F A :=
  match r with Ok a => Ok a | Err e => Err (f e) end.

(** [Option::or]. *)
Definition or_else {A} (a b : option A) : option A := match a with Some _ => a | None => b end.

(** A check: [if !b { return Err(e) }]. *)
Definition ensure {E} (b : bool) (e : E) : result E unit := if b then Ok tt else Err e.

Definition is_ok {E A} (r : result E A) : bool :=
  match r with Ok _ => true | Err _ => false end.

Lemma result_bind_ok {E A B} (r : result E A) (f : A → result E B) b :
  (r ≫= f) = Ok b ↔ ∃ a, r = Ok a ∧ f a = Ok b.
Proof. unfold mbind, result_bind. destruct r; naive_solver. Qed.

Lemma map_err_ok {E F A} (g : E → F) (r : result E A) a : map_err g r = Ok a ↔ r = Ok a.
Proof. destruct r; naive_solver. Qed.

Lemma ok_or_ok {E A} (o : option A) (e : E) a : ok_or o e = Ok a ↔ o = Some a.
Proof. destruct o; naive_solver. Qed.

Lemma ensure_ok {E} (b : bool) (e : E) u : ensure b e = Ok u ↔ b = true.
Proof. destruct b, u; naive_solver. Qed.

(** Split a successful computation into its successful parts. *)
Ltac result_inv := repeat match goal with
  | H : (mbind _ _) = Ok _ |- _ => apply result_bind_ok in H as (? & ? & ?)
  | H : map_err _ _ = Ok _ |- _ => apply map_err_ok in H
  | H : ok_or _ _ = Ok _ |- _ => apply ok_or_ok in H
  | H : ensure _ _ = Ok _ |- _ => apply ensure_ok in H
  end.

(** ** Record update

    [r <| f := v |>] rebuilds a record with one field replaced.  A record takes
    part by giving an [Eta] instance that lists its projections once. *)

Class Eta (R : Type) := eta : R → R.
Class FieldSetter {R T : Type} (proj : R → T) := set_field : T → R → R.
Arguments set_field {R T} proj {_} v r /.

Ltac head_of t :=
  lazymatch t with
  | ?f _ => head_of f
  | _ => t
  end.

Ltac build_setter proj :=
  lazymatch type of proj with
  | ?R → ?T =>
    let inst := constr:(_ : Eta R) in
    let inst := lazymatch inst with ?x => x end in
    exact (fun (v : T) (r : R) => ltac:(
      let h := head_of inst in
      let body := eval cbv beta delta [h] in (inst r) in
      lazymatch body with
      | context C [proj r] => let b := context C [v] in exact b
      end))
  end.

#[global] Hint Extern 1 (@FieldSetter _ _ ?proj) => build_setter proj : typeclass_instances.

Declare Custom Entry field_assignment.
Notation "p := v" := (set_field p v)
  (in custom field_assignment at level 1, p constr at level 1, v constr at level 99).
Notation "r <| a |>" := (a r)
  (at level 1, left associativity, a custom field_assignment at level 1, only parsing).
Notation "r <| a ; .. ; b ; c |>" := (c (b .. (a r) ..))
  (at level 1, left associativity, a custom field_assignment at level 1,
   b custom field_assignment at level 1, c custom field_assignment at level 1, only parsing).

(** ** Database transactions

    A transaction runs against a snapshot of the state with a fixed set of
    clock readings.  [Err] is Rust's early return out of an open transaction:
    the transaction is dropped and PostgreSQL rolls it back. *)

(** The three clocks the SQL and the Rust code read.  [sql_now] is [now()],
    constant for a transaction; [sql_clock] is [clock_timestamp()]; [app_now]
    is [OffsetDateTime::now_utc()].  Instants are microseconds since the Unix
    epoch, the resolution of [timestamptz]. *)
Record Clock := { sql_now : Z; sql_clock : Z; app_now : Z }.

Definition txn (S E A : Type) : Type := Clock → S → result E (A * S).

#[global] Instance txn_ret S E : MRet (txn S E) := fun A a _ s => Ok (a, s).
#[global] Instance txn_bind S E : MBind (txn S E) := fun A B f m ck s =>
  match m ck s with
  | Ok (a, s') => f a ck s'
  | Err e => Err e
  end.

Definition throw {S E A} (e : E) : txn S E A := fun _ _ => Err e.
Definition get_state {S E} : txn S E S := fun _ s => Ok (s, s).
Definition put_state {S E} (s : S) : txn S E unit := fun _ _ => Ok (tt, s).
Definition get_clock {S E} : txn S E Clock := fun ck s => Ok (ck, s).
Definition lift {S E A} (r : result E A) : txn S E A := fun _ s =>
  match r with Ok a => Ok (a, s) | Err e => Err e end.
Definition lift_err {S E F A} (f : E → F) (m : txn S E A) : txn S F A := fun ck s =>
  map_err f (m ck s).
(** [if c { return Err(e) }]. *)
Definition fail_if {S E} (c : bool) (e : E) : txn S E unit := fun _ s =>
  if c then Err e else Ok (tt, s).
(** [o.ok_or(e)?]. *)
Definition require {S E A} (o : option A) (e : E) : txn S E A := lift (ok_or o e).

(** [transaction.commit()] on success, rollback on an early return. *)
Definition run_txn {S E A} (m : txn S E A) (ck : Clock) (s : S) : result E A * S :=
  match m ck s with
  | Ok (a, s') => (Ok a, s')
  | Err e => (Err e, s)
  end.

(** A repository call: its result and the committed state.  The state may have
    changed although the result is an error, when the error arises after the
    commit. *)
Definition op (S E A : Type) : Type := Clock → S → result E A * S.

(** Commit a transaction, then decode what it returned. *)
Definition commit_then {S E A B} (m : txn S E A) (decode : A → result E B) : op S E B :=
  fun ck s => let '(r, s') := run_txn m ck s in (r ≫= decode, s').

(** A transaction that only reads. *)
Definition read_only {S E A} (m : txn S E A) : Prop :=
  ∀ ck s a s', m ck s = Ok (a, s') → s' = s.

(** ** Reasoning about transactions

    Inversion lemmas: a successful composite transaction splits into successful
    parts.  They are collected in [txn_ok] and driven by [txn_inv]. *)

Section TxnInversion.
Context {S E : Type}.
Implicit Types (ck : Clock) (s : S).

Lemma txn_bind_ok {A B} (m : txn S E A) (f : A → txn S E B) ck s b s' :
  (m ≫= f) ck s = Ok (b, s') ↔ ∃ a s1, m ck s = Ok (a, s1) ∧ f a ck s1 = Ok (b, s').
Proof.
  unfold mbind, txn_bind. split.
  - destruct (m ck s) as [[a s1]|]; [|done]. eauto.
  - intros (a & s1 & -> & H). done.
Qed.

Lemma txn_ret_ok {A} (a b : A) ck s s' :
  (mret a : txn S E A) ck s = Ok (b, s') ↔ b = a ∧ s' = s.
Proof. unfold mret, txn_ret. naive_solver. Qed.

Lemma throw_ok {A} (e : E) ck s (a : A) s' : throw e ck s = Ok (a, s') ↔ False.
Proof. unfold throw. naive_solver. Qed.

Lemma get_state_ok ck s r s' : (get_state : txn S E S) ck s = Ok (r, s') ↔ r = s ∧ s' = s.
Proof. unfold get_state. naive_solver. Qed.

Lemma put_state_ok ck s t u s' : (put_state t : txn S E unit) ck s = Ok (u, s') ↔ s' = t.
Proof. unfold put_state. destruct u. naive_solver. Qed.

Lemma get_clock_ok ck s r s' : (get_clock : txn S E Clock) ck s = Ok (r, s') ↔ r = ck ∧ s' = s.
Proof. unfold get_clock. naive_solver. Qed.

Lemma lift_ok {A} (r : result E A) ck s a s' :
  lift r ck s = Ok (a, s') ↔ r = Ok a ∧ s' = s.
Proof. unfold lift. destruct r; naive_solver. Qed.

Lemma lift_err_ok {F A} (g : E → F) (m : txn S E A) ck s a s' :
  lift_err g m ck s = Ok (a, s') ↔ m ck s = Ok (a, s').
Proof. unfold lift_err, map_err. destruct (m ck s); naive_solver. Qed.

Lemma fail_if_ok (c : bool) (e : E) ck s u s' :
  fail_if c e ck s = Ok (u, s') ↔ c = false ∧ s' = s.
Proof. unfold fail_if. destruct c, u; naive_solver. Qed.

Lemma require_ok {A} (o : option A) (e : E) ck s a s' :
  require o e ck s = Ok (a, s') ↔ o = Some a ∧ s' = s.
Proof. unfold require, ok_or. rewrite lift_ok. destruct o; naive_solver. Qed.

Lemma if_ok {A} (c : bool) (m n : txn S E A) ck s a s' :
  (if c then m else n) ck s = Ok (a, s') ↔
    (c = true ∧ m ck s = Ok (a, s')) ∨ (c = false ∧ n ck s = Ok (a, s')).
Proof. destruct c; naive_solver. Qed.
End TxnInversion.

Create Rewrite HintDb txn_ok.
#[global] Hint Rewrite @txn_bind_ok @txn_ret_ok @throw_ok @get_state_ok @put_state_ok
  @get_clock_ok @lift_ok @lift_err_ok @fail_if_ok @require_ok : txn_ok.

(** Split every hypothesis [m ck s = Ok (a, s')] into its steps, without
    unfolding the named operations inside. *)
Ltac txn_inv_step :=
  match goal with
  | H : _ ∧ _ |- _ => destruct H
  | H : ∃ _, _ |- _ => destruct H
  | H : False |- _ => destruct H
  | H : (_, _) = (_, _) |- _ => injection H as H
  | H : (mbind _ _) _ _ = Ok _ |- _ => apply txn_bind_ok in H
  | H : (mret _) _ _ = Ok _ |- _ => apply txn_ret_ok in H
  | H : throw _ _ _ = Ok _ |- _ => apply throw_ok in H
  | H : get_state _ _ = Ok _ |- _ => apply get_state_ok in H
  | H : put_state _ _ _ = Ok _ |- _ => apply put_state_ok in H
  | H : get_clock _ _ = Ok _ |- _ => apply get_clock_ok in H
  | H : lift _ _ _ = Ok _ |- _ => apply lift_ok in H
  | H : lift_err _ _ _ _ = Ok _ |- _ => apply lift_err_ok in H
  | H : fail_if _ _ _ _ = Ok _ |- _ => apply fail_if_ok in H
  | H : require _ _ _ _ = Ok _ |- _ => apply require_ok in H
  end.
(** Turn the boolean guards of the code into propositions. *)
Ltac bool_norm_step :=
  match goal with
  | H : negb _ = false |- _ => apply negb_false_iff in H
  | H : negb _ = true |- _ => apply negb_true_iff in H
  | H : _ && _ = true |- _ => apply andb_true_iff in H; destruct H
  | H : _ || _ = false |- _ => apply orb_false_iff in H; destruct H
  | H : bool_decide _ = true |- _ => apply bool_decide_eq_true in H
  | H : bool_decide _ = false |- _ => apply bool_decide_eq_false in H
  | H : (_ =? _) = true |- _ => apply Z.eqb_eq in H
  | H : (_ =? _) = false |- _ => apply Z.eqb_neq in H
  | H : (_ <=? _) = true |- _ => apply Z.leb_le in H
  | H : (_ <=? _) = false |- _ => apply Z.leb_gt in H
  | H : (_ <? _) = true |- _ => apply Z.ltb_lt in H
  | H : (_ <? _) = false |- _ => apply Z.ltb_ge in H
  | H : (_ =? _)%N = true |- _ => apply N.eqb_eq in H
  | H : (_ =? _)%N = false |- _ => apply N.eqb_neq in H
  end.
Ltac bool_norm := repeat bool_norm_step.
Ltac txn_inv := repeat ((txn_inv_step || bool_norm_step); simplify_eq/=).

Lemma run_txn_ok {S E A} (m : txn S E A) ck s a s' :
  run_txn m ck s = (Ok a, s') ↔ m ck s = Ok (a, s').
Proof. unfold run_txn. destruct (m ck s) as [[??]|]; naive_solver. Qed.

Lemma run_txn_err {S E A} (m : txn S E A) ck s e s' :
  run_txn m ck s = (Err e, s') → s' = s.
Proof. unfold run_txn. destruct (m ck s) as [[??]|]; naive_solver. Qed.

Lemma run_txn_cases {S E A} (m : txn S E A) ck s r s' :
  run_txn m ck s = (r, s') → s' = s ∨ ∃ a, r = Ok a ∧ m ck s = Ok (a, s').
Proof. unfold run_txn. destruct (m ck s) as [[??]|]; naive_solver. Qed.

Lemma run_txn_inv {S E A} (m : txn S E A) ck s r s' :
  run_txn m ck s = (r, s') →
  (∃ a, r = Ok a ∧ m ck s = Ok (a, s')) ∨ (∃ e, r = Err e ∧ s' = s).
Proof. unfold run_txn. destruct (m ck s) as [[??]|]; naive_solver. Qed.

Lemma commit_then_state {S E A B} (m : txn S E A) (decode : A → result E B) ck s r s' :
  commit_then m decode ck s = (r, s') → s' = s ∨ ∃ a, r = decode a ∧ m ck s = Ok (a, s').
Proof.
  unfold commit_then. destruct (run_txn m ck s) as [r0 s0] eqn:Hr. intros [= <- <-].
  apply run_txn_cases in Hr as [->|(a & -> & Ha)]; [by left|]. right. eauto.
Qed.

Lemma commit_then_inv {S E A B} (m : txn S E A) (decode : A → result E B) ck s r s' :
  commit_then m decode ck s = (r, s') →
  (∃ e, r = Err e ∧ s' = s) ∨ ∃ a, r = decode a ∧ m ck s = Ok (a, s').
Proof.
  unfold commit_then, run_txn. destruct (m ck s) as [[a s0]|e]; intros [= <- <-]; [right|left]; eauto.
Qed.

(** An operation preserves [I] when its transaction does. *)
Lemma commit_then_preserves {S E A B} (I : S → Prop) (m : txn S E A) (decode : A → result E B) ck s :
  (∀ a s', m ck s = Ok (a, s') → I s → I s') → I s → I (commit_then m decode ck s).2.
Proof.
  intros Hm Hs. destruct (commit_then m decode ck s) as [r s'] eqn:Hc. simpl.
  apply commit_then_state in Hc as [->|(a & _ & Ha)]; eauto.
Qed.

(** Decide a closed equation by evaluation: an equation between structured
    values through its decision procedure, so that only a boolean is compared. *)
Lemma ok_by_decision {E A} `{EqDecision A} (r : result E A) (a : A) :
  match r with Ok x => bool_decide (x = a) | Err _ => false end = true → r = Ok a.
Proof. destruct r as [x|]; [|done]. intros Hd. by apply bool_decide_eq_true in Hd as ->. Qed.

Ltac eval_bool := match goal with |- ?x = true => vm_cast_no_check (eq_refl true) end.
Ltac by_vm :=
  lazymatch goal with
  | |- @eq bool ?x ?y => vm_cast_no_check (eq_refl y)
  | |- @eq (result _ _) _ (Ok _) => apply ok_by_decision; eval_bool
  | |- _ = _ => apply (bool_decide_eq_true_1 _); eval_bool
  end.

(** ** Machine integers *)

Definition i32_max : Z := 2147483647.
Definition i32_min : Z := -2147483648.
Definition i64_max : Z := 9223372036854775807.
Definition i64_min : Z := -9223372036854775808.
Definition u32_max : Z := 4294967295.
Definition u64_max : Z := 18446744073709551615.

Definition in_i64 (z : Z) : bool := (i64_min <=? z) && (z <=? i64_max).

(** [i64::checked_add(1)]. *)
Definition checked_succ_i64 (z : Z) : option Z :=
  if z + 1 <=? i64_max then Some (z + 1) else None.

(** ** Text

    Rust strings and SQL [text] as the sequence of their Unicode scalar
    values; [lit] turns a literal into that form. *)

Abbreviation Str := (list Z).

Fixpoint lit (s : string) : Str :=
  match s with
  | EmptyString => []
  | String a s => Z.of_N (Ascii.N_of_ascii a) :: lit s
  end.

Lemma lit_inj s t : lit s = lit t → s = t.
Proof.
  revert t. induction s as [|a s IH]; intros [|b t]; simpl; intros H; simplify_eq; [done|].
  f_equal; [|auto].
  rewrite <-(Ascii.ascii_N_embedding a), <-(Ascii.ascii_N_embedding b). by f_equal.
Qed.
#[global] Arguments lit : simpl never.

(** [i64::to_string] and the like: decimal digits, with a sign when negative. *)
Definition show (z : Z) : Str := lit (pretty z).

(** [char::is_whitespace]: the Unicode [White_Space] property. *)
Definition is_whitespace (c : Z) : bool :=
  ((9 <=? c) && (c <=? 13)) || (c =? 32) || (c =? 133) || (c =? 160) || (c =? 5760)
  || ((8192 <=? c) && (c <=? 8202)) || (c =? 8232) || (c =? 8233) || (c =? 8239)
  || (c =? 8287) || (c =? 12288).

(** [char::is_control]: the Unicode general category [Cc]. *)
Definition is_control (c : Z) : bool :=
  ((0 <=? c) && (c <=? 31)) || ((127 <=? c) && (c <=? 159)).

Fixpoint trim_start (s : Str) : Str :=
  match s with
  | [] => []
  | c :: s' => if is_whitespace c then trim_start s' else s
  end.

Definition trim_end (s : Str) : Str := reverse (trim_start (reverse s)).

(** [str::trim]. *)
Definition trim (s : Str) : Str := trim_end (trim_start s).

Definition is_empty (s : Str) : bool := match s with [] => true | _ => false end.

(** [s.chars().count()]. *)
Definition char_count (s : Str) : Z := Z.of_nat (length s).

Lemma trim_start_head s : head (trim_start s) = None ∨
  ∃ c, head (trim_start s) = Some c ∧ is_whitespace c = false.
Proof. induction s as [|c s IH]; simpl; [by left|]. destruct (is_whitespace c) eqn:?; naive_solver. Qed.

Lemma trim_start_id s : (∀ c, head s = Some c → is_whitespace c = false) → trim_start s = s.
Proof. destruct s as [|c s]; simpl; [done|]. intros H. by rewrite (H c). Qed.

Lemma trim_start_suffix s : ∃ p, s = p ++ trim_start s ∧ Forall (λ c, is_whitespace c = true) p.
Proof.
  induction s as [|c s (p & Hp & Hw)]; simpl; [by exists []|].
  destruct (is_whitespace c) eqn:?; [|by exists []].
  exists (c :: p). split; [by simpl; f_equal|by constructor].
Qed.

Lemma trim_start_idemp s : trim_start (trim_start s) = trim_start s.
Proof.
  apply trim_start_id. intros c Hc.
  destruct (trim_start_head s) as [?|(c' & ? & ?)]; congruence.
Qed.

Lemma trim_end_prefix s : ∃ p, s = trim_end s ++ p ∧ Forall (λ c, is_whitespace c = true) p.
Proof.
  unfold trim_end. destruct (trim_start_suffix (reverse s)) as (p & Hp & Hw).
  exists (reverse p). split; [|by apply Forall_reverse].
  by rewrite <-reverse_app, <-Hp, reverse_involutive.
Qed.

Lemma trim_end_trim_start s : trim_start (trim_end (trim_start s)) = trim_end (trim_start s).
Proof.
  apply trim_start_id. intros c Hc.
  destruct (trim_end_prefix (trim_start s)) as (p & Hp & _).
  destruct (trim_end (trim_start s)) as [|c' t] eqn:Ht; [done|]. simplify_eq/=.
  destruct (trim_start_head s) as [Hh|(c' & Hh & ?)]; rewrite Hp in Hh; naive_solver.
Qed.

Lemma trim_idemp s : trim (trim s) = trim s.
Proof.
  unfold trim at 1. fold (trim s). unfold trim. rewrite trim_end_trim_start.
  unfold trim_end. by rewrite reverse_involutive, trim_start_idemp.
Qed.

Lemma length_trim s : (length (trim s) ≤ length s)%nat.
Proof.
  unfold trim. destruct (trim_end_prefix (trim_start s)) as (p & Hp & _).
  destruct (trim_start_suffix s) as (q & Hq & _).
  rewrite Hq at 2. rewrite Hp at 2. rewrite !length_app. lia.
Qed.

(** ** Bytes *)

(** [to_be_bytes]: the [n] low bytes of the two's complement, high byte first. *)
Definition be_bytes (n : nat) (z : Z) : list Z :=
  (λ i, Z.land (Z.shiftr z (8 * Z.of_nat i)) 255) <$> reverse (seq 0 n).

(** [as_bytes]: UTF-8. *)
Definition utf8_char (c : Z) : list Z :=
  if c <? 128 then [c]
  else if c <? 2048 then [192 + c / 64; 128 + c mod 64]
  else if c <? 65536 then [224 + c / 4096; 128 + (c / 64) mod 64; 128 + c mod 64]
  else [240 + c / 262144; 128 + (c / 4096) mod 64; 128 + (c / 64) mod 64; 128 + c mod 64].
Definition utf8 (s : Str) : list Z := s ≫= utf8_char.

(** ** Lexicographic order of [ORDER BY] columns *)

Fixpoint lex_le (a b : list Z) : bool :=
  match a, b with
  | [], _ => true
  | _ :: _, [] => false
  | x :: a, y :: b => if x <? y then true else if y <? x then false else lex_le a b
  end.

Lemma lex_le_total a b : lex_le a b = true ∨ lex_le b a = true.
Proof.
  revert b. induction a as [|x a IH]; intros [|y b]; simpl; auto.
  destruct (Z.ltb_spec x y), (Z.ltb_spec y x); auto; try lia.
Qed.

Lemma lex_le_trans a b c : lex_le a b = true → lex_le b c = true → lex_le a c = true.
Proof.
  revert b c. induction a as [|x a IH]; intros [|y b] [|z c]; simpl; try done.
  destruct (Z.ltb_spec x y), (Z.ltb_spec y x), (Z.ltb_spec y z), (Z.ltb_spec z y),
    (Z.ltb_spec x z), (Z.ltb_spec z x); try done; try lia; eauto.
Qed.

(** ** SQL [ORDER BY]

    [order_by le l] sorts by insertion; [le] is the boolean order of the
    [ORDER BY] columns. *)

Section OrderBy.
Context {A : Type} (le : A → A → bool).

Fixpoint order_insert (x : A) (l : list A) : list A :=
  match l with
  | [] => [x]
  | y :: l' => if le x y then x :: l else y :: order_insert x l'
  end.

Definition order_by (l : list A) : list A := foldr order_insert [] l.

Lemma order_insert_perm x l : order_insert x l ≡ₚ x :: l.
Proof.
  induction l as [|y l IH]; simpl; [done|]. destruct (le x y); [done|].
  rewrite IH. constructor.
Qed.

Lemma order_by_perm l : order_by l ≡ₚ l.
Proof. induction l as [|x l IH]; simpl; [done|]. by rewrite order_insert_perm, IH. Qed.

Lemma elem_of_order_by x l : x ∈ order_by l ↔ x ∈ l.
Proof. by rewrite order_by_perm. Qed.

Context (le_total : ∀ x y, le x y = true ∨ le y x = true)
        (le_trans : ∀ x y z, le x y = true → le y z = true → le x z = true).

Lemma order_insert_sorted x l :
  StronglySorted (λ a b, le a b = true) l →
  StronglySorted (λ a b, le a b = true) (order_insert x l).
Proof.
  induction 1 as [|y l Hs IH Hy]; simpl; [repeat constructor|].
  destruct (le x y) eqn:Hxy.
  - constructor; [by constructor|]. constructor; [done|].
    eapply Forall_impl; [done|]. eauto.
  - constructor; [done|]. rewrite order_insert_perm. constructor; [|done].
    destruct (le_total x y); congruence.
Qed.

Lemma order_by_sorted l : StronglySorted (λ a b, le a b = true) (order_by l).
Proof. induction l; simpl; [constructor|by apply order_insert_sorted]. Qed.

Lemma order_by_head_min l x : head (order_by l) = Some x →
  x ∈ l ∧ ∀ y, y ∈ l → le x y = true.
Proof.
  intros Hx. pose proof (order_by_sorted l) as Hs.
  destruct (order_by l) as [|x' l'] eqn:Hl; simplify_eq/=.
  inversion_clear Hs as [|? ? _ Hall].
  split; [apply elem_of_order_by; rewrite Hl; left|].
  intros y Hy. rewrite <-elem_of_order_by, Hl, elem_of_cons in Hy.
  destruct Hy as [->|Hy]; [destruct (le_total x x); done|].
  by eapply Forall_forall in Hall.
Qed.

Lemma order_by_head_none l : head (order_by l) = None → l = [].
Proof.
  destruct (order_by l) eqn:Hl; [|done]. intros _.
  apply Permutation_nil_r. by rewrite <-Hl, order_by_perm.
Qed.
End OrderBy.
