(* ===== verification/F64.v ===== *)
(** * F64: the double-precision arithmetic the media code uses

    Positive doubles by their values, as rationals.  A quotient or a product is the
    exact value rounded to 53 significant bits, ties to even; the values here stay far
    inside the range of normal numbers, so neither overflow nor underflow occurs.
    Integers below 2^53, and halving and doubling, are exact. *)

From Stdlib Require Import QArith Qround Qpower Lqa.
From S2P Require Import Prelude.

Abbreviation f64 := Q.
Local Open Scope Q_scope.

Definition of_u32 (n : Z) : f64 := inject_Z n.

(** The exponent of the leading bit: [2^k <= q < 2^(k+1)]. *)
Definition leading_bit (q : Q) : Z :=
  let k := (Z.log2 (Qnum q) - Z.log2 (Zpos (Qden q)))%Z in
  if Qle_bool (2 ^ k) q then k else (k - 1)%Z.

(** The nearest integer, ties to even. *)
Definition nearest_even (q : Q) : Z :=
  let f := Qfloor q in
  let r := q - inject_Z f in
  match Qcompare r (1 # 2) with
  | Lt => f
  | Gt => (f + 1)%Z
  | Eq => if Z.even f then f else (f + 1)%Z
  end.

Definition round53 (q : Q) : f64 :=
  if Qle_bool q 0 then 0
  else let e := (leading_bit q - 52)%Z in inject_Z (nearest_even (q / 2 ^ e)) * 2 ^ e.

Definition f64_div (a b : f64) : f64 := round53 (a / b).
Definition f64_mul (a b : f64) : f64 := round53 (a * b).
Definition f64_le (a b : f64) : bool := Qle_bool a b.
Definition f64_min (a b : f64) : f64 := if Qle_bool a b then a else b.

(** The halved value and one, both exact. *)
Definition f64_half (q : f64) : f64 := q * (1 # 2).
Definition f64_one : f64 := 1.

(** [f64::round], half away from zero, of a value that is not negative. *)
Definition f64_round (q : f64) : Z := Qfloor (q + (1 # 2)).

(** ** Error bounds *)

(** Half a unit of the last of 53 bits. *)
Definition eps : Q := 1 # 9007199254740992.

Lemma nearest_even_error q :
  q - (1 # 2) <= inject_Z (nearest_even q) /\ inject_Z (nearest_even q) <= q + (1 # 2).
Proof.
  unfold nearest_even. pose proof (Qfloor_le q) as Hle. pose proof (Qlt_floor q) as Hlt.
  rewrite inject_Z_plus in Hlt. change (inject_Z 1) with 1 in Hlt.
  destruct (Qcompare_spec (q - inject_Z (Qfloor q)) (1 # 2)); [destruct (Z.even _)|..];
    rewrite ?inject_Z_plus; change (inject_Z 1) with 1; lra.
Qed.

Lemma Qpower_two_pos k : 0 < 2 ^ k.
Proof. apply Qpower_0_lt. lra. Qed.

Lemma Qpower_two_plus a b : 2 ^ (a + b) == 2 ^ a * 2 ^ b.
Proof. apply Qpower_plus. lra. Qed.
Lemma inject_power n : (0 <= n)%Z → inject_Z (2 ^ n) == 2 ^ n.
Proof. intros H. rewrite Zpower_Qpower by done. reflexivity. Qed.

(** A positive integer is between the powers of its logarithm. *)
Lemma log2_bounds n : (0 < n)%Z →
  2 ^ Z.log2 n <= inject_Z n /\ inject_Z n < 2 ^ (Z.log2 n + 1).
Proof.
  intros Hn. pose proof (Z.log2_nonneg n). pose proof (Z.log2_spec n Hn) as [Hl Hu].
  rewrite <-!inject_power by lia. rewrite <-Zle_Qle, <-Zlt_Qlt. by rewrite Z.add_1_r.
Qed.

Lemma leading_bit_bounds q : 0 < q → 2 ^ leading_bit q <= q /\ q < 2 ^ (leading_bit q + 1).
Proof.
  intros Hq. unfold leading_bit. set (ln := Z.log2 (Qnum q)). set (ld := Z.log2 (Zpos (Qden q))).
  assert (0 < Qnum q)%Z as Hn by (unfold Qlt in Hq; simpl in Hq; lia).
  destruct (log2_bounds _ Hn) as [Hn1 Hn2]. destruct (log2_bounds (Zpos (Qden q)) ltac:(done)) as [Hd1 Hd2].
  fold ln in Hn1, Hn2. fold ld in Hd1, Hd2.
  assert (q == inject_Z (Qnum q) / inject_Z (Zpos (Qden q))) as Hqd by (rewrite <-Qmake_Qdiv; by destruct q).
  set (N := inject_Z (Qnum q)) in *. set (D := inject_Z (Zpos (Qden q))) in *.
  assert (0 < D) as HD by (unfold D; change 0 with (inject_Z 0); rewrite <-Zlt_Qlt; done).
  assert (q * D == N) as Hmul by (rewrite Hqd; field; lra).
  pose proof (Qpower_two_pos (ln - ld)) as Hk. pose proof (Qpower_two_pos ld) as Hpd.
  assert (2 ^ ln == 2 ^ (ln - ld) * 2 ^ ld) as Hl by (rewrite <-Qpower_two_plus; by replace (ln - ld + ld)%Z with ln by lia).
  rewrite Qpower_two_plus in Hn2, Hd2. change (2 ^ 1) with (2#1) in Hn2, Hd2. rewrite Hl in Hn1, Hn2.
  set (K := 2 ^ (ln - ld)) in *. set (L := 2 ^ ld) in *.
  assert (q < K * 2) as Hup by nra.
  destruct (Qle_bool K q) eqn:Hb.
  - apply Qle_bool_iff in Hb. rewrite Qpower_two_plus. fold K. change (2 ^ 1) with (2#1). by split.
  - assert (q < K) as Hlt by (apply Qnot_le_lt; intros H%Qle_bool_iff; congruence).
    replace (ln - ld - 1 + 1)%Z with (ln - ld)%Z by lia. fold K. split; [|done].
    assert (2 ^ (ln - ld - 1) * 2 == K) as Hh.
    { unfold K. rewrite <-(Qpower_two_plus _ 1). by replace (ln - ld - 1 + 1)%Z with (ln - ld)%Z by lia. }
    nra.
Qed.

Lemma round53_error q : 0 < q → q - q * eps <= round53 q /\ round53 q <= q + q * eps.
Proof.
  intros Hq. unfold round53. destruct (Qle_bool q 0) eqn:Hb; [apply Qle_bool_iff in Hb; lra|].
  destruct (leading_bit_bounds q Hq) as [Hl _]. set (b := leading_bit q) in *.
  pose proof (Qpower_two_pos (b - 52)) as He. set (E := 2 ^ (b - 52)) in *.
  pose proof (nearest_even_error (q / E)) as Hn. set (m := inject_Z (nearest_even (q / E))) in *.
  assert (q / E * E == q) as Hqe by (field; lra).
  assert (E * (1 # 2) <= q * eps) as Hhalf.
  { assert (E == 2 ^ b * (1 # 2 ^ 52)) as ->.
    { unfold E. replace (b - 52)%Z with (b + -52)%Z by lia. rewrite Qpower_two_plus. reflexivity. }
    unfold eps. assert ((1 # 2 ^ 52) * (1 # 2) == 1 # 2 ^ 53) as Hp by reflexivity.
    rewrite <-Qmult_assoc, Hp. by apply Qmult_le_compat_r. }
  destruct Hn as [Hn1 Hn2]. set (x := q / E) in *. split; nra.
Qed.

Lemma round53_le q : 0 <= q → 0 <= round53 q /\ round53 q <= q * (1 + eps).
Proof.
  intros Hq. destruct (Qlt_le_dec 0 q) as [Hp|Hn].
  - destruct (round53_error q Hp) as [Hl Hu]. assert (q * eps <= q) by (unfold eps; lra). split; lra.
  - unfold round53. destruct (Qle_bool q 0) eqn:Hb; [unfold eps; lra|].
    exfalso. apply Qle_bool_iff in Hn. congruence.
Qed.

(** An integer quotient as a rational. *)
Lemma quotient_le x n d k : (0 < d)%Z → (x * n <= k * d)%Z →
  inject_Z x * (inject_Z n / inject_Z d) <= inject_Z k.
Proof.
  intros Hd H. assert (0 < inject_Z d) as HD by (change 0 with (inject_Z 0); by rewrite <-Zlt_Qlt).
  rewrite Zle_Qle, !inject_Z_mult in H.
  assert (inject_Z x * (inject_Z n / inject_Z d) == inject_Z x * inject_Z n / inject_Z d) as ->
    by (field; lra).
  by apply Qle_shift_div_r.
Qed.
Lemma quotient_ge x n d k : (0 < d)%Z → (k * d <= x * n)%Z →
  inject_Z k <= inject_Z x * (inject_Z n / inject_Z d).
Proof.
  intros Hd H. assert (0 < inject_Z d) as HD by (change 0 with (inject_Z 0); by rewrite <-Zlt_Qlt).
  rewrite Zle_Qle, !inject_Z_mult in H.
  assert (inject_Z x * (inject_Z n / inject_Z d) == inject_Z x * inject_Z n / inject_Z d) as ->
    by (field; lra).
  by apply Qle_shift_div_l.
Qed.

(** Scaling [x] by [n/d], or by less, stays within one of the exact value. *)
Lemma scale_upper x n d k s :
  (0 < d)%Z → (0 <= n)%Z → (0 <= x)%Z → (0 <= k <= 2 ^ 33)%Z → (x * n <= k * d)%Z →
  0 <= s → s <= f64_div (of_u32 n) (of_u32 d) →
  f64_mul (of_u32 x) s < inject_Z k + 1.
Proof.
  intros Hd Hn Hx [Hk1 Hk2] H Hs Hle. unfold f64_mul, f64_div, of_u32 in *.
  rewrite Zle_Qle in Hx, Hn, Hk1, Hk2. change (inject_Z 0) with 0 in *. change (inject_Z (2^33)) with (8589934592#1) in Hk2.
  assert (0 < inject_Z d) as HD by (change 0 with (inject_Z 0); by rewrite <-Zlt_Qlt).
  pose proof (quotient_le x n d k Hd H) as Hq.
  assert (0 <= inject_Z n / inject_Z d) as Hr by (apply Qle_shift_div_l; lra).
  destruct (round53_le _ Hr) as [_ Hdiv].
  assert (0 <= inject_Z x * s) as Hp by (apply Qmult_le_0_compat; lra).
  destruct (round53_le _ Hp) as [_ Hmul].
  set (X := inject_Z x) in *. set (R := inject_Z n / inject_Z d) in *. set (K := inject_Z k) in *.
  assert (X * s <= K * (1 + eps)) as Hxs.
  { apply Qle_trans with (X * (R * (1 + eps))); [|unfold eps in *; nra].
    rewrite !(Qmult_comm X). apply Qmult_le_compat_r; lra. }
  unfold eps in *. lra.
Qed.

Lemma scale_lower x n d k :
  (0 < d)%Z → (0 <= x)%Z → (0 < k <= 2 ^ 33)%Z → (k * d <= x * n)%Z →
  inject_Z k - 1 < f64_mul (of_u32 x) (f64_div (of_u32 n) (of_u32 d)).
Proof.
  intros Hd Hx [Hk1 Hk2] H. unfold f64_mul, f64_div, of_u32 in *.
  assert (0 < n)%Z as Hn by nia.
  rewrite Zle_Qle in Hk2, Hx. rewrite Zlt_Qlt in Hk1, Hn. change (inject_Z 0) with 0 in *.
  change (inject_Z (2^33)) with (8589934592#1) in Hk2.
  assert (0 < inject_Z d) as HD by (change 0 with (inject_Z 0); by rewrite <-Zlt_Qlt).
  pose proof (quotient_ge x n d k Hd H) as Hq.
  assert (0 < inject_Z n / inject_Z d) as Hr by (apply Qlt_shift_div_l; lra).
  destruct (round53_error _ Hr) as [Hdiv _].
  set (X := inject_Z x) in *. set (R := inject_Z n / inject_Z d) in *. set (K := inject_Z k) in *.
  assert (K * (1 - eps) <= X * round53 R) as Hxs by (unfold eps in *; nra).
  assert (0 < X * round53 R) as Hp by (unfold eps in *; lra).
  destruct (round53_error _ Hp) as [Hmul _]. unfold eps in *. lra.
Qed.

(** Rounding to an even number of pixels. *)
Lemma round_half_le v k : v < inject_Z (2 * k) + 1 → (f64_round (f64_half v) <= k)%Z.
Proof.
  intros H. unfold f64_round, f64_half. pose proof (Qfloor_le (v * (1 # 2) + (1 # 2))) as Hf.
  assert (inject_Z (Qfloor (v * (1 # 2) + (1 # 2))) < inject_Z (k + 1)) as Hlt; [|rewrite <-Zlt_Qlt in Hlt; lia].
  rewrite inject_Z_mult in H. rewrite inject_Z_plus. change (inject_Z 1) with 1. change (inject_Z 2) with (2#1) in H.
  lra.
Qed.
Lemma round_half_ge v k : inject_Z (2 * k) - 1 < v → (k <= f64_round (f64_half v))%Z.
Proof.
  intros H. unfold f64_round, f64_half. pose proof (Qlt_floor (v * (1 # 2) + (1 # 2))) as Hf.
  assert (inject_Z k < inject_Z (Qfloor (v * (1 # 2) + (1 # 2)) + 1)) as Hlt; [|rewrite <-Zlt_Qlt in Hlt; lia].
  rewrite inject_Z_mult in H. change (inject_Z 2) with (2#1) in H.
  lra.
Qed.

Lemma f64_min_le a b : f64_min a b <= a /\ f64_min a b <= b.
Proof.
  unfold f64_min. destruct (Qle_bool a b) eqn:H; [apply Qle_bool_iff in H; lra|].
  assert (b < a) by (apply Qnot_le_lt; intros H'%Qle_bool_iff; congruence). lra.
Qed.
Lemma f64_min_nonneg a b : 0 <= a → 0 <= b → 0 <= f64_min a b.
Proof. unfold f64_min. by destruct (Qle_bool a b). Qed.
Lemma f64_div_nonneg a b : (0 <= a)%Z → (0 < b)%Z → 0 <= f64_div (of_u32 a) (of_u32 b).
Proof.
  intros Ha Hb. apply round53_le, Qle_shift_div_l; unfold of_u32.
  - change 0 with (inject_Z 0). by rewrite <-Zlt_Qlt.
  - rewrite Zle_Qle in Ha. change (inject_Z 0) with 0 in Ha. lra.
Qed.
