(* ===== verification/Enums.v ===== *)
(** * Textual enumerations

    Every state column of the schema is [text], written by an [as_str] and read
    back by a [TryFrom<&str>].  This file holds those enumerations, one module
    each, with the interface [TextEnum] that the two directions are inverse. *)

From S2P Require Import Prelude.

(** A Rust [match value { "a" => Ok(A), ..., unknown => Err(unknown) }]. *)
Fixpoint match_text {T} (table : list (string * T)) (value : Str) : result Str T :=
  match table with
  | [] => Err value
  | (s, x) :: table => if decide (value = lit s) then Ok x else match_text table value
  end.

(** What [as_str] and [TryFrom] promise to the code that stores states as text. *)
Class TextEnum (T : Type) := {
  as_str : T → Str;
  try_from : Str → result Str T;
  try_from_as_str : ∀ x, try_from (as_str x) = Ok x;
  try_from_inv : ∀ s x, try_from s = Ok x → s = as_str x;
}.

Lemma match_text_inv {T} (table : list (string * T)) value x :
  match_text table value = Ok x → ∃ s, (s, x) ∈ table ∧ value = lit s.
Proof.
  induction table as [|[s y] table IH]; simpl; [done|].
  case_decide; intros; simplify_eq; [exists s; split; [left|done]|].
  destruct IH as (s' & ? & ?); [done|]. exists s'. split; [by right|done].
Qed.

(** An instance: the printing function, the table of [TryFrom]. *)
Ltac solve_text_enum :=
  [> intros []; vm_compute; reflexivity
   | intros s x Hx; apply match_text_inv in Hx as (t & Ht & ->);
     repeat (apply elem_of_cons in Ht as [Ht|Ht]; [simplify_eq; reflexivity|]);
     by apply elem_of_nil in Ht ].

Lemma as_str_inj `{TextEnum T} (x y : T) : as_str x = as_str y → x = y.
Proof.
  intros Hxy. assert (try_from (as_str x) = try_from (as_str y)) as Heq by by rewrite Hxy.
  rewrite !try_from_as_str in Heq. congruence.
Qed.

(** ** Queue *)

Module JobType.
Inductive t :=
| InspectSource | DownloadSource | ProbeAsset | NormalizeAsset | ComputeFingerprint
| FinalizeIngest | MaterializePublication | UploadStorageAsset | SyncStorageCaption
| PublishPost | CleanupWorkspace.
#[global] Instance t_eq_dec : EqDecision t.
Proof. solve_decision. Defined.

Definition to_string (k : t) : string :=
  match k with
  | InspectSource => "inspect_source"
  | DownloadSource => "download_source"
  | ProbeAsset => "probe_asset"
  | NormalizeAsset => "normalize_asset"
  | ComputeFingerprint => "compute_fingerprint"
  | FinalizeIngest => "finalize_ingest"
  | MaterializePublication => "materialize_publication"
  | UploadStorageAsset => "upload_storage_asset"
  | SyncStorageCaption => "sync_storage_caption"
  | PublishPost => "publish_post"
  | CleanupWorkspace => "cleanup_workspace"
  end.

Definition of_str : Str → result Str t := match_text
  [("inspect_source", InspectSource); ("download_source", DownloadSource);
   ("probe_asset", ProbeAsset); ("normalize_asset", NormalizeAsset);
   ("compute_fingerprint", ComputeFingerprint); ("finalize_ingest", FinalizeIngest);
   ("materialize_publication", MaterializePublication);
   ("upload_storage_asset", UploadStorageAsset);
   ("sync_storage_caption", SyncStorageCaption); ("publish_post", PublishPost);
   ("cleanup_workspace", CleanupWorkspace)].

#[global, refine] Instance text : TextEnum t :=
  {| as_str k := lit (to_string k); try_from := of_str |}.
Proof. all: solve_text_enum. Defined.
End JobType.

Module JobStatus.
Inductive t := Queued | Running | Succeeded | Failed | Cancelled.
#[global] Instance t_eq_dec : EqDecision t.
Proof. solve_decision. Defined.

Definition to_string (k : t) : string :=
  match k with
  | Queued => "queued" | Running => "running" | Succeeded => "succeeded"
  | Failed => "failed" | Cancelled => "cancelled"
  end.

Definition of_str : Str → result Str t := match_text
  [("queued", Queued); ("running", Running); ("succeeded", Succeeded);
   ("failed", Failed); ("cancelled", Cancelled)].

#[global, refine] Instance text : TextEnum t :=
  {| as_str k := lit (to_string k); try_from := of_str |}.
Proof. all: solve_text_enum. Defined.
End JobStatus.

(** ** Publisher *)

Module PostState.
Inductive t := Draft | Queued | Sending | Published | Unknown | Failed | Cancelled.
#[global] Instance t_eq_dec : EqDecision t.
Proof. solve_decision. Defined.

Definition to_string (k : t) : string :=
  match k with
  | Draft => "draft" | Queued => "queued" | Sending => "sending"
  | Published => "published" | Unknown => "unknown" | Failed => "failed"
  | Cancelled => "cancelled"
  end.

Definition of_str : Str → result Str t := match_text
  [("draft", Draft); ("queued", Queued); ("sending", Sending);
   ("published", Published); ("unknown", Unknown); ("failed", Failed);
   ("cancelled", Cancelled)].

#[global, refine] Instance text : TextEnum t :=
  {| as_str k := lit (to_string k); try_from := of_str |}.
Proof. all: solve_text_enum. Defined.

Definition is_live_or_fenced (k : t) : bool :=
  match k with Sending | Published | Unknown => true | _ => false end.

Definition is_queue_mutable (k : t) : bool :=
  match k with Draft | Queued | Failed => true | _ => false end.
End PostState.

Module PublicationAction.
Inductive t := Queue | PostNow.
#[global] Instance t_eq_dec : EqDecision t.
Proof. solve_decision. Defined.

Definition to_string (k : t) : string :=
  match k with Queue => "queue" | PostNow => "post_now" end.

Definition of_str : Str → result Str t :=
  match_text [("queue", Queue); ("post_now", PostNow)].

#[global, refine] Instance text : TextEnum t :=
  {| as_str k := lit (to_string k); try_from := of_str |}.
Proof. all: solve_text_enum. Defined.
End PublicationAction.

Module PublicationDecision.
Inductive t := PostNowAnyway | QueueAnyway | KeepExactTime | Cancel.
#[global] Instance t_eq_dec : EqDecision t.
Proof. solve_decision. Defined.

Definition to_string (k : t) : string :=
  match k with
  | PostNowAnyway => "post_now_anyway" | QueueAnyway => "queue_anyway"
  | KeepExactTime => "keep_exact_time" | Cancel => "cancel"
  end.
End PublicationDecision.

(** ** Library *)

Module MediaKind.
Inductive t := Video | Image | Animation | Audio.
#[global] Instance t_eq_dec : EqDecision t.
Proof. solve_decision. Defined.

Definition to_string (k : t) : string :=
  match k with
  | Video => "video" | Image => "image" | Animation => "animation" | Audio => "audio"
  end.

Definition of_str : Str → result Str t := match_text
  [("video", Video); ("image", Image); ("animation", Animation); ("audio", Audio)].

#[global, refine] Instance text : TextEnum t :=
  {| as_str k := lit (to_string k); try_from := of_str |}.
Proof. all: solve_text_enum. Defined.
End MediaKind.

Module SourceKind.
Inductive t := Webpage | DirectUrl | Youtube | Telegram | Upload.
#[global] Instance t_eq_dec : EqDecision t.
Proof. solve_decision. Defined.

Definition to_string (k : t) : string :=
  match k with
  | Webpage => "webpage" | DirectUrl => "direct_url" | Youtube => "youtube"
  | Telegram => "telegram" | Upload => "upload"
  end.

Definition of_str : Str → result Str t := match_text
  [("webpage", Webpage); ("direct_url", DirectUrl); ("youtube", Youtube);
   ("telegram", Telegram); ("upload", Upload)].

#[global, refine] Instance text : TextEnum t :=
  {| as_str k := lit (to_string k); try_from := of_str |}.
Proof. all: solve_text_enum. Defined.
End SourceKind.

Module MediaStorageState.
Inductive t := Pending | Ready | Unknown | Missing.
#[global] Instance t_eq_dec : EqDecision t.
Proof. solve_decision. Defined.

Definition to_string (k : t) : string :=
  match k with
  | Pending => "pending_storage" | Ready => "ready" | Unknown => "storage_unknown"
  | Missing => "missing"
  end.

Definition of_str : Str → result Str t := match_text
  [("pending_storage", Pending); ("ready", Ready); ("storage_unknown", Unknown);
   ("missing", Missing)].

#[global, refine] Instance text : TextEnum t :=
  {| as_str k := lit (to_string k); try_from := of_str |}.
Proof. all: solve_text_enum. Defined.
End MediaStorageState.

Module CaptionSyncState.
Inductive t := NotRequired | Pending | Syncing | Synced | Failed.
#[global] Instance t_eq_dec : EqDecision t.
Proof. solve_decision. Defined.

Definition to_string (k : t) : string :=
  match k with
  | NotRequired => "not_required" | Pending => "pending" | Syncing => "syncing"
  | Synced => "synced" | Failed => "failed"
  end.

Definition of_str : Str → result Str t := match_text
  [("not_required", NotRequired); ("pending", Pending); ("syncing", Syncing);
   ("synced", Synced); ("failed", Failed)].

#[global, refine] Instance text : TextEnum t :=
  {| as_str k := lit (to_string k); try_from := of_str |}.
Proof. all: solve_text_enum. Defined.
End CaptionSyncState.

(** ** Inbox *)

Module SourceMediaKind.
Inductive t := Video | Image | Audio | Animation | Unknown.
#[global] Instance t_eq_dec : EqDecision t.
Proof. solve_decision. Defined.
End SourceMediaKind.

Module IngestKind.
Inductive t := Url | TelegramMessage | Upload.
#[global] Instance t_eq_dec : EqDecision t.
Proof. solve_decision. Defined.

Definition to_string (k : t) : string :=
  match k with Url => "url" | TelegramMessage => "telegram_message" | Upload => "upload" end.

Definition of_str : Str → result Str t := match_text
  [("url", Url); ("telegram_message", TelegramMessage); ("upload", Upload)].

#[global, refine] Instance text : TextEnum t :=
  {| as_str k := lit (to_string k); try_from := of_str |}.
Proof. all: solve_text_enum. Defined.
End IngestKind.

Module SubmittedVia.
Inductive t := Api | Companion | TelegramBot.
#[global] Instance t_eq_dec : EqDecision t.
Proof. solve_decision. Defined.

Definition to_string (k : t) : string :=
  match k with Api => "api" | Companion => "companion" | TelegramBot => "telegram_bot" end.

Definition of_str : Str → result Str t := match_text
  [("api", Api); ("companion", Companion); ("telegram_bot", TelegramBot)].

#[global, refine] Instance text : TextEnum t :=
  {| as_str k := lit (to_string k); try_from := of_str |}.
Proof. all: solve_text_enum. Defined.
End SubmittedVia.

Module RequestedAction.
Inductive t := Save | Queue | PostNow.
#[global] Instance t_eq_dec : EqDecision t.
Proof. solve_decision. Defined.

Definition to_string (k : t) : string :=
  match k with Save => "save" | Queue => "queue" | PostNow => "post_now" end.

Definition of_str : Str → result Str t := match_text
  [("save", Save); ("queue", Queue); ("post_now", PostNow)].

#[global, refine] Instance text : TextEnum t :=
  {| as_str k := lit (to_string k); try_from := of_str |}.
Proof. all: solve_text_enum. Defined.
End RequestedAction.

Module IngestStatus.
Inductive t :=
| Received | Queued | Downloading | Probing | ExactDedupCheck | Normalizing
| Fingerprinting | DuplicatePending | Storing | Completed | FailedRetryable
| FailedTerminal | Cancelled.
#[global] Instance t_eq_dec : EqDecision t.
Proof. solve_decision. Defined.

Definition to_string (k : t) : string :=
  match k with
  | Received => "received"
  | Queued => "queued"
  | Downloading => "downloading"
  | Probing => "probing"
  | ExactDedupCheck => "exact_dedup_check"
  | Normalizing => "normalizing"
  | Fingerprinting => "fingerprinting"
  | DuplicatePending => "duplicate_pending"
  | Storing => "storing"
  | Completed => "completed"
  | FailedRetryable => "failed_retryable"
  | FailedTerminal => "failed_terminal"
  | Cancelled => "cancelled"
  end.

Definition of_str : Str → result Str t := match_text
  [("received", Received); ("queued", Queued); ("downloading", Downloading);
   ("probing", Probing); ("exact_dedup_check", ExactDedupCheck);
   ("normalizing", Normalizing); ("fingerprinting", Fingerprinting);
   ("duplicate_pending", DuplicatePending); ("storing", Storing);
   ("completed", Completed); ("failed_retryable", FailedRetryable);
   ("failed_terminal", FailedTerminal); ("cancelled", Cancelled)].

#[global, refine] Instance text : TextEnum t :=
  {| as_str k := lit (to_string k); try_from := of_str |}.
Proof. all: solve_text_enum. Defined.

Definition is_terminal (k : t) : bool :=
  match k with Completed | FailedTerminal | Cancelled => true | _ => false end.

Definition can_transition_to (self target : t) : bool :=
  if decide (self = target) then true
  else if is_terminal self then false
  else if match target with FailedRetryable | FailedTerminal | Cancelled => true | _ => false end
  then true
  else if bool_decide (self = FailedRetryable) && bool_decide (target = Queued) then true
  else match self, target with
       | Received, Queued
       | Queued, Downloading
       | Downloading, Probing
       | Probing, Normalizing
       | Probing, ExactDedupCheck
       | ExactDedupCheck, Normalizing
       | Normalizing, Fingerprinting
       | Normalizing, Storing
       | Fingerprinting, Storing
       | Fingerprinting, DuplicatePending
       | Fingerprinting, Completed
       | DuplicatePending, Queued
       | DuplicatePending, Storing
       | FailedRetryable, Storing
       | FailedRetryable, Fingerprinting
       | Storing, Fingerprinting
       | Storing, Completed => true
       | _, _ => false
       end.
End IngestStatus.
