(* ===== verification/Jobs.v ===== *)
(** * Jobs: durable queue commands and fenced job envelopes

    The [sooqa-jobs] crate: payload types, [JobCommand], its two conversions to
    and from the JSON payload column, the [NewJob] builder, and the lease a
    claimed [Job] hands to its worker. *)

From S2P Require Import Prelude Enums.

(** 128-bit identifiers; only their equality, order and text form matter. *)
Abbreviation Uuid := N.

(** ** Library code the queue relies on

    [serde_json::Value] (and PostgreSQL's [jsonb]) is opaque: the program never
    looks inside a payload except through [Deserialize] and [->>]. *)
Class Json := {
  Value : Type;
  (** [value ->> key]: the text of a top-level field. *)
  json_text : Value → string → option Str;
  (** [Uuid]'s [Display]. *)
  uuid_to_string : Uuid → Str;
  uuid_to_string_inj : Inj (=) (=) uuid_to_string;
}.
#[global] Existing Instance uuid_to_string_inj.

(** A derived [Serialize]/[Deserialize] pair: decoding what was encoded gives
    the value back. *)
Class Serde {J : Json} (T : Type) := {
  to_value : T → Value;
  from_value : Value → result Str T;
  from_to_value : ∀ x, from_value (to_value x) = Ok x;
}.

Section Payloads.
Context {J : Json}.

Record SourceInspection := {
  si_adapter : Str;
  si_source_url : Str;
  si_resolved_url : option Str;
  si_media_kind : SourceMediaKind.t;
  si_mime_type : option Str;
  si_content_length_bytes : option Z;
  si_title : option Str;
  si_metadata : Value;
}.

Record InspectSourcePayload := { inspect_ingest_id : Uuid }.
Record DownloadSourcePayload := {
  download_ingest_id : Uuid;
  download_inspection : SourceInspection;
}.
Record IngestJobPayload := { ingest_job_id : Uuid }.
Record MaterializePublicationPayload := { materialize_ingest_id : Uuid }.
Record MediaJobPayload := { media_job_id : Uuid; media_job_generation : Z }.
Record PublishPostPayload := { publish_post_id : Uuid; publish_expected_revision : Z }.
Record CleanupWorkspacePayload := {
  cleanup_ingest_id : Uuid;
  cleanup_workspace_id : Uuid;
}.

Inductive JobCommand :=
| InspectSource (p : InspectSourcePayload)
| DownloadSource (p : DownloadSourcePayload)
| ProbeAsset (p : IngestJobPayload)
| NormalizeAsset (p : IngestJobPayload)
| ComputeFingerprint (p : IngestJobPayload)
| FinalizeIngest (p : IngestJobPayload)
| MaterializePublication (p : MaterializePublicationPayload)
| UploadStorageAsset (p : MediaJobPayload)
| SyncStorageCaption (p : MediaJobPayload)
| PublishPost (p : PublishPostPayload)
| CleanupWorkspace (p : CleanupWorkspacePayload).
End Payloads.

(** The serde derives of the seven payload types, and what the [->> 'post_id']
    filter of the publication queries reads out of a publication payload. *)
Class PayloadSerde {J : Json} := {
  serde_inspect :: Serde InspectSourcePayload;
  serde_download :: Serde DownloadSourcePayload;
  serde_ingest :: Serde IngestJobPayload;
  serde_materialize :: Serde MaterializePublicationPayload;
  serde_media :: Serde MediaJobPayload;
  serde_publish :: Serde PublishPostPayload;
  serde_cleanup :: Serde CleanupWorkspacePayload;
  publish_post_id_text : ∀ p : PublishPostPayload,
    json_text (to_value p) "post_id" = Some (uuid_to_string (publish_post_id p));
}.

Section Commands.
Context {J : Json} {P : PayloadSerde}.

Definition job_type (c : JobCommand) : JobType.t :=
  match c with
  | InspectSource _ => JobType.InspectSource
  | DownloadSource _ => JobType.DownloadSource
  | ProbeAsset _ => JobType.ProbeAsset
  | NormalizeAsset _ => JobType.NormalizeAsset
  | ComputeFingerprint _ => JobType.ComputeFingerprint
  | FinalizeIngest _ => JobType.FinalizeIngest
  | MaterializePublication _ => JobType.MaterializePublication
  | UploadStorageAsset _ => JobType.UploadStorageAsset
  | SyncStorageCaption _ => JobType.SyncStorageCaption
  | PublishPost _ => JobType.PublishPost
  | CleanupWorkspace _ => JobType.CleanupWorkspace
  end.

Record JobPayloadError := { invalid_job_type : JobType.t; invalid_message : Str }.

Definition decode_payload {T} `{Serde T} (k : JobType.t) (payload : Value)
    : result JobPayloadError T :=
  map_err (λ m, {| invalid_job_type := k; invalid_message := m |}) (from_value payload).

Definition from_payload (k : JobType.t) (payload : Value) : result JobPayloadError JobCommand :=
  match k with
  | JobType.InspectSource => InspectSource <$> decode_payload k payload
  | JobType.DownloadSource => DownloadSource <$> decode_payload k payload
  | JobType.ProbeAsset => ProbeAsset <$> decode_payload k payload
  | JobType.NormalizeAsset => NormalizeAsset <$> decode_payload k payload
  | JobType.ComputeFingerprint => ComputeFingerprint <$> decode_payload k payload
  | JobType.FinalizeIngest => FinalizeIngest <$> decode_payload k payload
  | JobType.MaterializePublication => MaterializePublication <$> decode_payload k payload
  | JobType.UploadStorageAsset => UploadStorageAsset <$> decode_payload k payload
  | JobType.SyncStorageCaption => SyncStorageCaption <$> decode_payload k payload
  | JobType.PublishPost => PublishPost <$> decode_payload k payload
  | JobType.CleanupWorkspace => CleanupWorkspace <$> decode_payload k payload
  end.

Definition payload_json (c : JobCommand) : Value :=
  match c with
  | InspectSource p => to_value p
  | DownloadSource p => to_value p
  | ProbeAsset p => to_value p
  | NormalizeAsset p => to_value p
  | ComputeFingerprint p => to_value p
  | FinalizeIngest p => to_value p
  | MaterializePublication p => to_value p
  | UploadStorageAsset p => to_value p
  | SyncStorageCaption p => to_value p
  | PublishPost p => to_value p
  | CleanupWorkspace p => to_value p
  end.

(** ** The [NewJob] builder *)

Record NewJob := {
  nj_command : JobCommand;
  nj_priority : Z;
  nj_run_at : option Z;
  nj_max_attempts : Z;
  nj_dedupe_key : option Str;
}.
#[global] Instance eta_new_job : Eta NewJob := fun r =>
  Build_NewJob (nj_command r) (nj_priority r) (nj_run_at r) (nj_max_attempts r)
    (nj_dedupe_key r).

Definition new_job (c : JobCommand) : NewJob :=
  {| nj_command := c; nj_priority := 0; nj_run_at := None; nj_max_attempts := 5;
     nj_dedupe_key := None |}.

Definition with_priority (p : Z) (j : NewJob) : NewJob := j <| nj_priority := p |>.
Definition with_run_at (t : Z) (j : NewJob) : NewJob := j <| nj_run_at := Some t |>.
Definition with_max_attempts (n : Z) (j : NewJob) : NewJob := j <| nj_max_attempts := n |>.
Definition with_dedupe_key (k : Str) (j : NewJob) : NewJob := j <| nj_dedupe_key := Some k |>.

Definition new_inspect_source (i : Uuid) : NewJob :=
  new_job (InspectSource {| inspect_ingest_id := i |}).
Definition new_download_source (i : Uuid) (s : SourceInspection) : NewJob :=
  new_job (DownloadSource {| download_ingest_id := i; download_inspection := s |}).
Definition new_publish_post (p : Uuid) (rev : Z) : NewJob :=
  new_job (PublishPost {| publish_post_id := p; publish_expected_revision := rev |}).
Definition new_upload_storage_asset (m : Uuid) : NewJob :=
  new_job (UploadStorageAsset {| media_job_id := m; media_job_generation := 0 |}).
Definition new_upload_storage_asset_generation (m : Uuid) (g : Z) : NewJob :=
  new_job (UploadStorageAsset {| media_job_id := m; media_job_generation := g |}).
Definition new_sync_storage_caption (m : Uuid) (g : Z) : NewJob :=
  with_max_attempts 3
    (new_job (SyncStorageCaption {| media_job_id := m; media_job_generation := g |})).
Definition new_probe_asset (i : Uuid) : NewJob :=
  new_job (ProbeAsset {| ingest_job_id := i |}).
Definition new_normalize_asset (i : Uuid) : NewJob :=
  new_job (NormalizeAsset {| ingest_job_id := i |}).
Definition new_compute_fingerprint (i : Uuid) : NewJob :=
  new_job (ComputeFingerprint {| ingest_job_id := i |}).
Definition new_finalize_ingest (i : Uuid) : NewJob :=
  new_job (FinalizeIngest {| ingest_job_id := i |}).
Definition new_materialize_publication (i : Uuid) : NewJob :=
  new_job (MaterializePublication {| materialize_ingest_id := i |}).
Definition new_cleanup_workspace (i w : Uuid) : NewJob :=
  new_job (CleanupWorkspace {| cleanup_ingest_id := i; cleanup_workspace_id := w |}).

(** ** Claimed jobs and leases *)

Record Job := {
  jb_id : Uuid;
  jb_command : JobCommand;
  jb_status : JobStatus.t;
  jb_priority : Z;
  jb_run_at : Z;
  jb_attempt_count : Z;
  jb_max_attempts : Z;
  jb_lease_token : option Uuid;
  jb_lease_owner : option Str;
  jb_lease_expires_at : option Z;
  jb_last_heartbeat_at : option Z;
  jb_last_error_class : option Str;
  jb_last_error_message : option Str;
  jb_dedupe_key : option Str;
  jb_created_at : Z;
  jb_updated_at : Z;
  jb_completed_at : option Z;
}.

Record JobLease := {
  jl_job_id : Uuid;
  jl_attempt_number : Z;
  jl_lease_owner : Str;
  jl_lease_token : Uuid;
}.

Definition lease (j : Job) : option JobLease :=
  owner ← jb_lease_owner j;
  token ← jb_lease_token j;
  Some {| jl_job_id := jb_id j; jl_attempt_number := jb_attempt_count j;
          jl_lease_owner := owner; jl_lease_token := token |}.

(** ** Properties *)

Lemma decode_payload_to_value {T} `{Serde T} k (x : T) : decode_payload k (to_value x) = Ok x.
Proof. unfold decode_payload. by rewrite from_to_value. Qed.

Lemma from_payload_type k v c : from_payload k v = Ok c → job_type c = k.
Proof.
  destruct k; simpl; unfold fmap, result_fmap; destruct (decode_payload _ _); naive_solver.
Qed.

Lemma from_payload_json c : from_payload (job_type c) (payload_json c) = Ok c.
Proof. destruct c; simpl; by rewrite decode_payload_to_value. Qed.
End Commands.

#[global] Instance JobLease_eq_dec : EqDecision JobLease.
Proof. solve_decision. Defined.
