(* ===== verification/Db.v ===== *)
(** * Db: the five tables and the SQL statements the repositories share

    The schema of [migrations/]: [queue.jobs], [ingests], [media], [channels]
    and [posts] as finite maps from their primary key.  A text column whose
    [CHECK] lists the strings of an enumeration holds that enumeration. *)

From S2P Require Import Prelude Enums Jobs.

Section Schema.
Context {J : Json}.

Record JobRow := {
  job_id : Uuid;
  job_kind : JobType.t;
  job_payload : Value;
  job_state : JobStatus.t;
  job_priority : Z;
  job_run_at : Z;
  job_attempt_count : Z;
  job_max_attempts : Z;
  job_lease_token : option Uuid;
  job_lease_owner : option Str;
  job_lease_expires_at : option Z;
  job_last_heartbeat_at : option Z;
  job_error_class : option Str;
  job_error_message : option Str;
  job_dedupe_key : option Str;
  job_created_at : Z;
  job_updated_at : Z;
  job_completed_at : option Z;
}.
#[global] Instance eta_job_row : Eta JobRow := fun r =>
  Build_JobRow (job_id r) (job_kind r) (job_payload r) (job_state r) (job_priority r)
    (job_run_at r) (job_attempt_count r) (job_max_attempts r) (job_lease_token r)
    (job_lease_owner r) (job_lease_expires_at r) (job_last_heartbeat_at r)
    (job_error_class r) (job_error_message r) (job_dedupe_key r) (job_created_at r)
    (job_updated_at r) (job_completed_at r).

Record IngestRow := {
  ingest_id : Uuid;
  ingest_workspace_id : Uuid;
  ingest_input_key : Str;
  ingest_request_hash : list Z;
  ingest_input_kind : IngestKind.t;
  ingest_state : IngestStatus.t;
  ingest_submitted_via : SubmittedVia.t;
  ingest_input_json : Value;
  ingest_source_url : option Str;
  ingest_page_url : option Str;
  ingest_page_title : option Str;
  ingest_supplied_caption : option Str;
  ingest_supplied_description : option Str;
  ingest_supplied_tags : list Str;
  ingest_requested_action : RequestedAction.t;
  ingest_requested_publish_at : option Z;
  ingest_requested_post_caption : option Str;
  ingest_requested_channel_id : option Uuid;
  ingest_media_id : option Uuid;
  ingest_force_save : bool;
  ingest_duplicate_evidence : option Value;
  ingest_error_code : option Str;
  ingest_error_message : option Str;
  ingest_created_at : Z;
  ingest_updated_at : Z;
  ingest_completed_at : option Z;
  ingest_acknowledged_failure_at : option Z;
}.
#[global] Instance eta_ingest_row : Eta IngestRow := fun r =>
  Build_IngestRow (ingest_id r) (ingest_workspace_id r) (ingest_input_key r)
    (ingest_request_hash r) (ingest_input_kind r) (ingest_state r) (ingest_submitted_via r)
    (ingest_input_json r) (ingest_source_url r) (ingest_page_url r) (ingest_page_title r)
    (ingest_supplied_caption r) (ingest_supplied_description r) (ingest_supplied_tags r)
    (ingest_requested_action r) (ingest_requested_publish_at r)
    (ingest_requested_post_caption r) (ingest_requested_channel_id r) (ingest_media_id r)
    (ingest_force_save r) (ingest_duplicate_evidence r) (ingest_error_code r)
    (ingest_error_message r) (ingest_created_at r) (ingest_updated_at r)
    (ingest_completed_at r) (ingest_acknowledged_failure_at r).

(** The five preview columns, which a [CHECK] keeps all null or all set. *)
Record MediaPreviewColumns := {
  pv_bytes : list Z;
  pv_mime_type : Str;
  pv_width : Z;
  pv_height : Z;
  pv_sha256 : list Z;
}.

Record MediaRow := {
  media_id : Uuid;
  media_kind : MediaKind.t;
  media_storage_state : MediaStorageState.t;
  media_canonical_sha256 : option (list Z);
  media_fingerprint_version : option Str;
  media_fingerprint_data : option (list Z);
  media_fingerprint_search_tokens : option (list Z);
  media_title : option Str;
  media_description : option Str;
  media_tags : list Str;
  media_source_url : option Str;
  media_source_metadata : Value;
  media_mime_type : option Str;
  media_container : option Str;
  media_video_codec : option Str;
  media_audio_codec : option Str;
  media_width : option Z;
  media_height : option Z;
  media_duration_ms : option Z;
  media_bit_rate : option Z;
  media_file_size_bytes : option Z;
  media_local_work_path : option Str;
  media_preview : option MediaPreviewColumns;
  media_storage_chat_id : option Z;
  media_storage_message_id : option Z;
  media_file_id : option Str;
  media_file_unique_id : option Str;
  media_storage_generation : Z;
  media_storage_token : option Uuid;
  media_storage_started_at : option Z;
  media_caption_sync_generation : Z;
  media_caption_sync_state : CaptionSyncState.t;
  media_caption_sync_error : option Str;
  media_caption_sync_claim_token : option Uuid;
  media_created_at : Z;
  media_updated_at : Z;
  media_stored_at : option Z;
}.
#[global] Instance eta_media_row : Eta MediaRow := fun r =>
  Build_MediaRow (media_id r) (media_kind r) (media_storage_state r)
    (media_canonical_sha256 r) (media_fingerprint_version r) (media_fingerprint_data r)
    (media_fingerprint_search_tokens r) (media_title r) (media_description r)
    (media_tags r) (media_source_url r) (media_source_metadata r) (media_mime_type r)
    (media_container r) (media_video_codec r) (media_audio_codec r) (media_width r)
    (media_height r) (media_duration_ms r) (media_bit_rate r) (media_file_size_bytes r)
    (media_local_work_path r) (media_preview r) (media_storage_chat_id r) (media_storage_message_id r)
    (media_file_id r) (media_file_unique_id r) (media_storage_generation r)
    (media_storage_token r) (media_storage_started_at r)
    (media_caption_sync_generation r) (media_caption_sync_state r)
    (media_caption_sync_error r) (media_caption_sync_claim_token r)
    (media_created_at r) (media_updated_at r) (media_stored_at r).

(** [Time] values are microseconds since local midnight. *)
Record ChannelRow := {
  channel_id : Uuid;
  channel_chat_id : Z;
  channel_name : Str;
  channel_is_enabled : bool;
  channel_time_zone : Str;
  channel_window_start : Z;
  channel_window_end : Z;
  channel_interval_minutes : Z;
  channel_default_parse_mode : option Str;
  channel_default_disable_notification : bool;
  channel_created_at : Z;
  channel_updated_at : Z;
}.
#[global] Instance eta_channel_row : Eta ChannelRow := fun r =>
  Build_ChannelRow (channel_id r) (channel_chat_id r) (channel_name r)
    (channel_is_enabled r) (channel_time_zone r) (channel_window_start r)
    (channel_window_end r) (channel_interval_minutes r) (channel_default_parse_mode r)
    (channel_default_disable_notification r) (channel_created_at r) (channel_updated_at r).

Record RepeatConflict := {
  conflict_post_id : Uuid;
  conflict_state : PostState.t;
  conflict_at : Z;
  conflict_link : option Str;
}.

Record PostRow := {
  post_id : Uuid;
  post_request_key : option Str;
  post_request_hash : option (list Z);
  post_origin_ingest_id : option Uuid;
  post_requested_action : PublicationAction.t;
  post_requested_publish_at : option Z;
  post_repeat_evidence : option (list RepeatConflict);
  post_decision_request_key : option Str;
  post_decision_request_hash : option (list Z);
  post_schedule_request_key : option Str;
  post_schedule_request_hash : option (list Z);
  post_media_id : Uuid;
  post_channel_id : Uuid;
  post_state : PostState.t;
  post_caption : option Str;
  post_parse_mode : option Str;
  post_disable_notification : bool;
  post_scheduled_at : Z;
  post_cadence_slot_at : option Z;
  post_send_generation : Z;
  post_send_token : option Uuid;
  post_send_started_at : option Z;
  post_telegram_message_id : option Z;
  post_published_at : option Z;
  post_error_class : option Str;
  post_error_message : option Str;
  post_created_at : Z;
  post_updated_at : Z;
  post_revision : Z;
}.
#[global] Instance eta_post_row : Eta PostRow := fun r =>
  Build_PostRow (post_id r) (post_request_key r) (post_request_hash r)
    (post_origin_ingest_id r) (post_requested_action r) (post_requested_publish_at r)
    (post_repeat_evidence r) (post_decision_request_key r) (post_decision_request_hash r)
    (post_schedule_request_key r) (post_schedule_request_hash r) (post_media_id r)
    (post_channel_id r) (post_state r) (post_caption r) (post_parse_mode r)
    (post_disable_notification r) (post_scheduled_at r) (post_cadence_slot_at r)
    (post_send_generation r) (post_send_token r) (post_send_started_at r)
    (post_telegram_message_id r) (post_published_at r) (post_error_class r)
    (post_error_message r) (post_created_at r) (post_updated_at r) (post_revision r).

Record Db := {
  db_jobs : gmap Uuid JobRow;
  db_ingests : gmap Uuid IngestRow;
  db_media : gmap Uuid MediaRow;
  db_channels : gmap Uuid ChannelRow;
  db_posts : gmap Uuid PostRow;
}.
#[global] Instance eta_db : Eta Db := fun r =>
  Build_Db (db_jobs r) (db_ingests r) (db_media r) (db_channels r) (db_posts r).

Definition empty_db : Db :=
  {| db_jobs := ∅; db_ingests := ∅; db_media := ∅; db_channels := ∅; db_posts := ∅ |}.

(** ** Table constraints

    The row-level [CHECK]s of the migrations, as predicates.  The operations
    are written without them; that every write satisfies them is proved. *)

Definition is_none {A} (o : option A) : bool := match o with None => true | _ => false end.
Definition is_some {A} (o : option A) : bool := match o with None => false | _ => true end.

(** [queue.jobs]: lease columns are set exactly while the job runs. *)
Definition job_lease_check (r : JobRow) : bool :=
  match job_state r with
  | JobStatus.Running =>
      is_some (job_lease_token r) && is_some (job_lease_owner r)
      && is_some (job_lease_expires_at r) && is_some (job_last_heartbeat_at r)
      && is_none (job_completed_at r)
  | _ =>
      is_none (job_lease_token r) && is_none (job_lease_owner r)
      && is_none (job_lease_expires_at r) && is_none (job_last_heartbeat_at r)
  end.

Definition job_check (r : JobRow) : bool :=
  (0 <=? job_attempt_count r) && (0 <? job_max_attempts r) && job_lease_check r.

(** What the code maintains beyond the [CHECK]s: a queued row is not marked
    completed, and attempts never exceed their limit. *)
Definition job_inv (r : JobRow) : bool :=
  job_check r
  && match job_state r with JobStatus.Queued => is_none (job_completed_at r) | _ => true end
  && (job_attempt_count r <=? job_max_attempts r).

(** [posts]: the send columns are set exactly while sending, and a published
    post has its message and time. *)
Definition post_check (r : PostRow) : bool :=
  match post_state r with
  | PostState.Sending => is_some (post_send_token r) && is_some (post_send_started_at r)
  | _ => is_none (post_send_token r) && is_none (post_send_started_at r)
  end
  && match post_state r with
     | PostState.Published =>
         is_some (post_telegram_message_id r) && is_some (post_published_at r)
     | _ => true
     end
  && match post_telegram_message_id r with Some m => 0 <? m | None => true end
  && (0 <=? post_send_generation r) && (0 <=? post_revision r).

(** [media]: a ready row names its stored Telegram message. *)
Definition media_check (r : MediaRow) : bool :=
  match media_storage_state r with
  | MediaStorageState.Ready =>
      is_some (media_storage_chat_id r) && is_some (media_storage_message_id r)
      && is_some (media_file_id r)
  | _ => true
  end
  && (0 <=? media_storage_generation r) && (0 <=? media_caption_sync_generation r).

(** Rows are stored under their own primary key, satisfy their [CHECK]s, and
    the partial unique index on [dedupe_key] holds. *)
Record db_wf (db : Db) : Prop := {
  wf_job_key : ∀ i r, db_jobs db !! i = Some r → job_id r = i;
  wf_post_key : ∀ i r, db_posts db !! i = Some r → post_id r = i;
  wf_channel_key : ∀ i r, db_channels db !! i = Some r → channel_id r = i;
  wf_job_inv : ∀ i r, db_jobs db !! i = Some r → job_inv r = true;
  wf_post_check : ∀ i r, db_posts db !! i = Some r → post_check r = true;
  wf_job_dedupe : ∀ i j r r' k, db_jobs db !! i = Some r → db_jobs db !! j = Some r' →
    job_dedupe_key r = Some k → job_dedupe_key r' = Some k → i = j;
  wf_ingest_key : ∀ i r, db_ingests db !! i = Some r → ingest_id r = i;
  wf_media_key : ∀ i r, db_media db !! i = Some r → media_id r = i;
  wf_media_check : ∀ i r, db_media db !! i = Some r → media_check r = true;
}.
End Schema.

(** ** Statements *)

(** What [sqlx] reports when a statement fails. *)
Inductive SqlError :=
| RowNotFound          (* fetch_one without a row *)
| UniqueViolation
| NumericOutOfRange
| CheckViolation
| Connection.          (* the connection failed, or the pool timed out *)

#[global] Instance SqlError_eq_dec : EqDecision SqlError.
Proof. solve_decision. Defined.

Section Statements.
Context {A : Type}.

(** [SELECT ... WHERE p LIMIT 1] on a table without an order. *)
Definition find_row (p : A → bool) (m : gmap Uuid A) : option A :=
  snd <$> head (filter (λ kr : Uuid * A, p kr.2 = true) (map_to_list m)).

(** [SELECT ... WHERE p]. *)
Definition select_rows (p : A → bool) (m : gmap Uuid A) : list A :=
  snd <$> filter (λ kr : Uuid * A, p kr.2 = true) (map_to_list m).

Lemma elem_of_select_rows p (m : gmap Uuid A) r :
  r ∈ select_rows p m ↔ ∃ i, m !! i = Some r ∧ p r = true.
Proof.
  unfold select_rows. rewrite list_elem_of_fmap. split.
  - intros ([i r'] & -> & Hin). apply list_elem_of_filter in Hin as [Hp Hin].
    apply elem_of_map_to_list in Hin. eauto.
  - intros (i & Hi & Hp). exists (i, r). split; [done|].
    apply list_elem_of_filter. split; [done|]. by apply elem_of_map_to_list.
Qed.

Lemma find_row_Some p (m : gmap Uuid A) r :
  find_row p m = Some r → ∃ i, m !! i = Some r ∧ p r = true.
Proof.
  unfold find_row. intros Hr. apply fmap_Some in Hr as ([i r'] & Hh & ->).
  apply head_Some_elem_of in Hh. apply list_elem_of_filter in Hh as [Hp Hin].
  apply elem_of_map_to_list in Hin. eauto.
Qed.

Lemma find_row_None p (m : gmap Uuid A) :
  find_row p m = None → ∀ i r, m !! i = Some r → p r = false.
Proof.
  unfold find_row. intros Hn i r Hi. apply fmap_None in Hn.
  destruct (p r) eqn:Hp; [|done].
  assert ((i, r) ∈ filter (λ kr : Uuid * A, p kr.2 = true) (map_to_list m)) as Hin.
  { apply list_elem_of_filter. split; [done|]. by apply elem_of_map_to_list. }
  destruct (filter _ _); [by apply elem_of_nil in Hin|done].
Qed.
End Statements.

Section Tables.
Context {J : Json} {E : Type}.

Definition select_job (i : Uuid) : txn Db E (option JobRow) :=
  db ← get_state; mret (db_jobs db !! i).
Definition write_job (r : JobRow) : txn Db E unit :=
  db ← get_state; put_state (db <| db_jobs := <[job_id r := r]> (db_jobs db) |>).

Definition select_post (i : Uuid) : txn Db E (option PostRow) :=
  db ← get_state; mret (db_posts db !! i).
Definition write_post (r : PostRow) : txn Db E unit :=
  db ← get_state; put_state (db <| db_posts := <[post_id r := r]> (db_posts db) |>).

Definition select_channel (i : Uuid) : txn Db E (option ChannelRow) :=
  db ← get_state; mret (db_channels db !! i).
Definition write_channel (r : ChannelRow) : txn Db E unit :=
  db ← get_state; put_state (db <| db_channels := <[channel_id r := r]> (db_channels db) |>).

Definition select_media (i : Uuid) : txn Db E (option MediaRow) :=
  db ← get_state; mret (db_media db !! i).
Definition write_media (r : MediaRow) : txn Db E unit :=
  db ← get_state; put_state (db <| db_media := <[media_id r := r]> (db_media db) |>).

Definition select_ingest (i : Uuid) : txn Db E (option IngestRow) :=
  db ← get_state; mret (db_ingests db !! i).
Definition write_ingest (r : IngestRow) : txn Db E unit :=
  db ← get_state; put_state (db <| db_ingests := <[ingest_id r := r]> (db_ingests db) |>).

Definition has_dedupe_key (k : Str) (r : JobRow) : bool :=
  bool_decide (job_dedupe_key r = Some k).

(** [SELECT ... FROM queue.jobs WHERE dedupe_key = k]. *)
Definition select_job_by_key (k : Str) : txn Db E (option JobRow) :=
  db ← get_state; mret (find_row (has_dedupe_key k) (db_jobs db)).

Ltac solve_statement op :=
  unfold op, mbind, txn_bind, mret, txn_ret, get_state, put_state; simpl;
  split; [intros H; simplify_eq/=; auto|intros; destruct_and?; subst; auto].

Section Inversion.
Variables (ck : Clock) (db db' : Db).

Lemma select_job_ok i o :
  select_job i ck db = Ok (o, db') ↔ o = db_jobs db !! i ∧ db' = db.
Proof. by solve_statement select_job. Qed.
Lemma select_post_ok i o :
  select_post i ck db = Ok (o, db') ↔ o = db_posts db !! i ∧ db' = db.
Proof. by solve_statement select_post. Qed.
Lemma select_channel_ok i o :
  select_channel i ck db = Ok (o, db') ↔ o = db_channels db !! i ∧ db' = db.
Proof. by solve_statement select_channel. Qed.
Lemma select_media_ok i o :
  select_media i ck db = Ok (o, db') ↔ o = db_media db !! i ∧ db' = db.
Proof. by solve_statement select_media. Qed.
Lemma select_ingest_ok i o :
  select_ingest i ck db = Ok (o, db') ↔ o = db_ingests db !! i ∧ db' = db.
Proof. by solve_statement select_ingest. Qed.
Lemma select_job_by_key_ok k o :
  select_job_by_key k ck db = Ok (o, db') ↔
    o = find_row (has_dedupe_key k) (db_jobs db) ∧ db' = db.
Proof. by solve_statement select_job_by_key. Qed.

Lemma write_job_ok r u :
  write_job r ck db = Ok (u, db') ↔
    db' = db <| db_jobs := <[job_id r := r]> (db_jobs db) |>.
Proof. destruct u. by solve_statement write_job. Qed.
Lemma write_post_ok r u :
  write_post r ck db = Ok (u, db') ↔
    db' = db <| db_posts := <[post_id r := r]> (db_posts db) |>.
Proof. destruct u. by solve_statement write_post. Qed.
Lemma write_channel_ok r u :
  write_channel r ck db = Ok (u, db') ↔
    db' = db <| db_channels := <[channel_id r := r]> (db_channels db) |>.
Proof. destruct u. by solve_statement write_channel. Qed.
Lemma write_media_ok r u :
  write_media r ck db = Ok (u, db') ↔
    db' = db <| db_media := <[media_id r := r]> (db_media db) |>.
Proof. destruct u. by solve_statement write_media. Qed.
Lemma write_ingest_ok r u :
  write_ingest r ck db = Ok (u, db') ↔
    db' = db <| db_ingests := <[ingest_id r := r]> (db_ingests db) |>.
Proof. destruct u. by solve_statement write_ingest. Qed.
End Inversion.
End Tables.

(** [txn_inv] extended to the table statements. *)
Ltac db_inv_step :=
  match goal with
  | H : select_job _ _ _ = Ok _ |- _ => apply select_job_ok in H
  | H : select_post _ _ _ = Ok _ |- _ => apply select_post_ok in H
  | H : select_channel _ _ _ = Ok _ |- _ => apply select_channel_ok in H
  | H : select_media _ _ _ = Ok _ |- _ => apply select_media_ok in H
  | H : select_ingest _ _ _ = Ok _ |- _ => apply select_ingest_ok in H
  | H : select_job_by_key _ _ _ = Ok _ |- _ => apply select_job_by_key_ok in H
  | H : write_job _ _ _ = Ok _ |- _ => apply write_job_ok in H
  | H : write_post _ _ _ = Ok _ |- _ => apply write_post_ok in H
  | H : write_channel _ _ _ = Ok _ |- _ => apply write_channel_ok in H
  | H : write_media _ _ _ = Ok _ |- _ => apply write_media_ok in H
  | H : write_ingest _ _ _ = Ok _ |- _ => apply write_ingest_ok in H
  end.
Ltac db_inv := repeat ((txn_inv_step || db_inv_step || bool_norm_step); simplify_eq/=).
