(* ===== verification/Queue.v ===== *)
(** * Queue: claiming, fencing and settling durable jobs

    [persistence/src/jobs.rs] and the transaction helpers of
    [persistence/src/settlement.rs].  Every statement is guarded by the lease of
    the caller; the family dispatch built on top is in [Settlement]. *)

From S2P Require Import Prelude Enums Jobs Db.

(** ** Settlements requested by a worker *)

Inductive JobSettlement :=
| Retry (run_at : Z) (error_class error_message : Str) (non_consuming : bool)
| Defer (run_at : Z) (error_class error_message : Str) (non_consuming : bool)
| Fail_ (error_class error_message : Str).

Definition settlement_retry (run_at : Z) (cls msg : Str) : JobSettlement :=
  Retry run_at cls msg false.
Definition settlement_retry_without_consuming_attempt (run_at : Z) (cls msg : Str) :=
  Retry run_at cls msg true.
Definition settlement_defer (run_at : Z) (cls msg : Str) : JobSettlement :=
  Defer run_at cls msg false.
Definition settlement_defer_without_consuming_attempt (run_at : Z) (cls msg : Str) :=
  Defer run_at cls msg true.
Definition settlement_fail (cls msg : Str) : JobSettlement := Fail_ cls msg.

Definition allows_expired_lease (s : JobSettlement) : bool :=
  match s with
  | Retry _ _ _ true | Defer _ _ _ true => true
  | _ => false
  end.

Definition settlement_error_class (s : JobSettlement) : option Str :=
  match s with Retry _ c _ _ | Defer _ c _ _ | Fail_ c _ => Some c end.

Inductive JobRepositoryError :=
| InvalidCount
| InvalidMaxAttempts
| InvalidLeaseDuration
| LeaseLost
| InvalidPayload (e : JobPayloadError)
| JobDatabase (e : SqlError).

Record QueueUpdate := {
  qu_state : JobStatus.t;
  qu_run_at : Z;
  qu_error_class : Str;
  qu_error_message : Str;
  qu_terminal : bool;
  qu_non_consuming : bool;
}.

Section Queue.
Context {J : Json} {P : PayloadSerde}.
Abbreviation jtxn A := (txn Db JobRepositoryError A).

Definition into_job (r : JobRow) : result JobRepositoryError Job :=
  command ← map_err InvalidPayload (from_payload (job_kind r) (job_payload r));
  Ok {| jb_id := job_id r; jb_command := command; jb_status := job_state r;
        jb_priority := job_priority r; jb_run_at := job_run_at r;
        jb_attempt_count := job_attempt_count r; jb_max_attempts := job_max_attempts r;
        jb_lease_token := job_lease_token r; jb_lease_owner := job_lease_owner r;
        jb_lease_expires_at := job_lease_expires_at r;
        jb_last_heartbeat_at := job_last_heartbeat_at r;
        jb_last_error_class := job_error_class r;
        jb_last_error_message := job_error_message r;
        jb_dedupe_key := job_dedupe_key r; jb_created_at := job_created_at r;
        jb_updated_at := job_updated_at r; jb_completed_at := job_completed_at r |}.

(** ** [JobRepository] *)

(** [INSERT INTO queue.jobs]: the columns a statement does not name take
    their defaults. *)
Definition inserted_job (id : Uuid) (j : NewJob) (now : Z) : JobRow :=
  {| job_id := id; job_kind := job_type (nj_command j);
     job_payload := payload_json (nj_command j); job_state := JobStatus.Queued;
     job_priority := nj_priority j; job_run_at := default now (nj_run_at j);
     job_attempt_count := 0; job_max_attempts := nj_max_attempts j;
     job_lease_token := None; job_lease_owner := None; job_lease_expires_at := None;
     job_last_heartbeat_at := None; job_error_class := None; job_error_message := None;
     job_dedupe_key := nj_dedupe_key j; job_created_at := now; job_updated_at := now;
     job_completed_at := None |}.

(** Does the partial unique index on [dedupe_key] already hold this key? *)
Definition dedupe_taken (db : Db) (key : option Str) : bool :=
  match key with
  | Some k => is_some (find_row (has_dedupe_key k) (db_jobs db))
  | None => false
  end.

Definition enqueue_txn (fresh : Uuid) (j : NewJob) : jtxn JobRow :=
  fail_if (nj_max_attempts j <=? 0) InvalidMaxAttempts;;
  ck ← get_clock;
  db ← get_state;
  fail_if (is_some (db_jobs db !! fresh)) (JobDatabase UniqueViolation);;
  fail_if (dedupe_taken db (nj_dedupe_key j)) (JobDatabase UniqueViolation);;
  let row := inserted_job fresh j (sql_now ck) in
  write_job row;;
  mret row.
Definition enqueue (fresh : Uuid) (j : NewJob) : op Db JobRepositoryError Job :=
  commit_then (enqueue_txn fresh j) into_job.

Definition lease_seconds (duration : Z) : result JobRepositoryError Z :=
  if duration =? 0 then Err InvalidLeaseDuration else Ok duration.

(** The [WHERE] of the claim query. *)
Definition claimable (now : Z) (capabilities : list JobType.t) (r : JobRow) : bool :=
  bool_decide (job_state r = JobStatus.Queued)
  && (job_run_at r <=? now)
  && (job_attempt_count r <? job_max_attempts r)
  && bool_decide (job_kind r ∈ capabilities).

(** [ORDER BY priority DESC, run_at ASC, created_at ASC, id ASC]. *)
Definition claim_order (r : JobRow) : list Z :=
  [- job_priority r; job_run_at r; job_created_at r; Z.of_N (job_id r)].
Definition claim_le (a b : JobRow) : bool := lex_le (claim_order a) (claim_order b).

(** [FOR UPDATE SKIP LOCKED LIMIT 1]: [locked] are the rows that concurrent
    transactions hold. *)
Definition claim_candidate (locked : gset Uuid) (now : Z) (capabilities : list JobType.t)
    (jobs : gmap Uuid JobRow) : option JobRow :=
  head (order_by claim_le
    (select_rows (λ r, claimable now capabilities r && bool_decide (job_id r ∉ locked)) jobs)).

Definition claimed_job (worker : Str) (lease_us : Z) (token : Uuid) (now : Z) (r : JobRow)
    : JobRow :=
  r <| job_state := JobStatus.Running; job_lease_token := Some token;
       job_lease_owner := Some worker; job_lease_expires_at := Some (now + lease_us);
       job_last_heartbeat_at := Some now;
       job_attempt_count := job_attempt_count r + 1; job_updated_at := now |>.

Definition claim_next_txn (locked : gset Uuid) (token : Uuid) (worker : Str) (duration : Z)
    (capabilities : list JobType.t) : jtxn (option JobRow) :=
  lease_us ← lift (lease_seconds duration);
  ck ← get_clock;
  db ← get_state;
  match claim_candidate locked (sql_now ck) capabilities (db_jobs db) with
  | None => mret None
  | Some r =>
      let row := claimed_job worker lease_us token (sql_now ck) r in
      write_job row;;
      mret (Some row)
  end.
Definition claim_next (locked : gset Uuid) (token : Uuid) (worker : Str) (duration : Z)
    (capabilities : list JobType.t) : op Db JobRepositoryError (option Job) :=
  commit_then (claim_next_txn locked token worker duration capabilities)
    (λ row, match row with None => Ok None | Some r => Some <$> into_job r end).

(** [state = 'running' AND lease_owner = .. AND lease_token = ..
    AND lease_expires_at > now()]. *)
Definition holds_lease (l : JobLease) (now : Z) (r : JobRow) : bool :=
  bool_decide (job_state r = JobStatus.Running)
  && bool_decide (job_lease_owner r = Some (jl_lease_owner l))
  && bool_decide (job_lease_token r = Some (jl_lease_token l))
  && match job_lease_expires_at r with Some t => now <? t | None => false end.

Definition heartbeat_lease_txn (l : JobLease) (duration : Z) : jtxn JobRow :=
  lease_us ← lift (lease_seconds duration);
  ck ← get_clock;
  o ← select_job (jl_job_id l);
  r ← require o LeaseLost;
  fail_if (negb (holds_lease l (sql_now ck) r)) LeaseLost;;
  let row := r <| job_lease_expires_at := Some (sql_now ck + lease_us);
                  job_last_heartbeat_at := Some (sql_now ck);
                  job_updated_at := sql_now ck |> in
  write_job row;;
  mret row.
Definition heartbeat_lease (l : JobLease) (duration : Z) : op Db JobRepositoryError Job :=
  commit_then (heartbeat_lease_txn l duration) into_job.

Definition succeeded_job (now : Z) (r : JobRow) : JobRow :=
  r <| job_state := JobStatus.Succeeded; job_lease_token := None; job_lease_owner := None;
       job_lease_expires_at := None; job_last_heartbeat_at := None;
       job_completed_at := Some now; job_updated_at := now |>.

(** The fenced [UPDATE] and, when it matches no row, the replay check. *)
Definition complete_lease_txn (l : JobLease) : jtxn JobRow :=
  ck ← get_clock;
  o ← select_job (jl_job_id l);
  r ← require o LeaseLost;
  if holds_lease l (sql_now ck) r then
    let row := succeeded_job (sql_now ck) r in
    write_job row;; mret row
  else if bool_decide (job_state r = JobStatus.Succeeded)
          && (job_attempt_count r =? jl_attempt_number l) then mret r
  else throw LeaseLost.
Definition complete_lease (l : JobLease) : op Db JobRepositoryError Job :=
  commit_then (complete_lease_txn l) into_job.

Definition lease_matches_job (j : Job) (l : JobLease) : bool :=
  bool_decide (jb_status j = JobStatus.Running)
  && bool_decide (jb_id j = jl_job_id l)
  && (jb_attempt_count j =? jl_attempt_number l)
  && bool_decide (jb_lease_owner j = Some (jl_lease_owner l))
  && bool_decide (jb_lease_token j = Some (jl_lease_token l)).

(** ** Settlement helpers *)

Definition commands_have_same_owner (expected actual : JobCommand) : bool :=
  match expected, actual with
  | InspectSource e, InspectSource a => (inspect_ingest_id e =? inspect_ingest_id a)%N
  | DownloadSource e, DownloadSource a => (download_ingest_id e =? download_ingest_id a)%N
  | ProbeAsset e, ProbeAsset a
  | NormalizeAsset e, NormalizeAsset a
  | ComputeFingerprint e, ComputeFingerprint a
  | FinalizeIngest e, FinalizeIngest a => (ingest_job_id e =? ingest_job_id a)%N
  | MaterializePublication e, MaterializePublication a =>
      (materialize_ingest_id e =? materialize_ingest_id a)%N
  | UploadStorageAsset e, UploadStorageAsset a
  | SyncStorageCaption e, SyncStorageCaption a =>
      (media_job_id e =? media_job_id a)%N
      && (media_job_generation e =? media_job_generation a)
  | PublishPost e, PublishPost a => (publish_post_id e =? publish_post_id a)%N
  | CleanupWorkspace e, CleanupWorkspace a =>
      (cleanup_ingest_id e =? cleanup_ingest_id a)%N
      && (cleanup_workspace_id e =? cleanup_workspace_id a)%N
  | _, _ => false
  end.

Definition validate_locked_command (r : JobRow) (expected : JobCommand)
    : result JobRepositoryError JobCommand :=
  job ← into_job r;
  if commands_have_same_owner expected (jb_command job) then Ok (jb_command job)
  else Err LeaseLost.

Definition queue_parameters (r : JobRow) (s : JobSettlement) : QueueUpdate :=
  match s with
  | Retry run_at cls msg non_consuming
  | Defer run_at cls msg non_consuming =>
      let terminal := negb non_consuming && (job_max_attempts r <=? job_attempt_count r) in
      {| qu_state := if terminal then JobStatus.Failed else JobStatus.Queued;
         qu_run_at := if terminal then job_run_at r else run_at;
         qu_error_class := cls; qu_error_message := msg;
         qu_terminal := terminal; qu_non_consuming := non_consuming |}
  | Fail_ cls msg =>
      {| qu_state := JobStatus.Failed; qu_run_at := job_run_at r;
         qu_error_class := cls; qu_error_message := msg;
         qu_terminal := true; qu_non_consuming := false |}
  end.

Definition lock_running_job (l : JobLease) (allow_expired : bool) : jtxn JobRow :=
  ck ← get_clock;
  o ← select_job (jl_job_id l);
  r ← require o LeaseLost;
  fail_if (negb (bool_decide (job_state r = JobStatus.Running)
                 && (job_attempt_count r =? jl_attempt_number l)
                 && bool_decide (job_lease_owner r = Some (jl_lease_owner l))
                 && bool_decide (job_lease_token r = Some (jl_lease_token l))
                 && (allow_expired
                     || match job_lease_expires_at r with
                        | Some t => sql_clock ck <? t
                        | None => false
                        end)))
    LeaseLost;;
  mret r.

Definition settled_job (u : QueueUpdate) (now : Z) (r : JobRow) : JobRow :=
  r <| job_state := qu_state u;
       job_attempt_count := if qu_non_consuming u then Z.max (job_attempt_count r - 1) 0
                            else job_attempt_count r;
       job_run_at := qu_run_at u; job_lease_token := None; job_lease_owner := None;
       job_lease_expires_at := None; job_last_heartbeat_at := None;
       job_error_class := Some (qu_error_class u);
       job_error_message := Some (qu_error_message u);
       job_completed_at := if qu_terminal u then Some now else None;
       job_updated_at := now |>.

Definition update_locked_job (id : Uuid) (u : QueueUpdate) : jtxn JobRow :=
  ck ← get_clock;
  o ← select_job id;
  r ← require o (JobDatabase RowNotFound);
  fail_if (negb (bool_decide (job_state r = JobStatus.Running))) (JobDatabase RowNotFound);;
  let row := settled_job u (sql_now ck) r in
  write_job row;;
  mret row.

Definition settle_queue_in_transaction (l : JobLease) (expected : JobCommand)
    (s : JobSettlement) : jtxn JobRow :=
  job ← lock_running_job l (allows_expired_lease s);
  _ ← lift (validate_locked_command job expected);
  update_locked_job (job_id job) (queue_parameters job s).

Definition lock_expired_job (id : Uuid) : jtxn (option JobRow) :=
  ck ← get_clock;
  o ← select_job id;
  mret (r ← o;
        if bool_decide (job_state r = JobStatus.Running)
           && match job_lease_expires_at r with
              | Some t => t <=? sql_clock ck
              | None => false
              end
        then Some r else None).

(** The update a lease recovery applies. *)
Definition recovery_update (r : JobRow) (now_utc : Z) : QueueUpdate :=
  let terminal := job_max_attempts r <=? job_attempt_count r in
  {| qu_state := if terminal then JobStatus.Failed else JobStatus.Queued;
     qu_run_at := now_utc;
     qu_error_class := default (lit "lease_expired") (job_error_class r);
     qu_error_message := default (lit "job lease expired") (job_error_message r);
     qu_terminal := terminal; qu_non_consuming := false |}.

Definition recover_queue_only_in_transaction (id : Uuid) (expected : JobCommand)
    : jtxn (option JobRow) :=
  o ← lock_expired_job id;
  match o with
  | None => mret None
  | Some job =>
      _ ← lift (validate_locked_command job expected);
      ck ← get_clock;
      row ← update_locked_job (job_id job) (recovery_update job (app_now ck));
      mret (Some row)
  end.

Definition recover_queue_only_untyped_txn (id : Uuid) : jtxn bool :=
  o ← lock_expired_job id;
  match o with
  | None => mret false
  | Some job =>
      ck ← get_clock;
      _ ← update_locked_job (job_id job) (recovery_update job (app_now ck));
      mret true
  end.

Definition load_already_requeued (db : Db) (l : JobLease) (s : JobSettlement)
    (expected : JobCommand) : result JobRepositoryError Job :=
  cls ← ok_or (settlement_error_class s) LeaseLost;
  r ← ok_or (db_jobs db !! jl_job_id l) LeaseLost;
  if bool_decide (job_state r = JobStatus.Queued)
     && bool_decide (job_error_class r = Some cls) then
    job ← into_job r;
    if commands_have_same_owner expected (jb_command job) then Ok job else Err LeaseLost
  else Err LeaseLost.

Definition live_job_ids (db : Db) : list Uuid :=
  job_id <$> select_rows (λ r, bool_decide (job_state r = JobStatus.Running)) (db_jobs db).

Definition count_technical_jobs (db : Db) : Z * Z :=
  let technical r := negb (bool_decide (job_kind r = JobType.PublishPost)
                           || bool_decide (job_kind r = JobType.MaterializePublication)) in
  let count s := Z.of_nat (length (select_rows
    (λ r, technical r && bool_decide (job_state r = s)) (db_jobs db))) in
  (count JobStatus.Queued, count JobStatus.Running).
End Queue.

(** ** Lemmas on the fenced statements *)

Create HintDb queue discriminated.
#[global] Hint Constants Opaque : queue.

Section QueueLemmas.
Context {J : Json} {P : PayloadSerde}.
Implicit Types (db : Db) (r : JobRow) (ck : Clock) (l : JobLease).

Lemma claim_le_total a b : claim_le a b = true ∨ claim_le b a = true.
Proof. apply lex_le_total. Qed.
Lemma claim_le_trans a b c : claim_le a b = true → claim_le b c = true → claim_le a c = true.
Proof. apply lex_le_trans. Qed.

(** Overwriting a row with one that keeps its identity and its [CHECK]. *)
Lemma wf_update_job db r r' :
  db_wf db → db_jobs db !! job_id r = Some r → job_id r' = job_id r →
  job_dedupe_key r' = job_dedupe_key r → job_inv r' = true →
  db_wf (db <| db_jobs := <[job_id r' := r']> (db_jobs db) |>).
Proof.
  intros [Hk ? ? Hc ? Hd ? ? ?] Hr Hid Hkey Hr'. rewrite Hid.
  constructor; simpl; try done.
  - intros i x [[<- <-]|[? ?]]%lookup_insert_Some; eauto.
  - intros i x [[<- <-]|[? ?]]%lookup_insert_Some; eauto.
  - intros i j x y k [[<- <-]|[? Hx]]%lookup_insert_Some
      [[<- <-]|[? Hy]]%lookup_insert_Some Hkx Hky; try done.
    + rewrite Hkey in Hkx. eauto.
    + rewrite Hkey in Hky. eauto.
    + eauto.
Qed.

Lemma dedupe_taken_false db k i r :
  dedupe_taken db (Some k) = false → db_jobs db !! i = Some r → job_dedupe_key r ≠ Some k.
Proof.
  simpl. destruct (find_row _ _) eqn:Hf; [done|]. intros _ Hr Hk.
  eapply find_row_None in Hf; [|done]. unfold has_dedupe_key in Hf.
  by rewrite bool_decide_eq_false in Hf.
Qed.

(** Inserting a row under a fresh key. *)
Lemma wf_insert_job db r :
  db_wf db → db_jobs db !! job_id r = None → dedupe_taken db (job_dedupe_key r) = false →
  job_inv r = true → db_wf (db <| db_jobs := <[job_id r := r]> (db_jobs db) |>).
Proof.
  intros [Hk ? ? Hc ? Hd ? ? ?] Hnew Hfree Hr. constructor; simpl; try done.
  - intros i x [[<- <-]|[? ?]]%lookup_insert_Some; eauto.
  - intros i x [[<- <-]|[? ?]]%lookup_insert_Some; eauto.
  - intros i j x y k [[<- <-]|[? Hx]]%lookup_insert_Some
      [[<- <-]|[? Hy]]%lookup_insert_Some Hkx Hky; try done.
    + rewrite Hkx in Hfree. by destruct (dedupe_taken_false _ _ _ _ Hfree Hy).
    + rewrite Hky in Hfree. by destruct (dedupe_taken_false _ _ _ _ Hfree Hx).
    + eauto.
Qed.

(** A running row under the lease of [l]. *)
Definition leased_by l r : Prop :=
  job_state r = JobStatus.Running ∧ job_lease_owner r = Some (jl_lease_owner l)
  ∧ job_lease_token r = Some (jl_lease_token l).

Lemma holds_lease_spec l now r :
  holds_lease l now r = true ↔
    leased_by l r ∧ ∃ t, job_lease_expires_at r = Some t ∧ now < t.
Proof.
  unfold holds_lease, leased_by. rewrite !andb_true_iff, !bool_decide_eq_true.
  destruct (job_lease_expires_at r) as [t|]; [rewrite Z.ltb_lt|]; naive_solver.
Qed.

Lemma lock_running_job_ok l allow ck db r db' :
  lock_running_job l allow ck db = Ok (r, db') ↔
    db' = db ∧ db_jobs db !! jl_job_id l = Some r ∧ leased_by l r
    ∧ job_attempt_count r = jl_attempt_number l
    ∧ (allow = true ∨ ∃ t, job_lease_expires_at r = Some t ∧ sql_clock ck < t).
Proof.
  unfold lock_running_job, leased_by. split.
  - intros H. db_inv. split_and!; auto.
    destruct allow; [by left|]; simpl in *. right.
    destruct (job_lease_expires_at _) as [t|]; [|done]. bool_norm. eauto.
  - intros (-> & Hr & (Hs & Ho & Ht) & Ha & He).
    unfold mbind, txn_bind, get_clock, require, lift, fail_if; simpl.
    rewrite Hr; simpl. rewrite !bool_decide_true, Ha, Z.eqb_refl by done; simpl.
    assert (allow || match job_lease_expires_at r with
                     | Some t => sql_clock ck <? t | None => false end = true) as ->.
    { destruct He as [->|(t & -> & Hlt)]; [done|]. rewrite (proj2 (Z.ltb_lt _ _)) by done.
      by rewrite orb_true_r. }
    done.
Qed.

Lemma update_locked_job_ok id u ck db r' db' :
  update_locked_job id u ck db = Ok (r', db') ↔
    ∃ r, db_jobs db !! id = Some r ∧ job_state r = JobStatus.Running
      ∧ r' = settled_job u (sql_now ck) r
      ∧ db' = db <| db_jobs := <[job_id r' := r']> (db_jobs db) |>.
Proof.
  unfold update_locked_job. split.
  - intros H. db_inv. eexists; split_and!; eauto.
  - intros (r & Hr & Hs & -> & ->).
    unfold mbind, txn_bind, get_clock, require, lift, fail_if; simpl.
    rewrite Hr; simpl. by rewrite bool_decide_true.
Qed.

Lemma lock_expired_job_ok id ck db o db' :
  lock_expired_job id ck db = Ok (o, db') →
    db' = db ∧ ∀ r, o = Some r → db_jobs db !! id = Some r ∧ job_state r = JobStatus.Running
      ∧ ∃ t, job_lease_expires_at r = Some t ∧ t ≤ sql_clock ck.
Proof.
  unfold lock_expired_job. intros H. db_inv. split; [done|].
  intros r Hr. destruct (db_jobs db !! id) as [x|]; simplify_eq/=.
  destruct (bool_decide (job_state x = JobStatus.Running)) eqn:Hs; simplify_eq/=.
  destruct (job_lease_expires_at x) as [t|] eqn:Ht; simplify_eq/=.
  destruct (Z.leb_spec t (sql_clock ck)); simplify_eq/=.
  apply bool_decide_eq_true in Hs. eauto 6.
Qed.

(** The settlements that do not put a row back to running keep its
    invariant, whatever the attempt accounting. *)
Lemma settled_job_inv u now r :
  job_inv r = true → qu_state u ≠ JobStatus.Running →
  (qu_state u = JobStatus.Queued → qu_terminal u = false) →
  job_inv (settled_job u now r) = true.
Proof.
  unfold job_inv, job_check, job_lease_check, settled_job. simpl.
  rewrite !andb_true_iff, !Z.leb_le, !Z.ltb_lt. intros [[[[? ?] _] _] ?] Hu Hq.
  split_and!; [destruct (qu_non_consuming u); lia|done|by destruct (qu_state u)| |
    destruct (qu_non_consuming u); lia].
  destruct (qu_state u); try done. by rewrite Hq.
Qed.

Lemma queue_parameters_not_running r s : qu_state (queue_parameters r s) ≠ JobStatus.Running.
Proof. destruct s; simpl; try case_match; done. Qed.
Lemma queue_parameters_terminal r s :
  qu_state (queue_parameters r s) = JobStatus.Queued → qu_terminal (queue_parameters r s) = false.
Proof. destruct s; simpl; try case_match; done. Qed.
Lemma recovery_update_not_running r t : qu_state (recovery_update r t) ≠ JobStatus.Running.
Proof. unfold recovery_update; simpl. by case_match. Qed.
Lemma recovery_update_terminal r t :
  qu_state (recovery_update r t) = JobStatus.Queued → qu_terminal (recovery_update r t) = false.
Proof. unfold recovery_update; simpl. by case_match. Qed.

Lemma claimed_job_inv w d t now r :
  job_inv r = true → job_state r = JobStatus.Queued →
  job_attempt_count r < job_max_attempts r → job_inv (claimed_job w d t now r) = true.
Proof.
  unfold job_inv, job_check, job_lease_check, claimed_job. simpl.
  intros Hc Hs Hlt. rewrite Hs in Hc. destruct (job_completed_at r);
  rewrite !andb_true_iff, ?Z.leb_le, ?Z.ltb_lt in *; naive_solver lia.
Qed.
End QueueLemmas.
