(* ===== verification/Instances.v ===== *)
(** * Instances: the library interfaces are inhabited

    A concrete value type with encoders for the seven payloads.  It exists to
    evaluate the model on concrete inputs and to show that the laws assumed of
    serde and of [Uuid]'s text form can hold together. *)

From S2P Require Import Prelude Enums Jobs Db Queue.

Inductive demo_value :=
| VNull
| VOne (a : N)
| VTwo (a b : N)
| VCounted (a : N) (n : Z)
| VDownload (i : N) (adapter url : Str) (resolved : option Str) (kind : SourceMediaKind.t)
    (mime : option Str) (len : option Z) (title : option Str) (metadata : demo_value)
| VBool (b : bool)
| VNum (z : Z)
| VText (s : Str)
| VArr (l : list demo_value)
| VObj (l : list (Str * demo_value)).

#[global] Instance demo_json : Json.
Proof.
  refine {| Value := demo_value;
            json_text v k := match v with
                             | VCounted a _ =>
                                 if decide (k = "post_id"%string) then Some (lit (pretty a)) else None
                             | _ => None
                             end;
            uuid_to_string u := lit (pretty u) |}.
  intros x y H. apply lit_inj in H. by apply (inj pretty) in H.
Defined.

#[global] Instance demo_serde : PayloadSerde.
Proof.
  unshelve refine {|
    serde_inspect := {| to_value p := VOne (inspect_ingest_id p);
                        from_value v := match v with
                                        | VOne a => Ok {| inspect_ingest_id := a |}
                                        | _ => Err (lit "payload") end |};
    serde_download := {| to_value p :=
                           let s := download_inspection p in
                           VDownload (download_ingest_id p) (si_adapter s) (si_source_url s)
                             (si_resolved_url s) (si_media_kind s) (si_mime_type s)
                             (si_content_length_bytes s) (si_title s) (si_metadata s);
                         from_value v := match v with
                                         | VDownload i a u re k m n t md =>
                                             Ok {| download_ingest_id := i;
                                                   download_inspection :=
                                                     Build_SourceInspection a u re k m n t md |}
                                         | _ => Err (lit "payload") end |};
    serde_ingest := {| to_value p := VOne (ingest_job_id p);
                       from_value v := match v with
                                       | VOne a => Ok {| ingest_job_id := a |}
                                       | _ => Err (lit "payload") end |};
    serde_materialize := {| to_value p := VOne (materialize_ingest_id p);
                            from_value v := match v with
                                            | VOne a => Ok {| materialize_ingest_id := a |}
                                            | _ => Err (lit "payload") end |};
    serde_media := {| to_value p := VCounted (media_job_id p) (media_job_generation p);
                      from_value v := match v with
                                      | VCounted a n =>
                                          Ok {| media_job_id := a; media_job_generation := n |}
                                      | _ => Err (lit "payload") end |};
    serde_publish := {| to_value p := VCounted (publish_post_id p) (publish_expected_revision p);
                        from_value v := match v with
                                        | VCounted a n =>
                                            Ok {| publish_post_id := a;
                                                  publish_expected_revision := n |}
                                        | _ => Err (lit "payload") end |};
    serde_cleanup := {| to_value p := VTwo (cleanup_ingest_id p) (cleanup_workspace_id p);
                        from_value v := match v with
                                        | VTwo a b => Ok {| cleanup_ingest_id := a;
                                                            cleanup_workspace_id := b |}
                                        | _ => Err (lit "payload") end |} |}.
  all: try (by intros []). intros [? []]. done.
Defined.

(** ** Equality of concrete rows *)

#[global] Instance demo_value_eq_dec : EqDecision demo_value.
Proof.
  refine (fix go v w {struct v} : Decision (v = w) :=
    let _ : EqDecision demo_value := go in
    match v, w with
    | VNull, VNull => left _
    | VOne a, VOne b => cast_if (decide (a = b))
    | VTwo a b, VTwo a' b' => cast_if_and (decide (a = a')) (decide (b = b'))
    | VCounted a n, VCounted a' n' => cast_if_and (decide (a = a')) (decide (n = n'))
    | VDownload i a u r k m n t d, VDownload i' a' u' r' k' m' n' t' d' =>
        cast_if_and5 (decide ((i, a, u) = (i', a', u'))) (decide ((r, k) = (r', k')))
          (decide ((m, n) = (m', n'))) (decide (t = t')) (decide (d = d'))
    | VBool a, VBool b => cast_if (decide (a = b))
    | VNum a, VNum b => cast_if (decide (a = b))
    | VText a, VText b => cast_if (decide (a = b))
    | VArr a, VArr b => cast_if (decide (a = b))
    | VObj a, VObj b => cast_if (decide (a = b))
    | _, _ => right _
    end); try congruence.
Defined.
#[global] Instance json_value_eq_dec : EqDecision (@Value demo_json).
Proof. exact demo_value_eq_dec. Defined.

Section Equality.
Context {J : Json} `{EqDecision Value}.

#[global] Instance job_row_eq_dec : EqDecision JobRow.
Proof. solve_decision. Defined.
#[global] Instance ingest_row_eq_dec : EqDecision IngestRow.
Proof. solve_decision. Defined.
#[global] Instance media_preview_eq_dec : EqDecision MediaPreviewColumns.
Proof. solve_decision. Defined.
#[global] Instance media_row_eq_dec : EqDecision MediaRow.
Proof. solve_decision. Defined.
#[global] Instance channel_row_eq_dec : EqDecision ChannelRow.
Proof. solve_decision. Defined.
#[global] Instance repeat_conflict_eq_dec : EqDecision RepeatConflict.
Proof. solve_decision. Defined.
#[global] Instance post_row_eq_dec : EqDecision PostRow.
Proof. solve_decision. Defined.
#[global] Instance db_eq_dec : EqDecision Db.
Proof. solve_decision. Defined.
End Equality.

(** ** A small database for evaluations *)

Definition demo_clock (t : Z) : Clock := {| sql_now := t; sql_clock := t; app_now := t |}.

Definition demo_job (id : Uuid) (j : NewJob) : JobRow := inserted_job id j 100.

(** Job 7 is running under this lease until time 500. *)
Definition demo_lease : JobLease :=
  {| jl_job_id := 7; jl_attempt_number := 1; jl_lease_owner := lit "worker-a";
     jl_lease_token := 70 |}.
Definition demo_running : JobRow :=
  claimed_job (lit "worker-a") 400 70 100 (demo_job 7 (new_publish_post 40 0)).

Definition demo_queue : Db :=
  empty_db <| db_jobs := {[ 5%N := demo_job 5 (new_inspect_source 1);
                            6%N := demo_job 6 (with_priority 3 (new_probe_asset 2));
                            7%N := demo_running ]} |>.

(** Well-formedness of a concrete database is checked by enumeration. *)
Definition jobs_wfb {J : Json} (m : gmap Uuid JobRow) : bool :=
  forallb (λ kr, bool_decide (job_id kr.2 = kr.1) && job_inv kr.2) (map_to_list m)
  && forallb (λ kr, forallb (λ kr',
       bool_decide (kr.1 = kr'.1) || is_none (job_dedupe_key kr.2)
       || negb (bool_decide (job_dedupe_key kr.2 = job_dedupe_key kr'.2))) (map_to_list m))
       (map_to_list m).
Definition posts_wfb {J : Json} (m : gmap Uuid PostRow) : bool :=
  forallb (λ kr, bool_decide (post_id kr.2 = kr.1) && post_check kr.2) (map_to_list m).
Definition channels_wfb {J : Json} (m : gmap Uuid ChannelRow) : bool :=
  forallb (λ kr, bool_decide (channel_id kr.2 = kr.1)) (map_to_list m).
Definition ingests_wfb {J : Json} (m : gmap Uuid IngestRow) : bool :=
  forallb (λ kr, bool_decide (ingest_id kr.2 = kr.1)) (map_to_list m).
Definition media_wfb {J : Json} (m : gmap Uuid MediaRow) : bool :=
  forallb (λ kr, bool_decide (media_id kr.2 = kr.1) && media_check kr.2) (map_to_list m).
Definition db_wfb {J : Json} (db : Db) : bool :=
  jobs_wfb (db_jobs db) && posts_wfb (db_posts db) && channels_wfb (db_channels db)
  && ingests_wfb (db_ingests db) && media_wfb (db_media db).

Lemma forallb_map_to_list {A} (f : Uuid * A → bool) (m : gmap Uuid A) :
  forallb f (map_to_list m) = true → ∀ i x, m !! i = Some x → f (i, x) = true.
Proof.
  intros Hf i x Hx. rewrite forallb_forall in Hf. apply Hf, list_elem_of_In.
  by apply elem_of_map_to_list.
Qed.

Lemma db_wfb_sound {J : Json} (db : Db) : db_wfb db = true → db_wf db.
Proof.
  unfold db_wfb, jobs_wfb. rewrite !andb_true_iff.
  intros [[[[[Hj Hd] Hp] Hc] Hi] Hm]. constructor.
  all: try (intros i r Hr;
    first [apply (forallb_map_to_list _ _ Hj) in Hr | apply (forallb_map_to_list _ _ Hp) in Hr
          |apply (forallb_map_to_list _ _ Hc) in Hr | apply (forallb_map_to_list _ _ Hi) in Hr
          |apply (forallb_map_to_list _ _ Hm) in Hr]; simpl in Hr; bool_norm; done).
  intros i j r r' k Hr Hr' Hk Hk'.
  eapply forallb_map_to_list in Hr; [|exact Hd]. eapply forallb_map_to_list in Hr'; [|exact Hr].
  simpl in Hr'. rewrite Hk, Hk' in Hr'. simpl in Hr'.
  rewrite (bool_decide_true (Some k = Some k)), orb_false_r, orb_false_r in Hr' by done.
  by apply bool_decide_eq_true in Hr'.
Qed.
