(* ===== verification/QueueSpec.v ===== *)
(** * QueueSpec: what the durable queue guarantees

    Functional behaviour of the claim, lease fencing on single calls and over
    histories, the attempt bound, and preservation of the table invariants. *)

From S2P Require Import Prelude Enums Jobs Db Queue Instances.

Section Spec.
Context {J : Json} {P : PayloadSerde}.
Implicit Types (db : Db) (r : JobRow) (ck : Clock) (l : JobLease).

(** ** What a claim is to do *)

(** A job that is due, has an attempt left, and that the worker can run. *)
Record waiting (now : Z) (caps : list JobType.t) r : Prop := {
  wa_queued : job_state r = JobStatus.Queued;
  wa_due : job_run_at r ≤ now;
  wa_attempts : job_attempt_count r < job_max_attempts r;
  wa_kind : job_kind r ∈ caps;
}.

(** Higher priority first, then due first, then created first, then by identifier. *)
Definition goes_first r x : Prop :=
  job_priority x < job_priority r
  ∨ job_priority r = job_priority x
    ∧ (job_run_at r < job_run_at x
       ∨ job_run_at r = job_run_at x
         ∧ (job_created_at r < job_created_at x
            ∨ job_created_at r = job_created_at x ∧ (job_id r ≤ job_id x)%N)).

(** [r'] is [r] running for [worker] under a lease of [d]; every other column is kept. *)
Record taken (worker : Str) (d : Z) (token : Uuid) (now : Z) r r' : Prop := {
  ta_state : job_state r' = JobStatus.Running;
  ta_token : job_lease_token r' = Some token;
  ta_owner : job_lease_owner r' = Some worker;
  ta_expires : job_lease_expires_at r' = Some (now + d);
  ta_heartbeat : job_last_heartbeat_at r' = Some now;
  ta_attempts : job_attempt_count r' = job_attempt_count r + 1;
  ta_updated : job_updated_at r' = now;
  ta_kept : job_id r' = job_id r ∧ job_kind r' = job_kind r ∧ job_payload r' = job_payload r
    ∧ job_priority r' = job_priority r ∧ job_run_at r' = job_run_at r
    ∧ job_max_attempts r' = job_max_attempts r ∧ job_error_class r' = job_error_class r
    ∧ job_error_message r' = job_error_message r ∧ job_dedupe_key r' = job_dedupe_key r
    ∧ job_created_at r' = job_created_at r ∧ job_completed_at r' = job_completed_at r;
}.

(** A row the claim may take: waiting and not locked elsewhere. *)
Definition eligible (locked : gset Uuid) (now : Z) (caps : list JobType.t) db (i : Uuid) r :=
  db_jobs db !! i = Some r ∧ i ∉ locked ∧ waiting now caps r.

Lemma claimable_waiting now caps r : claimable now caps r = true ↔ waiting now caps r.
Proof.
  unfold claimable. rewrite !andb_true_iff, !bool_decide_eq_true, Z.leb_le, Z.ltb_lt.
  split; [by intros [[[]]]|by intros []].
Qed.
Lemma claim_le_goes_first r x : claim_le r x = true → goes_first r x.
Proof.
  unfold claim_le, claim_order, goes_first. cbn [lex_le].
  repeat match goal with |- context [?a <? ?b] => destruct (Z.ltb_spec a b) end; try done; lia.
Qed.
Lemma claimed_job_taken worker d token now r : taken worker d token now r (claimed_job worker d token now r).
Proof. by constructor. Qed.
Lemma taken_claimed worker d token now r r' :
  taken worker d token now r r' → r' = claimed_job worker d token now r.
Proof. destruct r, r'. intros []. destruct_and?. simpl in *. by subst. Qed.

Lemma claim_candidate_Some locked now caps db r :
  db_wf db → claim_candidate locked now caps (db_jobs db) = Some r →
  eligible locked now caps db (job_id r) r
  ∧ ∀ i x, eligible locked now caps db i x → goes_first r x.
Proof.
  intros Hwf Hc. apply order_by_head_min in Hc as [Hin Hmin];
    [|apply claim_le_total|apply claim_le_trans].
  apply elem_of_select_rows in Hin as (i & Hi & Hp). rewrite <-(wf_job_key _ Hwf _ _ Hi) in Hi.
  apply andb_true_iff in Hp as [Hp Hl%bool_decide_eq_true].
  split; [split_and!; [done|done|by apply claimable_waiting]|]. intros j x (Hx & Hlx & Hcl%claimable_waiting).
  apply claim_le_goes_first, Hmin, elem_of_select_rows. exists j. split; [done|].
  by rewrite Hcl, bool_decide_true by (by rewrite (wf_job_key _ Hwf _ _ Hx)).
Qed.

Lemma claim_candidate_None locked now caps db :
  db_wf db → claim_candidate locked now caps (db_jobs db) = None →
  ∀ i x, ¬ eligible locked now caps db i x.
Proof.
  intros Hwf Hc%order_by_head_none i x (Hx & Hl & Hcl%claimable_waiting).
  assert (x ∈ select_rows (λ r, claimable now caps r && bool_decide (job_id r ∉ locked))
    (db_jobs db)) as Hin.
  { apply elem_of_select_rows. exists i. split; [done|].
    by rewrite Hcl, bool_decide_true by (by rewrite (wf_job_key _ Hwf _ _ Hx)). }
  rewrite Hc in Hin. by apply elem_of_nil in Hin.
Qed.

(** The claim as a function: what it returns and what it commits. *)
Lemma claim_next_result locked token worker d caps ck db :
  db_wf db → d ≠ 0 →
  (claim_next locked token worker d caps ck db = (Ok None, db)
     ∧ ∀ i x, ¬ eligible locked (sql_now ck) caps db i x)
  ∨ ∃ r, eligible locked (sql_now ck) caps db (job_id r) r
      ∧ (∀ i x, eligible locked (sql_now ck) caps db i x → goes_first r x)
      ∧ ∃ r', taken worker d token (sql_now ck) r r'
        ∧ claim_next locked token worker d caps ck db =
            (Some <$> into_job r', db <| db_jobs := <[job_id r := r']> (db_jobs db) |>).
Proof.
  intros Hwf Hd. unfold claim_next, commit_then, run_txn, claim_next_txn, lease_seconds.
  rewrite (proj2 (Z.eqb_neq _ _) Hd).
  unfold mbind, txn_bind, get_clock, lift; simpl.
  destruct (claim_candidate _ _ _ _) as [r|] eqn:Hc.
  - right. exists r. destruct (claim_candidate_Some _ _ _ _ _ Hwf Hc) as [He Hm].
    split_and!; auto. exists (claimed_job worker d token (sql_now ck) r).
    split; [apply claimed_job_taken|done].
  - left. split; [done|]. by eapply claim_candidate_None.
Qed.

(** ** Fencing of a single call *)

Lemma lock_running_job_stale l allow ck db r :
  db_jobs db !! jl_job_id l = Some r → ¬ leased_by l r →
  lock_running_job l allow ck db = Err LeaseLost.
Proof.
  intros Hr Hn. unfold lock_running_job, mbind, txn_bind, get_clock, require, lift, fail_if; simpl.
  rewrite Hr; simpl. destruct (negb _) eqn:Hg; [done|]. exfalso. apply Hn.
  bool_norm. by split_and!.
Qed.

Lemma holds_lease_stale l now r : ¬ leased_by l r → holds_lease l now r = false.
Proof.
  intros Hn. destruct (holds_lease l now r) eqn:Hh; [|done].
  apply holds_lease_spec in Hh as [? _]. done.
Qed.

(** ** Histories

    One step is one committed repository call by some worker.  The ghost set
    [used] holds every lease token ever issued; [gen_random_uuid()] never
    repeats one. *)

Inductive label := LClaim (i : Uuid) | LRefund (i : Uuid) | LSilent.
#[global] Instance label_eq_dec : EqDecision label.
Proof. solve_decision. Defined.

Definition non_consuming (s : JobSettlement) : bool := allows_expired_lease s.

Inductive queue_step : gset Uuid * Db → label → gset Uuid * Db → Prop :=
| QEnqueue used db ck fresh j r' db' :
    enqueue_txn fresh j ck db = Ok (r', db') →
    queue_step (used, db) LSilent (used, db')
| QClaimNone used db ck locked token w d caps db' :
    claim_next_txn locked token w d caps ck db = Ok (None, db') →
    queue_step (used, db) LSilent (used, db')
| QClaim used db ck locked token w d caps r' db' :
    token ∉ used →
    claim_next_txn locked token w d caps ck db = Ok (Some r', db') →
    queue_step (used, db) (LClaim (job_id r')) ({[token]} ∪ used, db')
| QHeartbeat used db ck l d r' db' :
    heartbeat_lease_txn l d ck db = Ok (r', db') →
    queue_step (used, db) LSilent (used, db')
| QComplete used db ck l r' db' :
    complete_lease_txn l ck db = Ok (r', db') →
    queue_step (used, db) LSilent (used, db')
| QSettle used db ck l c s r' db' :
    settle_queue_in_transaction l c s ck db = Ok (r', db') →
    queue_step (used, db) (if non_consuming s then LRefund (job_id r') else LSilent) (used, db')
| QRecover used db ck id c o db' :
    recover_queue_only_in_transaction id c ck db = Ok (o, db') →
    queue_step (used, db) LSilent (used, db')
| QRecoverUntyped used db ck id b db' :
    recover_queue_only_untyped_txn id ck db = Ok (b, db') →
    queue_step (used, db) LSilent (used, db').

Inductive queue_steps : gset Uuid * Db → list label → gset Uuid * Db → Prop :=
| steps_nil s : queue_steps s [] s
| steps_cons s lab s1 labs s2 :
    queue_step s lab s1 → queue_steps s1 labs s2 → queue_steps s (lab :: labs) s2.

(** How one step may change one row. *)
Definition attempts_after (lab : label) (i : Uuid) (n : Z) : Z :=
  match lab with
  | LClaim j => if decide (i = j) then n + 1 else n
  | LRefund j => if decide (i = j) then Z.max (n - 1) 0 else n
  | LSilent => n
  end.

Record row_step (used used' : gset Uuid) (lab : label) (i : Uuid) (r r' : JobRow) : Prop := {
  rs_max : job_max_attempts r' = job_max_attempts r;
  rs_attempts : job_attempt_count r' = attempts_after lab i (job_attempt_count r);
  rs_token : job_lease_token r' = job_lease_token r ∨ job_lease_token r' = None
             ∨ ∃ t, job_lease_token r' = Some t ∧ t ∉ used ∧ t ∈ used';
}.

Lemma row_step_refl used used' lab i r :
  attempts_after lab i (job_attempt_count r) = job_attempt_count r →
  row_step used used' lab i r r.
Proof. constructor; auto. Qed.

(** A step overwrites at most one row, and keeps the others. *)
Definition one_row_step used used' lab db db' : Prop :=
  (db' = db ∧ lab = LSilent) ∨
  (∃ i r r', db_jobs db !! i = Some r ∧ db' = db <| db_jobs := <[i := r']> (db_jobs db) |>
     ∧ row_step used used' lab i r r' ∧ (lab = LClaim i ∨ lab = LRefund i ∨ lab = LSilent)
     ∧ job_id r' = i ∧ job_dedupe_key r' = job_dedupe_key r
     ∧ (job_inv r = true → job_inv r' = true)) ∨
  (∃ r', db_jobs db !! job_id r' = None ∧ lab = LSilent ∧ job_inv r' = true
     ∧ job_lease_token r' = None ∧ dedupe_taken db (job_dedupe_key r') = false
     ∧ db' = db <| db_jobs := <[job_id r' := r']> (db_jobs db) |>).

Lemma settle_step used lab u db r ck :
  db_wf db → db_jobs db !! job_id r = Some r →
  lab = (if qu_non_consuming u then LRefund (job_id r) else LSilent) →
  qu_state u ≠ JobStatus.Running →
  (qu_state u = JobStatus.Queued → qu_terminal u = false) →
  one_row_step used used lab db
    (db <| db_jobs := <[job_id r := settled_job u (sql_now ck) r]> (db_jobs db) |>).
Proof.
  intros Hwf Hr -> Hs Ht. right; left. exists (job_id r), r, (settled_job u (sql_now ck) r).
  split_and!; try done.
  - constructor; [done| |by right; left]. simpl.
    destruct (qu_non_consuming u); simpl; [by rewrite decide_True|done].
  - destruct (qu_non_consuming u); auto.
  - intros Hi. by apply settled_job_inv.
Qed.

(** A step that rewrites a running row without touching attempts or token. *)
Lemma touch_step used db r r' :
  db_jobs db !! job_id r = Some r → job_id r' = job_id r →
  job_max_attempts r' = job_max_attempts r → job_attempt_count r' = job_attempt_count r →
  job_lease_token r' = job_lease_token r ∨ job_lease_token r' = None →
  job_dedupe_key r' = job_dedupe_key r → (job_inv r = true → job_inv r' = true) →
  one_row_step used used LSilent db
    (db <| db_jobs := <[job_id r := r']> (db_jobs db) |>).
Proof.
  intros. right; left. exists (job_id r), r, r'. split_and!; auto.
  constructor; simpl; naive_solver.
Qed.

Lemma enqueue_step used db ck fresh j r' db' :
  enqueue_txn fresh j ck db = Ok (r', db') → one_row_step used used LSilent db db'.
Proof.
  unfold enqueue_txn. intros H. db_inv. right; right.
  exists (inserted_job fresh j (sql_now ck)). split_and!; auto; simpl.
  - by destruct (db_jobs db !! fresh).
  - unfold job_inv, job_check, job_lease_check; simpl. lia.
Qed.

Lemma claim_step used db ck locked token w d caps r' db' :
  db_wf db → token ∉ used → claim_next_txn locked token w d caps ck db = Ok (Some r', db') →
  one_row_step used ({[token]} ∪ used) (LClaim (job_id r')) db db'.
Proof.
  intros Hwf Hfresh H. unfold claim_next_txn in H. db_inv. case_match eqn:Hc; db_inv.
  right; left. apply claim_candidate_Some in Hc as [(Hr & _ & Hcl) _]; [|done].
  destruct Hcl as [Hqueued Hdue Hleft Hkind].
  eexists _, _, _. split_and!; eauto; [constructor|]; simpl; auto.
  - by rewrite decide_True.
  - right; right. eexists. split_and!; [done|done|set_solver].
  - intros. by apply claimed_job_inv.
Qed.

(** Lease renewal and completion keep the row invariant. *)
Lemma job_inv_renewed r t h now :
  job_inv r = true → job_state r = JobStatus.Running →
  job_inv (r <| job_lease_expires_at := Some t; job_last_heartbeat_at := Some h;
                job_updated_at := now |>) = true.
Proof.
  unfold job_inv, job_check, job_lease_check; simpl. intros Hi Hs. rewrite Hs in *.
  bool_norm. rewrite !andb_true_iff, Z.leb_le, Z.ltb_lt. naive_solver lia.
Qed.

Lemma job_inv_succeeded r now : job_inv r = true → job_inv (succeeded_job now r) = true.
Proof.
  unfold job_inv, job_check, job_lease_check; simpl. intros Hi. bool_norm.
  rewrite !andb_true_iff, !Z.leb_le, Z.ltb_lt. naive_solver lia.
Qed.

Lemma heartbeat_step used db ck l d r' db' :
  db_wf db → heartbeat_lease_txn l d ck db = Ok (r', db') → one_row_step used used LSilent db db'.
Proof.
  unfold heartbeat_lease_txn. intros Hwf H. db_inv.
  match goal with H : holds_lease _ _ _ = true |- _ => apply holds_lease_spec in H as [(?&_&_) _] end.
  match goal with H : _ = db_jobs db !! _ |- _ => symmetry in H; rename H into Hr end.
  pose proof (wf_job_key _ Hwf _ _ Hr) as Hk. rewrite <-Hk in Hr.
  apply touch_step; auto. intros. by apply job_inv_renewed.
Qed.

Lemma complete_step used db ck l r' db' :
  db_wf db → complete_lease_txn l ck db = Ok (r', db') → one_row_step used used LSilent db db'.
Proof.
  unfold complete_lease_txn. intros Hwf H. db_inv.
  match goal with H : _ = db_jobs db !! _ |- _ => symmetry in H; rename H into Hr end.
  pose proof (wf_job_key _ Hwf _ _ Hr) as Hk. rewrite <-Hk in Hr.
  case_match; [|case_match]; db_inv; [|by left].
  apply touch_step; auto. by apply job_inv_succeeded.
Qed.

Lemma settle_queue_step used db ck l c s r' db' :
  db_wf db → settle_queue_in_transaction l c s ck db = Ok (r', db') →
  one_row_step used used (if non_consuming s then LRefund (job_id r') else LSilent) db db'.
Proof.
  unfold settle_queue_in_transaction. intros Hwf H. db_inv.
  match goal with H : lock_running_job _ _ _ _ = _ |- _ =>
    apply lock_running_job_ok in H as (-> & Hr & _) end.
  pose proof (wf_job_key _ Hwf _ _ Hr) as Hk. rewrite <-Hk in Hr.
  match goal with H : update_locked_job _ _ _ _ = _ |- _ =>
    apply update_locked_job_ok in H as (r & Hr2 & Hs & -> & ->) end.
  rewrite Hr in Hr2. simplify_eq. simpl. apply settle_step; auto.
  - by destruct s as [? ? ? []|? ? ? []|].
  - apply queue_parameters_not_running.
  - apply queue_parameters_terminal.
Qed.

Lemma recover_locked_step used db ck r r' db' now :
  db_wf db → db_jobs db !! job_id r = Some r →
  update_locked_job (job_id r) (recovery_update r now) ck db = Ok (r', db') →
  one_row_step used used LSilent db db'.
Proof.
  intros Hwf Hr (r2 & Hr2 & _ & -> & ->)%update_locked_job_ok.
  rewrite Hr in Hr2. simplify_eq.
  apply (settle_step used LSilent (recovery_update r2 now) db r2 ck); auto.
  - apply recovery_update_not_running.
  - apply recovery_update_terminal.
Qed.

Lemma lock_expired_row db ck id r db' :
  db_wf db → lock_expired_job id ck db = Ok (Some r, db') →
  db' = db ∧ db_jobs db !! job_id r = Some r.
Proof.
  intros Hwf [-> Ho]%lock_expired_job_ok. destruct (Ho _ eq_refl) as [Hr _].
  by rewrite (wf_job_key _ Hwf _ _ Hr).
Qed.

Lemma recover_step used db ck id c o db' :
  db_wf db → recover_queue_only_in_transaction id c ck db = Ok (o, db') →
  one_row_step used used LSilent db db'.
Proof.
  unfold recover_queue_only_in_transaction. intros Hwf H. db_inv. case_match; db_inv.
  - match goal with H : lock_expired_job _ _ _ = _ |- _ =>
      apply lock_expired_row in H as [-> ?]; [|done] end.
    by eapply recover_locked_step.
  - match goal with H : lock_expired_job _ _ _ = _ |- _ =>
      apply lock_expired_job_ok in H as [-> _] end. by left.
Qed.

Lemma recover_untyped_step used db ck id b db' :
  db_wf db → recover_queue_only_untyped_txn id ck db = Ok (b, db') →
  one_row_step used used LSilent db db'.
Proof.
  unfold recover_queue_only_untyped_txn. intros Hwf H. db_inv. case_match; db_inv.
  - match goal with H : lock_expired_job _ _ _ = _ |- _ =>
      apply lock_expired_row in H as [-> ?]; [|done] end.
    by eapply recover_locked_step.
  - match goal with H : lock_expired_job _ _ _ = _ |- _ =>
      apply lock_expired_job_ok in H as [-> _] end. by left.
Qed.

Lemma queue_step_one_row used db lab used' db' :
  db_wf db → queue_step (used, db) lab (used', db') → one_row_step used used' lab db db'.
Proof.
  intros Hwf Hstep. inversion Hstep; subst.
  - by eapply enqueue_step.
  - unfold claim_next_txn in *. db_inv. case_match; db_inv. by left.
  - by eapply claim_step.
  - by eapply heartbeat_step.
  - by eapply complete_step.
  - by eapply settle_queue_step.
  - by eapply recover_step.
  - by eapply recover_untyped_step.
Qed.

(** ** Consequences of the one-row lemma *)

Lemma one_row_step_wf used used' lab db db' :
  db_wf db → one_row_step used used' lab db db' → db_wf db'.
Proof.
  intros Hwf [[-> _]|[(i & r & r' & Hr & -> & _ & _ & Hid & Hk & Hinv)|
                      (r' & Hn & _ & Hi & _ & Hd & ->)]].
  - done.
  - pose proof (wf_job_key _ Hwf _ _ Hr) as <-. rewrite <-Hid.
    apply (wf_update_job _ r); auto. apply Hinv. by eapply wf_job_inv.
  - by apply wf_insert_job.
Qed.

(** Tokens stored in the table have been issued. *)
Definition tokens_issued (used : gset Uuid) db : Prop :=
  ∀ i r t, db_jobs db !! i = Some r → job_lease_token r = Some t → t ∈ used.

Lemma queue_step_used s lab s' : queue_step s lab s' → s.1 ⊆ s'.1.
Proof. destruct 1; simpl; set_solver. Qed.

Lemma one_row_step_row used used' lab db db' i r :
  one_row_step used used' lab db db' → db_jobs db !! i = Some r →
  ∃ r', db_jobs db' !! i = Some r' ∧ row_step used used' lab i r r'.
Proof.
  intros [[-> ->]|[(j & x & x' & Hx & -> & Hs & Hl & _)|(x' & Hn & -> & _ & _ & _ & ->)]] Hr.
  - exists r. split; [done|]. by apply row_step_refl.
  - destruct (decide (i = j)) as [->|Hne]; simpl.
    + exists x'. rewrite lookup_insert_eq. simplify_eq. done.
    + exists r. rewrite lookup_insert_ne by done. split; [done|]. apply row_step_refl.
      destruct Hl as [->|[->| ->]]; simpl; rewrite ?decide_False by done; done.
  - exists r. simpl. rewrite lookup_insert_ne by congruence. split; [done|].
    by apply row_step_refl.
Qed.

Lemma one_row_step_tokens used used' lab db db' :
  used ⊆ used' → tokens_issued used db → one_row_step used used' lab db db' →
  tokens_issued used' db'.
Proof.
  intros Hsub Ht Hone i r' t Hr' Htok.
  destruct Hone as [[-> _]|[(j & x & x' & Hx & -> & Hs & _)|(x' & _ & _ & _ & Hnone & _ & ->)]].
  - set_solver.
  - simpl in Hr'. apply lookup_insert_Some in Hr' as [[<- <-]|[_ Hr']]; [|set_solver].
    destruct (rs_token _ _ _ _ _ _ Hs) as [Heq|[Heq|(t' & Heq & _ & Hin)]]; [|congruence..].
    rewrite Heq in Htok. set_solver.
  - simpl in Hr'. apply lookup_insert_Some in Hr' as [[<- <-]|[_ Hr']]; [congruence|set_solver].
Qed.

Lemma queue_steps_inv s labs s' :
  queue_steps s labs s' → db_wf s.2 → tokens_issued s.1 s.2 →
  db_wf s'.2 ∧ tokens_issued s'.1 s'.2 ∧ s.1 ⊆ s'.1.
Proof.
  induction 1 as [s|[u d] lab [u1 d1] labs s2 Hstep Hsteps IH]; [done|]. simpl in *.
  intros Hwf Ht. pose proof (queue_step_used _ _ _ Hstep) as Hsub; simpl in Hsub.
  pose proof (queue_step_one_row _ _ _ _ _ Hwf Hstep) as Hone.
  destruct IH as (? & ? & ?); [by eapply one_row_step_wf|by eapply one_row_step_tokens|].
  split_and!; auto; set_solver.
Qed.

(** A token that the row has lost never comes back. *)
Lemma lost_token_stays_lost s labs s' i r t :
  queue_steps s labs s' → db_wf s.2 → tokens_issued s.1 s.2 → t ∈ s.1 →
  db_jobs s.2 !! i = Some r → job_lease_token r ≠ Some t →
  ∃ r', db_jobs s'.2 !! i = Some r' ∧ job_lease_token r' ≠ Some t.
Proof.
  intros Hsteps. revert r. induction Hsteps as [s|[u d] lab [u1 d1] labs s2 Hstep Hsteps IH];
    intros r Hwf Ht Hin Hr Hne; simpl in *; [eauto|].
  pose proof (queue_step_used _ _ _ Hstep) as Hsub; simpl in Hsub.
  pose proof (queue_step_one_row _ _ _ _ _ Hwf Hstep) as Hone.
  destruct (one_row_step_row _ _ _ _ _ _ _ Hone Hr) as (r1 & Hr1 & Hrow).
  apply (IH r1); auto; [by eapply one_row_step_wf|by eapply one_row_step_tokens|].
  destruct (rs_token _ _ _ _ _ _ Hrow) as [->|[->|(t' & -> & Hnew & _)]]; congruence.
Qed.

Definition claims_of (i : Uuid) (labs : list label) : Z :=
  Z.of_nat (length (filter (λ lab, lab = LClaim i) labs)).
Definition refunds_of (i : Uuid) (labs : list label) : Z :=
  Z.of_nat (length (filter (λ lab, lab = LRefund i) labs)).
Lemma queue_steps_attempts s labs s' i r :
  queue_steps s labs s' → db_wf s.2 → db_jobs s.2 !! i = Some r →
  ∃ r', db_jobs s'.2 !! i = Some r' ∧ job_max_attempts r' = job_max_attempts r
    ∧ job_attempt_count r + claims_of i labs - refunds_of i labs ≤ job_attempt_count r'.
Proof.
  intros Hsteps. revert r. induction Hsteps as [s|[u d] lab [u1 d1] labs s2 Hstep Hsteps IH];
    intros r Hwf Hr; simpl in *.
  - exists r. unfold claims_of, refunds_of; simpl. split_and!; auto; lia.
  - pose proof (queue_step_one_row _ _ _ _ _ Hwf Hstep) as Hone.
    destruct (one_row_step_row _ _ _ _ _ _ _ Hone Hr) as (r1 & Hr1 & Hrow).
    destruct (IH r1) as (r' & Hr' & Hm & Ha); auto; [by eapply one_row_step_wf|].
    exists r'. split_and!; [done|by rewrite Hm, (rs_max _ _ _ _ _ _ Hrow)|].
    rewrite (rs_attempts _ _ _ _ _ _ Hrow) in Ha. unfold claims_of, refunds_of in *.
    rewrite !filter_cons. destruct lab as [j|j|]; simpl in *; repeat case_decide;
      simplify_eq/=; lia.
Qed.
End Spec.

(** ** Theorems *)

Section Theorems.
Context {J : Json} {P : PayloadSerde}.

(** C9: the claim query.  With a non-zero lease duration [claim_next] always
    returns.  Either no unlocked job is queued, due, with an attempt left and of
    a kind the worker can run, and the database is unchanged; or it takes one of
    those jobs that goes before all of them (higher priority, then earlier due
    time, then earlier creation, then identifier), and commits exactly that row,
    now running under the given token and worker for the given duration, with
    one more attempt and its other columns kept. *)
Theorem claim_next_takes_least locked token worker d caps ck (db : Db) :
  db_wf db → d ≠ 0 →
  (claim_next locked token worker d caps ck db = (Ok None, db)
     ∧ ∀ i x, ¬ eligible locked (sql_now ck) caps db i x)
  ∨ ∃ r, eligible locked (sql_now ck) caps db (job_id r) r
      ∧ (∀ i x, eligible locked (sql_now ck) caps db i x → goes_first r x)
      ∧ ∃ r', taken worker d token (sql_now ck) r r'
        ∧ claim_next locked token worker d caps ck db =
            (Some <$> into_job r', db <| db_jobs := <[job_id r := r']> (db_jobs db) |>).
Proof. apply claim_next_result. Qed.

(** C10: a caller whose lease is not the one on the row changes nothing.
    Heartbeat and settlement answer [LeaseLost]; completion answers
    [LeaseLost] too, unless that same attempt already succeeded, when it
    replays the stored row. *)
Theorem stale_lease_changes_nothing l (db : Db) (r : JobRow) ck d c s :
  db_jobs db !! jl_job_id l = Some r → ¬ leased_by l r → d ≠ 0 →
  heartbeat_lease l d ck db = (Err LeaseLost, db)
  ∧ settle_queue_in_transaction l c s ck db = Err LeaseLost
  ∧ complete_lease l ck db =
      (if bool_decide (job_state r = JobStatus.Succeeded)
          && (job_attempt_count r =? jl_attempt_number l) then into_job r else Err LeaseLost, db).
Proof.
  intros Hr Hn Hd. split_and!.
  - unfold heartbeat_lease, commit_then, run_txn, heartbeat_lease_txn, lease_seconds.
    rewrite (proj2 (Z.eqb_neq _ _) Hd). unfold mbind, txn_bind, lift, get_clock, require; simpl.
    rewrite Hr; simpl. by rewrite holds_lease_stale.
  - unfold settle_queue_in_transaction, mbind, txn_bind. by rewrite (lock_running_job_stale _ _ _ _ r).
  - unfold complete_lease, commit_then, run_txn, complete_lease_txn.
    unfold mbind, txn_bind, lift, get_clock, require; simpl. rewrite Hr; simpl.
    rewrite holds_lease_stale by done. by destruct (_ && _).
Qed.

(** C11: leases are fenced over whole histories.  Start from a well-formed
    queue whose tokens are all issued, take any history of enqueues, claims,
    heartbeats, completions, settlements and recoveries by any workers: a
    lease that a row has lost is rejected ever after, by any locking
    statement, even when expired leases are allowed. *)
Theorem lost_lease_rejected_forever used db labs used' db' l r allow ck :
  queue_steps (used, db) labs (used', db') → db_wf db → tokens_issued used db →
  jl_lease_token l ∈ used → db_jobs db !! jl_job_id l = Some r →
  job_lease_token r ≠ Some (jl_lease_token l) →
  lock_running_job l allow ck db' = Err LeaseLost.
Proof.
  intros Hsteps Hwf Ht Hin Hr Hne.
  destruct (lost_token_stays_lost _ _ _ _ _ _ Hsteps Hwf Ht Hin Hr Hne) as (r' & Hr' & Hne').
  eapply lock_running_job_stale; [done|]. by intros (_ & _ & ?).
Qed.

(** C12: attempts are bounded over histories.  However claims, settlements and
    recoveries interleave, a job is claimed at most [max_attempts] times plus
    once for every settlement that gave its attempt back. *)
Theorem claims_bounded_by_max_attempts used db labs used' db' i r :
  queue_steps (used, db) labs (used', db') → db_wf db → tokens_issued used db →
  db_jobs db !! i = Some r →
  claims_of i labs ≤ job_max_attempts r - job_attempt_count r + refunds_of i labs.
Proof.
  intros Hsteps Hwf Ht Hr.
  destruct (queue_steps_attempts _ _ _ _ _ Hsteps Hwf Hr) as (r' & Hr' & Hm & Ha).
  destruct (queue_steps_inv _ _ _ Hsteps Hwf Ht) as (Hwf' & _ & _).
  pose proof (wf_job_inv _ Hwf' _ _ Hr') as Hi. unfold job_inv in Hi. bool_norm. lia.
Qed.

(** C13: every queue operation keeps the table well formed: rows under their
    key, lease columns set exactly while running, attempts within their limit,
    queued rows not completed, [dedupe_key] unique. *)
Theorem queue_operations_keep_table_well_formed used db labs used' db' :
  queue_steps (used, db) labs (used', db') → db_wf db → tokens_issued used db → db_wf db'.
Proof. intros Hs Hwf Ht. by destruct (queue_steps_inv _ _ _ Hs Hwf Ht). Qed.
End Theorems.

(** ** Witnesses *)

(** Job 6 has the higher priority, job 7 is running: the claim takes 6. *)
Lemma claim_next_takes_least_witness :
  let caps := [JobType.InspectSource; JobType.ProbeAsset] in
  ∃ r r', eligible ∅ 200 caps demo_queue (job_id r) r ∧ taken (lit "worker-b") 300 90 200 r r'
    ∧ claim_next ∅ 90 (lit "worker-b") 300 caps (demo_clock 200) demo_queue
      = (Some <$> into_job r',
         demo_queue <| db_jobs := <[job_id r := r']> (db_jobs demo_queue) |>).
Proof.
  intros caps.
  destruct (claim_next_takes_least ∅ 90 (lit "worker-b") 300 caps (demo_clock 200) demo_queue)
    as [[H _]|(r & Hr & _ & r' & Ht & H)].
  - apply db_wfb_sound. by_vm.
  - lia.
  - exfalso. assert (match (claim_next ∅ 90 (lit "worker-b") 300 caps (demo_clock 200)
      demo_queue).1 with Ok None => true | _ => false end = false) as Hf by by_vm.
    by rewrite H in Hf.
  - by exists r, r'.
Defined.

Definition demo_stale : JobLease :=
  {| jl_job_id := 7; jl_attempt_number := 1; jl_lease_owner := lit "worker-a";
     jl_lease_token := 69 |}.

Lemma stale_lease_changes_nothing_witness :
  heartbeat_lease demo_stale 300 (demo_clock 200) demo_queue = (Err LeaseLost, demo_queue).
Proof.
  apply (stale_lease_changes_nothing demo_stale demo_queue demo_running (demo_clock 200) 300
    (InspectSource {| inspect_ingest_id := 1 |}) (Fail_ [] [])).
  - by_vm.
  - intros (_ & _ & H). vm_compute in H. discriminate.
  - lia.
Defined.

(** Worker A's job 7 is recovered after expiry and claimed again by worker B. *)
Definition demo_recovered : Db :=
  (run_txn (recover_queue_only_untyped_txn 7) (demo_clock 600) demo_queue).2.
Definition demo_reclaimed : Db :=
  (claim_next ∅ 71 (lit "worker-b") 400 [JobType.PublishPost] (demo_clock 600) demo_recovered).2.
Definition demo_reclaimed_row : JobRow :=
  match db_jobs demo_reclaimed !! 7%N with Some r => r | None => demo_running end.


Definition tokens_issuedb (used : gset Uuid) (db : Db) : bool :=
  forallb (λ kr : Uuid * JobRow,
    match job_lease_token kr.2 with Some t => bool_decide (t ∈ used) | None => true end)
    (map_to_list (db_jobs db)).
Lemma tokens_issuedb_sound used db : tokens_issuedb used db = true → tokens_issued used db.
Proof.
  intros Hall i r t Hr Ht. apply (forallb_map_to_list _ _ Hall) in Hr. simpl in Hr.
  rewrite Ht in Hr. by apply bool_decide_eq_true in Hr.
Qed.

(** The recovery and the second claim, from worker A's running job. *)
Lemma demo_history :
  queue_steps ({[70%N]}, demo_queue) [LSilent; LClaim 7] ({[71%N]} ∪ {[70%N]}, demo_reclaimed).
Proof.
  eapply steps_cons with (s1 := ({[70%N]}, demo_recovered)).
  { apply (QRecoverUntyped _ _ (demo_clock 600) 7 true). by_vm. }
  eapply steps_cons; [|constructor].
  apply (QClaim _ _ (demo_clock 600) ∅ 71 (lit "worker-b") 400 [JobType.PublishPost]
    demo_reclaimed_row); [set_solver|by_vm].
Qed.

(** After worker B's claim something else happens, then worker A comes back. *)
Definition demo_later : Db :=
  (run_txn (enqueue_txn 9 (new_finalize_ingest 3)) (demo_clock 650) demo_reclaimed).2.

Lemma lost_lease_rejected_forever_witness :
  lock_running_job demo_lease true (demo_clock 700) demo_later = Err LeaseLost.
Proof.
  apply (lost_lease_rejected_forever ({[71%N]} ∪ {[70%N]}) demo_reclaimed [LSilent]
    ({[71%N]} ∪ {[70%N]}) demo_later demo_lease demo_reclaimed_row true (demo_clock 700)).
  - eapply steps_cons; [|constructor].
    apply (QEnqueue _ _ (demo_clock 650) 9 (new_finalize_ingest 3)
      (inserted_job 9 (new_finalize_ingest 3) 650)). by_vm.
  - apply db_wfb_sound. by_vm.
  - apply tokens_issuedb_sound. by_vm.
  - apply (bool_decide_unpack _). vm_compute. exact I.
  - by_vm.
  - intros H. vm_compute in H. discriminate.
Defined.

Lemma claims_bounded_by_max_attempts_witness :
  claims_of 7 [LSilent; LClaim 7]
    ≤ job_max_attempts demo_running - job_attempt_count demo_running
      + refunds_of 7 [LSilent; LClaim 7].
Proof.
  pose proof (claims_bounded_by_max_attempts {[70%N]} demo_queue [LSilent; LClaim 7]
    ({[71%N]} ∪ {[70%N]}) demo_reclaimed 7 demo_running demo_history) as H.
  apply H.
  - apply db_wfb_sound. by_vm.
  - apply tokens_issuedb_sound. by_vm.
  - by_vm.
Defined.

Lemma queue_operations_keep_table_well_formed_witness : db_wf demo_reclaimed.
Proof.
  pose proof (queue_operations_keep_table_well_formed {[70%N]} demo_queue [LSilent; LClaim 7]
    ({[71%N]} ∪ {[70%N]}) demo_reclaimed demo_history) as H.
  apply H.
  - apply db_wfb_sound. by_vm.
  - apply tokens_issuedb_sound. by_vm.
Defined.
