(* ===== verification/Text.v ===== *)
(** * Text: the string operations of the Rust standard library

    The ASCII and substring operations the sources use on [&str], reading numbers, lines
    and UTF-8, with their round trips, and [std::path::Path] on normalized Unix paths; a
    text is the sequence of scalar values of Prelude. *)

From S2P Require Import Prelude.

Definition ascii_lower (c : Z) : Z := if (65 <=? c) && (c <=? 90) then c + 32 else c.

(** [str::to_ascii_lowercase]. *)
Definition to_ascii_lowercase (s : Str) : Str := ascii_lower <$> s.

(** [str::eq_ignore_ascii_case]. *)
Definition eq_ignore_ascii_case (a b : Str) : bool :=
  bool_decide (to_ascii_lowercase a = to_ascii_lowercase b).

(** [str::starts_with]. *)
Definition starts_with (prefix s : Str) : bool := bool_decide (take (length prefix) s = prefix).

(** [str::strip_prefix]. *)
Definition strip_prefix (prefix s : Str) : option Str :=
  if starts_with prefix s then Some (drop (length prefix) s) else None.

(** [haystack.contains(needle)]. *)
Fixpoint contains (needle haystack : Str) : bool :=
  starts_with needle haystack
  || match haystack with [] => false | _ :: haystack => contains needle haystack end.

(** [s.split(c).next()]: up to the first separator. *)
Fixpoint before_char (c : Z) (s : Str) : Str :=
  match s with
  | [] => []
  | x :: s => if x =? c then [] else x :: before_char c s
  end.

(** [s.rsplit(c).next()]: after the last separator. *)
Definition after_last_char (c : Z) (s : Str) : Str := reverse (before_char c (reverse s)).

Lemma ascii_lower_idemp c : ascii_lower (ascii_lower c) = ascii_lower c.
Proof.
  unfold ascii_lower. destruct ((65 <=? c) && (c <=? 90)) eqn:Hc; [|by rewrite Hc].
  bool_norm. by rewrite (proj2 (Z.leb_gt (c + 32) 90)), andb_false_r by lia.
Qed.

Lemma to_ascii_lowercase_idemp s : to_ascii_lowercase (to_ascii_lowercase s) = to_ascii_lowercase s.
Proof.
  unfold to_ascii_lowercase. rewrite <-list_fmap_compose. apply list_fmap_ext.
  intros i c _. apply ascii_lower_idemp.
Qed.

Lemma contains_app needle a b : contains needle (a ++ needle ++ b) = true.
Proof.
  induction a as [|x a IH]; simpl; [|by rewrite IH, orb_true_r].
  assert (starts_with needle (needle ++ b) = true) as Hs.
  { unfold starts_with. apply bool_decide_true. by rewrite take_app_length. }
  destruct (needle ++ b) eqn:Hn; simpl; by rewrite Hs.
Qed.

(** ** Pieces *)

(** [split_once]. *)
Fixpoint split_once (c : Z) (s : Str) : option (Str * Str) :=
  match s with
  | [] => None
  | x :: s => if x =? c then Some ([], s) else
      '(a, b) ← split_once c s; Some (x :: a, b)
  end.

(** [str::split] at one character. *)
Fixpoint split_at_char (c : Z) (s acc : Str) : list Str :=
  match s with
  | [] => [acc]
  | x :: s => if x =? c then acc :: split_at_char c s [] else split_at_char c s (acc ++ [x])
  end.

(** [str::lines]: the pieces between line feeds, each without a carriage return at its end;
    a final line feed ends the last line. *)
Definition chomp (l : Str) : Str :=
  match reverse l with 13 :: r => reverse r | _ => l end.
Fixpoint lines_go (s acc : Str) : list Str :=
  match s with
  | [] => if is_empty acc then [] else [acc]
  | c :: s => if c =? 10 then chomp acc :: lines_go s [] else lines_go s (acc ++ [c])
  end.
Definition lines (s : Str) : list Str := lines_go s [].

(** [strip_suffix('.')]. *)
Definition strip_dot (s : Str) : Str := match reverse s with 46 :: r => reverse r | _ => s end.

(** [join]. *)
Fixpoint join_with (sep : Str) (l : list Str) : Str :=
  match l with
  | [] => []
  | [s] => s
  | s :: l => s ++ sep ++ join_with sep l
  end.

(** [str::split_whitespace]; [acc] is the word that is being read. *)
Fixpoint split_whitespace (s acc : Str) : list Str :=
  match s with
  | [] => if is_empty acc then [] else [acc]
  | c :: s => if is_whitespace c
              then (if is_empty acc then [] else [acc]) ++ split_whitespace s []
              else split_whitespace s (acc ++ [c])
  end.

(** [{:?}] of an optional integer. *)
Definition show_option (o : option Z) : Str :=
  match o with Some z => lit "Some(" ++ show z ++ lit ")" | None => lit "None" end.

(** ** UTF-8 *)

Definition continuation (b : Z) : bool := (128 <=? b) && (b <=? 191).

(** [str::from_utf8]: the shortest form only, no surrogates, nothing above U+10FFFF. *)
Fixpoint from_utf8 (bytes : list Z) : option Str :=
  match bytes with
  | [] => Some []
  | b0 :: s =>
      if b0 <? 128 then cons b0 <$> from_utf8 s
      else if b0 <? 194 then None
      else if b0 <? 224 then
        match s with
        | b1 :: s => if continuation b1 then cons ((b0 - 192) * 64 + (b1 - 128)) <$> from_utf8 s else None
        | _ => None
        end
      else if b0 <? 240 then
        match s with
        | b1 :: b2 :: s =>
            let c := (b0 - 224) * 4096 + (b1 - 128) * 64 + (b2 - 128) in
            if continuation b1 && continuation b2 && (2048 <=? c)
               && negb ((55296 <=? c) && (c <=? 57343))
            then cons c <$> from_utf8 s else None
        | _ => None
        end
      else if b0 <? 245 then
        match s with
        | b1 :: b2 :: b3 :: s =>
            let c := (b0 - 240) * 262144 + (b1 - 128) * 4096 + (b2 - 128) * 64 + (b3 - 128) in
            if continuation b1 && continuation b2 && continuation b3 && (65536 <=? c) && (c <=? 1114111)
            then cons c <$> from_utf8 s else None
        | _ => None
        end
      else None
  end.

(** [String::from_utf8_lossy]: a replacement character for every maximal prefix of an
    encoding that is not completed. *)
Definition follows (b0 b1 : Z) : bool :=
  if b0 =? 224 then (160 <=? b1) && (b1 <=? 191)
  else if b0 =? 237 then (128 <=? b1) && (b1 <=? 159)
  else if b0 =? 240 then (144 <=? b1) && (b1 <=? 191)
  else if b0 =? 244 then (128 <=? b1) && (b1 <=? 143)
  else continuation b1.
Definition replacement : Z := 65533.
Fixpoint from_utf8_lossy (bytes : list Z) : Str :=
  match bytes with
  | [] => []
  | b0 :: s =>
      if b0 <? 128 then b0 :: from_utf8_lossy s
      else if (b0 <? 194) || (244 <? b0) then replacement :: from_utf8_lossy s
      else match s with
      | [] => [replacement]
      | b1 :: s1 =>
          if negb (follows b0 b1) then replacement :: from_utf8_lossy s
          else if b0 <? 224 then (b0 - 192) * 64 + (b1 - 128) :: from_utf8_lossy s1
          else match s1 with
          | [] => [replacement]
          | b2 :: s2 =>
              if negb (continuation b2) then replacement :: from_utf8_lossy s1
              else if b0 <? 240
              then (b0 - 224) * 4096 + (b1 - 128) * 64 + (b2 - 128) :: from_utf8_lossy s2
              else match s2 with
              | [] => [replacement]
              | b3 :: s3 =>
                  if negb (continuation b3) then replacement :: from_utf8_lossy s2
                  else (b0 - 240) * 262144 + (b1 - 128) * 4096 + (b2 - 128) * 64 + (b3 - 128)
                         :: from_utf8_lossy s3
              end
          end
      end
  end.

(** On a valid encoding it decodes. *)
Lemma from_utf8_lossy_valid b : ∀ s, from_utf8 b = Some s → from_utf8_lossy b = s.
Proof.
  remember (length b) as n eqn:Hn. revert b Hn.
  induction (lt_wf n) as [n _ IH]. intros [|b0 s] Hn t; simpl; [congruence|]. simpl in Hn.
  destruct (Z.ltb_spec b0 128).
  { intros (u & Hu & ->)%fmap_Some. f_equal. eapply IH; [|done|done]. lia. }
  destruct (Z.ltb_spec b0 194); [done|]. simpl.
  destruct (Z.ltb_spec b0 224).
  { rewrite (proj2 (Z.ltb_ge 244 b0)) by lia. destruct s as [|b1 s]; [done|].
    unfold follows. rewrite !(proj2 (Z.eqb_neq b0 _)) by lia.
    destruct (continuation b1); [|done]. intros (u & Hu & ->)%fmap_Some. simpl. f_equal.
    eapply IH; [|done|done]. simpl in Hn. lia. }
  destruct (Z.ltb_spec b0 240).
  { rewrite (proj2 (Z.ltb_ge 244 b0)) by lia. destruct s as [|b1 [|b2 s]]; [done..|].
    case_match eqn:E; [|done]. intros (u & Hu & ->)%fmap_Some.
    assert (follows b0 b1 = true ∧ continuation b2 = true) as [-> ->].
    { split; [|unfold continuation in *; lia]. unfold follows, continuation in *.
      destruct (Z.eqb_spec b0 224), (Z.eqb_spec b0 237), (Z.eqb_spec b0 240), (Z.eqb_spec b0 244); lia. }
    simpl. f_equal. eapply IH; [|done|done]. simpl in Hn. lia. }
  destruct (Z.ltb_spec b0 245); [|done].
  rewrite (proj2 (Z.ltb_ge 244 b0)) by lia. destruct s as [|b1 [|b2 [|b3 s]]]; [done..|].
  case_match eqn:E; [|done]. intros (u & Hu & ->)%fmap_Some.
  assert (follows b0 b1 = true ∧ continuation b2 = true ∧ continuation b3 = true) as (-> & -> & ->).
  { split_and!; [|unfold continuation in *; lia..]. unfold follows, continuation in *.
    destruct (Z.eqb_spec b0 224), (Z.eqb_spec b0 237), (Z.eqb_spec b0 240), (Z.eqb_spec b0 244); lia. }
  simpl. f_equal. eapply IH; [|done|done]. simpl in Hn. lia.
Qed.

(** [str::replace] with a pattern that is not empty. *)
Fixpoint replace_go (pattern by_ : Str) (skip : nat) (s : Str) : Str :=
  match s with
  | [] => []
  | c :: r =>
      match skip with
      | S skip => replace_go pattern by_ skip r
      | O => if starts_with pattern s then by_ ++ replace_go pattern by_ (length pattern - 1) r
             else c :: replace_go pattern by_ 0 r
      end
  end.
Definition replace (pattern by_ s : Str) : Str := replace_go pattern by_ 0 s.

(** [str::len]. *)
Definition byte_len (s : Str) : Z := Z.of_nat (length (utf8 s)).

(** A Unicode scalar value. *)
Definition scalar (c : Z) : Prop := 0 <= c < 55296 ∨ 57343 < c <= 1114111.

Ltac decide_bools :=
  repeat match goal with
  | |- context [?a <? ?b] => destruct (Z.ltb_spec a b); try lia
  | |- context [?a <=? ?b] => destruct (Z.leb_spec a b); try lia
  end.

Lemma mod_bounds a n : 0 < n → 0 <= a mod n < n.
Proof. apply Z.mod_pos_bound. Qed.

Lemma from_utf8_char c bytes : scalar c → from_utf8 (utf8_char c ++ bytes) = cons c <$> from_utf8 bytes.
Proof.
  intros Hc. unfold scalar in Hc. unfold utf8_char.
  pose proof (Z.div_mod c 64 ltac:(done)) as E1. pose proof (mod_bounds c 64 ltac:(done)) as B1.
  pose proof (Z.div_mod (c / 64) 64 ltac:(done)) as E2. pose proof (mod_bounds (c / 64) 64 ltac:(done)) as B2.
  pose proof (Z.div_mod (c / 64 / 64) 64 ltac:(done)) as E3. pose proof (mod_bounds (c / 64 / 64) 64 ltac:(done)) as B3.
  assert (c / 64 / 64 = c / 4096) as D2 by (by rewrite Z.div_div).
  assert (c / 4096 / 64 = c / 262144) as D3 by (by rewrite Z.div_div).
  rewrite D2 in E2, E3, B3. rewrite D3 in E3. clear D2 D3.
  set (q1 := c / 64) in *. set (r1 := c mod 64) in *. set (r2 := q1 mod 64) in *.
  set (q2 := c / 4096) in *. set (r3 := q2 mod 64) in *. set (q3 := c / 262144) in *.
  destruct (Z.ltb_spec c 128); [simpl; decide_bools; done|].
  destruct (Z.ltb_spec c 2048).
  { simpl. unfold continuation. replace ((192 + q1 - 192) * 64 + (128 + r1 - 128)) with c by lia.
    by decide_bools. }
  destruct (Z.ltb_spec c 65536).
  { simpl. unfold continuation.
    replace ((224 + q2 - 224) * 4096 + (128 + r2 - 128) * 64 + (128 + r1 - 128)) with c by lia.
    by decide_bools. }
  simpl. unfold continuation.
  replace ((240 + q3 - 240) * 262144 + (128 + r3 - 128) * 4096 + (128 + r2 - 128) * 64
           + (128 + r1 - 128)) with c by lia.
  by decide_bools.
Qed.

Lemma from_utf8_utf8 s : Forall scalar s → from_utf8 (utf8 s) = Some s.
Proof.
  induction 1 as [|c s Hc Hs IH]; [done|]. change (utf8 (c :: s)) with (utf8_char c ++ utf8 s).
  by rewrite from_utf8_char, IH.
Qed.

(** ** Integers *)

Definition digit (c : Z) : option Z := if (48 <=? c) && (c <=? 57) then Some (c - 48) else None.
(** [char::to_digit(16)]. *)
Definition hex_value (c : Z) : option Z :=
  if (48 <=? c) && (c <=? 57) then Some (c - 48)
  else if (97 <=? c) && (c <=? 102) then Some (c - 87)
  else if (65 <=? c) && (c <=? 70) then Some (c - 55)
  else None.
Fixpoint digits_value (acc : Z) (s : Str) : option Z :=
  match s with
  | [] => Some acc
  | c :: s => d ← digit c; digits_value (acc * 10 + d) s
  end.
Definition parse_digits (s : Str) : option Z := if is_empty s then None else digits_value 0 s.

(** [FromStr] of the unsigned types: an optional [+], digits, at most [bound]. *)
Definition parse_unsigned (bound : Z) (s : Str) : option Z :=
  n ← parse_digits (match s with 43 :: s => s | _ => s end);
  if n <=? bound then Some n else None.
Definition parse_u64 : Str → option Z := parse_unsigned u64_max.
(** [FromStr] of [i64]. *)
Definition parse_i64 (s : Str) : option Z :=
  n ← match s with
      | 43 :: s => parse_digits s
      | 45 :: s => Z.opp <$> parse_digits s
      | _ => parse_digits s
      end;
  if in_i64 n then Some n else None.

Lemma digits_value_app a b acc v : digits_value acc a = Some v →
  digits_value acc (a ++ b) = digits_value v b.
Proof.
  revert acc. induction a as [|c a IH]; simpl; intros acc; [by intros [= ->]|].
  destruct (digit c); [apply IH|done].
Qed.

Lemma pretty_char_digit (d : N) : (d < 10)%N →
  digit (Z.of_N (Ascii.N_of_ascii (pretty_N_char d))) = Some (Z.of_N d).
Proof.
  intros Hd. assert (∃ i, (i < 10)%nat ∧ d = N.of_nat i) as (i & Hi & ->) by (exists (N.to_nat d); lia).
  do 10 (destruct i as [|i]; [reflexivity|]). lia.
Qed.

Lemma pretty_N_go_value n : (0 < n)%N → ∀ s, ∃ ds,
  lit (pretty_N_go n s) = ds ++ lit s ∧ ds ≠ [] ∧ Forall (λ c, is_Some (digit c)) ds
  ∧ digits_value 0 ds = Some (Z.of_N n).
Proof.
  induction n as [n IH] using (well_founded_induction N.lt_wf_0). intros Hn s.
  rewrite pretty_N_go_step by done. set (c := pretty_N_char (n `mod` 10)).
  pose proof (pretty_char_digit (n `mod` 10) ltac:(apply N.mod_lt; done)) as Hd. fold c in Hd.
  pose proof (N.div_mod n 10 ltac:(done)) as Hdm.
  destruct (decide (n `div` 10 = 0)%N) as [H0|H0].
  - rewrite H0. change (pretty_N_go 0 (String c s)) with (String c s).
    exists [Z.of_N (Ascii.N_of_ascii c)]. split_and!; [done|done|by repeat constructor|].
    cbn [digits_value]. rewrite Hd. simpl. f_equal. lia.
  - destruct (IH (n `div` 10)%N) with (s := String c s) as (ds & Hl & Hne & Hall & Hv);
      [apply N.div_lt; lia|by apply N.neq_0_lt_0|].
    exists (ds ++ [Z.of_N (Ascii.N_of_ascii c)]). split_and!.
    + rewrite Hl, <-app_assoc. done.
    + by destruct ds.
    + apply Forall_app; split; [done|by repeat constructor].
    + rewrite (digits_value_app _ _ _ _ Hv). cbn [digits_value]. rewrite Hd. simpl. f_equal. lia.
Qed.

Lemma show_digits n : 0 <= n →
  parse_digits (show n) = Some n ∧ Forall (λ c, is_Some (digit c)) (show n) ∧ show n ≠ [].
Proof.
  intros Hn. unfold show. destruct n as [|p|p]; [change (lit (pretty 0)) with [48]; split_and!; [done|by constructor|done]| |lia].
  change (pretty (Z.pos p)) with (pretty (N.pos p)). unfold pretty, pretty_N. rewrite decide_False by done.
  destruct (pretty_N_go_value (N.pos p) ltac:(done) "") as (ds & -> & Hne & Hall & Hv).
  change (lit "") with (@nil Z). rewrite app_nil_r. split_and!; [|done|done].
  unfold parse_digits. by destruct ds.
Qed.

Lemma parse_unsigned_show bound n : 0 <= n <= bound → parse_unsigned bound (show n) = Some n.
Proof.
  intros Hn. destruct (show_digits n ltac:(lia)) as (Hp & Hall & Hne). unfold parse_unsigned.
  assert (match show n with 43 :: s => s | _ => show n end = show n) as ->.
  { destruct (show n) as [|c s]; [done|]. apply Forall_cons in Hall as [[d Hd] _].
    destruct (decide (c = 43)) as [->|]; [done|]. by repeat (case_match; try done). }
  rewrite Hp. simpl. destruct (Z.leb_spec n bound); [done|lia].
Qed.

Definition slash : Z := 47.
Fixpoint drop_slashes (s : Str) : Str :=
  match s with c :: s' => if c =? slash then drop_slashes s' else s | [] => [] end.
Fixpoint drop_name (s : Str) : Str :=
  match s with c :: s' => if c =? slash then s else drop_name s' | [] => [] end.
Definition path_parent (p : Str) : option Str :=
  match drop_slashes (reverse p) with
  | [] => None
  | rest =>
      match drop_name rest with
      | [] => Some []
      | c :: dir => Some (match drop_slashes (c :: dir) with
                          | [] => [slash]
                          | dir => reverse dir
                          end)
      end
  end.
Definition path_join (dir name : Str) : Str :=
  match reverse dir with
  | [] => name
  | c :: _ => if c =? slash then dir ++ name else dir ++ [slash] ++ name
  end.
Fixpoint split_path (s acc : Str) : list Str :=
  match s with
  | [] => if is_empty acc then [] else [acc]
  | c :: s =>
      if c =? slash then (if is_empty acc then [] else [acc]) ++ split_path s []
      else split_path s (acc ++ [c])
  end.
Definition path_starts_with (path root : Str) : bool :=
  let r := split_path root [] in
  bool_decide (take (length r) (split_path path []) = r).

(** Up to, and from, the first [c]. *)
Fixpoint upto (c : Z) (s : Str) : Str :=
  match s with x :: s => if x =? c then [] else x :: upto c s | [] => [] end.
Fixpoint drop_dot (s : Str) : Str :=
  match s with c :: s' => if c =? 46 then s else drop_dot s' | [] => [] end.

(** [Path::file_name] of a path that ends in a name. *)
Definition file_name (p : Str) : Str :=
  reverse (upto slash (drop_slashes (reverse p))).
Definition with_file_name (p name : Str) : Str :=
  match path_parent p with Some dir => path_join dir name | None => name end.
(** [Path::extension]: after the last full stop of the name, unless the name starts there. *)
Definition extension (p : Str) : option Str :=
  let name := reverse (file_name p) in
  match drop_dot name with
  | _ :: _ :: _ => Some (reverse (upto 46 name))
  | _ => None
  end.

Lemma path_join_inj dir a b : path_join dir a = path_join dir b → a = b.
Proof.
  unfold path_join. destruct (reverse dir) as [|c l]; [done|]. destruct (c =? slash).
  - by intros ?%app_inv_head.
  - rewrite !app_assoc. by intros ?%app_inv_head.
Qed.
