(* ===== verification/Net.v ===== *)
(** * Net: internet addresses and the URLs of the configuration

    The textual forms of the standard library's [Ipv4Addr], [Ipv6Addr] and [SocketAddr]
    with their classes of addresses, [is_blocked_ip] of [media/src/direct_http.rs], and the
    two checks that keep plain HTTP inside a private network: the one of
    [config/src/lib.rs] and the one of [telegram/src/client.rs].  Parsing a URL is the
    [url] crate's, an interface with the laws the checks rely on. *)

From S2P Require Import Prelude Text.

(** ** Reading addresses *)

(** A value read from the front of a text, and the rest. *)
Definition reader (A : Type) : Type := Str → option (A * Str).

Fixpoint span_digits (value : Z → option Z) (s : Str) : list Z * Str :=
  match s with
  | [] => ([], [])
  | c :: r => match value c with
              | Some d => let '(ds, rest) := span_digits value r in (d :: ds, rest)
              | None => ([], s)
              end
  end.

(** [Parser::read_number]: at most [most] digits when given, at most [bound]. *)
Definition read_number (radix : Z) (value : Z → option Z) (most : option nat) (zero_prefix : bool)
    (bound : Z) : reader Z := fun s =>
  let '(ds, rest) := span_digits value s in
  let n := fold_left (λ a d, a * radix + d) ds 0 in
  if (length ds =? 0)%nat then None
  else if match most with Some m => (m <? length ds)%nat | None => false end then None
  else if negb zero_prefix && (1 <? length ds)%nat && match ds with 0 :: _ => true | _ => false end then None
  else if bound <? n then None
  else Some (n, rest).
Definition read_char (c : Z) : reader unit := fun s =>
  match s with x :: s => if x =? c then Some (tt, s) else None | [] => None end.

Definition Ipv4 : Type := Z * Z * Z * Z.
Definition Ipv6 : Type := list Z.         (* eight segments of sixteen bits *)
Inductive IpAddr := V4 (a : Ipv4) | V6 (a : Ipv6).
Record SocketAddr := { sa_ip : IpAddr; sa_port : Z }.

Definition read_octet : reader Z := read_number 10 digit (Some 3%nat) false 255.
Definition read_ipv4_addr : reader Ipv4 := fun s =>
  '(a, s) ← read_octet s; '(_, s) ← read_char 46 s;
  '(b, s) ← read_octet s; '(_, s) ← read_char 46 s;
  '(c, s) ← read_octet s; '(_, s) ← read_char 46 s;
  '(d, s) ← read_octet s; Some ((a, b, c, d), s).

(** [read_separator]: a colon before every group but the first. *)
Definition separated {A} (first : bool) (r : reader A) : reader A := fun s =>
  if first then r s else '(_, s) ← read_char 58 s; r s.

(** [read_groups] into at most [room] slots: the groups, whether an IPv4 tail was read, and
    the rest. *)
Fixpoint read_groups (room : nat) (first : bool) (s : Str) : list Z * bool * Str :=
  match room with
  | O => ([], false, s)
  | S more =>
      let group :=
        match separated first (read_number 16 hex_value (Some 4%nat) true 65535) s with
        | Some (g, s) => let '(gs, v4, s) := read_groups more false s in (g :: gs, v4, s)
        | None => ([], false, s)
        end in
      match more with
      | S _ =>
          match separated first read_ipv4_addr s with
          | Some ((a, b, c, d), s) => ([a * 256 + b; c * 256 + d], true, s)
          | None => group
          end
      | O => group
      end
  end.

Definition read_ipv6_addr : reader Ipv6 := fun s =>
  let '(head, head_ipv4, s) := read_groups 8 true s in
  if (length head =? 8)%nat then Some (head, s)
  else if head_ipv4 then None
  else
    '(_, s) ← read_char 58 s;
    '(_, s) ← read_char 58 s;
    let '(tail, _, s) := read_groups (7 - length head) true s in
    Some (head ++ replicate (8 - length head - length tail) 0 ++ tail, s).

Definition read_port : reader Z := fun s =>
  '(_, s) ← read_char 58 s; read_number 10 digit None true 65535 s.
Definition read_socket_addr : reader SocketAddr := fun s =>
  match ('(a, s) ← read_ipv4_addr s; '(p, s) ← read_port s; Some ({| sa_ip := V4 a; sa_port := p |}, s)) with
  | Some x => Some x
  | None =>
      '(_, s) ← read_char 91 s;
      '(a, s) ← read_ipv6_addr s;
      let s := match ('(_, s) ← read_char 37 s; read_number 10 digit None true u32_max s) with
               | Some (_, s) => s
               | None => s
               end in
      '(_, s) ← read_char 93 s;
      '(p, s) ← read_port s;
      Some ({| sa_ip := V6 a; sa_port := p |}, s)
  end.

(** The whole text. *)
Definition whole {A} (r : reader A) (s : Str) : option A :=
  match r s with Some (a, []) => Some a | _ => None end.
Definition socket_addr_from_str : Str → option SocketAddr := whole read_socket_addr.
Definition ip_from_str (s : Str) : option IpAddr :=
  match whole read_ipv4_addr s with
  | Some a => Some (V4 a)
  | None => V6 <$> whole read_ipv6_addr s
  end.

Definition ipv4_text (x : Ipv4) : Str :=
  let '(a, b, c, d) := x in show a ++ [46] ++ show b ++ [46] ++ show c ++ [46] ++ show d.

(** ** Classes of addresses *)

Definition v4_is_unspecified (x : Ipv4) : bool := bool_decide (x = (0, 0, 0, 0)).
Definition v4_is_loopback (x : Ipv4) : bool := let '(a, _, _, _) := x in a =? 127.
Definition v4_is_private (x : Ipv4) : bool :=
  let '(a, b, _, _) := x in
  (a =? 10) || ((a =? 172) && (16 <=? b) && (b <=? 31)) || ((a =? 192) && (b =? 168)).
Definition v4_is_link_local (x : Ipv4) : bool :=
  let '(a, b, _, _) := x in (a =? 169) && (b =? 254).

Definition segment (x : Ipv6) (i : nat) : Z := default 0 (x !! i).
Definition v6_is_unspecified (x : Ipv6) : bool := bool_decide (x = [0; 0; 0; 0; 0; 0; 0; 0]).
Definition v6_is_loopback (x : Ipv6) : bool := bool_decide (x = [0; 0; 0; 0; 0; 0; 0; 1]).
Definition v6_is_unique_local (x : Ipv6) : bool := Z.land (segment x 0) 65024 =? 64512.
Definition v6_is_unicast_link_local (x : Ipv6) : bool := Z.land (segment x 0) 65472 =? 65152.
Definition v6_is_multicast (x : Ipv6) : bool := Z.land (segment x 0) 65280 =? 65280.
Definition ip_is_loopback (x : IpAddr) : bool :=
  match x with V4 a => v4_is_loopback a | V6 a => v6_is_loopback a end.

(** [media/src/direct_http.rs]: the addresses no download may connect to. *)
Definition is_blocked_ipv4 (x : Ipv4) : bool :=
  let '(a, b, c, _) := x in
  (a =? 0) || (a =? 10) || ((a =? 100) && (64 <=? b) && (b <=? 127)) || (a =? 127)
  || ((a =? 169) && (b =? 254)) || ((a =? 172) && (16 <=? b) && (b <=? 31))
  || ((a =? 192) && (b =? 0)) || ((a =? 192) && (b =? 168))
  || ((a =? 198) && (18 <=? b) && (b <=? 19)) || ((a =? 198) && (b =? 51) && (c =? 100))
  || ((a =? 203) && (b =? 0) && (c =? 113)) || (224 <=? a).
Definition is_blocked_ipv6 (x : Ipv6) : bool :=
  v6_is_unspecified x || v6_is_loopback x || v6_is_multicast x
  || (Z.land (segment x 0) 65024 =? 64512) || (Z.land (segment x 0) 65472 =? 65152)
  || (Z.land (segment x 0) 65472 =? 65216) || ((segment x 0 =? 8193) && (segment x 1 =? 3512))
  || (forallb (λ s, s =? 0) (take 5 x) && (segment x 5 =? 65535)
      && is_blocked_ipv4 (Z.shiftr (segment x 6) 8, Z.land (segment x 6) 255,
                          Z.shiftr (segment x 7) 8, Z.land (segment x 7) 255)).
Definition is_blocked_ip (x : IpAddr) : bool :=
  match x with V4 a => is_blocked_ipv4 a | V6 a => is_blocked_ipv6 a end.

(** ** URLs *)

Inductive Host := Domain (name : Str) | HostV4 (a : Ipv4) | HostV6 (a : Ipv6).
Record UrlInfo := {
  ui_scheme : Str;
  ui_username : Str;
  ui_password : option Str;
  ui_host : option Host;
  ui_port : option Z;
  ui_path : Str;
  ui_query : option Str;
  ui_fragment : option Str;
}.

Definition valid_ipv4 (x : Ipv4) : Prop :=
  let '(a, b, c, d) := x in 0 <= a <= 255 ∧ 0 <= b <= 255 ∧ 0 <= c <= 255 ∧ 0 <= d <= 255.
Definition valid_ipv6 (x : Ipv6) : Prop := length x = 8%nat ∧ Forall (λ s, 0 <= s <= 65535) x.

(** [Url::parse], [Url::join], [Url::set_host], the text of a URL and of an IPv6 host, which
    never has a dotted tail, and the default port of a scheme.  A host that reads as an
    address is an address, not a domain, and the text of a URL is that URL. *)
Class UrlSyntax := {
  url_info : Str → option UrlInfo;
  url_join : UrlInfo → Str → option UrlInfo;
  url_set_host : UrlInfo → Str → UrlInfo;
  url_text : UrlInfo → Str;
  known_default_port : Str → option Z;
  ipv6_text : Ipv6 → Str;
  ipv6_text_dotless : ∀ a, 46 ∉ ipv6_text a;
  domain_is_no_ip : ∀ s u d, url_info s = Some u → ui_host u = Some (Domain d) → ip_from_str d = None;
  url_reparse : ∀ s u, url_info s = Some u → url_info (url_text u) = Some u;
  hosts_valid : ∀ s u, url_info s = Some u →
    match ui_host u with
    | Some (HostV4 a) => valid_ipv4 a
    | Some (HostV6 a) => valid_ipv6 a
    | _ => True
    end;
}.

Section Urls.
Context {U : UrlSyntax}.

(** [host_str]. *)
Definition host_text (h : Host) : Str :=
  match h with
  | Domain d => d
  | HostV4 a => ipv4_text a
  | HostV6 a => [91] ++ ipv6_text a ++ [93]
  end.

Definition url_is_http (scheme : Str) : bool :=
  bool_decide (scheme = lit "http") || bool_decide (scheme = lit "https").
Definition plain_origin (u : UrlInfo) : bool :=
  url_is_http (ui_scheme u) && bool_decide (is_Some (ui_host u)) && is_empty (ui_username u)
  && bool_decide (ui_password u = None) && bool_decide (ui_query u = None)
  && bool_decide (ui_fragment u = None).
Definition ends_with (suffix s : Str) : bool := starts_with (reverse suffix) (reverse s).
Definition private_name (host : Str) : bool :=
  eq_ignore_ascii_case host (lit "localhost") || negb (contains [46] host)
  || ends_with (lit ".local") host.
Definition private_ipv4 (a : Ipv4) : bool :=
  negb (v4_is_unspecified a) && (v4_is_loopback a || v4_is_private a || v4_is_link_local a).
Definition private_ipv6 (a : Ipv6) : bool :=
  negb (v6_is_unspecified a) && (v6_is_loopback a || v6_is_unique_local a || v6_is_unicast_link_local a).

Inductive InternalUrlPathPolicy := AnyPath | OriginOnly.

(** [config/src/lib.rs]. *)
Definition is_safe_internal_http_url (u : UrlInfo) (policy : InternalUrlPathPolicy) : bool :=
  plain_origin u
  && match policy with
     | AnyPath => true
     | OriginOnly => is_empty (ui_path u) || bool_decide (ui_path u = lit "/")
     end
  && (bool_decide (ui_scheme u = lit "https")
      || match ui_host u with
         | Some (HostV4 a) => private_ipv4 a
         | Some (HostV6 a) => private_ipv6 a
         | Some (Domain host) => private_name host
         | None => false
         end).

(** [telegram/src/client.rs]: reads the text of the host again. *)
Definition is_safe_api_base_url (u : UrlInfo) : bool :=
  plain_origin u
  && (bool_decide (ui_scheme u = lit "https")
      || match host_text <$> ui_host u with
         | None => false
         | Some host =>
             match ip_from_str host with
             | Some (V4 a) => private_ipv4 a
             | Some (V6 a) => private_ipv6 a
             | None => private_name host
             end
         end).

(** The checks of [TeloxideApi::new_with_upload_timeout], in seconds; the clients it builds
    are [reqwest]'s. *)
Inductive ClientError := ApiInvalidPollTimeout | ApiInvalidUploadTimeout | ApiInvalidBaseUrl.
Definition MAX_UPLOAD_TIMEOUT_SECONDS : Z := 24 * 60 * 60.
Definition api_new (api_base_url : Str) (poll_timeout upload_timeout : Z) : result ClientError UrlInfo :=
  _ ← ensure (negb ((poll_timeout =? 0) || (u32_max <? poll_timeout))) ApiInvalidPollTimeout;
  _ ← ensure (negb ((upload_timeout =? 0) || (MAX_UPLOAD_TIMEOUT_SECONDS <? upload_timeout)))
        ApiInvalidUploadTimeout;
  u ← ok_or (url_info api_base_url) ApiInvalidBaseUrl;
  _ ← ensure (is_safe_api_base_url u) ApiInvalidBaseUrl;
  Ok u.
End Urls.
