(* ===== verification/Normalize.v ===== *)
(** * Normalize: planning the canonical video

    The records of [media/src/ffprobe.rs] and the command builder of
    [media/src/command.rs]; then [media/src/normalize.rs]: the canonical profile, the
    decision between a remux and a transcode, the ladder of resolutions, the bit rate of a
    two-pass encode and the ffmpeg commands.  Sizes and bit rates are integers of their
    Rust types; scaling is in doubles ([F64]); paths and arguments are texts. *)

From S2P Require Import Prelude Text F64.

Inductive MediaStreamKind :=
| StreamVideo | StreamAudio | StreamSubtitle | StreamData | StreamAttachment
| StreamOther (name : Str).
#[global] Instance stream_kind_eq_dec : EqDecision MediaStreamKind.
Proof. solve_decision. Defined.

Record FrameRate := { fr_numerator : Z; fr_denominator : Z }.
#[global] Instance frame_rate_eq_dec : EqDecision FrameRate.
Proof. solve_decision. Defined.

Record MediaStream := {
  st_index : Z;
  st_kind : MediaStreamKind;
  st_codec : option Str;
  st_attached_picture : bool;
  st_codec_tag : option Str;
  st_codec_mime : option Str;
  st_level : option Z;
  st_profile : option Str;
  st_pixel_format : option Str;
  st_width : option Z;
  st_height : option Z;
  st_display_aspect_ratio : option Str;
  st_frame_rate : option FrameRate;
  st_rotation_degrees : option Z;
  st_sample_rate_hz : option Z;
  st_channels : option Z;
  st_bit_rate : option Z;
}.

Record MediaProbe := {
  mp_container_format : option Str;
  mp_duration_ms : option Z;
  mp_size_bytes : Z;
  mp_bit_rate : option Z;
  mp_streams : list MediaStream;
}.

(** [Option::zip] of the two dimensions. *)
Definition stream_size (s : MediaStream) : option (Z * Z) :=
  w ← st_width s; h ← st_height s; Some (w, h).

(** The first stream of a kind. *)
Definition find_stream (k : MediaStreamKind) (p : MediaProbe) : option MediaStream :=
  head (filter (λ s, st_kind s = k) (mp_streams p)).

(** ** External commands *)

Record ExternalCommand := {
  ec_program : Str;
  ec_args : list Str;
  ec_current_dir : option Str;
  ec_clear_environment : bool;
  ec_environment : list (Str * Str);
  ec_timeout : Z;                      (* in microseconds *)
  ec_max_output_bytes : Z;
}.
#[global] Instance eta_command : Eta ExternalCommand := fun c =>
  Build_ExternalCommand (ec_program c) (ec_args c) (ec_current_dir c) (ec_clear_environment c)
    (ec_environment c) (ec_timeout c) (ec_max_output_bytes c).
#[global] Instance command_eq_dec : EqDecision ExternalCommand.
Proof. solve_decision. Defined.

Definition DEFAULT_COMMAND_TIMEOUT : Z := 30 * 1000000.
Definition DEFAULT_MAX_OUTPUT_BYTES : Z := 64 * 1024.

Definition command_new (program : Str) : ExternalCommand :=
  {| ec_program := program; ec_args := []; ec_current_dir := None; ec_clear_environment := false;
     ec_environment := []; ec_timeout := DEFAULT_COMMAND_TIMEOUT;
     ec_max_output_bytes := DEFAULT_MAX_OUTPUT_BYTES |}.
Definition arg (a : Str) (c : ExternalCommand) : ExternalCommand :=
  c <| ec_args := ec_args c ++ [a] |>.
Definition args (l : list Str) (c : ExternalCommand) : ExternalCommand := fold_left (λ c a, arg a c) l c.
Definition command_current_dir (path : Str) (c : ExternalCommand) : ExternalCommand :=
  c <| ec_current_dir := Some path |>.
Definition clear_environment (c : ExternalCommand) : ExternalCommand :=
  c <| ec_clear_environment := true |>.
Definition command_env (key value : Str) (c : ExternalCommand) : ExternalCommand :=
  c <| ec_environment := ec_environment c ++ [(key, value)] |>.
Definition command_timeout (t : Z) (c : ExternalCommand) : ExternalCommand := c <| ec_timeout := t |>.
Definition command_max_output_bytes (n : Z) (c : ExternalCommand) : ExternalCommand :=
  c <| ec_max_output_bytes := n |>.
Definition with_args (l : list Str) (c : ExternalCommand) : ExternalCommand := c <| ec_args := l |>.

Lemma args_app l c : ec_args (args l c) = ec_args c ++ l.
Proof.
  revert c. induction l as [|a l IH]; intros c; simpl; [by rewrite app_nil_r|].
  rewrite IH. simpl. by rewrite <-app_assoc.
Qed.

Definition u8_max : Z := 255.
Definition u128_max : Z := 2 ^ 128 - 1.

(** ** The profile *)

Definition CANONICAL_VIDEO_PROFILE_VERSION : Str := lit "canonical_video_v3".
Definition TWO_PASS_SIZE_HEADROOM_BPS : Z := 200.
Definition BASIS_POINTS : Z := 10000.
Definition MINIMUM_VIDEO_BITS_PER_PIXEL_FRAME_MILLIONTHS : Z := 60000.
Definition MILLION : Z := 1000000.

Inductive CanonicalContainer := Mp4.
Inductive VideoCodec := H264.
Inductive PixelFormat := Yuv420p.
Inductive AudioCodec := Aac.
Inductive VideoPreset := Medium.
Definition video_codec_ffmpeg_name (c : VideoCodec) : Str := match c with H264 => lit "libx264" end.
Definition video_codec_probe_name (c : VideoCodec) : Str := match c with H264 => lit "h264" end.
Definition pixel_format_ffmpeg_name (f : PixelFormat) : Str := match f with Yuv420p => lit "yuv420p" end.
Definition audio_codec_ffmpeg_name (c : AudioCodec) : Str := match c with Aac => lit "aac" end.
Definition audio_codec_probe_name (c : AudioCodec) : Str := match c with Aac => lit "aac" end.
Definition preset_ffmpeg_name (p : VideoPreset) : Str := match p with Medium => lit "medium" end.

Record CanonicalVideoProfile := {
  vp_container : CanonicalContainer;
  vp_video_codec : VideoCodec;
  vp_pixel_format : PixelFormat;
  vp_audio_codec : AudioCodec;
  vp_max_width : Z;
  vp_max_height : Z;
  vp_max_frame_rate : FrameRate;
  vp_video_preset : VideoPreset;
  vp_target_max_bytes : Z;
  vp_quality_crf : Z;
  vp_minimum_short_edge : Z;
  vp_audio_bitrate_kbps : Z;
  vp_fast_start : bool;
  vp_strip_metadata : bool;
}.

#[global] Instance eta_video_profile : Eta CanonicalVideoProfile := fun p =>
  Build_CanonicalVideoProfile (vp_container p) (vp_video_codec p) (vp_pixel_format p)
    (vp_audio_codec p) (vp_max_width p) (vp_max_height p) (vp_max_frame_rate p) (vp_video_preset p)
    (vp_target_max_bytes p) (vp_quality_crf p) (vp_minimum_short_edge p) (vp_audio_bitrate_kbps p)
    (vp_fast_start p) (vp_strip_metadata p).

Definition default_video_profile : CanonicalVideoProfile :=
  {| vp_container := Mp4; vp_video_codec := H264; vp_pixel_format := Yuv420p;
     vp_audio_codec := Aac; vp_max_width := 1920; vp_max_height := 1080;
     vp_max_frame_rate := {| fr_numerator := 60; fr_denominator := 1 |};
     vp_video_preset := Medium; vp_target_max_bytes := 14 * 1024 * 1024; vp_quality_crf := 27;
     vp_minimum_short_edge := 480; vp_audio_bitrate_kbps := 128; vp_fast_start := true;
     vp_strip_metadata := true |}.

Inductive ProfileError :=
| ProfileInvalidDimensions (width height : Z)
| ProfileInvalidFrameRate (r : FrameRate)
| InvalidQualityCrf (crf : Z)
| InvalidTargetBytes
| InvalidMinimumShortEdge
| MinimumShortEdgeExceedsProfile (minimum max_short_edge : Z)
| InvalidAudioBitrate.

Definition profile_validate (p : CanonicalVideoProfile) : result ProfileError unit :=
  if (vp_max_width p =? 0) || (vp_max_height p =? 0)
  then Err (ProfileInvalidDimensions (vp_max_width p) (vp_max_height p))
  else if (fr_numerator (vp_max_frame_rate p) =? 0) || (fr_denominator (vp_max_frame_rate p) =? 0)
  then Err (ProfileInvalidFrameRate (vp_max_frame_rate p))
  else if 51 <? vp_quality_crf p then Err (InvalidQualityCrf (vp_quality_crf p))
  else if vp_target_max_bytes p =? 0 then Err InvalidTargetBytes
  else if vp_minimum_short_edge p =? 0 then Err InvalidMinimumShortEdge
  else if Z.min (vp_max_width p) (vp_max_height p) <? vp_minimum_short_edge p
  then Err (MinimumShortEdgeExceedsProfile (vp_minimum_short_edge p)
              (Z.min (vp_max_width p) (vp_max_height p)))
  else if vp_audio_bitrate_kbps p =? 0 then Err InvalidAudioBitrate
  else Ok tt.

Record VideoDimensions := { vd_width : Z; vd_height : Z }.
#[global] Instance video_dimensions_eq_dec : EqDecision VideoDimensions.
Proof. solve_decision. Defined.
Definition short_edge (d : VideoDimensions) : Z := Z.min (vd_width d) (vd_height d).

Inductive NormalizationError :=
| InvalidProfile (e : ProfileError)
| NoVideoStream
| MissingVideoDimensions
| InvalidVideoBitrate
| InvalidCandidateDimensions (d : VideoDimensions).

(** ** Sizes *)

Definition even_dimension (v : Z) : Z := v - v mod 2.

(** [((value / 2.0).round() * 2.0).max(2.0) as u32]; the cast saturates. *)
Definition rounded_even_dimension (v : f64) : Z :=
  Z.min u32_max (Z.max 2 (2 * f64_round (f64_half v))).

(** [width as f64 * scale], rounded. *)
Definition scaled (n : Z) (scale : f64) : Z := rounded_even_dimension (f64_mul (of_u32 n) scale).

Definition bounded_dimensions (width height max_width max_height : Z) : option VideoDimensions :=
  if (width <? 2) || (height <? 2) then None
  else
    let scale := f64_min (f64_min (f64_div (of_u32 max_width) (of_u32 width))
                                  (f64_div (of_u32 max_height) (of_u32 height))) f64_one in
    Some {| vd_width := Z.max (Z.min (scaled width scale) (even_dimension width)) 2;
            vd_height := Z.max (Z.min (scaled height scale) (even_dimension height)) 2 |}.

Definition validate_candidate_dimensions (d : VideoDimensions) (source : MediaStream)
    (p : CanonicalVideoProfile) : result NormalizationError unit :=
  let minimum :=
    '(w, h) ← stream_size source;
    canonical ← bounded_dimensions w h (vp_max_width p) (vp_max_height p);
    Some (Z.min (vp_minimum_short_edge p) (short_edge canonical)) in
  if (vd_width d =? 0) || (vd_height d =? 0)
     || negb (vd_width d mod 2 =? 0) || negb (vd_height d mod 2 =? 0)
     || (vp_max_width p <? vd_width d) || (vp_max_height p <? vd_height d)
     || match minimum with Some m => short_edge d <? m | None => false end
  then Err (InvalidCandidateDimensions d)
  else
    match stream_size source with
    | Some (w, h) =>
        if (w <? vd_width d) || (h <? vd_height d) then Err (InvalidCandidateDimensions d)
        else Ok tt
    | None => Ok tt
    end.

(** [canonical_dimensions] and [effective_minimum_short_edge]. *)
Definition canonical_dimensions (p : CanonicalVideoProfile) (video : MediaStream)
    : option VideoDimensions :=
  '(w, h) ← stream_size video;
  bounded_dimensions w h (vp_max_width p) (vp_max_height p).
Definition effective_minimum_short_edge (p : CanonicalVideoProfile) (video : MediaStream)
    : option Z :=
  (λ d, Z.min (vp_minimum_short_edge p) (short_edge d)) <$> canonical_dimensions p video.

(** A size of the same shape whose short edge is about [edge]. *)
Definition rescaled (initial : VideoDimensions) (edge : Z) : VideoDimensions :=
  let scale := f64_div (of_u32 edge) (of_u32 (short_edge initial)) in
  {| vd_width := Z.max (scaled (vd_width initial) scale) 2;
     vd_height := Z.max (scaled (vd_height initial) scale) 2 |}.

(** The next short edge to try; [saturating_sub] in [u32]. *)
Definition next_short_edge (minimum edge : Z) : Z :=
  Z.min (Z.max ((edge * 3 + 2) / 4) minimum) (Z.max (edge - 2) 0).

(** The loop of [resolution_ladder]: [last] is the last rung, [edge] its short edge;
    [None] when the fuel runs out. *)
Fixpoint ladder_loop (initial : VideoDimensions) (minimum : Z) (fuel : nat)
    (last : VideoDimensions) (edge : Z) : option (list VideoDimensions) :=
  if edge <=? minimum then Some []
  else
    match fuel with
    | O => None
    | S fuel =>
        let candidate := rescaled initial (next_short_edge minimum edge) in
        if short_edge candidate <? minimum then
          let candidate := rescaled initial minimum in
          Some (if decide (last = candidate) then [] else [candidate])
        else if decide (last = candidate) then Some []
        else (λ l, candidate :: l) <$> ladder_loop initial minimum fuel candidate (short_edge candidate)
    end.

(** Every round lowers the short edge, which bounds their number. *)
Definition resolution_ladder (p : CanonicalVideoProfile) (video : MediaStream)
    : list VideoDimensions :=
  match canonical_dimensions p video with
  | None => []
  | Some initial =>
      if short_edge initial <=? vp_minimum_short_edge p then [initial]
      else initial :: default [] (ladder_loop initial (vp_minimum_short_edge p)
                                    (Z.to_nat (short_edge initial)) initial (short_edge initial))
  end.

(** ** Frame rates and bit rates *)

Definition requires_frame_rate_cap (video : MediaStream) (maximum : FrameRate) : bool :=
  match st_frame_rate video with
  | None => true
  | Some r =>
      if fr_denominator r =? 0 then true
      else fr_numerator maximum * fr_denominator r <? fr_numerator r * fr_denominator maximum
  end.

Definition frame_rate_argument (r : FrameRate) : Str :=
  if fr_denominator r =? 1 then show (fr_numerator r)
  else show (fr_numerator r) ++ lit "/" ++ show (fr_denominator r).

Definition effective_frame_rate (video : MediaStream) (maximum : FrameRate) : FrameRate :=
  match st_frame_rate video with
  | Some r => if requires_frame_rate_cap video maximum then maximum else r
  | None => maximum
  end.

(** [div_ceil] of integers that are not negative. *)
Definition div_ceil (a b : Z) : Z := (a + b - 1) / b.

(** The plain [*] of [u128], which wraps around. *)
Definition mul_u128 (a b : Z) : Z := (a * b) mod 2 ^ 128.

Definition minimum_video_bitrate (d : VideoDimensions) (r : FrameRate) : Z :=
  let pixels := mul_u128 (vd_width d) (vd_height d) in
  let numerator :=
    mul_u128 (mul_u128 pixels (fr_numerator r)) MINIMUM_VIDEO_BITS_PER_PIXEL_FRAME_MILLIONTHS in
  let denominator := mul_u128 (fr_denominator r) MILLION in
  div_ceil numerator denominator.

(** [checked_mul] and [checked_sub] of [u128]. *)
Definition checked_mul_u128 (a b : Z) : option Z :=
  if a * b <=? u128_max then Some (a * b) else None.
Definition checked_sub_u128 (a b : Z) : option Z := if b <=? a then Some (a - b) else None.

(** [find_map] over the ladder, for a video bit rate of [rate] bits a second. *)
Definition rung_for (rate : Z) (frames : FrameRate) (ladder : list VideoDimensions)
    : option (VideoDimensions * Z) :=
  d ← head (filter (λ d, minimum_video_bitrate d frames <= rate) ladder);
  Some (d, Z.max (Z.min (rate / 1000) u64_max) 1).

Definition has_audio (probe : MediaProbe) : bool :=
  existsb (λ s, bool_decide (st_kind s = StreamAudio)) (mp_streams probe).

Definition two_pass_candidate (p : CanonicalVideoProfile) (probe : MediaProbe)
    : option (VideoDimensions * Z) :=
  video ← find_stream StreamVideo probe;
  d ← mp_duration_ms probe;
  duration ← (if 0 <? d then Some d else None);
  bits ← checked_mul_u128 (vp_target_max_bytes p) 8;
  scaled_bits ← checked_mul_u128 bits (BASIS_POINTS - TWO_PASS_SIZE_HEADROOM_BPS);
  let target_bits := scaled_bits / BASIS_POINTS in
  total ← checked_mul_u128 target_bits 1000;
  let total_bitrate := total / duration in
  let audio_bitrate := if has_audio probe then vp_audio_bitrate_kbps p * 1000 else 0 in
  video_bitrate ← checked_sub_u128 total_bitrate audio_bitrate;
  rung_for video_bitrate (effective_frame_rate video (vp_max_frame_rate p)) (resolution_ladder p video).

(** ** Remux or transcode *)

Definition h264_profile_idc (profile : Str) : option Z :=
  let s := to_ascii_lowercase profile in
  if decide (s = lit "baseline" ∨ s = lit "constrained baseline") then Some 66
  else if decide (s = lit "main") then Some 77
  else if decide (s = lit "extended") then Some 88
  else if decide (s = lit "high" ∨ s = lit "constrained high") then Some 100
  else if decide (s = lit "high 10") then Some 110
  else if decide (s = lit "high 4:2:2") then Some 122
  else if decide (s = lit "high 4:4:4 predictive") then Some 244
  else if decide (s = lit "cavlc 4:4:4 intra") then Some 44
  else None.

Definition h264_level_limits (level : Z) : option (Z * Z) :=
  match level with
  | 10 => Some (99, 1485) | 11 => Some (396, 3000) | 12 => Some (396, 6000)
  | 13 => Some (396, 11880) | 20 => Some (396, 11880) | 21 => Some (792, 19800)
  | 22 => Some (1620, 20250) | 30 => Some (1620, 40500) | 31 => Some (3600, 108000)
  | 32 => Some (5120, 216000) | 40 | 41 => Some (8192, 245760) | 42 => Some (8704, 522240)
  | 50 => Some (22080, 589824) | 51 => Some (36864, 983040) | 52 => Some (36864, 2073600)
  | 60 => Some (36864, 2073600) | 61 => Some (69120, 4177920) | 62 => Some (69120, 4177920)
  | _ => None
  end.

(** [from_str_radix(_, 16)] of a string of hexadecimal digits. *)
Definition parse_hex (s : Str) : option Z :=
  ds ← mapM hex_value s; Some (fold_left (λ a d, a * 16 + d) ds 0).

Definition saturating_mul_u64 (a b : Z) : Z := Z.min (a * b) u64_max.

Definition h264_metadata_is_compatible (video : MediaStream) : bool :=
  let avc tag := eq_ignore_ascii_case tag (lit "avc1") || eq_ignore_ascii_case tag (lit "avc3") in
  match st_codec_tag video, st_codec_mime video with
  | Some tag, Some mime =>
      avc tag &&
      match split_once 46 mime with
      | None => false
      | Some (declared, id) =>
          eq_ignore_ascii_case declared tag && (length id =? 6)%nat && forallb (λ c, bool_decide (is_Some (hex_value c))) id &&
          match parse_hex (take 2 id), st_profile video ≫= h264_profile_idc,
                parse_hex (drop 4 id), st_level video, stream_size video with
          | Some declared_profile, Some profile, Some declared_level, Some level, Some (w, h) =>
              (declared_profile =? profile) && (declared_level =? level) &&
              let macroblocks := div_ceil w 16 * div_ceil h 16 in
              let rate := match st_frame_rate video with
                          | None => 0
                          | Some r => if fr_denominator r =? 0 then 0
                                      else div_ceil (fr_numerator r) (fr_denominator r)
                          end in
              match h264_level_limits level with
              | None => false
              | Some (most, most_per_second) =>
                  (macroblocks <=? most) && (saturating_mul_u64 macroblocks rate <=? most_per_second)
              end
          | _, _, _, _, _ => false
          end
      end
  | _, _ => false
  end.

Definition is_mp4_container (container : option Str) : bool :=
  match container with
  | None => false
  | Some value =>
      existsb (λ format, eq_ignore_ascii_case (trim format) (lit "mp4")
                         || eq_ignore_ascii_case (trim format) (lit "mov")) (split_at_char 44 value [])
  end.

Definition dimensions_within_profile (video : MediaStream) (p : CanonicalVideoProfile) : bool :=
  match stream_size video with
  | Some (w, h) => (w <=? vp_max_width p) && (h <=? vp_max_height p)
  | None => false
  end.

Definition is_remux_compatible (probe : MediaProbe) (video : MediaStream)
    (p : CanonicalVideoProfile) : bool :=
  is_mp4_container (mp_container_format probe)
  && bool_decide (st_codec video = Some (video_codec_probe_name (vp_video_codec p)))
  && h264_metadata_is_compatible video
  && bool_decide (st_pixel_format video = Some (pixel_format_ffmpeg_name (vp_pixel_format p)))
  && dimensions_within_profile video p
  && negb (requires_frame_rate_cap video (vp_max_frame_rate p))
  && (default 0 (st_rotation_degrees video) =? 0)
  && forallb (λ s, bool_decide (st_codec s = Some (audio_codec_probe_name (vp_audio_codec p))))
       (filter (λ s, st_kind s = StreamAudio) (mp_streams probe)).

(** ** Commands *)

Inductive NormalizationMode := Remux | Transcode.
#[global] Instance normalization_mode_eq_dec : EqDecision NormalizationMode.
Proof. solve_decision. Defined.

Record NormalizationPlan := {
  np_mode : NormalizationMode;
  np_command : ExternalCommand;
  np_output : Str;
  np_profile : CanonicalVideoProfile;
}.
Record TwoPassNormalizationPlan := {
  tp_first_pass : ExternalCommand;
  tp_second_pass : NormalizationPlan;
}.

(** The command with its last argument replaced, in a fresh builder. *)
Definition retargeted (c : ExternalCommand) (tail : list Str) : ExternalCommand :=
  args (removelast (ec_args c) ++ tail)
    (command_max_output_bytes (ec_max_output_bytes c)
       (command_timeout (ec_timeout c) (command_new (ec_program c)))).

Definition command_with_progress_for_output (p : NormalizationPlan) (output : Str) : ExternalCommand :=
  match last (ec_args (np_command p)) with
  | None => np_command p
  | Some _ => retargeted (np_command p) [lit "-progress"; lit "pipe:1"; output]
  end.
Definition command_with_progress (p : NormalizationPlan) : ExternalCommand :=
  command_with_progress_for_output p (np_output p).
Definition with_output (p : NormalizationPlan) (output : Str) : NormalizationPlan :=
  {| np_mode := np_mode p; np_command := retargeted (np_command p) [output];
     np_output := output; np_profile := np_profile p |}.

Record NormalizationPlanner := { pl_ffmpeg : Str; pl_profile : CanonicalVideoProfile }.

Definition planner_new (ffmpeg : Str) (p : CanonicalVideoProfile)
    : result NormalizationError NormalizationPlanner :=
  match profile_validate p with
  | Err e => Err (InvalidProfile e)
  | Ok _ => Ok {| pl_ffmpeg := ffmpeg; pl_profile := p |}
  end.

Definition scale_filter (d : VideoDimensions) (f : PixelFormat) : Str :=
  lit "scale='" ++ show (vd_width d) ++ lit "':'" ++ show (vd_height d)
  ++ lit "':force_original_aspect_ratio=decrease:force_divisible_by=2,format="
  ++ pixel_format_ffmpeg_name f.

Definition base_command (executable : Str) : ExternalCommand :=
  args [lit "-hide_banner"; lit "-loglevel"; lit "error"; lit "-nostdin"; lit "-y"]
    (command_new executable).

Definition append_output_options (p : CanonicalVideoProfile) (c : ExternalCommand) : ExternalCommand :=
  let c := if vp_fast_start p then args [lit "-movflags"; lit "+faststart"] c else c in
  if vp_strip_metadata p then args [lit "-map_metadata"; lit "-1"] c else c.

Definition remux_command (pl : NormalizationPlanner) (input output : Str) : ExternalCommand :=
  arg output (append_output_options (pl_profile pl)
    (args [lit "-i"; input; lit "-map"; lit "0:v:0"; lit "-map"; lit "0:a:0?"; lit "-c"; lit "copy"]
       (base_command (pl_ffmpeg pl)))).

Definition frame_rate_cap (p : CanonicalVideoProfile) (video : MediaStream) (c : ExternalCommand)
    : ExternalCommand :=
  if requires_frame_rate_cap video (vp_max_frame_rate p)
  then args [lit "-r"; frame_rate_argument (vp_max_frame_rate p)] c
  else c.
Definition kbps (n : Z) : Str := show n ++ lit "k".

Definition transcode_command (pl : NormalizationPlanner) (input output : Str) (d : VideoDimensions)
    (crf : Z) (video : MediaStream) : ExternalCommand :=
  let p := pl_profile pl in
  arg output (append_output_options p (frame_rate_cap p video
    (args [lit "-i"; input; lit "-map"; lit "0:v:0"; lit "-map"; lit "0:a:0?";
           lit "-vf"; scale_filter d (vp_pixel_format p);
           lit "-c:v"; video_codec_ffmpeg_name (vp_video_codec p);
           lit "-preset"; preset_ffmpeg_name (vp_video_preset p);
           lit "-crf"; show crf;
           lit "-pix_fmt"; pixel_format_ffmpeg_name (vp_pixel_format p);
           lit "-c:a"; audio_codec_ffmpeg_name (vp_audio_codec p);
           lit "-b:a"; kbps (vp_audio_bitrate_kbps p)]
       (base_command (pl_ffmpeg pl))))).

Definition two_pass_command (pl : NormalizationPlanner) (input output : Str) (d : VideoDimensions)
    (video_bitrate_kbps : Z) (passlog_prefix : Str) (pass : Z) (video : MediaStream) : ExternalCommand :=
  let p := pl_profile pl in
  let c := args [lit "-i"; input; lit "-map"; lit "0:v:0"] (base_command (pl_ffmpeg pl)) in
  let c := if pass =? 2 then args [lit "-map"; lit "0:a:0?"] c else c in
  let c := args [lit "-vf"; scale_filter d (vp_pixel_format p);
                 lit "-c:v"; video_codec_ffmpeg_name (vp_video_codec p);
                 lit "-preset"; preset_ffmpeg_name (vp_video_preset p);
                 lit "-b:v"; kbps video_bitrate_kbps;
                 lit "-pass"; show pass;
                 lit "-passlogfile"; passlog_prefix;
                 lit "-pix_fmt"; pixel_format_ffmpeg_name (vp_pixel_format p)] c in
  let c := if pass =? 2
           then args [lit "-c:a"; audio_codec_ffmpeg_name (vp_audio_codec p);
                      lit "-b:a"; kbps (vp_audio_bitrate_kbps p)] c
           else arg (lit "-an") c in
  let c := frame_rate_cap p video c in
  if pass =? 1 then args [lit "-f"; lit "null"; output] c
  else arg output (append_output_options p c).

(** ** Plans *)

Definition plan (pl : NormalizationPlanner) (input output : Str) (probe : MediaProbe)
    : result NormalizationError NormalizationPlan :=
  match find_stream StreamVideo probe with
  | None => Err NoVideoStream
  | Some video =>
      let mode := if is_remux_compatible probe video (pl_profile pl) then Remux else Transcode in
      let command :=
        match mode with
        | Remux => Ok (remux_command pl input output)
        | Transcode =>
            match canonical_dimensions (pl_profile pl) video with
            | None => Err MissingVideoDimensions
            | Some d => Ok (transcode_command pl input output d (vp_quality_crf (pl_profile pl)) video)
            end
        end in
      match command with
      | Err e => Err e
      | Ok c => Ok {| np_mode := mode; np_command := c; np_output := output;
                      np_profile := pl_profile pl |}
      end
  end.

Definition plan_quality_candidate (pl : NormalizationPlanner) (input output : Str)
    (probe : MediaProbe) (d : VideoDimensions) : result NormalizationError NormalizationPlan :=
  match find_stream StreamVideo probe with
  | None => Err NoVideoStream
  | Some video =>
      match validate_candidate_dimensions d video (pl_profile pl) with
      | Err e => Err e
      | Ok _ =>
          Ok {| np_mode := Transcode;
                np_command := transcode_command pl input output d (vp_quality_crf (pl_profile pl)) video;
                np_output := output; np_profile := pl_profile pl |}
      end
  end.

Definition plan_two_pass (pl : NormalizationPlanner) (input output : Str) (probe : MediaProbe)
    (d : VideoDimensions) (video_bitrate_kbps : Z) (passlog_prefix : Str)
    : result NormalizationError TwoPassNormalizationPlan :=
  match find_stream StreamVideo probe with
  | None => Err NoVideoStream
  | Some video =>
      match validate_candidate_dimensions d video (pl_profile pl) with
      | Err e => Err e
      | Ok _ =>
          if video_bitrate_kbps =? 0 then Err InvalidVideoBitrate
          else
            Ok {| tp_first_pass := two_pass_command pl input (lit "-") d video_bitrate_kbps
                                     passlog_prefix 1 video;
                  tp_second_pass :=
                    {| np_mode := Transcode;
                       np_command := two_pass_command pl input output d video_bitrate_kbps
                                       passlog_prefix 2 video;
                       np_output := output; np_profile := pl_profile pl |} |}
      end
  end.
