(* ===== verification/NormalizeSpec.v ===== *)
(** * NormalizeSpec: what the video planner promises

    A profile with even sizes and an even smallest short edge, as the default one, gives a
    ladder every rung of which the planner itself accepts, from the canonical size down to
    the smallest short edge; the bit rate of a two-pass encode is the highest the target
    affords.  An odd smallest short edge breaks the first. *)

From Stdlib Require Import QArith.
From S2P Require Import Prelude Text F64 Normalize.
Local Open Scope Z_scope.

(** ** Scaling *)

Lemma even_mod n : Z.Even n → n mod 2 = 0.
Proof. intros [k ->]. rewrite Z.mul_comm. apply Z_mod_mult. Qed.

Lemma scaled_upper x n d k s :
  0 < d → 0 <= n → 0 <= x → Z.Even k → 2 <= k <= u32_max → x * n <= k * d →
  Qle 0 s → Qle s (f64_div (of_u32 n) (of_u32 d)) →
  2 <= scaled x s <= k ∧ Z.Even (scaled x s).
Proof.
  intros Hd Hn Hx [j ->] Hk H Hs Hle.
  pose proof (round_half_le _ j (scale_upper x n d (2 * j) s Hd Hn Hx ltac:(unfold u32_max in Hk; lia) H Hs Hle)) as Hr.
  unfold scaled, rounded_even_dimension. set (r := f64_round _) in *.
  rewrite Z.min_r by lia. split; [lia|].
  destruct (Z.max_spec 2 (2 * r)) as [[_ ->]|[_ ->]]; [by exists r|by exists 1].
Qed.

Lemma scaled_lower x n d k :
  0 < d → 0 <= x → Z.Even k → 0 < k <= u32_max → k * d <= x * n →
  k <= scaled x (f64_div (of_u32 n) (of_u32 d)).
Proof.
  intros Hd Hx [j ->] Hk H.
  pose proof (round_half_ge _ j (scale_lower x n d (2 * j) Hd Hx ltac:(unfold u32_max in Hk; lia) H)) as Hr.
  unfold scaled, rounded_even_dimension. lia.
Qed.

(** ** Sizes *)

Definition sized (d : VideoDimensions) : Prop :=
  Z.Even (vd_width d) ∧ Z.Even (vd_height d) ∧ 2 <= vd_width d <= u32_max ∧ 2 <= vd_height d <= u32_max.
Definition fits (d : VideoDimensions) (w h : Z) : Prop := vd_width d <= w ∧ vd_height d <= h.

(** A profile whose sizes are even [u32] numbers. *)
Definition even_profile (p : CanonicalVideoProfile) : Prop :=
  Z.Even (vp_max_width p) ∧ Z.Even (vp_max_height p) ∧ Z.Even (vp_minimum_short_edge p)
  ∧ 0 <= vp_max_width p <= u32_max ∧ 0 <= vp_max_height p <= u32_max.
Definition u32_size (s : MediaStream) : Prop :=
  match stream_size s with
  | Some (w, h) => 0 <= w <= u32_max ∧ 0 <= h <= u32_max
  | None => True
  end.

Lemma even_min_even a b : Z.Even a → Z.Even b → Z.Even (Z.min a b).
Proof. intros. by destruct (Z.min_spec a b) as [[_ ->]|[_ ->]]. Qed.
Lemma even_max_even a b : Z.Even a → Z.Even b → Z.Even (Z.max a b).
Proof. intros. by destruct (Z.max_spec a b) as [[_ ->]|[_ ->]]. Qed.
Lemma even_two : Z.Even 2.
Proof. by exists 1. Qed.
Lemma even_even_dimension v : 0 <= v → Z.Even (even_dimension v).
Proof. intros. exists (v / 2). unfold even_dimension. pose proof (Z.div_mod v 2 ltac:(done)). lia. Qed.
Lemma even_dimension_le v : 0 <= v → even_dimension v <= v.
Proof. intros. unfold even_dimension. pose proof (Z.mod_pos_bound v 2 ltac:(done)). lia. Qed.
Create HintDb parity.
#[export] Hint Resolve even_min_even even_max_even even_two even_even_dimension : parity.

Lemma short_edge_even d : sized d → Z.Even (short_edge d).
Proof. intros (? & ? & _). unfold short_edge. auto with parity. Qed.
Lemma even_step a b : Z.Even a → Z.Even b → a < b → a + 2 <= b.
Proof. intros [i ->] [j ->]. lia. Qed.

Lemma scale_le_first x m w s t u : 0 < w → 0 <= m → 0 <= x → Qle 0 t → Qle 0 u →
  s = f64_min (f64_min (f64_div (of_u32 m) (of_u32 w)) t) u →
  Qle 0 s ∧ Qle s (f64_div (of_u32 m) (of_u32 w)) ∧ Qle s t.
Proof.
  intros Hw Hm Hx Ht Hu ->. split_and!.
  - auto using f64_min_nonneg, f64_div_nonneg.
  - eapply Qle_trans; [exact (proj1 (f64_min_le _ _))|exact (proj1 (f64_min_le _ _))].
  - eapply Qle_trans; [exact (proj1 (f64_min_le _ _))|exact (proj2 (f64_min_le _ _))].
Qed.

(** The canonical size is even, within the profile and never above the source. *)
Lemma bounded_dimensions_sized w h mw mh d :
  0 <= w <= u32_max → 0 <= h <= u32_max → Z.Even mw → Z.Even mh →
  0 < mw <= u32_max → 0 < mh <= u32_max →
  bounded_dimensions w h mw mh = Some d → sized d ∧ fits d mw mh ∧ fits d w h.
Proof.
  intros Hw Hh Emw Emh Hmw Hmh. unfold bounded_dimensions.
  destruct (w <? 2) eqn:H1; [done|]. destruct (h <? 2) eqn:H2; [done|].
  intros [= <-]. set (s := f64_min _ _).
  assert (2 <= mw) by (apply Z.lt_succ_r; destruct Emw; lia).
  assert (2 <= mh) by (apply Z.lt_succ_r; destruct Emh; lia).
  destruct (scale_le_first w mw w s (f64_div (of_u32 mh) (of_u32 h)) f64_one) as (Hs & Hs1 & Hs2);
    [lia|lia|lia|apply f64_div_nonneg; lia|done|done|].
  destruct (scaled_upper w mw w mw s) as [? ?]; [lia|lia|lia|done|lia|lia|done|done|].
  destruct (scaled_upper h mh h mh s) as [? ?]; [lia|lia|lia|done|lia|lia|done|done|].
  assert (even_dimension w <= w) by (apply even_dimension_le; lia).
  assert (even_dimension h <= h) by (apply even_dimension_le; lia).
  unfold sized, fits; simpl. split_and!; try lia;
    (apply even_max_even; [apply even_min_even; [done|apply even_even_dimension; lia]|apply even_two]).
Qed.

(** A rung of at most the shape's own short edge is within the shape. *)
Lemma rescaled_sized initial n : sized initial → 0 <= n <= short_edge initial →
  sized (rescaled initial n) ∧ fits (rescaled initial n) (vd_width initial) (vd_height initial).
Proof.
  intros (Ew & Eh & Hw & Hh) Hn. unfold rescaled. set (s := f64_div _ _).
  assert (0 < short_edge initial) by (unfold short_edge; lia).
  assert (Qle 0 s) by (apply f64_div_nonneg; lia).
  destruct (scaled_upper (vd_width initial) n (short_edge initial) (vd_width initial) s) as [? ?];
    [lia|lia|lia|done|lia|nia|done|apply Qle_refl|].
  destruct (scaled_upper (vd_height initial) n (short_edge initial) (vd_height initial) s) as [? ?];
    [lia|lia|lia|done|lia|nia|done|apply Qle_refl|].
  unfold sized, fits; simpl. split_and!; try lia; auto with parity.
Qed.

Lemma rescaled_above initial n k : sized initial → Z.Even k → 0 < k → k <= n <= short_edge initial →
  k <= short_edge (rescaled initial n).
Proof.
  intros (Ew & Eh & Hw & Hh) Ek Hk Hn.
  assert (short_edge initial <= vd_width initial ∧ short_edge initial <= vd_height initial) as [] by (unfold short_edge; lia).
  pose proof (scaled_lower (vd_width initial) n (short_edge initial) k ltac:(lia) ltac:(lia) Ek ltac:(lia) ltac:(nia)).
  pose proof (scaled_lower (vd_height initial) n (short_edge initial) k ltac:(lia) ltac:(lia) Ek ltac:(lia) ltac:(nia)).
  unfold rescaled, short_edge at 1; simpl. lia.
Qed.

Lemma rescaled_below initial n k : sized initial → Z.Even k → 2 <= k → 0 <= n <= k → k <= short_edge initial →
  short_edge (rescaled initial n) <= k.
Proof.
  intros (Ew & Eh & Hw & Hh) Ek Hk Hn Hi. unfold rescaled. set (s := f64_div _ _).
  assert (Qle 0 s) by (apply f64_div_nonneg; lia).
  assert (short_edge initial = vd_width initial ∨ short_edge initial = vd_height initial) as [Hs|Hs]
    by (unfold short_edge; lia).
  - destruct (scaled_upper (vd_width initial) n (short_edge initial) k s) as [? ?];
      [lia|lia|lia|done|lia|nia|done|apply Qle_refl|]. unfold short_edge; simpl. lia.
  - destruct (scaled_upper (vd_height initial) n (short_edge initial) k s) as [? ?];
      [lia|lia|lia|done|lia|nia|done|apply Qle_refl|]. unfold short_edge; simpl. lia.
Qed.

(** ** The ladder *)

Definition descends (a b : VideoDimensions) : Prop := short_edge b + 2 <= short_edge a.

Lemma next_short_edge_bounds m edge : Z.Even m → Z.Even edge → 0 < m < edge →
  m <= next_short_edge m edge <= edge - 2.
Proof. intros Em Ee H. pose proof (even_step _ _ Em Ee ltac:(lia)). unfold next_short_edge. lia. Qed.

Lemma last_default {A} (y : A) l a b : List.last (y :: l) a = List.last (y :: l) b.
Proof. revert y. induction l as [|z l IH]; intros y; [done|]. apply IH. Qed.

(** With enough fuel the loop descends to the smallest short edge and stops there. *)
Lemma ladder_loop_descends initial m fuel last :
  sized initial → sized last → Z.Even m → 0 < m <= short_edge last → short_edge last <= short_edge initial →
  short_edge last <= Z.of_nat fuel →
  ∃ l, ladder_loop initial m fuel last (short_edge last) = Some l
       ∧ Forall (λ d, sized d ∧ fits d (vd_width initial) (vd_height initial) ∧ m <= short_edge d) l
       ∧ StronglySorted descends (last :: l)
       ∧ short_edge (List.last l last) = m.
Proof.
  intros Hi. revert last. induction fuel as [|fuel IH]; intros last Hl Em Hm Hle Hf; [lia|].
  simpl. destruct (Z.leb_spec (short_edge last) m) as [Hs|Hs].
  { exists []. split_and!; [done..|repeat constructor|simpl; lia]. }
  pose proof (next_short_edge_bounds m (short_edge last) Em (short_edge_even _ Hl) ltac:(lia)) as Hn.
  set (c := rescaled initial (next_short_edge m (short_edge last))).
  destruct (rescaled_sized initial (next_short_edge m (short_edge last)) Hi) as [Hc Hfit]; [lia|].
  pose proof (rescaled_above initial (next_short_edge m (short_edge last)) m Hi Em ltac:(lia) ltac:(lia)) as Hab.
  assert (2 <= m) by (destruct Em; lia).
  assert (short_edge c <= short_edge last - 2) as Hbel.
  { apply rescaled_below; [done| |lia..].
    destruct (short_edge_even _ Hl) as [k Hk]. exists (k - 1). lia. }
  fold c in Hc, Hfit, Hab.
  destruct (Z.ltb_spec (short_edge c) m); [lia|]. destruct (decide (last = c)) as [Heq|_]; [rewrite <-Heq in *; lia|].
  destruct (IH c Hc Em ltac:(lia) ltac:(lia) ltac:(lia)) as (l & -> & Hall & Hsort & Hend).
  exists (c :: l). split_and!; [done|by constructor| |].
  - apply StronglySorted_inv in Hsort as [Hsort Hfc]. constructor; [by constructor|].
    constructor; [unfold descends; lia|]. eapply Forall_impl; [exact Hfc|].
    unfold descends. simpl. lia.
  - rewrite <-Hend. destruct l as [|y l]; [done|].
    change (short_edge (List.last (y :: l) last) = short_edge (List.last (y :: l) c)).
    by rewrite (last_default y l last c).
Qed.

(** ** Candidates *)

Lemma candidate_accepted p video d w h initial :
  stream_size video = Some (w, h) →
  bounded_dimensions w h (vp_max_width p) (vp_max_height p) = Some initial →
  sized d → fits d (vp_max_width p) (vp_max_height p) → fits d w h →
  Z.min (vp_minimum_short_edge p) (short_edge initial) <= short_edge d →
  validate_candidate_dimensions d video p = Ok tt.
Proof.
  intros Hsz Hb (Ew & Eh & Hw & Hh) [? ?] [? ?] Hm. unfold validate_candidate_dimensions.
  rewrite Hsz. simpl. rewrite Hb. simpl. rewrite (even_mod _ Ew), (even_mod _ Eh).
  repeat match goal with |- context [?a =? ?b] => destruct (Z.eqb_spec a b); [lia|] end.
  repeat match goal with |- context [?a <? ?b] => destruct (Z.ltb_spec a b); [lia|] end. done.
Qed.

Lemma validated_profile p : profile_validate p = Ok tt → even_profile p →
  0 < vp_max_width p <= u32_max ∧ 0 < vp_max_height p <= u32_max ∧ vp_minimum_short_edge p ≠ 0
  ∧ vp_minimum_short_edge p <= Z.min (vp_max_width p) (vp_max_height p).
Proof.
  unfold profile_validate. intros H (Ew & Eh & Em & Hw & Hh).
  repeat match type of H with context [?a =? ?b] => destruct (Z.eqb_spec a b); simpl in H; [done|] end.
  repeat case_match; try done. lia.
Qed.

Lemma fits_trans a b w h : fits a (vd_width b) (vd_height b) → fits b w h → fits a w h.
Proof. unfold fits. lia. Qed.

Lemma descends_trans a b c : descends a b → descends b c → descends a c.
Proof. unfold descends. lia. Qed.

(** The rungs of a ladder: even sizes within the profile and the source. *)
Lemma ladder_rungs p video w h :
  profile_validate p = Ok tt → even_profile p → 0 < vp_minimum_short_edge p →
  stream_size video = Some (w, h) → 2 <= w <= u32_max → 2 <= h <= u32_max →
  ∃ initial rest,
    resolution_ladder p video = initial :: rest
    ∧ bounded_dimensions w h (vp_max_width p) (vp_max_height p) = Some initial
    ∧ Forall (λ d, sized d ∧ fits d (vp_max_width p) (vp_max_height p) ∧ fits d w h
                   ∧ Z.min (vp_minimum_short_edge p) (short_edge initial) <= short_edge d) (initial :: rest)
    ∧ StronglySorted descends (initial :: rest)
    ∧ Z.min (vp_minimum_short_edge p) (short_edge initial) = short_edge (List.last rest initial).
Proof.
  intros Hv He Hpos Hsz Hw Hh. destruct (validated_profile p Hv He) as (Hmw & Hmh & _ & Hmin).
  destruct He as (Ew & Eh & Em & _).
  destruct (bounded_dimensions w h (vp_max_width p) (vp_max_height p)) as [initial|] eqn:Hb;
    [|unfold bounded_dimensions in Hb; destruct (Z.ltb_spec w 2); [lia|]; destruct (Z.ltb_spec h 2); [lia|done]].
  destruct (bounded_dimensions_sized w h _ _ _ ltac:(lia) ltac:(lia) Ew Eh Hmw Hmh Hb) as (Hi & Hp & Hs).
  unfold resolution_ladder, canonical_dimensions. rewrite Hsz. simpl. rewrite Hb.
  assert (0 < short_edge initial) by (destruct Hi as (_ & _ & ? & ?); unfold short_edge; lia).
  destruct (Z.leb_spec (short_edge initial) (vp_minimum_short_edge p)) as [Hle|Hgt].
  { exists initial, []. simpl. rewrite Z.min_r by done. split_and!; [done|done| |repeat constructor|done].
    constructor; [split_and!; (done || lia)|done]. }
  destruct (ladder_loop_descends initial (vp_minimum_short_edge p) (Z.to_nat (short_edge initial)) initial)
    as (l & -> & Hall & Hsort & Hend); [done|done|done|lia|lia|lia|].
  exists initial, l. simpl. rewrite Z.min_l, Hend by lia. split_and!; [done|done| |done|done].
  constructor; [split_and!; (done || lia)|].
  eapply Forall_impl; [exact Hall|]. intros d (Hd & Hf & Hm). simpl in *.
  split_and!; [done|by eapply fits_trans..|lia].
Qed.

(** C36: for a profile the planner accepts whose sizes and whose smallest short edge are
    even (the default profile is one) and a source of any size of at least two by two
    pixels, the ladder of resolutions starts at the canonical size, every rung is accepted
    by the check that guards a candidate (even, within the profile, never above the source,
    never below the floor), each rung's short edge is at least two pixels below the one
    before, and the last rung is at the effective smallest short edge. The scaling is that
    of double-precision arithmetic. *)
Theorem resolution_ladder_is_sound p video w h :
  profile_validate p = Ok tt → even_profile p → 0 < vp_minimum_short_edge p →
  stream_size video = Some (w, h) → 2 <= w <= u32_max → 2 <= h <= u32_max →
  ∃ initial rest,
    resolution_ladder p video = initial :: rest
    ∧ canonical_dimensions p video = Some initial
    ∧ Forall (λ d, validate_candidate_dimensions d video p = Ok tt) (initial :: rest)
    ∧ StronglySorted descends (initial :: rest)
    ∧ effective_minimum_short_edge p video = Some (short_edge (List.last rest initial)).
Proof.
  intros Hv He Hpos Hsz Hw Hh.
  destruct (ladder_rungs p video w h Hv He Hpos Hsz Hw Hh) as (initial & rest & Hl & Hb & Hall & Hsort & Hend).
  assert (canonical_dimensions p video = Some initial) as Hc
    by (unfold canonical_dimensions; by rewrite Hsz).
  exists initial, rest. split_and!; [done|done| |done|].
  - eapply Forall_impl; [exact Hall|]. intros d (Hd & Hfp & Hfs & Hm). by eapply candidate_accepted.
  - unfold effective_minimum_short_edge. rewrite Hc. simpl. by rewrite Hend.
Qed.

Definition demo_stream (kind : MediaStreamKind) (w h : option Z) : MediaStream :=
  {| st_index := 0; st_kind := kind; st_codec := None; st_attached_picture := false;
     st_codec_tag := None; st_codec_mime := None; st_level := None; st_profile := None;
     st_pixel_format := None; st_width := w; st_height := h; st_display_aspect_ratio := None;
     st_frame_rate := None; st_rotation_degrees := None; st_sample_rate_hz := None;
     st_channels := None; st_bit_rate := None |}.
Definition demo_video : MediaStream := demo_stream StreamVideo (Some 3840) (Some 2160).
Definition demo_probe : MediaProbe :=
  {| mp_container_format := None; mp_duration_ms := Some 60000; mp_size_bytes := 50000000;
     mp_bit_rate := None; mp_streams := [demo_video; demo_stream StreamAudio None None] |}.

Lemma default_profile_even : even_profile default_video_profile.
Proof.
  unfold even_profile, u32_max; simpl. split_and!; try lia; [by exists 960|by exists 540|by exists 240].
Qed.

Lemma resolution_ladder_is_sound_witness :
  resolution_ladder default_video_profile demo_video
    = [ {| vd_width := 1920; vd_height := 1080 |}; {| vd_width := 1440; vd_height := 810 |};
        {| vd_width := 1080; vd_height := 608 |}; {| vd_width := 854; vd_height := 480 |} ]
  ∧ ∃ initial rest,
    resolution_ladder default_video_profile demo_video = initial :: rest
    ∧ canonical_dimensions default_video_profile demo_video = Some initial
    ∧ Forall (λ d, validate_candidate_dimensions d demo_video default_video_profile = Ok tt) (initial :: rest)
    ∧ StronglySorted descends (initial :: rest)
    ∧ effective_minimum_short_edge default_video_profile demo_video
        = Some (short_edge (List.last rest initial)).
Proof.
  split; [by_vm|].
  apply (resolution_ladder_is_sound default_video_profile demo_video 3840 2160);
    [reflexivity|exact default_profile_even|by vm_compute|reflexivity|unfold u32_max; lia|unfold u32_max; lia].
Defined.

(** the accepted profiles are not all of them sound: with a smallest short edge of 509
    pixels, which the profile check and the configuration accept, the ladder of a Full HD
    source ends in a rung of 904 by 508 pixels, and the planner rejects its own rung. *)
Theorem odd_floor_rejects_its_own_rung :
  let p := default_video_profile <| vp_minimum_short_edge := 509 |> in
  let video := demo_stream StreamVideo (Some 1920) (Some 1080) in
  let rung := {| vd_width := 904; vd_height := 508 |} in
  profile_validate p = Ok tt
  ∧ last (resolution_ladder p video) = Some rung
  ∧ validate_candidate_dimensions rung video p = Err (InvalidCandidateDimensions rung).
Proof. split_and!; [reflexivity|by_vm|vm_compute; reflexivity]. Qed.

(** ** Two passes *)

Lemma head_filter_some {A} (P : A → Prop) `{!∀ x, Decision (P x)} l d :
  head (filter P l) = Some d → P d ∧ ∃ pre post, l = pre ++ d :: post ∧ Forall (λ x, ¬ P x) pre.
Proof.
  induction l as [|x l IH]; [done|]. rewrite filter_cons. case_decide as Hx.
  - intros [= <-]. split; [done|]. by exists [], l.
  - intros (Hd & pre & post & -> & Hpre)%IH. split; [done|]. exists (x :: pre), post. by split; [|constructor].
Qed.
Lemma head_filter_none {A} (P : A → Prop) `{!∀ x, Decision (P x)} l :
  head (filter P l) = None ↔ Forall (λ x, ¬ P x) l.
Proof.
  induction l as [|x l IH]; [done|]. rewrite filter_cons, Forall_cons. case_decide; [naive_solver|].
  rewrite IH. naive_solver.
Qed.

(** The bits the target leaves after the headroom, and what a video of a bit rate takes of
    them, together with its audio track. *)
Definition target_bits (p : CanonicalVideoProfile) : Z :=
  vp_target_max_bytes p * 8 * (BASIS_POINTS - TWO_PASS_SIZE_HEADROOM_BPS) / BASIS_POINTS.
Definition audio_bitrate (p : CanonicalVideoProfile) (probe : MediaProbe) : Z :=
  if has_audio probe then vp_audio_bitrate_kbps p * 1000 else 0.
Definition affordable (p : CanonicalVideoProfile) (probe : MediaProbe) (duration rate : Z) : Prop :=
  (rate + audio_bitrate p probe) * duration <= target_bits p * 1000.
#[global] Instance affordable_dec p probe duration rate : Decision (affordable p probe duration rate).
Proof. unfold affordable. apply _. Defined.

Lemma affordable_rate p probe duration rate : 0 < duration →
  affordable p probe duration rate ↔ rate <= target_bits p * 1000 / duration - audio_bitrate p probe.
Proof.
  intros Hd. unfold affordable. set (T := target_bits p * 1000). set (a := audio_bitrate p probe).
  split; intros H.
  - enough (rate + a <= T / duration) by lia. apply Z.div_le_lower_bound; lia.
  - pose proof (Z.mul_div_le T duration Hd). nia.
Qed.

(** The arithmetic of the code never leaves 128 bits. *)
Lemma two_pass_candidate_eq p probe video duration :
  0 <= vp_target_max_bytes p <= u64_max → 0 <= vp_audio_bitrate_kbps p →
  find_stream StreamVideo probe = Some video → mp_duration_ms probe = Some duration → 0 < duration →
  two_pass_candidate p probe =
    let rate := target_bits p * 1000 / duration - audio_bitrate p probe in
    if 0 <=? rate
    then rung_for rate (effective_frame_rate video (vp_max_frame_rate p)) (resolution_ladder p video)
    else None.
Proof.
  intros Ht Ha Hv Hd Hpos. unfold two_pass_candidate. rewrite Hv, Hd. simpl.
  destruct (Z.ltb_spec 0 duration); [|lia]. simpl.
  unfold u64_max in Ht. unfold checked_mul_u128, u128_max.
  destruct (Z.leb_spec (vp_target_max_bytes p * 8) (2 ^ 128 - 1)); [|lia]. simpl.
  fold (target_bits p).
  assert (target_bits p * 1000 <= 2 ^ 128 - 1 ∧ vp_target_max_bytes p * 8 * (BASIS_POINTS - TWO_PASS_SIZE_HEADROOM_BPS) <= 2 ^ 128 - 1) as [H1 H2].
  { unfold target_bits. change (BASIS_POINTS - TWO_PASS_SIZE_HEADROOM_BPS) with 9800. change BASIS_POINTS with 10000.
    pose proof (Z.mul_div_le (vp_target_max_bytes p * 8 * 9800) 10000 ltac:(done)). lia. }
  destruct (Z.leb_spec (vp_target_max_bytes p * 8 * (BASIS_POINTS - TWO_PASS_SIZE_HEADROOM_BPS)) (2 ^ 128 - 1)); [|lia].
  simpl. fold (target_bits p). destruct (Z.leb_spec (target_bits p * 1000) (2 ^ 128 - 1)); [|lia]. simpl.
  fold (audio_bitrate p probe). unfold checked_sub_u128.
  destruct (Z.leb_spec (audio_bitrate p probe) (target_bits p * 1000 / duration)), (Z.leb_spec 0 (target_bits p * 1000 / duration - audio_bitrate p probe)); done || lia.
Qed.

(** A size and a frame rate whose quality floor stays within 128 bits: a picture of at most
    [2 ^ 48] pixels, and [u64] numbers. *)
Definition u64_rate (r : FrameRate) : Prop :=
  0 <= fr_numerator r <= u64_max ∧ 0 <= fr_denominator r <= u64_max.
Definition small_picture (d : VideoDimensions) : Prop :=
  0 <= vd_width d ∧ 0 <= vd_height d ∧ vd_width d * vd_height d <= 2 ^ 48.

(** A bit rate that gives every pixel of every frame its 60 millibits. *)
Definition reaches_floor (d : VideoDimensions) (r : FrameRate) (rate : Z) : Prop :=
  60000 * (vd_width d * vd_height d * fr_numerator r) <= rate * (1000000 * fr_denominator r).

Lemma div_ceil_le a b c : 0 < b → div_ceil a b <= c ↔ a <= c * b.
Proof.
  intros Hb. unfold div_ceil. split; intros H.
  - pose proof (Z.div_mod (a + b - 1) b ltac:(lia)). pose proof (Z.mod_pos_bound (a + b - 1) b Hb). nia.
  - enough ((a + b - 1) / b < c + 1) by lia. apply Z.div_lt_upper_bound; lia.
Qed.

Lemma mul_u128_exact a b : 0 <= a → 0 <= b → a * b < 2 ^ 128 → mul_u128 a b = a * b.
Proof. intros. apply Z.mod_small. nia. Qed.

Lemma minimum_video_bitrate_floor d r rate : small_picture d → u64_rate r → 0 < fr_denominator r →
  minimum_video_bitrate d r <= rate ↔ reaches_floor d r rate.
Proof.
  intros (Hw & Hh & Hp) (Hn & Hd) Hpos. unfold minimum_video_bitrate, reaches_floor.
  unfold MINIMUM_VIDEO_BITS_PER_PIXEL_FRAME_MILLIONTHS, MILLION. unfold u64_max in *.
  set (pixels := vd_width d * vd_height d) in *.
  assert (0 <= pixels) by (unfold pixels; nia).
  assert (0 <= pixels * fr_numerator r <= 2 ^ 48 * 18446744073709551615) by nia.
  rewrite (mul_u128_exact (vd_width d) (vd_height d)) by (fold pixels; lia). fold pixels.
  rewrite (mul_u128_exact pixels) by lia. rewrite (mul_u128_exact (pixels * _)) by lia.
  rewrite (mul_u128_exact (fr_denominator r)) by lia.
  rewrite div_ceil_le by lia. split; intros; lia.
Qed.

(** The frame rate of the encode can be divided by. *)
Lemma effective_frame_rate_u64 p video :
  profile_validate p = Ok tt → u64_rate (vp_max_frame_rate p) →
  (∀ r, st_frame_rate video = Some r → u64_rate r) →
  let r := effective_frame_rate video (vp_max_frame_rate p) in u64_rate r ∧ 0 < fr_denominator r.
Proof.
  intros Hv Hm Hs. unfold profile_validate in Hv. repeat case_match; try done.
  assert (0 < fr_denominator (vp_max_frame_rate p)).
  { destruct Hm as [_ Hm]. destruct (Z.eqb_spec (fr_denominator (vp_max_frame_rate p)) 0) as [E|]; [|lia].
    exfalso. rewrite E in *. destruct (fr_numerator (vp_max_frame_rate p) =? 0); discriminate. }
  unfold effective_frame_rate. destruct (st_frame_rate video) as [r|] eqn:Hr; [|done].
  unfold requires_frame_rate_cap. rewrite Hr. destruct (Z.eqb_spec (fr_denominator r) 0); [done|].
  specialize (Hs r eq_refl). case_match; [done|]. split; [done|]. destruct Hs. lia.
Qed.

(** Every ladder of an even profile of at most [2 ^ 48] pixels is made of such pictures. *)
Lemma even_profile_small_pictures p video w h :
  profile_validate p = Ok tt → even_profile p → 0 < vp_minimum_short_edge p →
  stream_size video = Some (w, h) → 2 <= w <= u32_max → 2 <= h <= u32_max →
  vp_max_width p * vp_max_height p <= 2 ^ 48 → Forall small_picture (resolution_ladder p video).
Proof.
  intros Hv He Hpos Hsz Hw Hh Hsmall.
  destruct (ladder_rungs p video w h Hv He Hpos Hsz Hw Hh) as (initial & rest & -> & _ & Hall & _).
  eapply Forall_impl; [exact Hall|]. intros d ((_ & _ & Hdw & Hdh) & [Hfw Hfh] & _).
  unfold small_picture. split_and!; nia.
Qed.

(** What the target can pay for: a size together with its quality floor, and the bit rate
    the encoder is asked for, in whole kilobits a second: the highest that is affordable,
    or the lowest that can be asked for when not even that one is. *)
Definition affords_quality (p : CanonicalVideoProfile) (probe : MediaProbe) (duration : Z)
    (r : FrameRate) (d : VideoDimensions) : Prop :=
  ∃ rate, affordable p probe duration rate ∧ reaches_floor d r rate.
Definition highest_kbps (p : CanonicalVideoProfile) (probe : MediaProbe) (duration kbps : Z) : Prop :=
  affordable p probe duration (kbps * 1000)
  ∧ (kbps = u64_max ∨ ¬ affordable p probe duration ((kbps + 1) * 1000)).

Lemma kbps_highest p probe duration rate : 0 < duration →
  rate = target_bits p * 1000 / duration - audio_bitrate p probe → 0 <= rate →
  let kbps := Z.max (Z.min (rate / 1000) u64_max) 1 in
  1 <= kbps <= u64_max
  ∧ (if decide (affordable p probe duration 1000) then highest_kbps p probe duration kbps else kbps = 1).
Proof.
  intros Hd Hrate Hr kbps. subst kbps. unfold highest_kbps, u64_max.
  pose proof (Z.div_mod rate 1000 ltac:(done)). pose proof (Z.mod_pos_bound rate 1000 ltac:(done)).
  split; [lia|]. case_decide as Ha; rewrite affordable_rate, <- Hrate in Ha by done; [|lia].
  rewrite !affordable_rate, <- Hrate by done. lia.
Qed.

(** C37: for every probe with a video stream and a duration, the two-pass candidate is the
    first, that is the largest, rung of the ladder for which the target affords, for the
    whole duration, beside the audio track and the 2% headroom, a bit rate of 60 millibits
    per pixel and frame; and there is no candidate exactly when the target affords this for
    no rung. The bit rate asked for is the highest whole number of kilobits a second that
    the target affords (at most the largest [u64]), so the planned encode is within the
    target; when it affords not even one kilobit a second, which only a floor below that
    allows, one is asked for. Profiles and probes are those of their types, the profile is
    one that the check accepts and no rung has more than [2 ^ 48] pixels: the floor is then
    computed without leaving 128 bits, whatever the frame rate. *)
Theorem two_pass_candidate_fits_target p probe video duration :
  profile_validate p = Ok tt → u64_rate (vp_max_frame_rate p) →
  0 <= vp_target_max_bytes p <= u64_max → 0 <= vp_audio_bitrate_kbps p →
  find_stream StreamVideo probe = Some video → (∀ r, st_frame_rate video = Some r → u64_rate r) →
  mp_duration_ms probe = Some duration → 0 < duration →
  Forall small_picture (resolution_ladder p video) →
  let rate := effective_frame_rate video (vp_max_frame_rate p) in
  match two_pass_candidate p probe with
  | Some (d, kbps) =>
      affords_quality p probe duration rate d
      ∧ 1 <= kbps <= u64_max
      ∧ (if decide (affordable p probe duration 1000) then highest_kbps p probe duration kbps else kbps = 1)
      ∧ ∃ larger smaller, resolution_ladder p video = larger ++ d :: smaller
          ∧ Forall (λ d', ¬ affords_quality p probe duration rate d') larger
  | None => Forall (λ d, ¬ affords_quality p probe duration rate d) (resolution_ladder p video)
  end.
Proof.
  intros Hp Hm Ht Ha Hv Hs Hd Hpos Hsmall fps.
  destruct (effective_frame_rate_u64 p video Hp Hm Hs) as [Hfps Hden]. fold fps in Hfps, Hden.
  rewrite (two_pass_candidate_eq p probe video duration) by done. cbn zeta. fold fps.
  set (rate := target_bits p * 1000 / duration - audio_bitrate p probe).
  assert (∀ r, affordable p probe duration r ↔ r <= rate) as Haff by (intros r; by apply affordable_rate).
  assert (∀ d, d ∈ resolution_ladder p video →
    affords_quality p probe duration fps d ↔ minimum_video_bitrate d fps <= rate) as Hq.
  { intros d Hin. rewrite Forall_forall in Hsmall. pose proof (minimum_video_bitrate_floor d fps) as Hf.
    split.
    - intros (r & Hr%Haff & Hreach). apply Hf in Hreach; [lia|by apply Hsmall|done|done].
    - intros Hle. exists rate. split; [by apply Haff|]. apply Hf; [by apply Hsmall|done|done|done]. }
  destruct (Z.leb_spec 0 rate) as [Hr|Hr]; cycle 1.
  { apply Forall_forall. intros d Hin (r & Hra%Haff & Hreach). rewrite Forall_forall in Hsmall.
    destruct (Hsmall d Hin) as (Hw & Hh & _), Hfps as [Hn _]. unfold reaches_floor in Hreach.
    assert (0 <= vd_width d * vd_height d * fr_numerator fps) by (repeat apply Z.mul_nonneg_nonneg; lia). nia. }
  unfold rung_for. destruct (head _) as [d|] eqn:Hh; simpl.
  - apply head_filter_some in Hh as (Hle & pre & post & Hl & Hpre).
    destruct (kbps_highest p probe duration rate Hpos eq_refl Hr) as [Hk1 Hk2]. split_and!; [|lia|lia|done|].
    + apply Hq; [rewrite Hl; set_solver|done].
    + exists pre, post. split; [done|]. rewrite Forall_forall in Hpre |- *. intros d' Hin.
      rewrite Hq by (rewrite Hl; set_solver). by apply Hpre.
  - apply head_filter_none in Hh. rewrite Forall_forall in Hh |- *. intros d Hin. rewrite Hq by done. by apply Hh.
Qed.

Lemma two_pass_candidate_fits_target_witness :
  two_pass_candidate default_video_profile demo_probe
    = Some ({| vd_width := 854; vd_height := 480 |}, 1790)
  ∧ affords_quality default_video_profile demo_probe 60000
      {| fr_numerator := 60; fr_denominator := 1 |} {| vd_width := 854; vd_height := 480 |}
  ∧ affordable default_video_profile demo_probe 60000 (1790 * 1000)
  ∧ ¬ affordable default_video_profile demo_probe 60000 (1791 * 1000).
Proof.
  assert (two_pass_candidate default_video_profile demo_probe
    = Some ({| vd_width := 854; vd_height := 480 |}, 1790)) as Hc by by_vm.
  split; [exact Hc|].
  pose proof (two_pass_candidate_fits_target default_video_profile demo_probe demo_video 60000) as H.
  rewrite Hc in H. destruct H as (Hq & _ & Hk & _);
    [reflexivity|unfold u64_rate, u64_max; simpl; lia|unfold u64_max; simpl; lia|simpl; lia|reflexivity
    |intros r [=]|reflexivity|lia| |].
  - apply (even_profile_small_pictures default_video_profile demo_video 3840 2160);
      [reflexivity|exact default_profile_even|by vm_compute|reflexivity|unfold u32_max; lia|unfold u32_max; lia
      |simpl; lia].
  - split; [exact Hq|]. rewrite decide_True in Hk by by vm_compute.
    destruct Hk as [Hk [E|Hn]]; [by vm_compute in E|]. split; [exact Hk|exact Hn].
Defined.
