(* ===== verification/Envelope.v ===== *)
(** * Envelope: the versioned ingest data

    [inbox/src/lib.rs], the durable [input_json] envelope: its records, the
    serde attributes that give its JSON shape (skipped options, flattened
    extensions, the renamed decision marker), [decode], [decode_legacy],
    [validate_ref] and [encode], and the media kind read from probe data.
    [serde_json] itself is an interface ([JsonShape]). *)

From S2P Require Import Prelude Text Enums Jobs.

(** ** [serde_json::Value] as the envelope code uses it

    Objects are maps ([serde_json::Map] without [preserve_order]); [value_len]
    is the length of [serde_json::to_vec]; a value is a finite tree, of some
    [depth]; [type_error] is the text of the
    error serde reports when a value does not have the named type. *)
Class JsonShape {J : Json} := {
  jnull : Value;
  of_object : gmap Str Value → Value;
  as_object : Value → option (gmap Str Value);
  of_str : Str → Value;
  as_string : Value → option Str;
  of_array : list Value → Value;
  as_array : Value → option (list Value);
  as_bool : Value → option bool;
  of_int : Z → Value;
  as_int : Value → option Z;
  is_null : Value → bool;
  value_len : Value → Z;
  depth : Value → nat;
  type_error : string → Value → Str;
  as_object_of_object : ∀ m, as_object (of_object m) = Some m;
  as_string_of_str : ∀ s, as_string (of_str s) = Some s;
  as_array_of_array : ∀ l, as_array (of_array l) = Some l;
  as_int_of_int : ∀ z, i64_min ≤ z ≤ u64_max → as_int (of_int z) = Some z;
  is_null_jnull : is_null jnull = true;
  is_null_object : ∀ v m, as_object v = Some m → is_null v = false;
  is_null_string : ∀ v s, as_string v = Some s → is_null v = false;
  is_null_int : ∀ v z, as_int v = Some z → is_null v = false;
  depth_field : ∀ v m k x, as_object v = Some m → m !! k = Some x → (depth x < depth v)%nat;
}.

Section Shape.
Context {J : Json} {S : JsonShape}.

(** [Value::get]. *)
Definition get (key : string) (v : Value) : option Value := m ← as_object v; m !! lit key.
Definition get_str (key : string) (v : Value) : option Str := get key v ≫= as_string.
(** [Value::as_u64]. *)
Definition as_u64 (v : Value) : option Z :=
  z ← as_int v; if (0 <=? z) && (z <=? u64_max) then Some z else None.
Definition is_object (v : Value) : bool := match as_object v with Some _ => true | None => false end.
End Shape.

(** ** Stage records *)

Section Records.
Context {J : Json}.

Record SourceDownload := {
  sd_bytes : Z;
  sd_mime_type : option Str;
  sd_media_kind : SourceMediaKind.t;
  sd_selected_format : option Str;
}.
Record AssetThumbnailNormalization := {
  th_local_work_path : Str;
  th_file_size_bytes : Z;
  th_sha256 : Str;
  th_mime_type : option Str;
  th_width : option Z;
  th_height : option Z;
}.
Record AssetNormalization := {
  an_local_work_path : Str;
  an_file_size_bytes : Z;
  an_sha256 : Str;
  an_media_kind : SourceMediaKind.t;
  an_profile_version : option Str;
  an_mime_type : option Str;
  an_container : option Str;
  an_video_codec : option Str;
  an_audio_codec : option Str;
  an_width : option Z;
  an_height : option Z;
  an_duration_ms : option Z;
  an_bit_rate : option Z;
  an_thumbnail : option AssetThumbnailNormalization;
}.
Record IngestFinalization := { fin_media_id : Uuid }.
Inductive DuplicateDecisionKind := Accepted.
Record DuplicateDecisionData := {
  dd_version : Z;
  dd_kind : DuplicateDecisionKind;
  dd_media_id : Uuid;
}.

(** [IngestProbe] and [OpaqueIngestValue] are transparent wrappers of a value. *)
Record IngestSourceData := {
  src_url : option Str;
  src_page_url : option Str;
  src_page_title : option Str;
  src_selected_text : option Str;
  src_description : option Str;
  src_tags : list Str;
  src_requested_action : option RequestedAction.t;
  src_requested_publish_at : option Str;
  src_requested_post_caption : option Str;
  src_source_type : option Str;
  src_telegram_update_id : option Z;
  src_telegram_chat_id : option Z;
  src_telegram_message_id : option Z;
  src_telegram_user_id : option Z;
  src_telegram_file_id : option Str;
  src_telegram_file_unique_id : option Str;
  src_telegram_workspace_id : option Str;
  src_file_size : option Z;
  src_mime_type : option Str;
  src_file_name : option Str;
  src_media_kind : option SourceMediaKind.t;
  src_extensions : gmap Str Value;
}.

Record IngestData := {
  id_version : Z;
  id_source : IngestSourceData;
  id_inspection : option SourceInspection;
  id_download : option SourceDownload;
  id_probe : option Value;
  id_probed_media_kind : option SourceMediaKind.t;
  id_normalization : option AssetNormalization;
  id_finalization : option IngestFinalization;
  id_duplicate_decision : option DuplicateDecisionData;
  id_extensions : gmap Str Value;
}.
#[global] Instance eta_ingest_data : Eta IngestData := fun r =>
  Build_IngestData (id_version r) (id_source r) (id_inspection r) (id_download r) (id_probe r)
    (id_probed_media_kind r) (id_normalization r) (id_finalization r)
    (id_duplicate_decision r) (id_extensions r).
End Records.

(** ** Serde attributes *)

(** The derives of the stage records: structs, hence objects. *)
Class EnvelopeSerde {J : Json} {S : JsonShape} := {
  serde_inspection :: Serde SourceInspection;
  serde_source_download :: Serde SourceDownload;
  serde_normalization :: Serde AssetNormalization;
  serde_finalization :: Serde IngestFinalization;
  serde_decision :: Serde DuplicateDecisionData;
  inspection_is_object : ∀ x : SourceInspection, is_object (to_value x) = true;
  download_is_object : ∀ x : SourceDownload, is_object (to_value x) = true;
  normalization_is_object : ∀ x : AssetNormalization, is_object (to_value x) = true;
  finalization_is_object : ∀ x : IngestFinalization, is_object (to_value x) = true;
  decision_is_object : ∀ x : DuplicateDecisionData, is_object (to_value x) = true;
}.

Section Attributes.
Context {J : Json} {S : JsonShape}.

Definition de_string (v : Value) : result Str Str := ok_or (as_string v) (type_error "String" v).
Definition de_int (ty : string) (lo hi : Z) (v : Value) : result Str Z :=
  match as_int v with
  | Some z => if (lo <=? z) && (z <=? hi) then Ok z else Err (type_error ty v)
  | None => Err (type_error ty v)
  end.
Definition de_i64 : Value → result Str Z := de_int "i64" i64_min i64_max.
Definition de_u64 : Value → result Str Z := de_int "u64" 0 u64_max.
Definition de_u16 : Value → result Str Z := de_int "u16" 0 65535.

Fixpoint de_strings (l : list Value) : result Str (list Str) :=
  match l with
  | [] => Ok []
  | v :: l => s ← de_string v; ss ← de_strings l; Ok (s :: ss)
  end.
Definition de_tags (v : Value) : result Str (list Str) :=
  match as_array v with Some l => de_strings l | None => Err (type_error "Vec<String>" v) end.

(** [#[serde(rename_all = "snake_case")]]. *)
Definition media_kind_text (k : SourceMediaKind.t) : string :=
  match k with
  | SourceMediaKind.Video => "video" | SourceMediaKind.Image => "image"
  | SourceMediaKind.Audio => "audio" | SourceMediaKind.Animation => "animation"
  | SourceMediaKind.Unknown => "unknown"
  end.
Definition media_kind_table : list (string * SourceMediaKind.t) :=
  [("video", SourceMediaKind.Video); ("image", SourceMediaKind.Image);
   ("audio", SourceMediaKind.Audio); ("animation", SourceMediaKind.Animation);
   ("unknown", SourceMediaKind.Unknown)].
Definition ser_media_kind (k : SourceMediaKind.t) : Value := of_str (lit (media_kind_text k)).
Definition de_media_kind (v : Value) : result Str SourceMediaKind.t :=
  s ← de_string v; map_err (λ _, type_error "SourceMediaKind" v) (match_text media_kind_table s).
Definition ser_action (a : RequestedAction.t) : Value := of_str (as_str a).
Definition de_action (v : Value) : result Str RequestedAction.t :=
  s ← de_string v; map_err (λ _, type_error "RequestedAction" v) (try_from s).

(** [#[serde(default)]] on an [Option]: absent and [null] are [None]. *)
Definition opt_field {A} (de : Value → result Str A) (key : string) (m : gmap Str Value)
    : result Str (option A) :=
  match m !! lit key with
  | None => Ok None
  | Some v => if is_null v then Ok None else Some <$> de v
  end.
Definition default_field {A} (de : Value → result Str A) (d : A) (key : string)
    (m : gmap Str Value) : result Str A :=
  match m !! lit key with None => Ok d | Some v => de v end.
Definition required_field {A} (de : Value → result Str A) (key : string) (m : gmap Str Value)
    : result Str A :=
  match m !! lit key with
  | None => Err (lit "missing field `" ++ lit key ++ lit "`")
  | Some v => de v
  end.

(** The fields of a struct with [skip_serializing_if], by their names. *)
Definition fields : Type := list (string * option Value).
Definition render (t : fields) : gmap Str Value :=
  list_to_map (t ≫= λ kv, match kv.2 with Some v => [(lit kv.1, v)] | None => [] end).

Definition keys_of (names : list string) (k : Str) : bool := existsb (λ n, bool_decide (k = lit n)) names.

(** [#[serde(flatten)]]: the entries that no field takes. *)
Definition rest (names : list string) (m : gmap Str Value) : gmap Str Value :=
  filter (λ kv : Str * Value, keys_of names kv.1 = false) m.

(** *** [IngestSourceData] *)

Definition source_keys : list string :=
  ["url"; "page_url"; "page_title"; "selected_text"; "description"; "tags"; "requested_action";
   "requested_publish_at"; "requested_post_caption"; "source_type"; "telegram_update_id";
   "telegram_chat_id"; "telegram_message_id"; "telegram_user_id"; "telegram_file_id";
   "telegram_file_unique_id"; "telegram_workspace_id"; "file_size"; "mime_type"; "file_name";
   "media_kind"]%string.

Definition source_fields (s : IngestSourceData) : fields :=
  [("url", of_str <$> src_url s); ("page_url", of_str <$> src_page_url s);
   ("page_title", of_str <$> src_page_title s);
   ("selected_text", of_str <$> src_selected_text s);
   ("description", of_str <$> src_description s);
   ("tags", match src_tags s with [] => None | l => Some (of_array (of_str <$> l)) end);
   ("requested_action", ser_action <$> src_requested_action s);
   ("requested_publish_at", of_str <$> src_requested_publish_at s);
   ("requested_post_caption", of_str <$> src_requested_post_caption s);
   ("source_type", of_str <$> src_source_type s);
   ("telegram_update_id", of_int <$> src_telegram_update_id s);
   ("telegram_chat_id", of_int <$> src_telegram_chat_id s);
   ("telegram_message_id", of_int <$> src_telegram_message_id s);
   ("telegram_user_id", of_int <$> src_telegram_user_id s);
   ("telegram_file_id", of_str <$> src_telegram_file_id s);
   ("telegram_file_unique_id", of_str <$> src_telegram_file_unique_id s);
   ("telegram_workspace_id", of_str <$> src_telegram_workspace_id s);
   ("file_size", of_int <$> src_file_size s); ("mime_type", of_str <$> src_mime_type s);
   ("file_name", of_str <$> src_file_name s);
   ("media_kind", ser_media_kind <$> src_media_kind s)]%string.

(** Flattened entries are written after the fields and replace them. *)
Definition source_to_value (s : IngestSourceData) : Value :=
  of_object (src_extensions s ∪ render (source_fields s)).

Definition source_of_object (m : gmap Str Value) : result Str IngestSourceData :=
  url ← opt_field de_string "url" m;
  page_url ← opt_field de_string "page_url" m;
  page_title ← opt_field de_string "page_title" m;
  selected_text ← opt_field de_string "selected_text" m;
  description ← opt_field de_string "description" m;
  tags ← default_field de_tags [] "tags" m;
  action ← opt_field de_action "requested_action" m;
  publish_at ← opt_field de_string "requested_publish_at" m;
  post_caption ← opt_field de_string "requested_post_caption" m;
  source_type ← opt_field de_string "source_type" m;
  update_id ← opt_field de_i64 "telegram_update_id" m;
  chat_id ← opt_field de_i64 "telegram_chat_id" m;
  message_id ← opt_field de_i64 "telegram_message_id" m;
  user_id ← opt_field de_i64 "telegram_user_id" m;
  file_id ← opt_field de_string "telegram_file_id" m;
  file_unique_id ← opt_field de_string "telegram_file_unique_id" m;
  workspace_id ← opt_field de_string "telegram_workspace_id" m;
  file_size ← opt_field de_u64 "file_size" m;
  mime_type ← opt_field de_string "mime_type" m;
  file_name ← opt_field de_string "file_name" m;
  media_kind ← opt_field de_media_kind "media_kind" m;
  Ok {| src_url := url; src_page_url := page_url; src_page_title := page_title;
        src_selected_text := selected_text; src_description := description; src_tags := tags;
        src_requested_action := action; src_requested_publish_at := publish_at;
        src_requested_post_caption := post_caption; src_source_type := source_type;
        src_telegram_update_id := update_id; src_telegram_chat_id := chat_id;
        src_telegram_message_id := message_id; src_telegram_user_id := user_id;
        src_telegram_file_id := file_id; src_telegram_file_unique_id := file_unique_id;
        src_telegram_workspace_id := workspace_id; src_file_size := file_size;
        src_mime_type := mime_type; src_file_name := file_name; src_media_kind := media_kind;
        src_extensions := rest source_keys m |}.
Definition source_from_value (v : Value) : result Str IngestSourceData :=
  match as_object v with
  | Some m => source_of_object m
  | None => Err (type_error "IngestSourceData" v)
  end.

(** *** [IngestData] *)

Definition DUPLICATE_DECISION_MARKER_KEY : string := "_sooqa_duplicate_decision_v1".
Definition envelope_keys : list string :=
  ["version"; "source"; "inspection"; "download"; "probe"; "probed_media_kind"; "normalization";
   "finalization"; DUPLICATE_DECISION_MARKER_KEY]%string.
Definition is_envelope_key (k : Str) : bool := keys_of envelope_keys k.

Context {E : EnvelopeSerde}.

Definition envelope_fields (d : IngestData) : fields :=
  [("version", Some (of_int (id_version d))); ("source", Some (source_to_value (id_source d)));
   ("inspection", to_value <$> id_inspection d); ("download", to_value <$> id_download d);
   ("probe", id_probe d); ("probed_media_kind", ser_media_kind <$> id_probed_media_kind d);
   ("normalization", to_value <$> id_normalization d);
   ("finalization", to_value <$> id_finalization d);
   (DUPLICATE_DECISION_MARKER_KEY, to_value <$> id_duplicate_decision d)]%string.
Definition envelope_to_value (d : IngestData) : Value :=
  of_object (id_extensions d ∪ render (envelope_fields d)).

Definition envelope_from_value (v : Value) : result Str IngestData :=
  match as_object v with
  | None => Err (type_error "IngestData" v)
  | Some m =>
      version ← required_field de_u16 "version" m;
      source ← required_field source_from_value "source" m;
      inspection ← opt_field from_value "inspection" m;
      download ← opt_field from_value "download" m;
      probe ← opt_field Ok "probe" m;
      kind ← opt_field de_media_kind "probed_media_kind" m;
      normalization ← opt_field from_value "normalization" m;
      finalization ← opt_field from_value "finalization" m;
      decision ← opt_field from_value DUPLICATE_DECISION_MARKER_KEY m;
      Ok {| id_version := version; id_source := source; id_inspection := inspection;
            id_download := download; id_probe := probe; id_probed_media_kind := kind;
            id_normalization := normalization; id_finalization := finalization;
            id_duplicate_decision := decision; id_extensions := rest envelope_keys m |}
  end.
End Attributes.

(** ** Operations *)

Definition INGEST_DATA_VERSION : Z := 1.
Definition MAX_INGEST_DATA_BYTES : Z := 256 * 1024.
Definition DUPLICATE_DECISION_VERSION : Z := 1.

Inductive IngestDataError :=
| NotAnObject
| InvalidVersion
| UnsupportedVersion (v : Z)
| Malformed (text : Str)
| TooLarge (limit : Z).

Section Operations.
Context {J : Json} {S : JsonShape} {E : EnvelopeSerde}.

(** The keys of a [BTreeMap] in order. *)
Definition sorted_keys (m : gmap Str Value) : list Str :=
  order_by lex_le (map_to_list m).*1.

Definition validate_extensions (extensions : gmap Str Value) (scope : string)
    : result IngestDataError unit :=
  let reserved k := if decide (scope = "source"%string) then keys_of source_keys k
                    else is_envelope_key k in
  match List.find reserved (sorted_keys extensions) with
  | Some key =>
      Err (Malformed (lit scope ++ lit " extension uses reserved key `" ++ key ++ lit "`"))
  | None => Ok tt
  end.

Definition ingest_data_new (source : IngestSourceData) : IngestData :=
  {| id_version := INGEST_DATA_VERSION; id_source := source; id_inspection := None;
     id_download := None; id_probe := None; id_probed_media_kind := None;
     id_normalization := None; id_finalization := None; id_duplicate_decision := None;
     id_extensions := ∅ |}.

Definition validate_ref (d : IngestData) : result IngestDataError unit :=
  if negb (id_version d =? INGEST_DATA_VERSION) then Err (UnsupportedVersion (id_version d))
  else
    validate_extensions (src_extensions (id_source d)) "source";;
    validate_extensions (id_extensions d) "envelope";;
    match id_duplicate_decision d with
    | Some decision =>
        if negb (dd_version decision =? DUPLICATE_DECISION_VERSION)
        then Err (Malformed (lit "duplicate decision marker version " ++ show (dd_version decision)
                             ++ lit " is not supported"))
        else Ok tt
    | None => Ok tt
    end;;
    match id_probe d with
    | Some p => if is_object p then Ok tt else Err (Malformed (lit "probe must be a JSON object"))
    | None => Ok tt
    end.
Definition validate (d : IngestData) : result IngestDataError IngestData :=
  validate_ref d;; Ok d.

Definition encode (d : IngestData) : result IngestDataError Value :=
  validate_ref d;;
  let value := envelope_to_value d in
  if MAX_INGEST_DATA_BYTES <? value_len value then Err (TooLarge MAX_INGEST_DATA_BYTES)
  else Ok value.

Definition decode_optional_stage {A} (de : Value → result Str A) (key : string)
    (m : gmap Str Value) : result IngestDataError (option A) :=
  match m !! lit key with
  | None => Ok None
  | Some v => Some <$> map_err (λ e, Malformed (lit key ++ lit ": " ++ e)) (de v)
  end.

Definition decode_legacy_inspection (v : Value) (source : IngestSourceData)
    : result IngestDataError SourceInspection :=
  match from_value v with
  | Ok inspection => Ok inspection
  | Err error =>
      match as_object v with
      | Some object =>
          if contains (lit "missing field") error then
            Ok {| si_adapter := default (lit "legacy") (get_str "adapter" v);
                  si_source_url :=
                    default [] (match get_str "source_url" v with
                                | Some u => Some u
                                | None => src_url source
                                end);
                  si_resolved_url := get_str "resolved_url" v;
                  si_media_kind :=
                    default SourceMediaKind.Unknown
                      (k ← get "media_kind" v;
                       match de_media_kind k with Ok k => Some k | Err _ => None end);
                  si_mime_type := get_str "mime_type" v;
                  si_content_length_bytes := get "content_length_bytes" v ≫= as_u64;
                  si_title := get_str "title" v;
                  si_metadata := default (of_object ∅) (get "metadata" v) |}
          else Err (Malformed (lit "inspection: " ++ error))
      | None => Err (Malformed (lit "inspection: " ++ error))
      end
  end.

Definition stage_keys : list string :=
  ["inspection"; "download"; "probe"; "probed_media_kind"; "normalization"; "finalization";
   DUPLICATE_DECISION_MARKER_KEY]%string.
Definition remove_keys (names : list string) (m : gmap Str Value) : gmap Str Value :=
  foldr (λ k, delete (lit k)) m names.

(** The source object, the stage entries and whether the source was wrapped. *)
Definition legacy_parts (object : gmap Str Value)
    : result IngestDataError (gmap Str Value * gmap Str Value * bool) :=
  match object !! lit "source" with
  | Some source =>
      let stages := delete (lit "source") object in
      match as_object source, as_string source with
      | Some m, _ => Ok (m, stages, true)
      | None, Some url => Ok ({[lit "url" := of_str url]}, stages, true)
      | None, None =>
          Err (Malformed (lit "legacy source field must be an object or URL string"))
      end
  | None => Ok (remove_keys stage_keys object, object, false)
  end.

Definition decode_legacy (object : gmap Str Value) : result IngestDataError IngestData :=
  parts ← legacy_parts object;
  let source_value := parts.1.1 in let stages := parts.1.2 in let wrapped : bool := parts.2 in
  source ← map_err (λ e, Malformed (lit "legacy source: " ++ e)) (source_of_object source_value);
  inspection ← match stages !! lit "inspection" with
               | Some v => Some <$> decode_legacy_inspection v source
               | None => Ok None
               end;
  download ← decode_optional_stage from_value "download" stages;
  probe ← decode_optional_stage Ok "probe" stages;
  kind ← decode_optional_stage de_media_kind "probed_media_kind" stages;
  normalization ← decode_optional_stage from_value "normalization" stages;
  finalization ← decode_optional_stage from_value "finalization" stages;
  decision ← decode_optional_stage from_value DUPLICATE_DECISION_MARKER_KEY stages;
  validate (ingest_data_new source)
    <| id_inspection := inspection; id_download := download; id_probe := probe;
       id_probed_media_kind := kind; id_normalization := normalization;
       id_finalization := finalization; id_duplicate_decision := decision;
       id_extensions := (if wrapped then rest envelope_keys stages else ∅) |>.

Definition malformed_field (object : gmap Str Value) : Str :=
  match object !! lit "inspection", object !! lit DUPLICATE_DECISION_MARKER_KEY with
  | Some _, _ => lit " inspection"
  | None, Some _ => lit " duplicate decision"
  | None, None => []
  end.

Definition decode (v : Value) : result IngestDataError IngestData :=
  if MAX_INGEST_DATA_BYTES <? value_len v then Err (TooLarge MAX_INGEST_DATA_BYTES)
  else
    object ← ok_or (as_object v) NotAnObject;
    match object !! lit "version" with
    | Some version =>
        version ← ok_or (as_u64 version) InvalidVersion;
        if negb (version =? INGEST_DATA_VERSION) then Err (UnsupportedVersion version)
        else
          data ← map_err (λ e, Malformed (lit "versioned envelope" ++ malformed_field object
                                          ++ lit ": " ++ e)) (envelope_from_value v);
          validate data
    | None => decode_legacy object
    end.

Definition source_url (d : IngestData) : option Str := src_url (id_source d).
Definition data_media_kind (d : IngestData) : option SourceMediaKind.t :=
  match id_probed_media_kind d with
  | Some k => Some k
  | None =>
      match sd_media_kind <$> id_download d with
      | Some k => Some k
      | None => src_media_kind (id_source d)
      end
  end.
Definition data_mime_type (d : IngestData) : option Str :=
  match id_download d ≫= sd_mime_type with
  | Some m => Some m
  | None => src_mime_type (id_source d)
  end.

(** ** [IngestProbe] *)

Definition is_playable_video_stream (stream : Value) : bool :=
  bool_decide (get_str "kind" stream = Some (lit "video"))
  && negb (bool_decide (get "attached_picture" stream ≫= as_bool = Some true)).

Definition probe_streams (probe : Value) : option (list Value) := get "streams" probe ≫= as_array.

Definition contains_any (formats : list string) (s : Str) : bool :=
  existsb (λ f, contains (lit f) s) formats.

Definition probe_media_kind (probe : Value) : option SourceMediaKind.t :=
  let container := to_ascii_lowercase <$> get_str "container_format" probe in
  let streams := probe_streams probe in
  let codecs := omap (get_str "codec") (List.filter is_playable_video_stream (default [] streams)) in
  let in_container p := match container with Some c => p c | None => false end in
  if in_container (contains (lit "gif"))
     || existsb (λ c, contains (lit "gif") (to_ascii_lowercase c)) codecs
  then Some SourceMediaKind.Animation
  else if in_container (contains_any ["image2"; "png"; "jpeg"; "jpg"; "webp"; "avif"; "mjpeg"]%string)
          || existsb (λ c, existsb (λ f, eq_ignore_ascii_case c (lit f)) ["png"; "webp"]%string) codecs
          || match container with
             | None => existsb (λ c, eq_ignore_ascii_case c (lit "mjpeg")) codecs
             | Some _ => false
             end
  then Some SourceMediaKind.Image
  else if existsb is_playable_video_stream (default [] streams) then Some SourceMediaKind.Video
  else if existsb (λ s, bool_decide (get_str "kind" s = Some (lit "audio"))) (default [] streams)
  then Some SourceMediaKind.Audio
  else None.

Fixpoint first_codec (streams : list Value) : option Str :=
  match streams with
  | [] => None
  | s :: streams =>
      match (if is_playable_video_stream s then get_str "codec" s else None) with
      | Some c => Some c
      | None => first_codec streams
      end
  end.
Definition probe_image_format (probe : Value) : option Str :=
  match get_str "container_format" probe with
  | Some f => Some f
  | None => probe_streams probe ≫= first_codec
  end.
End Operations.
