(* ===== verification/EnvelopeSpec.v ===== *)
(** * EnvelopeSpec: what is written can be read back

    The JSON shape of the envelope is read back field by field; the reserved
    keys of the extensions are exactly what makes flattening reversible.
    Encoding and decoding round-trip, the upgrade of an old envelope is
    stable, and every decoded envelope is within its bounds.

    At the end the JSON interfaces are inhabited: the demonstration value type as
    JSON, encoders for the stage records, and a canonical and an unversioned
    envelope. *)

From S2P Require Import Prelude Text Enums Jobs Envelope Db Queue Instances.

Section Fields.
Context {J : Json} {S : JsonShape}.
Implicit Types (m : gmap Str Value) (t : fields).

Lemma render_cons k o t :
  render ((k, o) :: t) = match o with Some v => <[lit k := v]> (render t) | None => render t end.
Proof. unfold render. simpl. by destruct o. Qed.

Lemma keys_of_spec names k : keys_of names k = true ↔ ∃ n, n ∈ names ∧ k = lit n.
Proof.
  unfold keys_of. rewrite existsb_exists. setoid_rewrite bool_decide_eq_true.
  by setoid_rewrite list_elem_of_In.
Qed.

Lemma render_other t k : keys_of t.*1 k = false → render t !! k = None.
Proof.
  induction t as [|[n o] t IH]; [done|]. simpl. intros [Hn Ht]%orb_false_iff.
  apply bool_decide_eq_false in Hn. rewrite render_cons.
  destruct o; [rewrite lookup_insert_ne by done|]; auto.
Qed.

Lemma render_lookup t k o : NoDup t.*1 → (k, o) ∈ t → render t !! lit k = o.
Proof.
  induction t as [|[n p] t IH]; simpl; [intros _ []%elem_of_nil|].
  intros [Hn Hnd]%NoDup_cons Hin. rewrite render_cons. apply elem_of_cons in Hin as [Heq|Hin].
  - simplify_eq. destruct p as [v|]; [by rewrite lookup_insert_eq|].
    apply render_other. apply not_true_iff_false. intros (n' & Hin & Heq)%keys_of_spec.
    apply lit_inj in Heq as ->. done.
  - destruct p as [v|]; [|by auto]. rewrite lookup_insert_ne; [by auto|].
    intros Heq%lit_inj. subst. apply Hn. by apply list_elem_of_fmap_2 with (f := fst) in Hin.
Qed.

(** Extensions that leave the keys of the fields alone. *)
Definition free_of (names : list string) m : Prop := ∀ k, keys_of names k = true → m !! k = None.

Section Flattened.
Context (names : list string) (ext : gmap Str Value) (t : fields).
Context (Hfree : free_of names ext) (Hnames : t.*1 = names) (Hnd : NoDup names).

Lemma flattened_lookup k o : (k, o) ∈ t → (ext ∪ render t) !! lit k = o.
Proof.
  intros Hin. rewrite lookup_union_r; [apply render_lookup; [by rewrite Hnames|done]|].
  apply Hfree, keys_of_spec. exists k. split; [|done]. rewrite <-Hnames.
  by apply list_elem_of_fmap_2 with (f := fst) in Hin.
Qed.

Lemma flattened_rest : rest names (ext ∪ render t) = ext.
Proof.
  apply map_eq. intros k. unfold rest. rewrite map_lookup_filter.
  destruct (keys_of names k) eqn:Hk.
  - rewrite (Hfree _ Hk). destruct ((ext ∪ render t) !! k); simpl; [|done].
    by rewrite option_guard_False by (simpl; congruence).
  - rewrite lookup_union, render_other by (by rewrite Hnames).
    rewrite (right_id_L None _). destruct (ext !! k); simpl; [|done].
    by rewrite option_guard_True.
Qed.

Lemma opt_field_flattened {A} (de : Value → result Str A) (ser : A → Value) k (x : option A) :
  (k, ser <$> x) ∈ t →
  (∀ a, x = Some a → is_null (ser a) = false ∧ de (ser a) = Ok a) →
  opt_field de k (ext ∪ render t) = Ok x.
Proof.
  intros Hin Hx. unfold opt_field. rewrite (flattened_lookup _ _ Hin).
  destruct x as [a|]; simpl; [|done]. by destruct (Hx a eq_refl) as [-> ->].
Qed.

Lemma required_flattened {A} (de : Value → result Str A) k v (a : A) :
  (k, Some v) ∈ t → de v = Ok a → required_field de k (ext ∪ render t) = Ok a.
Proof. intros Hin Ha. unfold required_field. by rewrite (flattened_lookup _ _ Hin). Qed.
End Flattened.

(** ** Scalars *)

Lemma string_back s : is_null (of_str s) = false ∧ de_string (of_str s) = Ok s.
Proof.
  split; [by eapply is_null_string, as_string_of_str|].
  unfold de_string. by rewrite as_string_of_str.
Qed.

Lemma int_back ty lo hi z :
  lo ≤ z ≤ hi → i64_min ≤ lo → hi ≤ u64_max →
  is_null (of_int z) = false ∧ de_int ty lo hi (of_int z) = Ok z.
Proof.
  intros Hz Hlo Hhi. assert (as_int (of_int z) = Some z) as Hi by (apply as_int_of_int; lia).
  split; [by eapply is_null_int|]. unfold de_int. rewrite Hi.
  by rewrite (proj2 (Z.leb_le _ _)), (proj2 (Z.leb_le _ _)) by lia.
Qed.

Lemma media_kind_back k :
  is_null (ser_media_kind k) = false ∧ de_media_kind (ser_media_kind k) = Ok k.
Proof.
  unfold de_media_kind, ser_media_kind. destruct (string_back (lit (media_kind_text k))) as [Hn Hs].
  split; [done|]. rewrite Hs. by destruct k; vm_compute.
Qed.

Lemma action_back a : is_null (ser_action a) = false ∧ de_action (ser_action a) = Ok a.
Proof.
  unfold de_action, ser_action. destruct (string_back (as_str a)) as [Hn Hs].
  split; [done|]. rewrite Hs. unfold mbind, result_bind. by rewrite try_from_as_str.
Qed.

Lemma de_strings_back l : de_strings (of_str <$> l) = Ok l.
Proof.
  induction l as [|s l IH]; [done|]. rewrite fmap_cons. simpl. destruct (string_back s) as [_ Hs].
  rewrite Hs. simpl. by rewrite IH.
Qed.
End Fields.

(** ** The source object *)

(** The integers of the source fit their Rust types. *)
Definition fits (lo hi : Z) (o : option Z) : Prop := ∀ z, o = Some z → lo ≤ z ≤ hi.
Record source_typed {J : Json} (s : IngestSourceData) : Prop := {
  ty_update : fits i64_min i64_max (src_telegram_update_id s);
  ty_chat : fits i64_min i64_max (src_telegram_chat_id s);
  ty_message : fits i64_min i64_max (src_telegram_message_id s);
  ty_user : fits i64_min i64_max (src_telegram_user_id s);
  ty_size : fits 0 u64_max (src_file_size s);
}.

Section Source.
Context {J : Json} {S : JsonShape}.

Lemma source_keys_nodup : NoDup source_keys.
Proof. apply (bool_decide_unpack _). by vm_compute. Qed.
Lemma envelope_keys_nodup : NoDup envelope_keys.
Proof. apply (bool_decide_unpack _). by vm_compute. Qed.

Ltac in_fields := repeat first [apply elem_of_cons; left; reflexivity | apply elem_of_cons; right].

Lemma tags_back ext s :
  free_of source_keys ext →
  default_field de_tags [] "tags" (ext ∪ render (source_fields s)) = Ok (src_tags s).
Proof.
  intros Hf. unfold default_field.
  rewrite (flattened_lookup source_keys ext (source_fields s) Hf eq_refl source_keys_nodup "tags"
    (match src_tags s with [] => None | l => Some (of_array (of_str <$> l)) end)) by in_fields.
  destruct (src_tags s) as [|x l]; [done|]. unfold de_tags.
  by rewrite as_array_of_array, de_strings_back.
Qed.

Section SourceFields.
Context (s : IngestSourceData) (Hf : free_of source_keys (src_extensions s)).
Abbreviation flat := (src_extensions s ∪ render (source_fields s)).

Lemma read_source {A} (de : Value → result Str A) (ser : A → Value) k x :
  (k, ser <$> x) ∈ source_fields s →
  (∀ a, x = Some a → is_null (ser a) = false ∧ de (ser a) = Ok a) →
  opt_field de k flat = Ok x.
Proof. by apply (opt_field_flattened source_keys _ (source_fields s) Hf eq_refl source_keys_nodup). Qed.

Lemma read_string k x : (k, of_str <$> x) ∈ source_fields s → opt_field de_string k flat = Ok x.
Proof. intros Hin. apply (read_source _ of_str _ _ Hin). intros a _. apply string_back. Qed.
Lemma read_i64 k x :
  (k, of_int <$> x) ∈ source_fields s → fits i64_min i64_max x → opt_field de_i64 k flat = Ok x.
Proof.
  intros Hin Hx. apply (read_source _ of_int _ _ Hin). intros z Hz%Hx.
  apply int_back; unfold i64_min, i64_max, u64_max in *; lia.
Qed.
Lemma read_u64 k x :
  (k, of_int <$> x) ∈ source_fields s → fits 0 u64_max x → opt_field de_u64 k flat = Ok x.
Proof.
  intros Hin Hx. apply (read_source _ of_int _ _ Hin). intros z Hz%Hx.
  apply int_back; unfold i64_min, i64_max, u64_max in *; lia.
Qed.
Lemma read_action k x :
  (k, ser_action <$> x) ∈ source_fields s → opt_field de_action k flat = Ok x.
Proof. intros Hin. apply (read_source _ ser_action _ _ Hin). intros a _. apply action_back. Qed.
Lemma read_kind k x :
  (k, ser_media_kind <$> x) ∈ source_fields s → opt_field de_media_kind k flat = Ok x.
Proof. intros Hin. apply (read_source _ ser_media_kind _ _ Hin). intros a _. apply media_kind_back. Qed.
End SourceFields.

Lemma source_back s :
  source_typed s → free_of source_keys (src_extensions s) →
  source_from_value (source_to_value s) = Ok s.
Proof.
  intros [H1 H2 H3 H4 H5] Hf. unfold source_from_value, source_to_value.
  rewrite as_object_of_object. unfold source_of_object.
  repeat match goal with
  | |- context [opt_field de_string ?k _] => erewrite (read_string s Hf k) by in_fields
  | |- context [opt_field de_i64 ?k _] => erewrite (read_i64 s Hf k) by (in_fields || assumption)
  | |- context [opt_field de_u64 ?k _] => erewrite (read_u64 s Hf k) by (in_fields || assumption)
  | |- context [opt_field de_action ?k _] => erewrite (read_action s Hf k) by in_fields
  | |- context [opt_field de_media_kind ?k _] => erewrite (read_kind s Hf k) by in_fields
  end.
  rewrite (tags_back _ s Hf).
  rewrite (flattened_rest source_keys _ (source_fields s) Hf eq_refl).
  unfold mbind, result_bind. by destruct s.
Qed.
End Source.

(** ** The envelope *)

Section Envelope.
Context {J : Json} {S : JsonShape} {E : EnvelopeSerde}.
Implicit Types (d : IngestData) (m : gmap Str Value).

Lemma sorted_keys_elem m k : k ∈ sorted_keys m ↔ is_Some (m !! k).
Proof.
  unfold sorted_keys. rewrite elem_of_order_by, list_elem_of_fmap. split.
  - intros ([k' v] & -> & Hin). apply elem_of_map_to_list in Hin. eauto.
  - intros [v Hv]. exists (k, v). split; [done|]. by apply elem_of_map_to_list.
Qed.

Lemma validate_extensions_free m (scope : string) u :
  validate_extensions m scope = Ok u →
  free_of (if decide (scope = "source"%string) then source_keys else envelope_keys) m.
Proof.
  unfold validate_extensions. destruct (List.find _ _) as [k|] eqn:Hfind; [done|]. intros _ k Hk.
  destruct (m !! k) as [v|] eqn:Hv; [|done].
  assert (In k (sorted_keys m)) as Hin by (apply list_elem_of_In, sorted_keys_elem; eauto).
  eapply List.find_none in Hfind; [|exact Hin]. cbv beta in Hfind.
  unfold is_envelope_key in Hfind. case_decide; congruence.
Qed.

Lemma is_object_not_null v : is_object v = true → is_null v = false.
Proof. unfold is_object. destruct (as_object v) eqn:Hv; [|done]. intros _. by eapply is_null_object. Qed.

(** What [validate_ref] establishes. *)
Record valid_data d : Prop := {
  vd_version : id_version d = INGEST_DATA_VERSION;
  vd_source : free_of source_keys (src_extensions (id_source d));
  vd_envelope : free_of envelope_keys (id_extensions d);
  vd_decision : ∀ x, id_duplicate_decision d = Some x → dd_version x = DUPLICATE_DECISION_VERSION;
  vd_probe : ∀ p, id_probe d = Some p → is_object p = true;
}.

Lemma validate_ref_valid d u : validate_ref d = Ok u → valid_data d.
Proof.
  unfold validate_ref. case_match eqn:Hver; [done|]. unfold mbind, result_bind.
  destruct (validate_extensions _ "source") eqn:Hs; [|done].
  destruct (validate_extensions _ "envelope") eqn:He; [|done].
  apply validate_extensions_free in Hs, He. simpl in Hs, He.
  destruct (match id_duplicate_decision d with Some _ => _ | None => _ end) eqn:Hd; [|done].
  intros Hp. bool_norm. constructor; try done.
  - intros x Hx. rewrite Hx in Hd.
    destruct (dd_version x =? DUPLICATE_DECISION_VERSION) eqn:Hn; [|done]. by bool_norm.
  - intros p Hx. rewrite Hx in Hp. by destruct (is_object p).
Qed.

Section EnvelopeFields.
Context (d : IngestData) (Hv : valid_data d).
Abbreviation flat := (id_extensions d ∪ render (envelope_fields d)).
Ltac in_fields := repeat first [apply elem_of_cons; left; reflexivity | apply elem_of_cons; right].

Lemma read_envelope {A} (de : Value → result Str A) (ser : A → Value) k x :
  (k, ser <$> x) ∈ envelope_fields d →
  (∀ a, x = Some a → is_null (ser a) = false ∧ de (ser a) = Ok a) →
  opt_field de k flat = Ok x.
Proof.
  apply (opt_field_flattened envelope_keys _ (envelope_fields d)); [apply Hv|done|].
  apply envelope_keys_nodup.
Qed.

Lemma read_stage {A} {D : @Serde J A} k (x : option A) :
  (k, to_value <$> x) ∈ envelope_fields d → (∀ a : A, is_object (to_value a) = true) →
  opt_field from_value k flat = Ok x.
Proof.
  intros Hin Ho. apply (read_envelope _ to_value _ _ Hin). intros a _.
  split; [apply is_object_not_null, Ho|apply from_to_value].
Qed.

Lemma read_probe : opt_field Ok "probe" flat = Ok (id_probe d).
Proof.
  apply (read_envelope _ (λ v, v)); [|intros p Hp; split; [|done]].
  - rewrite option_fmap_id. in_fields.
  - by apply is_object_not_null, Hv.
Qed.

Lemma read_required {A} (de : Value → result Str A) k v a :
  (k, Some v) ∈ envelope_fields d → de v = Ok a → required_field de k flat = Ok a.
Proof.
  apply (required_flattened envelope_keys _ (envelope_fields d)); [apply Hv|done|].
  apply envelope_keys_nodup.
Qed.

Lemma envelope_back :
  source_typed (id_source d) → envelope_from_value (envelope_to_value d) = Ok d.
Proof.
  intros Ht. unfold envelope_from_value, envelope_to_value. rewrite as_object_of_object.
  rewrite (read_required de_u16 "version" (of_int (id_version d)) (id_version d));
    [|in_fields|apply int_back; rewrite ?(vd_version d Hv); unfold INGEST_DATA_VERSION, u64_max, i64_min; lia].
  rewrite (read_required source_from_value "source" (source_to_value (id_source d)) (id_source d));
    [|in_fields|apply source_back; [done|apply Hv]].
  rewrite (read_stage "inspection" (id_inspection d)), (read_stage "download" (id_download d)),
    read_probe, (read_stage "normalization" (id_normalization d)),
    (read_stage "finalization" (id_finalization d)),
    (read_stage DUPLICATE_DECISION_MARKER_KEY (id_duplicate_decision d))
    by (in_fields || apply E).
  rewrite (read_envelope de_media_kind ser_media_kind "probed_media_kind" (id_probed_media_kind d))
    by (in_fields || (intros; apply media_kind_back)).
  rewrite (flattened_rest envelope_keys _ (envelope_fields d) (vd_envelope d Hv) eq_refl).
  unfold mbind, result_bind. by destruct d.
Qed.

Lemma envelope_version :
  ∃ m, as_object (envelope_to_value d) = Some m ∧ m !! lit "version" = Some (of_int 1).
Proof.
  exists flat. unfold envelope_to_value. rewrite as_object_of_object. split; [done|].
  rewrite (flattened_lookup envelope_keys _ (envelope_fields d) (vd_envelope d Hv) eq_refl
    envelope_keys_nodup "version" (Some (of_int (id_version d)))) by in_fields.
  by rewrite (vd_version d Hv).
Qed.
End EnvelopeFields.

Lemma encode_valid d v : encode d = Ok v →
  valid_data d ∧ validate_ref d = Ok tt ∧ v = envelope_to_value d
  ∧ value_len v ≤ MAX_INGEST_DATA_BYTES.
Proof.
  unfold encode. unfold mbind, result_bind.
  destruct (validate_ref d) as [[]|] eqn:Hr; [|done]. case_match; [done|]. intros [= <-].
  bool_norm. split_and!; try done. by eapply validate_ref_valid.
Qed.

Lemma decode_encode d v : source_typed (id_source d) → encode d = Ok v → decode v = Ok d.
Proof.
  intros Ht (Hv & Hr & -> & Hlen)%encode_valid. unfold decode.
  rewrite (proj2 (Z.ltb_ge _ _) Hlen).
  destruct (envelope_version d Hv) as (m & Hm & Hver). rewrite Hm.
  unfold ok_or, mbind, result_bind. rewrite Hver. unfold as_u64.
  rewrite as_int_of_int by (unfold i64_min, u64_max; lia). simpl.
  rewrite (envelope_back d Hv Ht). simpl. unfold validate, mbind, result_bind. by rewrite Hr.
Qed.

(** ** Decoded data is valid *)

Lemma opt_field_fits ty lo hi k m x : opt_field (de_int ty lo hi) k m = Ok x → fits lo hi x.
Proof.
  unfold opt_field, de_int. intros Hx z ->. destruct (m !! lit k) as [v|]; [|done].
  destruct (is_null v); [done|]. destruct (as_int v) as [y|]; [|done].
  destruct (Z.leb_spec lo y), (Z.leb_spec y hi); simplify_eq/=. lia.
Qed.

Lemma source_of_object_typed m s : source_of_object m = Ok s → source_typed s.
Proof.
  unfold source_of_object. intros H. result_inv. simplify_eq.
  constructor; simpl; by eapply opt_field_fits.
Qed.

Lemma validate_ok d d' : validate d = Ok d' → d' = d ∧ validate_ref d = Ok tt.
Proof.
  unfold validate. intros H. result_inv. simplify_eq. split; [done|].
  by match goal with H : validate_ref _ = Ok ?x |- _ => destruct x end.
Qed.

Lemma decode_valid v d : decode v = Ok d →
  source_typed (id_source d) ∧ validate_ref d = Ok tt ∧ value_len v ≤ MAX_INGEST_DATA_BYTES.
Proof.
  unfold decode. case_match; [done|]. intros Hd. result_inv. bool_norm.
  case_match; result_inv; [case_match; [done|]; result_inv|].
  - match goal with H : validate _ = Ok _ |- _ => apply validate_ok in H as [-> ?] end.
    split_and!; try done.
    match goal with H : envelope_from_value _ = Ok _ |- _ => unfold envelope_from_value in H end.
    case_match; [|done]. result_inv. simplify_eq/=.
    match goal with H : required_field source_from_value _ _ = Ok _ |- _ =>
      unfold required_field, source_from_value in H end.
    repeat case_match; simplify_eq. by eapply source_of_object_typed.
  - match goal with H : decode_legacy _ = Ok _ |- _ => unfold decode_legacy in H end. result_inv.
    match goal with H : validate _ = Ok _ |- _ => apply validate_ok in H as [-> ?] end.
    split_and!; try done. simpl. by eapply source_of_object_typed.
Qed.

(** the durable envelope round-trips.  Whatever [encode] accepts to write,
    [decode] reads back as the very same data: no stage, source field or
    unknown extension is lost or reinterpreted. *)
Theorem envelope_round_trip d v :
  source_typed (id_source d) → encode d = Ok v → decode v = Ok d.
Proof. apply decode_encode. Qed.

(** reading upgrades.  Every envelope that [decode] accepts, canonical or
    from the unversioned schema, can be written again: [encode] either yields a
    canonical envelope that decodes to the same data, or reports that it has
    grown over the size limit; it never refuses the data for another reason. *)
Theorem decoded_envelope_can_be_saved v d :
  decode v = Ok d →
  (∃ v', encode d = Ok v' ∧ decode v' = Ok d)
  ∨ encode d = Err (TooLarge MAX_INGEST_DATA_BYTES).
Proof.
  intros (Ht & Hr & _)%decode_valid.
  destruct (encode d) as [v'|e] eqn:He.
  - left. exists v'. split; [done|]. by apply decode_encode.
  - right. unfold encode, mbind, result_bind in He. rewrite Hr in He. by case_match; simplify_eq.
Qed.
End Envelope.

Fixpoint demo_len (v : demo_value) : Z :=
  match v with
  | VText s => 2 + Z.of_nat (length s)
  | VArr l => 2 + (fix go l := match l with [] => 0 | v :: l => demo_len v + 1 + go l end) l
  | VObj l => 2 + (fix go l := match l with
                               | [] => 0
                               | (k, v) :: l => Z.of_nat (length k) + demo_len v + 4 + go l
                               end) l
  | _ => 8
  end.

Fixpoint demo_depth (v : demo_value) : nat :=
  match v with
  | VObj l => S ((fix go l := match l with
                              | [] => 0
                              | (_, v) :: l => Nat.max (demo_depth v) (go l)
                              end) l)
  | _ => 0
  end%nat.
Lemma demo_depth_entry l k v : (k, v) ∈ l → (demo_depth v < demo_depth (VObj l))%nat.
Proof.
  induction l as [|[k' v'] l IH]; [by intros ?%elem_of_nil|].
  intros [[= -> ->]|Hin]%elem_of_cons; simpl in *; [lia|]. specialize (IH Hin). lia.
Qed.

#[global] Instance demo_shape : JsonShape.
Proof.
  refine {| jnull := VNull : Value;
            of_object m := VObj (map_to_list m) : Value;
            as_object v := match (v : demo_value) with VObj l => Some (list_to_map l) | _ => None end;
            of_str s := VText s : Value;
            as_string v := match (v : demo_value) with VText s => Some s | _ => None end;
            of_array l := VArr l : Value;
            as_array v := match (v : demo_value) with VArr l => Some l | _ => None end;
            as_bool v := match (v : demo_value) with VBool b => Some b | _ => None end;
            of_int z := VNum z : Value;
            as_int v := match (v : demo_value) with VNum z => Some z | _ => None end;
            is_null v := match (v : demo_value) with VNull => true | _ => false end;
            value_len v := demo_len v;
            depth v := demo_depth v;
            type_error ty _ := lit "invalid type, expected " ++ lit ty |}; try done.
  - intros m. by rewrite list_to_map_to_list.
  - intros v m Hv. by destruct v.
  - intros v s Hv. by destruct v.
  - intros v z Hv. by destruct v.
  - intros v m k x Hv Hk. destruct v as [| | | | | | | | |l]; simplify_eq.
    by apply demo_depth_entry with k, elem_of_list_to_map_2.
Defined.

(** ** Stage records as one-entry objects *)

Definition enc_opt {A} (f : A → demo_value) (o : option A) : demo_value :=
  VArr (match o with Some x => [f x] | None => [] end).
Definition dec_opt {A} (f : demo_value → option A) (v : demo_value) : option (option A) :=
  match v with
  | VArr [] => Some None
  | VArr [x] => Some <$> f x
  | _ => None
  end.
Definition dec_text (v : demo_value) : option Str := match v with VText s => Some s | _ => None end.
Definition dec_num (v : demo_value) : option Z := match v with VNum z => Some z | _ => None end.
Definition enc_kind (k : SourceMediaKind.t) : demo_value := VText (lit (media_kind_text k)).
Definition dec_kind (v : demo_value) : option SourceMediaKind.t :=
  s ← dec_text v; match match_text media_kind_table s with Ok k => Some k | Err _ => None end.
Definition stage (l : list demo_value) : demo_value := VObj [(lit "fields", VArr l)].
Definition dec_stage {A} (f : list demo_value → option A) (v : demo_value) : result Str A :=
  match v with
  | VObj [(_, VArr l)] => ok_or (f l) (lit "missing field")
  | _ => Err (lit "invalid type")
  end.

Lemma dec_enc_opt {A} (f : A → demo_value) g (o : option A) :
  (∀ x, g (f x) = Some x) → dec_opt g (enc_opt f o) = Some o.
Proof. intros Hg. destruct o; simpl; [by rewrite Hg|done]. Qed.
Lemma dec_enc_kind k : dec_kind (enc_kind k) = Some k.
Proof. by destruct k; vm_compute. Qed.
#[local] Arguments enc_opt : simpl never.
#[local] Arguments dec_opt : simpl never.
#[local] Arguments enc_kind : simpl never.
#[local] Arguments dec_kind : simpl never.

Definition enc_thumbnail (x : AssetThumbnailNormalization) : demo_value :=
  VArr [VText (th_local_work_path x); VNum (th_file_size_bytes x); VText (th_sha256 x);
        enc_opt VText (th_mime_type x); enc_opt VNum (th_width x); enc_opt VNum (th_height x)].
Definition dec_thumbnail (v : demo_value) : option AssetThumbnailNormalization :=
  match v with
  | VArr [VText p; VNum n; VText h; m; w; t] =>
      m ← dec_opt dec_text m; w ← dec_opt dec_num w; t ← dec_opt dec_num t;
      Some {| th_local_work_path := p; th_file_size_bytes := n; th_sha256 := h;
              th_mime_type := m; th_width := w; th_height := t |}
  | _ => None
  end.
Lemma dec_enc_thumbnail x : dec_thumbnail (enc_thumbnail x) = Some x.
Proof. destruct x. simpl. by rewrite !dec_enc_opt. Qed.

#[global] Instance demo_envelope_serde : EnvelopeSerde.
Proof.
  unshelve refine {|
    serde_inspection := {|
      to_value x := stage [VText (si_adapter x); VText (si_source_url x);
        enc_opt VText (si_resolved_url x); enc_kind (si_media_kind x);
        enc_opt VText (si_mime_type x); enc_opt VNum (si_content_length_bytes x);
        enc_opt VText (si_title x); si_metadata x];
      from_value := dec_stage (λ l, match l with
        | [VText a; VText u; r; k; m; n; t; d] =>
            r ← dec_opt dec_text r; k ← dec_kind k; m ← dec_opt dec_text m;
            n ← dec_opt dec_num n; t ← dec_opt dec_text t;
            Some (Build_SourceInspection a u r k m n t d)
        | _ => None end) |};
    serde_source_download := {|
      to_value x := stage [VNum (sd_bytes x); enc_opt VText (sd_mime_type x);
        enc_kind (sd_media_kind x); enc_opt VText (sd_selected_format x)];
      from_value := dec_stage (λ l, match l with
        | [VNum b; m; k; f] =>
            m ← dec_opt dec_text m; k ← dec_kind k; f ← dec_opt dec_text f;
            Some (Build_SourceDownload b m k f)
        | _ => None end) |};
    serde_normalization := {|
      to_value x := stage [VText (an_local_work_path x); VNum (an_file_size_bytes x);
        VText (an_sha256 x); enc_kind (an_media_kind x); enc_opt VText (an_profile_version x);
        enc_opt VText (an_mime_type x); enc_opt VText (an_container x);
        enc_opt VText (an_video_codec x); enc_opt VText (an_audio_codec x);
        enc_opt VNum (an_width x); enc_opt VNum (an_height x); enc_opt VNum (an_duration_ms x);
        enc_opt VNum (an_bit_rate x); enc_opt enc_thumbnail (an_thumbnail x)];
      from_value := dec_stage (λ l, match l with
        | [VText p; VNum n; VText h; k; pv; m; c; vc; ac; w; t; d; b; th] =>
            k ← dec_kind k; pv ← dec_opt dec_text pv; m ← dec_opt dec_text m;
            c ← dec_opt dec_text c; vc ← dec_opt dec_text vc; ac ← dec_opt dec_text ac;
            w ← dec_opt dec_num w; t ← dec_opt dec_num t; d ← dec_opt dec_num d;
            b ← dec_opt dec_num b; th ← dec_opt dec_thumbnail th;
            Some (Build_AssetNormalization p n h k pv m c vc ac w t d b th)
        | _ => None end) |};
    serde_finalization := {|
      to_value x := stage [VOne (fin_media_id x)];
      from_value := dec_stage (λ l, match l with
        | [VOne a] => Some {| fin_media_id := a |} | _ => None end) |};
    serde_decision := {|
      to_value x := stage [VNum (dd_version x); VOne (dd_media_id x)];
      from_value := dec_stage (λ l, match l with
        | [VNum n; VOne a] => Some (Build_DuplicateDecisionData n Accepted a)
        | _ => None end) |} |}.
  all: try done.
  all: intros []; simpl; rewrite ?dec_enc_kind, ?dec_enc_opt by (done || apply dec_enc_thumbnail);
    try done.
  by destruct dd_kind.
Defined.

(** ** A canonical and an unversioned envelope *)

Definition demo_source : IngestSourceData :=
  {| src_url := Some (lit "https://example.org/cat.mp4"); src_page_url := None;
     src_page_title := Some (lit "cats"); src_selected_text := None; src_description := None;
     src_tags := [lit "cat"; lit "video"]; src_requested_action := Some RequestedAction.Queue;
     src_requested_publish_at := None; src_requested_post_caption := None;
     src_source_type := None; src_telegram_update_id := None; src_telegram_chat_id := Some (-100);
     src_telegram_message_id := None; src_telegram_user_id := None; src_telegram_file_id := None;
     src_telegram_file_unique_id := None; src_telegram_workspace_id := None;
     src_file_size := Some 1024; src_mime_type := None; src_file_name := None;
     src_media_kind := Some SourceMediaKind.Video;
     src_extensions := {[ lit "adapter_hint" := VNull : Value ]} |}.
Definition demo_data : IngestData :=
  (ingest_data_new demo_source)
    <| id_download := Some {| sd_bytes := 1024; sd_mime_type := Some (lit "video/mp4");
                              sd_media_kind := SourceMediaKind.Video;
                              sd_selected_format := None |};
       id_probe := Some (of_object {[ lit "container_format" := of_str (lit "mp4") ]});
       id_extensions := {[ lit "future" := of_int 7 ]} |>.

#[global] Instance source_download_eq_dec : EqDecision SourceDownload.
Proof. solve_decision. Defined.
#[global] Instance thumbnail_eq_dec : EqDecision AssetThumbnailNormalization.
Proof. solve_decision. Defined.
#[global] Instance normalization_eq_dec : EqDecision AssetNormalization.
Proof. solve_decision. Defined.
#[global] Instance finalization_eq_dec : EqDecision IngestFinalization.
Proof. solve_decision. Defined.
#[global] Instance decision_kind_eq_dec : EqDecision DuplicateDecisionKind.
Proof. solve_decision. Defined.
#[global] Instance decision_eq_dec : EqDecision DuplicateDecisionData.
Proof. solve_decision. Defined.
#[global] Instance inspection_eq_dec : EqDecision SourceInspection.
Proof. solve_decision. Defined.
#[global] Instance source_data_eq_dec : EqDecision IngestSourceData.
Proof. solve_decision. Defined.
#[global] Instance ingest_data_eq_dec : EqDecision IngestData.
Proof. solve_decision. Defined.

Lemma envelope_round_trip_witness :
  decode (envelope_to_value demo_data) = Ok demo_data.
Proof.
  apply (envelope_round_trip demo_data (envelope_to_value demo_data)).
  - constructor; intros z Hz; unfold demo_data, demo_source, ingest_data_new in Hz; simpl in Hz;
      try discriminate; injection Hz as <-; unfold i64_min, i64_max, u64_max; lia.
  - by_vm.
Defined.

(** The early schema kept the URL in [source] and had no version. *)
Definition demo_legacy : Value :=
  of_object {[ lit "source" := of_str (lit "https://example.org/dog.png");
               lit "note" := of_str (lit "kept") ]}.
Definition demo_upgraded : IngestData :=
  (ingest_data_new
     {| src_url := Some (lit "https://example.org/dog.png"); src_page_url := None;
        src_page_title := None; src_selected_text := None; src_description := None;
        src_tags := []; src_requested_action := None; src_requested_publish_at := None;
        src_requested_post_caption := None; src_source_type := None;
        src_telegram_update_id := None; src_telegram_chat_id := None;
        src_telegram_message_id := None; src_telegram_user_id := None;
        src_telegram_file_id := None; src_telegram_file_unique_id := None;
        src_telegram_workspace_id := None; src_file_size := None; src_mime_type := None;
        src_file_name := None; src_media_kind := None; src_extensions := ∅ |})
    <| id_extensions := {[ lit "note" := of_str (lit "kept") ]} |>.

Lemma decoded_envelope_can_be_saved_witness :
  ∃ v', encode demo_upgraded = Ok v' ∧ decode v' = Ok demo_upgraded.
Proof.
  destruct (decoded_envelope_can_be_saved demo_legacy demo_upgraded) as [Hok|Herr].
  - by_vm.
  - exact Hok.
  - exfalso. assert (is_ok (encode demo_upgraded) = true) as Ho by by_vm. by rewrite Herr in Ho.
Defined.
