(* ===== verification/Cleanup.v ===== *)
(** * Cleanup: workspace cleanup jobs

    [persistence/src/cleanup.rs], with the [INSERT .. ON CONFLICT DO NOTHING]
    that the cleanup, library and inbox repositories all use to add a job to an
    open transaction.  The workspace fence is an advisory lock and has no effect
    on the data. *)

From S2P Require Import Prelude Enums Jobs Db Queue.

(** [WORKSPACE_CLEANUP_RETENTION]: one day, in microseconds. *)
Definition WORKSPACE_CLEANUP_RETENTION : Z := 86400000000.

Section Cleanup.
Context {J : Json} {P : PayloadSerde}.

(** The priority column is not named by the statement and takes its default. *)
Definition insert_job_if_absent {E} (inj : SqlError → E) (fresh : Uuid) (j : NewJob)
    : txn Db E unit :=
  ck ← get_clock;
  db ← get_state;
  if dedupe_taken db (nj_dedupe_key j) then mret tt
  else
    fail_if (is_some (db_jobs db !! fresh)) (inj UniqueViolation);;
    write_job (inserted_job fresh (with_priority 0 j) (sql_now ck)).

Definition cleanup_key (ingest workspace : Uuid) : Str :=
  lit "ingest:" ++ uuid_to_string ingest ++ lit ":cleanup_workspace:v1:"
    ++ uuid_to_string workspace.

Definition enqueue_workspace_cleanup {E} (inj : SqlError → E) (fresh ingest workspace : Uuid)
    (run_at : Z) : txn Db E unit :=
  insert_job_if_absent inj fresh
    (with_dedupe_key (cleanup_key ingest workspace)
       (with_run_at run_at (new_cleanup_workspace ingest workspace))).

(** [for x in rows { f(x).await? }]. *)
Fixpoint for_each {E A} (f : A → txn Db E unit) (l : list A) : txn Db E unit :=
  match l with
  | [] => mret tt
  | x :: l => f x;; for_each f l
  end.

(** [gen i] is the identifier drawn for the job of ingest [i]. *)
Definition enqueue_workspace_cleanup_for_media {E} (inj : SqlError → E) (gen : Uuid → Uuid)
    (media : Uuid) (run_at : Z) : txn Db E unit :=
  db ← get_state;
  for_each (λ i, enqueue_workspace_cleanup inj (gen (ingest_id i)) (ingest_id i)
                   (ingest_workspace_id i) run_at)
    (select_rows (λ i, bool_decide (ingest_media_id i = Some media)
                       && negb (bool_decide (ingest_state i = IngestStatus.Cancelled)))
                 (db_ingests db)).

Definition protected_workspace_ids (db : Db) : list Uuid :=
  remove_dups (ingest_workspace_id <$> select_rows (λ _, true) (db_ingests db)).

Definition cleanup_resting (s : IngestStatus.t) : bool :=
  match s with
  | IngestStatus.Completed | IngestStatus.DuplicatePending | IngestStatus.FailedTerminal
  | IngestStatus.Cancelled | IngestStatus.Storing => true
  | _ => false
  end.

Definition cleanup_retention_eligible (db : Db) (status : JobStatus.t) (c : JobCommand) : bool :=
  match c with
  | CleanupWorkspace p =>
      match db_ingests db !! cleanup_ingest_id p with
      | None => false
      | Some i =>
          if negb (bool_decide (ingest_workspace_id i = cleanup_workspace_id p)) then true
          else if negb (bool_decide (status = JobStatus.Succeeded)) then false
          else if negb (cleanup_resting (ingest_state i)) then false
          else
            match ingest_media_id i with
            | None => true
            | Some m =>
                match db_media db !! m with
                | None => false
                | Some r =>
                    match media_storage_state r with
                    | MediaStorageState.Ready | MediaStorageState.Missing => true
                    | _ => false
                    end && is_none (media_local_work_path r)
                end
            end
      end
  | _ => false
  end.

Definition is_cleanup (c : JobCommand) : bool :=
  match c with CleanupWorkspace _ => true | _ => false end.

Definition settle_cleanup_txn (l : JobLease) (expected : JobCommand) (s : JobSettlement)
    : txn Db JobRepositoryError JobRow :=
  fail_if (negb (is_cleanup expected)) LeaseLost;;
  settle_queue_in_transaction l expected s.
Definition recover_cleanup_job (id : Uuid) (expected : JobCommand)
    : txn Db JobRepositoryError bool :=
  fail_if (negb (is_cleanup expected)) LeaseLost;;
  o ← recover_queue_only_in_transaction id expected;
  mret (is_some o).
End Cleanup.
