(* ===== verification/Proc.v ===== *)
(** * Proc: handlers as programs with calls, and the failures they report

    An [async] handler alternates pure code with calls whose answers it awaits: a
    repository method, a request to Telegram, a file operation.  [proc] is the tree of such
    a program: it is finished, or it asks and goes on with the answer.  Nothing is said
    here about who answers; a component gives its calls by an instance of [Interface], and
    the system model in which the handlers run interleaves their calls.

    [HandlerFailure] of [apps/worker/src/common.rs] is what a handler fails with; its
    fields decide which settlement the runner asks the queue for. *)

From S2P Require Import Prelude.

Record HandlerFailure := {
  hf_retryable : bool;
  hf_class : Str;
  hf_message : Str;
  hf_defer_until : option Z;
  hf_defer_without_consuming_attempt : bool;
  hf_retry_without_consuming_attempt : bool;
  hf_requires_storage_reconciliation : bool;
}.

Definition retryable (class message : Str) : HandlerFailure :=
  {| hf_retryable := true; hf_class := class; hf_message := message; hf_defer_until := None;
     hf_defer_without_consuming_attempt := false; hf_retry_without_consuming_attempt := false;
     hf_requires_storage_reconciliation := false |}.

Definition retryable_without_consuming_attempt (class message : Str) : HandlerFailure :=
  {| hf_retryable := true; hf_class := class; hf_message := message; hf_defer_until := None;
     hf_defer_without_consuming_attempt := false; hf_retry_without_consuming_attempt := true;
     hf_requires_storage_reconciliation := false |}.

Definition permanent (class message : Str) : HandlerFailure :=
  {| hf_retryable := false; hf_class := class; hf_message := message; hf_defer_until := None;
     hf_defer_without_consuming_attempt := false; hf_retry_without_consuming_attempt := false;
     hf_requires_storage_reconciliation := false |}.

Definition failure_defer (class message : Str) (until : Z) : HandlerFailure :=
  {| hf_retryable := true; hf_class := class; hf_message := message;
     hf_defer_until := Some until;
     hf_defer_without_consuming_attempt := false; hf_retry_without_consuming_attempt := false;
     hf_requires_storage_reconciliation := false |}.

Definition failure_defer_without_consuming_attempt (class message : Str) (until : Z)
    : HandlerFailure :=
  {| hf_retryable := true; hf_class := class; hf_message := message;
     hf_defer_until := Some until;
     hf_defer_without_consuming_attempt := true; hf_retry_without_consuming_attempt := false;
     hf_requires_storage_reconciliation := false |}.

Definition storage_reconciliation_required (message : Str) : HandlerFailure :=
  {| hf_retryable := false; hf_class := lit "storage_upload_unknown"; hf_message := message;
     hf_defer_until := None;
     hf_defer_without_consuming_attempt := false; hf_retry_without_consuming_attempt := false;
     hf_requires_storage_reconciliation := true |}.

(** [Display] of an error, derived from its attributes; only ever stored or shown. *)
Class Display (E : Type) := display : E → Str.

Class Interface := {
  call : Type;
  answer : call → Type;
}.

Inductive proc {If : Interface} (A : Type) : Type :=
| Done (a : A)
| Ask (c : call) (k : answer c → proc A).
Arguments Done {If A} a.
Arguments Ask {If A} c k.

Section Proc.
Context {If : Interface}.

Fixpoint proc_bind_go {A B} (f : A → proc B) (t : proc A) : proc B :=
  match t with
  | Done a => f a
  | Ask c k => Ask c (λ x, proc_bind_go f (k x))
  end.
#[global] Instance proc_ret : MRet proc := λ A, Done.
#[global] Instance proc_bind : MBind proc := λ A B, proc_bind_go.

(** Await one call. *)
Definition ask (c : call) : proc (answer c) := Ask c Done.

(** Rust's [?] on an awaited [Result]. *)
Definition try_bind {E A B} (t : proc (result E A)) (f : A → proc (result E B))
    : proc (result E B) :=
  t ≫= λ r, match r with Ok a => f a | Err e => Done (Err e) end.

(** [map_err] of an awaited result, and a check. *)
Definition mapped {E F A} (f : E → F) (t : proc (result E A)) : proc (result F A) :=
  r ← t; Done (map_err f r).
Definition check {E} (b : bool) (e : E) : proc (result E unit) := Done (if b then Ok tt else Err e).

(** Run a program against answers computed from a state: every call is answered by
    [reply].  Used to evaluate handlers on concrete states. *)
Fixpoint run_proc {S A} (reply : ∀ c, S → answer c * S) (t : proc A) (s : S) : A * S :=
  match t with
  | Done a => (a, s)
  | Ask c k => let '(x, s) := reply c s in run_proc reply (k x) s
  end.

Lemma run_proc_bind {S A B} (reply : ∀ c, S → answer c * S) (t : proc A) (f : A → proc B) s :
  run_proc reply (t ≫= f) s = let '(a, s) := run_proc reply t s in run_proc reply (f a) s.
Proof.
  revert s. induction t as [a|c k IH]; intros s; [done|]. simpl.
  destruct (reply c s) as [x s']. apply IH.
Qed.
End Proc.

Notation "x ←? t ; k" := (try_bind t (λ x, k))
  (at level 20, t at level 100, k at level 200, format "x  ←?  t ;  '/' k").

(** ** Protocols

    A protocol gives the phases a program goes through and, for every call, in which
    phases it is allowed and in which phase each answer leaves the program. *)
Section Protocol.
Context {If : Interface} {phase : Type}.
Context (rule : ∀ c : call, phase → (phase → answer c → Prop) → Prop).

Class RuleMono := rule_mono : ∀ c φ (go go' : phase → answer c → Prop),
  (∀ φ x, go φ x → go' φ x) → rule c φ go → rule c φ go'.

(** From phase [φ] the program [t] obeys the rules, and ends as [Q] says. *)
Fixpoint wp {A} (φ : phase) (t : proc A) (Q : phase → A → Prop) : Prop :=
  match t with
  | Done a => Q φ a
  | Ask c k => rule c φ (λ φ x, wp φ (k x) Q)
  end.

End Protocol.

Section Sequencing.
Context {If : Interface} {phase : Type}.
Context {rule : ∀ c : call, phase → (phase → answer c → Prop) → Prop} {Mono : RuleMono rule}.
Abbreviation wp := (wp rule).

Lemma wp_ask φ c (Q : phase → answer c → Prop) : rule c φ Q → wp φ (ask c) Q.
Proof. done. Qed.

Lemma wp_mono {A} φ (t : proc A) (Q Q' : phase → A → Prop) :
  (∀ φ a, Q φ a → Q' φ a) → wp φ t Q → wp φ t Q'.
Proof.
  intros HQ. revert φ. induction t as [a|c k IH]; intros φ; simpl; [auto|].
  apply (rule_mono rule). intros φ' x. apply IH.
Qed.

Lemma wp_bind {A B} φ (t : proc A) (f : A → proc B) Q :
  wp φ t (λ φ a, wp φ (f a) Q) → wp φ (t ≫= f) Q.
Proof.
  revert φ. induction t as [a|c k IH]; intros φ; [done|]. simpl. apply (rule_mono rule).
  intros φ' x. apply IH.
Qed.

(** [?]: an error ends the program. *)
Lemma wp_try {E A B} φ (t : proc (result E A)) (f : A → proc (result E B)) Q :
  wp φ t (λ φ r, match r with Ok a => wp φ (f a) Q | Err e => Q φ (Err e) end) →
  wp φ (try_bind t f) Q.
Proof. intros H. apply wp_bind. eapply wp_mono; [|exact H]. by intros φ' []. Qed.
End Sequencing.

(** ** Threads

    The handlers that are running, each with a description of the work it is doing.
    A thread is named by a number nothing else depends on. *)
Record thread {If : Interface} (W A : Type) := { th_work : W; th_proc : proc A }.
Arguments th_work {If W A} t.
Arguments th_proc {If W A} t.
Arguments Build_thread {If W A} th_work th_proc.
