(* ===== verification/Preview.v ===== *)
(** * Preview: bounded bitmap previews

    [media/src/image_normalize.rs], [encode_bounded_preview] and
    [validate_bounded_preview_for_mime], with [media/src/hashing.rs] and the hex
    decoding of [worker/src/identity.rs].  The [image] crate and SHA-256 are
    interfaces. *)

From S2P Require Import Prelude Enums Proc.

(** ** The [image] crate

    [thumbnail] scales an image down to fit within bounds and keeps at least
    one pixel a side; [decode] reads the bytes under an allocation limit. *)
Module ImageKind.
Inductive t := Jpeg | Png | Other.
#[global] Instance t_eq_dec : EqDecision t.
Proof. solve_decision. Defined.
End ImageKind.

Class ImageLib := {
  Picture : Type;
  picture_width : Picture → Z;
  picture_height : Picture → Z;
  guess_format : list Z → result Str (option ImageKind.t);
  decode_picture : Z → list Z → result Str Picture;
  thumbnail : Picture → Z → Z → Picture;
  to_rgb8 : Picture → Picture;
  encode_jpeg : Z → Picture → result Str (list Z);
  picture_size : ∀ p, 0 ≤ picture_width p ∧ 0 ≤ picture_height p;
  thumbnail_fits : ∀ p w h, 0 < picture_width p → 0 < picture_height p → 0 < w → 0 < h →
    0 < picture_width (thumbnail p w h) ≤ w ∧ 0 < picture_height (thumbnail p w h) ≤ h;
  jpeg_format : ∀ q p b, encode_jpeg q p = Ok b → guess_format b = Ok (Some ImageKind.Jpeg);
}.

Class Sha256 := {
  sha256_digest : list Z → list Z;
  sha256_length : ∀ b, length (sha256_digest b) = 32%nat;
  sha256_bytes_u8 : ∀ b, Forall (λ x, 0 ≤ x < 256) (sha256_digest b);
}.

(** ** Digests in hexadecimal *)

Definition hex_char (x : Z) : Z :=
  default 0 (nth_error (lit "0123456789abcdef") (Z.to_nat x)).
Definition hex_digest (bytes : list Z) : Str :=
  bytes ≫= λ b, [hex_char (Z.shiftr b 4); hex_char (Z.land b 15)].

Definition decode_hex_digit (c : Z) : option Z :=
  if (48 <=? c) && (c <=? 57) then Some (c - 48)
  else if (97 <=? c) && (c <=? 102) then Some (c - 97 + 10)
  else if (65 <=? c) && (c <=? 70) then Some (c - 65 + 10)
  else None.

(** [bytes.chunks_exact(2)]. *)
Fixpoint decode_hex_pairs (s : Str) : option (list Z) :=
  match s with
  | a :: b :: s =>
      high ← decode_hex_digit a;
      low ← decode_hex_digit b;
      rest ← decode_hex_pairs s;
      Some (Z.lor (Z.shiftl high 4) low :: rest)
  | _ => Some []
  end.
Definition decode_sha256 (value : Str) : result HandlerFailure (list Z) :=
  if negb (length (utf8 value) =? 64)%nat || negb (forallb (λ c, c <? 128) (utf8 value))
  then Err (permanent (lit "invalid_normalization")
              (lit "normalized SHA-256 digest must contain 64 hexadecimal characters"))
  else ok_or (decode_hex_pairs (utf8 value))
         (permanent (lit "invalid_normalization") (lit "normalized SHA-256 digest is not hexadecimal")).

Record FileDigest := { fd_bytes : Z; fd_sha256 : Str }.
Definition sha256_bytes `{Sha256} (bytes : list Z) : FileDigest :=
  {| fd_bytes := Z.of_nat (length bytes); fd_sha256 := hex_digest (sha256_digest bytes) |}.

(** ** Validation *)

Definition BOUNDED_PREVIEW_MAX_BYTES : Z := 128 * 1024.
Definition BOUNDED_PREVIEW_MAX_WIDTH : Z := 320.
Definition BOUNDED_PREVIEW_MAX_HEIGHT : Z := 320.

Inductive PreviewValidationError :=
| PreviewEmpty
| PreviewTooLarge (max : Z)
| PreviewDecode (e : Str)
| MimeMismatch (expected actual : Str)
| PreviewDimensions (width height max_width max_height : Z).

Definition format_mime (f : option ImageKind.t) : Str :=
  lit match f with
      | Some ImageKind.Jpeg => "image/jpeg"
      | Some ImageKind.Png => "image/png"
      | _ => "unknown"
      end.

Section Previews.
Context {I : ImageLib} {H : Sha256}.

Definition validate_bounded_preview_for_mime (bytes : list Z) (expected : option Str)
    : result PreviewValidationError (Z * Z) :=
  if is_empty bytes then Err PreviewEmpty
  else if BOUNDED_PREVIEW_MAX_BYTES <? Z.of_nat (length bytes)
  then Err (PreviewTooLarge BOUNDED_PREVIEW_MAX_BYTES)
  else
    format ← map_err PreviewDecode (guess_format bytes);
    match expected with
    | Some mime =>
        if bool_decide (format_mime format = mime) then Ok tt
        else Err (MimeMismatch mime (format_mime format))
    | None => Ok tt
    end;;
    p ← map_err PreviewDecode
          (decode_picture (BOUNDED_PREVIEW_MAX_WIDTH * BOUNDED_PREVIEW_MAX_HEIGHT * 4) bytes);
    if (picture_width p =? 0) || (picture_height p =? 0)
       || (BOUNDED_PREVIEW_MAX_WIDTH <? picture_width p)
       || (BOUNDED_PREVIEW_MAX_HEIGHT <? picture_height p)
    then Err (PreviewDimensions (picture_width p) (picture_height p)
                BOUNDED_PREVIEW_MAX_WIDTH BOUNDED_PREVIEW_MAX_HEIGHT)
    else Ok (picture_width p, picture_height p).
Definition validate_bounded_preview (bytes : list Z) := validate_bounded_preview_for_mime bytes None.

(** ** Encoding *)

Record BoundedImagePreview := {
  bp_bytes : list Z;
  bp_width : Z;
  bp_height : Z;
  bp_digest : FileDigest;
}.

Inductive PreviewEncodingError :=
| PreviewInvalidDimensions
| PreviewStillTooLarge (size max : Z)
| PreviewEncode (e : Str)
| PreviewInvalidEncoded (e : PreviewValidationError).

Definition fit_image (p : Picture) (max_width max_height : Z) : Picture :=
  if (picture_width p <=? max_width) && (picture_height p <=? max_height) then p
  else thumbnail p max_width max_height.

(** [(5..=85).rev().step_by(5).chain(once(1))]. *)
Definition qualities : list Z :=
  [85; 80; 75; 70; 65; 60; 55; 50; 45; 40; 35; 30; 25; 20; 15; 10; 5; 1].

(** One size: the first quality whose encoding is small enough ends the search,
    otherwise the largest candidate seen so far is returned. *)
Fixpoint try_qualities (rgb : Picture) (qs : list Z) (largest : Z)
    : result PreviewEncodingError BoundedImagePreview + Z :=
  match qs with
  | [] => inr largest
  | q :: qs =>
      match encode_jpeg q rgb with
      | Err e => inl (Err (PreviewEncode e))
      | Ok candidate =>
          let size := Z.of_nat (length candidate) in
          if size <=? BOUNDED_PREVIEW_MAX_BYTES then
            inl (wh ← map_err PreviewInvalidEncoded (validate_bounded_preview candidate);
                 Ok {| bp_bytes := candidate; bp_width := wh.1; bp_height := wh.2;
                       bp_digest := sha256_bytes candidate |})
          else try_qualities rgb qs (Z.max largest size)
      end
  end.

(** [x.saturating_mul(3).saturating_div(4).max(1)] on [u32]. *)
Definition shrink (x : Z) : Z := Z.max (Z.min (x * 3) u32_max / 4) 1.

(** The [loop] of [encode_bounded_preview]; [None] when [fuel] runs out. *)
Fixpoint preview_loop (fuel : nat) (preview : Picture) (largest : Z)
    : option (result PreviewEncodingError BoundedImagePreview) :=
  match fuel with
  | O => None
  | S fuel =>
      match try_qualities (to_rgb8 preview) qualities largest with
      | inl r => Some r
      | inr largest =>
          if (picture_width preview =? 1) && (picture_height preview =? 1) then
            Some (Err (PreviewStillTooLarge (Z.max largest (BOUNDED_PREVIEW_MAX_BYTES + 1))
                         BOUNDED_PREVIEW_MAX_BYTES))
          else
            preview_loop fuel
              (thumbnail preview (shrink (picture_width preview)) (shrink (picture_height preview)))
              largest
      end
  end.

(** Each round shrinks the image, which starts within the preview bounds. *)
Definition preview_fuel : nat :=
  Z.to_nat (BOUNDED_PREVIEW_MAX_WIDTH + BOUNDED_PREVIEW_MAX_HEIGHT).

Definition encode_bounded_preview (p : Picture)
    : option (result PreviewEncodingError BoundedImagePreview) :=
  if (picture_width p =? 0) || (picture_height p =? 0) then Some (Err PreviewInvalidDimensions)
  else preview_loop preview_fuel
         (fit_image p BOUNDED_PREVIEW_MAX_WIDTH BOUNDED_PREVIEW_MAX_HEIGHT) 0.
End Previews.
