(* ===== verification/PreviewSpec.v ===== *)
(** * PreviewSpec: previews end, fit, and name their bytes

    The encoding loop returns for every image, what it returns passes the
    validator within the published bounds, and a digest survives its trip
    through hexadecimal text. *)

From S2P Require Import Prelude Enums Preview.

(** ** Hexadecimal *)

Lemma hex_digit_round_trip x : 0 ≤ x < 16 → decode_hex_digit (hex_char x) = Some x.
Proof.
  intros Hx. assert (x ∈ seqZ 0 16) as Hin by (apply elem_of_seqZ; lia).
  clear Hx. revert x Hin. apply Forall_forall, (bool_decide_eq_true_1 _). reflexivity.
Qed.

Lemma hex_char_ascii x : 0 ≤ x < 16 → 0 ≤ hex_char x < 128.
Proof.
  intros Hx. assert (x ∈ seqZ 0 16) as Hin by (apply elem_of_seqZ; lia).
  clear Hx. revert x Hin. apply Forall_forall, (bool_decide_eq_true_1 _). reflexivity.
Qed.

Lemma nibbles b : 0 ≤ b < 256 →
  0 ≤ Z.shiftr b 4 < 16 ∧ 0 ≤ Z.land b 15 < 16 ∧ Z.lor (Z.shiftl (Z.shiftr b 4) 4) (Z.land b 15) = b.
Proof.
  intros Hb. assert (b ∈ seqZ 0 256) as Hin by (apply elem_of_seqZ; lia).
  clear Hb. revert b Hin. apply Forall_forall, (bool_decide_eq_true_1 _). vm_compute. reflexivity.
Qed.

Lemma utf8_ascii s : Forall (λ c, 0 ≤ c < 128) s → utf8 s = s.
Proof.
  induction 1 as [|c s Hc _ IH]; [done|].
  change (utf8 (c :: s)) with (utf8_char c ++ utf8 s). rewrite IH.
  unfold utf8_char. destruct (Z.ltb_spec c 128); [done|lia].
Qed.

Lemma hex_digest_cons x b :
  hex_digest (x :: b) = hex_char (Z.shiftr x 4) :: hex_char (Z.land x 15) :: hex_digest b.
Proof. done. Qed.

Lemma hex_digest_ascii b :
  Forall (λ x, 0 ≤ x < 256) b → Forall (λ c, 0 ≤ c < 128) (hex_digest b).
Proof.
  induction 1 as [|x b Hx _ IH]; [constructor|]. rewrite hex_digest_cons.
  destruct (nibbles x Hx) as (Hh & Hl & _). repeat constructor; [apply hex_char_ascii..|]; auto.
Qed.

Lemma decode_hex_digest b :
  Forall (λ x, 0 ≤ x < 256) b → decode_hex_pairs (hex_digest b) = Some b.
Proof.
  induction 1 as [|x b Hx _ IH]; [done|]. rewrite hex_digest_cons. simpl.
  destruct (nibbles x Hx) as (Hh & Hl & Hx').
  by rewrite !hex_digit_round_trip, IH; simpl; [rewrite Hx'|..].
Qed.

Lemma length_hex_digest b : length (hex_digest b) = (2 * length b)%nat.
Proof. induction b as [|x b IH]; [done|]. rewrite hex_digest_cons. simpl. lia. Qed.

Lemma decode_sha256_hex b :
  Forall (λ x, 0 ≤ x < 256) b → length b = 32%nat → decode_sha256 (hex_digest b) = Ok b.
Proof.
  intros Hb Hl. unfold decode_sha256. pose proof (hex_digest_ascii b Hb) as Ha.
  rewrite (utf8_ascii _ Ha), length_hex_digest, Hl, (decode_hex_digest b Hb). simpl.
  replace (forallb _ _) with true; [done|]. symmetry. apply forallb_forall.
  intros c Hc. eapply List.Forall_forall in Ha; [|exact Hc]. apply Z.ltb_lt. lia.
Qed.

(** ** Bounds *)

Section Previews.
Context {I : ImageLib} {H : Sha256}.

Lemma validated_bounds bytes mime w h :
  validate_bounded_preview_for_mime bytes mime = Ok (w, h) →
  bytes ≠ [] ∧ Z.of_nat (length bytes) ≤ BOUNDED_PREVIEW_MAX_BYTES
  ∧ 0 < w ≤ BOUNDED_PREVIEW_MAX_WIDTH ∧ 0 < h ≤ BOUNDED_PREVIEW_MAX_HEIGHT.
Proof.
  unfold validate_bounded_preview_for_mime. destruct bytes as [|b bytes]; [done|]. cbn [is_empty].
  destruct (Z.ltb_spec BOUNDED_PREVIEW_MAX_BYTES (Z.of_nat (length (b :: bytes)))); [done|].
  destruct (guess_format _) as [f|]; simpl; [|done].
  destruct (match mime with Some _ => _ | None => _ end); simpl; [|done].
  destruct (decode_picture _ _) as [p|]; simpl; [|done]. pose proof (picture_size p).
  destruct (_ || _) eqn:Hb; [done|]. intros [= <- <-]. bool_norm. split_and!; try done; lia.
Qed.

(** A JPEG that validates without a declared type validates as [image/jpeg]. *)
Lemma validate_as_jpeg bytes w h :
  guess_format bytes = Ok (Some ImageKind.Jpeg) →
  validate_bounded_preview bytes = Ok (w, h) →
  validate_bounded_preview_for_mime bytes (Some (lit "image/jpeg")) = Ok (w, h).
Proof.
  intros Hf. unfold validate_bounded_preview, validate_bounded_preview_for_mime.
  destruct (is_empty bytes); [done|]. destruct (_ <? _); [done|]. by rewrite Hf.
Qed.

(** What the encoder returns: small bytes, bounds, digest, and a JPEG. *)
Record preview_ok (p : BoundedImagePreview) : Prop := {
  po_bytes : bp_bytes p ≠ [] ∧ Z.of_nat (length (bp_bytes p)) ≤ BOUNDED_PREVIEW_MAX_BYTES;
  po_width : 0 < bp_width p ≤ BOUNDED_PREVIEW_MAX_WIDTH;
  po_height : 0 < bp_height p ≤ BOUNDED_PREVIEW_MAX_HEIGHT;
  po_digest : bp_digest p = sha256_bytes (bp_bytes p);
  po_valid : validate_bounded_preview_for_mime (bp_bytes p) (Some (lit "image/jpeg"))
             = Ok (bp_width p, bp_height p);
}.

Lemma try_qualities_ok rgb qs largest p :
  try_qualities rgb qs largest = inl (Ok p) → preview_ok p.
Proof.
  revert largest. induction qs as [|q qs IH]; intros largest; simpl; [done|].
  destruct (encode_jpeg q rgb) as [c|] eqn:He; [|done].
  destruct (Z.leb_spec (Z.of_nat (length c)) BOUNDED_PREVIEW_MAX_BYTES); [|by apply IH].
  destruct (validate_bounded_preview c) as [[w h]|] eqn:Hv; simpl; [|done].
  intros [= <-]. pose proof (validated_bounds _ _ _ _ Hv) as (? & ? & ? & ?).
  constructor; simpl; try done. apply validate_as_jpeg; [by eapply jpeg_format|done].
Qed.

Lemma preview_loop_ok fuel img largest p :
  preview_loop fuel img largest = Some (Ok p) → preview_ok p.
Proof.
  revert img largest. induction fuel as [|fuel IH]; intros img largest; cbn [preview_loop]; [done|].
  destruct (try_qualities (to_rgb8 img) qualities largest) as [r|l] eqn:Hq; [intros [= ->]; by eapply try_qualities_ok|].
  case_match; [done|]. apply IH.
Qed.

(** Only the entry check reports invalid dimensions. *)
Lemma try_qualities_error rgb qs largest :
  try_qualities rgb qs largest ≠ inl (Err PreviewInvalidDimensions).
Proof.
  revert largest. induction qs as [|q qs IH]; intros largest; simpl; [done|].
  destruct (encode_jpeg _ _) as [c|]; [|done]. destruct (_ <=? _); [|apply IH].
  by destruct (validate_bounded_preview c) as [[]|].
Qed.
Lemma preview_loop_error fuel img largest :
  preview_loop fuel img largest ≠ Some (Err PreviewInvalidDimensions).
Proof.
  revert img largest. induction fuel as [|fuel IH]; intros img largest; cbn [preview_loop]; [done|].
  destruct (try_qualities (to_rgb8 img) qualities largest) as [r|l] eqn:Hq; [|case_match; [done|apply IH]].
  intros [= ->]. by apply try_qualities_error in Hq.
Qed.

(** ** Termination *)

Lemma shrink_smaller x : 1 < x ≤ u32_max → 0 < shrink x < x.
Proof.
  intros Hx. unfold shrink.
  assert (Z.min (x * 3) u32_max / 4 < x) by (apply Z.div_lt_upper_bound; lia). lia.
Qed.
Lemma shrink_one : shrink 1 = 1.
Proof. done. Qed.

Lemma preview_loop_total fuel img largest :
  0 < picture_width img ≤ u32_max → 0 < picture_height img ≤ u32_max →
  picture_width img + picture_height img ≤ Z.of_nat fuel →
  ∃ r, preview_loop fuel img largest = Some r.
Proof.
  revert img largest. induction fuel as [|fuel IH]; intros img largest Hw Hh Hf; cbn [preview_loop]; [lia|].
  destruct (try_qualities (to_rgb8 img) qualities largest) as [r|l]; [eauto|].
  destruct ((picture_width img =? 1) && (picture_height img =? 1)) eqn:Hone; [eauto|].
  assert (0 < shrink (picture_width img) ≤ picture_width img) as Hsw.
  { destruct (decide (picture_width img = 1)) as [->|]; [rewrite shrink_one; lia|].
    pose proof (shrink_smaller (picture_width img)). lia. }
  assert (0 < shrink (picture_height img) ≤ picture_height img) as Hsh.
  { destruct (decide (picture_height img = 1)) as [->|]; [rewrite shrink_one; lia|].
    pose proof (shrink_smaller (picture_height img)). lia. }
  destruct (thumbnail_fits img (shrink (picture_width img)) (shrink (picture_height img)))
    as [Htw Hth]; [lia..|].
  apply IH; [lia..|].
  assert (shrink (picture_width img) < picture_width img
          ∨ shrink (picture_height img) < picture_height img); [|lia].
  apply andb_false_iff in Hone as [?%Z.eqb_neq|?%Z.eqb_neq]; [left|right]; apply shrink_smaller; lia.
Qed.

Lemma fit_image_fits img :
  0 < picture_width img → 0 < picture_height img →
  let p := fit_image img BOUNDED_PREVIEW_MAX_WIDTH BOUNDED_PREVIEW_MAX_HEIGHT in
  0 < picture_width p ≤ BOUNDED_PREVIEW_MAX_WIDTH
  ∧ 0 < picture_height p ≤ BOUNDED_PREVIEW_MAX_HEIGHT.
Proof.
  intros Hw Hh. unfold fit_image. destruct (_ && _) eqn:Hb; [bool_norm; lia|].
  by apply thumbnail_fits.
Qed.

Lemma encoded_preview_ok img p :
  encode_bounded_preview img = Some (Ok p) →
  preview_ok p ∧ decode_sha256 (fd_sha256 (bp_digest p)) = Ok (sha256_digest (bp_bytes p)).
Proof.
  unfold encode_bounded_preview. destruct (_ || _); [done|]. intros Hr%preview_loop_ok.
  split; [done|]. rewrite (po_digest _ Hr). simpl.
  apply decode_sha256_hex; [apply sha256_bytes_u8|apply sha256_length].
Qed.

(** Encoding a preview ends for every image: the loop shrinks the image
    until a JPEG of at most 128 KiB is found or one pixel remains, so the model
    never runs out of rounds; a preview it returns is at most 320 by 320, is
    accepted by the validator as [image/jpeg] with those dimensions, and its hex
    digest decodes to the SHA-256 of its bytes. *)
Theorem bounded_preview_terminates img :
  ∃ r, encode_bounded_preview img = Some r ∧
    (∀ p, r = Ok p → preview_ok p ∧ decode_sha256 (fd_sha256 (bp_digest p))
                                    = Ok (sha256_digest (bp_bytes p)))
    ∧ (r = Err PreviewInvalidDimensions ↔ picture_width img = 0 ∨ picture_height img = 0).
Proof.
  unfold encode_bounded_preview. pose proof (picture_size img).
  destruct (_ || _) eqn:Hz.
  { eexists. split_and!; [done|done|]. split; [|done]. intros _.
    by apply orb_true_iff in Hz as [?%Z.eqb_eq|?%Z.eqb_eq]; auto. }
  bool_norm. destruct (fit_image_fits img) as [Hw Hh]; [lia..|].
  destruct (preview_loop_total preview_fuel
    (fit_image img BOUNDED_PREVIEW_MAX_WIDTH BOUNDED_PREVIEW_MAX_HEIGHT) 0) as [r Hr].
  1-3: unfold preview_fuel, u32_max, BOUNDED_PREVIEW_MAX_WIDTH, BOUNDED_PREVIEW_MAX_HEIGHT in *; lia.
  exists r. split_and!; [done| |].
  - intros p ->. eapply (encoded_preview_ok img). unfold encode_bounded_preview.
    destruct (Z.eqb_spec (picture_width img) 0), (Z.eqb_spec (picture_height img) 0); done.
  - split; [|lia]. intros ->. by destruct (preview_loop_error _ _ _ Hr).
Qed.
End Previews.
