(* ===== verification/VideoSequence.v ===== *)
(** * VideoSequence: sequence fingerprints

    [media/src/video_sequence.rs]: the timestamp grid, the incremental builder,
    the binary codec and the search tokens of a fingerprint.  The features
    computed in [f64] (perceptual hash, colour summary, information score) are
    an interface; the integer ones are written out. *)

From S2P Require Import Prelude Preview.

Definition VIDEO_SEQUENCE_MAGIC : list Z := [83; 81; 86; 83].
Definition VIDEO_SEQUENCE_CODEC_V1 : Z := 1.
Definition VIDEO_SEQUENCE_BASE_INTERVAL_MS : Z := 500.
Definition VIDEO_SEQUENCE_MAX_SAMPLES : Z := 2048.
Definition VIDEO_SEQUENCE_MAX_ANCHORS : nat := 128.
Definition VIDEO_SEQUENCE_MAX_TOKENS : nat := 1024.
Definition VIDEO_SEQUENCE_INFO_THRESHOLD_BPS : Z := 1000.
Definition MAX_SCORE_BPS : Z := 10000.
Definition HEADER_BYTES : Z := 24.
Definition SAMPLE_BYTES : Z := 23.
Definition MAX_ENCODED_BYTES : Z := HEADER_BYTES + VIDEO_SEQUENCE_MAX_SAMPLES * SAMPLE_BYTES.

(** The one algorithm, [FingerprintVersion::VideoSequenceV1]. *)
Inductive FingerprintVersion := VideoSequenceV1.
#[global] Instance FingerprintVersion_eq_dec : EqDecision FingerprintVersion.
Proof. solve_decision. Defined.
Definition version_str (v : FingerprintVersion) : Str :=
  match v with VideoSequenceV1 => lit "video_sequence_v1" end.

Record VideoSequenceSample := {
  vs_phash : Z;
  vs_dhash : Z;
  vs_mean_luma : Z;
  vs_mean_chroma_u : Z;
  vs_mean_chroma_v : Z;
  vs_information_bps : Z;
  vs_transition_bps : Z;
}.
Record VideoSequenceFingerprint := {
  fp_version : FingerprintVersion;
  fp_duration_ms : Z;
  fp_interval_ms : Z;
  fp_samples : list VideoSequenceSample;
}.
#[global] Instance VideoSequenceSample_eq_dec : EqDecision VideoSequenceSample.
Proof. solve_decision. Defined.
#[global] Instance VideoSequenceFingerprint_eq_dec : EqDecision VideoSequenceFingerprint.
Proof. solve_decision. Defined.

Inductive VideoSequenceError :=
| InvalidDuration
| InvalidInterval
| InvalidSampleCount (n : Z)
| InvalidTimestampGrid
| UnsupportedAlgorithm (v : FingerprintVersion)
| EncodedTooLarge (max : Z)
| Truncated
| InvalidMagic
| UnsupportedCodecVersion (v : Z)
| InvalidReservedHeader
| TrailingBytes
| InvalidInformationScore (v : Z)
| InvalidTransitionScore (v : Z)
| InvalidFirstTransition (v : Z).

Abbreviation vresult A := (result VideoSequenceError A).

(** ** The timestamp grid *)

(** [u64::div_ceil]. *)
Definition div_ceil (a b : Z) : Z := (a + b - 1) / b.

Definition grid_interval (duration : Z) : Z :=
  Z.max VIDEO_SEQUENCE_BASE_INTERVAL_MS (div_ceil duration VIDEO_SEQUENCE_MAX_SAMPLES).

(** [while timestamp < duration_ms && timestamps.len() < MAX_SAMPLES]: [room] is
    the number of timestamps still allowed, and the addition is [checked_add]. *)
Fixpoint timestamps_from (room : nat) (duration interval timestamp : Z) : list Z :=
  match room with
  | O => []
  | S room =>
      if timestamp <? duration then
        timestamp :: (if timestamp + interval <=? u64_max
                      then timestamps_from room duration interval (timestamp + interval) else [])
      else []
  end.
Definition select_video_sequence_timestamps (duration : Z) : list Z :=
  if duration =? 0 then []
  else timestamps_from (Z.to_nat VIDEO_SEQUENCE_MAX_SAMPLES) duration (grid_interval duration) 0.

Definition video_sequence_interval_ms (duration : Z) : option Z :=
  if duration =? 0 then None
  else let interval := grid_interval duration in
       if interval <=? u32_max then Some interval else None.

(** ** Validation *)

Definition validate_grid (duration interval count : Z) : vresult unit :=
  if duration =? 0 then Err InvalidDuration
  else if interval =? 0 then Err InvalidInterval
  else
    let expected := grid_interval duration in
    if negb (interval =? expected) then Err InvalidTimestampGrid
    else if (count =? 0) || (VIDEO_SEQUENCE_MAX_SAMPLES <? count) then Err (InvalidSampleCount count)
    else if negb (count =? div_ceil duration expected) then Err InvalidTimestampGrid
    else if u64_max <? interval * (count - 1) then Err InvalidTimestampGrid
    else if duration <=? interval * (count - 1) then Err InvalidTimestampGrid
    else Ok tt.

Fixpoint validate_scores (samples : list VideoSequenceSample) : vresult unit :=
  match samples with
  | [] => Ok tt
  | s :: samples =>
      if MAX_SCORE_BPS <? vs_information_bps s
      then Err (InvalidInformationScore (vs_information_bps s))
      else if MAX_SCORE_BPS <? vs_transition_bps s
      then Err (InvalidTransitionScore (vs_transition_bps s))
      else validate_scores samples
  end.
Definition validate_samples (samples : list VideoSequenceSample) : vresult unit :=
  match samples with
  | s :: _ =>
      if negb (vs_transition_bps s =? 0) then Err (InvalidFirstTransition (vs_transition_bps s))
      else validate_scores samples
  | [] => Ok tt
  end.

Definition sample_count (samples : list VideoSequenceSample) : Z := Z.of_nat (length samples).

Definition fingerprint_new (duration interval : Z) (samples : list VideoSequenceSample)
    : vresult VideoSequenceFingerprint :=
  validate_grid duration interval (sample_count samples);;
  validate_samples samples;;
  Ok {| fp_version := VideoSequenceV1; fp_duration_ms := duration; fp_interval_ms := interval;
        fp_samples := samples |}.

Definition sample_timestamp_ms (f : VideoSequenceFingerprint) (index : nat) : option Z :=
  if (length (fp_samples f) <=? index)%nat then None
  else Some (fp_interval_ms f * Z.of_nat index).

(** ** Codec *)

(** [to_le_bytes] and [from_le_bytes]. *)
Fixpoint le_bytes (n : nat) (z : Z) : list Z :=
  match n with O => [] | S n => z mod 256 :: le_bytes n (z / 256) end.
Definition from_le (bytes : list Z) : Z := foldr (λ b acc, b + 256 * acc) 0 bytes.

(** [as u8] and [as i8]. *)
Definition as_u8 (z : Z) : Z := z mod 256.
Definition as_i8 (z : Z) : Z := if z <? 128 then z else z - 256.

Definition encode_sample (s : VideoSequenceSample) : list Z :=
  le_bytes 8 (vs_phash s) ++ le_bytes 8 (vs_dhash s)
  ++ [vs_mean_luma s; as_u8 (vs_mean_chroma_u s); as_u8 (vs_mean_chroma_v s)]
  ++ le_bytes 2 (vs_information_bps s) ++ le_bytes 2 (vs_transition_bps s).

(** The header and the samples, in the order they are written. *)
Definition encoded_parts (count duration interval : Z) (samples : list VideoSequenceSample) : list Z :=
  VIDEO_SEQUENCE_MAGIC ++ le_bytes 2 VIDEO_SEQUENCE_CODEC_V1 ++ le_bytes 2 count
  ++ le_bytes 8 duration ++ le_bytes 4 interval ++ le_bytes 4 0 ++ (samples ≫= encode_sample).

Definition encode_fingerprint (f : VideoSequenceFingerprint) : vresult (list Z) :=
  if negb (bool_decide (fp_version f = VideoSequenceV1)) then Err (UnsupportedAlgorithm (fp_version f))
  else
    validate_grid (fp_duration_ms f) (fp_interval_ms f) (sample_count (fp_samples f));;
    validate_samples (fp_samples f);;
    (* [samples.len() as u16] *)
    Ok (encoded_parts (sample_count (fp_samples f) mod 65536) (fp_duration_ms f) (fp_interval_ms f)
          (fp_samples f)).

(** [encoded[a..b]]. *)
Definition slice (a b : nat) (l : list Z) : list Z := take (b - a) (drop a l).

(** [read_u8], [read_u16] and [read_u64], with the bytes after the offset. *)
Definition read_le (n : nat) (rest : list Z) : vresult (Z * list Z) :=
  if (length rest <? n)%nat then Err Truncated else Ok (from_le (take n rest), drop n rest).

Definition read_sample (rest : list Z) : vresult (VideoSequenceSample * list Z) :=
  phash ← read_le 8 rest;
  dhash ← read_le 8 phash.2;
  luma ← read_le 1 dhash.2;
  u ← read_le 1 luma.2;
  v ← read_le 1 u.2;
  info ← read_le 2 v.2;
  transition ← read_le 2 info.2;
  Ok ({| vs_phash := phash.1; vs_dhash := dhash.1; vs_mean_luma := luma.1;
         vs_mean_chroma_u := as_i8 u.1; vs_mean_chroma_v := as_i8 v.1;
         vs_information_bps := info.1; vs_transition_bps := transition.1 |}, transition.2).

Fixpoint read_samples (n : nat) (rest : list Z) : vresult (list VideoSequenceSample) :=
  match n with
  | O => Ok []
  | S n =>
      s ← read_sample rest;
      samples ← read_samples n s.2;
      Ok (s.1 :: samples)
  end.

Definition decode_fingerprint (encoded : list Z) : vresult VideoSequenceFingerprint :=
  let len := Z.of_nat (length encoded) in
  if MAX_ENCODED_BYTES <? len then Err (EncodedTooLarge MAX_ENCODED_BYTES)
  else if len <? HEADER_BYTES then Err Truncated
  else if negb (bool_decide (slice 0 4 encoded = VIDEO_SEQUENCE_MAGIC)) then Err InvalidMagic
  else
    let codec := from_le (slice 4 6 encoded) in
    if negb (codec =? VIDEO_SEQUENCE_CODEC_V1) then Err (UnsupportedCodecVersion codec)
    else
      let count := from_le (slice 6 8 encoded) in
      if (count =? 0) || (VIDEO_SEQUENCE_MAX_SAMPLES <? count) then Err (InvalidSampleCount count)
      else
        let duration := from_le (slice 8 16 encoded) in
        let interval := from_le (slice 16 20 encoded) in
        if negb (from_le (slice 20 24 encoded) =? 0) then Err InvalidReservedHeader
        else
          let expected := HEADER_BYTES + count * SAMPLE_BYTES in
          if len <? expected then Err Truncated
          else if expected <? len then Err TrailingBytes
          else
            samples ← read_samples (Z.to_nat count) (drop (Z.to_nat HEADER_BYTES) encoded);
            fingerprint_new duration interval samples.

(** ** Search tokens *)

Definition append_hash_tokens (kind hash : Z) : list Z :=
  (λ band, Z.lor (Z.lor (Z.lor (Z.shiftl 1 56) (Z.shiftl kind 48)) (Z.shiftl band 40))
             (Z.land (Z.shiftr hash (band * 16)) 65535)) <$> [0; 1; 2; 3].

Definition anchor_rank (s : VideoSequenceSample) : Z :=
  Z.min (Z.min (vs_information_bps s * 3) u32_max + vs_transition_bps s) u32_max.

(** [sort_by]: rank descending, then index. *)
Definition anchor_order (a b : nat * Z) : bool := lex_le [- a.2; Z.of_nat a.1] [- b.2; Z.of_nat b.1].

Definition anchors (f : VideoSequenceFingerprint) : list (nat * Z) :=
  order_by (λ a b, (a.1 <=? b.1)%nat)
    (take VIDEO_SEQUENCE_MAX_ANCHORS
       (order_by anchor_order
          (omap (λ x, x) (imap (λ index s,
             if VIDEO_SEQUENCE_INFO_THRESHOLD_BPS <=? vs_information_bps s
             then Some (index, anchor_rank s) else None) (fp_samples f))))).

(** [Vec::dedup]: of equal neighbours the first stays. *)
Fixpoint dedup (l : list Z) : list Z :=
  match l with
  | x :: ((y :: _) as rest) => if x =? y then dedup rest else x :: dedup rest
  | _ => l
  end.

Definition derive_search_tokens (f : VideoSequenceFingerprint) : list Z :=
  let tokens := anchors f ≫= λ a,
    match fp_samples f !! a.1 with
    | Some s => append_hash_tokens 1 (vs_phash s) ++ append_hash_tokens 2 (vs_dhash s)
    | None => []
    end in
  take VIDEO_SEQUENCE_MAX_TOKENS (dedup (order_by Z.leb tokens)).

(** ** Features of a frame

    The floating-point half: the normalised luma plane of 32 by 32 bytes, the
    perceptual hash, the colour summary and the information score, which the
    code clamps to [0..10_000]. *)
Class FrameFeatures {I : ImageLib} := {
  normalized_luma : Picture → list Z;
  phash_v1 : list Z → Z;
  color_summary : Picture → Z * Z * Z;
  information_score : list Z → Z;
  information_clamped : ∀ l, 0 ≤ information_score l ≤ MAX_SCORE_BPS;
}.

Definition transition_score (previous current : list Z) : Z :=
  if negb (length previous =? length current)%nat || (length previous =? 0)%nat then 0
  else
    let difference := foldr Z.add 0 (zip_with (λ a b, Z.abs (a - b)) previous current) in
    let maximum := 255 * Z.of_nat (length previous) in
    Z.min (difference * 10000 / maximum) 10000.

(** Bit [y * 8 + x] compares two columns of one of eight rows. *)
Definition dhash_bit (luma : list Z) (y x : nat) : bool :=
  let row := (y * 31 / 7)%nat in
  let left := luma !!! (row * 32 + x * 31 / 8)%nat in
  let right := luma !!! (row * 32 + (x + 1) * 31 / 8)%nat in
  left <? right.
Definition dhash_v1 (luma : list Z) : Z :=
  fold_left (λ hash y,
    fold_left (λ hash x,
      if dhash_bit luma y x then Z.lor hash (Z.shiftl 1 (Z.of_nat (y * 8 + x))) else hash)
      (seq 0 8) hash)
    (seq 0 8) 0.

Section Builder.
Context {I : ImageLib} {F : FrameFeatures}.

Definition sample_features (image : Picture) (luma : list Z) (previous : option (list Z))
    : VideoSequenceSample :=
  let '(mean_luma, u, v) := color_summary image in
  {| vs_phash := phash_v1 luma; vs_dhash := dhash_v1 luma; vs_mean_luma := mean_luma;
     vs_mean_chroma_u := u; vs_mean_chroma_v := v;
     vs_information_bps := information_score luma;
     vs_transition_bps := match previous with
                          | Some previous => transition_score previous luma
                          | None => 0
                          end |}.

Record VideoSequenceBuilder := {
  vb_duration_ms : Z;
  vb_interval_ms : Z;
  vb_expected_samples : nat;
  vb_samples : list VideoSequenceSample;
  vb_previous_luma : option (list Z);
  vb_best_image : option Picture;
  vb_best_information_bps : option Z;
}.

Definition builder_new (duration interval : Z) : vresult VideoSequenceBuilder :=
  if duration =? 0 then Err InvalidDuration
  else if interval =? 0 then Err InvalidInterval
  else
    expected ← ok_or (video_sequence_interval_ms duration) InvalidTimestampGrid;
    if negb (interval =? expected) then Err InvalidTimestampGrid
    else Ok {| vb_duration_ms := duration; vb_interval_ms := interval;
               vb_expected_samples := length (select_video_sequence_timestamps duration);
               vb_samples := []; vb_previous_luma := None; vb_best_image := None;
               vb_best_information_bps := None |}.

Definition push_image (b : VideoSequenceBuilder) (image : Picture) : vresult VideoSequenceBuilder :=
  if (vb_expected_samples b <=? length (vb_samples b))%nat
  then Err (InvalidSampleCount (sample_count (vb_samples b) + 1))
  else
    let luma := normalized_luma image in
    let sample := sample_features image luma (vb_previous_luma b) in
    let better := match vb_best_information_bps b with
                  | Some best => best <? vs_information_bps sample
                  | None => true
                  end in
    Ok {| vb_duration_ms := vb_duration_ms b; vb_interval_ms := vb_interval_ms b;
          vb_expected_samples := vb_expected_samples b;
          vb_samples := vb_samples b ++ [sample]; vb_previous_luma := Some luma;
          vb_best_image := if better then Some image else vb_best_image b;
          vb_best_information_bps := if better then Some (vs_information_bps sample)
                                     else vb_best_information_bps b |}.

Definition finish_with_best_image (b : VideoSequenceBuilder)
    : vresult (VideoSequenceFingerprint * option Picture) :=
  if negb (length (vb_samples b) =? vb_expected_samples b)%nat then Err InvalidTimestampGrid
  else
    f ← fingerprint_new (vb_duration_ms b) (vb_interval_ms b) (vb_samples b);
    Ok (f, vb_best_image b).

Fixpoint push_images (b : VideoSequenceBuilder) (images : list Picture) : vresult VideoSequenceBuilder :=
  match images with
  | [] => Ok b
  | image :: images => b ← push_image b image; push_images b images
  end.
Definition from_images (duration interval : Z) (images : list Picture)
    : vresult VideoSequenceFingerprint :=
  b ← builder_new duration interval;
  b ← push_images b images;
  r ← finish_with_best_image b;
  Ok r.1.
End Builder.
