(* ===== verification/Alignment.v ===== *)
(** * Alignment: local alignment of two sequence fingerprints

    [media/src/sequence_alignment.rs]: the dynamic programme over the flat
    score and direction tables, the walk back along the best path, and the
    evidence and classification read off it. *)

From S2P Require Import Prelude Preview VideoSequence.

Definition MAX_DISTANCE_BPS : Z := 10000.
Definition INFORMATIVE_DISTANCE_LIMIT_BPS : Z := 3500.
Definition MATCH_BASE_WEIGHT_BPS : Z := 4600.
Definition MATCH_INFORMATION_WEIGHT_BPS : Z := 5400.
Definition MATCH_INFORMATION_SPAN_BPS : Z := 9000.
Definition u16_max : Z := 65535.

Record SequenceAlignmentConfig := {
  cfg_min_incoming_coverage_bps : Z;
  cfg_min_candidate_coverage_bps : Z;
  cfg_min_informative_matches : Z;
  cfg_max_median_distance_bps : Z;
  cfg_max_high_percentile_distance_bps : Z;
  cfg_min_longest_run : Z;
  cfg_max_gap_count : Z;
  cfg_min_score_bps : Z;
  cfg_gap_penalty_bps : Z;
  cfg_max_cells : Z;
}.
Definition default_config : SequenceAlignmentConfig :=
  {| cfg_min_incoming_coverage_bps := 7000; cfg_min_candidate_coverage_bps := 7000;
     cfg_min_informative_matches := 8; cfg_max_median_distance_bps := 2200;
     cfg_max_high_percentile_distance_bps := 3500; cfg_min_longest_run := 6;
     cfg_max_gap_count := 8; cfg_min_score_bps := 6500; cfg_gap_penalty_bps := 1200;
     cfg_max_cells := 4200000 |}.

Inductive SequenceAlignmentError :=
| InvalidConfig
| FingerprintVersionMismatch
| EmptySequence
| TooManyCells.

Definition config_validate (c : SequenceAlignmentConfig) : result SequenceAlignmentError unit :=
  if (10000 <? cfg_min_incoming_coverage_bps c) || (10000 <? cfg_min_candidate_coverage_bps c)
     || (cfg_min_informative_matches c =? 0) || (10000 <? cfg_max_median_distance_bps c)
     || (10000 <? cfg_max_high_percentile_distance_bps c) || (cfg_min_longest_run c =? 0)
     || (10000 <? cfg_min_score_bps c) || (cfg_gap_penalty_bps c =? 0) || (cfg_max_cells c =? 0)
  then Err InvalidConfig else Ok tt.

Module SequenceClassification.
Inductive t := StrongDuplicate | PartialMatch | NotDuplicate.
#[global] Instance t_eq_dec : EqDecision t.
Proof. solve_decision. Defined.
End SequenceClassification.

Record SequenceEvidence := {
  se_algorithm_version : FingerprintVersion;
  se_aligned_offset_ms : Z;
  se_informative_matched_samples : Z;
  se_incoming_coverage_bps : Z;
  se_candidate_coverage_bps : Z;
  se_median_distance_bps : Z;
  se_high_percentile_distance_bps : Z;
  se_longest_run : Z;
  se_unmatched_incoming_prefix : Z;
  se_unmatched_incoming_suffix : Z;
  se_unmatched_candidate_prefix : Z;
  se_unmatched_candidate_suffix : Z;
  se_gap_count : Z;
  se_score_bps : Z;
}.
Record SequenceAlignment := {
  al_classification : SequenceClassification.t;
  al_evidence : SequenceEvidence;
}.

(** ** Scores of a pair *)

(** [u64::count_ones]. *)
Definition count_ones (z : Z) : Z :=
  Z.of_nat (length (List.filter (λ i, Z.testbit z (Z.of_nat i)) (seq 0 64))).

Definition pair_distance_bps (l r : VideoSequenceSample) : Z :=
  let phash := count_ones (Z.lxor (vs_phash l) (vs_phash r)) * 10000 / 64 in
  let dhash := count_ones (Z.lxor (vs_dhash l) (vs_dhash r)) * 10000 / 64 in
  let luma := Z.abs (vs_mean_luma l - vs_mean_luma r) * 10000 / 255 in
  let chroma_u := Z.abs (vs_mean_chroma_u l - vs_mean_chroma_u r) * 10000 / 255 in
  let chroma_v := Z.abs (vs_mean_chroma_v l - vs_mean_chroma_v r) * 10000 / 255 in
  Z.min ((phash * 4 + dhash * 4 + (luma + chroma_u + chroma_v) / 3 * 2) / 10) 10000.

Definition pair_weight_bps (information : Z) : Z :=
  if information <? VIDEO_SEQUENCE_INFO_THRESHOLD_BPS then 0
  else MATCH_BASE_WEIGHT_BPS
       + (information - VIDEO_SEQUENCE_INFO_THRESHOLD_BPS) * MATCH_INFORMATION_WEIGHT_BPS
         / MATCH_INFORMATION_SPAN_BPS.

Definition pair_score (l r : VideoSequenceSample) : Z :=
  let distance := pair_distance_bps l r in
  let information := Z.min (vs_information_bps l) (vs_information_bps r) in
  (MAX_DISTANCE_BPS - distance) * pair_weight_bps information / 10000 - 4500.

(** ** The tables *)

Section Tables.
Context (incoming candidate : list VideoSequenceSample) (gap_penalty : Z).

Definition columns : nat := S (length candidate).
Definition cell (i j : nat) : nat := (i * columns + j)%nat.

Record Tables := {
  scores : list Z;
  directions : list Z;
  best : nat * nat * Z;
}.

Definition sample_at (l : list VideoSequenceSample) (i : nat) : VideoSequenceSample :=
  nth i l {| vs_phash := 0; vs_dhash := 0; vs_mean_luma := 0; vs_mean_chroma_u := 0;
             vs_mean_chroma_v := 0; vs_information_bps := 0; vs_transition_bps := 0 |}.

(** The value of a cell and where it comes from: 1 diagonal, 2 up, 3 left. *)
Definition choose (diagonal up left : Z) : Z * Z :=
  if (0 <? diagonal) && (up <=? diagonal) && (left <=? diagonal) then (diagonal, 1)
  else if (0 <? up) && (left <=? up) then (up, 2)
  else if 0 <? left then (left, 3)
  else (0, 0).

Definition score_at (t : Tables) (index : nat) : Z := nth index (scores t) 0.

(** The scores are [i32] in the source; for validated fingerprints they never leave it
    ([AlignmentSpec.alignment_is_bounded]). *)
Definition fill_cell (t : Tables) (i j : nat) : Tables :=
  let diagonal := score_at t (cell (i - 1) (j - 1))
                  + pair_score (sample_at incoming (i - 1)) (sample_at candidate (j - 1)) in
  let up := score_at t (cell (i - 1) j) - gap_penalty in
  let left := score_at t (cell i (j - 1)) - gap_penalty in
  let '(score, direction) := choose diagonal up left in
  {| scores := <[cell i j := score]> (scores t);
     directions := <[cell i j := direction]> (directions t);
     best := if (best t).2 <? score then (i, j, score) else best t |}.

Definition fill_row (t : Tables) (i : nat) : Tables :=
  fold_left (λ t j, fill_cell t i j) (seq 1 (length candidate)) t.
Definition fill_tables : Tables :=
  let cells := (S (length incoming) * columns)%nat in
  fold_left fill_row (seq 1 (length incoming))
    {| scores := replicate cells 0; directions := replicate cells 0; best := (0%nat, 0%nat, 0) |}.

(** ** Walking back *)

Inductive PathStep :=
| PMatch (incoming_index candidate_index : nat) (distance_bps : Z)
| PGap.

(** [while incoming_index > 0 && candidate_index > 0]: each round lowers one of
    the indexes, so [i + j] rounds are enough.  The path is built in reverse by
    the code and reversed at the end; here the last step is appended. *)
Fixpoint backtrack (fuel : nat) (t : Tables) (i j : nat) : list PathStep :=
  match fuel with
  | O => []
  | S fuel =>
      match i, j with
      | S i', S j' =>
          if score_at t (cell i j) =? 0 then []
          else match nth (cell i j) (directions t) 0 with
               | 1 => backtrack fuel t i' j'
                      ++ [PMatch i' j' (pair_distance_bps (sample_at incoming i') (sample_at candidate j'))]
               | 2 => backtrack fuel t i' j ++ [PGap]
               | 3 => backtrack fuel t i j' ++ [PGap]
               | _ => []
               end
      | _, _ => []
      end
  end.
Definition best_path (t : Tables) : list PathStep :=
  let '(i, j, _) := best t in backtrack (i + j) t i j.
End Tables.

(** ** Evidence *)

Definition path_matches (path : list PathStep) : list (nat * nat * Z) :=
  omap (λ s, match s with PMatch i j d => Some (i, j, d) | PGap => None end) path.

Definition basis_points (numerator denominator : nat) : Z :=
  if (denominator =? 0)%nat then 0
  else Z.min (Z.of_nat (Nat.min numerator denominator) * 10000 / Z.of_nat denominator) 10000.

Definition percentile (values : list Z) (p : nat) : option Z :=
  match values with
  | [] => None
  | _ => order_by Z.leb values !! (((length values - 1) * p + 99) / 100)%nat
  end.

(** [for window in matches.windows(2)]: the longest and the current run. *)
Definition run_continues (l r : nat * nat * Z) : bool :=
  (r.1.1 =? l.1.1 + 1)%nat && (r.1.2 =? l.1.2 + 1)%nat
  && (l.2 <=? INFORMATIVE_DISTANCE_LIMIT_BPS) && (r.2 <=? INFORMATIVE_DISTANCE_LIMIT_BPS).
Fixpoint runs (matches : list (nat * nat * Z)) (longest current : nat) : nat :=
  match matches with
  | l :: ((r :: _) as rest) =>
      let current := if run_continues l r then S current else O in
      runs rest (Nat.max longest current) current
  | _ => longest
  end.
Definition clamp_u16 (n : nat) : Z := Z.min (Z.of_nat n) u16_max.
Definition longest_run (matches : list (nat * nat * Z)) : Z :=
  clamp_u16 (runs matches 0 0 + match matches with [] => 0 | _ => 1 end)%nat.

Fixpoint gap_runs (previous_gap : bool) (path : list PathStep) : nat :=
  match path with
  | [] => 0
  | PGap :: path => (if previous_gap then 0 else 1) + gap_runs true path
  | PMatch _ _ _ :: path => gap_runs false path
  end%nat.

Definition alignment_score_bps (score : Z) (informative : nat) (median : option Z) (coverage : Z) : Z :=
  if (informative =? 0)%nat || (score <=? 0) then 0
  else
    let quality := Z.max (10000 - default 10000 median) 0 in
    Z.min (Z.min score 10000 * 4 / 10 + quality * 4 / 10 + coverage * 2 / 10) 10000.

Definition is_informative (incoming candidate : list VideoSequenceSample) (m : nat * nat * Z) : bool :=
  (VIDEO_SEQUENCE_INFO_THRESHOLD_BPS <=? vs_information_bps (sample_at incoming m.1.1))
  && (VIDEO_SEQUENCE_INFO_THRESHOLD_BPS <=? vs_information_bps (sample_at candidate m.1.2))
  && (m.2 <=? 8000).

(** [i64::try_from(..).unwrap_or(i64::MAX)]. *)
Definition clamp_i64 (z : Z) : Z := if z <=? i64_max then z else i64_max.
Definition timestamp_of (f : VideoSequenceFingerprint) (i : nat) : Z :=
  clamp_i64 (default 0 (sample_timestamp_ms f i)).

Definition evidence_from_path (incoming candidate : VideoSequenceFingerprint)
    (path : list PathStep) (score : Z) : SequenceEvidence :=
  let n := length (fp_samples incoming) in
  let m := length (fp_samples candidate) in
  let matches := path_matches path in
  let informative := List.filter (is_informative (fp_samples incoming) (fp_samples candidate)) matches in
  let distances := (λ x : nat * nat * Z, x.2) <$> informative in
  let median := percentile distances 50 in
  let high := percentile distances 95 in
  let first := head matches in
  let final := last matches in
  let incoming_coverage := basis_points (length matches) n in
  let candidate_coverage := basis_points (length matches) m in
  {| se_algorithm_version := fp_version incoming;
     se_aligned_offset_ms :=
       match first with
       | Some (i, j, _) => timestamp_of candidate j - timestamp_of incoming i
       | None => 0
       end;
     se_informative_matched_samples := clamp_u16 (length informative);
     se_incoming_coverage_bps := incoming_coverage;
     se_candidate_coverage_bps := candidate_coverage;
     se_median_distance_bps := default 10000 median;
     se_high_percentile_distance_bps := default 10000 high;
     se_longest_run := longest_run matches;
     se_unmatched_incoming_prefix :=
       clamp_u16 match first with Some (i, _, _) => i | None => n end;
     se_unmatched_incoming_suffix :=
       clamp_u16 match final with Some (i, _, _) => (n - (i + 1))%nat | None => n end;
     se_unmatched_candidate_prefix :=
       clamp_u16 match first with Some (_, j, _) => j | None => m end;
     se_unmatched_candidate_suffix :=
       clamp_u16 match final with Some (_, j, _) => (m - (j + 1))%nat | None => m end;
     se_gap_count := Z.of_nat (gap_runs false path) mod 65536;
     se_score_bps := alignment_score_bps score (length informative) median
                       (Z.min incoming_coverage candidate_coverage) |}.

Definition classify (e : SequenceEvidence) (c : SequenceAlignmentConfig) : SequenceClassification.t :=
  if (cfg_min_informative_matches c <=? se_informative_matched_samples e)
     && (cfg_min_incoming_coverage_bps c <=? se_incoming_coverage_bps e)
     && (cfg_min_candidate_coverage_bps c <=? se_candidate_coverage_bps e)
     && (se_median_distance_bps e <=? cfg_max_median_distance_bps c)
     && (se_high_percentile_distance_bps e <=? cfg_max_high_percentile_distance_bps c)
     && (cfg_min_longest_run c <=? se_longest_run e)
     && (se_gap_count e <=? cfg_max_gap_count c)
     && (cfg_min_score_bps c <=? se_score_bps e)
  then SequenceClassification.StrongDuplicate
  else if 0 <? se_informative_matched_samples e then SequenceClassification.PartialMatch
  else SequenceClassification.NotDuplicate.

Definition align_video_sequences (incoming candidate : VideoSequenceFingerprint)
    (c : SequenceAlignmentConfig) : result SequenceAlignmentError SequenceAlignment :=
  config_validate c;;
  if negb (bool_decide (fp_version incoming = fp_version candidate))
  then Err FingerprintVersionMismatch
  else if (length (fp_samples incoming) =? 0)%nat || (length (fp_samples candidate) =? 0)%nat
  then Err EmptySequence
  else
    let cells := Z.of_nat (S (length (fp_samples incoming)) * S (length (fp_samples candidate))) in
    if u64_max <? cells then Err TooManyCells
    else if cfg_max_cells c <? cells then Err TooManyCells
    else
      let t := fill_tables (fp_samples incoming) (fp_samples candidate) (cfg_gap_penalty_bps c) in
      let path := best_path (fp_samples incoming) (fp_samples candidate) t in
      let evidence := evidence_from_path incoming candidate path (best t).2 in
      Ok {| al_classification := classify evidence c; al_evidence := evidence |}.
