(* ===== verification/Library.v ===== *)
(** * Library: media aggregates, tags and storage receipts

    The [sooqa-library] crate: normalised tags, bounded fingerprint inputs, and
    the records exchanged with the storage and caption workers. *)

From S2P Require Import Prelude Enums Jobs.

Definition MAX_TAG_LENGTH : Z := 100.

Inductive TagValidationError := TagEmpty | TagTooLong (max : Z).

(** [str::to_lowercase], driven by the Unicode case tables. *)
Class CaseMapping := { to_lowercase : Str → Str }.

Definition normalize_tag `{CaseMapping} (value : Str) : result TagValidationError Str :=
  let value := to_lowercase (trim value) in
  if is_empty value then Err TagEmpty
  else if MAX_TAG_LENGTH <? char_count value then Err (TagTooLong MAX_TAG_LENGTH)
  else Ok value.

(** ** Fingerprint inputs *)

Record VideoFingerprintInput := {
  vf_version : Str;
  vf_data : list Z;
  vf_search_tokens : list Z;
}.

Definition MAX_VIDEO_FINGERPRINT_VERSION_BYTES : Z := 64.
Definition MAX_VIDEO_FINGERPRINT_DATA_BYTES : Z := 64 * 1024.
Definition MAX_VIDEO_FINGERPRINT_TOKENS : Z := 1024.

Inductive VideoFingerprintInputError :=
| EmptyVersion
| VersionTooLong (max : Z)
| EmptyData
| DataTooLarge (max : Z)
| TooManyTokens (max : Z)
| InvalidSearchTokens (why : string).

(** [windows(2).any(|pair| pair[0] >= pair[1])], negated. *)
Fixpoint strictly_increasing (l : list Z) : bool :=
  match l with
  | x :: ((y :: _) as rest) => (x <? y) && strictly_increasing rest
  | _ => true
  end.

Definition fingerprint_validate (i : VideoFingerprintInput)
    : result VideoFingerprintInputError unit :=
  if is_empty (trim (vf_version i)) then Err EmptyVersion
  else if MAX_VIDEO_FINGERPRINT_VERSION_BYTES <? Z.of_nat (length (utf8 (vf_version i))) then
    Err (VersionTooLong MAX_VIDEO_FINGERPRINT_VERSION_BYTES)
  else if is_empty (vf_data i) then Err EmptyData
  else if MAX_VIDEO_FINGERPRINT_DATA_BYTES <? Z.of_nat (length (vf_data i)) then
    Err (DataTooLarge MAX_VIDEO_FINGERPRINT_DATA_BYTES)
  else if MAX_VIDEO_FINGERPRINT_TOKENS <? Z.of_nat (length (vf_search_tokens i)) then
    Err (TooManyTokens MAX_VIDEO_FINGERPRINT_TOKENS)
  else if existsb (λ t, t <=? 0) (vf_search_tokens i) then
    Err (InvalidSearchTokens "tokens must be positive")
  else if negb (strictly_increasing (vf_search_tokens i)) then
    Err (InvalidSearchTokens "tokens must be sorted and deduplicated")
  else Ok tt.

Definition fingerprint_try_new (version : Str) (data tokens : list Z)
    : result VideoFingerprintInputError VideoFingerprintInput :=
  let input := {| vf_version := version; vf_data := data; vf_search_tokens := tokens |} in
  _ ← fingerprint_validate input;
  Ok input.

(** ** Duplicate evidence

    Bounded alignment results kept as JSON on an ingest that waits for a
    decision. *)
Module Classification.
Inductive t := StrongDuplicate | PartialMatch.
#[global] Instance t_eq_dec : EqDecision t.
Proof. solve_decision. Defined.
End Classification.

Record VideoDuplicateMatch := {
  vm_media_id : Uuid;
  vm_fingerprint_version : Str;
  vm_classification : Classification.t;
  vm_aligned_offset_ms : Z;
  vm_informative_matched_samples : Z;
  vm_incoming_coverage_bps : Z;
  vm_candidate_coverage_bps : Z;
  vm_median_distance_bps : Z;
  vm_high_percentile_distance_bps : Z;
  vm_longest_temporally_consistent_run : Z;
  vm_unmatched_incoming_prefix : Z;
  vm_unmatched_incoming_suffix : Z;
  vm_unmatched_candidate_prefix : Z;
  vm_unmatched_candidate_suffix : Z;
  vm_gap_count : Z;
  vm_score_bps : Z;
  vm_shared_token_count : Z;
  vm_token_overlap_bps : Z;
}.
Record VideoDuplicateEvidence := {
  ev_algorithm_version : Str;
  ev_matches : list VideoDuplicateMatch;
}.

Definition MAX_VIDEO_DUPLICATE_MATCHES : Z := 3.
Definition MAX_VIDEO_DUPLICATE_EVIDENCE_BYTES : Z := 16 * 1024.

Inductive VideoIdentityOutcome :=
| ExactDuplicate (media : Uuid)
| NewMediaRow (media : Uuid)
| DuplicatePendingOutcome (evidence : VideoDuplicateEvidence).

Inductive VideoIdentityDecision :=
| NoMatch
| DuplicatePendingDecision (evidence : VideoDuplicateEvidence).

(** ** Storage and caption records *)

Record StorageCaptionMetadata := {
  cm_description : option Str;
  cm_tags : list Str;
  cm_source_url : option Str;
}.
#[global] Instance StorageCaptionMetadata_eq_dec : EqDecision StorageCaptionMetadata.
Proof. solve_decision. Defined.

Record StorageUploadAttachment := {
  at_chat_id : Z;
  at_message_id : Z;
  at_file_id : option Str;
  at_file_unique_id : option Str;
  at_caption_metadata : option StorageCaptionMetadata;
}.

Record StorageReceipt := {
  sr_media_id : Uuid;
  sr_chat_id : Z;
  sr_message_id : Z;
  sr_file_id : option Str;
  sr_file_unique_id : option Str;
  sr_media_kind : MediaKind.t;
  sr_stored_at : Z;
}.

#[global] Instance storage_receipt_eq_dec : EqDecision StorageReceipt.
Proof. solve_decision. Defined.

Inductive StorageUploadReservation :=
| Reserved (media : Uuid) (owner_token : Uuid) (caption : StorageCaptionMetadata)
| Reused (receipt : StorageReceipt)
| InProgress (retry_at : option Z)
| ReconciliationRequired
| StaleGeneration (current_generation : Z).

Record CaptionSyncClaim := {
  cc_media_id : Uuid;
  cc_generation : Z;
  cc_claim_token : Uuid;
  cc_chat_id : Z;
  cc_message_id : Z;
  cc_metadata : StorageCaptionMetadata;
}.

Inductive CaptionSyncCompletion := Applied | Stale.

Record MediaUpdate := {
  mu_description : option Str;
  mu_tags : list Str;
  mu_expected_updated_at : Z;
}.

(** ** Lemmas *)

Lemma strictly_increasing_sorted l :
  strictly_increasing l = true ↔ Sorted.StronglySorted Z.lt l.
Proof.
  induction l as [|x l IH]; [by split; [constructor|]|]. destruct l as [|y l].
  { split; [repeat constructor|done]. }
  change (strictly_increasing (x :: y :: l)) with ((x <? y) && strictly_increasing (y :: l)).
  rewrite andb_true_iff, IH, Z.ltb_lt. split.
  - intros [Hxy Hs]. constructor; [done|]. inversion Hs as [|? ? Hs' Hall]; subst.
    constructor; [done|]. eapply List.Forall_impl; [|exact Hall]. simpl. lia.
  - intros Hs. inversion Hs as [|? ? Hs' Hall]; subst. inversion Hall; subst. done.
Qed.

Lemma normalize_tag_ok `{CaseMapping} v t :
  normalize_tag v = Ok t → t = to_lowercase (trim v) ∧ t ≠ [] ∧ char_count t ≤ MAX_TAG_LENGTH.
Proof.
  unfold normalize_tag. destruct (is_empty _) eqn:He; [done|].
  destruct (Z.ltb_spec MAX_TAG_LENGTH (char_count (to_lowercase (trim v)))); [done|].
  intros [= <-]. split_and!; [done| |done]. by destruct (to_lowercase (trim v)).
Qed.
