(* ===== verification/VideoSequenceSpec.v ===== *)
(** * VideoSequenceSpec: the fingerprint codec and the search tokens *)

From S2P Require Import Prelude Preview VideoSequence Library.

(** ** Little-endian bytes *)

Definition bytes (l : list Z) : Prop := Forall (λ b, 0 ≤ b < 256) l.

Lemma length_le_bytes n z : length (le_bytes n z) = n.
Proof. revert z. induction n; simpl; auto. Qed.

Lemma le_bytes_bytes n z : bytes (le_bytes n z).
Proof. revert z. induction n; intros z; constructor; [apply Z.mod_pos_bound; lia|apply IHn]. Qed.

Lemma from_le_le_bytes n z : 0 ≤ z < 256 ^ Z.of_nat n → from_le (le_bytes n z) = z.
Proof.
  revert z. induction n as [|n IH]; intros z Hz; [change (256 ^ Z.of_nat 0) with 1 in Hz; simpl; lia|].
  rewrite Nat2Z.inj_succ, Z.pow_succ_r in Hz by lia. cbn [le_bytes].
  change (from_le (?x :: ?l)) with (x + 256 * from_le l). rewrite IH; [pose proof (Z_div_mod_eq_full z 256); lia|].
  split; [apply Z.div_pos; lia|apply Z.div_lt_upper_bound; lia].
Qed.

Lemma le_bytes_from_le l : bytes l → le_bytes (length l) (from_le l) = l.
Proof.
  induction 1 as [|b l Hb _ IH]; [done|]. cbn [length le_bytes].
  change (from_le (b :: l)) with (b + 256 * from_le l).
  rewrite (Z.mul_comm 256), Z_mod_plus_full, Z.mod_small, Z_div_plus_full by lia.
  rewrite Z.div_small by lia. by rewrite Z.add_0_l, IH.
Qed.

Lemma from_le_bound l : bytes l → 0 ≤ from_le l < 256 ^ Z.of_nat (length l).
Proof.
  induction 1 as [|b l Hb _ IH]; [done|].
  change (from_le (b :: l)) with (b + 256 * from_le l).
  cbn [length]. rewrite Nat2Z.inj_succ, Z.pow_succ_r by lia. lia.
Qed.

(** ** Reading *)

Lemma read_le_app n b rest : length b = n → read_le n (b ++ rest) = Ok (from_le b, rest).
Proof.
  intros Hn. unfold read_le. rewrite length_app.
  destruct (Nat.ltb_spec (length b + length rest) n); [lia|].
  by rewrite take_app_length', drop_app_length'.
Qed.

Lemma read_le_inv n l v rest :
  read_le n l = Ok (v, rest) → bytes l →
  l = le_bytes n v ++ rest ∧ bytes rest ∧ 0 ≤ v < 256 ^ Z.of_nat n.
Proof.
  unfold read_le. destruct (Nat.ltb_spec (length l) n); [done|]. intros [= <- <-] Hl.
  assert (length (take n l) = n) as Hlen by (rewrite length_take; lia).
  assert (bytes (take n l)) as Ht by by apply Forall_take.
  pose proof (from_le_bound _ Ht) as Hb. rewrite Hlen in Hb.
  split_and!; [|by apply Forall_drop|lia..].
  rewrite <-Hlen at 1. by rewrite le_bytes_from_le, take_drop.
Qed.

Lemma chroma_round_trip z : -128 ≤ z < 128 → as_i8 (as_u8 z) = z.
Proof.
  intros Hz. unfold as_i8, as_u8. destruct (Z.ltb_spec (z mod 256) 128) as [Hm|Hm].
  - destruct (decide (0 ≤ z)); [apply Z.mod_small; lia|].
    rewrite <-(Z_mod_plus_full z 1), Z.mod_small in Hm; lia.
  - destruct (decide (0 ≤ z)); [rewrite Z.mod_small in Hm; lia|].
    rewrite <-(Z_mod_plus_full z 1), Z.mod_small; lia.
Qed.
Lemma byte_round_trip b : 0 ≤ b < 256 → as_u8 (as_i8 b) = b ∧ -128 ≤ as_i8 b < 128.
Proof.
  intros Hb. unfold as_u8, as_i8. destruct (Z.ltb_spec b 128).
  - rewrite Z.mod_small; lia.
  - rewrite <-(Z_mod_plus_full (b - 256) 1), Z.mod_small; lia.
Qed.

(** The widths of the fields. *)
Record sample_typed (s : VideoSequenceSample) : Prop := {
  st_phash : 0 ≤ vs_phash s < 256 ^ 8;
  st_dhash : 0 ≤ vs_dhash s < 256 ^ 8;
  st_luma : 0 ≤ vs_mean_luma s < 256;
  st_u : -128 ≤ vs_mean_chroma_u s < 128;
  st_v : -128 ≤ vs_mean_chroma_v s < 128;
  st_info : 0 ≤ vs_information_bps s < 256 ^ 2;
  st_transition : 0 ≤ vs_transition_bps s < 256 ^ 2;
}.
Record fp_typed (f : VideoSequenceFingerprint) : Prop := {
  ft_duration : 0 ≤ fp_duration_ms f < 256 ^ 8;
  ft_interval : 0 ≤ fp_interval_ms f < 256 ^ 4;
  ft_samples : Forall sample_typed (fp_samples f);
}.

Lemma length_encode_sample s : length (encode_sample s) = 23%nat.
Proof. unfold encode_sample. by rewrite !length_app, !length_le_bytes. Qed.

Lemma read_sample_encode s rest :
  sample_typed s → read_sample (encode_sample s ++ rest) = Ok (s, rest).
Proof.
  intros [Hp Hd Hl Hu Hv Hi Ht]. unfold encode_sample, read_sample.
  rewrite <-!app_assoc. change ([?a; ?b; ?c] ++ ?l) with ([a] ++ [b] ++ [c] ++ l).
  rewrite read_le_app by apply length_le_bytes. cbn [mbind result_bind snd].
  do 6 (rewrite read_le_app by (apply length_le_bytes || done); cbn [mbind result_bind snd]).
  cbn [fst]. rewrite !from_le_le_bytes by done. unfold from_le. cbn [foldr].
  rewrite !Z.mul_0_r, !Z.add_0_r, !chroma_round_trip by done. by destruct s.
Qed.

Lemma read_samples_encode l rest :
  Forall sample_typed l → read_samples (length l) ((l ≫= encode_sample) ++ rest) = Ok l.
Proof.
  induction 1 as [|s l Hs _ IH]; [done|].
  change ((s :: l) ≫= encode_sample) with (encode_sample s ++ (l ≫= encode_sample)).
  rewrite <-app_assoc. cbn [length read_samples].
  rewrite read_sample_encode by done. cbn [mbind result_bind fst snd]. by rewrite IH.
Qed.

Lemma length_encode_samples l :
  length (l ≫= encode_sample) = (length l * 23)%nat.
Proof.
  induction l as [|s l IH]; [done|].
  change ((s :: l) ≫= encode_sample) with (encode_sample s ++ (l ≫= encode_sample)).
  rewrite length_app, length_encode_sample, IH. simpl. lia.
Qed.

Lemma read_one b l v rest :
  read_le 1 l = Ok (v, rest) → bytes l → b = v → l = b :: rest ∧ bytes rest ∧ 0 ≤ v < 256.
Proof.
  intros Hr Hl ->. apply read_le_inv in Hr as (-> & Hrest & Hv); [|done].
  change (256 ^ Z.of_nat 1) with 256 in Hv. split_and!; [|done|lia..].
  cbn [le_bytes]. by rewrite Z.mod_small by lia.
Qed.

#[local] Arguments le_bytes : simpl never.
#[local] Arguments encode_sample : simpl never.
#[local] Arguments encoded_parts : simpl never.

Lemma read_sample_inv l s rest :
  read_sample l = Ok (s, rest) → bytes l →
  l = encode_sample s ++ rest ∧ bytes rest ∧ sample_typed s.
Proof.
  unfold read_sample. intros H Hl. result_inv.
  repeat match goal with x : (Z * list Z)%type |- _ => destruct x end.
  cbn [fst snd] in *. simplify_eq.
  repeat match goal with
    | H : read_le 1 ?l = Ok (?v, _), Hb : bytes ?l |- _ =>
        destruct (read_one v l v _ H Hb eq_refl) as (-> & ? & ?); clear H Hb
    | H : read_le _ ?l = Ok _, Hb : bytes ?l |- _ =>
        apply read_le_inv in H as (-> & ? & ?); [|exact Hb]; clear Hb
    end.
  repeat match goal with H : 0 ≤ ?z < 256 |- context [as_i8 ?z] =>
    destruct (byte_round_trip z H); clear H end.
  split_and!; [|done|by constructor].
  unfold encode_sample. cbn [vs_phash vs_dhash vs_mean_luma vs_mean_chroma_u vs_mean_chroma_v
    vs_information_bps vs_transition_bps].
  rewrite <-!app_assoc. change ([?a; ?b; ?c] ++ ?l) with (a :: b :: c :: l). congruence.
Qed.

Lemma read_samples_inv n l samples :
  read_samples n l = Ok samples → bytes l → length l = (n * 23)%nat →
  l = (samples ≫= encode_sample) ∧ length samples = n ∧ Forall sample_typed samples.
Proof.
  revert l samples. induction n as [|n IH]; intros l samples; simpl.
  { intros [= <-] _ Hl. destruct l; [|done]. done. }
  intros H Hl Hlen. result_inv. simplify_eq/=. destruct x as [s rest]; simpl in *.
  match goal with H : read_sample _ = _ |- _ =>
    apply read_sample_inv in H as (-> & Hrest & Hs); [|done] end.
  rewrite length_app, length_encode_sample in Hlen.
  match goal with H : read_samples _ _ = _ |- _ =>
    apply IH in H as (-> & <- & Hall); [|done|lia] end.
  split_and!; [done|done|by constructor].
Qed.

(** ** The codec *)

Lemma validate_grid_ok d i n : validate_grid d i n = Ok tt →
  0 < n ≤ VIDEO_SEQUENCE_MAX_SAMPLES ∨ n < 0.
Proof.
  unfold validate_grid. repeat (case_match; [done|]). intros _.
  match goal with H : (n =? 0) || _ = false |- _ => apply orb_false_iff in H as [?%Z.eqb_neq ?%Z.ltb_ge] end.
  lia.
Qed.

Lemma fingerprint_new_ok d i l f : fingerprint_new d i l = Ok f →
  f = {| fp_version := VideoSequenceV1; fp_duration_ms := d; fp_interval_ms := i; fp_samples := l |}
  ∧ validate_grid d i (sample_count l) = Ok tt ∧ validate_samples l = Ok tt.
Proof.
  unfold fingerprint_new. intros H. result_inv.
  repeat match goal with u : unit |- _ => destruct u end. by simplify_eq.
Qed.

Lemma encode_fingerprint_ok f b : encode_fingerprint f = Ok b →
  b = encoded_parts (sample_count (fp_samples f)) (fp_duration_ms f) (fp_interval_ms f) (fp_samples f)
  ∧ validate_grid (fp_duration_ms f) (fp_interval_ms f) (sample_count (fp_samples f)) = Ok tt
  ∧ validate_samples (fp_samples f) = Ok tt.
Proof.
  unfold encode_fingerprint. destruct (fp_version f). rewrite bool_decide_true by done. cbn [negb].
  intros H. result_inv. repeat match goal with u : unit |- _ => destruct u end. simplify_eq.
  match goal with H : validate_grid _ _ _ = _ |- _ => pose proof (validate_grid_ok _ _ _ H) as Hn end.
  split; [|done]. f_equal. apply Z.mod_small. unfold VIDEO_SEQUENCE_MAX_SAMPLES, sample_count in *. lia.
Qed.

Lemma length_encoded_parts n d i l : length (encoded_parts n d i l) = (24 + length l * 23)%nat.
Proof. unfold encoded_parts. rewrite !length_app, !length_le_bytes, length_encode_samples. done. Qed.

(** Cut a list at the given positions. *)
Lemma slices_of_parts n d i l (e := encoded_parts n d i l) :
  slice 0 4 e = VIDEO_SEQUENCE_MAGIC ∧ slice 4 6 e = le_bytes 2 VIDEO_SEQUENCE_CODEC_V1
  ∧ slice 6 8 e = le_bytes 2 n ∧ slice 8 16 e = le_bytes 8 d ∧ slice 16 20 e = le_bytes 4 i
  ∧ slice 20 24 e = le_bytes 4 0 ∧ drop 24 e = (l ≫= encode_sample).
Proof.
  split_and!; reflexivity.
Qed.

Lemma decode_encoded f b :
  fp_typed f → encode_fingerprint f = Ok b → decode_fingerprint b = Ok f.
Proof.
  intros [Hd Hi Hs] (-> & Hg & Hv)%encode_fingerprint_ok.
  pose proof (validate_grid_ok _ _ _ Hg) as Hn. unfold sample_count, VIDEO_SEQUENCE_MAX_SAMPLES in Hn.
  unfold decode_fingerprint. rewrite length_encoded_parts.
  destruct (slices_of_parts (sample_count (fp_samples f)) (fp_duration_ms f) (fp_interval_ms f)
    (fp_samples f)) as (-> & -> & -> & -> & -> & -> & Hdrop).
  rewrite !from_le_le_bytes by (done || unfold sample_count; lia).
  change (Z.to_nat HEADER_BYTES) with 24%nat. rewrite Hdrop.
  unfold sample_count, MAX_ENCODED_BYTES, HEADER_BYTES, SAMPLE_BYTES, VIDEO_SEQUENCE_MAX_SAMPLES.
  destruct (Z.ltb_spec (24 + 2048 * 23) (Z.of_nat (24 + length (fp_samples f) * 23))); [lia|].
  destruct (Z.ltb_spec (Z.of_nat (24 + length (fp_samples f) * 23)) 24); [lia|].
  destruct (Z.eqb_spec (Z.of_nat (length (fp_samples f))) 0); [lia|].
  destruct (Z.ltb_spec 2048 (Z.of_nat (length (fp_samples f)))); [lia|].
  destruct (Z.ltb_spec (Z.of_nat (24 + length (fp_samples f) * 23))
    (24 + Z.of_nat (length (fp_samples f)) * 23)); [lia|].
  destruct (Z.ltb_spec (24 + Z.of_nat (length (fp_samples f)) * 23)
    (Z.of_nat (24 + length (fp_samples f) * 23))); [lia|]. cbn.
  rewrite Nat2Z.id. rewrite <-(app_nil_r (_ ≫= _)), read_samples_encode by done.
  unfold fingerprint_new, mbind, result_bind. unfold sample_count in Hg.
  unfold sample_count. rewrite Hg, Hv. by destruct f as [[] ? ? ?].
Qed.

Lemma slice_split a b c l : (a ≤ b)%nat → (b ≤ c)%nat → slice a c l = slice a b l ++ slice b c l.
Proof.
  intros Hab Hbc. unfold slice. replace (drop b l) with (drop (b - a) (drop a l)).
  - rewrite take_take_drop. f_equal. lia.
  - rewrite drop_drop. f_equal. lia.
Qed.

Lemma header_split l :
  (24 ≤ length l)%nat →
  l = slice 0 4 l ++ slice 4 6 l ++ slice 6 8 l ++ slice 8 16 l ++ slice 16 20 l ++ slice 20 24 l
      ++ drop 24 l.
Proof.
  intros Hl. rewrite <-(take_drop 24 l) at 1. change (take 24 l) with (slice 0 24 l).
  rewrite (slice_split 0 4 24), (slice_split 4 6 24), (slice_split 6 8 24), (slice_split 8 16 24),
    (slice_split 16 20 24) by lia.
  by rewrite <-!app_assoc.
Qed.

Lemma slice_value a b l :
  bytes l → (a ≤ b)%nat → (b ≤ length l)%nat →
  slice a b l = le_bytes (b - a) (from_le (slice a b l))
  ∧ 0 ≤ from_le (slice a b l) < 256 ^ Z.of_nat (b - a).
Proof.
  intros Hl Hab Hb. unfold slice.
  assert (bytes (take (b - a) (drop a l))) as Hs by by apply Forall_take, Forall_drop.
  assert (length (take (b - a) (drop a l)) = (b - a)%nat) as Hn by (rewrite length_take, length_drop; lia).
  pose proof (from_le_bound _ Hs). rewrite Hn in *. split; [|done].
  rewrite <-Hn at 2. by rewrite le_bytes_from_le.
Qed.

Lemma encode_decoded b f :
  bytes b → decode_fingerprint b = Ok f → encode_fingerprint f = Ok b ∧ fp_typed f.
Proof.
  intros Hb. unfold decode_fingerprint.
  destruct (Z.ltb_spec MAX_ENCODED_BYTES (Z.of_nat (length b))); [done|].
  destruct (Z.ltb_spec (Z.of_nat (length b)) HEADER_BYTES) as [|Hlen]; [done|].
  unfold HEADER_BYTES in Hlen at 1.
  destruct (bool_decide (slice 0 4 b = _)) eqn:Hmagic; [|done]. cbn [negb].
  destruct (Z.eqb_spec (from_le (slice 4 6 b)) VIDEO_SEQUENCE_CODEC_V1) as [Hcodec|]; [|done]. cbn [negb].
  destruct (_ || _) eqn:Hcount; [done|].
  destruct (Z.eqb_spec (from_le (slice 20 24 b)) 0) as [Hres|]; [|done]. cbn [negb].
  destruct (Z.ltb_spec (Z.of_nat (length b)) (HEADER_BYTES + from_le (slice 6 8 b) * SAMPLE_BYTES)); [done|].
  destruct (Z.ltb_spec (HEADER_BYTES + from_le (slice 6 8 b) * SAMPLE_BYTES) (Z.of_nat (length b))); [done|].
  unfold HEADER_BYTES, SAMPLE_BYTES in *. change (Z.to_nat 24) with 24%nat.
  intros Hd. result_inv. apply bool_decide_eq_true in Hmagic. bool_norm.
  destruct (slice_value 4 6 b Hb) as [E1 _]; [lia..|].
  destruct (slice_value 6 8 b Hb) as [E2 _]; [lia..|].
  destruct (slice_value 8 16 b Hb) as [E3 B3]; [lia..|].
  destruct (slice_value 16 20 b Hb) as [E4 B4]; [lia..|].
  destruct (slice_value 20 24 b Hb) as [E5 _]; [lia..|].
  match goal with H : read_samples _ _ = Ok _ |- _ =>
    apply read_samples_inv in H as (Hbody & Hn & Hall); [|by apply Forall_drop|rewrite length_drop; lia] end.
  match goal with H : fingerprint_new _ _ _ = Ok _ |- _ =>
    apply fingerprint_new_ok in H as (-> & Hg & Hv) end.
  split; [|by constructor].
  assert (sample_count x = from_le (slice 6 8 b)) as Hc by (unfold sample_count; lia).
  unfold encode_fingerprint, mbind, result_bind. cbn [fp_version fp_duration_ms fp_interval_ms fp_samples].
  rewrite bool_decide_true by done. cbn [negb]. rewrite Hg, Hv. f_equal.
  symmetry. etrans; [apply header_split; lia|]. unfold encoded_parts.
  rewrite Hcodec in E1. rewrite Hres in E5. rewrite Hc, Z.mod_small
    by (unfold VIDEO_SEQUENCE_MAX_SAMPLES in *; lia).
  f_equal; [done|]. f_equal; [done|]. f_equal; [done|]. f_equal; [done|]. f_equal; [done|].
  f_equal; done.
Qed.

Lemma encode_sample_bytes s : sample_typed s → bytes (encode_sample s).
Proof.
  intros [_ _ Hl _ _ _ _]. unfold encode_sample, bytes. rewrite !Forall_app.
  split_and!; try apply le_bytes_bytes. constructor; [done|]. by repeat (constructor; [by apply Z.mod_pos_bound|]).
Qed.

Lemma encoded_bytes f b : fp_typed f → encode_fingerprint f = Ok b → bytes b.
Proof.
  intros [_ _ Hs] (-> & _ & _)%encode_fingerprint_ok. unfold encoded_parts, bytes.
  rewrite !Forall_app. split_and!; try apply le_bytes_bytes; [by repeat constructor|].
  apply Forall_bind. eapply Forall_impl; [done|]. intros s. apply encode_sample_bytes.
Qed.

(** C27: The stored form of a fingerprint is exact: a well-typed fingerprint that
    encodes decodes back to itself, and a byte string that decodes is the encoding of
    what it decodes to, so every fingerprint has one stored form and no other bytes are
    accepted for it. *)
Theorem fingerprint_codec_is_exact f b :
  (fp_typed f ∧ encode_fingerprint f = Ok b) ↔ (bytes b ∧ decode_fingerprint b = Ok f).
Proof.
  split.
  - intros [Hf He]. split; [by eapply encoded_bytes|by apply decode_encoded].
  - intros [Hb Hd]. destruct (encode_decoded b f Hb Hd). done.
Qed.

(** ** Search tokens *)

Lemma dedup_elem x l : x ∈ dedup l → x ∈ l.
Proof.
  induction l as [|a l IH]; [done|]. destruct l as [|b l]; [done|].
  change (dedup (a :: b :: l)) with (if a =? b then dedup (b :: l) else a :: dedup (b :: l)).
  destruct (a =? b); [intros; right; auto|]. intros [->|?]%elem_of_cons; [left|right; auto].
Qed.

Lemma dedup_sorted l :
  StronglySorted (λ a b, (a <=? b) = true) l → StronglySorted Z.lt (dedup l).
Proof.
  induction 1 as [|a l Hs IH Ha]; [constructor|]. destruct l as [|b l]; [by repeat constructor|].
  change (dedup (a :: b :: l)) with (if a =? b then dedup (b :: l) else a :: dedup (b :: l)).
  destruct (Z.eqb_spec a b) as [->|Hne]; [done|]. constructor; [done|].
  apply Forall_forall. intros x Hx%dedup_elem.
  inversion Ha as [|? ? Hab _]; subst. apply Z.leb_le in Hab.
  apply elem_of_cons in Hx as [->|Hx]; [lia|]. inversion Hs as [|? ? _ Hb]; subst.
  eapply Forall_forall in Hb; [|exact Hx]. apply Z.leb_le in Hb. lia.
Qed.

Lemma strictly_sorted_take n l : StronglySorted Z.lt l → StronglySorted Z.lt (take n l).
Proof.
  intros Hs. revert n. induction Hs as [|a l _ IH Ha]; intros [|n]; simpl; [constructor..|].
  constructor; [apply IH|]. by apply Forall_take.
Qed.

Lemma hash_token_positive k h x : 0 ≤ k → x ∈ append_hash_tokens k h → 0 < x.
Proof.
  intros Hk. unfold append_hash_tokens. intros (band & -> & Hb)%list_elem_of_fmap.
  assert (0 ≤ band) as Hb0. { repeat (apply elem_of_cons in Hb as [->|Hb]; [lia|]). by apply elem_of_nil in Hb. }
  set (t := Z.lor _ _). assert (Z.testbit t 56 = true) as Ht by (unfold t; by rewrite !Z.lor_spec).
  assert (0 ≤ t); [|destruct (decide (t = 0)) as [E|]; [by rewrite E in Ht|lia]].
  unfold t. rewrite !Z.lor_nonneg, !Z.shiftl_nonneg, Z.land_nonneg. auto with lia.
Qed.

Lemma search_token_positive f x : x ∈ derive_search_tokens f → 0 < x.
Proof.
  unfold derive_search_tokens. intros Hx%subseteq_take.
  apply dedup_elem, elem_of_order_by, list_elem_of_bind in Hx as (a & Hx & _).
  destruct (fp_samples f !! a.1) as [s|]; [|by apply elem_of_nil in Hx].
  apply elem_of_app in Hx as [Hx|Hx]; by eapply hash_token_positive in Hx.
Qed.

Lemma search_tokens_sorted f : StronglySorted Z.lt (derive_search_tokens f).
Proof.
  apply strictly_sorted_take, dedup_sorted, order_by_sorted.
  - intros x y. rewrite !Z.leb_le. lia.
  - intros x y z. rewrite !Z.leb_le. lia.
Qed.

(** C28: What the worker stores for a video is always accepted by the library: for any
    fingerprint that encodes, the version, the bytes and the derived search tokens pass
    every bound of [VideoFingerprintInput], the tokens being positive, strictly
    increasing and at most 1024. *)
Theorem encoded_fingerprint_is_storable f b :
  encode_fingerprint f = Ok b →
  fingerprint_try_new (version_str (fp_version f)) b (derive_search_tokens f)
  = Ok {| vf_version := version_str (fp_version f); vf_data := b;
          vf_search_tokens := derive_search_tokens f |}.
Proof.
  intros He. pose proof He as (Hb & Hg & _)%encode_fingerprint_ok.
  pose proof (validate_grid_ok _ _ _ Hg) as Hn. unfold sample_count, VIDEO_SEQUENCE_MAX_SAMPLES in Hn.
  assert (Z.of_nat (length b) = 24 + Z.of_nat (length (fp_samples f)) * 23) as Hl
    by (rewrite Hb, length_encoded_parts; lia).
  unfold fingerprint_try_new, fingerprint_validate. cbn [vf_version vf_data vf_search_tokens].
  destruct (fp_version f). cbn [version_str].
  replace (is_empty (trim (lit "video_sequence_v1"))) with false by done.
  replace (MAX_VIDEO_FINGERPRINT_VERSION_BYTES <? _) with false by done.
  destruct b as [|b0 b]; [simpl in Hl; lia|]. cbn [is_empty].
  destruct (Z.ltb_spec MAX_VIDEO_FINGERPRINT_DATA_BYTES (Z.of_nat (length (b0 :: b))));
    [unfold MAX_VIDEO_FINGERPRINT_DATA_BYTES in *; lia|].
  destruct (Z.ltb_spec MAX_VIDEO_FINGERPRINT_TOKENS (Z.of_nat (length (derive_search_tokens f)))).
  { unfold derive_search_tokens, MAX_VIDEO_FINGERPRINT_TOKENS, VIDEO_SEQUENCE_MAX_TOKENS in *.
    rewrite length_take in *. lia. }
  replace (existsb _ _) with false.
  - by rewrite (proj2 (strictly_increasing_sorted _) (search_tokens_sorted f)).
  - symmetry. apply not_true_iff_false. intros (x & Hx & Hle)%existsb_exists.
    apply list_elem_of_In, search_token_positive in Hx. apply Z.leb_le in Hle. lia.
Qed.
