(* ===== verification/AlignmentSpec.v ===== *)
(** * AlignmentSpec: the alignment is optimal and its arithmetic is bounded

    The flat tables hold the recurrence [H]; the best cell bounds the score of
    every local alignment, and the walk back returns an alignment that attains
    it. *)

From S2P Require Import Prelude Preview VideoSequence VideoSequenceSpec Alignment.

Section Reference.
Context (incoming candidate : list VideoSequenceSample) (gap : Z).
Abbreviation n := (length incoming).
Abbreviation m := (length candidate).
Abbreviation cell := (cell candidate).
Abbreviation columns := (columns candidate).

Definition pair_at (i j : nat) : Z := pair_score (sample_at incoming i) (sample_at candidate j).

(** ** Local alignments *)

Inductive Step := SMatch (i j : nat) | SSkipIncoming | SSkipCandidate.

(** A monotone path between two corners of the grid. *)
Inductive aligns : nat → nat → nat → nat → list Step → Prop :=
| al_nil i j : (i ≤ n)%nat → (j ≤ m)%nat → aligns i j i j []
| al_match i0 j0 i j p : aligns i0 j0 i j p → (i < n)%nat → (j < m)%nat →
    aligns i0 j0 (S i) (S j) (p ++ [SMatch i j])
| al_incoming i0 j0 i j p : aligns i0 j0 i j p → (i < n)%nat →
    aligns i0 j0 (S i) j (p ++ [SSkipIncoming])
| al_candidate i0 j0 i j p : aligns i0 j0 i j p → (j < m)%nat →
    aligns i0 j0 i (S j) (p ++ [SSkipCandidate]).

Definition step_score (s : Step) : Z := match s with SMatch i j => pair_at i j | _ => - gap end.
Definition path_score (p : list Step) : Z := foldr Z.add 0 (step_score <$> p).
Definition render (p : list Step) : list PathStep :=
  (λ s, match s with
        | SMatch i j => PMatch i j (pair_distance_bps (sample_at incoming i) (sample_at candidate j))
        | _ => PGap
        end) <$> p.

Lemma path_score_snoc p s : path_score (p ++ [s]) = path_score p + step_score s.
Proof.
  unfold path_score. rewrite fmap_app, foldr_app. simpl.
  induction (step_score <$> p) as [|x l IH]; simpl; lia.
Qed.

(** ** The recurrence *)

Fixpoint H (i : nat) : nat → Z :=
  match i with
  | O => λ _, 0
  | S i' => fix row (j : nat) : Z :=
      match j with
      | O => 0
      | S j' => Z.max 0 (Z.max (H i' j' + pair_at i' j') (Z.max (H i' (S j') - gap) (row j' - gap)))
      end
  end.
Lemma H_step i j :
  H (S i) (S j) = Z.max 0 (Z.max (H i j + pair_at i j) (Z.max (H i (S j) - gap) (H (S i) j - gap))).
Proof. done. Qed.
Lemma H_border_r i : H i 0 = 0.
Proof. by destruct i. Qed.
Lemma H_nonneg i j : 0 ≤ H i j.
Proof. destruct i; [done|]. destruct j; [done|]. rewrite H_step. lia. Qed.
#[local] Opaque H pair_score.

Lemma choose_fst d u l : (choose d u l).1 = Z.max 0 (Z.max d (Z.max u l)).
Proof.
  unfold choose. destruct (Z.ltb_spec 0 d), (Z.leb_spec u d), (Z.leb_spec l d), (Z.ltb_spec 0 u),
    (Z.leb_spec l u), (Z.ltb_spec 0 l); simpl; lia.
Qed.

(** What a non-zero direction says of the value. *)
Lemma choose_dir d u l :
  match (choose d u l).2 with
  | 1 => (choose d u l).1 = d | 2 => (choose d u l).1 = u | 3 => (choose d u l).1 = l
  | _ => (choose d u l).1 = 0
  end.
Proof. unfold choose. by repeat case_match; simplify_eq. Qed.

Hypothesis gap_nonneg : 0 ≤ gap.

Lemma alignment_le_H i0 j0 i j p : aligns i0 j0 i j p → path_score p ≤ H i j.
Proof.
  induction 1 as [i j _ _|i0 j0 i j p _ IH _ _|i0 j0 i j p _ IH _|i0 j0 i j p _ IH _];
    [apply H_nonneg|rewrite path_score_snoc; simpl..].
  - rewrite H_step. lia.
  - destruct j as [|j]; [rewrite !H_border_r in *; lia|]. rewrite H_step. lia.
  - destruct i as [|i]; [change (H 0 j) with 0 in IH; change (H 0 (S j)) with 0; lia|].
    rewrite H_step. lia.
Qed.

(** ** The tables *)

Definition direction (i j : nat) : Z :=
  (choose (H (i - 1) (j - 1) + pair_at (i - 1) (j - 1)) (H (i - 1) j - gap) (H i (j - 1) - gap)).2.

Lemma cell_inj a b a' b' : (b ≤ m)%nat → (b' ≤ m)%nat → cell a b = cell a' b' → a = a' ∧ b = b'.
Proof.
  unfold Alignment.cell, Alignment.columns. intros Hb Hb' He.
  destruct (Nat.lt_trichotomy a a') as [?|[->|?]]; [exfalso; nia|lia|exfalso; nia].
Qed.

Lemma cell_bound a b : (a ≤ n)%nat → (b ≤ m)%nat → (cell a b < S n * columns)%nat.
Proof. unfold Alignment.cell, Alignment.columns. intros. nia. Qed.

(** Cells filled once row [i] has been processed up to column [j]. *)
Definition filled (i j a b : nat) : Prop :=
  (a < i ∨ (a = i ∧ b ≤ j))%nat ∧ (a ≤ n)%nat ∧ (b ≤ m)%nat.

Record table_inv (i j : nat) (t : Tables) : Prop := {
  ti_scores : length (scores t) = (S n * columns)%nat;
  ti_directions : length (directions t) = (S n * columns)%nat;
  ti_cell : ∀ a b, filled i j a b ∨ (b = 0 ∧ a ≤ n)%nat → score_at t (cell a b) = H a b;
  ti_dir : ∀ a b, filled i j a b → (1 ≤ a)%nat → (1 ≤ b)%nat →
    nth (cell a b) (directions t) 0 = direction a b;
  ti_best : (∃ bi bj, best t = (bi, bj, H bi bj) ∧ bi ≤ n ∧ bj ≤ m ∧ filled i j bi bj)%nat;
  ti_max : ∀ a b, filled i j a b → H a b ≤ (best t).2;
}.

Lemma nth_insert_list (l : list Z) k k' x :
  (k < length l)%nat → nth k' (<[k := x]> l) 0 = if decide (k' = k) then x else nth k' l 0.
Proof.
  intros Hk. rewrite !nth_lookup. case_decide as Hd; [subst; by rewrite list_lookup_insert_eq|].
  by rewrite list_lookup_insert_ne.
Qed.

Lemma fill_cell_inv i j t :
  table_inv i j t → (1 ≤ i ≤ n)%nat → (j < m)%nat →
  table_inv i (S j) (fill_cell incoming candidate gap t i (S j)).
Proof.
  intros [Hs Hd Hc Hdir Hb Hmax] Hi Hj.
  assert (filled i j (i - 1) j ∧ filled i j (i - 1) (S j)) as [F1 F2] by (unfold filled; lia).
  assert (filled i j i j) as F3 by (unfold filled; lia).
  unfold fill_cell. replace (S j - 1)%nat with j by lia.
  rewrite (Hc _ _ (or_introl F1)), (Hc _ _ (or_introl F2)), (Hc _ _ (or_introl F3)).
  set (d := H (i - 1) j + pair_score (sample_at incoming (i - 1)) (sample_at candidate j)). set (u := H (i - 1) (S j) - gap).
  set (l := H i j - gap).
  assert ((choose d u l).1 = H i (S j)) as Hv.
  { rewrite choose_fst. destruct i as [|i']; [lia|]. rewrite H_step.
    unfold d, u, l. replace (S i' - 1)%nat with i' by lia. done. }
  assert ((choose d u l).2 = direction i (S j)) as Hv2.
  { unfold direction. by replace (S j - 1)%nat with j by lia. }
  destruct (choose d u l) as [score dir]. simpl in Hv, Hv2. subst score dir.
  pose proof (cell_bound i (S j) ltac:(lia) ltac:(lia)) as Hcell.
  assert (∀ a b, filled i (S j) a b → filled i j a b ∨ (a = i ∧ b = S j)) as Hcase
    by (unfold filled; lia).
  assert (∀ a b, filled i j a b → cell a b ≠ cell i (S j)) as Hne.
  { intros a b Hf He. apply cell_inj in He; unfold filled in *; lia. }
  constructor; simpl.
  - by rewrite length_insert.
  - by rewrite length_insert.
  - intros a b Hf. unfold score_at in *. simpl. rewrite nth_insert_list by lia.
    destruct Hf as [[Hf|[-> ->]]%Hcase|[-> Ha]].
    + rewrite decide_False by auto. apply Hc. auto.
    + by rewrite decide_True.
    + rewrite decide_False; [apply Hc; auto|]. intros He. apply cell_inj in He; lia.
  - intros a b Hf Ha Hb'. rewrite nth_insert_list by lia.
    destruct (Hcase _ _ Hf) as [Hf'|[-> ->]]; [rewrite decide_False by auto; auto|by rewrite decide_True].
  - destruct Hb as (bi & bj & -> & ? & ? & Hf). simpl.
    destruct (Z.ltb_spec (H bi bj) (H i (S j))).
    + exists i, (S j). unfold filled. split_and!; try done; lia.
    + exists bi, bj. unfold filled in *. split_and!; try done; lia.
  - destruct Hb as (bi & bj & Heq & _). rewrite Heq in *. simpl in *.
    intros a b [Hf|[-> ->]]%Hcase; destruct (Z.ltb_spec (H bi bj) (H i (S j))); simpl; try lia.
    + specialize (Hmax _ _ Hf). lia.
    + by apply Hmax.
Qed.

Lemma fill_row_inv i t :
  table_inv i 0 t → (1 ≤ i ≤ n)%nat → table_inv i m (fill_row incoming candidate gap t i).
Proof.
  intros Ht Hi. unfold fill_row. assert (m ≤ m)%nat as Hk by done. revert Hk.
  generalize m at 1 3 4. intros k. induction k as [|k IH]; intros Hk; [done|].
  rewrite seq_S, fold_left_app. simpl. apply fill_cell_inv; [apply IH; lia|done|lia].
Qed.

Lemma next_row_inv i t : table_inv i m t → (S i ≤ n)%nat → table_inv (S i) 0 t.
Proof.
  intros [Hs Hd Hc Hdir Hb Hmax] Hi.
  assert (∀ a b, filled (S i) 0 a b → filled i m a b ∨ (a = S i ∧ b = 0%nat)) as Hcase
    by (unfold filled; lia).
  constructor; try done.
  - intros a b [[Hf|[-> ->]]%Hcase|?]; apply Hc; auto.
  - intros a b [Hf|[-> ->]]%Hcase ? ?; [auto|lia].
  - destruct Hb as (bi & bj & ? & ? & ? & Hf). exists bi, bj. unfold filled in *. split_and!; try done; lia.
  - intros a b [Hf|[-> ->]]%Hcase; [auto|]. rewrite H_border_r.
    destruct Hb as (bi & bj & -> & _). apply H_nonneg.
Qed.

Lemma score_replicate k c : nth k (replicate c 0) 0 = 0.
Proof. revert k. induction c as [|c IH]; intros [|k]; simpl; auto. Qed.

Lemma fill_tables_inv : table_inv n m (fill_tables incoming candidate gap).
Proof.
  unfold fill_tables.
  set (t0 := {| scores := _; directions := _; best := _ |}).
  assert (table_inv 0 m t0) as H0.
  { constructor.
    - apply length_replicate.
    - apply length_replicate.
    - intros a b Hf. unfold score_at, t0. cbn [scores]. rewrite score_replicate.
      destruct Hf as [Hf|[-> _]]; [|by rewrite H_border_r].
      assert (a = 0%nat) as -> by (unfold filled in Hf; lia). done.
    - intros a b Hf ? ?. unfold filled in Hf. lia.
    - exists 0%nat, 0%nat. unfold filled. split_and!; try done; lia.
    - intros a b Hf. assert (a = 0%nat) as -> by (unfold filled in Hf; lia). done. }
  assert (n ≤ n)%nat as Hk by done. revert Hk. generalize n at 1 3 4. intros k.
  induction k as [|k IH]; intros Hk; [done|].
  rewrite seq_S, fold_left_app. simpl. apply fill_row_inv; [|lia]. apply next_row_inv; [|lia].
  apply IH. lia.
Qed.

(** ** Walking back *)

Lemma filled_all a b : (a ≤ n)%nat → (b ≤ m)%nat → filled n m a b.
Proof. unfold filled. lia. Qed.

Lemma backtrack_attains t fuel i j :
  table_inv n m t → (i ≤ n)%nat → (j ≤ m)%nat → (i + j ≤ fuel)%nat →
  ∃ i0 j0 p, aligns i0 j0 i j p ∧ path_score p = H i j
    ∧ backtrack incoming candidate fuel t i j = render p.
Proof.
  intros Ht. revert i j. induction fuel as [|fuel IH]; intros i j Hi Hj Hf.
  { assert (i = 0 ∧ j = 0)%nat as [-> ->] by lia. exists 0%nat, 0%nat, [].
    split_and!; [by constructor|done|done]. }
  destruct i as [|i]; [exists 0%nat, j, []; split_and!; [by constructor|done|done]|].
  destruct j as [|j]; [exists (S i), 0%nat, []; split_and!; [by constructor|by rewrite H_border_r|done]|].
  pose proof (filled_all (S i) (S j) Hi Hj) as Hfill. cbn [backtrack].
  rewrite (ti_cell _ _ _ Ht) by auto. rewrite (ti_dir _ _ _ Ht) by (done || lia).
  destruct (Z.eqb_spec (H (S i) (S j)) 0) as [Hz|Hz].
  { exists (S i), (S j), []. split_and!; [by constructor|done|done]. }
  unfold direction. replace (S i - 1)%nat with i by lia. replace (S j - 1)%nat with j by lia.
  pose proof (choose_dir (H i j + pair_at i j) (H i (S j) - gap) (H (S i) j - gap)) as Hdir.
  rewrite choose_fst, <-H_step in Hdir.
  destruct (choose _ _ _).2 as [|[[|[]|]|[|[]|]|]|]; try congruence.
  - destruct (IH (S i) j) as (i0 & j0 & p & Hp & Hs & Hb); [lia..|].
    exists i0, j0, (p ++ [SSkipCandidate]). split_and!; [by constructor| |].
    + rewrite path_score_snoc. simpl. lia.
    + rewrite Hb. unfold render. by rewrite fmap_app.
  - destruct (IH i (S j)) as (i0 & j0 & p & Hp & Hs & Hb); [lia..|].
    exists i0, j0, (p ++ [SSkipIncoming]). split_and!; [by constructor| |].
    + rewrite path_score_snoc. simpl. lia.
    + rewrite Hb. unfold render. by rewrite fmap_app.
  - destruct (IH i j) as (i0 & j0 & p & Hp & Hs & Hb); [lia..|].
    exists i0, j0, (p ++ [SMatch i j]). split_and!; [by constructor| |].
    + rewrite path_score_snoc. simpl. lia.
    + rewrite Hb. unfold render. by rewrite fmap_app.
Qed.

(** The best cell and the path read back from it. *)
Lemma tables_optimal (t := fill_tables incoming candidate gap) :
  (∃ i0 j0 i j p, aligns i0 j0 i j p ∧ path_score p = (best t).2
     ∧ best_path incoming candidate t = render p)
  ∧ ∀ i0 j0 i j p, aligns i0 j0 i j p → path_score p ≤ (best t).2.
Proof.
  pose proof fill_tables_inv as Ht. fold t in Ht. split.
  - destruct (ti_best _ _ _ Ht) as (bi & bj & Heq & Hbi & Hbj & _).
    destruct (backtrack_attains t (bi + bj) bi bj Ht Hbi Hbj) as (i0 & j0 & p & ? & ? & ?); [lia|].
    exists i0, j0, bi, bj, p. unfold best_path. by rewrite Heq.
  - intros i0 j0 i j p Hp. etrans; [by eapply alignment_le_H|]. apply (ti_max _ _ _ Ht).
    assert ((i ≤ n)%nat ∧ (j ≤ m)%nat) as [? ?] by (induction Hp; lia). by apply filled_all.
Qed.
End Reference.

(** ** Bounds *)

Lemma count_ones_nonneg z : 0 ≤ count_ones z.
Proof. unfold count_ones. lia. Qed.

Lemma pair_distance_bounds l r : 0 ≤ pair_distance_bps l r ≤ 10000.
Proof.
  unfold pair_distance_bps.
  pose proof (count_ones_nonneg (Z.lxor (vs_phash l) (vs_phash r))).
  pose proof (count_ones_nonneg (Z.lxor (vs_dhash l) (vs_dhash r))).
  assert (∀ a b, 0 ≤ a → 0 < b → 0 ≤ a / b) as Hd by (intros; by apply Z.div_pos).
  split; [|lia]. apply Z.min_glb; [|lia]. apply Hd; [|lia].
  assert (∀ a, 0 ≤ Z.abs a * 10000 / 255) as Ha by (intros; apply Hd; lia).
  repeat apply Z.add_nonneg_nonneg; try apply Z.mul_nonneg_nonneg; try lia; apply Hd; try lia.
  repeat apply Z.add_nonneg_nonneg; apply Ha.
Qed.

Definition informed (s : VideoSequenceSample) : Prop := vs_information_bps s ≤ 10000.

Lemma pair_weight_bounds i : i ≤ 10000 → 0 ≤ pair_weight_bps i ≤ 10000.
Proof.
  intros Hi. unfold pair_weight_bps, VIDEO_SEQUENCE_INFO_THRESHOLD_BPS, MATCH_BASE_WEIGHT_BPS,
    MATCH_INFORMATION_WEIGHT_BPS, MATCH_INFORMATION_SPAN_BPS.
  destruct (Z.ltb_spec i 1000); [lia|].
  assert (0 ≤ (i - 1000) * 5400 / 9000 ≤ 5400); [|lia].
  split; [apply Z.div_pos; lia|apply Z.div_le_upper_bound; lia].
Qed.

Lemma pair_score_bounds l r : informed l → -4500 ≤ pair_score l r ≤ 5500.
Proof.
  intros Hl. unfold pair_score, MAX_DISTANCE_BPS. unfold informed in Hl.
  pose proof (pair_distance_bounds l r) as Hd.
  pose proof (pair_weight_bounds (Z.min (vs_information_bps l) (vs_information_bps r))) as Hw.
  set (w := pair_weight_bps _) in *. set (d := pair_distance_bps l r) in *.
  assert (0 ≤ (10000 - d) * w / 10000 ≤ 10000); [|lia].
  split; [apply Z.div_pos; nia|apply Z.div_le_upper_bound; nia].
Qed.

Lemma sample_at_informed l i : Forall informed l → informed (sample_at l i).
Proof.
  intros Hl. unfold sample_at. destruct (nth_in_or_default i l
    {| vs_phash := 0; vs_dhash := 0; vs_mean_luma := 0; vs_mean_chroma_u := 0;
       vs_mean_chroma_v := 0; vs_information_bps := 0; vs_transition_bps := 0 |}) as [Hin| ->];
    [|unfold informed; simpl; lia].
  eapply Forall_forall; [done|]. by apply list_elem_of_In.
Qed.

Lemma H_bound x y g i j : Forall informed x → 0 ≤ g → H x y g i j ≤ 5500 * Z.of_nat (Nat.min i j).
Proof.
  intros Hx Hg. revert j. induction i as [|i IHi]; intros j; [simpl; lia|].
  induction j as [|j IHj]; [simpl; lia|]. rewrite H_step.
  pose proof (IHi j). pose proof (IHi (S j)).
  assert (pair_at x y i j ≤ 5500) by (apply pair_score_bounds, sample_at_informed, Hx). lia.
Qed.

(** Every number a cell is computed from fits [i32]. *)
Definition in_i32 (z : Z) : Prop := -2147483648 ≤ z ≤ i32_max.
Definition cell_fits x y g (i j : nat) : Prop :=
  in_i32 (H x y g i j + pair_at x y i j) ∧ in_i32 (H x y g i (S j) - g)
  ∧ in_i32 (H x y g (S i) j - g) ∧ in_i32 (H x y g (S i) (S j)).

Lemma cells_fit x y g i j :
  Forall informed x → 0 ≤ g ≤ u16_max → Z.of_nat (length x) ≤ VIDEO_SEQUENCE_MAX_SAMPLES →
  (i < length x)%nat → cell_fits x y g i j.
Proof.
  unfold u16_max, VIDEO_SEQUENCE_MAX_SAMPLES. intros Hx Hg Hn Hi.
  assert (-4500 ≤ pair_at x y i j ≤ 5500) by (apply pair_score_bounds, sample_at_informed, Hx).
  assert (∀ a b, (a ≤ length x)%nat → 0 ≤ H x y g a b ≤ 5500 * 2048) as Hb.
  { intros a b Ha. split; [apply H_nonneg|]. etrans; [apply H_bound; [done|lia]|]. lia. }
  pose proof (Hb i j). pose proof (Hb i (S j)). pose proof (Hb (S i) j). pose proof (Hb (S i) (S j)).
  unfold cell_fits, in_i32, i32_max. lia.
Qed.

Definition bps (z : Z) : Prop := 0 ≤ z ≤ 10000.
Definition is_u16 (z : Z) : Prop := 0 ≤ z ≤ u16_max.

Record evidence_bounded (e : SequenceEvidence) : Prop := {
  eb_incoming : bps (se_incoming_coverage_bps e);
  eb_candidate : bps (se_candidate_coverage_bps e);
  eb_median : bps (se_median_distance_bps e);
  eb_high : bps (se_high_percentile_distance_bps e);
  eb_score : bps (se_score_bps e);
  eb_informative : is_u16 (se_informative_matched_samples e);
  eb_run : is_u16 (se_longest_run e);
  eb_gaps : is_u16 (se_gap_count e);
}.

Lemma basis_points_bounds a b : bps (basis_points a b).
Proof.
  unfold basis_points, bps. destruct (Nat.eqb_spec b 0); [lia|]. split; [|lia].
  apply Z.min_glb; [|lia]. apply Z.div_pos; lia.
Qed.

Lemma clamp_u16_bounds k : is_u16 (clamp_u16 k).
Proof. unfold clamp_u16, is_u16, u16_max. lia. Qed.

Lemma percentile_bounds l p : Forall bps l → bps (default 10000 (percentile l p)).
Proof.
  intros Hl. destruct (percentile l p) as [v|] eqn:Hp; [simpl|unfold bps; simpl; lia].
  destruct l as [|a l]; [done|]. apply list_elem_of_lookup_2, elem_of_order_by in Hp.
  by eapply Forall_forall in Hl.
Qed.

Lemma alignment_score_bounds s k md c : 0 ≤ c → bps (alignment_score_bps s k md c).
Proof.
  intros Hc. unfold alignment_score_bps, bps. destruct ((k =? 0)%nat); simpl; [lia|].
  destruct (Z.leb_spec s 0); [lia|]. split; [|lia]. apply Z.min_glb; [|lia].
  repeat apply Z.add_nonneg_nonneg; apply Z.div_pos; lia.
Qed.

Lemma render_matches x y p mt : mt ∈ path_matches (render x y p) → bps mt.2.
Proof.
  unfold path_matches. rewrite list_elem_of_omap. intros (s & Hs & Hm).
  unfold render in Hs. apply list_elem_of_fmap in Hs as ([i j| |] & -> & _); simplify_eq.
  apply pair_distance_bounds.
Qed.

Lemma gap_runs_length b p : (gap_runs b p ≤ length p)%nat.
Proof.
  revert b. induction p as [|[i j d|] p IH]; intros b; simpl; [lia| |].
  - pose proof (IH false). lia.
  - pose proof (IH true). destruct b; lia.
Qed.

Lemma aligns_length x y i0 j0 i j p :
  aligns x y i0 j0 i j p → (length p ≤ i + j)%nat ∧ (i ≤ length x)%nat ∧ (j ≤ length y)%nat.
Proof. induction 1; rewrite ?length_app; simpl; lia. Qed.

Lemma evidence_of_path x y p s :
  Z.of_nat (length (render (fp_samples x) (fp_samples y) p)) ≤ u16_max →
  let path := render (fp_samples x) (fp_samples y) p in
  let e := evidence_from_path x y path s in
  evidence_bounded e ∧ se_gap_count e = Z.of_nat (gap_runs false path).
Proof.
  intros Hl. cbv zeta. set (path := render _ _ p) in *.
  assert (se_gap_count (evidence_from_path x y path s) = Z.of_nat (gap_runs false path)) as Hgap.
  { simpl. apply Z.mod_small. pose proof (gap_runs_length false path). unfold u16_max in Hl. lia. }
  split; [|done].
  assert (Forall bps ((λ q : nat * nat * Z, q.2) <$> List.filter
    (is_informative (fp_samples x) (fp_samples y)) (path_matches path))) as Hd.
  { apply Forall_fmap, Forall_forall. intros q Hq%list_elem_of_In%filter_In.
    destruct Hq as [Hq%list_elem_of_In _]. by eapply render_matches. }
  constructor; [apply basis_points_bounds..|by apply percentile_bounds|by apply percentile_bounds| | | |].
  - apply alignment_score_bounds. pose proof (basis_points_bounds (length (path_matches path))
      (length (fp_samples x))) as [? _].
    pose proof (basis_points_bounds (length (path_matches path)) (length (fp_samples y))) as [? _].
    simpl. lia.
  - apply clamp_u16_bounds.
  - apply clamp_u16_bounds.
  - rewrite Hgap. pose proof (gap_runs_length false path). unfold is_u16. lia.
Qed.

(** ** The alignment of two fingerprints *)

(** A fingerprint that passed its validation. *)
Definition validated (f : VideoSequenceFingerprint) : Prop :=
  fingerprint_new (fp_duration_ms f) (fp_interval_ms f) (fp_samples f) = Ok f.

Lemma validate_scores_informed l : validate_scores l = Ok tt → Forall informed l.
Proof.
  induction l as [|s l IH]; simpl; [constructor|].
  destruct (Z.ltb_spec MAX_SCORE_BPS (vs_information_bps s)); [done|].
  destruct (_ <? _); [done|]. constructor; [done|auto].
Qed.

Lemma validated_ok f : validated f →
  Forall informed (fp_samples f) ∧ Z.of_nat (length (fp_samples f)) ≤ VIDEO_SEQUENCE_MAX_SAMPLES.
Proof.
  intros (_ & Hg & Hs)%fingerprint_new_ok. apply validate_grid_ok in Hg. unfold sample_count in Hg.
  split; [|unfold VIDEO_SEQUENCE_MAX_SAMPLES in *; lia].
  unfold validate_samples in Hs. destruct (fp_samples f); [constructor|].
  destruct (negb _); [done|]. by apply validate_scores_informed.
Qed.

Lemma align_ok x y c a :
  align_video_sequences x y c = Ok a →
  let t := fill_tables (fp_samples x) (fp_samples y) (cfg_gap_penalty_bps c) in
  let e := evidence_from_path x y (best_path (fp_samples x) (fp_samples y) t) (best t).2 in
  a = {| al_classification := classify e c; al_evidence := e |}.
Proof.
  unfold align_video_sequences. intros H. result_inv.
  repeat (case_match; [done|]). by simplify_eq.
Qed.

Lemma alignment_bounded x y c a :
  align_video_sequences x y c = Ok a → validated x → validated y →
  0 ≤ cfg_gap_penalty_bps c ≤ u16_max →
  evidence_bounded (al_evidence a)
  ∧ ∃ p, al_evidence a = evidence_from_path x y (render (fp_samples x) (fp_samples y) p)
           (path_score (fp_samples x) (fp_samples y) (cfg_gap_penalty_bps c) p)
       ∧ se_gap_count (al_evidence a)
         = Z.of_nat (gap_runs false (render (fp_samples x) (fp_samples y) p)).
Proof.
  intros ->%align_ok [_ Hnx]%validated_ok [_ Hny]%validated_ok Hg. simpl.
  destruct (tables_optimal (fp_samples x) (fp_samples y) (cfg_gap_penalty_bps c) ltac:(lia))
    as [(i0 & j0 & i & j & p & Hp & Hs & ->) _].
  apply aligns_length in Hp. destruct (evidence_of_path x y p (best
    (fill_tables (fp_samples x) (fp_samples y) (cfg_gap_penalty_bps c))).2) as [Hb Hgap].
  { unfold render. rewrite length_fmap. unfold u16_max, VIDEO_SEQUENCE_MAX_SAMPLES in *. lia. }
  split; [done|]. exists p. by rewrite Hs.
Qed.

(** C29: The alignment is the best one: the evidence is read off a monotone path between
    the two sequences whose score no other local alignment exceeds, so the dynamic
    programme over the flat tables and its walk back compute the optimum that the
    recurrence-free definition of a local alignment asks for. *)
Theorem alignment_is_optimal x y c a :
  align_video_sequences x y c = Ok a → 0 ≤ cfg_gap_penalty_bps c →
  ∃ i0 j0 i j p, aligns (fp_samples x) (fp_samples y) i0 j0 i j p ∧
    let score := path_score (fp_samples x) (fp_samples y) (cfg_gap_penalty_bps c) in
    al_evidence a = evidence_from_path x y (render (fp_samples x) (fp_samples y) p) (score p)
    ∧ (∀ i0' j0' i' j' p', aligns (fp_samples x) (fp_samples y) i0' j0' i' j' p' →
         score p' ≤ score p).
Proof.
  intros ->%align_ok Hg. simpl.
  destruct (tables_optimal (fp_samples x) (fp_samples y) (cfg_gap_penalty_bps c) Hg)
    as [(i0 & j0 & i & j & p & Hp & Hs & ->) Hmax].
  exists i0, j0, i, j, p. rewrite Hs. done.
Qed.

(** Aligning validated fingerprints stays within machine integers: every number a
    cell of the table is computed from fits [i32], no count is truncated to [u16], and
    the evidence is in basis points. *)
Theorem alignment_is_bounded x y c a :
  align_video_sequences x y c = Ok a → validated x → validated y →
  0 ≤ cfg_gap_penalty_bps c ≤ u16_max →
  (∀ i j, (i < length (fp_samples x))%nat →
     cell_fits (fp_samples x) (fp_samples y) (cfg_gap_penalty_bps c) i j)
  ∧ evidence_bounded (al_evidence a)
  ∧ ∃ p, al_evidence a = evidence_from_path x y (render (fp_samples x) (fp_samples y) p)
           (path_score (fp_samples x) (fp_samples y) (cfg_gap_penalty_bps c) p)
       ∧ se_gap_count (al_evidence a)
         = Z.of_nat (gap_runs false (render (fp_samples x) (fp_samples y) p)).
Proof.
  intros Ha Hx Hy Hg. split; [|by apply alignment_bounded].
  apply validated_ok in Hx as [? ?]. intros. by apply cells_fit.
Qed.
