(* ===== verification/Telegram.v ===== *)
(** * Telegram: errors of the Bot API, the publication requests and the stored caption

    The error types of the [telegram] crate, how the code classifies them, and
    [telegram/src/publication.rs]: the Bot API request a publication becomes.  The
    [teloxide] client is third-party code: its errors appear with the constructors
    the sources match on, every other one as [RequestOther] or [ApiOther], and its
    parse modes are a parameter.  At the end, [storage_caption] of
    [telegram/src/storage.rs]: the description, the tags and the source URL of a media
    row, each on its own line, cleaned of control characters and cut to the limit. *)

From S2P Require Import Prelude Enums Text Library.

(** ** Errors *)

(** [teloxide::errors::ApiError]. *)
Inductive ApiError :=
| MessageToCopyNotFound
| MessageNotModified
| CantParseEntities (why : Str)
| MessageIsTooLong
| MessageTextIsEmpty
| InvalidToken
| ApiUnknown (message : Str)
| ApiOther (code : Z).

(** [teloxide::RequestError]. *)
Inductive RequestError :=
| RequestApi (e : ApiError)
| RetryAfter (seconds : Z)
| Network (what : Str)
| InvalidJson (what : Str)
| RequestIo (what : Str)
| RequestOther (code : Z).

(** [teloxide::DownloadError]. *)
Inductive DownloadError := DownloadNetwork (what : Str) | DownloadOther (code : Z).

Inductive TelegramApiError :=
| TgApi (e : RequestError)
| TgDownload (e : DownloadError)
| TgIo (what : Str)
| LocalFileRootNotConfigured
| LocalFileRootUnavailable
| LocalFilePathRejected
| LocalFileNotRegular
| DownloadSizeMismatch (reported actual : Z)
| DownloadLimit (size limit : Z)
| MissingFileReference (media_kind : MediaKind.t)
| TgInvalidParseMode
| TgInvalidMessageId (id : Z).

#[global] Instance api_error_eq_dec : EqDecision ApiError.
Proof. solve_decision. Defined.
#[global] Instance request_error_eq_dec : EqDecision RequestError.
Proof. solve_decision. Defined.
#[global] Instance download_error_eq_dec : EqDecision DownloadError.
Proof. solve_decision. Defined.
#[global] Instance telegram_api_error_eq_dec : EqDecision TelegramApiError.
Proof. solve_decision. Defined.

(** The retry decision of the source download. *)
Definition is_retryable_error (e : TelegramApiError) : bool :=
  match e with
  | TgApi (RequestApi (ApiUnknown _)) | TgApi (Network _) | TgApi (InvalidJson _)
  | TgApi (RetryAfter _) | TgDownload (DownloadNetwork _) => true
  | _ => false
  end.

(** ** Publication *)

Record TelegramPublicationRequest := {
  rq_target_chat_id : Z;
  rq_storage_chat_id : Z;
  rq_storage_message_id : Z;
  rq_file_id : option Str;
  rq_media_kind : MediaKind.t;
  rq_caption : option Str;
  rq_parse_mode : option Str;
  rq_disable_notification : bool;
}.

(** The trait [TelegramPublicationApi]; its two calls are calls of the handler. *)
Class TelegramPublicationApi := {
  PubError : Type;
  is_copy_unavailable : PubError → bool;
  is_known_caption_error : PubError → bool;
  is_retryable_no_effect : PubError → bool;
  is_ambiguous_error : PubError → bool;
}.

(** *** The [teloxide] implementation *)

Class ParseModes := {
  ParseMode : Type;
  parse_mode_try_from : Str → option ParseMode;
}.

(** The requests the adapter sends. *)
Inductive bot_request {Pm : ParseModes} :=
| CopyMessage (target storage message : Z) (caption : Str) (silent : bool)
    (mode : option ParseMode)
| SendFile (kind : MediaKind.t) (target : Z) (file_id caption : Str) (silent : bool)
    (streaming : bool) (mode : option ParseMode).

Section Teloxide.
Context {Pm : ParseModes}.

Definition parse_mode (value : option Str) : result TelegramApiError (option ParseMode) :=
  match value with
  | None => Ok None
  | Some s => m ← ok_or (parse_mode_try_from s) TgInvalidParseMode; Ok (Some m)
  end.
Definition caption (request : TelegramPublicationRequest) : Str :=
  default [] (rq_caption request).

(** [copy_from_storage] up to the request it awaits. *)
Definition copy_from_storage_request (r : TelegramPublicationRequest)
    : result TelegramApiError bot_request :=
  message ← (if (i32_min <=? rq_storage_message_id r) && (rq_storage_message_id r <=? i32_max)
             then Ok (rq_storage_message_id r)
             else Err (TgInvalidMessageId (rq_storage_message_id r)));
  mode ← parse_mode (rq_parse_mode r);
  Ok (CopyMessage (rq_target_chat_id r) (rq_storage_chat_id r) message (caption r)
        (rq_disable_notification r) mode).

(** [send_storage_file] up to the request it awaits; only a video asks for
    streaming. *)
Definition send_storage_file_request (r : TelegramPublicationRequest)
    : result TelegramApiError bot_request :=
  file ← ok_or (f ← rq_file_id r; if is_empty f then None else Some f)
           (MissingFileReference (rq_media_kind r));
  mode ← parse_mode (rq_parse_mode r);
  Ok (SendFile (rq_media_kind r) (rq_target_chat_id r) file (caption r)
        (rq_disable_notification r) (bool_decide (rq_media_kind r = MediaKind.Video)) mode).

(** Await the request; [bot] is the answer of the Bot API to it. *)
Definition bot_call (request : result TelegramApiError bot_request)
    (bot : bot_request → result RequestError Z) : result TelegramApiError Z :=
  q ← request; map_err TgApi (bot q).
End Teloxide.

Definition teloxide_is_copy_unavailable (e : TelegramApiError) : bool :=
  match e with
  | TgApi (RequestApi MessageToCopyNotFound) => true
  | TgApi (RequestApi (ApiUnknown message)) =>
      let message := to_ascii_lowercase message in
      contains (lit "can't copy messages of this type") message
      || contains (lit "cannot copy messages of this type") message
      || contains (lit "message to copy not found") message
  | _ => false
  end.

Definition teloxide_is_known_caption_error (e : TelegramApiError) : bool :=
  match e with
  | TgApi (RequestApi (CantParseEntities _)) | TgApi (RequestApi MessageIsTooLong)
  | TgApi (RequestApi MessageTextIsEmpty) => true
  | _ => false
  end.

Definition teloxide_is_retryable_no_effect (e : TelegramApiError) : bool :=
  match e with TgApi (RetryAfter _) => true | _ => false end.

Definition teloxide_is_ambiguous_error (e : TelegramApiError) : bool :=
  match e with
  | TgApi (Network _) | TgApi (InvalidJson _) | TgApi (RequestIo _)
  | TgApi (RequestApi (ApiUnknown _)) => true
  | _ => false
  end.

#[global] Instance TeloxideApi : TelegramPublicationApi :=
  {| PubError := TelegramApiError;
     is_copy_unavailable := teloxide_is_copy_unavailable;
     is_known_caption_error := teloxide_is_known_caption_error;
     is_retryable_no_effect := teloxide_is_retryable_no_effect;
     is_ambiguous_error := teloxide_is_ambiguous_error |}.

(** ** Facts *)

(** What the handlers rely on: an answer that is an error may hide a delivered
    message only when the error is ambiguous and of none of the classes the code
    treats as rejected by Telegram.  [delivered e] tells whether the request that was
    answered with [e] may have taken effect. *)
Class PublicationLaws (Pa : TelegramPublicationApi) (delivered : PubError → bool) := {
  delivered_ambiguous : ∀ e, delivered e = true → is_ambiguous_error e = true;
  delivered_not_copy : ∀ e, delivered e = true → is_copy_unavailable e = false;
  delivered_not_caption : ∀ e, delivered e = true → is_known_caption_error e = false;
  delivered_not_retry : ∀ e, delivered e = true → is_retryable_no_effect e = false;
}.

(** For [teloxide] the classes are disjoint constructors, except that an unknown API
    error is told from a refused copy by its text alone: the adapter needs no more
    than "a delivered message is answered by an ambiguous error whose text does not
    refuse the copy". *)
Lemma teloxide_laws (delivered : TelegramApiError → bool) :
  (∀ e, delivered e = true →
     teloxide_is_ambiguous_error e = true ∧ teloxide_is_copy_unavailable e = false) →
  PublicationLaws TeloxideApi delivered.
Proof.
  intros H. constructor; intros e He; destruct (H e He) as [Ha Hc]; try done;
    by destruct e as [[[]| | | | | ]| | | | | | | | | | | ].
Qed.

(** An error raised before the request is awaited is never ambiguous. *)
Lemma pre_send_error_not_ambiguous {Pm : ParseModes} r e :
  copy_from_storage_request r = Err e ∨ send_storage_file_request r = Err e →
  teloxide_is_ambiguous_error e = false.
Proof.
  assert (∀ v x, parse_mode v = Err x → teloxide_is_ambiguous_error x = false) as Hmode.
  { intros [v|] x; simpl; [|done]. by destruct (parse_mode_try_from v); intros [= <-]. }
  unfold copy_from_storage_request, send_storage_file_request.
  destruct (parse_mode (rq_parse_mode r)) as [m|x] eqn:Hm; [|apply Hmode in Hm];
    intros [H|H]; [case_match|destruct (rq_file_id r) as [f|]; simpl in H;
      try destruct (is_empty f)|case_match|destruct (rq_file_id r) as [f|]; simpl in H;
      try destruct (is_empty f)]; by simplify_eq/=.
Qed.

Definition MAX_STORAGE_CAPTION_CHARS : nat := 1024.
Definition MAX_STORAGE_CAPTION_TAGS : nat := 32.

Definition truncate_chars (value : Str) (max_chars : nat) : Str := take max_chars value.

Definition clean_caption_value (value : Str) (max_chars : nat) : Str :=
  trim (truncate_chars ((λ c, if is_control c then 32 else c) <$> value) max_chars).

(** [[..].join(separator)]. *)
Fixpoint join (separator : Str) (parts : list Str) : Str :=
  match parts with
  | [] => []
  | [p] => p
  | p :: rest => p ++ separator ++ join separator rest
  end.

(** A line of the caption, absent when its value is empty. *)
Definition caption_line (label : string) (value : Str) : list Str :=
  if is_empty value then [] else [lit label ++ value].

Definition caption_lines (m : StorageCaptionMetadata) : list Str :=
  match cm_description m with
  | Some d => caption_line "description: " (clean_caption_value d 512)
  | None => []
  end
  ++ caption_line "tags: "
       (join (lit ", ")
          (filter (λ t, is_empty t = false)
             ((λ t, clean_caption_value t 64) <$> take MAX_STORAGE_CAPTION_TAGS (cm_tags m))))
  ++ match cm_source_url m with
     | Some u => caption_line "source: " (clean_caption_value u 512)
     | None => []
     end.

Definition storage_caption (m : StorageCaptionMetadata) : Str :=
  let caption := join [10] (caption_lines m) in
  if is_empty caption then lit "sooqa" else truncate_chars caption MAX_STORAGE_CAPTION_CHARS.

(** ** Properties *)

(** A character Telegram shows: no control character but the line break. *)
Definition caption_char (c : Z) : Prop := is_control c = true → c = 10.

Lemma trim_start_Forall (Q : Z → Prop) s : Forall Q s → Forall Q (trim_start s).
Proof. induction 1; simpl; [done|]. case_match; [done|by constructor]. Qed.
Lemma trim_Forall (Q : Z → Prop) s : Forall Q s → Forall Q (trim s).
Proof.
  intros H. unfold trim, trim_end. apply Forall_reverse, trim_start_Forall, Forall_reverse.
  by apply trim_start_Forall.
Qed.

Lemma clean_value_clean value n :
  Forall (λ c, is_control c = false) (clean_caption_value value n).
Proof.
  unfold clean_caption_value, truncate_chars. apply trim_Forall, Forall_take.
  apply Forall_fmap. apply Forall_true. intros c. simpl. by destruct (is_control c) eqn:?.
Qed.

Lemma join_Forall (Q : Z → Prop) sep parts :
  Forall Q sep → Forall (Forall Q) parts → Forall Q (join sep parts).
Proof.
  intros Hs. induction 1 as [|p [|p' rest] Hp Hrest IH]; simpl; [done|done|].
  apply Forall_app. split; [done|]. apply Forall_app. by split.
Qed.

Lemma line_Forall (Q : Z → Prop) label value :
  Forall Q (lit label) → Forall Q value → Forall (Forall Q) (caption_line label value).
Proof.
  intros. unfold caption_line. case_match; [done|]. apply Forall_singleton, Forall_app. by split.
Qed.

Lemma clean_chars value : Forall (λ c, is_control c = false) value → Forall caption_char value.
Proof. intros H. eapply Forall_impl; [exact H|]. intros c Hc. unfold caption_char. by rewrite Hc. Qed.

Lemma literal_chars s :
  forallb (λ c, negb (is_control c)) (lit s) = true → Forall caption_char (lit s).
Proof.
  intros H. apply clean_chars. apply List.Forall_forall. intros c Hc.
  rewrite List.forallb_forall in H. by apply negb_true_iff, H.
Qed.

Lemma caption_lines_chars m : Forall (Forall caption_char) (caption_lines m).
Proof.
  unfold caption_lines.
  assert (∀ o label, forallb (λ c, negb (is_control c)) (lit label) = true →
    Forall (Forall caption_char) (match o with
      | Some v => caption_line label (clean_caption_value v 512) | None => [] end)) as Hopt.
  { intros [v|] label Hl; [|done]. apply line_Forall; [by apply literal_chars|].
    apply clean_chars, clean_value_clean. }
  apply Forall_app. split; [by apply Hopt|]. apply Forall_app. split; [|by apply Hopt].
  apply line_Forall; [by apply literal_chars|]. apply join_Forall; [by apply literal_chars|].
  apply Forall_forall. intros t Ht. apply list_elem_of_filter in Ht as [_ Ht].
  apply list_elem_of_fmap in Ht as (v & -> & _). apply clean_chars, clean_value_clean.
Qed.

(** the caption of a stored message is one Telegram accepts: between 1 and 1024
    characters, and the only control character in it is the line break between its
    lines, whatever the description, the tags and the source URL hold. *)
Theorem storage_caption_is_bounded m :
  (1 ≤ length (storage_caption m) ≤ MAX_STORAGE_CAPTION_CHARS)%nat
  ∧ Forall caption_char (storage_caption m).
Proof.
  unfold storage_caption, truncate_chars.
  destruct (join [10] (caption_lines m)) as [|c rest] eqn:Hj.
  - unfold MAX_STORAGE_CAPTION_CHARS. split; [simpl; lia|by apply literal_chars].
  - simpl is_empty. cbv iota. split.
    + unfold MAX_STORAGE_CAPTION_CHARS. rewrite length_take. simpl length. lia.
    + apply Forall_take. rewrite <-Hj. apply join_Forall; [|apply caption_lines_chars].
      by repeat constructor.
Qed.
