(* ===== verification/LibraryRepo.v ===== *)
(** * LibraryRepo: storage uploads and caption synchronisation

    The storage and caption half of [persistence/src/library.rs].  A media row
    is reserved for one upload under an owner token; the outcome of an upload is
    recorded, released, or declared unknown; the caption of a stored message is
    synchronised under a generation and a claim token.  Settlement and stale
    recovery of the two job families keep the media row, the linked ingests and
    the queue row in one transaction. *)

From S2P Require Import Prelude Enums Jobs Db Queue Cleanup Preview Library.

Inductive LibraryRepositoryError :=
| LibDatabase (e : SqlError)
| ResourceMissing (id : Uuid)
| LibOptimisticConflict (id : Uuid)
| InvalidTag (e : TagValidationError)
| CaptionSyncUnavailable (id : Uuid)
| CaptionSyncGenerationOverflow (id : Uuid)
| StorageUploadActive (id : Uuid)
| WorkspaceReclaimed (id : Uuid)
| StorageGenerationOverflow (id : Uuid)
| StorageUploadNotUnknown (id : Uuid)
| StorageUploadLeaseLost (id : Uuid)
| StorageReceiptMissing (id : Uuid)
| InvalidStorageMessageId (id : Z)
| EmptyStorageField (field : string)
| LibSerialization (e : Str)
| InvalidFingerprint (e : VideoFingerprintInputError)
| InvalidVideoIdentityKind
| DuplicateEvidenceTooLarge (max : Z)
| DuplicateEvidenceEmpty
| DuplicateEvidenceTooManyMatches (max : Z)
| DuplicateEvidenceMissingStrongMatch
| DuplicateEvidenceAlgorithmVersionMismatch (expected actual : Str)
| DuplicateEvidenceFingerprintVersionMismatch (expected actual : Str)
| DuplicateEvidenceInvalidBasisPoints (field : string) (value : Z)
| DuplicateEvidenceInvalidSharedTokenCount (value : Z)
| MissingSha256
| MissingFingerprint
| InvalidSha256Length (actual : nat)
| InvalidPreview (why : string)
| InvalidPreviewOwned (e : PreviewValidationError)
| UnknownSourceKind (kind : Str)
| Invariant (why : string)
| InvalidNumber (field : string).

Section Repo.
Context {J : Json} {P : PayloadSerde} {C : CaseMapping}.
Abbreviation ltxn A := (txn Db LibraryRepositoryError A).
Abbreviation jtxn A := (txn Db JobRepositoryError A).

(** ** Statements *)

(** [UPDATE media SET .. WHERE id = $1 AND guard RETURNING *] under the
    table's [CHECK]s. *)
Definition update_media_where {E} (inj : SqlError → E) (id : Uuid) (guard : MediaRow → bool)
    (set : MediaRow → MediaRow) : txn Db E (option MediaRow) :=
  o ← select_media id;
  match o with
  | Some r =>
      if guard r then
        fail_if (negb (media_check (set r))) (inj CheckViolation);;
        write_media (set r);; mret (Some (set r))
      else mret None
  | None => mret None
  end.

(** [UPDATE ingests SET .. WHERE guard], any number of rows. *)
Definition update_ingests_where {E} (guard : IngestRow → bool) (set : IngestRow → IngestRow)
    : txn Db E unit :=
  db ← get_state;
  put_state (db <| db_ingests := (λ r, if guard r then set r else r) <$> db_ingests db |>).

Definition lock_media (id : Uuid) : ltxn MediaRow :=
  o ← select_media id; require o (ResourceMissing id).

(** ** Caption values *)

Definition has_storage_message (r : MediaRow) : bool :=
  bool_decide (media_storage_state r = MediaStorageState.Ready)
  && is_some (media_storage_chat_id r) && is_some (media_storage_message_id r).

Definition storage_caption_metadata_from_row (r : MediaRow) : StorageCaptionMetadata :=
  {| cm_description := media_description r; cm_tags := media_tags r;
     cm_source_url := media_source_url r |}.

Definition storage_caption_metadata_matches (r : MediaRow) (m : StorageCaptionMetadata) : bool :=
  bool_decide (media_description r = cm_description m)
  && bool_decide (media_tags r = cm_tags m)
  && bool_decide (media_source_url r = cm_source_url m).

(** The four caption columns. *)
Record CaptionSyncValues := {
  cv_generation : Z;
  cv_state : CaptionSyncState.t;
  cv_error : option Str;
  cv_claim_token : option Uuid;
}.

(** [i32::checked_add(1)]. *)
Definition checked_succ_i32 (z : Z) : option Z := if z + 1 <=? i32_max then Some (z + 1) else None.

Definition next_caption_sync_values (r : MediaRow) (changed : bool)
    : result LibraryRepositoryError CaptionSyncValues :=
  if negb changed then
    Ok {| cv_generation := media_caption_sync_generation r;
          cv_state := media_caption_sync_state r;
          cv_error := media_caption_sync_error r;
          cv_claim_token := media_caption_sync_claim_token r |}
  else if negb (has_storage_message r) then
    Ok {| cv_generation := media_caption_sync_generation r;
          cv_state := CaptionSyncState.NotRequired; cv_error := None; cv_claim_token := None |}
  else
    g ← ok_or (checked_succ_i32 (media_caption_sync_generation r))
          (CaptionSyncGenerationOverflow (media_id r));
    Ok {| cv_generation := g; cv_state := CaptionSyncState.Pending; cv_error := None;
          cv_claim_token := None |}.

Definition caption_sync_values_after_storage_upload (r : MediaRow)
    (m : option StorageCaptionMetadata) : result LibraryRepositoryError CaptionSyncValues :=
  if match m with Some m => storage_caption_metadata_matches r m | None => false end then
    Ok {| cv_generation := media_caption_sync_generation r;
          cv_state := CaptionSyncState.Synced; cv_error := None; cv_claim_token := None |}
  else next_caption_sync_values r true.

Definition truncate_sync_error (value : Str) (max_chars : nat) : Str := take max_chars value.

Definition with_caption_values (v : CaptionSyncValues) (now : Z) (r : MediaRow) : MediaRow :=
  r <| media_caption_sync_generation := cv_generation v;
       media_caption_sync_state := cv_state v; media_caption_sync_error := cv_error v;
       media_caption_sync_claim_token := cv_claim_token v; media_updated_at := now |>.

(** ** Caption jobs *)

Definition caption_sync_key (m : Uuid) (g : Z) : Str :=
  lit "media:" ++ uuid_to_string m ++ lit ":caption_sync:v1:" ++ show g.
Definition caption_reapply_key (m : Uuid) (g stale_g : Z) (stale_token : Uuid) : Str :=
  caption_sync_key m g ++ lit ":after:" ++ show stale_g ++ lit ":claim:"
    ++ uuid_to_string stale_token.

Definition enqueue_caption_sync_job_with_key (fresh m : Uuid) (g : Z) (key : Str) : ltxn unit :=
  insert_job_if_absent LibDatabase fresh (with_dedupe_key key (new_sync_storage_caption m g)).
Definition enqueue_caption_sync_job (fresh m : Uuid) (g : Z) : ltxn unit :=
  enqueue_caption_sync_job_with_key fresh m g (caption_sync_key m g).
Definition enqueue_caption_sync_reapply_job (fresh m : Uuid) (g stale_g : Z)
    (stale_token : Uuid) : ltxn unit :=
  enqueue_caption_sync_job_with_key fresh m g (caption_reapply_key m g stale_g stale_token).

(** ** Caption synchronisation *)

(** [state = 'pending', error = NULL, claim_token = NULL]. *)
Definition caption_pending (now : Z) (r : MediaRow) : MediaRow :=
  r <| media_caption_sync_state := CaptionSyncState.Pending; media_caption_sync_error := None;
       media_caption_sync_claim_token := None; media_updated_at := now |>.

Definition retry_caption_sync (fresh id : Uuid) : ltxn MediaRow :=
  r ← lock_media id;
  fail_if (negb (has_storage_message r)) (CaptionSyncUnavailable id);;
  if negb (bool_decide (media_caption_sync_state r = CaptionSyncState.Failed)) then mret r
  else
    g ← require (checked_succ_i32 (media_caption_sync_generation r))
          (CaptionSyncGenerationOverflow id);
    ck ← get_clock;
    o ← update_media_where LibDatabase id (λ _, true)
          (λ r, (caption_pending (sql_now ck) r) <| media_caption_sync_generation := g |>);
    row ← require o (LibDatabase RowNotFound);
    enqueue_caption_sync_job fresh id g;;
    mret row.

Definition begin_caption_sync (id : Uuid) (g : Z) (token : Uuid)
    : ltxn (option CaptionSyncClaim) :=
  r ← lock_media id;
  if negb (media_caption_sync_generation r =? g) || negb (has_storage_message r)
     || negb (bool_decide (media_caption_sync_state r = CaptionSyncState.Pending))
  then mret None
  else
    ck ← get_clock;
    _ ← update_media_where LibDatabase id
          (λ r, (media_caption_sync_generation r =? g)
                && bool_decide (media_caption_sync_state r = CaptionSyncState.Pending))
          (λ r, r <| media_caption_sync_state := CaptionSyncState.Syncing;
                     media_caption_sync_error := None;
                     media_caption_sync_claim_token := Some token;
                     media_updated_at := sql_now ck |>);
    (* [expect("storage message was checked")]: the row has both. *)
    mret (chat ← media_storage_chat_id r;
          message ← media_storage_message_id r;
          Some {| cc_media_id := id; cc_generation := g; cc_claim_token := token;
                  cc_chat_id := chat; cc_message_id := message;
                  cc_metadata := storage_caption_metadata_from_row r |}).

(** [let (state, error) = if succeeded { .. } else if retryable { .. } else { .. }]. *)
Definition caption_outcome_state (succeeded retryable : bool) : CaptionSyncState.t :=
  if succeeded then CaptionSyncState.Synced
  else if retryable then CaptionSyncState.Pending else CaptionSyncState.Failed.
Definition caption_outcome_error (succeeded retryable : bool) (error : option Str) : option Str :=
  if succeeded then None
  else if retryable then None else (λ e, truncate_sync_error e 512) <$> error.

Definition complete_caption_sync (fresh id : Uuid) (g : Z) (token : Uuid)
    (succeeded retryable : bool) (error : option Str) : ltxn CaptionSyncCompletion :=
  r ← lock_media id;
  ck ← get_clock;
  if negb (has_storage_message r)
     || bool_decide (media_caption_sync_state r = CaptionSyncState.NotRequired)
  then mret Stale
  else if negb (media_caption_sync_generation r =? g) then
    let current := media_caption_sync_generation r in
    _ ← update_media_where LibDatabase id (λ r, media_caption_sync_generation r =? current)
          (caption_pending (sql_now ck));
    enqueue_caption_sync_reapply_job fresh id current g token;;
    mret Stale
  else if negb (bool_decide (media_caption_sync_state r = CaptionSyncState.Syncing))
          || negb (bool_decide (media_caption_sync_claim_token r = Some token))
  then mret Stale
  else
    _ ← update_media_where LibDatabase id
          (λ r, (media_caption_sync_generation r =? g)
                && bool_decide (media_caption_sync_claim_token r = Some token)
                && bool_decide (media_caption_sync_state r = CaptionSyncState.Syncing))
          (λ r, r <| media_caption_sync_state := caption_outcome_state succeeded retryable;
                     media_caption_sync_error := caption_outcome_error succeeded retryable error;
                     media_caption_sync_claim_token := None;
                     media_updated_at := sql_now ck |>);
    mret Applied.

(** ** Editing *)

(** Normalised tags, first occurrences only. *)
Definition push_tag (tags : list Str) (tag : Str) : list Str :=
  if bool_decide (tag ∈ tags) then tags else tags ++ [tag].
Fixpoint normalize_tags_from (normalized tags : list Str)
    : result LibraryRepositoryError (list Str) :=
  match tags with
  | [] => Ok normalized
  | tag :: tags =>
      tag ← map_err InvalidTag (normalize_tag tag);
      normalize_tags_from (push_tag normalized tag) tags
  end.
Definition normalize_tags (tags : list Str) : result LibraryRepositoryError (list Str) :=
  normalize_tags_from [] tags.
Definition merge_tags (existing incoming : list Str) : list Str :=
  fold_left push_tag incoming existing.

Definition update_media (fresh id : Uuid) (u : MediaUpdate) : ltxn MediaRow :=
  current ← lock_media id;
  fail_if (negb (media_updated_at current =? mu_expected_updated_at u))
    (LibOptimisticConflict id);;
  tags ← lift (normalize_tags (mu_tags u));
  let changed := negb (bool_decide (mu_description u = media_description current))
                 || negb (bool_decide (tags = media_tags current)) in
  v ← lift (next_caption_sync_values current changed);
  ck ← get_clock;
  o ← update_media_where LibDatabase id (λ _, true)
        (λ r, with_caption_values v (sql_now ck)
                (r <| media_description := mu_description u; media_tags := tags |>));
  row ← require o (LibDatabase RowNotFound);
  (if changed && bool_decide (cv_state v = CaptionSyncState.Pending)
   then enqueue_caption_sync_job fresh id (cv_generation v) else mret tt);;
  mret row.

(** ** Exact duplicates *)

(** What an ingest brings to a media row that already has its bytes: the
    normalised tags, the optional title and description, the URL, and the
    source document, merged by [merge]. *)
Record IncomingMedia := {
  im_tags : list Str;
  im_title : option Str;
  im_description : option Str;
  im_source_url : option Str;
  im_source_value : Value;
}.

Definition has_sha (sha : list Z) (r : MediaRow) : bool :=
  bool_decide (media_canonical_sha256 r = Some sha).

(** The duplicate branch of [resolve_media] and of
    [persist_video_identity_in_transaction]. *)
Definition merge_existing_media (merge : Value → Value → Value) (fresh : Uuid) (sha : list Z)
    (i : IncomingMedia) : ltxn MediaRow :=
  db ← get_state;
  current ← require (find_row (has_sha sha) (db_media db)) (LibDatabase RowNotFound);
  let tags := merge_tags (media_tags current) (im_tags i) in
  let changed := match im_description i with
                 | Some d => negb (bool_decide (Some d = media_description current))
                 | None => false
                 end || negb (bool_decide (tags = media_tags current)) in
  v ← lift (next_caption_sync_values current changed);
  ck ← get_clock;
  o ← update_media_where LibDatabase (media_id current) (λ _, true)
        (λ r, with_caption_values v (sql_now ck)
           (r <| media_tags := tags;
                 media_title := match media_title r with Some t => Some t | None => im_title i end;
                 media_description := match im_description i with
                                      | Some d => Some d
                                      | None => media_description r
                                      end;
                 media_source_url := match media_source_url r with
                                     | Some u => Some u
                                     | None => im_source_url i
                                     end;
                 media_source_metadata := merge (media_source_metadata current)
                                                (im_source_value i) |>));
  row ← require o (LibDatabase RowNotFound);
  (if changed && bool_decide (cv_state v = CaptionSyncState.Pending)
   then enqueue_caption_sync_job fresh (media_id row) (cv_generation v) else mret tt);;
  mret row.
End Repo.
