(* ===== verification/LibraryStorage.v ===== *)
(** * LibraryStorage: reserving, completing and reconciling storage uploads

    The [StorageUploadStore] implementation, the operator commands, and the
    settlement and stale recovery of upload and caption jobs, of
    [persistence/src/library.rs]. *)

From S2P Require Import Prelude Enums Jobs Db Queue Cleanup Library LibraryRepo.

Section Storage.
Context {J : Json} {P : PayloadSerde} {C : CaseMapping}.
Abbreviation ltxn A := (txn Db LibraryRepositoryError A).
Abbreviation jtxn A := (txn Db JobRepositoryError A).

Definition into_storage_receipt (r : MediaRow) : result LibraryRepositoryError StorageReceipt :=
  chat ← ok_or (c ← media_storage_chat_id r; if c <? 0 then Some c else None)
           (StorageReceiptMissing (media_id r));
  message ← ok_or (m ← media_storage_message_id r; if 0 <? m then Some m else None)
              (StorageReceiptMissing (media_id r));
  Ok {| sr_media_id := media_id r; sr_chat_id := chat; sr_message_id := message;
        sr_file_id := media_file_id r; sr_file_unique_id := media_file_unique_id r;
        sr_media_kind := media_kind r;
        sr_stored_at := default (media_updated_at r) (media_stored_at r) |}.

Definition find_storage_receipt (media : Uuid) : ltxn (option StorageReceipt) :=
  o ← select_media media;
  match o with
  | Some r =>
      if bool_decide (media_storage_state r = MediaStorageState.Ready) then
        receipt ← lift (into_storage_receipt r);
        mret (Some receipt)
      else mret None
  | None => mret None
  end.

Definition validate_attachment (a : StorageUploadAttachment) : result LibraryRepositoryError unit :=
  if at_message_id a <=? 0 then Err (InvalidStorageMessageId (at_message_id a))
  else if match at_file_id a with Some s => is_empty s | None => false end then
    Err (EmptyStorageField "telegram_file_id")
  else if match at_file_unique_id a with Some s => is_empty s | None => false end then
    Err (EmptyStorageField "telegram_file_unique_id")
  else Ok tt.

(** ** Linked ingests *)

(** [error_code IN ('storage_upload', 'storage_unknown')]. *)
Definition storage_error (i : IngestRow) : bool :=
  bool_decide (ingest_error_code i = Some (lit "storage_upload"))
  || bool_decide (ingest_error_code i = Some (lit "storage_unknown")).
Definition linked (media : Uuid) (i : IngestRow) : bool :=
  bool_decide (ingest_media_id i = Some media).
Definition ingest_in (s : IngestStatus.t) (i : IngestRow) : bool :=
  bool_decide (ingest_state i = s).

Definition completed_ingest (now : Z) (i : IngestRow) : IngestRow :=
  i <| ingest_state := IngestStatus.Completed; ingest_error_code := None;
       ingest_error_message := None; ingest_completed_at := Some now;
       ingest_updated_at := now |>.
Definition unknown_ingest (message : Str) (now : Z) (i : IngestRow) : IngestRow :=
  i <| ingest_state := IngestStatus.FailedTerminal;
       ingest_error_code := Some (lit "storage_unknown");
       ingest_error_message := Some message; ingest_completed_at := Some now;
       ingest_updated_at := now |>.

(** The ingests a finished upload completes. *)
Definition awaits_storage (media : Uuid) (i : IngestRow) : bool :=
  linked media i && negb (ingest_in IngestStatus.Cancelled i)
  && (ingest_in IngestStatus.Storing i
      || (ingest_in IngestStatus.FailedRetryable i && storage_error i)
      || (ingest_in IngestStatus.FailedTerminal i && storage_error i)).

Definition mark_linked_ingests_storage_unknown (media : Uuid) : ltxn unit :=
  ck ← get_clock;
  update_ingests_where
    (λ i, linked media i
          && (negb (ingest_in IngestStatus.Cancelled i || ingest_in IngestStatus.FailedTerminal i)
              || storage_error i))
    (unknown_ingest (lit "media storage requires explicit reconciliation") (sql_now ck)).

Definition reopen_linked_ingests_for_storage (media : Uuid) : ltxn unit :=
  ck ← get_clock;
  update_ingests_where
    (λ i, linked media i && negb (ingest_in IngestStatus.Cancelled i)
          && (ingest_in IngestStatus.Completed i || ingest_in IngestStatus.Storing i
              || storage_error i))
    (λ i, i <| ingest_state := IngestStatus.Storing; ingest_error_code := None;
               ingest_error_message := None; ingest_completed_at := None;
               ingest_updated_at := sql_now ck |>).

Definition materialize_key (ingest : Uuid) : Str :=
  lit "ingest:" ++ uuid_to_string ingest ++ lit ":materialize_publication:v1".

(** [gen i] is the identifier drawn for the materialisation job of ingest [i]. *)
Definition complete_linked_ingests_for_storage (gen : Uuid → Uuid) (media : Uuid) : ltxn unit :=
  ck ← get_clock;
  db ← get_state;
  let updated := select_rows (awaits_storage media) (db_ingests db) in
  update_ingests_where (awaits_storage media) (completed_ingest (sql_now ck));;
  for_each (λ i,
      if bool_decide (ingest_requested_action i = RequestedAction.Save) then mret tt
      else insert_job_if_absent LibDatabase (gen (ingest_id i))
             (with_dedupe_key (materialize_key (ingest_id i))
                (new_materialize_publication (ingest_id i))))
    updated.

(** [UPDATE queue.jobs .. WHERE kind = 'upload_storage_asset' AND state =
    'queued' AND payload->>'media_id' = ..]. *)
Definition settle_queued_storage_upload_jobs (media : Uuid) : ltxn unit :=
  ck ← get_clock;
  db ← get_state;
  put_state (db <| db_jobs := (λ j,
    if bool_decide (job_kind j = JobType.UploadStorageAsset)
       && bool_decide (job_state j = JobStatus.Queued)
       && bool_decide (json_text (job_payload j) "media_id" = Some (uuid_to_string media))
    then j <| job_state := JobStatus.Failed; job_lease_token := None;
              job_lease_owner := None; job_lease_expires_at := None;
              job_last_heartbeat_at := None;
              job_error_class := Some (lit "storage_upload_unknown");
              job_error_message := Some (lit "media storage requires explicit reconciliation");
              job_completed_at := Some (sql_now ck); job_updated_at := sql_now ck |>
    else j) <$> db_jobs db |>).

(** ** Uploads *)

(** [storage_token = NULL, storage_started_at = NULL, updated_at = now()]. *)
Definition without_upload (state : MediaStorageState.t) (now : Z) (r : MediaRow) : MediaRow :=
  r <| media_storage_state := state; media_storage_token := None;
       media_storage_started_at := None; media_updated_at := now |>.
Definition owns_upload (token : Uuid) (r : MediaRow) : bool :=
  bool_decide (media_storage_token r = Some token).
Definition storage_in (s : MediaStorageState.t) (r : MediaRow) : bool :=
  bool_decide (media_storage_state r = s).

Definition reserve_storage_upload (token media : Uuid) (g : Z) : ltxn StorageUploadReservation :=
  r ← lock_media media;
  if storage_in MediaStorageState.Ready r then
    receipt ← lift (into_storage_receipt r);
    mret (Reused receipt)
  else if negb (media_storage_generation r =? g) then
    mret (StaleGeneration (media_storage_generation r))
  else if storage_in MediaStorageState.Unknown r || storage_in MediaStorageState.Missing r then
    mret ReconciliationRequired
  else if is_some (media_storage_token r) then
    mret (InProgress ((λ t, t + 600 * 1000000) <$> media_storage_started_at r))
  else
    ck ← get_clock;
    o ← update_media_where LibDatabase media
          (λ r, storage_in MediaStorageState.Pending r && (media_storage_generation r =? g)
                && is_none (media_storage_token r))
          (λ r, r <| media_storage_token := Some token;
                     media_storage_started_at := Some (sql_now ck);
                     media_updated_at := sql_now ck |>);
    match o with
    | None => mret (InProgress None)
    | Some _ => mret (Reserved media token (storage_caption_metadata_from_row r))
    end.

Definition renew_storage_upload (media token : Uuid) (lease_us : Z) : ltxn Z :=
  ck ← get_clock;
  o ← update_media_where LibDatabase media (owns_upload token)
        (λ r, r <| media_storage_started_at := Some (sql_now ck);
                   media_updated_at := sql_now ck |>);
  r ← require o (StorageUploadLeaseLost media);
  mret (sql_now ck + lease_us).

(** The columns a finished upload writes. *)
Definition stored_media (a : StorageUploadAttachment) (now : Z) (r : MediaRow) : MediaRow :=
  (without_upload MediaStorageState.Ready now r)
  <| media_storage_chat_id := Some (at_chat_id a);
     media_storage_message_id := Some (at_message_id a); media_file_id := at_file_id a;
     media_file_unique_id := at_file_unique_id a; media_local_work_path := None;
     media_stored_at := Some now |>.

(** What follows the first [UPDATE] of [complete] and [attach]. *)
Definition finish_stored (fresh : Uuid) (gen : Uuid → Uuid) (media : Uuid)
    (a : StorageUploadAttachment) (row : MediaRow) : ltxn MediaRow :=
  v ← lift (caption_sync_values_after_storage_upload row (at_caption_metadata a));
  ck ← get_clock;
  o ← update_media_where LibDatabase media (λ _, true) (with_caption_values v (sql_now ck));
  row ← require o (LibDatabase RowNotFound);
  (if bool_decide (cv_state v = CaptionSyncState.Pending)
   then enqueue_caption_sync_job fresh media (cv_generation v) else mret tt);;
  complete_linked_ingests_for_storage gen media;;
  enqueue_workspace_cleanup_for_media LibDatabase gen media (app_now ck);;
  mret row.

Definition complete_storage_upload_txn (fresh : Uuid) (gen : Uuid → Uuid) (media token : Uuid)
    (a : StorageUploadAttachment) : ltxn MediaRow :=
  _ ← lift (validate_attachment a);
  ck ← get_clock;
  o ← update_media_where LibDatabase media
        (λ r, owns_upload token r && storage_in MediaStorageState.Pending r)
        (stored_media a (sql_now ck));
  row ← require o (StorageUploadLeaseLost media);
  finish_stored fresh gen media a row.
Definition complete_storage_upload (fresh : Uuid) (gen : Uuid → Uuid) (media token : Uuid)
    (a : StorageUploadAttachment) : op Db LibraryRepositoryError StorageReceipt :=
  commit_then (complete_storage_upload_txn fresh gen media token a) into_storage_receipt.

Definition attach_storage_upload_txn (fresh : Uuid) (gen : Uuid → Uuid) (media : Uuid) (g : Z)
    (a : StorageUploadAttachment) : ltxn MediaRow :=
  _ ← lift (validate_attachment a);
  ck ← get_clock;
  o ← update_media_where LibDatabase media
        (λ r, (media_storage_generation r =? g) && storage_in MediaStorageState.Unknown r)
        (stored_media a (sql_now ck));
  row ← require o (StorageUploadNotUnknown media);
  finish_stored fresh gen media a row.
Definition attach_storage_upload (fresh : Uuid) (gen : Uuid → Uuid) (media : Uuid) (g : Z)
    (a : StorageUploadAttachment) : op Db LibraryRepositoryError StorageReceipt :=
  commit_then (attach_storage_upload_txn fresh gen media g a) into_storage_receipt.

Definition release_storage_upload (media token : Uuid) : ltxn unit :=
  ck ← get_clock;
  _ ← update_media_where LibDatabase media (owns_upload token)
        (without_upload MediaStorageState.Pending (sql_now ck));
  mret tt.

(** The worker's [mark_storage_upload_unknown]. *)
Definition mark_upload_unknown (media token : Uuid) : ltxn unit :=
  ck ← get_clock;
  o ← update_media_where LibDatabase media
        (λ r, owns_upload token r && storage_in MediaStorageState.Pending r)
        (without_upload MediaStorageState.Unknown (sql_now ck));
  _ ← require o (StorageUploadLeaseLost media);
  mark_linked_ingests_storage_unknown media;;
  settle_queued_storage_upload_jobs media.

(** The operator's [mark_storage_upload_unknown]. *)
Definition operator_mark_unknown (id : Uuid) (force : bool) : ltxn unit :=
  r ← lock_media id;
  fail_if (is_some (media_storage_token r) && negb force) (StorageUploadActive id);;
  ck ← get_clock;
  _ ← update_media_where LibDatabase id (λ _, true)
        (without_upload MediaStorageState.Unknown (sql_now ck));
  mark_linked_ingests_storage_unknown id;;
  settle_queued_storage_upload_jobs id.

(** A running cleanup job for the current workspace of a linked ingest. *)
Definition cleanup_running (db : Db) (media : Uuid) : bool :=
  existsb (λ j, existsb (λ i,
      bool_decide (json_text (job_payload j) "ingest_id" = Some (uuid_to_string (ingest_id i)))
      && bool_decide (json_text (job_payload j) "workspace_id"
                      = Some (uuid_to_string (ingest_workspace_id i))))
      (select_rows (linked media) (db_ingests db)))
    (select_rows (λ j, bool_decide (job_kind j = JobType.CleanupWorkspace)
                       && bool_decide (job_state j = JobStatus.Running)) (db_jobs db)).

Definition upload_key (media : Uuid) (g : Z) : Str :=
  lit "media:" ++ uuid_to_string media ++ lit ":upload_storage:v1:" ++ show g.

Definition reset_media (g now : Z) (r : MediaRow) : MediaRow :=
  (without_upload MediaStorageState.Pending now r)
  <| media_storage_generation := g; media_storage_chat_id := None;
     media_storage_message_id := None; media_file_id := None; media_file_unique_id := None;
     media_stored_at := None; media_caption_sync_state := CaptionSyncState.NotRequired;
     media_caption_sync_error := None; media_caption_sync_claim_token := None |>.

Definition reset_storage_upload (fresh id : Uuid) : ltxn unit :=
  r ← lock_media id;
  fail_if (is_some (media_storage_token r)) (StorageUploadActive id);;
  fail_if (is_none (media_local_work_path r)) (WorkspaceReclaimed id);;
  db ← get_state;
  fail_if (cleanup_running db id) (WorkspaceReclaimed id);;
  g ← require (checked_succ_i32 (media_storage_generation r)) (StorageGenerationOverflow id);
  ck ← get_clock;
  _ ← update_media_where LibDatabase id (λ _, true) (reset_media g (sql_now ck));
  reopen_linked_ingests_for_storage id;;
  insert_job_if_absent LibDatabase fresh
    (with_dedupe_key (upload_key id g) (new_upload_storage_asset_generation id g)).

(** ** Retention *)

Definition library_retention_eligible (db : Db) (c : JobCommand) : bool :=
  match c with
  | UploadStorageAsset p =>
      match db_media db !! media_job_id p with
      | Some r => storage_in MediaStorageState.Ready r || storage_in MediaStorageState.Missing r
      | None => false
      end
  | SyncStorageCaption p =>
      match db_media db !! media_job_id p with
      | Some r =>
          match media_caption_sync_state r with
          | CaptionSyncState.NotRequired | CaptionSyncState.Synced | CaptionSyncState.Failed => true
          | _ => false
          end
      | None => false
      end
  | _ => false
  end.

(** ** Settlement and recovery *)

Definition caption_command (c : JobCommand) : result JobRepositoryError MediaJobPayload :=
  match c with SyncStorageCaption p => Ok p | _ => Err LeaseLost end.
Definition upload_command (c : JobCommand) : result JobRepositoryError MediaJobPayload :=
  match c with UploadStorageAsset p => Ok p | _ => Err LeaseLost end.

(** [WHERE caption_sync_generation = .. AND caption_sync_state = 'syncing']. *)
Definition settle_caption (media : Uuid) (g : Z) (state : CaptionSyncState.t)
    (error : option Str) : jtxn unit :=
  ck ← get_clock;
  _ ← update_media_where JobDatabase media
        (λ r, (media_caption_sync_generation r =? g)
              && bool_decide (media_caption_sync_state r = CaptionSyncState.Syncing))
        (λ r, r <| media_caption_sync_state := state; media_caption_sync_error := error;
                   media_caption_sync_claim_token := None; media_updated_at := sql_now ck |>);
  mret tt.

Definition settle_caption_txn (l : JobLease) (expected : JobCommand) (s : JobSettlement)
    : jtxn JobRow :=
  p ← lift (caption_command expected);
  _ ← select_media (media_job_id p);
  job ← lock_running_job l (allows_expired_lease s);
  command ← lift (validate_locked_command job expected);
  p' ← lift (caption_command command);
  let u := queue_parameters job s in
  settle_caption (media_job_id p) (media_job_generation p')
    (if qu_terminal u then CaptionSyncState.Failed else CaptionSyncState.Pending)
    (if qu_terminal u then Some (truncate_sync_error (qu_error_message u) 512) else None);;
  update_locked_job (job_id job) u.

Definition recover_caption_job (id : Uuid) (expected : JobCommand) : jtxn bool :=
  p ← lift (caption_command expected);
  _ ← select_media (media_job_id p);
  o ← lock_expired_job id;
  match o with
  | None => mret false
  | Some job =>
      command ← lift (validate_locked_command job expected);
      p' ← lift (caption_command command);
      ck ← get_clock;
      let u := recovery_update job (app_now ck) in
      settle_caption (media_job_id p) (media_job_generation p')
        (if qu_terminal u then CaptionSyncState.Failed else CaptionSyncState.Pending)
        (if qu_terminal u
         then Some (lit "caption sync job lease expired after the final attempt") else None);;
      _ ← update_locked_job (job_id job) u;
      mret true
  end.

(** [storage_state = 'storage_unknown' .. WHERE storage_state <> 'ready'], then
    the linked ingests fail terminally. *)
Definition fail_storage (media : Uuid) (message : Str) : jtxn unit :=
  ck ← get_clock;
  _ ← update_media_where JobDatabase media (λ r, negb (storage_in MediaStorageState.Ready r))
        (without_upload MediaStorageState.Unknown (sql_now ck));
  update_ingests_where
    (λ i, linked media i && negb (ingest_in IngestStatus.Cancelled i)
          && (negb (ingest_in IngestStatus.FailedTerminal i) || storage_error i))
    (unknown_ingest message (sql_now ck)).

Definition reconcile_storage_terminal (media : Uuid) (cls message : Str) : jtxn unit :=
  ck ← get_clock;
  o ← select_media media;
  match media_storage_state <$> o with
  | Some MediaStorageState.Ready =>
      update_ingests_where (awaits_storage media) (completed_ingest (sql_now ck))
  | Some MediaStorageState.Pending => fail_storage media message
  | Some MediaStorageState.Unknown =>
      update_ingests_where
        (λ i, linked media i && negb (ingest_in IngestStatus.Cancelled i)
              && negb (ingest_in IngestStatus.FailedTerminal i))
        (unknown_ingest message (sql_now ck))
  | Some MediaStorageState.Missing | None => mret tt
  end.

Definition settle_storage_txn (l : JobLease) (expected : JobCommand) (s : JobSettlement)
    : jtxn JobRow :=
  p ← lift (upload_command expected);
  _ ← select_media (media_job_id p);
  job ← lock_running_job l (allows_expired_lease s);
  command ← lift (validate_locked_command job expected);
  p' ← lift (upload_command command);
  let u := queue_parameters job s in
  (if qu_terminal u
   then reconcile_storage_terminal (media_job_id p') (qu_error_class u) (qu_error_message u)
   else mret tt);;
  update_locked_job (job_id job) u.

Definition storage_recovery_message : Str :=
  lit "storage job lease expired; external storage result requires reconciliation".

(** An upload whose reservation was renewed within the last minute. *)
Definition upload_fresh (r : MediaRow) (now : Z) : bool :=
  storage_in MediaStorageState.Pending r && is_some (media_storage_token r)
  && match media_storage_started_at r with
     | Some t => now - 60 * 1000000 <? t
     | None => false
     end.

(** What recovery makes of the queue row for a media row in a given state. *)
Definition storage_recovery_update (job : JobRow) (r : MediaRow) (now : Z) : QueueUpdate :=
  let terminal := (job_max_attempts job <=? job_attempt_count job)
                  || negb (storage_in MediaStorageState.Pending r)
                  || is_some (media_storage_token r) in
  let '(state, cls, msg, refund) :=
    if storage_in MediaStorageState.Ready r then (JobStatus.Succeeded, [], [], false)
    else if storage_in MediaStorageState.Pending r && is_none (media_storage_token r) then
      (JobStatus.Queued, lit "storage_upload_cancelled",
       lit "storage upload was safely cancelled before Telegram dispatch", true)
    else (JobStatus.Failed, lit "storage_unknown", storage_recovery_message, false) in
  {| qu_state := state;
     qu_run_at := if bool_decide (state = JobStatus.Succeeded) then job_run_at job else now;
     qu_error_class := cls; qu_error_message := msg;
     qu_terminal := (terminal && negb (bool_decide (state = JobStatus.Queued)))
                    || bool_decide (state = JobStatus.Succeeded);
     qu_non_consuming := bool_decide (state = JobStatus.Queued) && refund |}.

Definition missing_media_update (job : JobRow) : QueueUpdate :=
  {| qu_state := JobStatus.Failed; qu_run_at := job_run_at job;
     qu_error_class := lit "storage_unknown";
     qu_error_message :=
       lit "storage media row is missing; external storage result requires reconciliation";
     qu_terminal := true; qu_non_consuming := false |}.

(** [UPDATE queue.jobs SET error_class = NULL, error_message = NULL WHERE id = $1]. *)
Definition without_error (j : JobRow) : JobRow :=
  j <| job_error_class := None; job_error_message := None |>.
Definition clear_job_error (id : Uuid) : jtxn unit :=
  o ← select_job id;
  match o with
  | Some j => write_job (without_error j)
  | None => mret tt
  end.

Definition recover_storage_job (id : Uuid) (expected : JobCommand) : jtxn bool :=
  p ← lift (upload_command expected);
  _ ← select_media (media_job_id p);
  o ← lock_expired_job id;
  match o with
  | None => mret false
  | Some job =>
      command ← lift (validate_locked_command job expected);
      p' ← lift (upload_command command);
      ck ← get_clock;
      row ← select_media (media_job_id p');
      match row with
      | None => _ ← update_locked_job (job_id job) (missing_media_update job); mret true
      | Some r =>
          if upload_fresh r (app_now ck) then mret false
          else
            let u := storage_recovery_update job r (app_now ck) in
            match qu_state u with
            | JobStatus.Failed => fail_storage (media_job_id p') storage_recovery_message
            | JobStatus.Succeeded =>
                update_ingests_where (awaits_storage (media_job_id p'))
                  (completed_ingest (sql_now ck))
            | _ => mret tt
            end;;
            _ ← update_locked_job (job_id job) u;
            (if bool_decide (qu_state u = JobStatus.Succeeded)
             then clear_job_error (job_id job) else mret tt);;
            mret true
      end
  end.
End Storage.
