(* ===== verification/MediaIdentity.v ===== *)
(** * MediaIdentity: media rows by their bytes

    The identity half of [persistence/src/library.rs]: validation of what an
    ingest brings, insertion of a media row under its canonical SHA-256, the
    merge into an existing row, the retrieval of fingerprint candidates and the
    video identity transactions, and the conversion of rows to the domain. *)

From S2P Require Import Prelude Enums Jobs Db Queue Envelope Cleanup Preview Library LibraryRepo.

(** What the conversions take from the standard library, [time] and [uuid], and
    the serialisation of the evidence. *)
Class LibraryText {J : Json} := {
  (** [OffsetDateTime]'s [Display]. *)
  display_time : Z → Str;
  (** [OffsetDateTime::parse(.., &Rfc3339)]. *)
  parse_time : Str → option Z;
  (** [Uuid::parse_str]. *)
  parse_uuid : Str → option Uuid;
  serde_evidence :: Serde VideoDuplicateEvidence;
}.

(** ** What an ingest brings *)

Record MediaPreviewInput := {
  pi_bytes : list Z;
  pi_mime_type : Str;
  pi_width : Z;
  pi_height : Z;
  pi_sha256 : list Z;
}.
Record NewMedia := {
  nm_kind : MediaKind.t;
  nm_title : option Str;
  nm_description : option Str;
}.
Record MediaMetadata := {
  mm_kind : MediaKind.t;
  mm_mime_type : option Str;
  mm_container : option Str;
  mm_video_codec : option Str;
  mm_audio_codec : option Str;
  mm_width : option Z;
  mm_height : option Z;
  mm_duration_ms : option Z;
  mm_bit_rate : option Z;
  mm_file_size_bytes : option Z;
  mm_sha256 : option (list Z);
  mm_local_work_path : option Str;
  mm_preview : option MediaPreviewInput;
}.

Section Records.
Context {J : Json}.

Record MediaSourceInput := {
  ms_ingest_id : option Uuid;
  ms_kind : SourceKind.t;
  ms_original_url : option Str;
  ms_normalized_url : option Str;
  ms_platform : option Str;
  ms_platform_content_id : option Str;
  ms_author_name : option Str;
  ms_title : option Str;
  ms_description : option Str;
  ms_published_at : option Z;
  ms_metadata : Value;
}.
Record MediaIngest := {
  mi_media : NewMedia;
  mi_metadata : MediaMetadata;
  mi_source : MediaSourceInput;
  mi_tags : list Str;
}.

(** ** Domain values *)

Record MediaPreviewMetadata := {
  pm_mime_type : Str;
  pm_width : Z;
  pm_height : Z;
  pm_size_bytes : Z;
  pm_sha256 : list Z;
}.
Record Media := {
  md_id : Uuid;
  md_kind : MediaKind.t;
  md_title : option Str;
  md_description : option Str;
  md_tags : list Str;
  md_mime_type : option Str;
  md_container : option Str;
  md_video_codec : option Str;
  md_audio_codec : option Str;
  md_width : option Z;
  md_height : option Z;
  md_duration_ms : option Z;
  md_bit_rate : option Z;
  md_file_size_bytes : option Z;
  md_sha256 : option (list Z);
  md_local_work_path : option Str;
  md_storage_state : MediaStorageState.t;
  md_preview : option MediaPreviewMetadata;
  md_caption_sync_generation : Z;
  md_caption_sync_state : CaptionSyncState.t;
  md_caption_sync_error : option Str;
  md_created_at : Z;
  md_updated_at : Z;
}.
Record MediaSource := {
  so_ingest_id : option Uuid;
  so_kind : SourceKind.t;
  so_original_url : option Str;
  so_normalized_url : option Str;
  so_platform : option Str;
  so_platform_content_id : option Str;
  so_author_name : option Str;
  so_title : option Str;
  so_description : option Str;
  so_published_at : option Z;
  so_retrieved_at : Z;
  so_metadata : Value;
}.
Record MediaResolution := {
  rs_media : Media;
  rs_source : MediaSource;
  rs_created : bool;
}.
Record VideoFingerprintCandidate := {
  vc_media_id : Uuid;
  vc_width : option Z;
  vc_height : option Z;
  vc_audio_codec : option Str;
  vc_fingerprint_version : Str;
  vc_fingerprint_data : list Z;
  vc_search_tokens : list Z;
  vc_shared_token_count : Z;
  vc_overlap_bps : Z;
}.
Record VideoIdentityPreparation := {
  vp_exact_media_id : option Uuid;
  vp_candidates : list VideoFingerprintCandidate;
}.
End Records.

Section Identity.
Context {J : Json} {P : PayloadSerde} {Sh : JsonShape} {C : CaseMapping} {I : ImageLib}
  {H : Sha256} {T : LibraryText}.
Abbreviation ltxn A := (txn Db LibraryRepositoryError A).
Abbreviation lresult A := (result LibraryRepositoryError A).

(** ** Previews *)

Definition supported_preview_mime (mime : Str) : bool :=
  bool_decide (mime = lit "image/jpeg") || bool_decide (mime = lit "image/png").

(** [mime .. || bytes.is_empty() || .. || sha256.len() != 32]. *)
Definition preview_out_of_bounds (bytes : list Z) (mime : Str) (width height : Z)
    (sha : list Z) : bool :=
  negb (supported_preview_mime mime) || is_empty bytes
  || (BOUNDED_PREVIEW_MAX_BYTES <? Z.of_nat (length bytes))
  || (width =? 0) || (BOUNDED_PREVIEW_MAX_WIDTH <? width)
  || (height =? 0) || (BOUNDED_PREVIEW_MAX_HEIGHT <? height)
  || negb (length sha =? 32)%nat.

(** The checks on a preview, shared by the way in and the way out. *)
Definition check_preview (bytes : list Z) (mime : Str) (width height : Z) (sha : list Z)
    : lresult unit :=
  if preview_out_of_bounds bytes mime width height sha
  then Err (InvalidPreview "preview violates its bounds")
  else if negb (bool_decide (sha256_digest bytes = sha))
  then Err (InvalidPreview "preview SHA-256 does not match bytes")
  else
    wh ← map_err InvalidPreviewOwned (validate_bounded_preview_for_mime bytes (Some mime));
    if negb (wh.1 =? width) || negb (wh.2 =? height)
    then Err (InvalidPreview "preview dimensions do not match its encoded image")
    else Ok tt.

Definition preview_bindings (kind : MediaKind.t) (preview : option MediaPreviewInput)
    : lresult (option MediaPreviewColumns) :=
  match preview with
  | None => Ok None
  | Some p =>
      if bool_decide (kind = MediaKind.Audio)
      then Err (InvalidPreview "audio media must not have a bitmap preview")
      else
        check_preview (pi_bytes p) (pi_mime_type p) (pi_width p) (pi_height p) (pi_sha256 p);;
        if i32_max <? pi_width p then Err (InvalidPreview "preview width does not fit the schema")
        else if i32_max <? pi_height p
        then Err (InvalidPreview "preview height does not fit the schema")
        else Ok (Some {| pv_bytes := pi_bytes p; pv_mime_type := pi_mime_type p;
                         pv_width := pi_width p; pv_height := pi_height p;
                         pv_sha256 := pi_sha256 p |})
  end.

Definition preview_metadata (r : MediaRow) : lresult (option MediaPreviewMetadata) :=
  match media_preview r with
  | None => Ok None
  | Some p =>
      if pv_width p <? 0 then Err (InvalidPreview "preview width is invalid")
      else if pv_height p <? 0 then Err (InvalidPreview "preview height is invalid")
      else
        check_preview (pv_bytes p) (pv_mime_type p) (pv_width p) (pv_height p) (pv_sha256 p);;
        Ok (Some {| pm_mime_type := pv_mime_type p; pm_width := pv_width p;
                    pm_height := pv_height p;
                    pm_size_bytes := Z.of_nat (length (pv_bytes p));
                    pm_sha256 := pv_sha256 p |})
  end.

(** ** Numbers *)

Definition to_i64 (value : option Z) (field : string) : lresult (option Z) :=
  match value with
  | Some v => if i64_max <? v then Err (InvalidNumber field) else Ok (Some v)
  | None => Ok None
  end.
Definition to_u64 (value : option Z) (field : string) : lresult (option Z) :=
  match value with
  | Some v => if v <? 0 then Err (InvalidNumber field) else Ok (Some v)
  | None => Ok None
  end.

(** ** Conversion of rows *)

Definition into_media (r : MediaRow) : lresult Media :=
  preview ← preview_metadata r;
  duration ← to_u64 (media_duration_ms r) "duration_ms";
  bit_rate ← to_u64 (media_bit_rate r) "bit_rate";
  size ← to_u64 (media_file_size_bytes r) "file_size_bytes";
  Ok {| md_id := media_id r; md_kind := media_kind r; md_title := media_title r;
        md_description := media_description r; md_tags := media_tags r;
        md_mime_type := media_mime_type r; md_container := media_container r;
        md_video_codec := media_video_codec r; md_audio_codec := media_audio_codec r;
        md_width := media_width r; md_height := media_height r; md_duration_ms := duration;
        md_bit_rate := bit_rate; md_file_size_bytes := size;
        md_sha256 := media_canonical_sha256 r; md_local_work_path := media_local_work_path r;
        md_storage_state := media_storage_state r; md_preview := preview;
        md_caption_sync_generation := media_caption_sync_generation r;
        md_caption_sync_state := media_caption_sync_state r;
        md_caption_sync_error := media_caption_sync_error r;
        md_created_at := media_created_at r; md_updated_at := media_updated_at r |}.

Record MediaPreviewData := { pd_metadata : MediaPreviewMetadata; pd_bytes : list Z }.

(** Both lookups only read; [select] finds the row. *)
Definition find_media (id : Uuid) : ltxn (option Media) :=
  o ← select_media id;
  match o with
  | Some r => m ← lift (into_media r); mret (Some m)
  | None => mret None
  end.

(** The five preview columns are set together ([Db.MediaPreviewColumns]); the size
    of a bounded preview fits a [u32]. *)
Definition find_media_preview (id : Uuid) : ltxn (option MediaPreviewData) :=
  o ← select_media id;
  r ← require o (ResourceMissing id);
  m ← lift (preview_metadata r);
  mret (match m, media_preview r with
        | Some m, Some p => Some {| pd_metadata := m; pd_bytes := pv_bytes p |}
        | _, _ => None
        end).

Definition source_from_row (r : MediaRow) : lresult (option MediaSource) :=
  let v := media_source_metadata r in
  if is_none (media_source_url r)
     && (is_null v || match as_object v with Some m => bool_decide (m = ∅) | None => false end)
  then Ok None
  else
    let kind := default (lit "direct_url")
                  (or_else (get "kind" v) (get "source_kind" v) ≫= as_string) in
    kind ← map_err UnknownSourceKind (try_from kind);
    Ok (Some {| so_ingest_id := get_str "ingest_id" v ≫= parse_uuid; so_kind := kind;
                so_original_url := get_str "original_url" v;
                so_normalized_url := media_source_url r;
                so_platform := get_str "platform" v;
                so_platform_content_id := get_str "platform_content_id" v;
                so_author_name := get_str "author_name" v; so_title := get_str "title" v;
                so_description := get_str "description" v;
                so_published_at := get_str "published_at" v ≫= parse_time;
                so_retrieved_at := media_updated_at r;
                so_metadata := default v (get "metadata" v) |}).

(** [Serialize] of an optional string. *)
Definition json_opt (o : option Str) : Value := match o with Some s => of_str s | None => jnull end.

Definition source_to_value (now : Z) (s : MediaSourceInput) : Value :=
  of_object (list_to_map
    [(lit "ingest_id", json_opt (uuid_to_string <$> ms_ingest_id s));
     (lit "kind", of_str (as_str (ms_kind s)));
     (lit "original_url", json_opt (ms_original_url s));
     (lit "platform", json_opt (ms_platform s));
     (lit "platform_content_id", json_opt (ms_platform_content_id s));
     (lit "author_name", json_opt (ms_author_name s));
     (lit "title", json_opt (ms_title s));
     (lit "description", json_opt (ms_description s));
     (lit "published_at", json_opt (display_time <$> ms_published_at s));
     (lit "retrieved_at", of_str (display_time now));
     (lit "metadata", ms_metadata s)]).

(** ** Merging source metadata *)

(** One key of [for (key, incoming_value) in incoming]. *)
Definition merge_entry (recur : Value → Value → Value) (existing incoming : option Value)
    : option Value :=
  match existing, incoming with
  | Some e, Some i =>
      if is_object e && is_object i then Some (recur e i)
      else if negb (is_null e) then Some e
      else if negb (is_null i) then Some i
      else Some e
  | None, Some i => if negb (is_null i) then Some i else None
  | e, None => e
  end.

Fixpoint merge_missing_within (fuel : nat) (existing incoming : Value) : Value :=
  match fuel with
  | O => existing
  | S fuel =>
      match as_object existing, as_object incoming with
      | Some e, Some i => of_object (merge (merge_entry (merge_missing_within fuel)) e i)
      | _, _ => if is_null existing then incoming else existing
      end
  end.
(** A value is as deep as its nesting, which bounds the recursion. *)
Definition merge_missing_source_metadata (existing incoming : Value) : Value :=
  merge_missing_within (S (depth existing)) existing incoming.

(** ** Validation *)

Definition validate_media_ingest (i : MediaIngest) : lresult unit :=
  match mm_sha256 (mi_metadata i) with
  | None => Err MissingSha256
  | Some sha =>
      if negb (length sha =? 32)%nat then Err (InvalidSha256Length (length sha))
      else
        preview_bindings (mm_kind (mi_metadata i)) (mm_preview (mi_metadata i));;
        Ok tt
  end.

Definition validate_video_fingerprint (f : VideoFingerprintInput) : lresult unit :=
  map_err InvalidFingerprint (fingerprint_validate f).

Definition basis_point_fields (m : VideoDuplicateMatch) : list (string * Z) :=
  [("incoming_coverage_bps", vm_incoming_coverage_bps m);
   ("candidate_coverage_bps", vm_candidate_coverage_bps m);
   ("median_distance_bps", vm_median_distance_bps m);
   ("high_percentile_distance_bps", vm_high_percentile_distance_bps m);
   ("score_bps", vm_score_bps m); ("token_overlap_bps", vm_token_overlap_bps m)]%string.

(** [for (field, value) in [..] { if !(0..=10_000).contains(&value) { .. } }]. *)
Fixpoint check_basis_points (fields : list (string * Z)) : lresult unit :=
  match fields with
  | [] => Ok tt
  | (field, value) :: fields =>
      if (0 <=? value) && (value <=? 10000) then check_basis_points fields
      else Err (DuplicateEvidenceInvalidBasisPoints field value)
  end.

Fixpoint check_matches (version : Str) (ms : list VideoDuplicateMatch) : lresult unit :=
  match ms with
  | [] => Ok tt
  | m :: ms =>
      if negb (bool_decide (vm_fingerprint_version m = version))
      then Err (DuplicateEvidenceFingerprintVersionMismatch version (vm_fingerprint_version m))
      else
        check_basis_points (basis_point_fields m);;
        if vm_shared_token_count m <? 0
        then Err (DuplicateEvidenceInvalidSharedTokenCount (vm_shared_token_count m))
        else check_matches version ms
  end.

Definition is_strong (m : VideoDuplicateMatch) : bool :=
  bool_decide (vm_classification m = Classification.StrongDuplicate).

Definition validate_duplicate_evidence (e : VideoDuplicateEvidence) (version : Str)
    : lresult unit :=
  if (length (ev_matches e) =? 0)%nat then Err DuplicateEvidenceEmpty
  else if MAX_VIDEO_DUPLICATE_MATCHES <? Z.of_nat (length (ev_matches e))
  then Err (DuplicateEvidenceTooManyMatches MAX_VIDEO_DUPLICATE_MATCHES)
  else if negb (bool_decide (ev_algorithm_version e = version))
  then Err (DuplicateEvidenceAlgorithmVersionMismatch version (ev_algorithm_version e))
  else if negb (existsb is_strong (ev_matches e)) then Err DuplicateEvidenceMissingStrongMatch
  else check_matches version (ev_matches e).

(** [serde_json::to_vec(evidence)?.len()]. *)
Definition evidence_len (e : VideoDuplicateEvidence) : Z := value_len (to_value e).

(** ** Insertion *)

(** The [CHECK]s on the descriptive columns, which only these statements write. *)
Definition positive (o : option Z) : bool := match o with Some v => 0 <? v | None => true end.
Definition non_negative (o : option Z) : bool := match o with Some v => 0 <=? v | None => true end.
Definition media_columns_check (r : MediaRow) : bool :=
  positive (media_width r) && positive (media_height r) && non_negative (media_duration_ms r)
  && non_negative (media_bit_rate r) && non_negative (media_file_size_bytes r)
  && match media_canonical_sha256 r with Some sha => (length sha =? 32)%nat | None => true end
  && match media_preview r with
     | Some p =>
         supported_preview_mime (pv_mime_type p)
         && (1 <=? Z.of_nat (length (pv_bytes p))) && (Z.of_nat (length (pv_bytes p)) <=? 131072)
         && (1 <=? pv_width p) && (pv_width p <=? 320)
         && (1 <=? pv_height p) && (pv_height p <=? 320)
         && (length (pv_sha256 p) =? 32)%nat
         && negb (bool_decide (media_kind r = MediaKind.Audio))
     | None => true
     end.

(** The bound values of the two [INSERT]s. *)
Record MediaInsert := {
  ins_kind : MediaKind.t;
  ins_sha : list Z;
  ins_fingerprint : option VideoFingerprintInput;
  ins_tags : list Str;
  ins_preview : option MediaPreviewColumns;
  ins_duration : option Z;
  ins_bit_rate : option Z;
  ins_size : option Z;
}.
Definition source_url_of (s : MediaSourceInput) : option Str :=
  or_else (ms_normalized_url s) (ms_original_url s).

Definition inserted_media (fresh : Uuid) (i : MediaIngest) (x : MediaInsert) (source : Value)
    (now : Z) : MediaRow :=
  let m := mi_metadata i in
  {| media_id := fresh; media_kind := ins_kind x; media_storage_state := MediaStorageState.Pending;
     media_canonical_sha256 := Some (ins_sha x);
     media_fingerprint_version := vf_version <$> ins_fingerprint x;
     media_fingerprint_data := vf_data <$> ins_fingerprint x;
     media_fingerprint_search_tokens := vf_search_tokens <$> ins_fingerprint x;
     media_title := nm_title (mi_media i); media_description := nm_description (mi_media i);
     media_tags := ins_tags x; media_source_url := source_url_of (mi_source i);
     media_source_metadata := source; media_mime_type := mm_mime_type m;
     media_container := mm_container m; media_video_codec := mm_video_codec m;
     media_audio_codec := mm_audio_codec m; media_width := mm_width m;
     media_height := mm_height m; media_duration_ms := ins_duration x;
     media_bit_rate := ins_bit_rate x; media_file_size_bytes := ins_size x;
     media_local_work_path := mm_local_work_path m; media_preview := ins_preview x;
     media_storage_chat_id := None; media_storage_message_id := None; media_file_id := None;
     media_file_unique_id := None; media_storage_generation := 0; media_storage_token := None;
     media_storage_started_at := None; media_caption_sync_generation := 0;
     media_caption_sync_state := CaptionSyncState.NotRequired; media_caption_sync_error := None;
     media_caption_sync_claim_token := None; media_created_at := now; media_updated_at := now;
     media_stored_at := None |}.

(** [INSERT INTO media ..] when no row has the bytes. *)
Definition insert_media (r : MediaRow) : ltxn unit :=
  db ← get_state;
  fail_if (is_some (db_media db !! media_id r)) (LibDatabase UniqueViolation);;
  fail_if (negb (media_columns_check r)) (LibDatabase CheckViolation);;
  write_media r.

Definition incoming_media (now : Z) (i : MediaIngest) (tags : list Str) : IncomingMedia :=
  {| im_tags := tags; im_title := nm_title (mi_media i);
     im_description := nm_description (mi_media i);
     im_source_url := source_url_of (mi_source i);
     im_source_value := source_to_value now (mi_source i) |}.

Definition bind_insert (i : MediaIngest) (kind : MediaKind.t) (sha : list Z)
    (f : option VideoFingerprintInput) (tags : list Str) : lresult MediaInsert :=
  let m := mi_metadata i in
  preview ← preview_bindings (mm_kind m) (mm_preview m);
  duration ← to_i64 (mm_duration_ms m) "duration_ms";
  bit_rate ← to_i64 (mm_bit_rate m) "bit_rate";
  size ← to_i64 (mm_file_size_bytes m) "file_size_bytes";
  Ok {| ins_kind := kind; ins_sha := sha; ins_fingerprint := f; ins_tags := tags;
        ins_preview := preview; ins_duration := duration; ins_bit_rate := bit_rate;
        ins_size := size |}.

(** ** Operations *)

(** [ON CONFLICT (canonical_sha256) DO NOTHING], then the merge. *)
Definition resolve_media_txn (fresh fresh_job : Uuid) (i : MediaIngest) : ltxn (MediaRow * bool) :=
  ck ← get_clock;
  tags ← lift (normalize_tags (mi_tags i));
  lift (validate_media_ingest i);;
  sha ← require (mm_sha256 (mi_metadata i)) MissingSha256;
  x ← lift (bind_insert i (mm_kind (mi_metadata i)) sha None tags);
  db ← get_state;
  match find_row (has_sha sha) (db_media db) with
  | None =>
      let r := inserted_media fresh i x (source_to_value (app_now ck) (mi_source i)) (sql_now ck) in
      insert_media r;;
      mret (r, true)
  | Some _ =>
      r ← merge_existing_media merge_missing_source_metadata fresh_job sha
            (incoming_media (app_now ck) i tags);
      mret (r, false)
  end.

(** The commit precedes the conversion of the row. *)
Definition resolve_media (fresh fresh_job : Uuid) (i : MediaIngest)
    : op Db LibraryRepositoryError MediaResolution :=
  commit_then (resolve_media_txn fresh fresh_job i) (λ rc,
    media ← into_media rc.1;
    source ← source_from_row rc.1;
    source ← ok_or source (Invariant "resolved media source is missing");
    Ok {| rs_media := media; rs_source := source; rs_created := rc.2 |}).

Definition resolve_exact_sha (i : MediaIngest) (db : Db) : lresult (option Uuid) :=
  validate_media_ingest i;;
  sha ← ok_or (mm_sha256 (mi_metadata i)) MissingSha256;
  Ok (media_id <$> find_row (has_sha sha) (db_media db)).

(** *** Candidates *)

Definition shared_tokens (query tokens : list Z) : Z :=
  Z.of_nat (length (remove_dups (filter (λ t, t ∈ query) tokens))).
Definition distinct_tokens (tokens : list Z) : Z := Z.of_nat (length (remove_dups tokens)).

Definition into_candidate (query : list Z) (r : MediaRow) : option VideoFingerprintCandidate :=
  version ← media_fingerprint_version r;
  data ← media_fingerprint_data r;
  tokens ← media_fingerprint_search_tokens r;
  let shared := shared_tokens query tokens in
  let least := Z.min (distinct_tokens tokens) (distinct_tokens query) in
  if (8 <=? shared) && (least <=? shared * 10) then
    Some {| vc_media_id := media_id r; vc_width := media_width r; vc_height := media_height r;
            vc_audio_codec := media_audio_codec r; vc_fingerprint_version := version;
            vc_fingerprint_data := data; vc_search_tokens := tokens;
            vc_shared_token_count := shared; vc_overlap_bps := shared * 10000 / least |}
  else None.

Definition candidate_row (version : Str) (r : MediaRow) : bool :=
  bool_decide (media_kind r = MediaKind.Video)
  && bool_decide (media_fingerprint_version r = Some version)
  && (bool_decide (media_storage_state r = MediaStorageState.Pending)
      || bool_decide (media_storage_state r = MediaStorageState.Ready)).

(** [ORDER BY shared_token_count DESC, overlap_bps DESC, media_id]. *)
Definition candidate_order (a b : VideoFingerprintCandidate) : bool :=
  lex_le [- vc_shared_token_count a; - vc_overlap_bps a; Z.of_N (vc_media_id a)]
         [- vc_shared_token_count b; - vc_overlap_bps b; Z.of_N (vc_media_id b)].

Definition fetch_video_fingerprint_candidates (db : Db) (version : Str) (tokens : list Z)
    : list VideoFingerprintCandidate :=
  if is_empty tokens then []
  else take 20 (order_by candidate_order
         (omap (into_candidate tokens) (select_rows (candidate_row version) (db_media db)))).

(** *** Video identity *)

Definition prepare_video_identity (i : MediaIngest) (f : option VideoFingerprintInput)
    (force : bool) (db : Db) : lresult VideoIdentityPreparation :=
  validate_media_ingest i;;
  if negb (bool_decide (mm_kind (mi_metadata i) = MediaKind.Video))
  then Err InvalidVideoIdentityKind
  else
    sha ← ok_or (mm_sha256 (mi_metadata i)) MissingSha256;
    match find_row (has_sha sha) (db_media db) with
    | Some r => Ok {| vp_exact_media_id := Some (media_id r); vp_candidates := [] |}
    | None =>
        f ← ok_or f MissingFingerprint;
        validate_video_fingerprint f;;
        Ok {| vp_exact_media_id := None;
              vp_candidates :=
                if force then []
                else fetch_video_fingerprint_candidates db (vf_version f) (vf_search_tokens f) |}
    end.

(** The decision is kept only when no row has the bytes; a forced save needs
    valid evidence but ignores it. *)
Definition pending_evidence (d : VideoIdentityDecision) (f : VideoFingerprintInput) (force : bool)
    : lresult (option VideoDuplicateEvidence) :=
  match d with
  | NoMatch => Ok None
  | DuplicatePendingDecision e =>
      validate_duplicate_evidence e (vf_version f);;
      if force then Ok None
      else if MAX_VIDEO_DUPLICATE_EVIDENCE_BYTES <? evidence_len e
      then Err (DuplicateEvidenceTooLarge MAX_VIDEO_DUPLICATE_EVIDENCE_BYTES)
      else Ok (Some e)
  end.

Definition persist_video_identity (fresh fresh_job : Uuid) (i : MediaIngest)
    (f : option VideoFingerprintInput) (d : VideoIdentityDecision) (force : bool)
    : ltxn VideoIdentityOutcome :=
  ck ← get_clock;
  lift (validate_media_ingest i);;
  tags ← lift (normalize_tags (mi_tags i));
  fail_if (negb (bool_decide (mm_kind (mi_metadata i) = MediaKind.Video)))
    InvalidVideoIdentityKind;;
  sha ← require (mm_sha256 (mi_metadata i)) MissingSha256;
  db ← get_state;
  match find_row (has_sha sha) (db_media db) with
  | Some _ =>
      r ← merge_existing_media merge_missing_source_metadata fresh_job sha
            (incoming_media (app_now ck) i tags);
      mret (ExactDuplicate (media_id r))
  | None =>
      f ← require f MissingFingerprint;
      lift (validate_video_fingerprint f);;
      pending ← lift (pending_evidence d f force);
      match pending with
      | Some e => mret (DuplicatePendingOutcome e)
      | None =>
          x ← lift (bind_insert i MediaKind.Video sha (Some f) tags);
          insert_media (inserted_media fresh i x (source_to_value (app_now ck) (mi_source i))
                          (sql_now ck));;
          mret (NewMediaRow fresh)
      end
  end.
End Identity.
