(* ===== verification/WorkerIdentity.v ===== *)
(** * WorkerIdentity: the identity decision of the worker

    [worker/src/identity.rs]: the metadata taken from a normalisation, the
    preview handed to the library, and the decision of a video's identity from
    its alignment with the candidates.  Then the proof that what the worker decides, the
    library accepts. *)

From S2P Require Import Prelude Enums Jobs Db Queue Envelope Cleanup Proc Preview VideoSequence.
From S2P Require Import Alignment Library LibraryRepo MediaIdentity PreviewSpec VideoSequenceSpec.
From S2P Require Import AlignmentSpec.

(** ** Metadata *)

Definition media_kind_for_normalization (k : SourceMediaKind.t) : result HandlerFailure MediaKind.t :=
  match k with
  | SourceMediaKind.Video => Ok MediaKind.Video
  | SourceMediaKind.Image => Ok MediaKind.Image
  | SourceMediaKind.Audio => Ok MediaKind.Audio
  | SourceMediaKind.Animation => Ok MediaKind.Animation
  | SourceMediaKind.Unknown =>
      Err (permanent (lit "invalid_normalization") (lit "normalized media kind is unknown"))
  end.

Definition to_database_dimension (value : option Z) (field : string) : result HandlerFailure (option Z) :=
  match value with
  | Some v =>
      if v <=? i32_max then Ok (Some v)
      else Err (permanent (lit "invalid_normalization")
                  (lit "normalized " ++ lit field ++ lit " does not fit the library schema"))
  | None => Ok None
  end.

Definition normalization_to_media_metadata (n : AssetNormalization) : result HandlerFailure MediaMetadata :=
  kind ← media_kind_for_normalization (an_media_kind n);
  width ← to_database_dimension (an_width n) "width";
  height ← to_database_dimension (an_height n) "height";
  sha ← decode_sha256 (an_sha256 n);
  Ok {| mm_kind := kind; mm_mime_type := an_mime_type n; mm_container := an_container n;
        mm_video_codec := an_video_codec n; mm_audio_codec := an_audio_codec n;
        mm_width := width; mm_height := height; mm_duration_ms := an_duration_ms n;
        mm_bit_rate := an_bit_rate n; mm_file_size_bytes := Some (an_file_size_bytes n);
        mm_sha256 := Some sha; mm_local_work_path := Some (an_local_work_path n);
        mm_preview := None |}.

(** The preview of the best frame, as the worker hands it to the library. *)
Definition frame_preview (p : BoundedImagePreview) : result HandlerFailure MediaPreviewInput :=
  sha ← decode_sha256 (fd_sha256 (bp_digest p));
  Ok {| pi_bytes := bp_bytes p; pi_mime_type := lit "image/jpeg"; pi_width := bp_width p;
        pi_height := bp_height p; pi_sha256 := sha |}.

(** ** The decision *)

(** The text of the two failures, as the error it is made from. *)
Inductive IdentityAlignmentError :=
| InvalidStoredFingerprint (media : Uuid) (e : VideoSequenceError)
| AlignmentFailed (e : SequenceAlignmentError).

Definition duplicate_match (c : VideoFingerprintCandidate) (a : SequenceAlignment)
    : option VideoDuplicateMatch :=
  let e := al_evidence a in
  let build k :=
    {| vm_media_id := vc_media_id c; vm_fingerprint_version := vc_fingerprint_version c;
       vm_classification := k; vm_aligned_offset_ms := se_aligned_offset_ms e;
       vm_informative_matched_samples := se_informative_matched_samples e;
       vm_incoming_coverage_bps := se_incoming_coverage_bps e;
       vm_candidate_coverage_bps := se_candidate_coverage_bps e;
       vm_median_distance_bps := se_median_distance_bps e;
       vm_high_percentile_distance_bps := se_high_percentile_distance_bps e;
       vm_longest_temporally_consistent_run := se_longest_run e;
       vm_unmatched_incoming_prefix := se_unmatched_incoming_prefix e;
       vm_unmatched_incoming_suffix := se_unmatched_incoming_suffix e;
       vm_unmatched_candidate_prefix := se_unmatched_candidate_prefix e;
       vm_unmatched_candidate_suffix := se_unmatched_candidate_suffix e;
       vm_gap_count := se_gap_count e; vm_score_bps := se_score_bps e;
       vm_shared_token_count := vc_shared_token_count c;
       vm_token_overlap_bps := vc_overlap_bps c |} in
  match al_classification a with
  | SequenceClassification.StrongDuplicate => Some (build Classification.StrongDuplicate)
  | SequenceClassification.PartialMatch => Some (build Classification.PartialMatch)
  | SequenceClassification.NotDuplicate => None
  end.

Definition classification_rank (k : Classification.t) : Z :=
  match k with Classification.StrongDuplicate => 2 | Classification.PartialMatch => 1 end.

(** [filter_map(..).collect::<Result<Vec<_>, _>>()]: the first failure wins. *)
Fixpoint align_candidates (incoming : VideoSequenceFingerprint)
    (candidates : list VideoFingerprintCandidate) (c : SequenceAlignmentConfig)
    : result IdentityAlignmentError (list VideoDuplicateMatch) :=
  match candidates with
  | [] => Ok []
  | cand :: candidates =>
      stored ← map_err (InvalidStoredFingerprint (vc_media_id cand))
                 (decode_fingerprint (vc_fingerprint_data cand));
      alignment ← map_err AlignmentFailed (align_video_sequences incoming stored c);
      matches ← align_candidates incoming candidates c;
      Ok (option_list (duplicate_match cand alignment) ++ matches)
  end.

(** Strong matches first, then by score, shared tokens and media. *)
Definition match_key (m : VideoDuplicateMatch) : list Z :=
  [- classification_rank (vm_classification m); - vm_score_bps m; - vm_shared_token_count m;
   Z.of_N (vm_media_id m)].
Definition match_order (a b : VideoDuplicateMatch) : bool := lex_le (match_key a) (match_key b).

Definition align_video_identity (incoming : VideoSequenceFingerprint)
    (candidates : list VideoFingerprintCandidate) (c : SequenceAlignmentConfig)
    : result IdentityAlignmentError VideoIdentityDecision :=
  matches ← align_candidates incoming candidates c;
  let matches := order_by match_order matches in
  if existsb is_strong matches then
    Ok (DuplicatePendingDecision
          {| ev_algorithm_version := version_str (fp_version incoming);
             ev_matches := take (Z.to_nat MAX_VIDEO_DUPLICATE_MATCHES) matches |})
  else Ok NoMatch.

Section Decision.
Context {J : Json} {P : PayloadSerde} {Sh : JsonShape} {C : CaseMapping} {Im : ImageLib}
  {Dg : Sha256} {T : LibraryText}.

(** ** Candidates *)

Lemma shared_le_distinct q tokens :
  shared_tokens q tokens ≤ distinct_tokens tokens ∧ shared_tokens q tokens ≤ distinct_tokens q.
Proof.
  unfold shared_tokens, distinct_tokens.
  assert (∀ l k : list Z, (∀ x, x ∈ l → x ∈ k) →
    Z.of_nat (length (remove_dups l)) ≤ Z.of_nat (length (remove_dups k))) as Hle.
  { intros l k Hsub. apply Nat2Z.inj_le, submseteq_length, NoDup_submseteq; [apply NoDup_remove_dups|].
    intros x. rewrite !elem_of_remove_dups. apply Hsub. }
  split; apply Hle; intros x; rewrite list_elem_of_filter; naive_solver.
Qed.

Record candidate_ok (version : Str) (c : VideoFingerprintCandidate) : Prop := {
  co_version : vc_fingerprint_version c = version;
  co_shared : 0 ≤ vc_shared_token_count c;
  co_overlap : bps (vc_overlap_bps c);
}.

Lemma into_candidate_ok version q r c :
  candidate_row version r = true → into_candidate q r = Some c → candidate_ok version c.
Proof.
  unfold candidate_row, into_candidate. intros Hr Hc. bool_norm.
  destruct (media_fingerprint_version r) as [v|]; simplify_eq/=.
  destruct (media_fingerprint_data r) as [d|]; simplify_eq/=.
  destruct (media_fingerprint_search_tokens r) as [t|]; simplify_eq/=.
  destruct (shared_le_distinct q t) as [H1 H2].
  destruct (Z.leb_spec 8 (shared_tokens q t)); [|done].
  destruct (_ <=? _); simplify_eq/=. constructor; simpl; [done|lia|]. unfold bps.
  split; [apply Z.div_pos; lia|apply Z.div_le_upper_bound; lia].
Qed.

Lemma candidates_ok db version q :
  Forall (candidate_ok version) (fetch_video_fingerprint_candidates db version q).
Proof.
  unfold fetch_video_fingerprint_candidates. destruct (is_empty q); [constructor|].
  apply Forall_take, Forall_forall. intros c. rewrite elem_of_order_by, list_elem_of_omap.
  intros (r & (i & _ & Hr)%elem_of_select_rows & Hc). by eapply into_candidate_ok.
Qed.

(** ** Matches *)

Record match_ok (version : Str) (x : VideoDuplicateMatch) : Prop := {
  mo_version : vm_fingerprint_version x = version;
  mo_fields : Forall (λ f, bps f.2) (basis_point_fields x);
  mo_shared : 0 ≤ vm_shared_token_count x;
}.

Lemma decoded_validated b f : decode_fingerprint b = Ok f → validated f.
Proof.
  unfold decode_fingerprint. intros H. repeat (case_match; [done|]). result_inv.
  match goal with H : fingerprint_new _ _ _ = Ok _ |- _ =>
    pose proof H as (-> & _ & _)%fingerprint_new_ok end. done.
Qed.

Lemma duplicate_match_ok version c a x :
  candidate_ok version c → evidence_bounded (al_evidence a) → duplicate_match c a = Some x →
  match_ok version x.
Proof.
  intros [Hv Hs Ho] [? ? ? ? ? _ _ _] Hx. unfold duplicate_match in Hx.
  destruct (al_classification a); simplify_eq/=; constructor; simpl; try done;
    repeat (apply Forall_cons_2; [done|]); apply Forall_nil_2.
Qed.

Lemma align_candidates_ok incoming cands c version l :
  align_candidates incoming cands c = Ok l → validated incoming →
  0 ≤ cfg_gap_penalty_bps c ≤ u16_max → Forall (candidate_ok version) cands →
  Forall (match_ok version) l.
Proof.
  intros H Hv Hg Hc. revert l H. induction Hc as [|cand cands Hcand _ IH]; intros l H; simpl in H.
  { simplify_eq. constructor. }
  result_inv. simplify_eq. apply Forall_app. split; [|by apply IH].
  match goal with H : align_video_sequences _ _ _ = Ok _ |- _ =>
    eapply alignment_bounded in H as [H _]; [|done|by eapply decoded_validated|done] end.
  destruct (duplicate_match _ _) eqn:Hd; [|constructor]. constructor; [|constructor].
  by eapply duplicate_match_ok.
Qed.

Lemma check_basis_points_ok fields :
  Forall (λ f : string * Z, bps f.2) fields → check_basis_points fields = Ok tt.
Proof.
  induction 1 as [|[f v] fields [? ?] _ IH]; [done|]. simpl in *.
  by rewrite (proj2 (Z.leb_le 0 v)), (proj2 (Z.leb_le v 10000)).
Qed.

Lemma check_matches_ok version l : Forall (match_ok version) l → check_matches version l = Ok tt.
Proof.
  induction 1 as [|x l [Hv Hf Hs] _ IH]; [done|]. cbn [check_matches].
  rewrite Hv, bool_decide_true, (check_basis_points_ok _ Hf) by done. cbn.
  destruct (Z.ltb_spec (vm_shared_token_count x) 0); [lia|done].
Qed.

(** A strong match is ranked first. *)
Lemma strong_first l : existsb is_strong (order_by match_order l) = true →
  ∃ x rest, order_by match_order l = x :: rest ∧ is_strong x = true.
Proof.
  intros (y & Hy & Hs)%existsb_exists. apply list_elem_of_In in Hy.
  destruct (order_by match_order l) as [|x rest] eqn:Hl; [by apply elem_of_nil in Hy|].
  exists x, rest. split; [done|].
  destruct (order_by_head_min match_order (λ a b, lex_le_total _ _) (λ a b c, lex_le_trans _ _ _) l x)
    as [_ Hmin]; [by rewrite Hl|].
  rewrite <-Hl, elem_of_order_by in Hy. specialize (Hmin y Hy).
  unfold is_strong in *. bool_norm. apply bool_decide_true.
  unfold match_order, match_key in Hmin. rewrite Hs in Hmin.
  destruct (vm_classification x); [done|]. done.
Qed.

(** C30: The decision of the worker is accepted by the library: for a validated
    fingerprint aligned with the candidates the library retrieved for it, evidence of a
    duplicate always passes [validate_duplicate_evidence], so a video is never refused
    after its alignment because of the shape of its evidence. *)
Theorem identity_evidence_is_accepted i b incoming db prep c e :
  encode_fingerprint incoming = Ok b → validated incoming →
  0 ≤ cfg_gap_penalty_bps c ≤ u16_max →
  let input := {| vf_version := version_str (fp_version incoming); vf_data := b;
                  vf_search_tokens := derive_search_tokens incoming |} in
  prepare_video_identity i (Some input) false db = Ok prep →
  align_video_identity incoming (vp_candidates prep) c = Ok (DuplicatePendingDecision e) →
  validate_duplicate_evidence e (vf_version input) = Ok tt.
Proof.
  intros He Hv Hg input Hp Ha.
  assert (Forall (candidate_ok (vf_version input)) (vp_candidates prep)) as Hc.
  { unfold prepare_video_identity in Hp. result_inv. case_match; [done|]. result_inv.
    case_match; [by simplify_eq; constructor|]. result_inv. simplify_eq/=. apply candidates_ok. }
  unfold align_video_identity in Ha. result_inv.
  destruct (existsb is_strong (order_by match_order x)) eqn:Hs; simplify_eq.
  match goal with H : align_candidates _ _ _ = Ok _ |- _ =>
    eapply align_candidates_ok in H; [|done..] end.
  destruct (strong_first x Hs) as (y & rest & Hl & Hy).
  assert (Forall (match_ok (vf_version input)) (order_by match_order x)) as Hall
    by by rewrite order_by_perm.
  unfold validate_duplicate_evidence. cbn [ev_matches ev_algorithm_version].
  rewrite Hl in *. change (Z.to_nat MAX_VIDEO_DUPLICATE_MATCHES) with 3%nat.
  destruct (Z.ltb_spec MAX_VIDEO_DUPLICATE_MATCHES (Z.of_nat (length (take 3 (y :: rest))))) as [Hbig|_].
  { rewrite length_take in Hbig. unfold MAX_VIDEO_DUPLICATE_MATCHES in Hbig. lia. }
  cbn [take length Nat.eqb]. rewrite bool_decide_true by done. cbn [negb existsb].
  rewrite Hy. cbn [orb negb]. apply check_matches_ok.
  change (y :: take 2 rest) with (take 3 (y :: rest)). by apply Forall_take.
Qed.

(** ** Previews *)

(** The preview the worker takes from the best frame is always accepted: for every
    image whose preview was encoded, the library's checks on bytes, bounds, digest and
    dimensions pass for any kind of media but audio, and the stored columns read back as
    the same preview. *)
Theorem encoded_preview_is_accepted img p kind :
  encode_bounded_preview img = Some (Ok p) → kind ≠ MediaKind.Audio →
  ∃ input cols, frame_preview p = Ok input ∧ preview_bindings kind (Some input) = Ok (Some cols)
    ∧ ∀ r, media_preview r = Some cols →
        preview_metadata r = Ok (Some {| pm_mime_type := lit "image/jpeg"; pm_width := bp_width p;
                                         pm_height := bp_height p;
                                         pm_size_bytes := fd_bytes (bp_digest p);
                                         pm_sha256 := sha256_digest (bp_bytes p) |}).
Proof.
  intros Hp Hk. destruct (encoded_preview_ok img p Hp) as [[[Hne Hlen] Hw Hh Hd Hv] Hsha].
  assert (check_preview (bp_bytes p) (lit "image/jpeg") (bp_width p) (bp_height p)
    (sha256_digest (bp_bytes p)) = Ok tt) as Hcheck.
  { unfold check_preview, preview_out_of_bounds.
    rewrite (bool_decide_true (sha256_digest _ = _)), Hv by done.
    rewrite sha256_length. destruct (bp_bytes p) as [|b0 b]; [done|]. cbn [is_empty].
    destruct (Z.ltb_spec BOUNDED_PREVIEW_MAX_BYTES (Z.of_nat (length (b0 :: b)))); [lia|].
    destruct (Z.eqb_spec (bp_width p) 0); [lia|]. destruct (Z.eqb_spec (bp_height p) 0); [lia|].
    destruct (Z.ltb_spec BOUNDED_PREVIEW_MAX_WIDTH (bp_width p)); [lia|].
    destruct (Z.ltb_spec BOUNDED_PREVIEW_MAX_HEIGHT (bp_height p)); [lia|].
    cbn. by rewrite !Z.eqb_refl. }
  unfold frame_preview. rewrite Hsha. eexists _, _. split; [done|].
  unfold preview_bindings. rewrite bool_decide_false by done.
  cbn [pi_bytes pi_mime_type pi_width pi_height pi_sha256]. rewrite Hcheck.
  unfold BOUNDED_PREVIEW_MAX_WIDTH, BOUNDED_PREVIEW_MAX_HEIGHT in *.
  destruct (Z.ltb_spec i32_max (bp_width p)); [unfold i32_max in *; lia|].
  destruct (Z.ltb_spec i32_max (bp_height p)); [unfold i32_max in *; lia|].
  split; [done|]. intros r Hr. unfold preview_metadata. rewrite Hr.
  cbn [pv_bytes pv_mime_type pv_width pv_height pv_sha256].
  destruct (Z.ltb_spec (bp_width p) 0); [lia|]. destruct (Z.ltb_spec (bp_height p) 0); [lia|].
  rewrite Hcheck, Hd. done.
Qed.
End Decision.
