(* ===== verification/LibraryInv.v ===== *)
(** * LibraryInv: inversion of the library's transactions

    The parts of a library transaction that touch only ingests and jobs
    ([side_effect]), and what a guarded update of a media row did. *)

From S2P Require Import Prelude Enums Jobs Db Queue Cleanup Library LibraryRepo LibraryStorage.

Section Inv.
Context {J : Json} {P : PayloadSerde} {C : CaseMapping}.
Implicit Types (db : Db) (r : MediaRow) (ck : Clock).

Definition set_media r db : Db := db <| db_media := <[media_id r := r]> (db_media db) |>.

(** Media, posts and channels stay; the tables stay well formed. *)
Record side_effect db db' : Prop := {
  se_media : db_media db' = db_media db;
  se_posts : db_posts db' = db_posts db;
  se_channels : db_channels db' = db_channels db;
  se_wf : db_wf db → db_wf db';
}.
#[global] Instance side_effect_preorder : PreOrder side_effect.
Proof.
  split; [by constructor|]. intros a b c [] []. constructor; [congruence..|auto].
Qed.

Lemma lock_media_ok id ck db r db' :
  lock_media id ck db = Ok (r, db') → db' = db ∧ db_media db !! id = Some r.
Proof. unfold lock_media. intros. by db_inv. Qed.

Lemma checked_succ_i32_ok n m : checked_succ_i32 n = Some m → m = n + 1 ∧ m ≤ i32_max.
Proof. unfold checked_succ_i32. case_match; intros; simplify_eq. bool_norm. done. Qed.

Lemma update_media_where_ok {E} (inj : SqlError → E) id guard set ck db o db' :
  update_media_where inj id guard set ck db = Ok (o, db') →
  (o = None ∧ db' = db ∧ ∀ r, db_media db !! id = Some r → guard r = false)
  ∨ ∃ r, db_media db !! id = Some r ∧ guard r = true ∧ o = Some (set r)
      ∧ media_check (set r) = true ∧ db' = set_media (set r) db.
Proof.
  unfold update_media_where. intros. db_inv.
  destruct (db_media db !! id) as [r|] eqn:Hr; db_inv; [|by left; naive_solver].
  destruct (guard r) eqn:Hg; db_inv; [|by left; naive_solver]. right. eauto 8.
Qed.

(** ** Parts without effect on media *)

Lemma update_ingests_where_ok {E} guard set ck db u db' :
  (∀ i, ingest_id (set i) = ingest_id i) →
  (update_ingests_where guard set : txn Db E unit) ck db = Ok (u, db') → side_effect db db'.
Proof.
  unfold update_ingests_where. intros Hset H. db_inv. constructor; simpl; try done.
  intros [? ? ? ? ? ? Hi ? ?]. constructor; simpl; try done.
  intros i r. rewrite lookup_fmap_Some. intros (x & <- & Hx). case_match; rewrite ?Hset; eauto.
Qed.

Lemma inserted_job_inv fresh j now : 0 < nj_max_attempts j → job_inv (inserted_job fresh j now) = true.
Proof.
  intros Hm. unfold job_inv, job_check, job_lease_check; simpl.
  rewrite !andb_true_iff, !Z.leb_le, Z.ltb_lt. split_and!; try done; lia.
Qed.

Lemma insert_job_if_absent_ok {E} (inj : SqlError → E) fresh j ck db u db' :
  0 < nj_max_attempts j → insert_job_if_absent inj fresh j ck db = Ok (u, db') →
  side_effect db db'.
Proof.
  unfold insert_job_if_absent. intros Hm H. db_inv.
  destruct (dedupe_taken db (nj_dedupe_key j)) eqn:Hd; db_inv; [done|].
  constructor; simpl; try done. intros Hwf.
  apply (wf_insert_job db (inserted_job fresh (with_priority 0 j) (sql_now ck))); auto.
  - by destruct (db_jobs db !! fresh) eqn:?.
  - by apply inserted_job_inv.
Qed.

Lemma enqueue_caption_sync_job_ok fresh m g ck db u db' :
  enqueue_caption_sync_job fresh m g ck db = Ok (u, db') → side_effect db db'.
Proof. intros H. by apply insert_job_if_absent_ok in H. Qed.
Lemma enqueue_caption_sync_reapply_job_ok fresh m g g' t ck db u db' :
  enqueue_caption_sync_reapply_job fresh m g g' t ck db = Ok (u, db') → side_effect db db'.
Proof. intros H. by apply insert_job_if_absent_ok in H. Qed.

Lemma for_each_ok {E A} (f : A → txn Db E unit) l ck db u db' :
  (∀ x ck db u db', f x ck db = Ok (u, db') → side_effect db db') →
  for_each f l ck db = Ok (u, db') → side_effect db db'.
Proof.
  intros Hf. revert db. induction l as [|x l IH]; intros db H; simpl in H; db_inv; [done|].
  etrans; [by eapply Hf|]. by eapply IH.
Qed.

Lemma enqueue_workspace_cleanup_for_media_ok {E} (inj : SqlError → E) gen m t ck db u db' :
  enqueue_workspace_cleanup_for_media inj gen m t ck db = Ok (u, db') → side_effect db db'.
Proof.
  unfold enqueue_workspace_cleanup_for_media, enqueue_workspace_cleanup. intros H. db_inv.
  eapply for_each_ok; [|done]. intros y ck1 db1 u1 db1' Hy.
  by apply insert_job_if_absent_ok in Hy.
Qed.

Lemma mark_linked_ingests_storage_unknown_ok m ck db u db' :
  mark_linked_ingests_storage_unknown m ck db = Ok (u, db') → side_effect db db'.
Proof.
  unfold mark_linked_ingests_storage_unknown. intros H. db_inv.
  by match goal with H : update_ingests_where _ _ _ _ = _ |- _ =>
    apply update_ingests_where_ok in H end.
Qed.
Lemma reopen_linked_ingests_for_storage_ok m ck db u db' :
  reopen_linked_ingests_for_storage m ck db = Ok (u, db') → side_effect db db'.
Proof.
  unfold reopen_linked_ingests_for_storage. intros H. db_inv.
  by match goal with H : update_ingests_where _ _ _ _ = _ |- _ =>
    apply update_ingests_where_ok in H end.
Qed.
Lemma complete_linked_ingests_for_storage_ok gen m ck db u db' :
  complete_linked_ingests_for_storage gen m ck db = Ok (u, db') → side_effect db db'.
Proof.
  unfold complete_linked_ingests_for_storage. intros H. db_inv.
  match goal with H : update_ingests_where _ _ _ _ = _ |- _ =>
    apply update_ingests_where_ok in H; [|done] end.
  etrans; [done|]. eapply for_each_ok; [|done]. intros y ck1 db1 u1 db1' Hy. simpl in Hy.
  case_match; db_inv; [done|]. by apply insert_job_if_absent_ok in Hy.
Qed.

Lemma settle_queued_storage_upload_jobs_ok m ck db u db' :
  settle_queued_storage_upload_jobs m ck db = Ok (u, db') → side_effect db db'.
Proof.
  unfold settle_queued_storage_upload_jobs. intros H. db_inv. constructor; simpl; try done.
  intros [Hk ? ? Hi ? Hd ? ? ?]. constructor; simpl; try done.
  - intros i r. rewrite lookup_fmap_Some. intros (x & <- & Hx). case_match; simpl; eauto.
  - intros i r. rewrite lookup_fmap_Some. intros (x & <- & Hx). specialize (Hi _ _ Hx).
    case_match; [|done]. unfold job_inv, job_check in *. simpl in *. bool_norm.
    by rewrite !andb_true_iff, !Z.leb_le, Z.ltb_lt.
  - intros i j r r' k. rewrite !lookup_fmap_Some. intros (x & <- & Hx) (y & <- & Hy) Hkx Hky.
    eapply Hd; [exact Hx|exact Hy|..]; repeat case_match; eauto.
Qed.

Lemma update_locked_job_side id u ck db row db' :
  update_locked_job id u ck db = Ok (row, db') → qu_state u ≠ JobStatus.Running →
  (qu_state u = JobStatus.Queued → qu_terminal u = false) → side_effect db db'.
Proof.
  intros Hu H1 H2. apply update_locked_job_ok in Hu as (j & Hj & Hs & -> & ->).
  constructor; simpl; try done. intros Hwf. pose proof (wf_job_key _ Hwf _ _ Hj) as <-.
  apply (wf_update_job db j (settled_job u (sql_now ck) j)); auto. apply settled_job_inv; auto. by eapply (wf_job_inv _ Hwf).
Qed.

Lemma clear_job_error_side id ck db u db' :
  clear_job_error id ck db = Ok (u, db') → side_effect db db'.
Proof.
  unfold clear_job_error. intros H. db_inv.
  destruct (db_jobs db !! id) as [j|] eqn:Hj; db_inv; [|done].
  constructor; simpl; try done. intros Hwf. pose proof (wf_job_key _ Hwf _ _ Hj) as <-.
  apply (wf_update_job db j (without_error j)); auto.
  by apply (wf_job_inv _ Hwf _ _ Hj).
Qed.

(** A media write, then side effects. *)
Lemma wf_set_media db r : db_wf db → media_check r = true → db_wf (set_media r db).
Proof.
  intros [? ? ? ? ? ? ? Hk Hc] Hr. constructor; simpl; try done;
    intros i x [[<- <-]|[? ?]]%lookup_insert_Some; eauto.
Qed.
End Inv.

Ltac lib_inv_step :=
  match goal with
  | H : Some _ = _ !! _ |- _ => symmetry in H
  | H : lock_media _ _ _ = Ok _ |- _ => apply lock_media_ok in H as [? ?]
  | H : checked_succ_i32 _ = Some _ |- _ => apply checked_succ_i32_ok in H as [? ?]
  | H : map_err _ _ = Ok _ |- _ => unfold map_err in H
  | H : (if ?b then _ else _) _ _ = Ok _ |- _ => destruct b eqn:?
  | H : match ?o with Ok _ => _ | Err _ => _ end = Ok _ |- _ => destruct o eqn:?
  | H : mark_linked_ingests_storage_unknown _ _ _ = Ok _ |- _ =>
      apply mark_linked_ingests_storage_unknown_ok in H
  | H : reopen_linked_ingests_for_storage _ _ _ = Ok _ |- _ =>
      apply reopen_linked_ingests_for_storage_ok in H
  | H : complete_linked_ingests_for_storage _ _ _ _ = Ok _ |- _ =>
      apply complete_linked_ingests_for_storage_ok in H
  | H : settle_queued_storage_upload_jobs _ _ _ = Ok _ |- _ =>
      apply settle_queued_storage_upload_jobs_ok in H
  | H : enqueue_workspace_cleanup_for_media _ _ _ _ _ _ = Ok _ |- _ =>
      apply enqueue_workspace_cleanup_for_media_ok in H
  | H : enqueue_caption_sync_job _ _ _ _ _ = Ok _ |- _ => apply enqueue_caption_sync_job_ok in H
  | H : enqueue_caption_sync_reapply_job _ _ _ _ _ _ _ = Ok _ |- _ =>
      apply enqueue_caption_sync_reapply_job_ok in H
  | H : insert_job_if_absent _ _ _ _ _ = Ok _ |- _ =>
      apply insert_job_if_absent_ok in H; [|done]
  | H : update_media_where _ _ _ _ _ _ = Ok _ |- _ =>
      apply update_media_where_ok in H as [(? & ? & ?)|(? & ? & ? & ? & ? & ?)]
  end.
Ltac lib_inv :=
  repeat ((txn_inv_step || lib_inv_step || db_inv_step || bool_norm_step); simplify_eq/=).
