(* ===== verification/LibrarySpec.v ===== *)
(** * LibrarySpec: the life of a stored media object

    An abstract machine for the upload columns and the caption columns of one
    media row, the proof that every storage and caption transaction refines it,
    and what follows over histories: reservations are exclusive, an unknown
    upload waits for the operator, and a synchronised caption is current. *)

From S2P Require Import Prelude Enums Jobs Db Queue Cleanup Library LibraryRepo LibraryStorage.
From S2P Require Import Envelope Preview MediaIdentity LibraryInv.

Section Machine.
Context {J : Json}.
Implicit Types (r : MediaRow).

(** Columns the upload machine ranges over. *)
Definition upload_same r r' : Prop :=
  media_storage_state r' = media_storage_state r
  ∧ media_storage_token r' = media_storage_token r
  ∧ media_storage_started_at r' = media_storage_started_at r
  ∧ media_storage_generation r' = media_storage_generation r.

(** Leaving a reservation. *)
Definition upload_ends (s : MediaStorageState.t) r r' : Prop :=
  media_storage_state r' = s ∧ media_storage_token r' = None
  ∧ media_storage_started_at r' = None.

(** Who commits a step: an operator command, an upload of the storage provider, or
    any other transaction. *)
Inductive actor := Operator | Uploader | Background.

(** [who]: the actor of the step.  [drawn]: the identifier it drew, if any.  Only the
    provider reserves and releases; only an operator attaches and resets. *)
Inductive upload_move (who : actor) (drawn : option Uuid) r r' : Prop :=
| up_same : upload_same r r' → upload_move who drawn r r'
| up_reserve t :
    who = Uploader → drawn = Some t → media_storage_state r = MediaStorageState.Pending →
    media_storage_token r = None → media_storage_state r' = MediaStorageState.Pending →
    media_storage_token r' = Some t → is_some (media_storage_started_at r') →
    media_storage_generation r' = media_storage_generation r → upload_move who drawn r r'
| up_renew :
    is_some (media_storage_token r) → media_storage_state r' = media_storage_state r →
    media_storage_token r' = media_storage_token r → is_some (media_storage_started_at r') →
    media_storage_generation r' = media_storage_generation r → upload_move who drawn r r'
| up_stored :
    media_storage_state r = MediaStorageState.Pending → is_some (media_storage_token r) →
    upload_ends MediaStorageState.Ready r r' →
    media_storage_generation r' = media_storage_generation r → upload_move who drawn r r'
| up_release :
    who = Uploader → is_some (media_storage_token r) → upload_ends MediaStorageState.Pending r r' →
    media_storage_generation r' = media_storage_generation r → upload_move who drawn r r'
| up_unknown :
    who = Operator ∨ media_storage_state r ≠ MediaStorageState.Ready →
    upload_ends MediaStorageState.Unknown r r' →
    media_storage_generation r' = media_storage_generation r → upload_move who drawn r r'
| up_attach :
    who = Operator → media_storage_state r = MediaStorageState.Unknown →
    upload_ends MediaStorageState.Ready r r' →
    media_storage_generation r' = media_storage_generation r → upload_move who drawn r r'
| up_reset :
    who = Operator → media_storage_token r = None →
    upload_ends MediaStorageState.Pending r r' →
    media_storage_generation r' = media_storage_generation r + 1 →
    upload_move who drawn r r'.

(** The parts of a row the caption is made from, the source URL aside. *)
Definition described r : option Str * list Str := (media_description r, media_tags r).

Inductive caption_move (drawn : option Uuid) r r' : Prop :=
| cap_same :
    media_caption_sync_state r' = media_caption_sync_state r →
    media_caption_sync_claim_token r' = media_caption_sync_claim_token r →
    media_caption_sync_generation r' = media_caption_sync_generation r →
    described r' = described r → caption_move drawn r r'
| cap_claim t :
    drawn = Some t → media_caption_sync_state r = CaptionSyncState.Pending →
    media_caption_sync_state r' = CaptionSyncState.Syncing →
    media_caption_sync_claim_token r' = Some t →
    media_caption_sync_generation r' = media_caption_sync_generation r →
    described r' = described r → caption_move drawn r r'
| cap_release :
    media_caption_sync_state r' ≠ CaptionSyncState.Syncing →
    media_caption_sync_claim_token r' = None →
    media_caption_sync_generation r ≤ media_caption_sync_generation r' →
    described r' = described r
      ∨ media_caption_sync_generation r' = media_caption_sync_generation r + 1
      ∨ media_caption_sync_state r' = CaptionSyncState.NotRequired →
    caption_move drawn r r'.

Record media_change (who : actor) (drawn : option Uuid) r r' : Prop := {
  mc_id : media_id r' = media_id r;
  mc_sha : media_canonical_sha256 r' = media_canonical_sha256 r;
  mc_check : media_check r' = true;
  mc_upload : upload_move who drawn r r';
  mc_caption : caption_move drawn r r';
}.

(** A row as it is inserted: nothing reserved, nothing to synchronise. *)
Record new_media_row r : Prop := {
  nr_state : media_storage_state r = MediaStorageState.Pending;
  nr_token : media_storage_token r = None;
  nr_caption : media_caption_sync_state r = CaptionSyncState.NotRequired;
  nr_claim : media_caption_sync_claim_token r = None;
}.

Inductive media_effect (who : actor) (drawn : option Uuid) (db db' : Db) : Prop :=
| eff_media_none : db_media db' = db_media db → media_effect who drawn db db'
| eff_media r r' :
    db_media db !! media_id r = Some r → db_media db' = <[media_id r := r']> (db_media db) →
    media_change who drawn r r' → media_effect who drawn db db'
| eff_media_new r :
    db_media db !! media_id r = None → db_media db' = <[media_id r := r]> (db_media db) →
    new_media_row r →
    (∀ i x, db_media db !! i = Some x → media_canonical_sha256 x ≠ media_canonical_sha256 r) →
    media_effect who drawn db db'.

(** What a library transaction commits. *)
Record library_effect (who : actor) (drawn : option Uuid) (db db' : Db) : Prop := {
  le_media : media_effect who drawn db db';
  le_posts : db_posts db' = db_posts db;
  le_wf : db_wf db';
}.
End Machine.

Section Refine.
Context {J : Json} {P : PayloadSerde} {C : CaseMapping}.
Implicit Types (db : Db) (r : MediaRow) (ck : Clock).

Lemma effect_side o d db db' : db_wf db → side_effect db db' → library_effect o d db db'.
Proof. intros Hwf [? ? ? ?]. constructor; auto. by apply eff_media_none. Qed.

Lemma effect_then_side o d db db1 db' :
  library_effect o d db db1 → side_effect db1 db' → library_effect o d db db'.
Proof.
  intros [Hm Hp Hwf] [Hm' Hp' _ Hw]. constructor; [|congruence|auto].
  destruct Hm; [apply eff_media_none|eapply eff_media|eapply eff_media_new]; eauto; congruence.
Qed.

Lemma effect_media o d db id r r' :
  db_wf db → db_media db !! id = Some r → media_change o d r r' →
  library_effect o d db (set_media r' db).
Proof.
  intros Hwf Hr Hc. pose proof (wf_media_key _ Hwf _ _ Hr) as <-. constructor; [|done|].
  - eapply eff_media; [done| |done]. simpl. by rewrite (mc_id _ _ _ _ Hc).
  - apply wf_set_media; [done|by eapply mc_check].
Qed.

(** Two writes of one row in one transaction. *)
Lemma effect_media_twice o d db id r r1 r' :
  db_wf db → db_media db !! id = Some r → media_id r1 = media_id r → media_change o d r r' →
  library_effect o d db (set_media r' (set_media r1 db)).
Proof.
  intros Hwf Hr H1 Hc. pose proof (effect_media o d db id r r' Hwf Hr Hc) as [Hm Hp Hw].
  assert (set_media r' (set_media r1 db) = set_media r' db) as ->; [|by constructor].
  unfold set_media. simpl. by rewrite H1, (mc_id _ _ _ _ Hc), insert_insert_eq.
Qed.

Lemma effect_media_new o d db r :
  db_wf db → db_media db !! media_id r = None → media_check r = true → new_media_row r →
  (∀ i x, db_media db !! i = Some x → media_canonical_sha256 x ≠ media_canonical_sha256 r) →
  library_effect o d db (set_media r db).
Proof.
  intros Hwf Hr Hc Hn Hs. constructor; [by eapply eff_media_new|done|by apply wf_set_media].
Qed.

(** Peel the side effects off the end of a transaction. *)
Ltac peel_side :=
  repeat match goal with
  | H : side_effect ?a ?b |- library_effect _ _ _ ?b =>
      apply (effect_then_side _ _ _ a b); [clear H|exact H]
  end.

(** Close the goals of a change that rebuilds one group of columns. *)
Ltac same_upload := apply up_same; by split_and!.
Ltac same_caption := by apply cap_same.

Lemma reserve_storage_upload_effect t m g ck db res db' :
  reserve_storage_upload t m g ck db = Ok (res, db') → db_wf db →
  library_effect Uploader (Some t) db db'.
Proof.
  unfold reserve_storage_upload, storage_in. intros H Hwf.
  lib_inv; try (by apply effect_side).
  eapply effect_media; eauto. constructor; simpl; try done; [|same_caption].
  eapply up_reserve; try done. by destruct (media_storage_token _).
Qed.

Lemma renew_storage_upload_effect o m t d ck db res db' :
  renew_storage_upload m t d ck db = Ok (res, db') → db_wf db → library_effect o None db db'.
Proof.
  unfold renew_storage_upload, owns_upload. intros H Hwf. lib_inv.
  eapply effect_media; eauto. constructor; simpl; try done; [|same_caption].
  apply up_renew; simpl; try done. by destruct (media_storage_token _).
Qed.

Lemma release_storage_upload_effect m t ck db u db' :
  release_storage_upload m t ck db = Ok (u, db') → db_wf db → library_effect Uploader None db db'.
Proof.
  unfold release_storage_upload, owns_upload. intros H Hwf.
  lib_inv; [by apply effect_side|].
  eapply effect_media; eauto. constructor; simpl; try done; [|same_caption].
  apply up_release; simpl; try done. by destruct (media_storage_token _).
Qed.

Lemma mark_upload_unknown_effect o m t ck db u db' :
  mark_upload_unknown m t ck db = Ok (u, db') → db_wf db → library_effect o None db db'.
Proof.
  unfold mark_upload_unknown, owns_upload, storage_in. intros H Hwf. lib_inv.
  peel_side.
  eapply effect_media; eauto. constructor; simpl; try done; [|same_caption].
  apply up_unknown; [right; congruence|by split_and!|done].
Qed.

Lemma operator_mark_unknown_effect m f ck db u db' :
  operator_mark_unknown m f ck db = Ok (u, db') → db_wf db → library_effect Operator None db db'.
Proof.
  unfold operator_mark_unknown. intros H Hwf. lib_inv.
  - naive_solver.
  - peel_side.
    eapply effect_media; eauto. constructor; simpl; try done; [|same_caption].
    apply up_unknown; [by left|by split_and!|done].
Qed.

Lemma reset_storage_upload_effect fresh id ck db u db' :
  reset_storage_upload fresh id ck db = Ok (u, db') → db_wf db → library_effect Operator None db db'.
Proof.
  unfold reset_storage_upload. intros H Hwf. lib_inv.
  - naive_solver.
  - peel_side.
    eapply effect_media; eauto. constructor; simpl; try done.
    + apply up_reset; [done|by destruct (media_storage_token _)|by split_and!|done].
    + apply cap_release; simpl; try done. by right; right.
Qed.

(** The caption columns a transaction computes. *)
Lemma next_caption_sync_values_ok r changed v :
  next_caption_sync_values r changed = Ok v →
  (changed = false ∧ cv_generation v = media_caption_sync_generation r
     ∧ cv_state v = media_caption_sync_state r
     ∧ cv_claim_token v = media_caption_sync_claim_token r)
  ∨ (changed = true ∧ cv_claim_token v = None
     ∧ ((cv_state v = CaptionSyncState.NotRequired
           ∧ cv_generation v = media_caption_sync_generation r
           ∧ has_storage_message r = false)
        ∨ (cv_state v = CaptionSyncState.Pending
           ∧ cv_generation v = media_caption_sync_generation r + 1
           ∧ has_storage_message r = true))).
Proof.
  unfold next_caption_sync_values. destruct changed; simpl; [|intros; simplify_eq/=; by left].
  destruct (has_storage_message r) eqn:Hm; simpl; intros; simplify_eq/=; right; [|by auto 6].
  destruct (checked_succ_i32 _) eqn:Hg; simplify_eq/=.
  apply checked_succ_i32_ok in Hg as [-> _]. auto 6.
Qed.

Lemma next_caption_values_move d r changed v now r' :
  next_caption_sync_values r changed = Ok v → (changed = false → described r' = described r) →
  caption_move d r (with_caption_values v now r').
Proof.
  intros Hv Hd. apply next_caption_sync_values_ok in Hv as
    [(-> & Hg & Hs & Hc)|(-> & Hc & [(Hs & Hg & _)|(Hs & Hg & _)])].
  - apply cap_same; simpl; try done. by apply Hd.
  - apply cap_release; simpl; rewrite ?Hs, ?Hg, ?Hc; try done; try lia; auto.
  - apply cap_release; simpl; rewrite ?Hs, ?Hg, ?Hc; try done; try lia; auto.
Qed.

Lemma caption_after_upload_move d r r1 m v now :
  caption_sync_values_after_storage_upload r1 m = Ok v →
  described r1 = described r →
  media_caption_sync_generation r1 = media_caption_sync_generation r →
  caption_move d r (with_caption_values v now r1).
Proof.
  unfold caption_sync_values_after_storage_upload. intros Hv Hd Hg. destruct (match m with
    Some m => _ | None => _ end).
  - injection Hv as <-. apply cap_release; simpl; try done; try lia. left; exact Hd.
  - apply next_caption_sync_values_ok in Hv as
      [(? & _)|(_ & Hc & [(Hs & Hg' & _)|(Hs & Hg' & _)])]; [done|..];
    apply cap_release; simpl; rewrite ?Hs, ?Hg', ?Hc; try done; try lia; auto.
Qed.

Lemma finish_stored_effect o d fresh gen m a r r1 ck db row db' :
  finish_stored fresh gen m a r1 ck (set_media r1 db) = Ok (row, db') → db_wf db →
  db_media db !! m = Some r → media_id r1 = media_id r → described r1 = described r →
  media_canonical_sha256 r1 = media_canonical_sha256 r →
  media_caption_sync_generation r1 = media_caption_sync_generation r →
  (∀ v now, upload_move o d r (with_caption_values v now r1)) →
  library_effect o d db db'.
Proof.
  unfold finish_stored. intros H Hwf Hr Hid Hd Hsha Hg Hup.
  pose proof (wf_media_key _ Hwf _ _ Hr) as Hk. lib_inv.
  all: match goal with H : <[_ := _]> _ !! _ = Some _ |- _ =>
    rewrite Hid, lookup_insert_eq in H; simplify_eq end.
  all: peel_side; eapply (effect_media_twice o d db); eauto.
  all: constructor; simpl; try done; eapply caption_after_upload_move; eauto.
  all: unfold described; by f_equal.
Qed.

Lemma complete_storage_upload_effect o fresh gen m t a ck db row db' :
  complete_storage_upload_txn fresh gen m t a ck db = Ok (row, db') → db_wf db →
  library_effect o None db db'.
Proof.
  unfold complete_storage_upload_txn, owns_upload, storage_in. intros H Hwf. lib_inv.
  eapply finish_stored_effect; eauto; try done. intros v now.
  apply up_stored; simpl; try done. by destruct (media_storage_token _).
Qed.

Lemma attach_storage_upload_effect fresh gen m g a ck db row db' :
  attach_storage_upload_txn fresh gen m g a ck db = Ok (row, db') → db_wf db →
  library_effect Operator None db db'.
Proof.
  unfold attach_storage_upload_txn, storage_in. intros H Hwf. lib_inv.
  eapply finish_stored_effect; eauto; try done. intros v now. by apply up_attach; simpl.
Qed.

Lemma retry_caption_sync_effect fresh id ck db row db' :
  retry_caption_sync fresh id ck db = Ok (row, db') → db_wf db → library_effect Background None db db'.
Proof.
  unfold retry_caption_sync. intros H Hwf. lib_inv; [by apply effect_side|].
  peel_side. eapply effect_media; eauto. constructor; simpl; try done; [same_upload|].
  apply cap_release; simpl; try done; try lia; auto.
Qed.

Lemma begin_caption_sync_effect id g t ck db res db' :
  begin_caption_sync id g t ck db = Ok (res, db') → db_wf db →
  library_effect Background (Some t) db db'.
Proof.
  unfold begin_caption_sync. intros H Hwf. lib_inv; try (by apply effect_side).
  eapply effect_media; eauto. constructor; simpl; try done; [same_upload|].
  by eapply cap_claim.
Qed.

Lemma complete_caption_sync_effect fresh id g t s ret e ck db res db' :
  complete_caption_sync fresh id g t s ret e ck db = Ok (res, db') → db_wf db →
  library_effect Background None db db'.
Proof.
  unfold complete_caption_sync. intros H Hwf.
  lib_inv; try (by apply effect_side); peel_side; try (by apply effect_side);
    (eapply effect_media; eauto; constructor; simpl; try done; [same_upload|]).
  - apply cap_release; simpl; try done. by left.
  - apply cap_release; simpl; try done; [by destruct s, ret|by left].
Qed.

(** Side conditions of the two edits: unchanged text when nothing changed. *)
Lemma update_media_effect fresh id u ck db row db' :
  update_media fresh id u ck db = Ok (row, db') → db_wf db → library_effect Background None db db'.
Proof.
  unfold update_media. intros H Hwf. lib_inv; peel_side;
    (eapply effect_media; eauto; constructor; simpl; try done; [same_upload|]);
    (eapply next_caption_values_move; [eassumption|]);
    intros Hsame; unfold described; simpl; bool_norm; congruence.
Qed.

Lemma merge_existing_media_effect merge fresh sha i ck db row db' :
  merge_existing_media merge fresh sha i ck db = Ok (row, db') → db_wf db →
  library_effect Background None db db'.
Proof.
  unfold merge_existing_media. intros H Hwf. lib_inv.
  all: match goal with H : find_row _ _ = Some _ |- _ =>
    apply find_row_Some in H as (k & Hk & _); pose proof (wf_media_key _ Hwf _ _ Hk) as <- end.
  all: simplify_eq; peel_side; eapply effect_media; eauto; constructor; simpl; try done;
    [same_upload|].
  all: eapply next_caption_values_move; [eassumption|]; intros Hsame; unfold described; simpl.
  all: bool_norm; f_equal; [|congruence].
  all: destruct (im_description i); [|done]; bool_norm; congruence.
Qed.

(** ** Identity *)

Lemma insert_media_effect i x ck db u db' fresh source now :
  insert_media (inserted_media fresh i x source now) ck db = Ok (u, db') → db_wf db →
  find_row (has_sha (ins_sha x)) (db_media db) = None → library_effect Background None db db'.
Proof.
  unfold insert_media. intros H Hwf Hnone. db_inv.
  match goal with H : is_some _ = false |- _ => rename H into Hfree end. simpl in Hfree.
  apply effect_media_new; simpl; [done|by destruct (db_media db !! fresh)|done|by constructor|].
  intros k r Hr Heq. eapply find_row_None in Hnone; [|exact Hr].
  unfold has_sha in Hnone. by rewrite Heq, bool_decide_true in Hnone.
Qed.

Lemma bind_insert_sha `{ImageLib} `{Sha256} i k sha f tags x :
  bind_insert i k sha f tags = Ok x → ins_sha x = sha.
Proof.
  unfold bind_insert. intros Hx. result_inv. by simplify_eq.
Qed.

Section Identity.
Context {Sh : JsonShape} {Im : ImageLib} {H : Sha256} {T : LibraryText}.

Lemma resolve_media_effect f fj i ck db res db' :
  resolve_media_txn f fj i ck db = Ok (res, db') → db_wf db → library_effect Background None db db'.
Proof.
  unfold resolve_media_txn. intros Hr Hwf. db_inv.
  match goal with H : bind_insert _ _ _ _ _ = Ok _ |- _ => apply bind_insert_sha in H end.
  case_match; db_inv; eauto using merge_existing_media_effect, insert_media_effect.
Qed.

Lemma persist_video_identity_effect f fj i vf d force ck db res db' :
  persist_video_identity f fj i vf d force ck db = Ok (res, db') → db_wf db →
  library_effect Background None db db'.
Proof.
  unfold persist_video_identity. intros Hr Hwf. db_inv.
  case_match; db_inv; eauto using merge_existing_media_effect.
  case_match; db_inv; [by apply effect_side|].
  match goal with H : bind_insert _ _ _ _ _ = Ok _ |- _ => apply bind_insert_sha in H as <- end.
  eauto using insert_media_effect.
Qed.
End Identity.

(** ** Settlement *)

Lemma settle_caption_effect o m g st e ck db u db' :
  settle_caption m g st e ck db = Ok (u, db') → db_wf db → st ≠ CaptionSyncState.Syncing →
  library_effect o None db db'.
Proof.
  unfold settle_caption. intros H Hwf Hst. lib_inv; [by apply effect_side|].
  eapply effect_media; eauto. constructor; simpl; try done; [same_upload|].
  apply cap_release; simpl; try done. by left.
Qed.

Lemma settle_caption_txn_effect l c s ck db row db' :
  settle_caption_txn l c s ck db = Ok (row, db') → db_wf db → library_effect Background None db db'.
Proof.
  unfold settle_caption_txn. intros H Hwf. lib_inv.
  match goal with H : lock_running_job _ _ _ _ = _ |- _ =>
    apply lock_running_job_ok in H as (-> & _) end.
  match goal with H : update_locked_job _ _ _ _ = _ |- _ =>
    apply update_locked_job_side in H;
      [|apply queue_parameters_not_running|apply queue_parameters_terminal] end.
  peel_side. eapply settle_caption_effect; [eassumption|done|by case_match].
Qed.

Lemma recover_caption_job_effect id c ck db b db' :
  recover_caption_job id c ck db = Ok (b, db') → db_wf db → library_effect Background None db db'.
Proof.
  unfold recover_caption_job. intros H Hwf. lib_inv.
  match goal with H : lock_expired_job _ _ _ = _ |- _ =>
    apply lock_expired_job_ok in H as [-> _] end.
  match goal with H : match ?o with Some _ => _ | None => _ end _ _ = _ |- _ =>
    destruct o end; lib_inv; [|by apply effect_side].
  match goal with H : update_locked_job _ _ _ _ = _ |- _ =>
    apply update_locked_job_side in H;
      [|apply recovery_update_not_running|apply recovery_update_terminal] end.
  peel_side. eapply settle_caption_effect; [eassumption|done|by case_match].
Qed.

Lemma fail_storage_effect m msg ck db u db' :
  fail_storage m msg ck db = Ok (u, db') → db_wf db → library_effect Background None db db'.
Proof.
  unfold fail_storage, storage_in. intros H Hwf. lib_inv;
  match goal with H : update_ingests_where _ _ _ _ = _ |- _ =>
    apply update_ingests_where_ok in H; [|done] end; peel_side; [by apply effect_side|].
  eapply effect_media; eauto. constructor; simpl; try done; [|same_caption].
  apply up_unknown; [by right|by split_and!|done].
Qed.

Lemma reconcile_storage_terminal_effect m c msg ck db u db' :
  reconcile_storage_terminal m c msg ck db = Ok (u, db') → db_wf db →
  library_effect Background None db db'.
Proof.
  unfold reconcile_storage_terminal. intros H Hwf. lib_inv.
  destruct (media_storage_state <$> db_media db !! m) as [[]|]; lib_inv;
    try (by apply effect_side); try (by eapply fail_storage_effect);
    match goal with H : update_ingests_where _ _ _ _ = _ |- _ =>
      apply update_ingests_where_ok in H; [|done] end; by apply effect_side.
Qed.

Lemma settle_storage_txn_effect l c s ck db row db' :
  settle_storage_txn l c s ck db = Ok (row, db') → db_wf db → library_effect Background None db db'.
Proof.
  unfold settle_storage_txn. intros H Hwf. lib_inv;
  match goal with H : lock_running_job _ _ _ _ = _ |- _ =>
    apply lock_running_job_ok in H as (-> & _) end;
  match goal with H : update_locked_job _ _ _ _ = _ |- _ =>
    apply update_locked_job_side in H;
      [|apply queue_parameters_not_running|apply queue_parameters_terminal] end; peel_side.
  - by eapply reconcile_storage_terminal_effect.
  - by apply effect_side.
Qed.

Lemma storage_recovery_update_not_running j r now :
  qu_state (storage_recovery_update j r now) ≠ JobStatus.Running.
Proof. unfold storage_recovery_update. by repeat case_match; simplify_eq/=. Qed.
Lemma storage_recovery_update_terminal j r now :
  qu_state (storage_recovery_update j r now) = JobStatus.Queued →
  qu_terminal (storage_recovery_update j r now) = false.
Proof.
  unfold storage_recovery_update. repeat case_match; simplify_eq/=; try done.
  intros _. by rewrite andb_false_r.
Qed.

Lemma recover_storage_job_effect id c ck db b db' :
  recover_storage_job id c ck db = Ok (b, db') → db_wf db → library_effect Background None db db'.
Proof.
  unfold recover_storage_job. intros H Hwf. lib_inv.
  match goal with H : lock_expired_job _ _ _ = _ |- _ =>
    apply lock_expired_job_ok in H as [-> _] end.
  match goal with H : match ?o with Some _ => _ | None => _ end _ _ = _ |- _ =>
    destruct o end; lib_inv; [|by apply effect_side].
  destruct (db_media db !! _) as [r|] eqn:Hr.
  - pose proof (storage_recovery_update_not_running j r (app_now ck)) as Hn.
    pose proof (storage_recovery_update_terminal j r (app_now ck)) as Ht.
    generalize dependent (storage_recovery_update j r (app_now ck)). intros u H4 Hn Ht.
    lib_inv; [by apply effect_side|..];
    try match goal with H : clear_job_error _ _ _ = _ |- _ => apply clear_job_error_side in H end;
    match goal with H : update_locked_job _ _ _ _ = _ |- _ =>
      apply update_locked_job_side in H; [|done..] end;
    peel_side; destruct (qu_state u); lib_inv; try (by apply effect_side);
    try (by eapply fail_storage_effect);
    match goal with H : update_ingests_where _ _ _ _ = _ |- _ =>
      apply update_ingests_where_ok in H; [|done] end; by apply effect_side.
  - lib_inv. match goal with H : update_locked_job _ _ _ _ = _ |- _ =>
      apply update_locked_job_side in H; [|done..] end. by apply effect_side.
Qed.
End Refine.

(** ** Histories *)

Section History.
Context {J : Json} {P : PayloadSerde} {C : CaseMapping} {Sh : JsonShape} {Im : ImageLib}
  {H : Sha256} {T : LibraryText}.
Implicit Types (db : Db) (r : MediaRow) (ck : Clock).

(** One committed transaction with its actor and the upload or claim token it drew. *)
Inductive library_step : actor → option Uuid → Db → Db → Prop :=
| MOther db db' : db_media db' = db_media db → db_posts db' = db_posts db → db_wf db' →
    library_step Background None db db'
| MReserve ck t m g res db db' : reserve_storage_upload t m g ck db = Ok (res, db') →
    library_step Uploader (Some t) db db'
| MRenew ck m t d res db db' : renew_storage_upload m t d ck db = Ok (res, db') →
    library_step Uploader None db db'
| MComplete ck f gen m t a row db db' :
    complete_storage_upload_txn f gen m t a ck db = Ok (row, db') →
    library_step Uploader None db db'
| MRelease ck m t u db db' : release_storage_upload m t ck db = Ok (u, db') →
    library_step Uploader None db db'
| MUnknown ck m t u db db' : mark_upload_unknown m t ck db = Ok (u, db') →
    library_step Uploader None db db'
| MRetryCaption ck f m row db db' : retry_caption_sync f m ck db = Ok (row, db') →
    library_step Background None db db'
| MBeginCaption ck m g t res db db' : begin_caption_sync m g t ck db = Ok (res, db') →
    library_step Background (Some t) db db'
| MCompleteCaption ck f m g t s ret e res db db' :
    complete_caption_sync f m g t s ret e ck db = Ok (res, db') →
    library_step Background None db db'
| MUpdate ck f m u row db db' : update_media f m u ck db = Ok (row, db') →
    library_step Background None db db'
| MMerge ck mg f sha i row db db' : merge_existing_media mg f sha i ck db = Ok (row, db') →
    library_step Background None db db'
| MResolve ck f fj i res db db' : resolve_media_txn f fj i ck db = Ok (res, db') →
    library_step Background None db db'
| MPersistVideo ck f fj i vf d force res db db' :
    persist_video_identity f fj i vf d force ck db = Ok (res, db') →
    library_step Background None db db'
| MSettleCaption ck l c s row db db' : settle_caption_txn l c s ck db = Ok (row, db') →
    library_step Background None db db'
| MSettleStorage ck l c s row db db' : settle_storage_txn l c s ck db = Ok (row, db') →
    library_step Background None db db'
| MRecoverCaption ck i c b db db' : recover_caption_job i c ck db = Ok (b, db') →
    library_step Background None db db'
| MRecoverStorage ck i c b db db' : recover_storage_job i c ck db = Ok (b, db') →
    library_step Background None db db'
| MOperatorUnknown ck m f u db db' : operator_mark_unknown m f ck db = Ok (u, db') →
    library_step Operator None db db'
| MReset ck f m u db db' : reset_storage_upload f m ck db = Ok (u, db') →
    library_step Operator None db db'
| MAttach ck f gen m g a row db db' :
    attach_storage_upload_txn f gen m g a ck db = Ok (row, db') →
    library_step Operator None db db'.

Lemma library_step_effect o d db db' :
  library_step o d db db' → db_wf db → library_effect o d db db'.
Proof.
  destruct 1; intros Hwf; [by constructor; [apply eff_media_none|..]|..];
    eauto using reserve_storage_upload_effect, renew_storage_upload_effect,
      complete_storage_upload_effect, release_storage_upload_effect,
      mark_upload_unknown_effect, retry_caption_sync_effect, begin_caption_sync_effect,
      complete_caption_sync_effect, update_media_effect, merge_existing_media_effect,
      resolve_media_effect, persist_video_identity_effect, settle_caption_txn_effect, settle_storage_txn_effect, recover_caption_job_effect,
      recover_storage_job_effect, operator_mark_unknown_effect, reset_storage_upload_effect,
      attach_storage_upload_effect.
Qed.

(** A history with the identifiers it drew; [ops] says whether operator
    commands may occur in it. *)
Inductive library_history (ops : bool) : list Uuid → Db → Db → Prop :=
| hist_nil db : library_history ops [] db db
| hist_cons o d ds db db1 db' :
    library_step o d db db1 → (o = Operator → ops = true) → library_history ops ds db1 db' →
    library_history ops (option_list d ++ ds) db db'.

Lemma effect_media_lookup o d db db' m r :
  library_effect o d db db' → db_media db !! m = Some r → db_wf db →
  ∃ r', db_media db' !! m = Some r' ∧ (r' = r ∨ media_change o d r r').
Proof.
  intros [[->|x x' Hx -> Hc|x Hx -> _ _] _ _] Hr Hwf; [eauto| |].
  - destruct (decide (media_id x = m)) as [<-|Hne].
    + rewrite lookup_insert_eq. simplify_eq. eauto.
    + rewrite lookup_insert_ne by done. eauto.
  - exists r. split; [|by left]. rewrite lookup_insert_ne; congruence.
Qed.

Lemma history_media_ind (I : MediaRow → Prop) ops m ds db db' r :
  (∀ o d x x', I x → media_change o d x x' → (o = Operator → ops = true) →
     (∀ t, d = Some t → t ∈ ds) → I x') →
  library_history ops ds db db' → db_wf db → db_media db !! m = Some r → I r →
  db_wf db' ∧ ∃ r', db_media db' !! m = Some r' ∧ I r'.
Proof.
  intros HI Hs. revert r. induction Hs as [db|o d ds db db1 db' Hstep Ho _ IH];
    intros r Hwf Hr Hi; [eauto|].
  pose proof (library_step_effect _ _ _ _ Hstep Hwf) as He.
  destruct (effect_media_lookup _ _ _ _ _ _ He Hr Hwf) as (r1 & Hr1 & Hcase).
  assert (I r1) as Hi1.
  { destruct Hcase as [->|Hc]; [done|]. eapply HI; eauto. intros t ->. set_solver. }
  eapply IH; eauto using le_wf. intros o' d' x x' Hx Hc Ho' Hd. eapply HI; eauto.
  intros t Ht. apply elem_of_app. right. eauto.
Qed.

(** An invariant of all rows, the inserted ones included. *)
Lemma history_rows_ind (I : MediaRow → Prop) ops ds db db' :
  (∀ o d x x', I x → media_change o d x x' → I x') → (∀ x, new_media_row x → I x) →
  library_history ops ds db db' → db_wf db →
  map_Forall (λ _, I) (db_media db) → map_Forall (λ _, I) (db_media db').
Proof.
  intros HI Hnew. induction 1 as [db|o d ds db db1 db' Hstep _ _ IH]; intros Hwf Hall; [done|].
  pose proof (library_step_effect _ _ _ _ Hstep Hwf) as He. apply IH; [by apply He|].
  destruct He as [[->|x x' Hx -> Hc|x Hx -> Hn _] _ _]; [done| |].
  - apply map_Forall_insert_2; [|done]. eapply HI; [|done]. by eapply Hall.
  - apply map_Forall_insert_2; auto.
Qed.
End History.
