(* ===== verification/IdentitySpec.v ===== *)
(** * IdentitySpec: one media row per bytes, and valid previews *)

From S2P Require Import Prelude Enums Jobs Db Queue Envelope Cleanup Preview PreviewSpec Library.
From S2P Require Import LibraryRepo LibraryStorage MediaIdentity LibraryInv LibrarySpec.

(** ** Merging source metadata *)

Section Merge.
Context {J : Json} {Sh : JsonShape}.

(** The recursion is never cut short: more fuel gives the same value. *)
Lemma merge_missing_fuel n e i :
  (depth e < n)%nat → merge_missing_within n e i = merge_missing_source_metadata e i.
Proof.
  unfold merge_missing_source_metadata.
  assert (∀ n m e i, (depth e < n)%nat → (depth e < m)%nat →
    merge_missing_within n e i = merge_missing_within m e i) as Hgo; [|by intros; apply Hgo; lia].
  clear. induction n as [|n IH]; intros [|m] e i Hn Hm; try lia. simpl.
  destruct (as_object e) as [me|] eqn:He; [|done]. destruct (as_object i) as [mi|]; [|done].
  f_equal. apply map_eq. intros k. rewrite !lookup_merge.
  destruct (me !! k) as [ve|] eqn:Hk, (mi !! k) as [vi|]; simpl; try done.
  pose proof (depth_field _ _ _ _ He Hk). destruct (is_object ve && is_object vi); [|done].
  f_equal. apply IH; lia.
Qed.

Lemma merge_missing_objects e i me mi :
  as_object e = Some me → as_object i = Some mi →
  merge_missing_source_metadata e i
  = of_object (merge (merge_entry merge_missing_source_metadata) me mi).
Proof.
  intros He Hi. unfold merge_missing_source_metadata at 1. cbn [merge_missing_within].
  rewrite He, Hi. f_equal. apply map_eq. intros k. rewrite !lookup_merge.
  destruct (me !! k) as [ve|] eqn:Hk, (mi !! k) as [vi|]; simpl; try done.
  destruct (is_object ve && is_object vi); [|done]. f_equal. apply merge_missing_fuel.
  by eapply depth_field.
Qed.
End Merge.

(** ** One row per bytes *)

Section Bytes.
Context {J : Json} {P : PayloadSerde} {C : CaseMapping} {Sh : JsonShape} {Im : ImageLib}
  {Dg : Sha256} {T : LibraryText}.
Implicit Types (db : Db) (ck : Clock).

(** The unique index on [canonical_sha256]. *)
Definition sha_unique db : Prop := ∀ i j x y sha, db_media db !! i = Some x →
  db_media db !! j = Some y → media_canonical_sha256 x = Some sha →
  media_canonical_sha256 y = Some sha → i = j.

Lemma sha_unique_effect o d db db' :
  library_effect o d db db' → sha_unique db → sha_unique db'.
Proof.
  intros [[Hm|r r' Hr Hm Hc|r Hr Hm _ Hne] _ _] Hu i j x y sha; rewrite Hm; [apply Hu|..].
  - pose proof (mc_sha _ _ _ _ Hc) as Hs.
    intros [[<- <-]|[? Hx]]%lookup_insert_Some [[<- <-]|[? Hy]]%lookup_insert_Some Ex Ey;
      try done; [rewrite Hs in Ex|rewrite Hs in Ey|]; eapply Hu; eauto.
  - intros [[<- <-]|[? Hx]]%lookup_insert_Some [[<- <-]|[? Hy]]%lookup_insert_Some Ex Ey;
      try done; [|..|by eapply Hu]; exfalso; eapply Hne; eauto; congruence.
Qed.

Lemma sha_unique_history ops ds db db' :
  library_history ops ds db db' → db_wf db → sha_unique db → sha_unique db'.
Proof.
  induction 1 as [|o d ds db db1 db' Hs _ _ IH]; [done|]. intros Hwf Hu.
  pose proof (library_step_effect _ _ _ _ Hs Hwf) as He. apply IH; [by apply He|].
  by eapply sha_unique_effect.
Qed.

Lemma has_sha_ok sha r : has_sha sha r = true ↔ media_canonical_sha256 r = Some sha.
Proof. apply bool_decide_eq_true. Qed.

Lemma merge_existing_media_row mg f sha i ck db r db' :
  merge_existing_media mg f sha i ck db = Ok (r, db') → db_wf db →
  ∃ x, find_row (has_sha sha) (db_media db) = Some x ∧ media_id r = media_id x
    ∧ media_canonical_sha256 r = Some sha ∧ db_media db' !! media_id r = Some r
    ∧ dom (db_media db') = dom (db_media db).
Proof.
  unfold merge_existing_media. intros H Hwf. lib_inv.
  all: match goal with Hf : find_row _ _ = Some ?r0 |- _ =>
    exists r0; split; [done|]; apply find_row_Some in Hf as (k & Hk & Hs);
    apply has_sha_ok in Hs; pose proof (wf_media_key _ Hwf _ _ Hk) as <-; simplify_eq end.
  - match goal with H : side_effect _ _ |- _ => destruct H as [Hm _ _ _] end.
    rewrite Hm. simpl. rewrite lookup_insert_eq, dom_insert_lookup_L by eauto. done.
  - rewrite lookup_insert_eq, dom_insert_lookup_L by eauto. done.
Qed.

Lemma resolve_media_row f fj i ck db r created db' :
  resolve_media_txn f fj i ck db = Ok ((r, created), db') → db_wf db →
  db_wf db' ∧ ∃ sha, mm_sha256 (mi_metadata i) = Some sha
    ∧ media_canonical_sha256 r = Some sha ∧ db_media db' !! media_id r = Some r
    ∧ match find_row (has_sha sha) (db_media db) with
      | Some x => media_id r = media_id x ∧ created = false ∧ dom (db_media db') = dom (db_media db)
      | None => media_id r = f ∧ created = true
      end.
Proof.
  intros H Hwf. split; [by eapply le_wf, resolve_media_effect|].
  unfold resolve_media_txn in H. db_inv. eexists. split; [done|].
  match goal with H : bind_insert _ _ _ _ _ = Ok _ |- _ => apply bind_insert_sha in H end.
  case_match; db_inv.
  - match goal with H : merge_existing_media _ _ _ _ _ _ = _ |- _ =>
      apply merge_existing_media_row in H as (y & Hy & ? & ? & ? & ?); [|done] end.
    by simplify_eq.
  - unfold insert_media in *. db_inv. by rewrite lookup_insert_eq.
Qed.

(** After any history the row with the bytes is found again. *)
Lemma found_again ops ds db1 db2 sha r :
  library_history ops ds db1 db2 → db_wf db1 → sha_unique db2 →
  db_media db1 !! media_id r = Some r → media_canonical_sha256 r = Some sha →
  db_wf db2 ∧ ∃ x, find_row (has_sha sha) (db_media db2) = Some x ∧ media_id x = media_id r.
Proof.
  intros Hh Hwf Hu Hr Hs.
  destruct (history_media_ind (λ x, media_canonical_sha256 x = Some sha) ops (media_id r) ds
    db1 db2 r) as (Hwf2 & r2 & Hr2 & Hs2); try done.
  { intros o d x x' Hx Hc _ _. by rewrite (mc_sha _ _ _ _ Hc). }
  split; [done|]. destruct (find_row (has_sha sha) (db_media db2)) as [x|] eqn:Hf.
  - exists x. split; [done|]. apply find_row_Some in Hf as (k & Hk & Hx%has_sha_ok).
    rewrite (wf_media_key _ Hwf2 _ _ Hk). by eapply Hu.
  - apply find_row_None with (i := media_id r) (r := r2) in Hf; [|done].
    apply has_sha_ok in Hs2. congruence.
Qed.

(** C31: The same bytes are one media: once a media has been resolved by its SHA-256,
    every later resolution of the same bytes, with any library transactions in between,
    answers the same media and inserts nothing, and a video identity decision made on
    those bytes is an exact duplicate of it whatever the alignment decided. *)
Theorem exact_bytes_are_one_media f fj i ck db r created db1 ops ds db2 :
  resolve_media_txn f fj i ck db = Ok ((r, created), db1) → db_wf db → sha_unique db →
  library_history ops ds db1 db2 →
  sha_unique db2 ∧
  (∀ f' fj' i' ck' r' created' db3,
     resolve_media_txn f' fj' i' ck' db2 = Ok ((r', created'), db3) →
     mm_sha256 (mi_metadata i') = mm_sha256 (mi_metadata i) →
     media_id r' = media_id r ∧ created' = false ∧ dom (db_media db3) = dom (db_media db2))
  ∧ (∀ f' fj' i' vf d force ck' out db3,
     persist_video_identity f' fj' i' vf d force ck' db2 = Ok (out, db3) →
     mm_sha256 (mi_metadata i') = mm_sha256 (mi_metadata i) → out = ExactDuplicate (media_id r)).
Proof.
  intros Hres Hwf Hu Hh.
  assert (library_effect Background None db db1) as He by by eapply resolve_media_effect.
  destruct (resolve_media_row _ _ _ _ _ _ _ _ Hres Hwf) as (Hwf1 & sha & Hi & Hs & Hr & _).
  assert (sha_unique db2) as Hu2
    by (eapply sha_unique_history; [done..|]; by eapply sha_unique_effect).
  destruct (found_again _ _ _ _ _ _ Hh Hwf1 Hu2 Hr Hs) as (Hwf2 & x & Hx & Hid).
  split_and!; [done|..].
  - intros f' fj' i' ck' r' c' db3 H' Hi'.
    destruct (resolve_media_row _ _ _ _ _ _ _ _ H' Hwf2) as (_ & sha' & Hsha & _ & _ & Hcase).
    assert (sha' = sha) as -> by congruence. rewrite Hx in Hcase.
    destruct Hcase as (Hid' & -> & ?). split_and!; [congruence|done..].
  - intros f' fj' i' vf d force ck' out db3 H' Hi'.
    unfold persist_video_identity in H'. db_inv.
    match goal with H : mm_sha256 (mi_metadata i') = Some ?y |- _ =>
      assert (y = sha) as -> by congruence end.
    rewrite Hx in *. db_inv. match goal with H : merge_existing_media _ _ _ _ _ _ = _ |- _ =>
      apply merge_existing_media_row in H as (y & Hy & -> & _); [|done] end.
    simplify_eq. by rewrite Hid.
Qed.
End Bytes.
