(* ===== verification/IdentityWitness.v ===== *)
(** * IdentityWitness: the identity claims at concrete media

    The image, digest and text interfaces are inhabited: a picture is its size, a JPEG is
    its header and size, and a digest is a sum, enough to evaluate previews and identity
    decisions on concrete inputs. *)

From S2P Require Import Prelude Enums Jobs Db Queue Instances Envelope EnvelopeSpec Preview PreviewSpec.
From S2P Require Import Library MediaIdentity Cleanup VideoSequence VideoSequenceSpec Alignment.
From S2P Require Import AlignmentSpec LibraryRepo LibraryStorage WorkerIdentity.
From S2P Require Import LibraryInv LibrarySpec IdentitySpec.

(** ** Pictures *)

Definition demo_shrink (p : N * N) (w h : Z) : N * N :=
  (N.min p.1 (Z.to_N w), N.min p.2 (Z.to_N h)).

#[global] Instance demo_images : ImageLib.
Proof.
  refine {| Picture := (N * N)%type;
            picture_width p := Z.of_N p.1; picture_height p := Z.of_N p.2;
            guess_format b := Ok match b with
                                 | 255 :: _ => Some ImageKind.Jpeg
                                 | 137 :: _ => Some ImageKind.Png
                                 | _ => None
                                 end;
            decode_picture _ b := match b with
                                  | [_; w; h] => Ok (Z.to_N w, Z.to_N h)
                                  | _ => Err (lit "truncated")
                                  end;
            thumbnail := demo_shrink;
            to_rgb8 p := p;
            encode_jpeg _ p := Ok [255; Z.of_N p.1; Z.of_N p.2] |}.
  - intros p. lia.
  - intros [w0 h0] w h. unfold demo_shrink. simpl. lia.
  - intros q p b [= <-]. done.
Defined.

#[global] Instance demo_sha : Sha256.
Proof.
  refine {| sha256_digest b := (λ i, (foldr Z.add 0 b + i) mod 256) <$> seqZ 0 32 |}.
  - intros b. by rewrite length_fmap, length_seqZ.
  - intros b. apply Forall_fmap, Forall_forall. intros i _. apply Z.mod_pos_bound. lia.
Defined.

(** ** Evidence as JSON *)

Definition enc_match (m : VideoDuplicateMatch) : demo_value :=
  VArr [VOne (vm_media_id m); VText (vm_fingerprint_version m);
        VBool (bool_decide (vm_classification m = Classification.StrongDuplicate));
        VNum (vm_aligned_offset_ms m); VNum (vm_informative_matched_samples m);
        VNum (vm_incoming_coverage_bps m); VNum (vm_candidate_coverage_bps m);
        VNum (vm_median_distance_bps m); VNum (vm_high_percentile_distance_bps m);
        VNum (vm_longest_temporally_consistent_run m); VNum (vm_unmatched_incoming_prefix m);
        VNum (vm_unmatched_incoming_suffix m); VNum (vm_unmatched_candidate_prefix m);
        VNum (vm_unmatched_candidate_suffix m); VNum (vm_gap_count m); VNum (vm_score_bps m);
        VNum (vm_shared_token_count m); VNum (vm_token_overlap_bps m)].
Definition dec_match (v : demo_value) : option VideoDuplicateMatch :=
  match v with
  | VArr [VOne a; VText b; VBool c; VNum d; VNum e; VNum f; VNum g; VNum h; VNum i; VNum j;
          VNum k; VNum l; VNum m; VNum n; VNum o; VNum p; VNum q; VNum r] =>
      Some (Build_VideoDuplicateMatch a b
              (if c then Classification.StrongDuplicate else Classification.PartialMatch)
              d e f g h i j k l m n o p q r)
  | _ => None
  end.
Lemma dec_enc_match m : dec_match (enc_match m) = Some m.
Proof. by destruct m as [? ? []]. Qed.

Definition enc_evidence (e : VideoDuplicateEvidence) : demo_value :=
  VObj [(ev_algorithm_version e, VArr (enc_match <$> ev_matches e))].
Definition dec_evidence (v : demo_value) : result Str VideoDuplicateEvidence :=
  match v with
  | VObj [(a, VArr l)] =>
      ms ← ok_or (mapM dec_match l) (lit "invalid match");
      Ok {| ev_algorithm_version := a; ev_matches := ms |}
  | _ => Err (lit "invalid type")
  end.
Lemma mapM_enc {A B} (f : A → B) (g : B → option A) (l : list A) :
  (∀ x, g (f x) = Some x) → mapM g (f <$> l) = Some l.
Proof. intros Hg. apply mapM_Some. induction l; constructor; auto. Qed.

#[global] Instance demo_library_text : LibraryText.
Proof.
  refine {| display_time := show; parse_time _ := None; parse_uuid _ := None;
            serde_evidence := {| to_value e := enc_evidence e : Value;
                                 from_value v := dec_evidence v |} |}.
  intros [a ms]. unfold dec_evidence, enc_evidence. simpl.
  by rewrite (mapM_enc _ _ ms dec_enc_match).
Defined.

(** Case folding is left to the interface; here it is the identity. *)
#[global] Instance demo_case : CaseMapping := {| to_lowercase s := s |}.

#[global] Instance classification_alignment_eq_dec : EqDecision SequenceEvidence.
Proof. solve_decision. Defined.
#[global] Instance alignment_eq_dec : EqDecision SequenceAlignment.
Proof. solve_decision. Defined.
#[global] Instance duplicate_match_eq_dec : EqDecision VideoDuplicateMatch.
Proof. solve_decision. Defined.
#[global] Instance duplicate_evidence_eq_dec : EqDecision VideoDuplicateEvidence.
Proof. solve_decision. Defined.
#[global] Instance identity_decision_eq_dec : EqDecision VideoIdentityDecision.
Proof. solve_decision. Defined.
#[global] Instance identity_outcome_eq_dec : EqDecision VideoIdentityOutcome.
Proof. solve_decision. Defined.
#[global] Instance candidate_eq_dec : EqDecision VideoFingerprintCandidate.
Proof. solve_decision. Defined.
#[global] Instance preparation_eq_dec : EqDecision VideoIdentityPreparation.
Proof. solve_decision. Defined.
#[global] Instance preview_digest_eq_dec : EqDecision FileDigest.
Proof. solve_decision. Defined.
#[global] Instance bounded_preview_eq_dec : EqDecision BoundedImagePreview.
Proof. solve_decision. Defined.

(** The value of a computation that succeeds. *)
Definition value_of {E A} (d : A) (r : result E A) : A := match r with Ok a => a | Err _ => d end.

(** ** Two recordings, one with a blank prefix *)

Definition demo_sample (seed : Z) : VideoSequenceSample :=
  {| vs_phash := seed; vs_dhash := seed * 131072; vs_mean_luma := 100; vs_mean_chroma_u := 4;
     vs_mean_chroma_v := -6; vs_information_bps := 8000; vs_transition_bps := 0 |}.
Definition demo_sequence (duration : Z) (seeds : list Z) : VideoSequenceFingerprint :=
  {| fp_version := VideoSequenceV1; fp_duration_ms := duration; fp_interval_ms := 500;
     fp_samples := demo_sample <$> seeds |}.
Definition demo_incoming : VideoSequenceFingerprint :=
  demo_sequence 5000 [1; 2; 3; 4; 5; 6; 7; 8; 9; 10].
Definition demo_candidate : VideoSequenceFingerprint :=
  demo_sequence 6000 [0; 0; 1; 2; 3; 4; 5; 6; 7; 8; 9; 10].
Definition encoded (f : VideoSequenceFingerprint) : list Z := value_of [] (encode_fingerprint f).
Definition demo_alignment : SequenceAlignment :=
  value_of {| al_classification := SequenceClassification.NotDuplicate;
              al_evidence := evidence_from_path demo_incoming demo_candidate [] 0 |}
    (align_video_sequences demo_incoming demo_candidate default_config).

Lemma demo_aligned :
  align_video_sequences demo_incoming demo_candidate default_config = Ok demo_alignment.
Proof. by_vm. Qed.

Lemma encoded_fingerprint_is_storable_witness :
  fingerprint_try_new (lit "video_sequence_v1") (encoded demo_incoming)
    (derive_search_tokens demo_incoming)
  = Ok {| vf_version := lit "video_sequence_v1"; vf_data := encoded demo_incoming;
          vf_search_tokens := derive_search_tokens demo_incoming |}.
Proof. apply (encoded_fingerprint_is_storable demo_incoming (encoded demo_incoming)). by_vm. Defined.

Lemma alignment_is_optimal_witness :
  ∃ i0 j0 i j p, aligns (fp_samples demo_incoming) (fp_samples demo_candidate) i0 j0 i j p ∧
    let score := path_score (fp_samples demo_incoming) (fp_samples demo_candidate) 1200 in
    al_evidence demo_alignment
      = evidence_from_path demo_incoming demo_candidate
          (render (fp_samples demo_incoming) (fp_samples demo_candidate) p) (score p)
    ∧ (∀ i0' j0' i' j' p',
         aligns (fp_samples demo_incoming) (fp_samples demo_candidate) i0' j0' i' j' p' →
         score p' ≤ score p).
Proof.
  apply (alignment_is_optimal demo_incoming demo_candidate default_config demo_alignment).
  - by_vm.
  - simpl. lia.
Defined.

Lemma alignment_is_bounded_witness :
  evidence_bounded (al_evidence demo_alignment).
Proof.
  apply (alignment_is_bounded demo_incoming demo_candidate default_config demo_alignment).
  - by_vm.
  - unfold validated. by_vm.
  - unfold validated. by_vm.
  - split; by vm_compute.
Defined.

(** ** The library holds the candidate *)

Definition demo_bytes (seed : Z) : list Z := replicate 32 seed.
Definition demo_media_ingest (kind : MediaKind.t) (seed : Z) : MediaIngest :=
  {| mi_media := {| nm_kind := kind; nm_title := None; nm_description := Some (lit "clip") |};
     mi_metadata := {| mm_kind := kind; mm_mime_type := None; mm_container := None;
       mm_video_codec := None; mm_audio_codec := None; mm_width := Some 640; mm_height := Some 360;
       mm_duration_ms := Some 6000; mm_bit_rate := None; mm_file_size_bytes := Some 9;
       mm_sha256 := Some (demo_bytes seed); mm_local_work_path := Some (lit "w");
       mm_preview := None |};
     mi_source := {| ms_ingest_id := Some 3%N; ms_kind := SourceKind.DirectUrl;
       ms_original_url := Some (lit "https://a.test/v"); ms_normalized_url := None;
       ms_platform := None; ms_platform_content_id := None; ms_author_name := None;
       ms_title := None; ms_description := None; ms_published_at := None;
       ms_metadata := (VNull : Value) |};
     mi_tags := [lit "cat"] |}.

Definition stored_input : VideoFingerprintInput :=
  {| vf_version := lit "video_sequence_v1"; vf_data := encoded demo_candidate;
     vf_search_tokens := derive_search_tokens demo_candidate |}.
Definition demo_identity_db : Db :=
  (run_txn (persist_video_identity 20 21 (demo_media_ingest MediaKind.Video 1) (Some stored_input)
     NoMatch false) (demo_clock 100) empty_db).2.

Definition incoming_input : VideoFingerprintInput :=
  {| vf_version := version_str (fp_version demo_incoming); vf_data := encoded demo_incoming;
     vf_search_tokens := derive_search_tokens demo_incoming |}.
Definition demo_preparation : VideoIdentityPreparation :=
  value_of {| vp_exact_media_id := None; vp_candidates := [] |}
    (prepare_video_identity (demo_media_ingest MediaKind.Video 2) (Some incoming_input) false
       demo_identity_db).
Definition demo_duplicate_evidence : VideoDuplicateEvidence :=
  match align_video_identity demo_incoming (vp_candidates demo_preparation) default_config with
  | Ok (DuplicatePendingDecision e) => e
  | _ => {| ev_algorithm_version := []; ev_matches := [] |}
  end.

Lemma identity_evidence_is_accepted_witness :
  length (ev_matches demo_duplicate_evidence) = 1%nat
  ∧ validate_duplicate_evidence demo_duplicate_evidence (lit "video_sequence_v1") = Ok tt.
Proof.
  split; [by_vm|].
  apply (identity_evidence_is_accepted (demo_media_ingest MediaKind.Video 2) (encoded demo_incoming)
    demo_incoming demo_identity_db demo_preparation default_config demo_duplicate_evidence).
  - by_vm.
  - unfold validated. by_vm.
  - split; by vm_compute.
  - by_vm.
  - by_vm.
Defined.

(** ** The same bytes twice *)

Definition first_resolution := resolve_media_txn 30 31 (demo_media_ingest MediaKind.Image 7).
Definition demo_first_db : Db := (run_txn first_resolution (demo_clock 200) empty_db).2.
Definition demo_first_row : MediaRow :=
  match first_resolution (demo_clock 200) empty_db with
  | Ok (r, _, _) => r
  | Err _ => inserted_media 0 (demo_media_ingest MediaKind.Image 7)
               {| ins_kind := MediaKind.Image; ins_sha := []; ins_fingerprint := None; ins_tags := [];
                  ins_preview := None; ins_duration := None; ins_bit_rate := None; ins_size := None |}
               VNull 0
  end.

Lemma exact_bytes_are_one_media_witness :
  sha_unique demo_first_db ∧
  (∀ f fj ck r created db3,
     resolve_media_txn f fj (demo_media_ingest MediaKind.Image 7) ck demo_first_db
       = Ok ((r, created), db3) → media_id r = 30%N ∧ created = false).
Proof.
  destruct (exact_bytes_are_one_media 30 31 (demo_media_ingest MediaKind.Image 7) (demo_clock 200)
    empty_db demo_first_row true demo_first_db false [] demo_first_db) as (Hu & Hr & _).
  - by_vm.
  - apply db_wfb_sound. by_vm.
  - intros i j x y sha Hx. simpl in Hx. by apply lookup_empty_Some in Hx.
  - constructor.
  - split; [done|]. intros f fj ck r created db3 H.
    destruct (Hr f fj (demo_media_ingest MediaKind.Image 7) ck r created db3 H eq_refl) as (E & -> & _).
    split; [|done]. rewrite E. by_vm.
Defined.

(** ** Previews *)

Definition demo_picture : @Picture demo_images := (640%N, 480%N).
Definition demo_preview : BoundedImagePreview :=
  match encode_bounded_preview demo_picture with
  | Some (Ok p) => p
  | _ => {| bp_bytes := []; bp_width := 0; bp_height := 0; bp_digest := sha256_bytes [] |}
  end.

Lemma encoded_preview_is_accepted_witness :
  ∃ input cols, frame_preview demo_preview = Ok input
    ∧ preview_bindings MediaKind.Video (Some input) = Ok (Some cols).
Proof.
  destruct (encoded_preview_is_accepted demo_picture demo_preview MediaKind.Video)
    as (input & cols & Hi & Hc & _).
  - reflexivity.
  - done.
  - by exists input, cols.
Defined.
