(* ===== verification/Publisher.v ===== *)
(** * Publisher: channel and post aggregates

    The [sooqa-publisher] crate: validation of channels, publication intents,
    request keys and captions, and the commands handed to the repository. *)

From S2P Require Import Prelude Enums Jobs.

Definition MAX_CHANNEL_NAME_LENGTH : Z := 128.
Definition MAX_REQUEST_KEY_LENGTH : Z := 255.
Definition MAX_CAPTION_LENGTH : Z := 1024.
Definition MAX_REPEAT_EVIDENCE_CONFLICTS : nat := 8.
Definition MAX_REPEAT_EVIDENCE_BYTES : Z := 16 * 1024.

(** ** The time-zone library

    [chrono_tz]: a zone is parsed from its name; it gives the local time of an
    instant and the instants that show a given local time (none in a gap, two
    in a fold).  Local times are microseconds since local 1970-01-01T00:00. *)
Class TimeZones := {
  Tz : Type;
  parse_tz : Str → option Tz;
  local_time : Tz → Z → Z;
  from_local : Tz → Z → list Z;
  from_local_spec : ∀ tz t u, u ∈ from_local tz t ↔ local_time tz u = t;
}.

Definition minute : Z := 60000000.
Definition day : Z := 86400000000.

(** [Time::from_hms]. *)
Definition time_of_hms (h m s : Z) : Z := ((h * 60 + m) * 60 + s) * 1000000.

(** ** Channels *)

Record NewChannel := {
  nc_name : Str;
  nc_chat_id : Z;
  nc_time_zone : Str;
  nc_window_start : Z;
  nc_window_end : Z;
  nc_interval_minutes : Z;
  nc_default_parse_mode : option Str;
  nc_default_disable_notification : bool;
}.

Record ChannelUpdate := {
  cu_name : option Str;
  cu_chat_id : option Z;
  cu_is_enabled : option bool;
  cu_time_zone : option Str;
  cu_window_start : option Z;
  cu_window_end : option Z;
  cu_interval_minutes : option Z;
  cu_default_parse_mode : option (option Str);
  cu_default_disable_notification : option bool;
  cu_expected_updated_at : option Z;
}.

Inductive ChannelValidationError :=
| EmptyName
| NameTooLong (max : Z)
| InvalidTelegramChatId (id : Z)
| EmptyTimeZone
| InvalidTimeZone
| InvalidWindow
| InvalidInterval
| InvalidChannelParseMode.

(** [matches!(mode, "HTML" | "MarkdownV2")]. *)
Definition known_parse_mode (mode : Str) : bool :=
  bool_decide (mode = lit "HTML") || bool_decide (mode = lit "MarkdownV2").

Definition new_channel_try_new (name : Str) (chat_id : Z) : result ChannelValidationError NewChannel :=
  let name := trim name in
  if is_empty name then Err EmptyName
  else if MAX_CHANNEL_NAME_LENGTH <? char_count name then Err (NameTooLong MAX_CHANNEL_NAME_LENGTH)
  else if 0 <=? chat_id then Err (InvalidTelegramChatId chat_id)
  else Ok {| nc_name := name; nc_chat_id := chat_id; nc_time_zone := lit "UTC";
             nc_window_start := time_of_hms 8 0 0; nc_window_end := time_of_hms 22 0 0;
             nc_interval_minutes := 30; nc_default_parse_mode := None;
             nc_default_disable_notification := false |}.

Definition new_channel_validate `{TimeZones} (c : NewChannel) : result ChannelValidationError unit :=
  if is_empty (trim (nc_name c)) then Err EmptyName
  else if MAX_CHANNEL_NAME_LENGTH <? char_count (nc_name c) then
    Err (NameTooLong MAX_CHANNEL_NAME_LENGTH)
  else if 0 <=? nc_chat_id c then Err (InvalidTelegramChatId (nc_chat_id c))
  else if is_empty (trim (nc_time_zone c)) then Err EmptyTimeZone
  else if match parse_tz (nc_time_zone c) with None => true | Some _ => false end then
    Err InvalidTimeZone
  else if nc_window_end c <=? nc_window_start c then Err InvalidWindow
  else if nc_interval_minutes c <=? 0 then Err InvalidInterval
  else if match nc_default_parse_mode c with
          | Some mode => negb (known_parse_mode mode)
          | None => false
          end then Err InvalidChannelParseMode
  else Ok tt.

(** ** Publication requests *)

Inductive PublisherValidationError :=
| EmptyRequestKey
| RequestKeyTooLong (max : Z)
| CaptionTooLong (max : Z)
| CaptionControlCharacter
| InvalidParseMode
| InvalidExpectedRevision
| PostNowTimeNotAllowed.

Definition validate_expected_revision (rev : Z) : result PublisherValidationError unit :=
  if rev <? 0 then Err InvalidExpectedRevision else Ok tt.

Definition normalize_request_key (value : Str) : result PublisherValidationError Str :=
  let value := trim value in
  if is_empty value then Err EmptyRequestKey
  else if MAX_REQUEST_KEY_LENGTH <? char_count value then
    Err (RequestKeyTooLong MAX_REQUEST_KEY_LENGTH)
  else Ok value.

(** ['\n' | '\r' | '\t']. *)
Definition is_line_control (c : Z) : bool := (c =? 10) || (c =? 13) || (c =? 9).

Definition validate_caption (caption : Str) : result PublisherValidationError unit :=
  if MAX_CAPTION_LENGTH <? char_count caption then Err (CaptionTooLong MAX_CAPTION_LENGTH)
  else if existsb (λ c, is_control c && negb (is_line_control c)) caption then
    Err CaptionControlCharacter
  else Ok tt.

Record PublicationIntent := {
  pi_action : PublicationAction.t;
  pi_requested_publish_at : option Z;
  pi_caption : option Str;
}.

(** [caption.map(trim).filter(not empty)]. *)
Definition normalize_caption (caption : option Str) : option Str :=
  match caption with
  | Some c => let c := trim c in if is_empty c then None else Some c
  | None => None
  end.

Definition publication_intent_try_new (action : PublicationAction.t) (at_ : option Z)
    (caption : option Str) : result PublisherValidationError PublicationIntent :=
  if bool_decide (action = PublicationAction.PostNow)
     && match at_ with Some _ => true | None => false end
  then Err PostNowTimeNotAllowed
  else
    let caption := normalize_caption caption in
    match caption with
    | Some c =>
        _ ← validate_caption c;
        Ok {| pi_action := action; pi_requested_publish_at := at_; pi_caption := caption |}
    | None => Ok {| pi_action := action; pi_requested_publish_at := at_; pi_caption := caption |}
    end.

Record NewPost := {
  np_media_id : Uuid;
  np_channel_id : Uuid;
  np_caption : option Str;
  np_parse_mode : option Str;
  np_disable_notification : bool;
}.

Record PostUpdate := {
  pu_caption : option (option Str);
  pu_parse_mode : option (option Str);
  pu_disable_notification : option bool;
  pu_expected_updated_at : option Z;
  pu_expected_revision : Z;
}.

(** [PostSchedule] and [PostExactSchedule] have the same fields. *)
Record PostSchedule := {
  ps_post_id : Uuid;
  ps_requested_at : Z;
  ps_request_key : Str;
  ps_expected_revision : Z;
}.

Definition post_schedule_try_new (id : Uuid) (at_ : Z) (key : Str) (rev : Z)
    : result PublisherValidationError PostSchedule :=
  key ← normalize_request_key key;
  _ ← validate_expected_revision rev;
  Ok {| ps_post_id := id; ps_requested_at := at_; ps_request_key := key;
        ps_expected_revision := rev |}.

Definition post_exact_schedule_try_new (id : Uuid) (at_ : Z) (key : Str) (rev : Z)
    : result PublisherValidationError PostSchedule :=
  key ← normalize_request_key key;
  _ ← validate_expected_revision rev;
  Ok {| ps_post_id := id; ps_requested_at := at_; ps_request_key := key;
        ps_expected_revision := rev |}.

(** ** Lemmas *)

(** A caption the code accepts: short enough, and no control character except
    line breaks and tabs. *)
Definition caption_ok (c : Str) : Prop :=
  char_count c ≤ MAX_CAPTION_LENGTH
  ∧ Forall (λ x, is_control x = true → is_line_control x = true) c.

Lemma validate_caption_ok c : validate_caption c = Ok tt ↔ caption_ok c.
Proof.
  unfold validate_caption, caption_ok. destruct (Z.ltb_spec MAX_CAPTION_LENGTH (char_count c)).
  { split; [done|lia]. }
  destruct (existsb _ c) eqn:He.
  - apply existsb_exists in He as (x & Hin & Hx). split; [done|]. intros [_ Hall].
    rewrite Forall_forall in Hall. specialize (Hall x). rewrite list_elem_of_In in Hall.
    bool_norm. rewrite Hall in *; done.
  - split; [|done]. intros _. split; [lia|]. apply Forall_forall. intros x Hin Hx.
    destruct (is_line_control x) eqn:Hl; [done|].
    assert (existsb (λ c, is_control c && negb (is_line_control c)) c = true) as Ht; [|congruence].
    apply existsb_exists. exists x. rewrite <-list_elem_of_In. split; [done|].
    by rewrite Hx, Hl.
Qed.

Lemma validate_caption_unit c u : validate_caption c = Ok u → validate_caption c = Ok tt.
Proof. by destruct u. Qed.

Lemma normalize_request_key_ok v k :
  normalize_request_key v = Ok k →
  k = trim v ∧ k ≠ [] ∧ char_count k ≤ MAX_REQUEST_KEY_LENGTH.
Proof.
  unfold normalize_request_key. destruct (is_empty (trim v)) eqn:He; [done|].
  destruct (Z.ltb_spec MAX_REQUEST_KEY_LENGTH (char_count (trim v))); [done|].
  intros [= <-]. split_and!; [done| |done]. by destruct (trim v).
Qed.

Lemma normalize_caption_some c d :
  normalize_caption c = Some d → ∃ s, c = Some s ∧ d = trim s ∧ d ≠ [].
Proof.
  destruct c as [s|]; simpl; [|done]. destruct (is_empty (trim s)) eqn:He; [done|].
  intros [= <-]. exists s. split_and!; auto. by destruct (trim s).
Qed.

Lemma normalize_caption_idemp c : normalize_caption (normalize_caption c) = normalize_caption c.
Proof.
  destruct (normalize_caption c) as [d|] eqn:Hd; [|done]. simpl.
  destruct (normalize_caption_some _ _ Hd) as (s & -> & -> & Hne).
  rewrite trim_idemp. by destruct (trim s).
Qed.
