(* ===== verification/PublisherRepo.v ===== *)
(** * PublisherRepo: channels, posts, cadence slots and fenced sends

    [persistence/src/publisher.rs].  Each public method is one transaction; it
    locks the channel, then the post, then the publication job, and is written
    here in that order with every guard and early return. *)

From S2P Require Import Prelude Text Enums Jobs Db Queue Publisher.

(** The digest and the two JSON encoders the repository feeds it. *)
Class Digests {J : Json} := {
  sha256 : list Z → list Z;
  intent_json : PublicationIntent → option (list Z);
  evidence_json_len : list RepeatConflict → Z;
}.

Inductive PublisherRepositoryError :=
| Validation (e : PublisherValidationError)
| ChannelValidation (e : ChannelValidationError)
| ChannelMissing (id : Uuid)
| ChannelDisabled (id : Uuid)
| ChannelOptimisticConflict (id : Uuid)
| EmptyChannelUpdate
| ChannelEnablementAmbiguous
| PublicationChannelNotConfigured
| PublicationChannelAmbiguous
| MediaMissing (id : Uuid)
| MediaNotReady (id : Uuid) (state : MediaStorageState.t)
| PostMissing (id : Uuid)
| PostNotEditable (id : Uuid) (state : PostState.t)
| PostCannotBeScheduled (id : Uuid) (state : PostState.t)
| IngestMissing (id : Uuid)
| IngestMediaMissing (id : Uuid)
| MaterializationNotReady (id : Uuid)
| InvalidPublicationAction (action : Str)
| InvalidPublicationDecision (id : Uuid) (d : PublicationDecision.t)
| PostDecisionNotAllowed (id : Uuid) (state : PostState.t)
| RepeatDecisionRequired (id : Uuid)
| ExactTimeMissing (id : Uuid)
| PostNotClaimable (id : Uuid) (state : PostState.t)
| RequestKeyConflict (key : Str)
| OptimisticConflict (id : Uuid)
| EmptyUpdate
| PublishLeaseLost (id : Uuid)
| PublishConflict (id : Uuid)
| StalePublicationJob (id : Uuid)
| PublishJobRunning (id : Uuid)
| PublishJobUnavailable (id : Uuid) (state : JobStatus.t)
| PublishJobUpdateLost (id : Uuid)
| RevisionOverflow
| InvalidPublishFailureState (state : PostState.t)
| InvalidTelegramMessageId (id : Z)
| InvalidTimeZoneName (name : Str)
| CadenceSearchExhausted
| ExactScheduleInPast
| InvalidTimestamp
| RepeatEvidenceTooLarge (max : Z)
| PubDatabase (e : SqlError)
| Serialization.

Record PublishLease := {
  pl_generation : Z;
  pl_token : Uuid;
  pl_attempt : JobLease;
}.

(** ** Cadence *)

Section Cadence.
Context {T : TimeZones}.

(** [DateTime::from_timestamp] is [None] outside chrono's year range. *)
Definition to_chrono (t : Z) : result PublisherRepositoryError Z :=
  if (-8334601228800 * 1000000 <=? t) && (t <? 8210266876800 * 1000000) then Ok t
  else Err InvalidTimestamp.

(** [timestamp_nanos_opt] is [None] when the nanoseconds leave [i64]. *)
Definition from_chrono (t : Z) : result PublisherRepositoryError Z :=
  if in_i64 (t * 1000) then Ok t else Err InvalidTimestamp.

(** [result >= candidate && earliest_utc.is_none_or(|e| result < e)]. *)
Definition keep_earliest (candidate : Z) (earliest : option Z) (result : Z) : option Z :=
  if (candidate <=? result)
     && match earliest with Some e => result <? e | None => true end
  then Some result else earliest.

(** The [while target < end_target] loop over one local day. *)
Fixpoint scan_day (fuel : nat) (tz : Tz) (candidate step target end_target : Z)
    (earliest : option Z) : option Z :=
  match fuel with
  | O => earliest
  | S fuel =>
      if target <? end_target then
        scan_day fuel tz candidate step (target + step) end_target
          (fold_left (keep_earliest candidate) (from_local tz target) earliest)
      else earliest
  end.

(** Enough iterations for every grid point of a window. *)
Definition day_fuel (start end_ step : Z) : nat := S (Z.to_nat ((end_ - start) / step + 1)).

(** The [for _ in 0..370] loop over days. *)
Fixpoint scan_days (days : nat) (tz : Tz) (candidate start end_ step date : Z)
    : result PublisherRepositoryError Z :=
  match days with
  | O => Err CadenceSearchExhausted
  | S days =>
      match scan_day (day_fuel start end_ step) tz candidate step
              (date * day + start) (date * day + end_) None with
      | Some found => from_chrono found
      | None => scan_days days tz candidate start end_ step (date + 1)
      end
  end.

Definition next_allowed_slot (requested : Z) (channel : ChannelRow)
    : result PublisherRepositoryError Z :=
  tz ← ok_or (parse_tz (channel_time_zone channel))
         (InvalidTimeZoneName (channel_time_zone channel));
  candidate ← to_chrono requested;
  if channel_interval_minutes channel <=? 0 then Err CadenceSearchExhausted
  else scan_days 370 tz candidate (channel_window_start channel) (channel_window_end channel)
         (channel_interval_minutes channel * minute) (local_time tz candidate / day).

(** The [for _ in 0..10_000] search for an unoccupied slot. *)
Fixpoint free_slot (fuel : nat) (occupied : list Z) (channel : ChannelRow) (candidate : Z)
    : result PublisherRepositoryError Z :=
  match fuel with
  | O => Err CadenceSearchExhausted
  | S fuel =>
      if negb (bool_decide (candidate ∈ occupied)) then Ok candidate
      else
        candidate ← next_allowed_slot (candidate + 1000000) channel;
        free_slot fuel occupied channel candidate
  end.

(** 10 000 in decimal positions, so that the constant stays small. *)
Definition slot_fuel : nat := Z.to_nat 10000.
End Cadence.
#[global] Arguments slot_fuel : simpl never.
#[global] Opaque slot_fuel.

(** ** Small decisions *)

Definition decision_allowed (action : PublicationAction.t) (at_ : option Z)
    (d : PublicationDecision.t) : bool :=
  match action with
  | PublicationAction.PostNow =>
      match d with
      | PublicationDecision.PostNowAnyway | PublicationDecision.QueueAnyway
      | PublicationDecision.Cancel => true
      | _ => false
      end
  | PublicationAction.Queue =>
      match d with
      | PublicationDecision.QueueAnyway | PublicationDecision.KeepExactTime
      | PublicationDecision.Cancel => true
      | _ => false
      end
      && (is_some at_
          || negb (bool_decide (d = PublicationDecision.KeepExactTime)))
  end.

Definition next_revision (current : Z) : result PublisherRepositoryError Z :=
  ok_or (checked_succ_i64 current) RevisionOverflow.

Section Repo.
Context {J : Json} {P : PayloadSerde} {T : TimeZones} {D : Digests}.
Abbreviation ptxn A := (txn Db PublisherRepositoryError A).

(** ** Request digests *)

Definition schedule_request_hash (s : PostSchedule) : list Z :=
  sha256 (be_bytes 16 (ps_requested_at s * 1000)).
Definition publish_now_request_hash (key : Str) : list Z :=
  sha256 (utf8 (lit "publish_now:v1:") ++ utf8 key).
Definition exact_schedule_request_hash (at_ : Z) : list Z :=
  sha256 (utf8 (lit "exact_schedule:v1:") ++ be_bytes 16 (at_ * 1000)).
Definition decision_request_hash (d : PublicationDecision.t) (rev : Z) : list Z :=
  sha256 (utf8 (lit "publication_decision:v1:")
          ++ utf8 (lit (PublicationDecision.to_string d)) ++ be_bytes 8 rev).
Definition publication_intent_hash (media : Uuid) (i : PublicationIntent)
    : result PublisherRepositoryError (list Z) :=
  json ← ok_or (intent_json i) Serialization;
  Ok (sha256 (utf8 (lit "publication_intent:v1:") ++ be_bytes 16 (Z.of_N media) ++ json)).

(** ** Row locks *)

Definition post_channel_id_of (id : Uuid) : ptxn Uuid :=
  o ← select_post id; r ← require o (PostMissing id); mret (post_channel_id r).
Definition lock_channel (id : Uuid) : ptxn ChannelRow :=
  o ← select_channel id; require o (ChannelMissing id).
Definition lock_post (id : Uuid) : ptxn PostRow :=
  o ← select_post id; require o (PostMissing id).
Definition ensure_channel_enabled (c : ChannelRow) : ptxn unit :=
  fail_if (negb (channel_is_enabled c)) (ChannelDisabled (channel_id c)).

Definition validate_media_and_channel (m c : Uuid) : ptxn unit :=
  om ← select_media m;
  fail_if (is_none om) (MediaMissing m);;
  oc ← select_channel c;
  channel ← require oc (ChannelMissing c);
  fail_if (negb (channel_is_enabled channel)) (ChannelDisabled c).

Definition lock_media_state (m : Uuid) : ptxn MediaStorageState.t :=
  o ← select_media m; r ← require o (MediaMissing m); mret (media_storage_state r).
Definition ensure_media_ready (m : Uuid) : ptxn unit :=
  state ← lock_media_state m;
  fail_if (negb (bool_decide (state = MediaStorageState.Ready))) (MediaNotReady m state).

Definition ensure_repeat_decision_resolved (r : PostRow) : ptxn unit :=
  fail_if (is_some (post_repeat_evidence r)) (RepeatDecisionRequired (post_id r)).

Definition check_expected_revision (r : PostRow) (expected : Z) : ptxn unit :=
  fail_if (expected <? 0) (Validation InvalidExpectedRevision);;
  fail_if (negb (expected =? post_revision r)) (OptimisticConflict (post_id r)).

(** [UPDATE posts SET .. WHERE id = $1 AND guard RETURNING *] with
    [fetch_optional]; [inj] is the error conversion of the calling repository. *)
Definition update_post_where {E} (inj : SqlError → E) (id : Uuid) (guard : PostRow → bool)
    (set : PostRow → result SqlError PostRow) : txn Db E (option PostRow) :=
  o ← select_post id;
  match o with
  | Some r =>
      if guard r then
        r' ← lift (map_err inj (set r));
        write_post r';; mret (Some r')
      else mret None
  | None => mret None
  end.
(** The same statement with [fetch_one]. *)
Definition update_post_one (id : Uuid) (guard : PostRow → bool)
    (set : PostRow → result SqlError PostRow) : ptxn PostRow :=
  o ← update_post_where PubDatabase id guard set;
  require o (PubDatabase RowNotFound).

(** [revision = revision + 1] on a [bigint] column. *)
Definition bump_revision (r : PostRow) : result SqlError PostRow :=
  if post_revision r + 1 <=? i64_max then Ok (r <| post_revision := post_revision r + 1 |>)
  else Err NumericOutOfRange.

Definition queue_mutable_row (r : PostRow) : bool := PostState.is_queue_mutable (post_state r).

(** ** Publication jobs *)

Definition publish_job_key (post : Uuid) : Str :=
  lit "post:" ++ uuid_to_string post ++ lit ":publish:v1".
Definition publish_payload (post : Uuid) (rev : Z) : Value :=
  to_value {| publish_post_id := post; publish_expected_revision := rev |}.

Definition lock_publish_job (post : Uuid) : ptxn (option JobRow) :=
  select_job_by_key (publish_job_key post).

(** The row [INSERT INTO queue.jobs] creates for a post. *)
Definition publish_job_row (fresh post : Uuid) (run_at rev : Z) (state : JobStatus.t) (now : Z)
    : JobRow :=
  {| job_id := fresh; job_kind := JobType.PublishPost; job_payload := publish_payload post rev;
     job_state := state; job_priority := 0; job_run_at := run_at; job_attempt_count := 0;
     job_max_attempts := 5; job_lease_token := None; job_lease_owner := None;
     job_lease_expires_at := None; job_last_heartbeat_at := None; job_error_class := None;
     job_error_message := None; job_dedupe_key := Some (publish_job_key post);
     job_created_at := now; job_updated_at := now;
     job_completed_at := if bool_decide (state = JobStatus.Failed) then Some now else None |}.

Definition insert_publish_job_row (fresh post : Uuid) (run_at rev : Z) (state : JobStatus.t)
    : ptxn unit :=
  ck ← get_clock;
  db ← get_state;
  (* ON CONFLICT (dedupe_key) DO NOTHING, rows_affected <> 1 *)
  fail_if (dedupe_taken db (Some (publish_job_key post))) (PublishJobUpdateLost post);;
  fail_if (is_some (db_jobs db !! fresh)) (PubDatabase UniqueViolation);;
  write_job (publish_job_row fresh post run_at rev state (sql_now ck)).

Definition requeued_publish_job (post : Uuid) (run_at rev now : Z) (r : JobRow) : JobRow :=
  r <| job_payload := publish_payload post rev; job_run_at := run_at;
       job_attempt_count := if bool_decide (job_state r = JobStatus.Failed) then 0
                            else job_attempt_count r;
       job_state := JobStatus.Queued;
       job_error_class := None; job_error_message := None; job_completed_at := None;
       job_updated_at := now |>.

Definition update_publish_job (fresh post : Uuid) (run_at rev : Z) : ptxn unit :=
  o ← lock_publish_job post;
  match o with
  | None => insert_publish_job_row fresh post run_at rev JobStatus.Queued
  | Some r =>
      fail_if (bool_decide (job_state r = JobStatus.Running)) (PublishJobRunning post);;
      fail_if (negb (bool_decide (job_state r = JobStatus.Queued)
                     || bool_decide (job_state r = JobStatus.Failed)))
        (PublishJobUnavailable post (job_state r));;
      ck ← get_clock;
      write_job (requeued_publish_job post run_at rev (sql_now ck) r)
  end.

Definition insert_publish_job (fresh post : Uuid) (run_at rev : Z) : ptxn unit :=
  o ← lock_publish_job post;
  match o with
  | Some r =>
      fail_if (bool_decide (job_state r = JobStatus.Running)) (PublishJobRunning post);;
      update_publish_job fresh post run_at rev
  | None => insert_publish_job_row fresh post run_at rev JobStatus.Queued
  end.

Definition update_failed_publish_job (fresh post : Uuid) (run_at rev : Z) : ptxn unit :=
  o ← lock_publish_job post;
  match o with
  | None => insert_publish_job_row fresh post run_at rev JobStatus.Failed
  | Some r =>
      fail_if (negb (bool_decide (job_state r = JobStatus.Failed)))
        (PublishJobUnavailable post (job_state r));;
      ck ← get_clock;
      write_job (r <| job_payload := publish_payload post rev;
                      job_updated_at := sql_now ck |>)
  end.

Definition cancel_publish_job (post : Uuid) : ptxn unit :=
  o ← lock_publish_job post;
  match o with
  | None => mret tt
  | Some r =>
      fail_if (bool_decide (job_state r = JobStatus.Running)) (PublishJobRunning post);;
      fail_if (negb (bool_decide (job_state r = JobStatus.Queued)
                     || bool_decide (job_state r = JobStatus.Failed)))
        (PublishJobUnavailable post (job_state r));;
      ck ← get_clock;
      write_job (r <| job_state := JobStatus.Cancelled; job_lease_token := None;
                      job_lease_owner := None; job_lease_expires_at := None;
                      job_last_heartbeat_at := None;
                      job_completed_at := Some (sql_now ck);
                      job_updated_at := sql_now ck |>)
  end.

(** The lease filter of every send-side statement. *)
Definition lock_current_job_attempt (post : Uuid) (l : JobLease) : ptxn JobRow :=
  ck ← get_clock;
  o ← select_job (jl_job_id l);
  r ← require o (PublishLeaseLost post);
  fail_if (negb (bool_decide (job_kind r = JobType.PublishPost)
                 && bool_decide (json_text (job_payload r) "post_id" = Some (uuid_to_string post))
                 && bool_decide (job_state r = JobStatus.Running)
                 && (job_attempt_count r =? jl_attempt_number l)
                 && bool_decide (job_lease_owner r = Some (jl_lease_owner l))
                 && bool_decide (job_lease_token r = Some (jl_lease_token l))
                 && match job_lease_expires_at r with
                    | Some t => sql_clock ck <? t
                    | None => false
                    end))
    (PublishLeaseLost post);;
  mret r.

(** ** Slots and repeat conflicts *)

(** [SELECT cadence_slot_at .. WHERE channel_id = .. AND id <> .. AND state IN
    ('queued', 'sending') AND cadence_slot_at IS NOT NULL]. *)
Definition holds_slot (channel post : Uuid) (r : PostRow) : bool :=
  bool_decide (post_channel_id r = channel) && negb (bool_decide (post_id r = post))
  && (bool_decide (post_state r = PostState.Queued)
      || bool_decide (post_state r = PostState.Sending))
  && is_some (post_cadence_slot_at r).
Definition occupied_slots (db : Db) (channel post : Uuid) : list Z :=
  omap post_cadence_slot_at (select_rows (holds_slot channel post) (db_posts db)).

Definition next_free_slot (channel : ChannelRow) (post : Uuid) (requested : Z) : ptxn Z :=
  ck ← get_clock;
  db ← get_state;
  let occupied := occupied_slots db (channel_id channel) post in
  first ← lift (next_allowed_slot (Z.max requested (app_now ck)) channel);
  lift (free_slot slot_fuel occupied channel first).

Definition fourteen_days : Z := 14 * day.

(** The [WHERE] of the repeat query. *)
Definition repeats (media post : Uuid) (intended_at : Z) (r : PostRow) : bool :=
  bool_decide (post_media_id r = media) && negb (bool_decide (post_id r = post))
  && (bool_decide (post_state r = PostState.Queued)
      || bool_decide (post_state r = PostState.Sending)
      || (bool_decide (post_state r = PostState.Published)
          && match post_published_at r with
             | Some t => (intended_at - fourteen_days <? t) && (t <? intended_at)
             | None => false
             end)).

(** [chat_id.to_string()] without its [-100] prefix. *)
Definition telegram_message_link (chat message : Z) : Str :=
  let c := show chat in
  lit "https://t.me/c/" ++ default c (strip_prefix (lit "-100") c) ++ lit "/" ++ show message.

Definition repeat_conflict (chat : Z) (r : PostRow) : RepeatConflict :=
  {| conflict_post_id := post_id r; conflict_state := post_state r;
     conflict_at := default (post_scheduled_at r) (post_published_at r);
     conflict_link :=
       if bool_decide (post_state r = PostState.Published)
       then telegram_message_link chat <$> post_telegram_message_id r else None |}.

(** [ORDER BY COALESCE(published_at, scheduled_at), id]. *)
Definition repeat_le (a b : PostRow) : bool :=
  lex_le [default (post_scheduled_at a) (post_published_at a); Z.of_N (post_id a)]
         [default (post_scheduled_at b) (post_published_at b); Z.of_N (post_id b)].

(** [JOIN channels]: a post whose channel row is missing yields nothing. *)
Definition with_chat (db : Db) (r : PostRow) : option RepeatConflict :=
  c ← db_channels db !! post_channel_id r;
  Some (repeat_conflict (channel_chat_id c) r).

Definition find_repeat_conflicts (media : Uuid) (intended_at : Z) (post : Uuid)
    : ptxn (list RepeatConflict) :=
  db ← get_state;
  mret (take MAX_REPEAT_EVIDENCE_CONFLICTS (omap (with_chat db)
    (order_by repeat_le (select_rows (repeats media post intended_at) (db_posts db))))).
End Repo.
