(* ===== verification/PublisherOps.v ===== *)
(** * PublisherOps: the transactions of [PublisherRepository]

    The public methods of [persistence/src/publisher.rs] and the settlement of
    publication jobs.  Advisory locks and row locks serialise the transactions;
    they have no effect on the data and are not written out.  The identifiers
    the code draws ([Uuid::now_v7()], [gen_random_uuid()]) are arguments. *)

From S2P Require Import Prelude Enums Jobs Db Queue Publisher PublisherRepo.

(** The keys under which the exact and the immediate path record a request. *)
Definition exact_key (request_key : Str) : Str := lit "exact:" ++ request_key.
Definition publish_now_key (request_key : Str) : Str := lit "publish_now:" ++ request_key.
#[global] Arguments exact_key : simpl never.
#[global] Arguments publish_now_key : simpl never.

Record CreatePostResult := { cp_post : PostRow; cp_created : bool }.
Record MaterializationResult := { mr_post : option PostRow; mr_created : bool }.

Section Ops.
Context {J : Json} {P : PayloadSerde} {T : TimeZones} {D : Digests}.
Abbreviation ptxn A := (txn Db PublisherRepositoryError A).

(** ** Channels *)

Definition inserted_channel (id : Uuid) (c : NewChannel) (now : Z) : ChannelRow :=
  {| channel_id := id; channel_chat_id := nc_chat_id c; channel_name := nc_name c;
     channel_is_enabled := true; channel_time_zone := nc_time_zone c;
     channel_window_start := nc_window_start c; channel_window_end := nc_window_end c;
     channel_interval_minutes := nc_interval_minutes c;
     channel_default_parse_mode := nc_default_parse_mode c;
     channel_default_disable_notification := nc_default_disable_notification c;
     channel_created_at := now; channel_updated_at := now |}.

(** [INSERT INTO channels .. RETURNING *], under the primary key and the
    [UNIQUE (telegram_chat_id)] constraint. *)
Definition insert_channel (fresh : Uuid) (c : NewChannel) : ptxn ChannelRow :=
  ck ← get_clock;
  db ← get_state;
  fail_if (is_some (db_channels db !! fresh)
           || is_some (find_row (λ x, channel_chat_id x =? nc_chat_id c) (db_channels db)))
    (PubDatabase UniqueViolation);;
  let row := inserted_channel fresh c (sql_now ck) in
  write_channel row;;
  mret row.

Definition create_channel (fresh : Uuid) (c : NewChannel) : ptxn ChannelRow :=
  _ ← lift (map_err ChannelValidation (new_channel_validate c));
  insert_channel fresh c.

(** [SELECT EXISTS (SELECT 1 FROM channels WHERE is_enabled AND id <> ..)]. *)
Definition other_enabled (db : Db) (except : option Uuid) : bool :=
  is_some (find_row (λ x, channel_is_enabled x
                          && negb (bool_decide (Some (channel_id x) = except)))
                    (db_channels db)).

Definition create_channel_unambiguous (fresh : Uuid) (c : NewChannel) : ptxn ChannelRow :=
  _ ← lift (map_err ChannelValidation (new_channel_validate c));
  db ← get_state;
  fail_if (other_enabled db None) ChannelEnablementAmbiguous;;
  insert_channel fresh c.

Definition channel_update_empty (u : ChannelUpdate) : bool :=
  is_none (cu_name u) && is_none (cu_chat_id u) && is_none (cu_is_enabled u)
  && is_none (cu_time_zone u) && is_none (cu_window_start u) && is_none (cu_window_end u)
  && is_none (cu_interval_minutes u) && is_none (cu_default_parse_mode u)
  && is_none (cu_default_disable_notification u).

Definition channel_candidate (u : ChannelUpdate) (current : ChannelRow) : NewChannel :=
  {| nc_name := default (channel_name current) (trim <$> cu_name u);
     nc_chat_id := default (channel_chat_id current) (cu_chat_id u);
     nc_time_zone := default (channel_time_zone current) (trim <$> cu_time_zone u);
     nc_window_start := default (channel_window_start current) (cu_window_start u);
     nc_window_end := default (channel_window_end current) (cu_window_end u);
     nc_interval_minutes := default (channel_interval_minutes current) (cu_interval_minutes u);
     nc_default_parse_mode :=
       default (channel_default_parse_mode current) (cu_default_parse_mode u);
     nc_default_disable_notification :=
       default (channel_default_disable_notification current)
         (cu_default_disable_notification u) |}.

Definition updated_channel (c : NewChannel) (enabled : bool) (now : Z) (r : ChannelRow)
    : ChannelRow :=
  r <| channel_name := nc_name c; channel_chat_id := nc_chat_id c;
       channel_is_enabled := enabled; channel_time_zone := nc_time_zone c;
       channel_window_start := nc_window_start c; channel_window_end := nc_window_end c;
       channel_interval_minutes := nc_interval_minutes c;
       channel_default_parse_mode := nc_default_parse_mode c;
       channel_default_disable_notification := nc_default_disable_notification c;
       channel_updated_at := now |>.

Definition update_channel (id : Uuid) (u : ChannelUpdate) : ptxn ChannelRow :=
  fail_if (channel_update_empty u) EmptyChannelUpdate;;
  ck ← get_clock;
  db ← get_state;
  current ← require (db_channels db !! id) (ChannelMissing id);
  fail_if (match cu_expected_updated_at u with
           | Some t => negb (t =? channel_updated_at current)
           | None => false
           end) (ChannelOptimisticConflict id);;
  let candidate := channel_candidate u current in
  _ ← lift (map_err ChannelValidation (new_channel_validate candidate));
  let enabled := default (channel_is_enabled current) (cu_is_enabled u) in
  fail_if (enabled && other_enabled db (Some id)) ChannelEnablementAmbiguous;;
  fail_if (is_some (find_row (λ x, (channel_chat_id x =? nc_chat_id candidate)
                                   && negb (bool_decide (channel_id x = id)))
                             (db_channels db)))
    (PubDatabase UniqueViolation);;
  let row := updated_channel candidate enabled (sql_now ck) current in
  write_channel row;;
  mret row.

(** ** New posts *)

(** The row an [INSERT INTO posts] creates; columns it does not name take
    their defaults. *)
Definition inserted_post (id : Uuid) (key : Str) (hash : list Z) (media channel : Uuid)
    (state : PostState.t) (caption parse_mode : option Str) (quiet : bool)
    (scheduled_at : Z) (now : Z) : PostRow :=
  {| post_id := id; post_request_key := Some key; post_request_hash := Some hash;
     post_origin_ingest_id := None; post_requested_action := PublicationAction.Queue;
     post_requested_publish_at := None; post_repeat_evidence := None;
     post_decision_request_key := None; post_decision_request_hash := None;
     post_schedule_request_key := None; post_schedule_request_hash := None;
     post_media_id := media; post_channel_id := channel; post_state := state;
     post_caption := caption; post_parse_mode := parse_mode;
     post_disable_notification := quiet; post_scheduled_at := scheduled_at;
     post_cadence_slot_at := None; post_send_generation := 0; post_send_token := None;
     post_send_started_at := None; post_telegram_message_id := None;
     post_published_at := None; post_error_class := None; post_error_message := None;
     post_created_at := now; post_updated_at := now; post_revision := 0 |}.

Definition has_request_key (k : Str) (r : PostRow) : bool :=
  bool_decide (post_request_key r = Some k).
Definition has_origin (i : Uuid) (r : PostRow) : bool :=
  bool_decide (post_origin_ingest_id r = Some i).

Definition validate_post (p : NewPost) : result PublisherRepositoryError unit :=
  _ ← match np_caption p with
      | Some c => map_err Validation (validate_caption c)
      | None => Ok tt
      end;
  match np_parse_mode p with
  | Some mode => if known_parse_mode mode then Ok tt else Err (Validation InvalidParseMode)
  | None => Ok tt
  end.

Definition create_post_idempotent (fresh : Uuid) (p : NewPost) (key : Str) (hash : list Z)
    : ptxn CreatePostResult :=
  _ ← lift (validate_post p);
  key ← lift (map_err Validation (normalize_request_key key));
  validate_media_and_channel (np_media_id p) (np_channel_id p);;
  ck ← get_clock;
  db ← get_state;
  (* ON CONFLICT (request_key) DO NOTHING *)
  match find_row (has_request_key key) (db_posts db) with
  | None =>
      fail_if (is_some (db_posts db !! fresh)) (PubDatabase UniqueViolation);;
      let row := inserted_post fresh key hash (np_media_id p) (np_channel_id p)
                   PostState.Draft (np_caption p) (np_parse_mode p)
                   (np_disable_notification p) (sql_now ck) (sql_now ck) in
      write_post row;;
      mret {| cp_post := row; cp_created := true |}
  | Some existing =>
      fail_if (negb (bool_decide (post_request_hash existing = Some hash)))
        (RequestKeyConflict key);;
      mret {| cp_post := existing; cp_created := false |}
  end.

(** [ORDER BY id LIMIT 2]. *)
Definition select_enabled_channel_candidates (db : Db) : list Uuid :=
  take 2 (order_by (λ a b, (a <=? b)%N)
    (channel_id <$> select_rows channel_is_enabled (db_channels db))).

Definition single_enabled_channel : ptxn Uuid :=
  db ← get_state;
  match select_enabled_channel_candidates db with
  | [] => throw PublicationChannelNotConfigured
  | [c] => mret c
  | _ => throw PublicationChannelAmbiguous
  end.

(** The instant a new post is evaluated at. *)
Definition evaluation_time (channel : ChannelRow) (i : PublicationIntent) (post : Uuid) (now : Z)
    : ptxn Z :=
  match pi_action i, pi_requested_publish_at i with
  | PublicationAction.PostNow, None => mret now
  | PublicationAction.PostNow, Some _ => throw (Validation PostNowTimeNotAllowed)
  | PublicationAction.Queue, Some at_ =>
      fail_if (at_ <=? now) ExactScheduleInPast;; mret at_
  | PublicationAction.Queue, None => next_free_slot channel post now
  end.

(** The row of an intended post: a draft when a repeat needs a decision, and a
    cadence slot only for a queued post without an exact time. *)
Definition intended_post (fresh : Uuid) (key : Str) (hash : list Z) (origin : option Uuid)
    (media : Uuid) (channel : ChannelRow) (i : PublicationIntent) (evaluation_at : Z)
    (evidence : option (list RepeatConflict)) (now : Z) : PostRow :=
  let needs_decision := is_some evidence in
  let state := if needs_decision then PostState.Draft else PostState.Queued in
  let slot := if negb needs_decision && bool_decide (pi_action i = PublicationAction.Queue)
                 && is_none (pi_requested_publish_at i)
              then Some evaluation_at else None in
  (inserted_post fresh key hash media (channel_id channel) state
     (pi_caption i) (channel_default_parse_mode channel)
     (channel_default_disable_notification channel) evaluation_at now)
  <| post_origin_ingest_id := origin; post_requested_action := pi_action i;
     post_requested_publish_at := pi_requested_publish_at i;
     post_repeat_evidence := evidence; post_cadence_slot_at := slot |>.

Definition insert_intended_post (fresh_post fresh_job : Uuid) (key : Str) (hash : list Z)
    (origin : option Uuid) (media : Uuid) (channel : ChannelRow) (i : PublicationIntent)
    : ptxn PostRow :=
  ck ← get_clock;
  evaluation_at ← evaluation_time channel i fresh_post (app_now ck);
  conflicts ← find_repeat_conflicts media evaluation_at fresh_post;
  let evidence := match conflicts with [] => None | _ => Some conflicts end in
  fail_if (is_some evidence && (MAX_REPEAT_EVIDENCE_BYTES <? evidence_json_len conflicts))
    (RepeatEvidenceTooLarge MAX_REPEAT_EVIDENCE_BYTES);;
  db ← get_state;
  fail_if (is_some (db_posts db !! fresh_post)
           || is_some (find_row (has_request_key key) (db_posts db))
           || match origin with
              | Some o => is_some (find_row (has_origin o) (db_posts db))
              | None => false
              end) (PubDatabase UniqueViolation);;
  let row := intended_post fresh_post key hash origin media channel i evaluation_at evidence
               (sql_now ck) in
  write_post row;;
  (if is_some evidence then mret tt
   else insert_publish_job fresh_job fresh_post evaluation_at (post_revision row));;
  mret row.

Definition create_publication_intent (fresh_post fresh_job media : Uuid)
    (i : PublicationIntent) (key : Str) : ptxn CreatePostResult :=
  key ← lift (map_err Validation (normalize_request_key key));
  hash ← lift (publication_intent_hash media i);
  db ← get_state;
  match find_row (has_request_key key) (db_posts db) with
  | Some existing =>
      fail_if (negb (bool_decide (post_request_hash existing = Some hash)))
        (RequestKeyConflict key);;
      mret {| cp_post := existing; cp_created := false |}
  | None =>
      ensure_media_ready media;;
      c ← single_enabled_channel;
      channel ← lock_channel c;
      row ← insert_intended_post fresh_post fresh_job key hash None media channel i;
      mret {| cp_post := row; cp_created := true |}
  end.

Definition materialize_request_key (ingest : Uuid) : Str :=
  lit "ingest:" ++ uuid_to_string ingest ++ lit ":publication:v1".

Definition materialize_ingest (fresh_post fresh_job id : Uuid) : ptxn MaterializationResult :=
  o ← select_ingest id;
  ingest ← require o (IngestMissing id);
  if bool_decide (ingest_requested_action ingest = RequestedAction.Save) then
    mret {| mr_post := None; mr_created := false |}
  else
    fail_if (negb (bool_decide (ingest_state ingest = IngestStatus.Completed)))
      (MaterializationNotReady id);;
    db ← get_state;
    match find_row (has_origin (ingest_id ingest)) (db_posts db) with
    | Some existing => mret {| mr_post := Some existing; mr_created := false |}
    | None =>
        media ← require (ingest_media_id ingest) (IngestMediaMissing id);
        ensure_media_ready media;;
        c ← require (ingest_requested_channel_id ingest) PublicationChannelNotConfigured;
        channel ← lock_channel c;
        ensure_channel_enabled channel;;
        action ← lift (map_err InvalidPublicationAction
                         (try_from (as_str (ingest_requested_action ingest))));
        i ← lift (map_err Validation (publication_intent_try_new action
               (ingest_requested_publish_at ingest) (ingest_requested_post_caption ingest)));
        hash ← lift (publication_intent_hash media i);
        row ← insert_intended_post fresh_post fresh_job
                (materialize_request_key (ingest_id ingest)) hash (Some (ingest_id ingest))
                media channel i;
        mret {| mr_post := Some row; mr_created := true |}
    end.

(** ** Editing and scheduling *)

Definition post_update_empty (u : PostUpdate) : bool :=
  is_none (pu_caption u) && is_none (pu_parse_mode u) && is_none (pu_disable_notification u).

Definition validate_post_update (u : PostUpdate) : result PublisherRepositoryError unit :=
  _ ← map_err Validation (validate_expected_revision (pu_expected_revision u));
  _ ← match pu_caption u with
      | Some (Some c) => map_err Validation (validate_caption c)
      | _ => Ok tt
      end;
  match pu_parse_mode u with
  | Some (Some mode) =>
      if known_parse_mode mode then Ok tt else Err (Validation InvalidParseMode)
  | _ => Ok tt
  end.

(** The publication job follows the state the post had when it was locked. *)
Definition update_post (fresh_job id : Uuid) (u : PostUpdate) : ptxn PostRow :=
  fail_if (post_update_empty u) EmptyUpdate;;
  _ ← lift (validate_post_update u);
  c ← post_channel_id_of id;
  _ ← lock_channel c;
  current ← lock_post id;
  let state := post_state current in
  fail_if (negb (PostState.is_queue_mutable state)) (PostNotEditable id state);;
  check_expected_revision current (pu_expected_revision u);;
  fail_if (match pu_expected_updated_at u with
           | Some t => negb (t =? post_updated_at current)
           | None => false
           end) (OptimisticConflict id);;
  ck ← get_clock;
  row ← update_post_one id (λ _, true) (λ r, bump_revision
          (r <| post_caption := default (post_caption current) (pu_caption u);
                post_parse_mode := default (post_parse_mode current) (pu_parse_mode u);
                post_disable_notification :=
                  default (post_disable_notification current) (pu_disable_notification u);
                post_updated_at := sql_now ck |>));
  match state with
  | PostState.Queued => update_publish_job fresh_job id (post_scheduled_at row) (post_revision row)
  | PostState.Failed =>
      update_failed_publish_job fresh_job id (post_scheduled_at row) (post_revision row)
  | _ => mret tt
  end;;
  mret row.

(** The columns every transition to [queued] writes. *)
Definition queued_post (scheduled_at : Z) (slot : option Z) (rev now : Z) (r : PostRow)
    : PostRow :=
  r <| post_state := PostState.Queued; post_scheduled_at := scheduled_at;
       post_cadence_slot_at := slot; post_revision := rev; post_error_class := None;
       post_error_message := None; post_updated_at := now |>.
Definition with_schedule_request (key : Str) (hash : list Z) (r : PostRow) : PostRow :=
  r <| post_schedule_request_key := Some key; post_schedule_request_hash := Some hash |>.
Definition with_decision_request (key : Str) (hash : list Z) (r : PostRow) : PostRow :=
  r <| post_repeat_evidence := None; post_decision_request_key := Some key;
       post_decision_request_hash := Some hash |>.

Definition has_schedule_request (key : Str) (r : PostRow) : bool :=
  bool_decide (post_schedule_request_key r = Some key).
Definition has_decision_request (key : Str) (r : PostRow) : bool :=
  bool_decide (post_decision_request_key r = Some key).

(** [if state == Draft { insert } else { update }]. *)
Definition place_publish_job (fresh_job id : Uuid) (was : PostState.t) (run_at rev : Z)
    : ptxn unit :=
  if bool_decide (was = PostState.Draft) then insert_publish_job fresh_job id run_at rev
  else update_publish_job fresh_job id run_at rev.

Definition schedule_post (fresh_job : Uuid) (s : PostSchedule) : ptxn PostRow :=
  c ← post_channel_id_of (ps_post_id s);
  channel ← lock_channel c;
  current ← lock_post (ps_post_id s);
  let hash := schedule_request_hash s in
  if has_schedule_request (ps_request_key s) current then
    fail_if (negb (bool_decide (post_schedule_request_hash current = Some hash)))
      (RequestKeyConflict (ps_request_key s));;
    mret current
  else
    fail_if (negb (queue_mutable_row current))
      (PostCannotBeScheduled (ps_post_id s) (post_state current));;
    check_expected_revision current (ps_expected_revision s);;
    ensure_repeat_decision_resolved current;;
    ensure_channel_enabled channel;;
    ensure_media_ready (post_media_id current);;
    slot ← next_free_slot channel (post_id current) (ps_requested_at s);
    rev ← lift (next_revision (post_revision current));
    ck ← get_clock;
    o ← update_post_where PubDatabase (post_id current) queue_mutable_row
          (λ r, Ok (with_schedule_request (ps_request_key s) hash
                      (queued_post slot (Some slot) rev (sql_now ck) r)));
    row ← require o (PostCannotBeScheduled (post_id current) (post_state current));
    place_publish_job fresh_job (post_id row) (post_state current) slot (post_revision row);;
    mret row.
Definition enqueue_post := schedule_post.

Definition apply_exact_schedule (current : PostRow) (at_ : Z) (key : Str) (hash : list Z)
    (rev : Z) : ptxn PostRow :=
  ck ← get_clock;
  o ← update_post_where PubDatabase (post_id current)
        (λ r, queue_mutable_row r && (post_revision r =? post_revision current))
        (λ r, Ok ((with_schedule_request key hash (queued_post at_ None rev (sql_now ck) r))
                  <| post_requested_action := PublicationAction.Queue;
                     post_requested_publish_at := Some at_; post_repeat_evidence := None |>));
  require o (PostCannotBeScheduled (post_id current) (post_state current)).

Definition schedule_post_exact (fresh_job : Uuid) (s : PostSchedule) : ptxn PostRow :=
  let key := exact_key (ps_request_key s) in
  let hash := exact_schedule_request_hash (ps_requested_at s) in
  c ← post_channel_id_of (ps_post_id s);
  channel ← lock_channel c;
  current ← lock_post (ps_post_id s);
  if has_schedule_request key current then
    fail_if (negb (bool_decide (post_schedule_request_hash current = Some hash)))
      (RequestKeyConflict key);;
    mret current
  else
    ck ← get_clock;
    fail_if (ps_requested_at s <=? app_now ck) ExactScheduleInPast;;
    fail_if (negb (queue_mutable_row current))
      (PostCannotBeScheduled (post_id current) (post_state current));;
    check_expected_revision current (ps_expected_revision s);;
    ensure_repeat_decision_resolved current;;
    ensure_channel_enabled channel;;
    ensure_media_ready (post_media_id current);;
    rev ← lift (next_revision (post_revision current));
    row ← apply_exact_schedule current (ps_requested_at s) key hash rev;
    place_publish_job fresh_job (post_id row) (post_state current) (ps_requested_at s)
      (post_revision row);;
    mret row.

(** [WHERE id = $1 AND state = 'draft' AND revision = expected]. *)
Definition draft_at (expected : Z) (r : PostRow) : bool :=
  bool_decide (post_state r = PostState.Draft) && (post_revision r =? expected).

Definition decided_queued (fresh_job id : Uuid) (key : Str) (hash : list Z)
    (at_ : Z) (slot : option Z) (rev expected : Z) : ptxn PostRow :=
  ck ← get_clock;
  row ← update_post_one id (draft_at expected)
          (λ r, Ok (with_decision_request key hash (queued_post at_ slot rev (sql_now ck) r)));
  insert_publish_job fresh_job id at_ (post_revision row);;
  mret row.

Definition decide_post (fresh_job id : Uuid) (d : PublicationDecision.t) (key : Str)
    (expected : Z) : ptxn PostRow :=
  key ← lift (map_err Validation (normalize_request_key key));
  let hash := decision_request_hash d expected in
  c ← post_channel_id_of id;
  channel ← lock_channel c;
  current ← lock_post id;
  if has_decision_request key current then
    fail_if (negb (bool_decide (post_decision_request_hash current = Some hash)))
      (RequestKeyConflict key);;
    mret current
  else
    fail_if (negb (bool_decide (post_state current = PostState.Draft)))
      (PostDecisionNotAllowed id (post_state current));;
    fail_if (is_none (post_repeat_evidence current))
      (PostDecisionNotAllowed id (post_state current));;
    check_expected_revision current expected;;
    fail_if (negb (decision_allowed (post_requested_action current)
                     (post_requested_publish_at current) d))
      (InvalidPublicationDecision id d);;
    rev ← lift (next_revision (post_revision current));
    ck ← get_clock;
    match d with
    | PublicationDecision.Cancel =>
        update_post_one id (draft_at expected)
          (λ r, Ok ((with_decision_request key hash r)
                    <| post_state := PostState.Cancelled; post_cadence_slot_at := None;
                       post_revision := rev; post_updated_at := sql_now ck |>))
    | PublicationDecision.PostNowAnyway =>
        ensure_channel_enabled channel;;
        ensure_media_ready (post_media_id current);;
        decided_queued fresh_job id key hash (app_now ck) None rev expected
    | PublicationDecision.QueueAnyway =>
        ensure_channel_enabled channel;;
        ensure_media_ready (post_media_id current);;
        slot ← next_free_slot channel id (app_now ck);
        decided_queued fresh_job id key hash slot (Some slot) rev expected
    | PublicationDecision.KeepExactTime =>
        ensure_channel_enabled channel;;
        ensure_media_ready (post_media_id current);;
        at_ ← require (post_requested_publish_at current) (ExactTimeMissing id);
        fail_if (at_ <=? app_now ck) ExactScheduleInPast;;
        decided_queued fresh_job id key hash at_ None rev expected
    end.

Definition publish_now (fresh_job id : Uuid) (key : Str) (expected : Z) : ptxn PostRow :=
  key ← lift (map_err Validation (normalize_request_key key));
  let operation_key := publish_now_key key in
  let hash := publish_now_request_hash key in
  c ← post_channel_id_of id;
  channel ← lock_channel c;
  current ← lock_post id;
  if has_schedule_request operation_key current then
    fail_if (negb (bool_decide (post_schedule_request_hash current = Some hash)))
      (RequestKeyConflict operation_key);;
    mret current
  else
    fail_if (negb (queue_mutable_row current))
      (PostCannotBeScheduled id (post_state current));;
    check_expected_revision current expected;;
    ensure_repeat_decision_resolved current;;
    ensure_channel_enabled channel;;
    ensure_media_ready (post_media_id current);;
    ck ← get_clock;
    rev ← lift (next_revision (post_revision current));
    o ← update_post_where PubDatabase id queue_mutable_row
          (λ r, Ok (with_schedule_request operation_key hash
                      (queued_post (app_now ck) None rev (sql_now ck) r)));
    row ← require o (PostCannotBeScheduled id (post_state current));
    place_publish_job fresh_job id (post_state current) (app_now ck) (post_revision row);;
    mret row.

Definition cancel_post (id : Uuid) (expected : Z) : ptxn PostRow :=
  c ← post_channel_id_of id;
  _ ← lock_channel c;
  current ← lock_post id;
  fail_if (negb (queue_mutable_row current))
    (PostCannotBeScheduled id (post_state current));;
  check_expected_revision current expected;;
  (if bool_decide (post_state current = PostState.Draft) then mret tt
   else cancel_publish_job id);;
  rev ← lift (next_revision (post_revision current));
  ck ← get_clock;
  o ← update_post_where PubDatabase id queue_mutable_row
        (λ r, Ok (r <| post_state := PostState.Cancelled; post_cadence_slot_at := None;
                       post_revision := rev; post_updated_at := sql_now ck |>));
  require o (PostCannotBeScheduled id (post_state current)).
End Ops.
