(* ===== verification/PublisherSend.v ===== *)
(** * PublisherSend: fenced sends and the settlement of publication jobs

    The send side of [persistence/src/publisher.rs]: a worker that holds the
    publication job claims the post, sends, and reports the outcome under the
    generation and token it was given; the settlement and the stale recovery of
    the job move the post out of [queued] and [sending] in the same transaction. *)

From S2P Require Import Prelude Enums Jobs Db Queue Publisher PublisherRepo PublisherOps.

(** What [claim_publish] and [complete_publish] return. *)
Record PublishClaim {J : Json} := { pc_post : PostRow; pc_chat_id : Z }.
Record PublishRetry {J : Json} := { pr_post : PostRow; pr_terminal : bool }.

Section Send.
Context {J : Json} {P : PayloadSerde}.
Abbreviation ptxn A := (txn Db PublisherRepositoryError A).
Abbreviation jtxn A := (txn Db JobRepositoryError A).

(** [send_generation + 1] on an [integer] column. *)
Definition sending_post (token : Uuid) (rev now : Z) (r : PostRow) : result SqlError PostRow :=
  if post_send_generation r + 1 <=? i32_max then
    Ok (r <| post_state := PostState.Sending;
             post_send_generation := post_send_generation r + 1;
             post_send_token := Some token; post_send_started_at := Some now;
             post_revision := rev; post_updated_at := now |>)
  else Err NumericOutOfRange.

Definition claim_publish (token id : Uuid) (expected : Z) (attempt : JobLease)
    : ptxn PublishClaim :=
  c ← post_channel_id_of id;
  channel ← lock_channel c;
  current ← lock_post id;
  _ ← lock_current_job_attempt id attempt;
  fail_if (negb (bool_decide (post_state current = PostState.Queued)))
    (PostNotClaimable id (post_state current));;
  fail_if (negb (post_revision current =? expected)) (StalePublicationJob id);;
  ensure_channel_enabled channel;;
  ensure_media_ready (post_media_id current);;
  rev ← lift (next_revision (post_revision current));
  ck ← get_clock;
  row ← update_post_one id
          (λ r, bool_decide (post_state r = PostState.Queued) && (post_revision r =? expected))
          (sending_post token rev (sql_now ck));
  mret {| pc_post := row; pc_chat_id := channel_chat_id channel |}.

(** [state = 'sending' AND send_generation = .. AND send_token = ..]. *)
Definition holds_send (lease : PublishLease) (r : PostRow) : bool :=
  bool_decide (post_state r = PostState.Sending)
  && (post_send_generation r =? pl_generation lease)
  && bool_decide (post_send_token r = Some (pl_token lease)).

(** Leaving [sending]: the send columns are cleared. *)
Definition sent_post (state : PostState.t) (cls msg : option Str) (now : Z) (r : PostRow)
    : PostRow :=
  r <| post_state := state; post_send_token := None; post_send_started_at := None;
       post_error_class := cls; post_error_message := msg; post_updated_at := now |>.

Definition complete_publish (id : Uuid) (lease : PublishLease) (message : Z)
    : ptxn PublishClaim :=
  fail_if (message <=? 0) (InvalidTelegramMessageId message);;
  c ← post_channel_id_of id;
  channel ← lock_channel c;
  current ← lock_post id;
  _ ← lock_current_job_attempt id (pl_attempt lease);
  if bool_decide (post_state current = PostState.Published) then
    fail_if (negb (post_send_generation current =? pl_generation lease)
             || negb (bool_decide (post_telegram_message_id current = Some message)))
      (PublishConflict id);;
    mret {| pc_post := current; pc_chat_id := channel_chat_id channel |}
  else
    fail_if (negb (holds_send lease current)) (PublishLeaseLost id);;
    ck ← get_clock;
    row ← update_post_one id (holds_send lease)
            (λ r, bump_revision ((sent_post PostState.Published None None (sql_now ck) r)
               <| post_telegram_message_id := Some message;
                  post_published_at := Some (default (sql_now ck) (post_published_at r)) |>));
    mret {| pc_post := row; pc_chat_id := channel_chat_id channel |}.

Definition fail_publish (id : Uuid) (lease : PublishLease) (state : PostState.t)
    (cls msg : Str) : ptxn PostRow :=
  fail_if (negb (bool_decide (state = PostState.Failed)
                 || bool_decide (state = PostState.Unknown)))
    (InvalidPublishFailureState state);;
  c ← post_channel_id_of id;
  _ ← lock_channel c;
  _ ← lock_post id;
  _ ← lock_current_job_attempt id (pl_attempt lease);
  ck ← get_clock;
  o ← update_post_where PubDatabase id (holds_send lease)
        (λ r, bump_revision (sent_post state (Some cls) (Some msg) (sql_now ck) r));
  require o (PublishLeaseLost id).

(** [UPDATE queue.jobs SET payload = .. WHERE id = .. AND state = 'running'],
    which must affect one row. *)
Definition update_running_payload (post job : Uuid) (rev : Z) : ptxn unit :=
  ck ← get_clock;
  o ← select_job job;
  match o with
  | Some j =>
      fail_if (negb (bool_decide (job_state j = JobStatus.Running)))
        (PublishJobUpdateLost post);;
      write_job (j <| job_payload := publish_payload post rev;
                      job_updated_at := sql_now ck |>)
  | None => throw (PublishJobUpdateLost post)
  end.

Definition retry_publish (id : Uuid) (lease : PublishLease) (cls msg : Str)
    : ptxn PublishRetry :=
  c ← post_channel_id_of id;
  _ ← lock_channel c;
  current ← lock_post id;
  job ← lock_current_job_attempt id (pl_attempt lease);
  fail_if (negb (holds_send lease current)) (PublishLeaseLost id);;
  rev ← lift (next_revision (post_revision current));
  let terminal := job_max_attempts job <=? job_attempt_count job in
  let state := if terminal then PostState.Failed else PostState.Queued in
  ck ← get_clock;
  row ← update_post_one id (holds_send lease)
          (λ r, Ok ((sent_post state (Some cls) (Some msg) (sql_now ck) r)
                    <| post_revision := rev |>));
  (if terminal then mret tt else update_running_payload id (job_id job) (post_revision row));;
  mret {| pr_post := row; pr_terminal := terminal |}.

Definition is_sending (r : PostRow) : bool := bool_decide (post_state r = PostState.Sending).

Definition reconcile_interrupted_publish (id : Uuid) (attempt : JobLease) : ptxn bool :=
  c ← post_channel_id_of id;
  _ ← lock_channel c;
  _ ← lock_post id;
  _ ← lock_current_job_attempt id attempt;
  ck ← get_clock;
  o ← update_post_where PubDatabase id is_sending
        (λ r, bump_revision (sent_post PostState.Unknown
           (Some (lit "publication_interrupted"))
           (Some (lit "a previous publication attempt lost its job lease"))
           (sql_now ck) r));
  mret (is_some o).

(** ** Settlement and recovery of publication jobs *)

Definition lock_publication_post (id : Uuid) : jtxn (option PostRow) :=
  o ← select_post id;
  match o with
  | None => mret None
  | Some r => _ ← select_channel (post_channel_id r); select_post id
  end.

Definition settle_terminal_publication_post (id : Uuid) (post : PostRow) (expected : Z)
    (cls msg : Str) : jtxn unit :=
  ck ← get_clock;
  match post_state post with
  | PostState.Queued =>
      if expected =? post_revision post then
        _ ← update_post_where JobDatabase id
              (λ r, bool_decide (post_state r = PostState.Queued)
                    && (post_revision r =? post_revision post))
              (λ r, bump_revision
                      (sent_post PostState.Failed (Some cls) (Some msg) (sql_now ck) r));
        mret tt
      else mret tt
  | PostState.Sending =>
      _ ← update_post_where JobDatabase id is_sending
            (λ r, bump_revision
                    (sent_post PostState.Unknown (Some cls) (Some msg) (sql_now ck) r));
      mret tt
  | _ => mret tt
  end.

(** The payload of a publication command, or the lease is lost. *)
Definition publish_command (c : JobCommand) : result JobRepositoryError PublishPostPayload :=
  match c with PublishPost p => Ok p | _ => Err LeaseLost end.

Definition settle_publish_txn (l : JobLease) (expected : JobCommand) (s : JobSettlement)
    : jtxn JobRow :=
  p ← lift (publish_command expected);
  post ← lock_publication_post (publish_post_id p);
  job ← lock_running_job l (allows_expired_lease s);
  command ← lift (validate_locked_command job expected);
  p' ← lift (publish_command command);
  let u := queue_parameters job s in
  match post with
  | Some post =>
      if qu_terminal u then
        settle_terminal_publication_post (publish_post_id p') post
          (publish_expected_revision p') (qu_error_class u) (qu_error_message u)
      else mret tt
  | None => mret tt
  end;;
  update_locked_job (job_id job) u.
Definition settle_publish_job (l : JobLease) (expected : JobCommand) (s : JobSettlement)
    : op Db JobRepositoryError Job :=
  commit_then (settle_publish_txn l expected s) into_job.

Definition recover_publish_job (id : Uuid) (expected : JobCommand) : jtxn bool :=
  p ← lift (publish_command expected);
  post ← lock_publication_post (publish_post_id p);
  o ← lock_expired_job id;
  match o with
  | None => mret false
  | Some job =>
      command ← lift (validate_locked_command job expected);
      p' ← lift (publish_command command);
      ck ← get_clock;
      let u := recovery_update job (app_now ck) in
      match post with
      | Some post =>
          if qu_terminal u then
            if bool_decide (post_state post = PostState.Sending) then
              settle_terminal_publication_post (publish_post_id p') post
                (publish_expected_revision p') (lit "publication_interrupted")
                (lit "publication job lease expired after the final attempt")
            else
              settle_terminal_publication_post (publish_post_id p') post
                (publish_expected_revision p') (qu_error_class u) (qu_error_message u)
          else mret tt
      | None => mret tt
      end;;
      _ ← update_locked_job (job_id job) u;
      mret true
  end.

Definition materialize_command (c : JobCommand) : result JobRepositoryError Uuid :=
  match c with MaterializePublication p => Ok (materialize_ingest_id p) | _ => Err LeaseLost end.

(** [lock_materialization_ingest] only locks; a missing row is accepted. *)
Definition settle_materialize_txn (l : JobLease) (expected : JobCommand) (s : JobSettlement)
    : jtxn JobRow :=
  i ← lift (materialize_command expected);
  _ ← select_ingest i;
  settle_queue_in_transaction l expected s.
Definition settle_materialize_job (l : JobLease) (expected : JobCommand) (s : JobSettlement)
    : op Db JobRepositoryError Job :=
  commit_then (settle_materialize_txn l expected s) into_job.
Definition recover_materialize_job (id : Uuid) (expected : JobCommand) : jtxn bool :=
  i ← lift (materialize_command expected);
  _ ← select_ingest i;
  o ← recover_queue_only_in_transaction id expected;
  mret (is_some o).

(** ** Retention *)

Definition terminal_job_retention_eligible (db : Db) (c : JobCommand) : bool :=
  match c with
  | MaterializePublication p =>
      match db_ingests db !! materialize_ingest_id p with
      | None => false
      | Some i =>
          if bool_decide (ingest_requested_action i = RequestedAction.Save) then true
          else if negb (bool_decide (ingest_state i = IngestStatus.Completed)) then false
          else is_some (find_row (has_origin (materialize_ingest_id p)) (db_posts db))
      end
  | PublishPost p =>
      match db_posts db !! publish_post_id p with
      | None => false
      | Some r =>
          match post_state r with
          | PostState.Published | PostState.Failed | PostState.Cancelled => true
          | _ => false
          end
      end
  | _ => false
  end.
End Send.
