(* ===== verification/PublisherDemo.v ===== *)
(** * PublisherDemo: a concrete publisher

    Instances of the time-zone and digest interfaces and a short history: two
    media, one channel, two queued posts, one of them claimed and published. *)

From S2P Require Import Prelude Enums Jobs Db Queue Instances Publisher PublisherRepo.
From S2P Require Import PublisherOps PublisherSend.

(** A single zone without offset or transitions. *)
#[global] Instance demo_zones : TimeZones.
Proof.
  refine {| Tz := unit;
            parse_tz s := if decide (s = lit "UTC") then Some tt else None;
            local_time _ u := u;
            from_local _ t := [t] |}.
  intros _ t u. rewrite list_elem_of_singleton. split; congruence.
Defined.

#[global] Instance demo_digests : Digests := {|
  sha256 l := l;
  intent_json i := Some (utf8 (default [] (pi_caption i)));
  evidence_json_len l := 200 * Z.of_nat (length l);
|}.

#[global] Instance publish_claim_eq_dec : EqDecision PublishClaim.
Proof. solve_decision. Defined.
#[global] Instance create_post_result_eq_dec : EqDecision CreatePostResult.
Proof. solve_decision. Defined.
#[global] Instance materialization_result_eq_dec : EqDecision MaterializationResult.
Proof. solve_decision. Defined.

Definition hour : Z := 60 * minute.

Definition demo_channel : ChannelRow :=
  inserted_channel 1 {| nc_name := lit "main"; nc_chat_id := -100123; nc_time_zone := lit "UTC";
    nc_window_start := time_of_hms 8 0 0; nc_window_end := time_of_hms 22 0 0;
    nc_interval_minutes := 30; nc_default_parse_mode := None;
    nc_default_disable_notification := false |} 0.

Definition demo_media (id : Uuid) : MediaRow :=
  {| media_id := id; media_kind := MediaKind.Image;
     media_storage_state := MediaStorageState.Ready; media_canonical_sha256 := None;
     media_fingerprint_version := None; media_fingerprint_data := None;
     media_fingerprint_search_tokens := None; media_title := None; media_description := None;
     media_tags := []; media_source_url := None; media_source_metadata := VNull;
     media_mime_type := None; media_container := None; media_video_codec := None;
     media_audio_codec := None; media_width := None; media_height := None;
     media_duration_ms := None; media_bit_rate := None; media_file_size_bytes := None;
     media_local_work_path := None; media_preview := None; media_storage_chat_id := Some (-100500);
     media_storage_message_id := Some 12; media_file_id := Some (lit "f");
     media_file_unique_id := Some (lit "u"); media_storage_generation := 1;
     media_storage_token := None; media_storage_started_at := None;
     media_caption_sync_generation := 0; media_caption_sync_state := CaptionSyncState.NotRequired;
     media_caption_sync_error := None; media_caption_sync_claim_token := None;
     media_created_at := 0; media_updated_at := 0; media_stored_at := Some 0 |}.

Definition demo_empty_queue : Db :=
  empty_db <| db_channels := {[ 1%N := demo_channel ]};
              db_media := {[ 2%N := demo_media 2; 5%N := demo_media 5 ]} |>.

Definition queue_intent : PublicationIntent :=
  {| pi_action := PublicationAction.Queue; pi_requested_publish_at := None;
     pi_caption := Some (lit "hello") |}.

(** Media 2 becomes post 3 (job 4), media 5 becomes post 6 (job 7). *)
Definition demo_one : Db :=
  (run_txn (create_publication_intent 3 4 2 queue_intent (lit "k1"))
     (demo_clock (9 * hour)) demo_empty_queue).2.
Definition demo_two : Db :=
  (run_txn (create_publication_intent 6 7 5 queue_intent (lit "k2"))
     (demo_clock (9 * hour)) demo_one).2.

(** Worker A takes job 4 and claims post 3 under token 90. *)
Definition demo_taken : Db :=
  (run_txn (claim_next_txn ∅ 70 (lit "worker-a") hour [JobType.PublishPost])
     (demo_clock (9 * hour)) demo_two).2.
Definition demo_attempt : JobLease :=
  {| jl_job_id := 4; jl_attempt_number := 1; jl_lease_owner := lit "worker-a";
     jl_lease_token := 70 |}.
Definition demo_sending : Db :=
  (run_txn (claim_publish 90 3 0 demo_attempt) (demo_clock (9 * hour)) demo_taken).2.
Definition demo_send : PublishLease :=
  {| pl_generation := 1; pl_token := 90; pl_attempt := demo_attempt |}.
Definition demo_published : Db :=
  (run_txn (complete_publish 3 demo_send 555) (demo_clock (9 * hour + 1)) demo_sending).2.

(** The rows of the history. *)
Definition post_at (db : Db) (i : Uuid) : PostRow :=
  default (inserted_post i [] [] 0 0 PostState.Draft None None false 0 0) (db_posts db !! i).
Definition demo_claim : PublishClaim :=
  {| pc_post := post_at demo_sending 3; pc_chat_id := -100123 |}.

Example demo_slots :
  post_cadence_slot_at (post_at demo_two 3) = Some (9 * hour)
  ∧ post_cadence_slot_at (post_at demo_two 6) = Some (9 * hour + 30 * minute)
  ∧ post_state (post_at demo_published 3) = PostState.Published.
Proof. split_and!; by_vm. Qed.
