(* ===== verification/PublisherInv.v ===== *)
(** * PublisherInv: inversion of the publisher's transactions

    What a successful helper has checked and changed.  [pub_inv] drives these
    lemmas through a whole transaction; [PublisherSpec] states the results. *)

From S2P Require Import Prelude Enums Jobs Db Queue Publisher PublisherRepo PublisherOps.
From S2P Require Import PublisherSend.

Section Inv.
Context {J : Json} {P : PayloadSerde} {T : TimeZones} {D : Digests}.
Implicit Types (db : Db) (r : PostRow) (ck : Clock).

Definition set_job (j : JobRow) (db : Db) : Db :=
  db <| db_jobs := <[job_id j := j]> (db_jobs db) |>.
Definition set_post (r : PostRow) (db : Db) : Db :=
  db <| db_posts := <[post_id r := r]> (db_posts db) |>.

Lemma write_post_set {E} r ck db u db' :
  (write_post r : txn Db E unit) ck db = Ok (u, db') → db' = set_post r db.
Proof. intros H. by apply write_post_ok in H. Qed.
Lemma write_job_set {E} j ck db u db' :
  (write_job j : txn Db E unit) ck db = Ok (u, db') → db' = set_job j db.
Proof. intros H. by apply write_job_ok in H. Qed.

(** ** Locks and guards only read *)

Lemma post_channel_id_of_ok id ck db c db' :
  post_channel_id_of id ck db = Ok (c, db') →
  db' = db ∧ ∃ r, db_posts db !! id = Some r ∧ c = post_channel_id r.
Proof. unfold post_channel_id_of. intros. db_inv. eauto. Qed.
Lemma lock_channel_ok c ck db ch db' :
  lock_channel c ck db = Ok (ch, db') → db' = db ∧ db_channels db !! c = Some ch.
Proof. unfold lock_channel. intros. db_inv. eauto. Qed.
Lemma lock_post_ok id ck db r db' :
  lock_post id ck db = Ok (r, db') → db' = db ∧ db_posts db !! id = Some r.
Proof. unfold lock_post. intros. db_inv. eauto. Qed.
Lemma ensure_channel_enabled_ok ch ck db u db' :
  ensure_channel_enabled ch ck db = Ok (u, db') → db' = db ∧ channel_is_enabled ch = true.
Proof. unfold ensure_channel_enabled. intros. db_inv. eauto. Qed.
Lemma ensure_media_ready_ok m ck db u db' :
  ensure_media_ready m ck db = Ok (u, db') →
  db' = db ∧ ∃ x, db_media db !! m = Some x ∧ media_storage_state x = MediaStorageState.Ready.
Proof. unfold ensure_media_ready, lock_media_state. intros. db_inv. eauto. Qed.
Lemma ensure_repeat_decision_resolved_ok r ck db u db' :
  ensure_repeat_decision_resolved r ck db = Ok (u, db') →
  db' = db ∧ post_repeat_evidence r = None.
Proof.
  unfold ensure_repeat_decision_resolved. intros. db_inv.
  by destruct (post_repeat_evidence r).
Qed.
Lemma check_expected_revision_ok r e ck db u db' :
  check_expected_revision r e ck db = Ok (u, db') → db' = db ∧ e = post_revision r ∧ 0 ≤ e.
Proof. unfold check_expected_revision. intros. db_inv. auto. Qed.
Lemma validate_media_and_channel_ok m c ck db u db' :
  validate_media_and_channel m c ck db = Ok (u, db') → db' = db.
Proof. unfold validate_media_and_channel. intros. by db_inv. Qed.
Lemma single_enabled_channel_ok ck db c db' :
  single_enabled_channel ck db = Ok (c, db') →
  db' = db ∧ select_enabled_channel_candidates db = [c].
Proof.
  unfold single_enabled_channel. intros. db_inv.
  destruct (select_enabled_channel_candidates db) as [|? []]; db_inv; auto.
Qed.
Lemma next_revision_ok n m : next_revision n = Ok m → m = n + 1 ∧ m ≤ i64_max.
Proof.
  unfold next_revision, checked_succ_i64, ok_or. case_match; intros; simplify_eq.
  repeat case_match; simplify_eq. bool_norm. done.
Qed.
Lemma bump_revision_ok r r' : bump_revision r = Ok r' →
  r' = r <| post_revision := post_revision r + 1 |> ∧ post_revision r + 1 ≤ i64_max.
Proof. unfold bump_revision. case_match; intros; simplify_eq. bool_norm. done. Qed.

(** The publication lease: the job runs this post under the worker's lease. *)
Definition publish_attempt (post : Uuid) (l : JobLease) (now : Z) (j : JobRow) : Prop :=
  job_kind j = JobType.PublishPost
  ∧ json_text (job_payload j) "post_id" = Some (uuid_to_string post)
  ∧ leased_by l j ∧ job_attempt_count j = jl_attempt_number l
  ∧ ∃ t, job_lease_expires_at j = Some t ∧ now < t.

Lemma lock_current_job_attempt_ok id l ck db j db' :
  lock_current_job_attempt id l ck db = Ok (j, db') →
  db' = db ∧ db_jobs db !! jl_job_id l = Some j ∧ publish_attempt id l (sql_clock ck) j.
Proof.
  unfold lock_current_job_attempt, publish_attempt, leased_by. intros. db_inv.
  destruct (job_lease_expires_at _) as [t|]; [|done]. bool_norm. split_and!; eauto.
Qed.

(** ** Cadence *)

Lemma free_slot_not_occupied fuel occ ch c s : free_slot fuel occ ch c = Ok s → s ∉ occ.
Proof.
  revert c. induction fuel as [|n IH]; simpl; intros c Hf; [done|].
  destruct (bool_decide (c ∈ occ)) eqn:Hd; simpl in Hf.
  - unfold mbind, result_bind in Hf. case_match; simplify_eq. eauto.
  - simplify_eq. by apply bool_decide_eq_false in Hd.
Qed.

Lemma next_free_slot_ok ch post at_ ck db s db' :
  next_free_slot ch post at_ ck db = Ok (s, db') →
  db' = db ∧ s ∉ occupied_slots db (channel_id ch) post.
Proof. unfold next_free_slot. intros. db_inv. eauto using free_slot_not_occupied. Qed.

Lemma find_repeat_conflicts_ok m t p ck db l db' :
  find_repeat_conflicts m t p ck db = Ok (l, db') → db' = db.
Proof. unfold find_repeat_conflicts. intros. by db_inv. Qed.

(** ** Writes to [posts] *)

Lemma update_post_where_ok {E} (inj : SqlError → E) id guard set ck db o db' :
  update_post_where inj id guard set ck db = Ok (o, db') →
  (o = None ∧ db' = db ∧ ∀ r, db_posts db !! id = Some r → guard r = false)
  ∨ ∃ r r', db_posts db !! id = Some r ∧ guard r = true ∧ set r = Ok r' ∧ o = Some r'
      ∧ db' = set_post r' db.
Proof.
  unfold update_post_where. intros. db_inv.
  destruct (db_posts db !! id) as [r|] eqn:Hr; db_inv; [|by left; naive_solver].
  destruct (guard r) eqn:Hg; db_inv; [|by left; naive_solver].
  right. unfold map_err in *. case_match; simplify_eq. eexists _, _. eauto.
Qed.

Lemma update_post_one_ok id guard set ck db r' db' :
  update_post_one id guard set ck db = Ok (r', db') →
  ∃ r, db_posts db !! id = Some r ∧ guard r = true ∧ set r = Ok r'
    ∧ db' = set_post r' db.
Proof.
  unfold update_post_one. intros. db_inv.
  match goal with H : update_post_where _ _ _ _ _ _ = _ |- _ =>
    apply update_post_where_ok in H as [(? & ? & _)|(r & x & ? & ? & ? & ? & ?)] end;
    simplify_eq. eauto.
Qed.

Lemma wf_update_post db r r' :
  db_wf db → db_posts db !! post_id r = Some r → post_id r' = post_id r →
  post_check r' = true → db_wf (set_post r' db).
Proof.
  intros [? Hk ? ? Hc ? ? ? ?] Hr Hid Hr'. constructor; simpl; try done;
    intros i x [[<- <-]|[? ?]]%lookup_insert_Some; eauto.
Qed.

Lemma wf_insert_post db r :
  db_wf db → post_check r = true →
  db_wf (set_post r db).
Proof.
  intros [? Hk ? ? Hc ? ? ? ?] Hr. constructor; simpl; try done;
    intros i x [[<- <-]|[? ?]]%lookup_insert_Some; eauto.
Qed.

Lemma wf_write_channel db c :
  db_wf db → db_wf (db <| db_channels := <[channel_id c := c]> (db_channels db) |>).
Proof.
  intros [? ? Hk ? ? ? ? ? ?]. constructor; simpl; try done;
    intros i x [[<- <-]|[? ?]]%lookup_insert_Some; eauto.
Qed.

(** ** Writes to [queue.jobs] *)

(** Every publication key belongs to a publication job: the key is written
    nowhere else. *)
Definition keys_typed (db : Db) : Prop := ∀ i j post,
  db_jobs db !! i = Some j → job_dedupe_key j = Some (publish_job_key post) →
  job_kind j = JobType.PublishPost.

(** The publication job of [post] as the publisher writes it. *)
Record publish_job (db : Db) (post : Uuid) (rev : Z) (j : JobRow) : Prop := {
  pj_kind : keys_typed db → job_kind j = JobType.PublishPost;
  pj_key : job_dedupe_key j = Some (publish_job_key post);
  pj_payload : job_payload j = publish_payload post rev;
}.

Lemma lock_publish_job_ok post ck db o db' :
  lock_publish_job post ck db = Ok (o, db') → db_wf db →
  db' = db ∧ match o with
    | Some j => db_jobs db !! job_id j = Some j
                ∧ job_dedupe_key j = Some (publish_job_key post)
    | None => dedupe_taken db (Some (publish_job_key post)) = false
    end.
Proof.
  unfold lock_publish_job. intros H Hwf. db_inv. split; [done|]. simpl.
  destruct (find_row _ _) as [j|] eqn:Hf; [|done].
  apply find_row_Some in Hf as (i & Hi & Hk). unfold has_dedupe_key in Hk. bool_norm.
  by rewrite (wf_job_key _ Hwf _ _ Hi).
Qed.

(** A job write that keeps the table well formed. *)
Definition job_write (j : JobRow) (db db' : Db) : Prop :=
  db' = set_job j db ∧ db_wf db'.

Lemma job_write_update db j j' :
  db_wf db → db_jobs db !! job_id j = Some j → job_id j' = job_id j →
  job_dedupe_key j' = job_dedupe_key j → job_inv j' = true → job_write j' db (set_job j' db).
Proof. split; [done|]. by eapply wf_update_job. Qed.

Lemma insert_publish_job_row_ok fresh post run_at rev state ck db u db' :
  insert_publish_job_row fresh post run_at rev state ck db = Ok (u, db') → db_wf db →
  state = JobStatus.Queued ∨ state = JobStatus.Failed →
  let j := publish_job_row fresh post run_at rev state (sql_now ck) in job_write j db db'.
Proof.
  unfold insert_publish_job_row. intros H Hwf Hs. db_inv. split; [done|].
  apply (wf_insert_job db (publish_job_row fresh post run_at rev state (sql_now ck)));
    simpl; auto.
  - by destruct (db_jobs db !! fresh).
  - by destruct Hs as [-> | ->].
Qed.

Lemma requeued_publish_job_inv post run_at rev now j :
  job_inv j = true → job_state j = JobStatus.Queued ∨ job_state j = JobStatus.Failed →
  job_inv (requeued_publish_job post run_at rev now j) = true.
Proof.
  unfold job_inv, job_check, job_lease_check, requeued_publish_job. simpl.
  intros Hj Hs. destruct (job_state j); try naive_solver;
    rewrite ?andb_true_iff, ?Z.leb_le, ?Z.ltb_lt in *; simpl; naive_solver lia.
Qed.

Lemma update_publish_job_ok fresh post run_at rev ck db u db' :
  update_publish_job fresh post run_at rev ck db = Ok (u, db') → db_wf db →
  ∃ j, job_write j db db' ∧ publish_job db post rev j ∧ job_state j = JobStatus.Queued
    ∧ job_run_at j = run_at.
Proof.
  unfold update_publish_job. intros H Hwf. db_inv.
  match goal with H : lock_publish_job _ _ _ = _ |- _ =>
    apply lock_publish_job_ok in H as [-> Ho]; [|done] end.
  case_match; db_inv.
  - match goal with Hj : db_jobs _ !! job_id ?j = Some ?j |- _ =>
      exists (requeued_publish_job post run_at rev (sql_now ck) j);
      pose proof (wf_job_inv _ Hwf _ _ Hj) end.
    match goal with H : _ || _ = true |- _ => apply orb_true_iff in H as Hs end.
    rewrite !bool_decide_eq_true in Hs.
    split; [|by split; [constructor|]; simpl; eauto].
    eapply job_write_update; eauto using requeued_publish_job_inv.
  - eexists. split; [by eapply insert_publish_job_row_ok; eauto|]. by split.
Qed.

Lemma insert_publish_job_ok fresh post run_at rev ck db u db' :
  insert_publish_job fresh post run_at rev ck db = Ok (u, db') → db_wf db →
  ∃ j, job_write j db db' ∧ publish_job db post rev j ∧ job_state j = JobStatus.Queued
    ∧ job_run_at j = run_at.
Proof.
  unfold insert_publish_job. intros H Hwf. db_inv.
  match goal with H : lock_publish_job _ _ _ = _ |- _ =>
    apply lock_publish_job_ok in H as [-> Ho]; [|done] end.
  case_match; db_inv.
  - eapply update_publish_job_ok; eauto.
  - eexists. split; [by eapply insert_publish_job_row_ok; eauto|]. by split.
Qed.

Lemma place_publish_job_ok fresh post was run_at rev ck db u db' :
  place_publish_job fresh post was run_at rev ck db = Ok (u, db') → db_wf db →
  ∃ j, job_write j db db' ∧ publish_job db post rev j ∧ job_state j = JobStatus.Queued
    ∧ job_run_at j = run_at.
Proof.
  unfold place_publish_job. case_match; eauto using update_publish_job_ok, insert_publish_job_ok.
Qed.

Lemma update_failed_publish_job_ok fresh post run_at rev ck db u db' :
  update_failed_publish_job fresh post run_at rev ck db = Ok (u, db') → db_wf db →
  ∃ j, job_write j db db' ∧ publish_job db post rev j ∧ job_state j = JobStatus.Failed.
Proof.
  unfold update_failed_publish_job. intros H Hwf. db_inv.
  match goal with H : lock_publish_job _ _ _ = _ |- _ =>
    apply lock_publish_job_ok in H as [-> Ho]; [|done] end.
  case_match; db_inv.
  - match goal with Hj : db_jobs _ !! job_id ?j = Some ?j |- _ =>
      exists (j <| job_payload := publish_payload post rev; job_updated_at := sql_now ck |>);
      pose proof (wf_job_inv _ Hwf _ _ Hj) end.
    split; [|by split; [constructor|]; simpl; eauto]. eapply job_write_update; eauto.
  - eexists. split; [by eapply insert_publish_job_row_ok; eauto|]. by split.
Qed.

Lemma cancel_publish_job_ok post ck db u db' :
  cancel_publish_job post ck db = Ok (u, db') → db_wf db →
  db' = db ∨ ∃ j, job_write j db db' ∧ (keys_typed db → job_kind j = JobType.PublishPost)
    ∧ job_dedupe_key j = Some (publish_job_key post) ∧ job_state j = JobStatus.Cancelled.
Proof.
  unfold cancel_publish_job. intros H Hwf. db_inv.
  match goal with H : lock_publish_job _ _ _ = _ |- _ =>
    apply lock_publish_job_ok in H as [-> Ho]; [|done] end.
  case_match; db_inv; [|by left].
  right. eexists (_ <| job_state := JobStatus.Cancelled; job_lease_token := None;
    job_lease_owner := None; job_lease_expires_at := None; job_last_heartbeat_at := None;
    job_completed_at := Some (sql_now ck); job_updated_at := sql_now ck |>).
  split; [|by split_and!; simpl; eauto]. eapply job_write_update; eauto.
  match goal with Hj : db_jobs _ !! _ = Some _ |- _ =>
    pose proof (wf_job_inv _ Hwf _ _ Hj) end. unfold job_inv, job_check in *. simpl in *.
  by rewrite !andb_true_iff in *; naive_solver.
Qed.

Lemma update_running_payload_ok post job rev ck db u db' :
  update_running_payload post job rev ck db = Ok (u, db') → db_wf db →
  ∃ j, db_jobs db !! job = Some j ∧ job_state j = JobStatus.Running
    ∧ job_write (j <| job_payload := publish_payload post rev; job_updated_at := sql_now ck |>)
        db db'.
Proof.
  unfold update_running_payload. intros H Hwf. db_inv.
  destruct (db_jobs db !! job) as [j|] eqn:Hj; db_inv. exists j. split_and!; [done..|].
  pose proof (wf_job_key _ Hwf _ _ Hj) as <-.
  apply (job_write_update db j); try done. by apply (wf_job_inv _ Hwf _ _ Hj).
Qed.
End Inv.

(** [db_inv] extended to the publisher's locks, guards and conditionals.  Job
    helpers and post updates are left to the caller. *)
Ltac pub_inv_step :=
  match goal with
  | H : Some _ = _ !! _ |- _ => symmetry in H
  | H : write_post _ _ _ = Ok _ |- _ => apply write_post_set in H
  | H : write_job _ _ _ = Ok _ |- _ => apply write_job_set in H
  | H : post_channel_id_of _ _ _ = Ok _ |- _ => apply post_channel_id_of_ok in H as (? & ? & ? & ?)
  | H : lock_channel _ _ _ = Ok _ |- _ => apply lock_channel_ok in H as [? ?]
  | H : lock_post _ _ _ = Ok _ |- _ => apply lock_post_ok in H as [? ?]
  | H : ensure_channel_enabled _ _ _ = Ok _ |- _ => apply ensure_channel_enabled_ok in H as [? ?]
  | H : ensure_media_ready _ _ _ = Ok _ |- _ => apply ensure_media_ready_ok in H as (? & ? & ? & ?)
  | H : ensure_repeat_decision_resolved _ _ _ = Ok _ |- _ =>
      apply ensure_repeat_decision_resolved_ok in H as [? ?]
  | H : check_expected_revision _ _ _ _ = Ok _ |- _ =>
      apply check_expected_revision_ok in H as (? & ? & ?)
  | H : validate_media_and_channel _ _ _ _ = Ok _ |- _ => apply validate_media_and_channel_ok in H
  | H : single_enabled_channel _ _ = Ok _ |- _ => apply single_enabled_channel_ok in H as [? ?]
  | H : lock_current_job_attempt _ _ _ _ = Ok _ |- _ =>
      apply lock_current_job_attempt_ok in H as (? & ? & ?)
  | H : next_free_slot _ _ _ _ _ = Ok _ |- _ => apply next_free_slot_ok in H as [? ?]
  | H : find_repeat_conflicts _ _ _ _ _ = Ok _ |- _ => apply find_repeat_conflicts_ok in H
  | H : next_revision _ = Ok _ |- _ => apply next_revision_ok in H as [? ?]
  | H : map_err _ _ = Ok _ |- _ => unfold map_err in H
  | H : update_post_one _ _ _ _ _ = Ok _ |- _ => apply update_post_one_ok in H as (? & ? & ? & ? & ?)
  | H : bump_revision _ = Ok _ |- _ => apply bump_revision_ok in H as [? ?]
  | H : (if ?b then _ else _) _ _ = Ok _ |- _ => destruct b eqn:?
  | H : match ?o with Ok _ => _ | Err _ => _ end = Ok _ |- _ => destruct o eqn:?
  end.
Ltac pub_inv :=
  repeat ((txn_inv_step || pub_inv_step || db_inv_step || bool_norm_step); simplify_eq/=).
