(* ===== verification/PublisherSpec.v ===== *)
(** * PublisherSpec: the life of a post

    An abstract state machine for one post ([post_change]) and the proof that
    every transaction of the publisher refines it; then, by induction over
    histories, finality, optimistic concurrency, send fencing and the exclusive
    use of cadence slots. *)

From S2P Require Import Prelude Enums Jobs Db Queue Instances Publisher PublisherRepo.
From S2P Require Import PublisherOps PublisherSend PublisherInv.

(** ** The abstract machine *)

Section Machine.
Context {J : Json}.

(** Columns no transaction rewrites. *)
Record same_identity (r r' : PostRow) : Prop := {
  si_id : post_id r' = post_id r;
  si_media : post_media_id r' = post_media_id r;
  si_channel : post_channel_id r' = post_channel_id r;
  si_origin : post_origin_ingest_id r' = post_origin_ingest_id r;
  si_key : post_request_key r' = post_request_key r;
  si_hash : post_request_hash r' = post_request_hash r;
}.

(** Who moves a post: the sender of its publication job, or anybody else (requests,
    settlements and recoveries). *)
Inductive mover := Sender | Requester.

(** The moves of one post; [occ] are the slots other posts hold.  Only the sender
    claims a post, and only the sender lets it leave [sending] for anything but
    [unknown]. *)
Inductive post_move (w : mover) (occ : list Z) (r r' : PostRow) : Prop :=
| move_edit :
    PostState.is_queue_mutable (post_state r) = true → post_state r' = post_state r →
    post_cadence_slot_at r' = post_cadence_slot_at r →
    post_send_generation r' = post_send_generation r → post_move w occ r r'
| move_queue :
    PostState.is_queue_mutable (post_state r) = true → post_state r' = PostState.Queued →
    (∀ s, post_cadence_slot_at r' = Some s → s ∉ occ) →
    post_send_generation r' = post_send_generation r → post_move w occ r r'
| move_cancel :
    PostState.is_queue_mutable (post_state r) = true → post_state r' = PostState.Cancelled →
    post_cadence_slot_at r' = None →
    post_send_generation r' = post_send_generation r → post_move w occ r r'
| move_claim :
    w = Sender →
    post_state r = PostState.Queued → post_state r' = PostState.Sending →
    post_cadence_slot_at r' = post_cadence_slot_at r →
    post_send_generation r' = post_send_generation r + 1 → post_move w occ r r'
| move_leave :
    w = Sender →
    post_state r = PostState.Sending →
    post_state r' ∈ [PostState.Published; PostState.Failed; PostState.Unknown;
                     PostState.Queued] →
    post_cadence_slot_at r' = post_cadence_slot_at r →
    post_send_generation r' = post_send_generation r → post_move w occ r r'
| move_expire :
    post_state r = PostState.Queued → post_state r' = PostState.Failed →
    post_cadence_slot_at r' = post_cadence_slot_at r →
    post_send_generation r' = post_send_generation r → post_move w occ r r'
| move_interrupt :
    post_state r = PostState.Sending → post_state r' = PostState.Unknown →
    post_cadence_slot_at r' = post_cadence_slot_at r →
    post_send_generation r' = post_send_generation r → post_move w occ r r'.

Record post_change (w : mover) (occ : list Z) (r r' : PostRow) : Prop := {
  ch_identity : same_identity r r';
  ch_revision : post_revision r' = post_revision r + 1;
  ch_bound : post_revision r' ≤ i64_max;
  ch_check : post_check r' = true;
  ch_move : post_move w occ r r';
}.

Record new_post (occ : list Z) (r : PostRow) : Prop := {
  np_state : post_state r = PostState.Draft ∨ post_state r = PostState.Queued;
  np_revision : post_revision r = 0;
  np_generation : post_send_generation r = 0;
  np_check : post_check r = true;
  np_slot : ∀ s, post_cadence_slot_at r = Some s → s ∉ occ;
}.

(** The unique columns of a new row differ from every stored one. *)
Definition fresh_keys (db : Db) (r : PostRow) : Prop := ∀ j x, db_posts db !! j = Some x →
  (∀ k, post_request_key r = Some k → post_request_key x ≠ Some k)
  ∧ (∀ o, post_origin_ingest_id r = Some o → post_origin_ingest_id x ≠ Some o).

(** What one transaction does to the table of posts. *)
Inductive posts_effect (w : mover) (db db' : Db) : Prop :=
| eff_none : db_posts db' = db_posts db → posts_effect w db db'
| eff_change r r' :
    db_posts db !! post_id r = Some r → db_posts db' = <[post_id r := r']> (db_posts db) →
    post_change w (occupied_slots db (post_channel_id r) (post_id r)) r r' →
    posts_effect w db db'
| eff_new r :
    db_posts db !! post_id r = None → db_posts db' = <[post_id r := r]> (db_posts db) →
    new_post (occupied_slots db (post_channel_id r) (post_id r)) r → fresh_keys db r →
    posts_effect w db db'.

(** A committed change to posts together with the table invariants. *)
Definition effect (w : mover) (db db' : Db) : Prop := posts_effect w db db' ∧ db_wf db'.
End Machine.

(** ** Refinement, one transaction at a time *)

(** What an [UPDATE .. WHERE] on one post did. *)
Ltac where_inv :=
  match goal with H : update_post_where _ _ _ _ _ _ = Ok _ |- _ =>
    apply update_post_where_ok in H as [(? & ? & _)|(? & ? & ? & ? & ? & ? & ?)] end;
  simplify_eq/=.

Section Refine.
Context {J : Json} {P : PayloadSerde} {T : TimeZones} {D : Digests} {w : mover}.
Implicit Types (db : Db) (r : PostRow) (ck : Clock).

Lemma effect_refl db : db_wf db → effect w db db.
Proof. split; [by constructor|done]. Qed.

(** Writing the changed post, then possibly its job. *)
Lemma effect_change db r r' :
  db_wf db → db_posts db !! post_id r = Some r →
  post_change w (occupied_slots db (post_channel_id r) (post_id r)) r r' →
  effect w db (set_post r' db).
Proof.
  intros Hwf Hr Hc. split.
  - eapply eff_change; [done| |done]. simpl. by rewrite (si_id _ _ (ch_identity _ _ _ _ Hc)).
  - eapply wf_update_post; eauto using si_id, ch_identity, ch_check.
Qed.

Lemma effect_job db db' j db'' : effect w db db' → job_write j db' db'' → effect w db db''.
Proof.
  intros [He Hwf] [-> Hwf']. split; [|done].
  destruct He; [apply eff_none|eapply eff_change|eapply eff_new]; eauto.
Qed.

Lemma effect_posts_eq db db1 db2 : db_posts db1 = db_posts db → effect w db1 db2 → effect w db db2.
Proof.
  intros Heq [He Hwf]. split; [|done]. destruct He as [H|r r' H1 H2 H3|r H1 H2 H3 H4];
    unfold occupied_slots, fresh_keys in *; rewrite Heq in *;
    [by apply eff_none|by eapply eff_change|by eapply eff_new].
Qed.

Lemma effect_new db r :
  db_wf db → db_posts db !! post_id r = None →
  new_post (occupied_slots db (post_channel_id r) (post_id r)) r → fresh_keys db r →
  effect w db (set_post r db).
Proof.
  intros Hwf Hr Hn Hk. split; [by eapply eff_new|]. eapply wf_insert_post; eauto using np_check.
Qed.

Lemma lookup_post_id db id r : db_wf db → db_posts db !! id = Some r → post_id r = id.
Proof. intros Hwf. apply (wf_post_key _ Hwf). Qed.

Record same_send r r' : Prop := {
  ss_token : post_send_token r' = post_send_token r;
  ss_started : post_send_started_at r' = post_send_started_at r;
  ss_generation : post_send_generation r' = post_send_generation r;
  ss_message : post_telegram_message_id r' = post_telegram_message_id r;
}.

(** Moving between idle states without touching the send columns. *)
Lemma post_check_idle r r' :
  post_check r = true → post_state r ≠ PostState.Sending →
  post_state r' ≠ PostState.Sending → post_state r' ≠ PostState.Published →
  same_send r r' → post_revision r' = post_revision r + 1 → post_check r' = true.
Proof.
  intros Hc H1 H2 H3 [Ht Hs Hg Hm] Hr. unfold post_check in *. rewrite Ht, Hs, Hg, Hm, Hr.
  bool_norm. rewrite !andb_true_iff, !Z.leb_le.
  split_and!; try lia; try done; destruct (post_state r), (post_state r'); bool_norm; try done;
    by rewrite ?andb_true_iff.
Qed.

(** Leaving [sending], or failing a queued post: the send columns end empty. *)
Lemma post_check_cleared r r' :
  post_check r = true → post_state r' ≠ PostState.Sending →
  (post_state r' = PostState.Published →
     is_some (post_telegram_message_id r') ∧ is_some (post_published_at r')) →
  post_send_token r' = None → post_send_started_at r' = None →
  post_send_generation r' = post_send_generation r →
  match post_telegram_message_id r' with Some m => 0 <? m | None => true end = true →
  post_revision r' = post_revision r + 1 → post_check r' = true.
Proof.
  intros Hc Hs Hp Ht Hst Hg Hm Hr. unfold post_check in *. rewrite Ht, Hst, Hg, Hr, Hm.
  bool_norm. rewrite !andb_true_iff, !Z.leb_le. split_and!; try lia; try done;
    destruct (post_state r'); try done.
  destruct Hp as [? ?]; [done|]. apply andb_true_iff. split; by apply Is_true_eq_true.
Qed.

Lemma queue_mutable_idle s : PostState.is_queue_mutable s = true → s ≠ PostState.Sending.
Proof. by destruct s. Qed.
Lemma queued_mutable s : s = PostState.Queued → PostState.is_queue_mutable s = true.
Proof. by intros ->. Qed.

(** The three changes open to an idle post. *)
Lemma change_idle db id r r' :
  db_wf db → db_posts db !! id = Some r → PostState.is_queue_mutable (post_state r) = true →
  same_identity r r' → same_send r r' → post_revision r' = post_revision r + 1 →
  post_revision r' ≤ i64_max →
  (post_state r' = post_state r ∧ post_cadence_slot_at r' = post_cadence_slot_at r)
  ∨ (post_state r' = PostState.Queued ∧ ∀ s, post_cadence_slot_at r' = Some s →
       s ∉ occupied_slots db (post_channel_id r) id)
  ∨ (post_state r' = PostState.Cancelled ∧ post_cadence_slot_at r' = None) →
  effect w db (set_post r' db).
Proof.
  intros Hwf Hr Hm Hid Hsend Hrev Hb Hcase. pose proof (lookup_post_id _ _ _ Hwf Hr) as <-.
  pose proof (wf_post_check _ Hwf _ _ Hr) as Hc. pose proof (queue_mutable_idle _ Hm).
  eapply effect_change; [done..|]. constructor; try done.
  - eapply post_check_idle; try done; intros Hs;
      destruct Hcase as [[He _]|[[He _]|[He _]]]; rewrite He in Hs;
      by destruct (post_state r).
  - destruct Hsend. destruct Hcase as [[? ?]|[[? ?]|[? ?]]];
      [by apply move_edit|by apply move_queue|by apply move_cancel].
Qed.

Lemma channel_of_post db r ch :
  db_wf db → db_channels db !! post_channel_id r = Some ch → channel_id ch = post_channel_id r.
Proof. intros Hwf. apply (wf_channel_key _ Hwf). Qed.

(** A post change followed by the write of its job. *)
Lemma effect_then_place db r' fj id was t rev ck u db' :
  effect w db (set_post r' db) →
  place_publish_job fj id was t rev ck (set_post r' db) = Ok (u, db') → effect w db db'.
Proof.
  intros He Hp. apply place_publish_job_ok in Hp as (j & Hj & _); [|apply He].
  by eapply effect_job.
Qed.
Lemma effect_then_insert db r' fj id t rev ck u db' :
  effect w db (set_post r' db) →
  insert_publish_job fj id t rev ck (set_post r' db) = Ok (u, db') → effect w db db'.
Proof.
  intros He Hp. apply insert_publish_job_ok in Hp as (j & Hj & _); [|apply He].
  by eapply effect_job.
Qed.

(** Close the side conditions of [change_idle] on a row the code rebuilt. *)
Ltac idle_change :=
  eapply change_idle; eauto; try (constructor; done); simpl; try lia.
Lemma schedule_post_effect fj s ck db r db' :
  schedule_post fj s ck db = Ok (r, db') → db_wf db → effect w db db'.
Proof.
  unfold schedule_post. intros H Hwf. pub_inv; [by apply effect_refl|].
  pose proof (lookup_post_id _ _ _ Hwf ltac:(eassumption)) as Hid.
  where_inv. eapply effect_then_place; [|eassumption].
  rewrite Hid in *. simplify_eq. idle_change. right; left. split; [done|].
  intros ? [= <-]. by erewrite <-channel_of_post.
Qed.

Lemma schedule_post_exact_effect fj s ck db r db' :
  schedule_post_exact fj s ck db = Ok (r, db') → db_wf db → effect w db db'.
Proof.
  unfold schedule_post_exact, apply_exact_schedule. intros H Hwf.
  pub_inv; [by apply effect_refl|].
  pose proof (lookup_post_id _ _ _ Hwf ltac:(eassumption)) as Hid.
  where_inv. eapply effect_then_place; [|eassumption].
  rewrite Hid in *. simplify_eq. idle_change. right; left. done.
Qed.

Lemma publish_now_effect fj id k e ck db r db' :
  publish_now fj id k e ck db = Ok (r, db') → db_wf db → effect w db db'.
Proof.
  unfold publish_now. intros H Hwf. pub_inv; [by apply effect_refl|].
  where_inv. eapply effect_then_place; [|eassumption].
  idle_change. right; left. done.
Qed.

Lemma cancel_post_effect id e ck db r db' :
  cancel_post id e ck db = Ok (r, db') → db_wf db → effect w db db'.
Proof.
  unfold cancel_post. intros H Hwf. pub_inv.
  - where_inv. idle_change.
  - match goal with H : cancel_publish_job _ _ _ = _ |- _ =>
      apply cancel_publish_job_ok in H as [?|(j & [? ?] & _)]; [| |done] end; where_inv.
    + idle_change.
    + eapply (effect_posts_eq _ (set_job j db)); [done|]. idle_change.
Qed.

Lemma update_post_effect fj id u ck db r db' :
  update_post fj id u ck db = Ok (r, db') → db_wf db → effect w db db'.
Proof.
  unfold update_post. intros H Hwf. pub_inv.
  match goal with H : _ ck (set_post ?r db) = _ |- _ =>
    assert (effect w db (set_post r db)) as He by (idle_change; by left) end.
  destruct He as [He Hwf'].
  destruct (post_state _) eqn:Hs; try done; pub_inv; [by split|..].
  - match goal with H : update_publish_job _ _ _ _ _ _ = _ |- _ =>
      apply update_publish_job_ok in H as (j & Hj & _); [|done] end.
    by eapply effect_job.
  - match goal with H : update_failed_publish_job _ _ _ _ _ _ = _ |- _ =>
      apply update_failed_publish_job_ok in H as (j & Hj & _); [|done] end.
    by eapply effect_job.
Qed.

Lemma decided_queued_effect fj id k h t slot rev e ck db r r0 db' :
  decided_queued fj id k h t slot rev e ck db = Ok (r, db') → db_wf db →
  db_posts db !! id = Some r0 → rev = post_revision r0 + 1 → rev ≤ i64_max →
  (∀ s, slot = Some s → s ∉ occupied_slots db (post_channel_id r0) id) → effect w db db'.
Proof.
  unfold decided_queued, draft_at. intros H Hwf Hr -> Hb Hslot. pub_inv.
  eapply effect_then_insert; [|eassumption]. idle_change.
  by match goal with H : post_state _ = _ |- _ => rewrite H end.
Qed.

Lemma decide_post_effect fj id d k e ck db r db' :
  decide_post fj id d k e ck db = Ok (r, db') → db_wf db → effect w db db'.
Proof.
  unfold decide_post. intros H Hwf. pub_inv; [by apply effect_refl|]. destruct d; pub_inv.
  - by eapply decided_queued_effect.
  - eapply decided_queued_effect; eauto. intros ? [= <-]. by erewrite <-channel_of_post.
  - by eapply decided_queued_effect.
  - unfold draft_at in *. pub_inv. idle_change.
    by match goal with H : post_state _ = _ |- _ => rewrite H end.
Qed.

(** Creation. *)
Lemma fresh_keys_checked db r k :
  post_request_key r = Some k → is_some (find_row (has_request_key k) (db_posts db)) = false →
  match post_origin_ingest_id r with
  | Some o => is_some (find_row (has_origin o) (db_posts db))
  | None => false
  end = false → fresh_keys db r.
Proof.
  intros Hk Hf Ho j x Hx. split; intros y Hy He; rewrite Hy in *; simplify_eq.
  - destruct (find_row _ _) eqn:Hn; [done|]. eapply find_row_None in Hn; [|done].
    unfold has_request_key in Hn. by bool_norm.
  - destruct (find_row (has_origin y) _) eqn:Hn; [done|]. eapply find_row_None in Hn; [|done].
    unfold has_origin in Hn. by bool_norm.
Qed.

Lemma create_post_idempotent_effect f p k h ck db res db' :
  create_post_idempotent f p k h ck db = Ok (res, db') → db_wf db → effect w db db'.
Proof.
  unfold create_post_idempotent. intros H Hwf. pub_inv.
  destruct (find_row _ _) eqn:Hf; pub_inv; [by apply effect_refl|].
  destruct (db_posts db !! f) eqn:Hn; [done|].
  apply (effect_new db (inserted_post f _ h (np_media_id p) (np_channel_id p) PostState.Draft
    (np_caption p) (np_parse_mode p) (np_disable_notification p) (sql_now ck) (sql_now ck)));
    [done..| |].
  - by constructor; simpl; auto.
  - eapply fresh_keys_checked; [done| |done]. by rewrite Hf.
Qed.

Lemma evaluation_time_ok ch i p now ck db t db' :
  evaluation_time ch i p now ck db = Ok (t, db') →
  db' = db ∧ (pi_action i = PublicationAction.Queue → pi_requested_publish_at i = None →
              t ∉ occupied_slots db (channel_id ch) p).
Proof.
  unfold evaluation_time. destruct (pi_action i), (pi_requested_publish_at i); intros; by pub_inv.
Qed.

Lemma intended_post_new occ f k h o m ch i t ev now :
  (pi_action i = PublicationAction.Queue → pi_requested_publish_at i = None → t ∉ occ) →
  new_post occ (intended_post f k h o m ch i t ev now).
Proof.
  intros Hslot. constructor; simpl; try done.
  { destruct (is_some ev); auto. }
  { unfold post_check; simpl. by destruct (is_some ev). }
  intros s Hs. destruct (is_some ev); [done|]. simpl in Hs. destruct (pi_requested_publish_at i); [by destruct (bool_decide _)|].
  destruct (bool_decide _) eqn:Hd; simplify_eq/=. bool_norm. auto.
Qed.

Lemma insert_intended_post_effect fp fj k h o m ch i ck db r db' :
  insert_intended_post fp fj k h o m ch i ck db = Ok (r, db') → db_wf db → effect w db db'.
Proof.
  unfold insert_intended_post. intros H Hwf. pub_inv;
  match goal with H : evaluation_time _ _ _ _ _ _ = _ |- _ =>
    apply evaluation_time_ok in H as [-> Hslot] end;
  assert (db_posts db !! fp = None) as Hn by (by destruct (db_posts db !! fp)).
  - apply effect_new; [done..|by apply intended_post_new|by eapply fresh_keys_checked].
  - eapply effect_then_insert; [|eassumption].
    apply effect_new; [done..|by apply intended_post_new|by eapply fresh_keys_checked].
Qed.

Lemma create_publication_intent_effect fp fj m i k ck db res db' :
  create_publication_intent fp fj m i k ck db = Ok (res, db') → db_wf db → effect w db db'.
Proof.
  unfold create_publication_intent. intros H Hwf. pub_inv.
  destruct (find_row _ _) eqn:Hf; pub_inv; [by apply effect_refl|].
  by eapply insert_intended_post_effect.
Qed.

Lemma materialize_ingest_effect fp fj id ck db res db' :
  materialize_ingest fp fj id ck db = Ok (res, db') → db_wf db → effect w db db'.
Proof.
  unfold materialize_ingest. intros H Hwf. pub_inv; [by apply effect_refl|].
  destruct (find_row _ _) eqn:Hf; pub_inv; [by apply effect_refl|].
  by eapply insert_intended_post_effect.
Qed.

(** Leaving [queued] or [sending] for a state without send columns. *)
Lemma change_leave db id r r' :
  db_wf db → db_posts db !! id = Some r → same_identity r r' →
  post_revision r' = post_revision r + 1 → post_revision r' ≤ i64_max →
  post_send_token r' = None → post_send_started_at r' = None →
  post_send_generation r' = post_send_generation r →
  post_cadence_slot_at r' = post_cadence_slot_at r →
  post_move w (occupied_slots db (post_channel_id r) id) r r' →
  post_state r' ≠ PostState.Sending →
  (post_state r' = PostState.Published →
     is_some (post_telegram_message_id r') ∧ is_some (post_published_at r')) →
  match post_telegram_message_id r' with Some m => 0 <? m | None => true end = true →
  effect w db (set_post r' db).
Proof.
  intros Hwf Hr Hid Hrev Hb Ht Hst Hg Hslot Hs Hne Hp Hm.
  pose proof (lookup_post_id _ _ _ Hwf Hr) as <-.
  pose proof (wf_post_check _ Hwf _ _ Hr) as Hc.
  eapply effect_change; [done..|]. constructor; try done.
  eapply post_check_cleared; try done.
Qed.

Lemma post_message_positive db id r :
  db_wf db → db_posts db !! id = Some r →
  match post_telegram_message_id r with Some m => 0 <? m | None => true end = true.
Proof.
  intros Hwf Hr. pose proof (wf_post_check _ Hwf _ _ Hr) as Hc. unfold post_check in Hc.
  by bool_norm.
Qed.

Lemma holds_send_ok l r : holds_send l r = true ↔
  post_state r = PostState.Sending ∧ post_send_generation r = pl_generation l
  ∧ post_send_token r = Some (pl_token l).
Proof.
  unfold holds_send. rewrite !andb_true_iff, !bool_decide_eq_true, Z.eqb_eq. naive_solver.
Qed.

Lemma is_sending_ok r : is_sending r = true → post_state r = PostState.Sending.
Proof. apply bool_decide_eq_true. Qed.

End Refine.

Ltac leave_change :=
  eapply change_leave; eauto; try (constructor; done); simpl; try lia; try done;
  try (by eapply post_message_positive).

(** ** Settlement *)

Section Settle.
Context {J : Json} {P : PayloadSerde} {T : TimeZones} {D : Digests} {w : mover}.
Implicit Types (db : Db) (r : PostRow) (ck : Clock).

Lemma reconcile_interrupted_publish_effect id l ck db b db' :
  reconcile_interrupted_publish id l ck db = Ok (b, db') → db_wf db → effect w db db'.
Proof.
  unfold reconcile_interrupted_publish. intros H Hwf. pub_inv.
  where_inv; [by apply effect_refl|]. pub_inv.
  match goal with H : is_sending _ = true |- _ => apply is_sending_ok in H end.
  leave_change.
Qed.

Lemma lock_publication_post_ok id ck db o db' :
  lock_publication_post id ck db = Ok (o, db') → db' = db ∧ o = db_posts db !! id.
Proof.
  unfold lock_publication_post. intros. pub_inv.
  destruct (db_posts db !! id) eqn:Hr; pub_inv; auto.
Qed.

Lemma settle_terminal_publication_post_effect id r e c m ck db u db' :
  settle_terminal_publication_post id r e c m ck db = Ok (u, db') → db_wf db → effect w db db'.
Proof.
  unfold settle_terminal_publication_post. intros H Hwf. pub_inv.
  destruct (post_state r); pub_inv; try (by apply effect_refl).
  - where_inv; [by apply effect_refl|]. pub_inv. leave_change.
  - where_inv; [by apply effect_refl|]. pub_inv.
    match goal with H : is_sending _ = true |- _ => apply is_sending_ok in H end.
    leave_change.
Qed.

Lemma settle_terminal_publication_post_jobs id r e c m ck db u db' :
  settle_terminal_publication_post id r e c m ck db = Ok (u, db') → db_jobs db' = db_jobs db.
Proof.
  unfold settle_terminal_publication_post. intros H. pub_inv.
  destruct (post_state r); pub_inv; try done; by where_inv.
Qed.

(** The queue row follows in the same transaction. *)
Lemma update_locked_job_effect db db1 id u ck row db' :
  effect w db db1 → update_locked_job id u ck db1 = Ok (row, db') →
  qu_state u ≠ JobStatus.Running →
  (qu_state u = JobStatus.Queued → qu_terminal u = false) → effect w db db'.
Proof.
  intros He Hu H1 H2. apply update_locked_job_ok in Hu as (j & Hj & Hs & -> & ->).
  pose proof (wf_job_key _ (proj2 He) _ _ Hj) as <-. eapply effect_job; [done|].
  split; [done|]. eapply wf_update_job; eauto; [apply He|].
  apply settled_job_inv; auto. by eapply (wf_job_inv _ (proj2 He)).
Qed.

Lemma settle_publish_effect l c s ck db row db' :
  settle_publish_txn l c s ck db = Ok (row, db') → db_wf db → effect w db db'.
Proof.
  unfold settle_publish_txn. intros H Hwf. pub_inv.
  match goal with H : lock_publication_post _ _ _ = _ |- _ =>
    apply lock_publication_post_ok in H as [-> ?] end.
  match goal with H : lock_running_job _ _ _ _ = _ |- _ =>
    apply lock_running_job_ok in H as (-> & _) end.
  eapply update_locked_job_effect;
    [|eassumption|apply queue_parameters_not_running|apply queue_parameters_terminal].
  case_match; pub_inv; eauto using effect_refl, settle_terminal_publication_post_effect.
Qed.

Lemma recover_publish_job_effect id c ck db b db' :
  recover_publish_job id c ck db = Ok (b, db') → db_wf db → effect w db db'.
Proof.
  unfold recover_publish_job. intros H Hwf. pub_inv.
  match goal with H : lock_publication_post _ _ _ = _ |- _ =>
    apply lock_publication_post_ok in H as [-> ?] end.
  match goal with H : lock_expired_job _ _ _ = _ |- _ =>
    apply lock_expired_job_ok in H as [-> _] end.
  match goal with H : match ?o with Some _ => _ | None => _ end _ _ = _ |- _ =>
    destruct o end; pub_inv; [|by apply effect_refl].
  eapply update_locked_job_effect;
    [|eassumption|apply recovery_update_not_running|apply recovery_update_terminal].
  case_match; pub_inv; eauto using effect_refl, settle_terminal_publication_post_effect.
Qed.
End Settle.

(** ** The sender's transactions *)

Section Sending.
Context {J : Json} {P : PayloadSerde} {T : TimeZones} {D : Digests}.
Implicit Types (db : Db) (r : PostRow) (ck : Clock).

Lemma claim_publish_effect tok id e l ck db res db' :
  claim_publish tok id e l ck db = Ok (res, db') → db_wf db →
  effect Sender db db' ∧ ∃ r, db_posts db !! id = Some r ∧ post_state r = PostState.Queued
    ∧ post_revision r = e ∧ db' = set_post (pc_post res) db
    ∧ sending_post tok (e + 1) (sql_now ck) r = Ok (pc_post res)
    ∧ ∃ j, db_jobs db !! jl_job_id l = Some j ∧ publish_attempt id l (sql_clock ck) j.
Proof.
  unfold claim_publish. intros H Hwf. pub_inv. split; [|eexists; split_and!; eauto].
  pose proof (wf_post_check _ Hwf _ _ ltac:(eassumption)) as Hc.
  pose proof (lookup_post_id _ _ _ Hwf ltac:(eassumption)) as <-.
  unfold sending_post in *. case_match; simplify_eq. bool_norm.
  eapply effect_change; [done..|]. constructor; simpl; try done.
  - unfold post_check in *. simpl. bool_norm. rewrite !andb_true_iff, !Z.leb_le.
    split_and!; try done; lia.
  - by apply move_claim.
Qed.

Lemma complete_publish_effect id l m ck db res db' :
  complete_publish id l m ck db = Ok (res, db') → db_wf db → effect Sender db db'.
Proof.
  unfold complete_publish. intros H Hwf. pub_inv; [by apply effect_refl|].
  match goal with H : holds_send _ _ = true |- _ => apply holds_send_ok in H as (? & ? & ?) end.
  leave_change. apply move_leave; [done..|set_solver|done|done].
Qed.

Lemma fail_publish_effect id l st c m ck db r db' :
  fail_publish id l st c m ck db = Ok (r, db') → db_wf db → effect Sender db db'.
Proof.
  unfold fail_publish. intros H Hwf. pub_inv. where_inv. pub_inv.
  match goal with H : holds_send _ _ = true |- _ => apply holds_send_ok in H as (? & ? & ?) end.
  match goal with H : _ || _ = true |- _ =>
    rewrite orb_true_iff, !bool_decide_eq_true in H end.
  leave_change; [apply move_leave; [done..|set_solver|done|done]|naive_solver..].
Qed.

Lemma retry_publish_effect id l c m ck db res db' :
  retry_publish id l c m ck db = Ok (res, db') → db_wf db → effect Sender db db'.
Proof.
  unfold retry_publish. intros H Hwf. pub_inv;
  match goal with H : holds_send _ _ = true |- _ => apply holds_send_ok in H as (? & ? & ?) end.
  - leave_change. apply move_leave; [done..|set_solver|done|done].
  - match goal with H : update_running_payload _ _ _ _ (set_post ?r _) = _ |- _ =>
      assert (effect Sender db (set_post r db)) as He by
        (leave_change; apply move_leave; [done..|set_solver|done|done]);
      apply update_running_payload_ok in H as (j & _ & _ & Hj); [|apply He] end.
    by eapply effect_job.
Qed.

End Sending.

(** ** Histories

    One step is one committed transaction of the publisher, or a transaction of
    another repository, which leaves the posts alone. *)

Section History.
Context {J : Json} {P : PayloadSerde} {T : TimeZones} {D : Digests}.
Implicit Types (db : Db) (r : PostRow) (ck : Clock).

(** Transactions of anybody but the sender. *)
Inductive request_step (db db' : Db) : Prop :=
| SOther : db_posts db' = db_posts db → db_wf db' → request_step db db'
| SCreate ck f p k h res :
    create_post_idempotent f p k h ck db = Ok (res, db') → request_step db db'
| SIntent ck fp fj m i k res :
    create_publication_intent fp fj m i k ck db = Ok (res, db') → request_step db db'
| SMaterialize ck fp fj i res :
    materialize_ingest fp fj i ck db = Ok (res, db') → request_step db db'
| SUpdate ck fj i u r : update_post fj i u ck db = Ok (r, db') → request_step db db'
| SSchedule ck fj s r : schedule_post fj s ck db = Ok (r, db') → request_step db db'
| SExact ck fj s r : schedule_post_exact fj s ck db = Ok (r, db') → request_step db db'
| SDecide ck fj i d k e r : decide_post fj i d k e ck db = Ok (r, db') → request_step db db'
| SPublishNow ck fj i k e r : publish_now fj i k e ck db = Ok (r, db') → request_step db db'
| SCancel ck i e r : cancel_post i e ck db = Ok (r, db') → request_step db db'
| SReconcile ck i l b :
    reconcile_interrupted_publish i l ck db = Ok (b, db') → request_step db db'
| SSettle ck l c s row : settle_publish_txn l c s ck db = Ok (row, db') → request_step db db'
| SRecover ck i c b : recover_publish_job i c ck db = Ok (b, db') → request_step db db'.

Inductive pub_step (db db' : Db) : Prop :=
| SRequest : request_step db db' → pub_step db db'
| SClaim ck tok i e l res : claim_publish tok i e l ck db = Ok (res, db') → pub_step db db'
| SComplete ck i l m res : complete_publish i l m ck db = Ok (res, db') → pub_step db db'
| SFail ck i l st c m r : fail_publish i l st c m ck db = Ok (r, db') → pub_step db db'
| SRetry ck i l c m res : retry_publish i l c m ck db = Ok (res, db') → pub_step db db'.

Lemma request_step_effect w db db' : request_step db db' → db_wf db → effect w db db'.
Proof.
  intros [] Hwf; [by split; [apply eff_none|]|..];
    eauto using create_post_idempotent_effect, create_publication_intent_effect,
      materialize_ingest_effect, update_post_effect, schedule_post_effect,
      schedule_post_exact_effect, decide_post_effect, publish_now_effect, cancel_post_effect,
      reconcile_interrupted_publish_effect, settle_publish_effect, recover_publish_job_effect.
Qed.

Lemma pub_step_effect db db' : pub_step db db' → db_wf db → effect Sender db db'.
Proof.
  intros [] Hwf; eauto using request_step_effect, complete_publish_effect, fail_publish_effect,
    retry_publish_effect.
  by eapply claim_publish_effect.
Qed.

(** One step seen from one post. *)
Lemma effect_lookup w db db' i r :
  posts_effect w db db' → db_posts db !! i = Some r → db_wf db →
  ∃ r', db_posts db' !! i = Some r'
    ∧ (r' = r ∨ post_change w (occupied_slots db (post_channel_id r) i) r r').
Proof.
  intros [->|x x' Hx -> Hc|x Hx -> _ _] Hr Hwf; [by eauto|..].
  - pose proof (lookup_post_id _ _ _ Hwf Hr) as Hi.
    destruct (decide (post_id x = i)) as [<-|Hne].
    + rewrite lookup_insert_eq. simplify_eq. eauto.
    + rewrite lookup_insert_ne by done. eauto.
  - exists r. rewrite lookup_insert_ne by congruence. auto.
Qed.

(** Induction over histories for a property of one post. *)
Lemma history_post_ind (I : PostRow → Prop) i :
  (∀ occ r r', I r → post_change Sender occ r r' → I r') →
  ∀ db db', rtc pub_step db db' → db_wf db → ∀ r, db_posts db !! i = Some r → I r →
    db_wf db' ∧ ∃ r', db_posts db' !! i = Some r' ∧ I r'.
Proof.
  intros HI db db' Hs. induction Hs as [db|db db1 db' Hstep _ IH]; intros Hwf r Hr Hi; [eauto|].
  destruct (pub_step_effect _ _ Hstep Hwf) as [He Hwf1].
  destruct (effect_lookup _ _ _ _ _ He Hr Hwf) as (r1 & Hr1 & [->|Hc]); eauto.
Qed.
End History.
