(* ===== verification/Execute.v ===== *)
(** * Execute: running ffmpeg and publishing what it wrote

    [media/src/publication.rs], [media/src/execute.rs] and the video part of
    [apps/worker/src/normalization.rs], as programs over the calls they make to the file
    system and to the external tools.

    A value with a destructor ([TempArtifact], [VideoCandidateCleanup],
    [VideoPasslogCleanup]) removes its files when it is dropped, also when the handler is
    cancelled.  [Arm] and [Disarm] record the paths for which such a value is alive, and
    [DropGuards] is the end of the scope that owns them.  A reservation awaits the creation
    of its path and makes the guard when that has answered: a handler that is cancelled
    while the creation is in flight has no guard for the path.
    The probe of a file, with its own commands and its JSON, is one call.
    Durations are in microseconds. *)

From S2P Require Import Prelude Text Jobs Proc Preview Normalize.

(** ** Errors *)

Inductive io_error := IoNotFound | IoAlreadyExists | IoInvalidInput (text : Str) | IoOther (text : Str).

Inductive HashError := HashIo (path : Str) (source : io_error).

Inductive CommandError :=
| Spawn (program : Str) (source : io_error)
| Pipe (program stream : Str)
| ReadStream (program stream : Str) (source : io_error)
| TimedOut (program : Str) (timeout : Z)
| Wait (program : Str) (source : io_error)
| CommandOutputLimitExceeded (program : Str) (limit : Z)
| OutputMonitor (program directory : Str) (source : io_error).
Definition is_timeout (e : CommandError) : bool :=
  match e with TimedOut _ _ => true | _ => false end.
Definition is_output_limit_exceeded (e : CommandError) : bool :=
  match e with CommandOutputLimitExceeded _ _ => true | _ => false end.

Inductive ProbeError :=
| InputFile (path : Str) (source : io_error)
| InputNotFile (path : Str)
| ProbeCommand (e : CommandError)
| ProbeOutputLimitExceeded (limit : Z)
| ProbeProcessFailed (exit_code : option Z) (stderr : Str)
| InvalidJson (message : Str)
| InvalidField (field message : Str).
Definition probe_error_class (e : ProbeError) : Str :=
  match e with
  | InputFile _ _ | InputNotFile _ => lit "probe_input"
  | ProbeCommand e => if is_timeout e then lit "probe_timeout" else lit "probe_command"
  | ProbeOutputLimitExceeded _ => lit "probe_output_limit"
  | ProbeProcessFailed _ _ => lit "probe_process"
  | InvalidJson _ | InvalidField _ _ => lit "probe_invalid_output"
  end.
Definition probe_error_is_retryable (e : ProbeError) : bool :=
  match e with ProbeCommand e => is_timeout e | _ => false end.

Inductive PublishError :=
| PublishInvalidWorkspace
| NotRegular (path : Str)
| DestinationConflict (path : Str)
| PublishIo (path : Str) (source : io_error)
| PublishHash (e : HashError).
Inductive PublishOutcome := Published | Reused.
Inductive ArtifactPublicationError := ArtifactConflict | ArtifactFailed (e : PublishError).

Inductive ProgressError :=
| InvalidUtf8
| LineTooLong (limit : Z)
| TooManyLines (limit : Z)
| InvalidLine (line : Str)
| InvalidProgressValue (field value : Str)
| MissingState.

Inductive NormalizationExecutionError :=
| ExecCommand (e : CommandError)
| ExecCancelled
| OutputLimitExceeded (limit : Z)
| ProcessFailed (exit_code : option Z) (stderr : list Z)
| ExecProgress (e : ProgressError)
| ProgressDidNotEnd
| OutputFile (path : Str) (source : io_error)
| TemporaryOutput (path : Str) (source : io_error)
| OutputPublish (path : Str) (e : PublishError + ArtifactPublicationError)
| InvalidOutput (path : Str)
| InvalidOutputFormat (format : option Str)
| OutputHasNoVideo
| InvalidOutputProfile (message : Str)
| OutputExceedsStorageLimit (bytes limit : Z)
| ExecProbe (e : ProbeError)
| ExecHash (e : HashError).

(** ** Progress reports *)

Definition MAX_PROGRESS_LINE_BYTES : Z := 4096.
Definition MAX_PROGRESS_LINES : Z := 4096.

Inductive FfmpegProgressState := Continue | End.
#[global] Instance progress_state_eq_dec : EqDecision FfmpegProgressState.
Proof. solve_decision. Defined.
Record FfmpegProgress := {
  pg_frame : option Z;
  pg_out_time_ms : option Z;
  pg_state : FfmpegProgressState;
}.

Definition parse_optional (parse : Str → option Z) (value field : Str)
    : result ProgressError (option Z) :=
  if decide (value = lit "N/A") then Ok None
  else match parse value with
       | Some n => Ok (Some n)
       | None => Err (InvalidProgressValue field value)
       end.

(** The fields read so far. *)
Record progress_fields := {
  pf_frame : option Z;
  pf_time : option Z;
  pf_state : option FfmpegProgressState;
}.
#[global] Instance eta_progress : Eta progress_fields := fun p =>
  Build_progress_fields (pf_frame p) (pf_time p) (pf_state p).

Definition progress_line (p : progress_fields) (line : Str) : result ProgressError progress_fields :=
  match split_once 61 line with
  | None => Err (InvalidLine line)
  | Some (key, value) =>
      if decide (key = lit "frame")
      then x ← parse_optional parse_u64 value (lit "frame"); Ok (p <| pf_frame := x |>)
      else if decide (key = lit "out_time_ms")
      then x ← parse_optional parse_i64 value (lit "out_time_ms"); Ok (p <| pf_time := x |>)
      else if decide (key = lit "progress")
      then if decide (value = lit "continue") then Ok (p <| pf_state := Some Continue |>)
           else if decide (value = lit "end") then Ok (p <| pf_state := Some End |>)
           else Err (InvalidProgressValue (lit "progress") value)
      else Ok p
  end.

Fixpoint progress_lines (ls : list Str) (count : Z) (p : progress_fields)
    : result ProgressError progress_fields :=
  match ls with
  | [] => Ok p
  | line :: ls =>
      let count := count + 1 in
      if MAX_PROGRESS_LINES <? count then Err (TooManyLines MAX_PROGRESS_LINES)
      else if MAX_PROGRESS_LINE_BYTES <? Z.of_nat (length (utf8 line))
      then Err (LineTooLong MAX_PROGRESS_LINE_BYTES)
      else
        let line := trim line in
        if is_empty line then progress_lines ls count p
        else p ← progress_line p line; progress_lines ls count p
  end.

Definition parse_ffmpeg_progress (output : list Z) : result ProgressError FfmpegProgress :=
  match from_utf8 output with
  | None => Err InvalidUtf8
  | Some text =>
      p ← progress_lines (lines text) 0 {| pf_frame := None; pf_time := None; pf_state := None |};
      match pf_state p with
      | Some state => Ok {| pg_frame := pf_frame p; pg_out_time_ms := pf_time p; pg_state := state |}
      | None => Err MissingState
      end
  end.

(** ** Calls *)

Record ExternalCommandOutput := {
  eo_success : bool;
  eo_exit_code : option Z;
  eo_stdout : list Z;
  eo_stderr : list Z;
  eo_stdout_truncated : bool;
  eo_stderr_truncated : bool;
}.
Record FileType := { ft_is_file : bool; ft_is_dir : bool; ft_is_symlink : bool; ft_len : Z }.

Inductive file_call :=
| NewUuid
| SymlinkMetadata (path : Str)
| Metadata (path : Str)
| CreateNew (path : Str)                (* [OpenOptions::create_new] *)
| CreateDir (path : Str)
| HardLink (source destination : Str)
| RemoveFile (path : Str)
| RemoveDirAll (path : Str)
| PathExists (path : Str)
| Sha256File (path : Str)
| RunCommand (c : ExternalCommand)
| ProbeFile (path : Str)
| Arm (path : Str)
| Disarm (path : Str)
| DropGuards.

#[global] Instance file_interface : Interface :=
  {| call := file_call;
     answer c := match c with
       | NewUuid => Uuid
       | SymlinkMetadata _ | Metadata _ => result io_error FileType
       | CreateNew _ | CreateDir _ | HardLink _ _ | RemoveFile _ | RemoveDirAll _ => result io_error unit
       | PathExists _ => bool
       | Sha256File _ => result HashError FileDigest
       | RunCommand _ => result CommandError ExternalCommandOutput
       | ProbeFile _ => result ProbeError MediaProbe
       | Arm _ | Disarm _ | DropGuards => unit
       end |}.

Abbreviation files E A := (proc (result E A)).
Abbreviation exec A := (files NormalizationExecutionError A).

(** ** Publication *)

Definition real_directory (t : FileType) : bool := negb (ft_is_symlink t) && ft_is_dir t.

Definition reserve_artifact (path : Str) : files io_error unit :=
  match path_parent path with
  | None => Done (Err (IoInvalidInput (lit "temporary artifact path has no parent directory")))
  | Some parent =>
      t ←? ask (SymlinkMetadata parent);
      _ ←? check (real_directory t)
             (IoInvalidInput (lit "temporary artifact parent is not a real directory"));
      _ ←? ask (CreateNew path);
      _ ← ask (Arm path);
      Done (Ok tt)
  end.

(** [TempArtifact::remove], then the destructor when it is still armed. *)
Definition remove_artifact (path : Str) : proc unit :=
  r ← ask (RemoveFile path);
  match r with
  | Ok _ => ask (Disarm path)
  | Err _ => _ ← ask (RemoveFile path); ask (Disarm path)
  end.
Definition drop_artifact (path : Str) : proc unit :=
  _ ← ask (RemoveFile path); ask (Disarm path).

Definition require_regular (path : Str) : files PublishError unit :=
  t ←? mapped (PublishIo path) (ask (SymlinkMetadata path));
  check (negb (ft_is_symlink t) && ft_is_file t) (NotRegular path).

Definition same_digest (a b : FileDigest) : bool :=
  (fd_bytes a =? fd_bytes b) && bool_decide (fd_sha256 a = fd_sha256 b).

Definition compare_or_conflict (temporary destination : Str) : files PublishError PublishOutcome :=
  _ ←? require_regular destination;
  a ←? mapped PublishHash (ask (Sha256File temporary));
  b ←? mapped PublishHash (ask (Sha256File destination));
  Done (if same_digest a b then Ok Reused else Err (DestinationConflict destination)).

Definition publish_or_reuse (temporary destination : Str) : files PublishError PublishOutcome :=
  match path_parent temporary, path_parent destination with
  | Some tp, Some dp =>
      t ←? mapped (PublishIo tp) (ask (SymlinkMetadata tp));
      d ←? mapped (PublishIo dp) (ask (SymlinkMetadata dp));
      _ ←? check (real_directory t && real_directory d) PublishInvalidWorkspace;
      _ ←? require_regular temporary;
      r ← ask (HardLink temporary destination);
      match r with
      | Ok _ => Done (Ok Published)
      | Err IoAlreadyExists => compare_or_conflict temporary destination
      | Err source => Done (Err (PublishIo destination source))
      end
  | _, _ => Done (Err PublishInvalidWorkspace)
  end.

Definition publish_artifact (temporary destination : Str) : files ArtifactPublicationError unit :=
  r ← publish_or_reuse temporary destination;
  Done (match r with
        | Ok _ => Ok tt
        | Err (DestinationConflict _) => Err ArtifactConflict
        | Err e => Err (ArtifactFailed e)
        end).

(** ** The executor *)

Record NormalizationResult := {
  nr_output_path : Str;
  nr_progress : FfmpegProgress;
  nr_probe : MediaProbe;
  nr_digest : FileDigest;
}.
#[global] Instance eta_result : Eta NormalizationResult := fun r =>
  Build_NormalizationResult (nr_output_path r) (nr_progress r) (nr_probe r) (nr_digest r).

Record FfmpegExecutor := { ex_timeout : Z; ex_max_output_bytes : Z }.

Section Executor.
Context {J : Json}.

Definition temporary_output_path (output : Str) (u : Uuid) : Str :=
  with_file_name output
    (lit ".sooqa-normalize-" ++ uuid_to_string u ++ lit "." ++ default (lit "tmp") (extension output)).

Definition validate_output_probe (probe : MediaProbe) (p : CanonicalVideoProfile)
    : result NormalizationExecutionError unit :=
  let is_mp4 := match mp_container_format probe with
                | Some value => existsb (λ format, eq_ignore_ascii_case (trim format) (lit "mp4"))
                                  (split_at_char 44 value [])
                | None => false
                end in
  if negb is_mp4 then Err (InvalidOutputFormat (mp_container_format probe))
  else
    match find_stream StreamVideo probe with
    | None => Err OutputHasNoVideo
    | Some video =>
        if negb (bool_decide (st_codec video = Some (video_codec_probe_name H264)))
        then Err (InvalidOutputProfile (lit "video codec is not H.264"))
        else if negb (bool_decide (st_pixel_format video = Some (pixel_format_ffmpeg_name Yuv420p)))
        then Err (InvalidOutputProfile (lit "video pixel format is not yuv420p"))
        else if match stream_size video with
                | Some (w, h) => (vp_max_width p <? w) || (vp_max_height p <? h)
                | None => true
                end
        then Err (InvalidOutputProfile (lit "video dimensions exceed the canonical profile"))
        else if negb (default 0 (st_rotation_degrees video) =? 0)
                || requires_frame_rate_cap video (vp_max_frame_rate p)
        then Err (InvalidOutputProfile (lit "video rotation or frame rate exceeds the canonical profile"))
        else if existsb (λ s, bool_decide (st_kind s = StreamAudio)
                              && negb (bool_decide (st_codec s = Some (audio_codec_probe_name Aac))))
                  (mp_streams probe)
        then Err (InvalidOutputProfile (lit "audio codec is not AAC"))
        else Ok tt
    end.

(** No cancellation arrives: the handlers pass [pending()]. *)
Definition run_with_progress (x : FfmpegExecutor) (c : ExternalCommand) : exec FfmpegProgress :=
  o ←? mapped ExecCommand (ask (RunCommand c));
  _ ←? check (eo_success o) (ProcessFailed (eo_exit_code o) (eo_stderr o));
  _ ←? check (negb (eo_stderr_truncated o)) (OutputLimitExceeded (ex_max_output_bytes x));
  if eo_stdout_truncated o
  then Done (Ok {| pg_frame := None; pg_out_time_ms := None; pg_state := End |})
  else
    p ←? Done (map_err ExecProgress (parse_ffmpeg_progress (eo_stdout o)));
    Done (if decide (pg_state p = End) then Ok p else Err ProgressDidNotEnd).

Definition execute_inner (x : FfmpegExecutor) (plan : NormalizationPlan) (output : Str)
    : exec (FfmpegProgress * MediaProbe * FileDigest) :=
  progress ←? run_with_progress x
    (command_max_output_bytes (ex_max_output_bytes x)
      (command_timeout (ex_timeout x) (command_with_progress_for_output plan output)));
  metadata ←? mapped (OutputFile output) (ask (Metadata output));
  _ ←? check (ft_is_file metadata && negb (ft_len metadata =? 0)) (InvalidOutput output);
  probe ←? mapped ExecProbe (ask (ProbeFile output));
  _ ←? Done (validate_output_probe probe (np_profile plan));
  digest ←? mapped ExecHash (ask (Sha256File output));
  Done (Ok (progress, probe, digest)).

Definition execute (x : FfmpegExecutor) (plan : NormalizationPlan) : exec NormalizationResult :=
  let output := np_output plan in
  u ← ask NewUuid;
  let temporary := temporary_output_path output u in
  _ ←? mapped (TemporaryOutput output) (reserve_artifact temporary);
  r ← execute_inner x plan temporary;
  match r with
  | Err e => _ ← drop_artifact temporary; Done (Err e)
  | Ok (progress, probe, digest) =>
      published ← publish_or_reuse temporary output;
      match published with
      | Err e => _ ← drop_artifact temporary; Done (Err (OutputPublish output (inl e)))
      | Ok _ =>
          _ ← remove_artifact temporary;
          Done (Ok {| nr_output_path := output; nr_progress := progress; nr_probe := probe;
                      nr_digest := digest |})
      end
  end.

Definition execute_analysis (x : FfmpegExecutor) (c : ExternalCommand) : exec FfmpegProgress :=
  let progress := match last (ec_args c) with
                  | Some output => [lit "-progress"; lit "pipe:1"; output]
                  | None => []
                  end in
  run_with_progress x (command_max_output_bytes (ex_max_output_bytes x)
    (command_timeout (ex_timeout x) (with_args (removelast (ec_args c) ++ progress) c))).
End Executor.
