(* ===== verification/NormalizeVideo.v ===== *)
(** * NormalizeVideo: choosing the encode to keep

    The candidate set and [execute_video_normalization] of
    [apps/worker/src/normalization.rs]: a remux when the source allows it, one encode of
    constant quality, then a two-pass encode at the target or smaller resolutions; the
    first one that meets the target is published, and a larger one that fits the storage
    is the fallback. *)

From S2P Require Import Prelude Jobs Proc Preview Normalize Text Execute.

Inductive FallbackPolicy := KeepFirst | KeepSmallest.

Record VideoCandidateSet := {
  cs_paths : list Str;                          (* [cleanup] *)
  cs_fallback : option NormalizationResult;
  cs_largest_oversized : option Z;
  cs_attempts : nat;
  cs_target : Z;
  cs_limit : Z;
}.
#[global] Instance eta_candidates : Eta VideoCandidateSet := fun c =>
  Build_VideoCandidateSet (cs_paths c) (cs_fallback c) (cs_largest_oversized c) (cs_attempts c)
    (cs_target c) (cs_limit c).

Definition candidates_new (target limit : Z) : VideoCandidateSet :=
  {| cs_paths := []; cs_fallback := None; cs_largest_oversized := None; cs_attempts := 0;
     cs_target := target; cs_limit := limit |}.

(** [VideoCandidateCleanup::forget]. *)
Definition forget (path : Str) (l : list Str) : list Str := filter (λ p, p ≠ path) l.

Definition remove_video_candidate (path : Str) (paths : list Str) : proc (list Str) :=
  let forgotten := _ ← ask (Disarm path); Done (forget path paths) in
  r ← ask (RemoveFile path);
  match r with
  | Ok _ | Err IoNotFound => forgotten
  | Err _ =>
      again ← ask (RemoveFile path);
      match again with
      | Ok _ => forgotten
      | Err _ => exists_ ← ask (PathExists path); if (exists_ : bool) then Done paths else forgotten
      end
  end.

Definition bytes_of (r : NormalizationResult) : Z := fd_bytes (nr_digest r).
Definition record_attempt (cs : VideoCandidateSet) : VideoCandidateSet :=
  cs <| cs_attempts := S (cs_attempts cs) |>.

(** Whether a result is chosen at once. *)
Definition selects (cs : VideoCandidateSet) (r : NormalizationResult) (policy : FallbackPolicy) : bool :=
  (bytes_of r <=? cs_limit cs)
  && match policy with
     | KeepFirst => bytes_of r <=? cs_target cs
     | KeepSmallest => match cs_fallback cs with
                       | Some previous => bytes_of r <? bytes_of previous
                       | None => true
                       end
     end.

Definition remove_from (path : Str) (cs : VideoCandidateSet) : proc VideoCandidateSet :=
  paths ← remove_video_candidate path (cs_paths cs); Done (cs <| cs_paths := paths |>).

Definition consider (cs : VideoCandidateSet) (r : NormalizationResult) (policy : FallbackPolicy)
    : proc (VideoCandidateSet * option NormalizationResult) :=
  if selects cs r policy then
    match cs_fallback cs with
    | Some previous =>
        cs ← remove_from (nr_output_path previous) (cs <| cs_fallback := None |>); Done (cs, Some r)
    | None => Done (cs, Some r)
    end
  else
    let cs := if cs_limit cs <? bytes_of r
              then cs <| cs_largest_oversized :=
                           Some (Z.max (default 0 (cs_largest_oversized cs)) (bytes_of r)) |>
              else cs in
    match cs_fallback cs, policy with
    | None, KeepFirst =>
        if bytes_of r <=? cs_limit cs then Done (cs <| cs_fallback := Some r |>, None)
        else cs ← remove_from (nr_output_path r) cs; Done (cs, None)
    | _, _ => cs ← remove_from (nr_output_path r) cs; Done (cs, None)
    end.

Definition take_fallback (cs : VideoCandidateSet) : result NormalizationExecutionError NormalizationResult :=
  ok_or (cs_fallback cs)
    (OutputExceedsStorageLimit (default (cs_limit cs) (cs_largest_oversized cs)) (cs_limit cs)).

(** The loop that removes every path still owned, whichever removals succeed. *)
Fixpoint remove_all (l paths : list Str) : proc (list Str) :=
  match l with
  | [] => Done paths
  | path :: l => paths ← remove_video_candidate path paths; remove_all l paths
  end.

Definition publish_video_candidate (selected : NormalizationResult) (output : Str)
    (cs : VideoCandidateSet) : exec NormalizationResult :=
  _ ←? mapped (λ e, OutputPublish output (inr e)) (publish_artifact (nr_output_path selected) output);
  _ ← remove_all (cs_paths cs) (cs_paths cs);
  Done (Ok (selected <| nr_output_path := output |>)).

Definition map_candidate_plan_error (e : NormalizationError) : NormalizationExecutionError :=
  InvalidOutputProfile
    match e with
    | InvalidCandidateDimensions _ => lit "candidate dimensions are outside the canonical profile"
    | _ => lit "candidate normalization plan is invalid"
    end.

Definition validate_adapted_dimensions (probe : MediaProbe) (requested : VideoDimensions)
    (source : MediaStream) (p : CanonicalVideoProfile) : result NormalizationExecutionError unit :=
  match find_stream StreamVideo probe with
  | None => Err OutputHasNoVideo
  | Some video =>
      match stream_size video with
      | None => Err (InvalidOutputProfile (lit "adapted video dimensions are missing"))
      | Some (w, h) =>
          if (w =? 0) || (h =? 0) || negb (w mod 2 =? 0) || negb (h mod 2 =? 0)
             || (vd_width requested <? w) || (vd_height requested <? h)
             || (vp_max_width p <? w) || (vp_max_height p <? h)
             || match effective_minimum_short_edge p source with
                | Some minimum => Z.min w h <? minimum
                | None => false
                end
          then Err (InvalidOutputProfile (lit "adapted video dimensions exceed the bounded ladder"))
          else Ok tt
      end
  end.

Section Worker.
Context {J : Json}.

Definition video_candidate_path (output : Str) (u : Uuid) : Str :=
  with_file_name output (lit ".sooqa-inline-candidate-" ++ uuid_to_string u ++ lit ".mp4").
Definition passlog_directory (output : Str) (u : Uuid) : Str :=
  with_file_name output (lit ".sooqa-two-pass-" ++ uuid_to_string u).

Definition next_path (output : Str) (cs : VideoCandidateSet) : proc (VideoCandidateSet * Str) :=
  u ← ask NewUuid;
  let path := video_candidate_path output u in
  _ ← ask (Arm path);
  Done (record_attempt cs <| cs_paths := cs_paths cs ++ [path] |>, path).

Definition execute_quality_candidate (x : FfmpegExecutor) (plan : NormalizationPlan)
    (d : VideoDimensions) (source : MediaStream) (pl : NormalizationPlanner) : exec NormalizationResult :=
  r ←? execute x plan;
  _ ←? Done (validate_adapted_dimensions (nr_probe r) d source (pl_profile pl));
  Done (Ok r).

Definition execute_two_pass_candidate (x : FfmpegExecutor) (plan : TwoPassNormalizationPlan)
    (d : VideoDimensions) (source : MediaStream) (pl : NormalizationPlanner) : exec NormalizationResult :=
  _ ←? execute_analysis x (tp_first_pass plan);
  r ←? execute x (tp_second_pass plan);
  _ ←? Done (validate_adapted_dimensions (nr_probe r) d source (pl_profile pl));
  Done (Ok r).

(** Publish a result that is chosen, or go on. *)
Definition settle_candidate (output : Str) (cs : VideoCandidateSet) (r : NormalizationResult)
    (policy : FallbackPolicy) (k : VideoCandidateSet → exec NormalizationResult)
    : exec NormalizationResult :=
  x ← consider cs r policy;
  match x with
  | (cs, Some selected) => publish_video_candidate selected output cs
  | (cs, None) => k cs
  end.

Definition finish (output : Str) (cs : VideoCandidateSet) : exec NormalizationResult :=
  selected ←? Done (take_fallback cs);
  publish_video_candidate selected output cs.

(** The remux, when the first plan is one. *)
Definition try_remux (x : FfmpegExecutor) (output : Str) (first : NormalizationPlan)
    (cs : VideoCandidateSet) (k : VideoCandidateSet → exec NormalizationResult)
    : exec NormalizationResult :=
  if decide (np_mode first = Remux) then
    '(cs, path) ← next_path output cs;
    r ←? execute x (with_output first path);
    settle_candidate output cs r KeepFirst k
  else k cs.

Definition try_quality (x : FfmpegExecutor) (pl : NormalizationPlanner) (input output : Str)
    (probe : MediaProbe) (video : MediaStream) (d : VideoDimensions)
    (first : option NormalizationPlan) (cs : VideoCandidateSet)
    (k : VideoCandidateSet → exec NormalizationResult) : exec NormalizationResult :=
  '(cs, path) ← next_path output cs;
  plan ←? Done (match first with
                | Some first => Ok (with_output first path)
                | None => map_err map_candidate_plan_error (plan_quality_candidate pl input path probe d)
                end);
  r ←? execute_quality_candidate x plan d video pl;
  settle_candidate output cs r KeepFirst k.

(** [VideoPasslogCleanup]: [reserve] of a directory, [remove] and, when it failed, the
    destructor. *)
Definition reserve_passlogs (dir : Str) : exec unit :=
  _ ←? mapped (TemporaryOutput dir) (ask (CreateDir dir));
  _ ← ask (Arm dir);
  Done (Ok tt).
Definition remove_passlogs (dir : Str) : proc bool :=
  r ← ask (RemoveDirAll dir);
  match r with Ok _ => _ ← ask (Disarm dir); Done false | Err _ => Done true end.
Definition drop_passlogs (dir : Str) (armed : bool) : proc unit :=
  if armed then _ ← ask (RemoveDirAll dir); ask (Disarm dir) else Done tt.

Definition try_two_pass (x : FfmpegExecutor) (pl : NormalizationPlanner) (input output : Str)
    (probe : MediaProbe) (video : MediaStream) (d : VideoDimensions) (bitrate : Z)
    (cs : VideoCandidateSet) (k : VideoCandidateSet → exec NormalizationResult)
    : exec NormalizationResult :=
  '(cs, path) ← next_path output cs;
  u ← ask NewUuid;
  let dir := passlog_directory output u in
  _ ←? reserve_passlogs dir;
  plan ←? Done (map_err map_candidate_plan_error
                  (plan_two_pass pl input path probe d bitrate (path_join dir (lit "stats"))));
  let cs := record_attempt cs in
  r ←? execute_two_pass_candidate x plan d video pl;
  armed ← remove_passlogs dir;
  settle_candidate output cs r KeepSmallest (λ cs, _ ← drop_passlogs dir armed; k cs).

Fixpoint try_rungs (x : FfmpegExecutor) (pl : NormalizationPlanner) (input output : Str)
    (probe : MediaProbe) (video : MediaStream) (rungs : list VideoDimensions) (cs : VideoCandidateSet)
    : exec NormalizationResult :=
  match rungs with
  | [] => finish output cs
  | d :: rungs =>
      try_quality x pl input output probe video d None cs (λ cs,
        try_rungs x pl input output probe video rungs cs)
  end.

(** The body, up to the end of the scope of its guards. *)
Definition video_normalization (pl : NormalizationPlanner) (x : FfmpegExecutor) (input output : Str)
    (probe : MediaProbe) (limit : Z) (first : NormalizationPlan) : exec NormalizationResult :=
  try_remux x output first (candidates_new (vp_target_max_bytes (pl_profile pl)) limit) (λ cs,
  match find_stream StreamVideo probe with
  | None => Done (Err OutputHasNoVideo)
  | Some video =>
      match resolution_ladder (pl_profile pl) video with
      | [] => Done (Err (InvalidOutputProfile (lit "video dimensions are missing or invalid")))
      | d :: rungs =>
          try_quality x pl input output probe video d
            (if decide (np_mode first = Transcode) then Some first else None) cs (λ cs,
            match two_pass_candidate (pl_profile pl) probe with
            | Some (d, bitrate) =>
                try_two_pass x pl input output probe video d bitrate cs (finish output)
            | None => try_rungs x pl input output probe video rungs cs
            end)
      end
  end).

Definition execute_video_normalization (pl : NormalizationPlanner) (x : FfmpegExecutor)
    (input output : Str) (probe : MediaProbe) (limit : Z) (first : NormalizationPlan)
    : exec NormalizationResult :=
  r ← video_normalization pl x input output probe limit first;
  _ ← ask DropGuards;
  Done r.
End Worker.
