(* ===== verification/Download.v ===== *)
(** * Download: fetching sources over HTTP

    [media/src/direct_http.rs] and [media/src/two_ch.rs], with the types of
    [media/src/lib.rs] they share, as programs over the calls they make: name resolution,
    requests, and the file system.

    A response comes with its body, the sequence of chunks its stream yields.  A client
    records what its builder was told: the redirect and proxy policies and the address a
    name is pinned to.  Durations are in microseconds. *)

From S2P Require Import Prelude Text Enums Jobs Envelope Proc Preview Normalize.
From S2P Require Import Net Execute.

(** ** Errors and limits *)

Inductive DownloadError :=
| DlRetryable (class message : Str)
| DlTerminal (class message : Str)
| NotImplemented.
#[global] Instance download_error_eq_dec : EqDecision DownloadError.
Proof. solve_decision. Defined.
Definition dl_retryable (class message : string) : DownloadError := DlRetryable (lit class) (lit message).
Definition dl_terminal (class message : string) : DownloadError := DlTerminal (lit class) (lit message).
Definition download_class (e : DownloadError) : Str :=
  match e with
  | DlRetryable class _ | DlTerminal class _ => class
  | NotImplemented => lit "downloader_not_implemented"
  end.
Definition download_is_retryable (e : DownloadError) : bool :=
  match e with DlRetryable _ _ => true | _ => false end.
#[global] Instance display_download : Display DownloadError := λ e,
  match e with
  | DlRetryable _ message | DlTerminal _ message => message
  | NotImplemented => lit "source downloader is not implemented"
  end.

Record SourceInput := {
  in_ingest_request_id : Uuid;
  in_source_url : Str;
  in_page_url : option Str;
}.
Record DownloadLimits := { dl_max_bytes : Z; dl_max_redirects : Z; dl_timeout : Z }.
Definition default_limits : DownloadLimits :=
  {| dl_max_bytes := 2 * 1024 * 1024 * 1024; dl_max_redirects := 5; dl_timeout := 300 * 1000000 |}.
Record DownloadedSource := {
  ds_path : Str;
  ds_bytes : Z;
  ds_mime_type : option Str;
  ds_selected_format : option Str;
}.

(** ** Calls *)

(** What [reqwest::Client::builder] is told. *)
Record Client := {
  cl_follow_redirects : bool;
  cl_proxy : bool;
  cl_timeout : Z;
  cl_resolve : option (Str * SocketAddr);
}.
Record RequestError := { re_timeout : bool; re_connect : bool; re_text : Str }.
(** A header is absent, present without a textual value, or a text. *)
Record Response := {
  rs_status : Z;
  rs_location : option (option Str);
  rs_content_type : option (option Str);
  rs_content_length : option Z;
  rs_body : list (result RequestError (list Z));
}.

Inductive http_call :=
| Files (c : file_call)
| LookupHost (host : Str) (port : Z)
| BuildClient (c : Client)
| Send (c : Client) (url : UrlInfo) (headers : list (Str * Str))
| OpenFile (path : Str)
| WriteAll (path : Str) (bytes : list Z)
| Flush (path : Str)
| ReadDir (path : Str)
| RunSequence (c : ExternalCommand) (directory : Str) (max_bytes : Z).

#[global] Instance http_interface : Interface :=
  {| call := http_call;
     answer c := match c with
       | Files c => @answer file_interface c
       | LookupHost _ _ => result Str (list IpAddr)
       | BuildClient _ => result Str unit
       | Send _ _ _ => result RequestError Response
       | OpenFile _ | WriteAll _ _ | Flush _ => result io_error unit
       | ReadDir _ => result io_error (list (result io_error Str))
       | RunSequence _ _ _ => result CommandError ExternalCommandOutput
       end |}.

Abbreviation http E A := (@proc http_interface (result E A)).
Abbreviation download_proc A := (http DownloadError A).

(** A program over the file system alone. *)
Fixpoint on_files {A} (t : @proc file_interface A) : @proc http_interface A :=
  match t with
  | Done a => Done a
  | Ask c k => @Ask http_interface A (Files c) (λ x, on_files (k x))
  end.

Record SourceDownloader {J : Json} := {
  sd_inspect : SourceInput → download_proc SourceInspection;
  sd_download : SourceInspection → Str → DownloadLimits → download_proc DownloadedSource;
}.

(** ** Addresses *)

Record ResolvedAddress := { ra_ip : IpAddr; ra_connect_ip : IpAddr }.
Definition same (ip : IpAddr) : ResolvedAddress := {| ra_ip := ip; ra_connect_ip := ip |}.

Class HostResolver := resolve : Str → Z → download_proc (list ResolvedAddress).

Definition SystemResolver : HostResolver := λ host port,
  addresses ←? mapped (DlRetryable (lit "dns_resolution")) (ask (LookupHost host port));
  Done (if (length addresses =? 0)%nat
        then Err (dl_retryable "dns_resolution" "host resolved to no addresses")
        else Ok (same <$> addresses)).

Record ResolvedTarget := {
  rt_url : UrlInfo;
  rt_host : Str;
  rt_is_domain : bool;
  rt_port : Z;
  rt_connect_ip : IpAddr;
}.

Definition validate_limits (l : DownloadLimits) : result DownloadError unit :=
  if (dl_max_bytes l =? 0) || (dl_timeout l =? 0)
  then Err (dl_terminal "invalid_download_limits" "download byte limit and timeout must be greater than zero")
  else Ok tt.

Definition validate_url (u : UrlInfo) : result DownloadError unit :=
  if negb (url_is_http (ui_scheme u))
  then Err (dl_terminal "unsupported_scheme" "source URL must use http or https")
  else if negb (is_empty (ui_username u)) || bool_decide (is_Some (ui_password u))
  then Err (dl_terminal "source_credentials_forbidden" "source URL must not contain embedded credentials")
  else if bool_decide (ui_host u = None)
  then Err (dl_terminal "missing_source_host" "source URL has no host")
  else Ok tt.

Section Direct.
Context {J : Json} {Js : JsonShape} {U : UrlSyntax} {Di : Display io_error} {Dp : Display PublishError}.
Context {Da : Display IpAddr} {R : HostResolver}.

Definition parse_url (value : Str) : result DownloadError UrlInfo :=
  match url_info value with
  | Some u => Ok u
  | None => Err (dl_terminal "invalid_source_url" "source URL could not be parsed")
  end.

(** The host, whether it is a domain, and the addresses to connect to. *)
Definition target_addresses (u : UrlInfo) (port : Z)
    : download_proc (Str * bool * list ResolvedAddress) :=
  match ui_host u with
  | Some (Domain domain) => addresses ←? resolve domain port; Done (Ok (domain, true, addresses))
  | Some (HostV4 a) => Done (Ok (ipv4_text a, false, [same (V4 a)]))
  | Some (HostV6 a) => Done (Ok (ipv6_text a, false, [same (V6 a)]))
  | None => Done (Err (dl_terminal "missing_source_host" "source URL has no host"))
  end.

Definition resolve_target (u : UrlInfo) : download_proc ResolvedTarget :=
  _ ←? Done (validate_url u);
  port ←? Done (match match ui_port u with Some p => Some p | None => known_default_port (ui_scheme u) end with
                | Some port => Ok port
                | None => Err (dl_terminal "missing_source_port" "source URL has no usable port")
                end);
  found ←? target_addresses u port;
  let '(host, is_domain, addresses) := (found : Str * bool * list ResolvedAddress) in
  match addresses with
  | [] => Done (Err (dl_retryable "dns_resolution" "host resolved to no addresses"))
  | first :: _ =>
      match find (λ a, is_blocked_ip (ra_ip a)) addresses with
      | Some blocked =>
          Done (Err (DlTerminal (lit "ssrf_blocked")
            (lit "source resolved to a forbidden address: " ++ display (ra_ip blocked))))
      | None =>
          Done (Ok {| rt_url := u; rt_host := host; rt_is_domain := is_domain; rt_port := port;
                      rt_connect_ip := ra_connect_ip first |})
      end
  end.

Definition client_of (t : ResolvedTarget) (timeout : Z) : Client :=
  {| cl_follow_redirects := false; cl_proxy := false; cl_timeout := timeout;
     cl_resolve := if rt_is_domain t
                   then Some (rt_host t, {| sa_ip := rt_connect_ip t; sa_port := rt_port t |})
                   else None |}.
Definition client_for (t : ResolvedTarget) (timeout : Z) : download_proc Client :=
  let c := client_of t timeout in
  _ ←? mapped (λ error, DlTerminal (lit "http_client") (lit "could not build HTTP client: " ++ error))
         (ask (BuildClient c));
  Done (Ok c).

(** ** Requests *)

Definition request_error (class : string) (e : RequestError) : DownloadError :=
  if re_timeout e || re_connect e then DlRetryable (lit class) (re_text e)
  else DlTerminal (lit class) (re_text e).
Definition map_request_error : RequestError → DownloadError := request_error "http_request".
Definition map_stream_error : RequestError → DownloadError := request_error "http_stream".

Definition is_redirection (status : Z) : bool := (300 <=? status) && (status <? 400).
Definition is_success (status : Z) : bool := (200 <=? status) && (status <? 300).
Definition is_server_error (status : Z) : bool := (500 <=? status) && (status <? 600).

Record FetchResult := { fe_response : Response; fe_resolved_url : UrlInfo }.

Definition classify_response (r : Response) (u : UrlInfo) : result DownloadError FetchResult :=
  let status := rs_status r in
  if is_success status then Ok {| fe_response := r; fe_resolved_url := u |}
  else
    let message := lit "source returned HTTP status " ++ show status in
    if (status =? 408) || (status =? 429) || is_server_error status
    then Err (DlRetryable (lit "upstream_http_status") message)
    else Err (DlTerminal (lit "upstream_http_status") message).

Definition redirect_target (current : UrlInfo) (r : Response) : result DownloadError UrlInfo :=
  match rs_location r with
  | None => Err (dl_terminal "invalid_redirect" "redirect response did not include a Location header")
  | Some None => Err (dl_terminal "invalid_redirect" "redirect Location header was not valid UTF-8")
  | Some (Some location) =>
      match url_join current location with
      | Some u => Ok u
      | None => Err (dl_terminal "invalid_redirect" "redirect Location header was not a valid URL")
      end
  end.
Definition redirect_limit : DownloadError :=
  dl_terminal "redirect_limit" "source exceeded the configured redirect limit".

(** With [budget] redirects left to follow. *)
Fixpoint fetch_from (limits : DownloadLimits) (inspect_prefix : bool) (budget : nat) (current : UrlInfo)
    : download_proc FetchResult :=
  target ←? resolve_target current;
  client ←? client_for target (dl_timeout limits);
  response ←? mapped map_request_error
    (ask (Send client (rt_url target) (if inspect_prefix then [(lit "range", lit "bytes=0-511")] else [])));
  if is_redirection (rs_status response) then
    match budget with
    | O => Done (Err redirect_limit)
    | S budget => next ←? Done (redirect_target current response); fetch_from limits inspect_prefix budget next
    end
  else Done (classify_response response current).
Definition fetch (start : UrlInfo) (limits : DownloadLimits) (inspect_prefix : bool)
    : download_proc FetchResult :=
  _ ←? Done (validate_limits limits);
  fetch_from limits inspect_prefix (Z.to_nat (dl_max_redirects limits)) start.

(** ** Media kinds *)

Definition MAX_SNIFF_BYTES : nat := 512.

Definition content_type (r : Response) : option Str :=
  match rs_content_type r with
  | Some (Some value) =>
      let value := to_ascii_lowercase (trim (before_char 59 value)) in
      if is_empty value then None else Some value
  | _ => None
  end.

Definition sniff_prefix (prefix : list Z) : SourceMediaKind.t :=
  if starts_with [255; 216; 255] prefix || starts_with ([137] ++ lit "PNG" ++ [13; 10; 26; 10]) prefix
     || starts_with (lit "GIF87a") prefix || starts_with (lit "GIF89a") prefix
     || ((12 <=? length prefix)%nat && starts_with (lit "RIFF") prefix
         && bool_decide (take 4 (drop 8 prefix) = lit "WEBP"))
  then SourceMediaKind.Image
  else if ((8 <=? length prefix)%nat && bool_decide (take 4 (drop 4 prefix) = lit "ftyp"))
          || starts_with [26; 69; 223; 163] prefix
  then SourceMediaKind.Video
  else if starts_with (lit "ID3") prefix || starts_with (lit "OggS") prefix || starts_with [255; 251] prefix
  then SourceMediaKind.Audio
  else SourceMediaKind.Unknown.
Definition sniff_media_kind (mime_type : option Str) (prefix : list Z) : SourceMediaKind.t :=
  match mime_type with
  | Some m =>
      if starts_with (lit "video/") m then SourceMediaKind.Video
      else if starts_with (lit "image/") m then SourceMediaKind.Image
      else if starts_with (lit "audio/") m then SourceMediaKind.Audio
      else sniff_prefix prefix
  | None => sniff_prefix prefix
  end.

(** ** [DirectHttpDownloader] *)

Definition too_large (limits : DownloadLimits) (r : Response) : bool :=
  match rs_content_length r with Some length => dl_max_bytes limits <? length | None => false end.
Definition content_too_large : DownloadError :=
  dl_terminal "source_too_large" "source content length exceeds the configured byte limit".

Definition first_chunk (r : Response) : result DownloadError (list Z) :=
  match rs_body r with
  | [] => Ok []
  | Ok chunk :: _ => Ok (take MAX_SNIFF_BYTES chunk)
  | Err e :: _ => Err (map_stream_error e)
  end.

Definition direct_inspect (limits : DownloadLimits) (source : SourceInput)
    : download_proc SourceInspection :=
  u ←? Done (parse_url (in_source_url source));
  fetched ←? fetch u limits true;
  let response := fe_response fetched in
  _ ←? check (negb (too_large limits response)) content_too_large;
  let mime_type := content_type response in
  prefix ←? Done (first_chunk response);
  let media_kind := sniff_media_kind mime_type prefix in
  Done (Ok {| si_adapter := lit "direct_http";
              si_source_url := in_source_url source;
              si_resolved_url := Some (url_text (fe_resolved_url fetched));
              si_media_kind := media_kind;
              si_mime_type := mime_type;
              si_content_length_bytes := rs_content_length response;
              si_title := None;
              si_metadata := of_object (list_to_map
                [(lit "http_status", of_int (rs_status response));
                 (lit "sniffed_media_kind", of_str (lit (media_kind_text media_kind)))]) |}).

Definition destination_io {E} `{Display E} (what : string) (e : E) : DownloadError :=
  DlTerminal (lit "destination_io") (lit what ++ display e).

Fixpoint write_chunks (path : Str) (max_bytes bytes : Z) (chunks : list (result RequestError (list Z)))
    : download_proc Z :=
  match chunks with
  | [] => Done (Ok bytes)
  | Err e :: _ => Done (Err (map_stream_error e))
  | Ok chunk :: chunks =>
      let bytes := bytes + Z.of_nat (length chunk) in
      if u64_max <? bytes then Done (Err (dl_terminal "source_too_large" "source byte count overflowed"))
      else if max_bytes <? bytes
      then Done (Err (dl_terminal "source_too_large" "source body exceeds the configured byte limit"))
      else
        _ ←? mapped (destination_io (E := io_error) "could not write destination: ") (ask (WriteAll path chunk));
        write_chunks path max_bytes bytes chunks
  end.
Definition stream_to_file (response : Response) (path : Str) (max_bytes : Z) : download_proc Z :=
  bytes ←? write_chunks path max_bytes 0 (rs_body response);
  _ ←? mapped (destination_io (E := io_error) "could not flush destination: ") (ask (Flush path));
  Done (Ok bytes).

(** From the opening of the reserved file to its publication. *)
Definition store_response (response : Response) (temporary destination : Str) (max_bytes : Z)
    : download_proc Z :=
  _ ←? mapped (destination_io (E := io_error) "could not open temporary destination: ") (ask (OpenFile temporary));
  bytes ←? stream_to_file response temporary max_bytes;
  published ←? mapped (destination_io (E := PublishError) "could not publish downloaded source: ")
                 (on_files (publish_or_reuse temporary destination));
  match published with
  | Published => Done (Ok bytes)
  | Reused =>
      m ←? mapped (destination_io (E := io_error) "could not inspect reused source: ")
             (ask (Files (Metadata destination)));
      Done (Ok (ft_len m))
  end.

Definition http_temporary (destination : Str) (u : Uuid) : Str :=
  with_file_name destination (lit ".sooqa-http-" ++ uuid_to_string u ++ lit ".tmp").

Definition direct_download (inspection : SourceInspection) (destination : Str) (limits : DownloadLimits)
    : download_proc DownloadedSource :=
  _ ←? Done (validate_limits limits);
  u ←? Done (parse_url (default (si_source_url inspection) (si_resolved_url inspection)));
  fetched ←? fetch u limits false;
  let response := fe_response fetched in
  _ ←? check (negb (too_large limits response)) content_too_large;
  let mime_type := content_type response in
  id ← ask (Files NewUuid);
  let temporary := http_temporary destination id in
  _ ←? mapped (destination_io (E := io_error) "could not reserve temporary destination: ")
         (on_files (reserve_artifact temporary));
  stored ← store_response response temporary destination (dl_max_bytes limits);
  match stored with
  | Err e => _ ← on_files (drop_artifact temporary); Done (Err e)
  | Ok bytes =>
      _ ← on_files (remove_artifact temporary);
      Done (Ok {| ds_path := destination; ds_bytes := bytes; ds_mime_type := mime_type;
                  ds_selected_format := None |})
  end.

Definition DirectHttpDownloader (inspection_limits : DownloadLimits) : SourceDownloader :=
  {| sd_inspect := direct_inspect inspection_limits; sd_download := direct_download |}.

(** ** [TwoChMirrorDownloader] *)

Definition TWO_CH_MIRROR_HOSTS : list Str := lit <$> ["2ch.org"; "2ch.su"; "2ch.life"]%string.

Definition mirror_source (source : SourceInput) : option (UrlInfo * Str) :=
  u ← url_info (in_source_url source);
  host ← to_ascii_lowercase ∘ host_text <$> ui_host u;
  if bool_decide (host ∈ TWO_CH_MIRROR_HOSTS) then Some (u, host) else None.

Definition with_mirror_provenance (i : SourceInspection) (original submitted selected : Str) (u : UrlInfo)
    : SourceInspection :=
  let mirror := of_object (list_to_map
    [(lit "submitted_host", of_str submitted); (lit "selected_host", of_str selected);
     (lit "selected_url", of_str (url_text u))]) in
  {| si_adapter := si_adapter i;
     si_source_url := original;
     si_resolved_url := si_resolved_url i;
     si_media_kind := si_media_kind i;
     si_mime_type := si_mime_type i;
     si_content_length_bytes := si_content_length_bytes i;
     si_title := si_title i;
     si_metadata :=
       match as_object (si_metadata i) with
       | Some object => of_object (<[lit "two_ch_mirror" := mirror]> object)
       | None => of_object (list_to_map
                   [(lit "adapter_metadata", si_metadata i); (lit "two_ch_mirror", mirror)])
       end |}.

Definition should_try_next_mirror (e : DownloadError) : bool :=
  if bool_decide (download_class e ∈ lit <$> ["dns_resolution"; "upstream_http_status"]%string) then true
  else if bool_decide (download_class e ∈ lit <$> ["http_request"; "http_stream"]%string)
  then download_is_retryable e
  else false.

Definition failure_summary (e : DownloadError) : Str :=
  if decide (download_class e = lit "upstream_http_status")
  then match strip_prefix (lit "source returned HTTP status ") (display e) ≫= parse_unsigned 65535 with
       | Some status => lit "upstream_http_status:" ++ show status
       | None => download_class e
       end
  else download_class e.

Fixpoint try_mirrors (direct : SourceDownloader) (source : SourceInput) (u : UrlInfo) (submitted : Str)
    (hosts : list Str) (failures : list (Str * Str)) (all_retryable : bool)
    : download_proc SourceInspection :=
  match hosts with
  | [] =>
      let attempts := join_with (lit ", ") ((λ '(host, failure), host ++ lit "=" ++ failure) <$> failures) in
      let message := lit "all 2ch mirrors failed (" ++ attempts ++ lit ")" in
      Done (Err ((if all_retryable then DlRetryable else DlTerminal) (lit "two_ch_mirrors_exhausted") message))
  | selected :: hosts =>
      let candidate := url_set_host u selected in
      r ← sd_inspect direct {| in_ingest_request_id := in_ingest_request_id source;
                               in_source_url := url_text candidate;
                               in_page_url := in_page_url source |};
      match r with
      | Ok i =>
          Done (if decide (si_media_kind i = SourceMediaKind.Unknown)
                then Err (dl_terminal "unsupported_source" "2ch mirror returned an unsupported media response")
                else Ok (with_mirror_provenance i (in_source_url source) submitted selected candidate))
      | Err e =>
          if should_try_next_mirror e
          then try_mirrors direct source u submitted hosts (failures ++ [(selected, failure_summary e)])
                 (all_retryable && download_is_retryable e)
          else Done (Err e)
      end
  end.

Definition TwoChMirrorDownloader (direct : SourceDownloader) : SourceDownloader :=
  {| sd_inspect source :=
       match mirror_source source with
       | None => sd_inspect direct source
       | Some (u, submitted) => try_mirrors direct source u submitted TWO_CH_MIRROR_HOSTS [] true
       end;
     sd_download := sd_download direct |}.
End Direct.
