(* ===== verification/YtDlp.v ===== *)
(** * YtDlp: the yt-dlp adapter and the source router

    [media/src/ytdlp.rs] and [SourceDownloaderRouter] of [media/src/lib.rs]: the policy for
    page URLs and providers, the metadata yt-dlp reports, the classification of its
    failures, and the adapter as a program that runs yt-dlp.

    A URL that was validated and is parsed again from its own text is the URL itself.  The
    derived [Deserialize] of the metadata records is an interface. *)

From S2P Require Import Prelude F64 Text Enums Jobs Envelope Proc Preview Normalize Net Execute Download.

(** ** Providers *)

Inductive YtDlpProviderFamily := Youtube | Tiktok | Instagram | FamilyX.
#[global] Instance family_eq_dec : EqDecision YtDlpProviderFamily.
Proof. solve_decision. Defined.
Definition family_as_str (f : YtDlpProviderFamily) : Str :=
  lit match f with Youtube => "youtube" | Tiktok => "tiktok" | Instagram => "instagram" | FamilyX => "x" end.

Definition TIKTOK_HOSTS : list Str :=
  lit <$> ["tiktok.com"; "www.tiktok.com"; "vm.tiktok.com"; "vt.tiktok.com"; "m.tiktok.com"]%string.
Definition INSTAGRAM_HOSTS : list Str := lit <$> ["instagram.com"; "www.instagram.com"]%string.
Definition X_HOSTS : list Str :=
  lit <$> ["x.com"; "www.x.com"; "twitter.com"; "www.twitter.com"]%string.

Definition is_domain_or_subdomain (host domain : Str) : bool :=
  bool_decide (host = domain) || ends_with (lit "." ++ domain) host.

(** [trim_end_matches('.')]. *)
Fixpoint drop_dots (s : Str) : Str :=
  match s with c :: r => if c =? 46 then drop_dots r else s | [] => [] end.
Definition trim_end_dots (s : Str) : Str := reverse (drop_dots (reverse s)).

(** The submitted and the canonical host lists are the same. *)
Definition provider_family_for_host (host : Str) : option YtDlpProviderFamily :=
  let host := to_ascii_lowercase (trim_end_dots host) in
  if is_domain_or_subdomain host (lit "youtube.com") || is_domain_or_subdomain host (lit "youtu.be")
  then Some Youtube
  else if bool_decide (host ∈ TIKTOK_HOSTS) then Some Tiktok
  else if bool_decide (host ∈ INSTAGRAM_HOSTS) then Some Instagram
  else if bool_decide (host ∈ X_HOSTS) then Some FamilyX
  else None.

Definition ytdlp_allowed_hosts_include_youtube (allowed_hosts : list Str) : bool :=
  existsb (λ host, bool_decide (provider_family_for_host host = Some Youtube)) allowed_hosts.

Definition extractor_matches_provider (f : YtDlpProviderFamily) (extractor : Str) : bool :=
  let extractor := to_ascii_lowercase (trim extractor) in
  match f with
  | Youtube => bool_decide (extractor ∈ lit <$> ["youtube"; "youtubeshorts"; "youtube:shorts"]%string)
  | Tiktok => bool_decide (extractor = lit "tiktok")
  | Instagram => bool_decide (extractor = lit "instagram")
  | FamilyX => bool_decide (extractor ∈ lit <$> ["twitter"; "x"]%string)
  end.

(** Providers of which only videos are accepted. *)
Definition video_only (f : YtDlpProviderFamily) : bool :=
  match f with Youtube => false | _ => true end.

(** ** Metadata *)

Record YtDlpMetadata := {
  ym_id : option Str;
  ym_title : option Str;
  ym_webpage_url : option Str;
  ym_extractor : option Str;
  ym_platform : option Str;
  ym_duration_ms : option Z;
  ym_filesize_bytes : option Z;
  ym_width : option Z;
  ym_height : option Z;
  ym_ext : option Str;
  ym_mime_type : option Str;
  ym_vcodec : option Str;
  ym_acodec : option Str;
  ym_format_id : option Str;
  ym_format : option Str;
  ym_thumbnail : option Str;
  ym_uploader : option Str;
}.
#[global] Instance eta_metadata : Eta YtDlpMetadata := fun m =>
  Build_YtDlpMetadata (ym_id m) (ym_title m) (ym_webpage_url m) (ym_extractor m) (ym_platform m)
    (ym_duration_ms m) (ym_filesize_bytes m) (ym_width m) (ym_height m) (ym_ext m) (ym_mime_type m)
    (ym_vcodec m) (ym_acodec m) (ym_format_id m) (ym_format m) (ym_thumbnail m) (ym_uploader m).

Definition is_present_codec (codec : option Str) : bool :=
  match codec with
  | Some codec => negb (is_empty codec) && negb (bool_decide (codec = lit "none"))
  | None => false
  end.
Definition metadata_media_kind (m : YtDlpMetadata) : SourceMediaKind.t :=
  if is_present_codec (ym_vcodec m) then SourceMediaKind.Video
  else if is_present_codec (ym_acodec m) then SourceMediaKind.Audio
  else match to_ascii_lowercase <$> ym_ext m with
       | Some ext =>
           if bool_decide (ext ∈ lit <$> ["jpg"; "jpeg"; "png"; "gif"; "webp"; "avif"]%string)
           then SourceMediaKind.Image else SourceMediaKind.Unknown
       | None => SourceMediaKind.Unknown
       end.

Record RawYtDlpMetadata {J : Json} := {
  ry_item_type : option Str;
  ry_id : option Str;
  ry_title : option Str;
  ry_webpage_url : option Str;
  ry_original_url : option Str;
  ry_extractor_key : option Str;
  ry_extractor : option Str;
  ry_duration : option f64;
  ry_filesize : option Z;
  ry_filesize_approx : option Z;
  ry_width : option Z;
  ry_height : option Z;
  ry_ext : option Str;
  ry_mime_type : option Str;
  ry_vcodec : option Str;
  ry_acodec : option Str;
  ry_format_id : option Str;
  ry_format : option Str;
  ry_thumbnail : option Str;
  ry_uploader : option Str;
  ry_entries : option Value;
  ry_playlist_count : option Z;
  ry_n_entries : option Z;
  ry_is_live : option bool;
  ry_live_status : option Str;
}.

(** Half away from zero, and a saturating cast; JSON has finite numbers only.  The largest
    [u64] becomes two to the power of sixty-four. *)
Definition duration_to_ms (value : f64) : option Z :=
  if negb (f64_le (of_u32 0) value) then None
  else
    let milliseconds := f64_mul value (of_u32 1000) in
    if negb (f64_le milliseconds (of_u32 (u64_max + 1))) then None
    else Some (Z.min (f64_round milliseconds) u64_max).

Definition mime_type_for_ext (ext : option Str) : option Str :=
  ext ← ext;
  let ext := to_ascii_lowercase ext in
  let any_of (names : list string) := bool_decide (ext ∈ lit <$> names) in
  if any_of ["mp4"%string] then Some (lit "video/mp4")
  else if any_of ["webm"%string] then Some (lit "video/webm")
  else if any_of ["mkv"%string] then Some (lit "video/x-matroska")
  else if any_of ["mov"%string] then Some (lit "video/quicktime")
  else if any_of ["mp3"%string] then Some (lit "audio/mpeg")
  else if any_of ["m4a"%string] then Some (lit "audio/mp4")
  else if any_of ["opus"%string] then Some (lit "audio/opus")
  else if any_of ["jpg"; "jpeg"]%string then Some (lit "image/jpeg")
  else if any_of ["png"%string] then Some (lit "image/png")
  else if any_of ["gif"%string] then Some (lit "image/gif")
  else if any_of ["webp"%string] then Some (lit "image/webp")
  else if any_of ["avif"%string] then Some (lit "image/avif")
  else None.

Definition MAX_YTDLP_METADATA_ID_BYTES : Z := 256.
Definition MAX_YTDLP_METADATA_TEXT_BYTES : Z := 4 * 1024.
Definition MAX_YTDLP_METADATA_URL_BYTES : Z := 2 * 1024.
Definition MAX_YTDLP_METADATA_EXTRACTOR_BYTES : Z := 128.
Definition MAX_YTDLP_METADATA_FORMAT_BYTES : Z := 1024.
Definition MAX_YTDLP_METADATA_MIME_BYTES : Z := 128.
Definition MAX_YTDLP_METADATA_EXTENSION_BYTES : Z := 32.

Definition bounded_metadata_string (value : option Str) (max_bytes : Z) (field : string)
    : result DownloadError (option Str) :=
  match value with
  | None => Ok None
  | Some value =>
      if (max_bytes <? byte_len value) || existsb is_control value
      then Err (DlTerminal (lit "ytdlp_metadata")
                  (lit "yt-dlp " ++ lit field ++ lit " metadata exceeds its bounded text policy"))
      else Ok (Some value)
  end.

Definition text_is (t : option Str) (names : list string) : bool :=
  match t with Some t => bool_decide (to_ascii_lowercase t ∈ lit <$> names) | None => false end.
Definition above_one (n : option Z) : bool := match n with Some n => 1 <? n | None => false end.

(** ** Configuration *)

Definition MAX_YTDLP_FORMAT_SELECTION_BYTES : Z := 1024.
Definition YTDLP_PROGRESSIVE_FALLBACK_FORMAT : Str :=
  lit "best[ext=mp4][vcodec!=none][acodec!=none]/best[vcodec!=none][acodec!=none]".
Definition DEFAULT_YTDLP_METADATA_MAX_OUTPUT_BYTES : Z := 4 * 1024 * 1024.
Definition YTDLP_ATTEMPT_MAX_BYTES_MULTIPLIER : Z := 3.
Definition YTDLP_PLUGIN_DIRECTORY : Str := lit "/usr/local/share/sooqa/yt-dlp-plugins".
Definition MAX_TCO_REDIRECTS : Z := 5.
Definition MAX_TCO_LOCATION_BYTES : Z := 2 * 1024.

Inductive YtDlpConfigError := EmptyFormatSelection | FormatSelectionTooLong | UnsafeFormatSelection.

Definition validate_format_selection (value : Str) : result YtDlpConfigError unit :=
  if is_empty (trim value) then Err EmptyFormatSelection
  else if MAX_YTDLP_FORMAT_SELECTION_BYTES <? byte_len value then Err FormatSelectionTooLong
  else if starts_with (lit "-") value || existsb is_control value then Err UnsafeFormatSelection
  else Ok tt.

Record YtDlpConfig := {
  yc_executable : Str;
  yc_format_selection : Str;
  yc_deno_path : Str;
  yc_max_output_bytes : Z;
  yc_metadata_max_output_bytes : Z;
  yc_pot_provider_url : Str;
}.
#[global] Instance eta_ytdlp_config : Eta YtDlpConfig := fun c =>
  Build_YtDlpConfig (yc_executable c) (yc_format_selection c) (yc_deno_path c) (yc_max_output_bytes c)
    (yc_metadata_max_output_bytes c) (yc_pot_provider_url c).
Definition ytdlp_config_new (executable format_selection : Str) : result YtDlpConfigError YtDlpConfig :=
  _ ← validate_format_selection format_selection;
  Ok {| yc_executable := executable; yc_format_selection := format_selection;
        yc_deno_path := lit "deno"; yc_max_output_bytes := DEFAULT_MAX_OUTPUT_BYTES;
        yc_metadata_max_output_bytes := DEFAULT_YTDLP_METADATA_MAX_OUTPUT_BYTES;
        yc_pot_provider_url := lit "http://127.0.0.1:4416" |}.
Definition with_pot_provider_url (url : Str) (c : YtDlpConfig) : YtDlpConfig :=
  c <| yc_pot_provider_url := url |>.

(** The first word that starts with a digit is the version. *)
Definition is_supported_deno_version (version_line : Str) : bool :=
  match find (λ part, match part with c :: _ => bool_decide (is_Some (digit c)) | [] => false end)
          (split_whitespace version_line []) with
  | None => false
  | Some version =>
      match parse_unsigned u32_max <$> split_at_char 46 version [] with
      | Some major :: Some minor :: rest =>
          let patch := default 0 (mjoin (head rest)) in
          (2 <? major) || ((major =? 2) && ((3 <? minor) || ((minor =? 3) && (0 <=? patch))))
      | _ => false
      end
  end.

(** ** Failures *)

Definition mentions (markers : list string) (message : Str) : bool :=
  let message := to_ascii_lowercase message in existsb (λ m, contains (lit m) message) markers.

Definition is_media_data_forbidden_message (message : Str) : bool :=
  let message := to_ascii_lowercase message in
  contains (lit "unable to download video data") message
  && (contains (lit "http error 403") message || contains (lit "http 403") message).
Definition is_auth_required_message : Str → bool := mentions
  ["sign in"; "log in"; "login required"; "private video"; "private post"; "private account";
   "private content"; "followers-only"; "followers only"; "only followers"; "account required";
   "age-restricted"; "age restricted"; "confirm your age"]%string.
Definition is_content_unavailable_message : Str → bool := mentions
  ["video unavailable"; "this video is unavailable"; "content is unavailable";
   "content isn't available"; "content is not available"; "post not found"; "does not exist";
   "has been removed"; "was removed"; "has been deleted"; "was deleted"; "no longer available"]%string.
Definition is_unsupported_surface_message : Str → bool := mentions
  ["unsupported url"; "unsupported page"; "playlist"; "profile"; "user page"; "feed"; "story";
   "stories"; "live stream"; "live event"; "space"; "spaces"; "carousel"; "gallery"; "image-only";
   "not a video"; "multiple entries"]%string.
Definition is_transient_failure : Str → bool := mentions
  ["timed out"; "timeout"; "temporary failure"; "connection reset"; "connection refused";
   "network is unreachable"; "name or service not known"; "http error 429"; "http error 502";
   "http error 503"; "http error 504"]%string.

Definition is_media_data_forbidden (e : DownloadError) : bool :=
  match e with DlRetryable class _ => bool_decide (class = lit "ytdlp_media_forbidden") | _ => false end.

Definition map_process_failure (o : ExternalCommandOutput) (source_url : Str)
    (allow_media_data_recovery : bool) (family : option YtDlpProviderFamily) : DownloadError :=
  let stderr := replace source_url (lit "<source-url>") (trim (from_utf8_lossy (eo_stderr o))) in
  let message := lit "yt-dlp exited unsuccessfully with status " ++ show_option (eo_exit_code o)
                   ++ (if is_empty stderr then [] else lit ": " ++ stderr) in
  if allow_media_data_recovery && bool_decide (family = Some Youtube)
     && is_media_data_forbidden_message stderr
  then DlRetryable (lit "ytdlp_media_forbidden") message
  else if is_auth_required_message stderr
  then dl_terminal "ytdlp_auth_required" "the provider requires an account, login, or private-content access"
  else if is_content_unavailable_message stderr
  then dl_terminal "ytdlp_content_unavailable" "the requested provider video is removed or unavailable"
  else if is_unsupported_surface_message stderr
  then dl_terminal "ytdlp_unsupported_surface" "the provider URL is not a supported single public video surface"
  else if is_transient_failure stderr then DlRetryable (lit "ytdlp_upstream") message
  else DlTerminal (lit "ytdlp_process") message.
Definition map_inspection_failure (o : ExternalCommandOutput) (source_url : Str) : DownloadError :=
  map_process_failure o source_url false None.
Definition map_download_failure (o : ExternalCommandOutput) (source_url : Str)
    (family : option YtDlpProviderFamily) : DownloadError :=
  map_process_failure o source_url true family.

Definition map_command_error `{Display CommandError} (e : CommandError) (output_limit_class : string)
    : DownloadError :=
  if is_timeout e then DlRetryable (lit "ytdlp_timeout") (display e)
  else if is_output_limit_exceeded e then DlTerminal (lit output_limit_class) (display e)
  else DlTerminal (lit "ytdlp_command") (display e).

Definition ytdlp_validate_limits (l : DownloadLimits) (timeout : Z) : result DownloadError unit :=
  ensure (negb ((dl_max_bytes l =? 0) || (timeout =? 0)))
    (dl_terminal "invalid_download_limits" "download byte limit and timeout must be greater than zero").

(** The derived deserialization of the metadata. *)
Class YtDlpSerde {J : Json} := {
  raw_from_slice : list Z → result Str RawYtDlpMetadata;
  serde_metadata :: Serde YtDlpMetadata;
}.

(** ** URLs *)

Section Policy.
Context {J : Json} {Js : JsonShape} {U : UrlSyntax} {Y : YtDlpSerde}.

Definition default_port (scheme : Str) : Z := if decide (scheme = lit "http") then 80 else 443.

(** The parsed URL, and its text. *)
Definition validated (value : Str) : result DownloadError UrlInfo :=
  u ← ok_or (url_info value) (dl_terminal "invalid_source_url" "source URL could not be parsed");
  _ ← ensure (url_is_http (ui_scheme u))
        (dl_terminal "unsupported_scheme" "yt-dlp source URL must use http or https");
  _ ← ensure (is_empty (ui_username u) && bool_decide (ui_password u = None))
        (dl_terminal "source_credentials_forbidden" "source URL must not contain embedded credentials");
  _ ← ensure (match ui_port u with Some port => port =? default_port (ui_scheme u) | None => true end)
        (dl_terminal "source_port_not_allowed" "yt-dlp page URLs must use the default HTTP or HTTPS port");
  match ui_host u with
  | None => Err (dl_terminal "missing_source_host" "source URL has no host")
  | Some (Domain _) => Ok u
  | Some _ => Err (dl_terminal "source_host_not_allowed" "yt-dlp page URL host must be a configured DNS hostname")
  end.
Definition validate_source_url (value : Str) : result DownloadError Str :=
  u ← validated value; Ok (url_text u).

Definition family_of (u : UrlInfo) : option YtDlpProviderFamily :=
  host ← ui_host u; provider_family_for_host (host_text host).
Definition provider_family_for_source_url (value : Str)
    : result DownloadError (option YtDlpProviderFamily) :=
  u ← validated value; Ok (family_of u).
Definition provider_family_for_canonical_url (value : Str)
    : result DownloadError (option YtDlpProviderFamily) :=
  u ← validated value; Ok (family_of u).
Definition is_tco_url (value : Str) : result DownloadError bool :=
  u ← validated value;
  Ok (match ui_host u with Some host => eq_ignore_ascii_case (host_text host) (lit "t.co") | None => false end).

Definition path_segments (u : UrlInfo) : list Str :=
  filter (λ s, is_empty s = false) (split_at_char 47 (ui_path u) []).
Definition public_video_path (f : YtDlpProviderFamily) (segments : list Str) : bool :=
  match f, segments with
  | Youtube, _ => true
  | Tiktok, [user; video; id] =>
      starts_with (lit "@") user && eq_ignore_ascii_case video (lit "video") && negb (is_empty id)
  | Instagram, [surface; id] =>
      bool_decide (to_ascii_lowercase surface ∈ lit <$> ["reel"; "p"]%string) && negb (is_empty id)
  | FamilyX, [user; status; id] =>
      eq_ignore_ascii_case status (lit "status") && negb (is_empty user) && negb (is_empty id)
  | _, _ => false
  end.
Definition validate_public_video_path (f : YtDlpProviderFamily) (canonical_url : Str)
    : result DownloadError unit :=
  u ← ok_or (url_info canonical_url)
        (dl_terminal "invalid_source_url" "yt-dlp canonical URL could not be parsed");
  ensure (public_video_path f (path_segments u))
    (dl_terminal "ytdlp_unsupported_surface"
       "only a single public video post/reel URL is supported for this provider").

Definition validate_tco_redirect_target (current : UrlInfo) (location : Str)
    : result DownloadError UrlInfo :=
  let refused := dl_terminal "source_redirect_not_allowed" in
  _ ← ensure (negb ((MAX_TCO_LOCATION_BYTES <? byte_len location) || existsb is_control location))
        (refused "the t.co redirect Location header exceeded its safety limit");
  target ← ok_or (url_join current location)
             (refused "the t.co redirect Location header was not a valid URL");
  target ← map_err (λ _, refused "the t.co redirect target failed URL validation")
             (validated (url_text target));
  _ ← ensure (bool_decide (family_of target = Some FamilyX))
        (refused "the t.co redirect target is not an X/Twitter host");
  Ok target.

(** The provider of the submitted and of the canonical URL, which must agree. *)
Definition agreed_family (submitted canonical : option YtDlpProviderFamily) (is_short_link : bool)
    : result DownloadError YtDlpProviderFamily :=
  let mismatch message := Err (dl_terminal "source_provider_mismatch" message) in
  match submitted, canonical, is_short_link with
  | Some submitted, Some canonical, false =>
      if decide (submitted = canonical) then Ok submitted
      else mismatch "yt-dlp canonical URL belongs to a different provider family"%string
  | None, Some FamilyX, true => Ok FamilyX
  | None, _, true => mismatch "t.co short links must resolve to an X/Twitter video post"%string
  | None, _, false =>
      Err (dl_terminal "source_provider_not_supported"
             "yt-dlp returned a URL outside the supported provider families")
  | Some _, None, false =>
      mismatch "yt-dlp canonical URL is not a supported host for the submitted provider"%string
  | Some _, _, true => mismatch "short-link handling is only available for t.co submissions"%string
  end.

Definition validate_reported (f : YtDlpProviderFamily) (canonical_url : Str) (m : YtDlpMetadata)
    : result DownloadError unit :=
  _ ← match ym_webpage_url m with
      | None => Ok tt
      | Some webpage_url =>
          webpage_url ← validate_source_url webpage_url;
          canonical_url ← validate_source_url canonical_url;
          ensure (bool_decide (webpage_url = canonical_url))
            (dl_terminal "source_provider_mismatch"
               "yt-dlp metadata canonical URL disagrees with the inspected URL")
      end;
  extractor ← ok_or (ym_extractor m)
    (dl_terminal "source_extractor_not_allowed" "yt-dlp did not report a provider extractor identity");
  _ ← ensure (extractor_matches_provider f extractor)
        (dl_terminal "source_extractor_not_allowed"
           "yt-dlp extractor identity does not match the submitted provider family");
  _ ← ensure (match ym_platform m with
              | Some platform => bool_decide (platform = family_as_str f)
              | None => true
              end)
        (dl_terminal "source_provider_mismatch"
           "yt-dlp metadata provider identity does not match its canonical URL");
  ensure (negb (video_only f && negb (bool_decide (metadata_media_kind m = SourceMediaKind.Video))))
    (dl_terminal "source_media_kind_not_supported" "yt-dlp metadata describes a non-video result").

Definition validate_provider_metadata (source_url canonical_url : Str) (media_kind : SourceMediaKind.t)
    (metadata : option YtDlpMetadata) : result DownloadError YtDlpProviderFamily :=
  submitted_family ← provider_family_for_source_url source_url;
  canonical_family ← provider_family_for_canonical_url canonical_url;
  is_short_link ← is_tco_url source_url;
  family ← agreed_family submitted_family canonical_family is_short_link;
  _ ← ensure (negb (video_only family && negb (bool_decide (media_kind = SourceMediaKind.Video))))
        (dl_terminal "source_media_kind_not_supported"
           "the submitted provider URL did not resolve to a video");
  _ ← validate_public_video_path family canonical_url;
  _ ← match metadata with Some m => validate_reported family canonical_url m | None => Ok tt end;
  Ok family.

Definition validate_provider_inspection (i : SourceInspection)
    : result DownloadError YtDlpProviderFamily :=
  let canonical_url := default (si_source_url i) (si_resolved_url i) in
  metadata ← match as_object (si_metadata i) with
             | Some object =>
                 if decide (object = ∅) then Ok None
                 else m ← map_err (λ e, DlTerminal (lit "ytdlp_metadata")
                                     (lit "yt-dlp inspection metadata is invalid: " ++ e))
                            (from_value (si_metadata i));
                      Ok (Some m)
             | None => Ok None
             end;
  validate_provider_metadata (si_source_url i) canonical_url (si_media_kind i) metadata.

(** ** The metadata of one video *)

Definition single_video (raw : RawYtDlpMetadata) : result DownloadError unit :=
  _ ← ensure (negb (match ry_entries raw with Some entries => negb (is_null entries) | None => false end
                    || above_one (ry_playlist_count raw) || above_one (ry_n_entries raw)
                    || text_is (ry_item_type raw) ["playlist"; "multi_video"]%string))
        (dl_terminal "ytdlp_unsupported_surface"
           "yt-dlp returned a playlist or multiple media entries; submit one public video URL");
  ensure (negb (bool_decide (ry_is_live raw = Some true)
                || text_is (ry_live_status raw) ["is_live"; "post_live"; "is_upcoming"]%string))
    (dl_terminal "ytdlp_unsupported_surface" "live streams and live-event pages are not supported").

Definition parse_metadata (input : list Z) (source_url : Str) : result DownloadError YtDlpMetadata :=
  raw ← map_err (λ e, DlTerminal (lit "ytdlp_invalid_output") (lit "yt-dlp returned invalid JSON: " ++ e))
          (raw_from_slice input);
  _ ← single_video raw;
  id ← bounded_metadata_string (ry_id raw) MAX_YTDLP_METADATA_ID_BYTES "content id";
  title ← bounded_metadata_string (ry_title raw) MAX_YTDLP_METADATA_TEXT_BYTES "title";
  webpage_url ← bounded_metadata_string (ry_webpage_url raw) MAX_YTDLP_METADATA_URL_BYTES "canonical URL";
  original_url ← bounded_metadata_string (ry_original_url raw) MAX_YTDLP_METADATA_URL_BYTES "original URL";
  extractor_key ← bounded_metadata_string (ry_extractor_key raw) MAX_YTDLP_METADATA_EXTRACTOR_BYTES "extractor";
  extractor ← bounded_metadata_string (ry_extractor raw) MAX_YTDLP_METADATA_EXTRACTOR_BYTES "extractor";
  ext ← bounded_metadata_string (ry_ext raw) MAX_YTDLP_METADATA_EXTENSION_BYTES "extension";
  mime_type ← bounded_metadata_string (ry_mime_type raw) MAX_YTDLP_METADATA_MIME_BYTES "MIME type";
  format_id ← bounded_metadata_string (ry_format_id raw) MAX_YTDLP_METADATA_ID_BYTES "format id";
  format ← bounded_metadata_string (ry_format raw) MAX_YTDLP_METADATA_FORMAT_BYTES "format";
  thumbnail ← bounded_metadata_string (ry_thumbnail raw) MAX_YTDLP_METADATA_URL_BYTES "thumbnail URL";
  uploader ← bounded_metadata_string (ry_uploader raw) MAX_YTDLP_METADATA_TEXT_BYTES "uploader";
  vcodec ← bounded_metadata_string (ry_vcodec raw) MAX_YTDLP_METADATA_ID_BYTES "video codec";
  acodec ← bounded_metadata_string (ry_acodec raw) MAX_YTDLP_METADATA_ID_BYTES "audio codec";
  Ok {| ym_id := id; ym_title := title;
        ym_webpage_url := or_else webpage_url (or_else original_url (Some source_url));
        ym_extractor := or_else extractor_key extractor;
        ym_platform := None;
        ym_duration_ms := ry_duration raw ≫= duration_to_ms;
        ym_filesize_bytes := or_else (ry_filesize raw) (ry_filesize_approx raw);
        ym_width := ry_width raw; ym_height := ry_height raw;
        ym_ext := ext;
        ym_mime_type := or_else mime_type (mime_type_for_ext ext);
        ym_vcodec := vcodec; ym_acodec := acodec; ym_format_id := format_id; ym_format := format;
        ym_thumbnail := thumbnail; ym_uploader := uploader |}.
End Policy.

Definition DEFAULT_COMMAND_PATH : Str := lit "/usr/local/bin:/usr/bin:/bin".
Definition TCO_PREFLIGHT_USER_AGENT : Str := lit "sooqa-tco-preflight/1".

Section Adapter.
Context {J : Json} {Js : JsonShape} {U : UrlSyntax} {Y : YtDlpSerde} {R : HostResolver}.
Context {Di : Display io_error} {Dp : Display PublishError} {Dc : Display CommandError}.
Context {Da : Display IpAddr} {Df : Display YtDlpConfigError}.

(** ** [t.co] *)

Definition tco_request_error (e : RequestError) : DownloadError :=
  if re_timeout e || re_connect e
  then dl_retryable "tco_resolution" "the t.co redirect preflight could not reach its target"
  else dl_terminal "tco_resolution" "the t.co redirect preflight request failed".
Definition tco_location (r : Response) : result DownloadError Str :=
  match rs_location r with
  | None => Err (dl_terminal "source_redirect_not_allowed"
                   "the t.co redirect response did not include a Location header")
  | Some None => Err (dl_terminal "source_redirect_not_allowed"
                        "the t.co redirect Location header was not valid UTF-8")
  | Some (Some location) => Ok location
  end.

Fixpoint tco_from (timeout : Z) (budget : nat) (current : UrlInfo) : download_proc Str :=
  target ←? resolve_target current;
  client ←? client_for target timeout;
  response ←? mapped tco_request_error
    (ask (Send client (rt_url target)
            [(lit "range", lit "bytes=0-0"); (lit "user-agent", TCO_PREFLIGHT_USER_AGENT)]));
  if is_redirection (rs_status response) then
    match budget with
    | O => Done (Err (dl_terminal "redirect_limit" "the t.co redirect chain exceeded the configured limit"))
    | S budget =>
        location ←? Done (tco_location response);
        next ←? Done (validate_tco_redirect_target current location);
        tco_from timeout budget next
    end
  else if decide (family_of current = Some FamilyX) then
    _ ←? Done (validate_public_video_path FamilyX (url_text current));
    Done (Ok (url_text current))
  else Done (Err (dl_terminal "source_redirect_not_allowed"
                    "the t.co URL did not resolve to an X/Twitter page")).

Definition resolve_tco_target_with_resolver (source_url : Str) (timeout max_redirects : Z)
    : download_proc Str :=
  current ←? Done (validated source_url);
  is_tco ←? Done (is_tco_url (url_text current));
  _ ←? check is_tco (dl_terminal "source_redirect_not_allowed" "the t.co preflight requires a t.co source URL");
  tco_from timeout (Z.to_nat max_redirects) current.

(** ** Running yt-dlp *)

Section Downloader.
Context (config : YtDlpConfig) (inspection_limits : DownloadLimits).

Definition resolve_tco_target (source_url : Str) : download_proc Str :=
  resolve_tco_target_with_resolver source_url (dl_timeout inspection_limits)
    (dl_max_redirects inspection_limits `min` MAX_TCO_REDIRECTS).

Definition security_args (family : option YtDlpProviderFamily) : list Str :=
  [lit "--ignore-config"; lit "--no-plugin-dirs"; lit "--plugin-dirs"; YTDLP_PLUGIN_DIRECTORY;
   lit "--no-remote-components"; lit "--no-cookies"; lit "--no-cookies-from-browser";
   lit "--js-runtimes"; lit "deno:" ++ yc_deno_path config]
  ++ (if decide (family = Some Youtube)
      then [lit "--extractor-args"; lit "youtubepot-bgutilhttp:base_url=" ++ yc_pot_provider_url config]
      else []).

Definition zero_timeout : DownloadError :=
  dl_terminal "invalid_download_limits" "download timeout must be greater than zero".
Definition capture_limit (limit : Z) : DownloadError :=
  DlTerminal (lit "ytdlp_output_limit")
    (lit "yt-dlp output exceeded the " ++ show limit ++ lit "-byte capture limit").
(** The environment of every yt-dlp process. *)
Definition ytdlp_command (arguments : list Str) : ExternalCommand :=
  command_env (lit "PATH") DEFAULT_COMMAND_PATH
    (clear_environment (args arguments (command_new (yc_executable config)))).

Definition run_with_output_limit (arguments : list Str) (timeout : Z) (source_url : Str) (limit : Z)
    : download_proc ExternalCommandOutput :=
  _ ←? check (negb (timeout =? 0)) zero_timeout;
  let command := command_max_output_bytes limit (command_timeout timeout (ytdlp_command arguments)) in
  output ←? mapped (λ e, map_command_error e "ytdlp_output_limit") (ask (Files (RunCommand command)));
  _ ←? check (negb (eo_stdout_truncated output || eo_stderr_truncated output)) (capture_limit limit);
  _ ←? check (eo_success output) (map_inspection_failure output source_url);
  Done (Ok output).

Definition run_sequence (arguments : list Str) (timeout : Z) (source_url directory : Str) (max_bytes : Z)
    (family : option YtDlpProviderFamily) : download_proc ExternalCommandOutput :=
  _ ←? check (negb (timeout =? 0)) zero_timeout;
  let command := command_max_output_bytes (yc_max_output_bytes config)
    (command_timeout timeout (command_current_dir directory (ytdlp_command arguments))) in
  output ←? mapped (λ e, map_command_error e "source_too_large")
              (ask (RunSequence command directory max_bytes));
  _ ←? check (negb (eo_stdout_truncated output || eo_stderr_truncated output))
         (capture_limit (yc_max_output_bytes config));
  _ ←? check (eo_success output) (map_download_failure output source_url family);
  Done (Ok output).

(** ** Inspection *)

Definition inspect_args (family : option YtDlpProviderFamily) (extraction_url : Str) : list Str :=
  (lit <$> ["--dump-single-json"; "--skip-download"; "--no-playlist"; "--no-warnings"; "--no-progress"]%string)
  ++ security_args family
  ++ [lit "--format"; yc_format_selection config; lit "--"; extraction_url].

(** The checks on what yt-dlp reported, and the inspection. *)
Definition inspected (source : SourceInput) (submitted_url extraction_url : Str)
    (family : option YtDlpProviderFamily) (output : ExternalCommandOutput)
    : result DownloadError SourceInspection :=
  m ← parse_metadata (eo_stdout output) extraction_url;
  _ ← ensure (match ym_filesize_bytes m with
              | Some bytes => bytes <=? dl_max_bytes inspection_limits
              | None => true
              end)
        (dl_terminal "source_too_large" "yt-dlp metadata exceeds the configured byte limit");
  let media_kind := metadata_media_kind m in
  resolved_url ← match ym_webpage_url m with
                 | Some url => validate_source_url url
                 | None => Ok extraction_url
                 end;
  known ← (if decide (is_Some family) then Ok true
           else is_tco ← is_tco_url submitted_url;
                if (is_tco : bool) then Ok true
                else canonical ← provider_family_for_canonical_url resolved_url;
                     Ok (bool_decide (is_Some canonical)));
  m ← (if (known : bool)
       then f ← validate_provider_metadata submitted_url resolved_url media_kind (Some m);
            Ok (m <| ym_platform := Some (family_as_str f) |>)
       else Ok m);
  Ok {| si_adapter := lit "yt_dlp"; si_source_url := in_source_url source;
        si_resolved_url := Some resolved_url; si_media_kind := media_kind;
        si_mime_type := ym_mime_type m; si_content_length_bytes := ym_filesize_bytes m;
        si_title := ym_title m; si_metadata := to_value m |}.

Definition ytdlp_inspect (source : SourceInput) : download_proc SourceInspection :=
  _ ←? Done (ytdlp_validate_limits inspection_limits (dl_timeout inspection_limits));
  submitted_url ←? Done (validate_source_url (in_source_url source));
  is_tco ←? Done (is_tco_url submitted_url);
  extraction_url ←? (if (is_tco : bool) then resolve_tco_target submitted_url else Done (Ok submitted_url));
  family ←? Done (provider_family_for_source_url submitted_url);
  canonical ←? Done (if decide (family = Some FamilyX) then Ok family
                     else provider_family_for_canonical_url extraction_url);
  _ ←? Done (if decide (canonical = Some FamilyX) then validate_public_video_path FamilyX extraction_url
             else Ok tt);
  output ←? run_with_output_limit (inspect_args family extraction_url) (dl_timeout inspection_limits)
              extraction_url (yc_metadata_max_output_bytes config);
  Done (inspected source submitted_url extraction_url family output).

(** ** Download *)

Definition reserve_directory (path : Str) : http io_error unit :=
  match path_parent path with
  | None => Done (Err (IoInvalidInput (lit "temporary directory has no parent directory")))
  | Some parent =>
      t ←? ask (Files (SymlinkMetadata parent));
      _ ←? check (real_directory t)
             (IoInvalidInput (lit "temporary directory parent is not a real directory"));
      _ ←? ask (Files (CreateDir path));
      _ ← ask (Files (Arm path));
      Done (Ok tt)
  end.
Definition drop_directory (path : Str) : @proc http_interface unit :=
  _ ← ask (Files (RemoveDirAll path)); ask (Files (Disarm path)).

Fixpoint regular_entries (entries : list (result io_error Str)) : http io_error (list Str) :=
  match entries with
  | [] => Done (Ok [])
  | Err e :: _ => Done (Err e)
  | Ok path :: entries =>
      t ←? ask (Files (SymlinkMetadata path));
      _ ←? check (negb (ft_is_symlink t || negb (ft_is_file t)))
             (IoOther (lit "yt-dlp attempt contains a non-regular entry: " ++ path));
      files ←? regular_entries entries;
      Done (Ok (path :: files))
  end.
Definition single_regular_file (directory : Str) : http io_error Str :=
  entries ←? ask (ReadDir directory);
  files ←? regular_entries entries;
  Done (match (files : list Str) with
        | [path] => Ok path
        | [] => Err IoNotFound
        | _ => Err (IoOther (lit "yt-dlp attempt contains multiple final media files"))
        end).

Definition download_args (family : option YtDlpProviderFamily) (limits : DownloadLimits)
    (format_selection source_url : Str) : list Str :=
  (lit <$> ["--no-playlist"; "--no-warnings"; "--no-progress"; "--no-part"; "--force-overwrites";
            "--no-cache-dir"]%string)
  ++ security_args family
  ++ [lit "--paths"; lit "home:."; lit "--paths"; lit "temp:."; lit "--max-filesize";
      show (dl_max_bytes limits); lit "--format"; format_selection; lit "--output";
      lit "final.%(ext)s"; lit "--"; source_url].

(** Inside the attempt directory. *)
Definition run_attempt (attempt destination : Str) (limits : DownloadLimits) (attempt_max_bytes : Z)
    (format_selection source_url : Str) (family : option YtDlpProviderFamily) : download_proc Z :=
  _ ←? run_sequence (download_args family limits format_selection source_url) (dl_timeout limits)
         source_url attempt attempt_max_bytes family;
  final_path ←? mapped (destination_io (E := io_error)
                   "yt-dlp attempt did not produce exactly one final media file: ")
                  (single_regular_file attempt);
  m ←? mapped (destination_io (E := io_error) "could not inspect yt-dlp final media file: ")
         (ask (Files (Metadata final_path)));
  _ ←? check (ft_len m <=? dl_max_bytes limits)
         (dl_terminal "source_too_large" "downloaded source exceeds the configured byte limit");
  published ←? mapped (destination_io (E := PublishError) "could not publish yt-dlp output: ")
                 (on_files (publish_or_reuse final_path destination));
  match published with
  | Published => Done (Ok (ft_len m))
  | Reused =>
      r ←? mapped (destination_io (E := io_error) "could not inspect reused yt-dlp output: ")
             (ask (Files (Metadata destination)));
      Done (Ok (ft_len r))
  end.

Definition attempt_directory (destination : Str) (u : Uuid) : Str :=
  with_file_name destination (lit ".sooqa-ytdlp-" ++ uuid_to_string u).

Definition download_with_format (inspection : SourceInspection) (destination : Str)
    (limits : DownloadLimits) (attempt_max_bytes : Z) (format_selection : Str)
    (family : option YtDlpProviderFamily) : download_proc DownloadedSource :=
  source_url ←? Done (validate_source_url (default (si_source_url inspection) (si_resolved_url inspection)));
  _ ←? Done (map_err (λ e, DlTerminal (lit "ytdlp_format") (display e))
               (validate_format_selection format_selection));
  id ← ask (Files NewUuid);
  let attempt := attempt_directory destination id in
  _ ←? mapped (destination_io (E := io_error) "could not reserve yt-dlp attempt directory: ")
         (reserve_directory attempt);
  r ← run_attempt attempt destination limits attempt_max_bytes format_selection source_url family;
  _ ← drop_directory attempt;
  Done (bytes ← (r : result DownloadError Z);
        Ok {| ds_path := destination; ds_bytes := bytes; ds_mime_type := si_mime_type inspection;
              ds_selected_format := Some format_selection |}).

(** [Result::ok] and [flatten]. *)
Definition found {A} (r : result DownloadError (option A)) : option A :=
  match r with Ok a => a | Err _ => None end.

Definition attempts_exhausted (e : DownloadError) : DownloadError :=
  if is_media_data_forbidden e
  then DlRetryable (lit "ytdlp_media_forbidden")
         (lit "high-quality and progressive yt-dlp attempts were rejected: " ++ display e)
  else e.

Definition ytdlp_download (inspection : SourceInspection) (destination : Str) (limits : DownloadLimits)
    : download_proc DownloadedSource :=
  _ ←? Done (ytdlp_validate_limits limits (dl_timeout limits));
  source_url ←? Done (validate_source_url (default (si_source_url inspection) (si_resolved_url inspection)));
  let family := or_else (found (provider_family_for_source_url (si_source_url inspection)))
                        (found (provider_family_for_canonical_url source_url)) in
  _ ←? Done (if decide (family = Some FamilyX) then validate_public_video_path FamilyX source_url else Ok tt);
  let attempt_max_bytes := dl_max_bytes limits * YTDLP_ATTEMPT_MAX_BYTES_MULTIPLIER in
  _ ←? check (attempt_max_bytes <=? u64_max)
         (dl_terminal "invalid_download_limits" "yt-dlp aggregate attempt byte limit overflowed");
  let attempt format := download_with_format inspection destination limits attempt_max_bytes format family in
  first ← attempt (yc_format_selection config);
  match first with
  | Ok downloaded => Done (Ok downloaded)
  | Err e =>
      if is_media_data_forbidden e then
        second ← attempt (yc_format_selection config);
        match second with
        | Ok downloaded => Done (Ok downloaded)
        | Err e => if is_media_data_forbidden e
                   then mapped attempts_exhausted (attempt YTDLP_PROGRESSIVE_FALLBACK_FORMAT)
                   else Done (Err e)
        end
      else Done (Err e)
  end.

Definition YtDlpDownloader : SourceDownloader :=
  {| sd_inspect := ytdlp_inspect; sd_download := ytdlp_download |}.
End Downloader.

(** ** The router *)

Record SourceDownloaderRouter := {
  sr_direct_http : SourceDownloader;
  sr_ytdlp : option SourceDownloader;
  sr_ytdlp_allowed_hosts : list Str;
}.
Definition router_new (direct ytdlp : SourceDownloader) (allowed_hosts : list Str) : SourceDownloaderRouter :=
  {| sr_direct_http := direct; sr_ytdlp := Some ytdlp; sr_ytdlp_allowed_hosts := allowed_hosts |}.
Definition direct_only (direct : SourceDownloader) : SourceDownloaderRouter :=
  {| sr_direct_http := direct; sr_ytdlp := None; sr_ytdlp_allowed_hosts := [] |}.

(** A provider host that is, or is below, an allowed host of the same family; or [t.co]. *)
Definition allowed_host (host : Str) (allowed_hosts : list Str) : bool :=
  match provider_family_for_host host with
  | Some family =>
      existsb (λ allowed, bool_decide (provider_family_for_host allowed = Some family)
                          && (bool_decide (host = allowed) || ends_with (lit "." ++ allowed) host))
        allowed_hosts
  | None =>
      bool_decide (host = lit "t.co")
      && existsb (λ allowed, bool_decide (allowed = lit "t.co")) allowed_hosts
      && existsb (λ allowed, bool_decide (provider_family_for_host allowed = Some FamilyX)) allowed_hosts
  end.

Definition is_allowed_ytdlp_source (source_url : Str) (allowed_hosts : list Str)
    : result DownloadError bool :=
  u ← ok_or (url_info source_url) (dl_terminal "invalid_source_url" "source URL could not be parsed");
  _ ← ensure (url_is_http (ui_scheme u)) (dl_terminal "unsupported_scheme" "source URL must use http or https");
  _ ← ensure (is_empty (ui_username u) && bool_decide (ui_password u = None))
        (dl_terminal "source_credentials_forbidden" "source URL must not contain embedded credentials");
  host ← ok_or (ui_host u) (dl_terminal "missing_source_host" "source URL has no host");
  _ ← ensure (match ui_port u with Some port => port =? default_port (ui_scheme u) | None => true end)
        (dl_terminal "source_port_not_allowed" "yt-dlp page URLs must use the default HTTP or HTTPS port");
  let text := strip_dot (host_text host) in
  Ok (if is_empty text || ends_with (lit ".") text then false
      else match host with
           | Domain _ => allowed_host (to_ascii_lowercase text) allowed_hosts
           | _ => false
           end).

Definition host_not_allowed : DownloadError :=
  dl_terminal "source_host_not_allowed" "page URL host is not enabled for yt-dlp".
Definition validate_ytdlp_inspection (i : SourceInspection) (allowed_hosts : list Str)
    : result DownloadError unit :=
  submitted ← is_allowed_ytdlp_source (si_source_url i) allowed_hosts;
  _ ← ensure submitted host_not_allowed;
  resolved ← match si_resolved_url i with
             | Some url => is_allowed_ytdlp_source url allowed_hosts
             | None => Ok true
             end;
  _ ← ensure resolved host_not_allowed;
  _ ← validate_provider_inspection i;
  Ok tt.

Definition should_try_ytdlp (e : DownloadError) : bool :=
  match e with DlTerminal class _ => bool_decide (class = lit "upstream_http_status") | _ => false end.

Definition inspect_with_ytdlp_policy (r : SourceDownloaderRouter) (source : SourceInput)
    : download_proc SourceInspection :=
  allowed ←? Done (is_allowed_ytdlp_source (in_source_url source) (sr_ytdlp_allowed_hosts r));
  _ ←? check allowed host_not_allowed;
  match sr_ytdlp r with
  | None => Done (Err (dl_terminal "unsupported_source" "direct HTTP did not recognize a supported media response"))
  | Some ytdlp =>
      inspection ←? sd_inspect ytdlp source;
      _ ←? Done (validate_ytdlp_inspection inspection (sr_ytdlp_allowed_hosts r));
      Done (Ok inspection)
  end.

Definition router_inspect (r : SourceDownloaderRouter) (source : SourceInput)
    : download_proc SourceInspection :=
  direct ← sd_inspect (sr_direct_http r) source;
  match direct with
  | Ok inspection => if decide (si_media_kind inspection = SourceMediaKind.Unknown)
                     then inspect_with_ytdlp_policy r source
                     else Done (Ok inspection)
  | Err e => if should_try_ytdlp e then inspect_with_ytdlp_policy r source else Done (Err e)
  end.

(** [adapter] is shown with [{:?}]. *)
Definition router_download (quote : Str → Str) (r : SourceDownloaderRouter) (inspection : SourceInspection)
    (destination : Str) (limits : DownloadLimits) : download_proc DownloadedSource :=
  let adapter := si_adapter inspection in
  if decide (adapter = lit "direct_http")
  then sd_download (sr_direct_http r) inspection destination limits
  else if decide (adapter = lit "yt_dlp")
  then match sr_ytdlp r with
       | Some ytdlp =>
           _ ←? Done (validate_ytdlp_inspection inspection (sr_ytdlp_allowed_hosts r));
           sd_download ytdlp inspection destination limits
       | None => Done (Err (dl_terminal "source_adapter_disabled"
                              "yt-dlp source adapter is not enabled in this worker"))
       end
  else Done (Err (DlTerminal (lit "unknown_source_adapter")
                    (lit "source inspection selected unsupported adapter " ++ quote adapter))).

(** The worker's downloader: direct HTTP with the mirrors, and yt-dlp when hosts are
    allowed ([apps/worker/src/main.rs]). *)
Definition worker_router (config : YtDlpConfig) (limits : DownloadLimits) (allowed_hosts : list Str)
    : SourceDownloaderRouter :=
  let direct := TwoChMirrorDownloader (DirectHttpDownloader limits) in
  match allowed_hosts with
  | [] => direct_only direct
  | _ => router_new direct (YtDlpDownloader config limits) allowed_hosts
  end.
End Adapter.
