(* ===== verification/DownloadSpec.v ===== *)
(** * DownloadSpec: where a download may connect, and what it may run

    The rules every call of a source download obeys, whatever the network, the resolver and
    yt-dlp answer: a request goes to a public address, yt-dlp is run on a page of an enabled
    provider and with its safety options, no more than the byte limit is written, and every
    temporary name has a destructor. *)

From S2P Require Import Prelude Text Enums Jobs Envelope Proc Preview Normalize.
From S2P Require Import Net Execute Download YtDlp.

(** ** Connections *)

(** The addresses a request of [c] for [u] may connect to.  A client that follows redirects
    or uses a proxy may go anywhere, and so may a name that is not pinned. *)
Inductive may_connect (c : Client) (u : UrlInfo) : IpAddr → Prop :=
| connect_redirected ip : cl_follow_redirects c = true → may_connect c u ip
| connect_proxied ip : cl_proxy c = true → may_connect c u ip
| connect_v4 a : ui_host u = Some (HostV4 a) → may_connect c u (V4 a)
| connect_v6 a : ui_host u = Some (HostV6 a) → may_connect c u (V6 a)
| connect_pinned d a : ui_host u = Some (Domain d) → cl_resolve c = Some (d, a) → may_connect c u (sa_ip a)
| connect_dns d ip : ui_host u = Some (Domain d) → (∀ a, cl_resolve c ≠ Some (d, a)) → may_connect c u ip.

Definition public_request (c : Client) (u : UrlInfo) : Prop :=
  url_is_http (ui_scheme u) = true ∧ ui_username u = [] ∧ ui_password u = None
  ∧ ∀ ip, may_connect c u ip → is_blocked_ip ip = false.

(** ** Runs of yt-dlp *)

Section Rules.
Context {U : UrlSyntax} (allowed : list Str) (max_bytes : Z).

(** A page URL: a domain on the default port of HTTP(S), without credentials. *)
Definition page (u : UrlInfo) : Prop :=
  url_is_http (ui_scheme u) = true ∧ ui_username u = [] ∧ ui_password u = None
  ∧ (∀ port, ui_port u = Some port → port = default_port (ui_scheme u))
  ∧ ∃ d, ui_host u = Some (Domain d).

(** A page of a provider one of whose hosts is allowed. *)
Definition enabled (u : UrlInfo) : Prop :=
  ∃ f a, family_of u = Some f ∧ a ∈ allowed ∧ provider_family_for_host a = Some f.

(** The fully qualified name of the short-link service, which the preflight does not
    recognise. *)
Definition dotted_short_link (u : UrlInfo) : Prop :=
  ∃ d, ui_host u = Some (Domain d) ∧ to_ascii_lowercase d = lit "t.co." ∧ lit "t.co" ∈ allowed.

Definition permitted (u : UrlInfo) : Prop := page u ∧ (enabled u ∨ dotted_short_link u).

Definition safe_invocation (c : ExternalCommand) : Prop :=
  ec_clear_environment c = true ∧ ec_environment c = [(lit "PATH", DEFAULT_COMMAND_PATH)]
  ∧ ∃ options u, ec_args c = options ++ [lit "--"; url_text u] ∧ permitted u
      ∧ lit "--ignore-config" ∈ options ∧ lit "--no-cookies" ∈ options ∧ lit "--no-playlist" ∈ options
      ∧ lit "--no-remote-components" ∈ options ∧ lit "--no-plugin-dirs" ∈ options.

(** ** The rule of a call *)

Record net := {
  nt_requests : Z;                       (* requests sent *)
  nt_written : Z;                        (* bytes written *)
  nt_armed : gset Str;                   (* names made, or with a destructor *)
}.
#[global] Instance eta_net : Eta net := fun n => Build_net (nt_requests n) (nt_written n) (nt_armed n).

Definition file_step (c : file_call) (φ : net) : @answer file_interface c → net :=
  match c with
  | CreateNew p | CreateDir p => λ r, match r with Ok _ => φ <| nt_armed := {[p]} ∪ nt_armed φ |> | Err _ => φ end
  | Arm p => λ _, φ <| nt_armed := {[p]} ∪ nt_armed φ |>
  | Disarm p => λ _, φ <| nt_armed := nt_armed φ ∖ {[p]} |>
  | DropGuards => λ _, φ <| nt_armed := ∅ |>
  | _ => λ _, φ
  end.

Definition http_rule (c : http_call) (φ : net) (go : net → @answer http_interface c → Prop) : Prop :=
  match c return (net → @answer http_interface c → Prop) → Prop with
  | Files f => λ go,
      match f with RunCommand c => safe_invocation c | _ => True end ∧ ∀ x, go (file_step f φ x) x
  | Send c u _ => λ go, public_request c u ∧ ∀ x, go (φ <| nt_requests := nt_requests φ + 1 |>) x
  | WriteAll p b => λ go,
      p ∈ nt_armed φ ∧ nt_written φ + Z.of_nat (length b) <= max_bytes
      ∧ ∀ x, go (φ <| nt_written := nt_written φ + Z.of_nat (length b) |>) x
  | OpenFile p | Flush p => λ go, p ∈ nt_armed φ ∧ ∀ x, go φ x
  | RunSequence c dir bytes => λ go,
      safe_invocation c ∧ ec_current_dir c = Some dir ∧ dir ∈ nt_armed φ
      ∧ bytes <= YTDLP_ATTEMPT_MAX_BYTES_MULTIPLIER * max_bytes ∧ ∀ x, go φ x
  | LookupHost _ _ | BuildClient _ | ReadDir _ => λ go, ∀ x, go φ x
  end go.

#[global] Instance http_rule_mono : RuleMono http_rule.
Proof.
  intros c φ go go' Hgo. destruct c; simpl; try naive_solver.
Qed.
End Rules.

(** ** The file system *)

Section Wp.
Context {J : Json} {Js : JsonShape} {U : UrlSyntax} {Y : YtDlpSerde} {allowed : list Str} {max_bytes : Z}.
Context {Di : Display io_error} {Dp : Display PublishError} {Dc : Display CommandError}.
Context {Da : Display IpAddr} {Df : Display YtDlpConfigError}.
Abbreviation rule := (http_rule allowed max_bytes).
Abbreviation wp := (@wp http_interface net rule).
Abbreviation mono := (http_rule_mono allowed max_bytes).

(** A call that neither reserves nor runs anything. *)
Definition reads (c : file_call) : Prop :=
  match c with
  | CreateNew _ | CreateDir _ | Arm _ | Disarm _ | DropGuards | RunCommand _ => False
  | _ => True
  end.
Fixpoint quiet {A} (t : @proc file_interface A) : Prop :=
  match t with Done _ => True | Ask c k => reads c ∧ ∀ x, quiet (k x) end.

Lemma wp_quiet {A} (t : @proc file_interface A) φ : quiet t → wp φ (on_files t) (λ φ' _, φ' = φ).
Proof.
  induction t as [a|c k IH]; intros Hq; [done|]. destruct Hq as [Hc Hk].
  destruct c; try done; (split; [done|]; intros x; apply IH, Hk).
Qed.
Lemma quiet_bind {A B} (t : @proc file_interface A) (f : A → @proc file_interface B) :
  quiet t → (∀ a, quiet (f a)) → quiet (t ≫= f).
Proof.
  intros Ht Hf. induction t as [a|c k IH]; [apply Hf|]. destruct Ht as [Hc Hk].
  split; [done|]. intros x. apply IH, Hk.
Qed.
Lemma quiet_try {E A B} (t : @proc file_interface (result E A)) (f : A → @proc file_interface (result E B)) :
  quiet t → (∀ a, quiet (f a)) → quiet (try_bind t f).
Proof. intros Ht Hf. apply quiet_bind; [done|]. intros [a|e]; [apply Hf|done]. Qed.
Lemma quiet_mapped {E F A} (g : E → F) (t : @proc file_interface (result E A)) : quiet t → quiet (mapped g t).
Proof. intros Ht. by apply quiet_bind. Qed.
Lemma quiet_ask c : reads c → quiet (@ask file_interface c).
Proof. intros Hc. by split. Qed.
Lemma quiet_check {E} b (e : E) : quiet (@check file_interface _ b e).
Proof. done. Qed.
Ltac quiet_tac := repeat first
  [ exact I | apply quiet_check | apply quiet_ask | apply quiet_mapped | assumption
  | apply quiet_try; [|intros ?] | apply quiet_bind; [|intros ?] ].

Lemma quiet_require_regular p : quiet (require_regular p).
Proof. unfold require_regular. quiet_tac. Qed.

Lemma quiet_publish_or_reuse t d : quiet (publish_or_reuse t d).
Proof.
  pose proof quiet_require_regular as Hr. unfold publish_or_reuse.
  do 2 (case_match; [|done]). quiet_tac; try apply Hr.
  repeat case_match; try done. unfold compare_or_conflict. quiet_tac.
Qed.

(** ** Requests *)

(** From [φ] to [φ'] at most [k] requests were sent, and no file was touched. *)
Definition sent (k : Z) (φ φ' : net) : Prop :=
  nt_requests φ <= nt_requests φ' <= nt_requests φ + k ∧ nt_written φ' = nt_written φ
  ∧ nt_armed φ' = nt_armed φ.
Lemma sent_refl k φ : 0 <= k → sent k φ φ.
Proof. intros Hk. unfold sent. split_and!; first [lia|done]. Qed.
Lemma sent_trans k k' φ1 φ2 φ3 : sent k φ1 φ2 → sent k' φ2 φ3 → sent (k + k') φ1 φ3.
Proof. unfold sent. intros (? & ? & ?) (? & ? & ?). split_and!; first [lia|congruence]. Qed.
Lemma sent_weaken k k' φ φ' : sent k φ φ' → k <= k' → sent k' φ φ'.
Proof. unfold sent. intros (? & ? & ?) ?. split_and!; first [lia|done]. Qed.

(** The resolver's promise: it answers with the addresses that will be connected to. *)
Class FaithfulResolver (R : HostResolver) := faithful : ∀ host port φ,
  wp φ (resolve host port) (λ φ' r, φ' = φ ∧
    match r with Ok l => Forall (λ a, ra_connect_ip a = ra_ip a) l | Err _ => True end).

#[global] Instance system_resolver_faithful : FaithfulResolver SystemResolver.
Proof.
  intros host port φ x. destruct x as [l|e]; [|done]. split; [done|].
  destruct (length l =? 0)%nat; [done|]. apply Forall_fmap, Forall_true. done.
Qed.

Context {R : HostResolver} {F : FaithfulResolver R}.

Lemma wp_target_addresses u port φ :
  wp φ (target_addresses u port) (λ φ' r, φ' = φ ∧
    match r with
    | Ok (host, is_domain, l) =>
        match ui_host u with
        | Some (Domain d) => host = d ∧ is_domain = true ∧ Forall (λ a, ra_connect_ip a = ra_ip a) l
        | Some (HostV4 a) => is_domain = false ∧ l = [same (V4 a)]
        | Some (HostV6 a) => is_domain = false ∧ l = [same (V6 a)]
        | None => False
        end
    | Err _ => True
    end).
Proof.
  unfold target_addresses. destruct (ui_host u) as [[d|a|a]|]; [|done..].
  apply (wp_try (Mono := mono)). eapply (wp_mono (Mono := mono)); [|apply F].
  intros φ' [l|e] [-> Hl]; done.
Qed.

Lemma wp_resolve_target u timeout φ :
  wp φ (resolve_target u) (λ φ' r, φ' = φ ∧
    match r with Ok t => rt_url t = u ∧ public_request (client_of t timeout) u | Err _ => True end).
Proof.
  unfold resolve_target. apply (wp_try (Mono := mono)). cbn [Proc.wp].
  unfold validate_url. destruct (url_is_http (ui_scheme u)) eqn:Hs; [|done]. cbn [negb].
  destruct (is_empty (ui_username u)) eqn:Hu; [|done].
  destruct (ui_password u) eqn:Hp; [by rewrite bool_decide_true by eauto|].
  rewrite bool_decide_false by (by intros []). cbn [negb orb].
  case_bool_decide; [done|]. apply (wp_try (Mono := mono)). cbn [Proc.wp]. case_match eqn:Hport; [|done].
  apply (wp_try (Mono := mono)). eapply (wp_mono (Mono := mono)); [|apply wp_target_addresses].
  intros φ' [[[host is_domain] l]|e]; cbv beta iota; [|intros [-> _]; done]. intros [-> Hl].
  destruct l as [|first l]; [done|].
  destruct (find _ _) eqn:Hf; [done|]. split; [done|]. split; [done|].
  assert (is_blocked_ip (ra_ip first) = false) as Hb.
  { destruct (is_blocked_ip (ra_ip first)) eqn:Hb; [|done]. cbn in Hf. by rewrite Hb in Hf. }
  split; [done|]. split; [by destruct (ui_username u)|]. split; [done|].
  intros ip [? Hx|? Hx|ip4 Hx|ip6 Hx|d pin Hx Hr|d ? Hx Hr]; try done;
    rewrite Hx in Hl; [by destruct Hl as [_ [= -> _]]|by destruct Hl as [_ [= -> _]]|destruct Hl as (-> & -> & Hl)..].
  - cbn in Hr. simplify_eq. cbn. inversion Hl as [|?? Heq]. by rewrite Heq.
  - by edestruct Hr.
Qed.

Lemma wp_client_for t timeout φ :
  wp φ (client_for t timeout) (λ φ' r, φ' = φ ∧
    match r with Ok c => c = client_of t timeout | Err _ => True end).
Proof. intros [[]|e]; done. Qed.

(** One round: resolve, build a client, send. *)
Lemma wp_round {A} u timeout headers (g : RequestError → DownloadError)
    (k : Response → download_proc A) (Q : net → result DownloadError A → Prop) φ :
  (∀ φ' e, sent 1 φ φ' → Q φ' (Err e)) →
  (∀ φ' r, sent 1 φ φ' → wp φ' (k r) Q) →
  wp φ (target ←? resolve_target u; client ←? client_for target timeout;
        response ←? mapped g (ask (Send client (rt_url target) headers)); k response) Q.
Proof.
  intros HE Hk. apply (wp_try (Mono := mono)).
  eapply (wp_mono (Mono := mono)); [|apply (wp_resolve_target u timeout)].
  intros φ1 [t|e] [-> Ht]; cbv beta iota; [|by apply HE, sent_refl]. destruct Ht as [-> Ht].
  apply (wp_try (Mono := mono)). eapply (wp_mono (Mono := mono)); [|apply wp_client_for].
  intros φ1 [c|e] [-> Hc]; cbv beta iota; [|by apply HE, sent_refl]. subst c.
  split; [done|]. intros x.
  assert (sent 1 φ (φ <| nt_requests := nt_requests φ + 1 |>)) as Hsent
    by (unfold sent; simpl; split_and!; first [lia|done]).
  destruct x as [r|e]; [by apply Hk|by apply HE].
Qed.

Lemma wp_fetch_from limits prefix budget : ∀ u φ,
  wp φ (fetch_from limits prefix budget u) (λ φ' _, sent (Z.of_nat budget + 1) φ φ').
Proof.
  induction budget as [|budget IH]; intros u φ; cbn [fetch_from]; apply wp_round;
    try (intros φ' e Hs; eapply sent_weaken; [exact Hs|lia]); intros φ' r Hs.
  - case_match; (eapply sent_weaken; [exact Hs|lia]).
  - case_match; [|eapply sent_weaken; [exact Hs|lia]]. apply (wp_try (Mono := mono)). cbn [Proc.wp].
    destruct (redirect_target u r); [|eapply sent_weaken; [exact Hs|lia]].
    eapply (wp_mono (Mono := mono)); [|apply IH]. intros φ2 ? Hs2.
    eapply sent_weaken; [eapply sent_trans; [exact Hs|exact Hs2]|lia].
Qed.

Definition hops (limits : DownloadLimits) : Z := dl_max_redirects limits + 1.

Lemma wp_fetch u limits prefix φ : 0 <= dl_max_redirects limits →
  wp φ (fetch u limits prefix) (λ φ' _, sent (hops limits) φ φ').
Proof.
  intros Hl. unfold fetch. apply (wp_try (Mono := mono)). cbn [Proc.wp].
  destruct (validate_limits limits); [|apply sent_refl; unfold hops; lia].
  eapply (wp_mono (Mono := mono)); [|apply wp_fetch_from]. intros φ' ? Hs.
  eapply sent_weaken; [exact Hs|unfold hops; lia].
Qed.

(** ** Direct HTTP *)

Lemma wp_direct_inspect limits source φ : 0 <= dl_max_redirects limits →
  wp φ (direct_inspect limits source) (λ φ' _, sent (hops limits) φ φ').
Proof.
  intros Hl. unfold direct_inspect. apply (wp_try (Mono := mono)). cbn [Proc.wp].
  destruct (parse_url _); [|apply sent_refl; unfold hops; lia].
  apply (wp_try (Mono := mono)). eapply (wp_mono (Mono := mono)); [|by apply wp_fetch].
  intros φ' [r|e] Hs; cbv beta iota; [|exact Hs]. unfold check.
  apply (wp_try (Mono := mono)). cbn [Proc.wp]. case_match; [|exact Hs].
  apply (wp_try (Mono := mono)). cbn [Proc.wp]. destruct (first_chunk _); exact Hs.
Qed.

(** What a download may have done: sent at most [k] requests, written within the limit, and
    dropped every temporary name. *)
Definition downloaded (k : Z) (φ φ' : net) : Prop :=
  nt_requests φ <= nt_requests φ' <= nt_requests φ + k ∧ 0 <= nt_written φ' <= max_bytes ∧ nt_armed φ' = ∅.

(** Writing to the name [p], which has a destructor. *)
Definition writing (p : Str) (φ φ' : net) : Prop :=
  nt_requests φ' = nt_requests φ ∧ nt_armed φ' = nt_armed φ ∧ 0 <= nt_written φ' <= max_bytes.

Lemma wp_write_chunks p chunks : ∀ φ, p ∈ nt_armed φ → 0 <= nt_written φ <= max_bytes →
  wp φ (write_chunks p max_bytes (nt_written φ) chunks) (λ φ' r,
    writing p φ φ' ∧ match r with Ok n => nt_written φ' = n | Err _ => True end).
Proof.
  induction chunks as [|[chunk|e] chunks IH]; intros φ Hp Hm; cbn [write_chunks]; [done| |done].
  case_match; [done|]. destruct (Z.ltb_spec max_bytes (nt_written φ + Z.of_nat (length chunk))); [done|].
  split; [done|]. split; [lia|]. intros [[]|e]; cbv beta iota.
  - eapply (wp_mono (Mono := mono)); [|apply IH; simpl; [done|lia]]. intros φ' r [Hw Hr]. done.
  - split; [|done]. split; [done|]. split; [done|]. simpl. lia.
Qed.

Lemma wp_stream_to_file response p φ : p ∈ nt_armed φ → nt_written φ = 0 → 0 <= max_bytes →
  wp φ (stream_to_file response p max_bytes) (λ φ' r,
    writing p φ φ' ∧ match r with Ok n => nt_written φ' = n | Err _ => True end).
Proof.
  intros Hp H0 Hm. unfold stream_to_file. apply (wp_try (Mono := mono)).
  eapply (wp_mono (Mono := mono)); [|rewrite <-H0; apply wp_write_chunks; [done|lia]].
  intros φ1 [n|e] [Hw Hn]; cbv beta iota; [|done].
  split; [by rewrite (proj1 (proj2 Hw))|]. intros [[]|e]; done.
Qed.

Lemma wp_publish t d φ : wp φ (on_files (publish_or_reuse t d)) (λ φ' _, φ' = φ).
Proof. apply wp_quiet, quiet_publish_or_reuse. Qed.

Lemma wp_store_response response p d φ : p ∈ nt_armed φ → nt_written φ = 0 → 0 <= max_bytes →
  wp φ (store_response response p d max_bytes) (λ φ' _, writing p φ φ').
Proof.
  intros Hp H0 Hm. assert (writing p φ φ) as Hrefl by (split; [done|]; split; [done|lia]).
  split; [done|]. intros [[]|e]; cbv beta iota; [|done].
  apply (wp_try (Mono := mono)). eapply (wp_mono (Mono := mono)); [|by apply wp_stream_to_file].
  intros φ1 [n|e] [Hw Hn]; cbv beta iota; [|done].
  apply (wp_try (Mono := mono)), (wp_bind (Mono := mono)).
  eapply (wp_mono (Mono := mono)); [|apply wp_publish]. intros φ2 o ->.
  destruct o as [[]|e]; cbn [map_err Proc.wp]; [done| |done]. split; [done|]. by intros [m|e].
Qed.

Lemma armed_twice p φ :
  φ <| nt_armed := {[p]} ∪ nt_armed φ |>
    <| nt_armed := {[p]} ∪ nt_armed (φ <| nt_armed := {[p]} ∪ nt_armed φ |>) |>
  = φ <| nt_armed := {[p]} ∪ nt_armed φ |>.
Proof. destruct φ as [n w armed]. unfold set_field. simpl. f_equal. set_solver. Qed.

Lemma wp_reserve p φ :
  wp φ (on_files (reserve_artifact p)) (λ φ' r,
    φ' = match r with Ok _ => φ <| nt_armed := {[p]} ∪ nt_armed φ |> | Err _ => φ end).
Proof.
  unfold reserve_artifact. destruct (path_parent p); [|done]. split; [done|]. intros [t|e]; [|done].
  cbn -[real_directory lit]. destruct (real_directory t); [|done]. split; [done|]. intros [[]|e]; [|done].
  split; [done|]. intros []. apply armed_twice.
Qed.
Lemma wp_drop p φ :
  wp φ (on_files (drop_artifact p)) (λ φ' _, φ' = φ <| nt_armed := nt_armed φ ∖ {[p]} |>).
Proof. split; [done|]. intros x. split; [done|]. by intros []. Qed.
Lemma wp_remove p φ :
  wp φ (on_files (remove_artifact p)) (λ φ' _, φ' = φ <| nt_armed := nt_armed φ ∖ {[p]} |>).
Proof.
  split; [done|]. intros [[]|e]; (split; [done|]); [by intros []|]. intros x. split; [done|]. by intros [].
Qed.

Lemma wp_direct_download i d limits φ :
  0 <= dl_max_redirects limits → dl_max_bytes limits = max_bytes → 0 <= max_bytes →
  nt_written φ = 0 → nt_armed φ = ∅ →
  wp φ (direct_download i d limits) (λ φ' _, downloaded (hops limits) φ φ').
Proof.
  intros Hl Hb Hm H0 Ha. assert (downloaded (hops limits) φ φ) as Hrefl
    by (unfold downloaded, hops; split_and!; first [lia|done]).
  assert (∀ φ', sent (hops limits) φ φ' → downloaded (hops limits) φ φ') as Hsent
    by (intros φ' (? & ? & ?); unfold downloaded; split_and!; first [lia|congruence]).
  unfold direct_download. apply (wp_try (Mono := mono)). cbn [Proc.wp].
  destruct (validate_limits limits); [|done]. apply (wp_try (Mono := mono)). cbn [Proc.wp].
  destruct (parse_url _); [|done].
  apply (wp_try (Mono := mono)). eapply (wp_mono (Mono := mono)); [|by apply wp_fetch].
  intros φ1 [f|e] Hs; cbv beta iota; [|by apply Hsent]. unfold check.
  apply (wp_try (Mono := mono)). cbn [Proc.wp]. case_match; [|by apply Hsent].
  split; [done|]. intros u. change (file_step NewUuid φ1 u) with φ1.
  set (p := http_temporary d u).
  apply (wp_try (Mono := mono)), (wp_bind (Mono := mono)).
  eapply (wp_mono (Mono := mono)); [|apply wp_reserve]. intros φ2 [[]|e] ->; cbn [map_err Proc.wp]; [|by apply Hsent].
  destruct Hs as (Hr & Hw & Har). apply (wp_bind (Mono := mono)).
  eapply (wp_mono (Mono := mono)); [|rewrite Hb; apply wp_store_response; simpl; [set_solver|lia|done]].
  intros φ3 [n|e] (Hr3 & Ha3 & Hw3); apply (wp_bind (Mono := mono));
    (eapply (wp_mono (Mono := mono)); [|first [apply wp_remove|apply wp_drop]]);
    intros φ4 [] ->; unfold downloaded; simpl in *; (split_and!; [lia..|]); rewrite Ha3; set_solver.
Qed.
End Wp.
