(* ===== verification/YtDlpSpec.v ===== *)
(** * YtDlpSpec: what yt-dlp is run on, and the router

    Every run of yt-dlp is on a permitted page, the preflight of short links stays on
    public addresses, and the worker's router confines inspections and downloads.  At the
    end the interfaces of the downloader are inhabited: a small URL syntax ([https] and a
    host name), the metadata records in the demonstration value type, and the claims at a
    worker that allows [youtube.com]. *)

From S2P Require Import Prelude Text Enums Jobs Envelope Proc Preview Normalize Net Execute Download.
From S2P Require Import YtDlp DownloadSpec Instances EnvelopeSpec.

(** ** Hosts *)

Lemma ascii_lower_dot c : ascii_lower c =? 46 = (c =? 46).
Proof. unfold ascii_lower. case_match; lia. Qed.
Lemma drop_dots_lower s : drop_dots (to_ascii_lowercase s) = to_ascii_lowercase (drop_dots s).
Proof.
  unfold to_ascii_lowercase. induction s as [|c s IH]; [done|]. csimpl. rewrite ascii_lower_dot.
  by destruct (c =? 46).
Qed.
Lemma trim_dots_lower s : trim_end_dots (to_ascii_lowercase s) = to_ascii_lowercase (trim_end_dots s).
Proof.
  unfold trim_end_dots. unfold to_ascii_lowercase at 1. rewrite <-fmap_reverse.
  fold (to_ascii_lowercase (reverse s)). rewrite drop_dots_lower. unfold to_ascii_lowercase.
  by rewrite fmap_reverse.
Qed.
Lemma strip_dot_cases s : strip_dot s = s ∨ s = strip_dot s ++ [46].
Proof.
  unfold strip_dot. destruct (reverse s) as [|c r] eqn:Hr; [by left|].
  destruct (decide (c = 46)) as [->|]; [right|left; by repeat case_match].
  by rewrite <-(reverse_involutive s), Hr, reverse_cons.
Qed.
Lemma trim_dots_strip s : trim_end_dots (strip_dot s) = trim_end_dots s.
Proof.
  destruct (strip_dot_cases s) as [->|Hs]; [done|]. rewrite Hs at 2. unfold trim_end_dots.
  by rewrite reverse_snoc.
Qed.

(** The family of a host does not depend on its case, nor on a final dot. *)
Lemma family_normalized host :
  provider_family_for_host (to_ascii_lowercase (strip_dot host)) = provider_family_for_host host.
Proof. unfold provider_family_for_host. by rewrite trim_dots_lower, trim_dots_strip, to_ascii_lowercase_idemp. Qed.

Section Pages.
Context {J : Json} {Js : JsonShape} {U : UrlSyntax} {Y : YtDlpSerde} {allowed : list Str}.

Lemma validated_page v u : validated v = Ok u → url_info v = Some u ∧ page u.
Proof.
  unfold validated. intros Hv. result_inv. case_match; [|done]. case_match; simplify_eq.
  split; [done|].
  match goal with H : _ && _ = true |- _ => apply andb_prop in H as [Hu Hp] end. split_and!; [done| | | |by eexists].
  - by destruct (ui_username u).
  - by apply bool_decide_eq_true in Hp.
  - intros port Hport. match goal with H : context [default_port] |- _ => rewrite Hport in H; lia end.
Qed.
Lemma validated_text v u : validated v = Ok u → validated (url_text u) = Ok u.
Proof.
  intros Hv. pose proof (validated_page _ _ Hv) as [Hi _]. pose proof (url_reparse _ _ Hi) as Hr.
  unfold validated in *. by rewrite Hi in Hv; rewrite Hr.
Qed.

(** ** The host policy *)

Lemma allowed_source v u : is_allowed_ytdlp_source v allowed = Ok true → url_info v = Some u →
  ∃ d, ui_host u = Some (Domain d) ∧ allowed_host (to_ascii_lowercase (strip_dot d)) allowed = true.
Proof.
  unfold is_allowed_ytdlp_source. intros Ha Hu. rewrite Hu in Ha. result_inv. simplify_eq.
  case_match; [done|]. case_match; simplify_eq. eauto.
Qed.

Lemma allowed_host_family d : allowed_host (to_ascii_lowercase (strip_dot d)) allowed = true →
  (∃ f a, provider_family_for_host d = Some f ∧ a ∈ allowed ∧ provider_family_for_host a = Some f)
  ∨ to_ascii_lowercase (strip_dot d) = lit "t.co" ∧ lit "t.co" ∈ allowed
    ∧ ∃ a, a ∈ allowed ∧ provider_family_for_host a = Some FamilyX.
Proof.
  unfold allowed_host. rewrite family_normalized. destruct (provider_family_for_host d) as [f|].
  - intros (a & Ha & Hb)%existsb_exists. left. exists f, a. apply andb_prop in Hb as [Hb _].
    apply bool_decide_eq_true in Hb. split_and!; [done|by apply list_elem_of_In|done].
  - intros [[Hd%bool_decide_eq_true (t & Ht & Hb)%existsb_exists]%andb_prop (a & Ha & Hx)%existsb_exists]%andb_prop.
    apply bool_decide_eq_true in Hb, Hx. subst t. right.
    split_and!; [done|by apply list_elem_of_In|]. exists a. by rewrite list_elem_of_In.
Qed.

Lemma submitted_family v u d : is_allowed_ytdlp_source v allowed = Ok true → url_info v = Some u →
  ui_host u = Some (Domain d) →
  enabled allowed u
  ∨ to_ascii_lowercase (strip_dot d) = lit "t.co" ∧ lit "t.co" ∈ allowed
    ∧ ∃ a, a ∈ allowed ∧ provider_family_for_host a = Some FamilyX.
Proof.
  intros Ha Hu Hd. destruct (allowed_source _ _ Ha Hu) as (d' & Hd' & Hh). simplify_eq.
  destruct (allowed_host_family _ Hh) as [(f & a & Hf & Hin & Hfa)|]; [left|by right].
  exists f, a. unfold family_of. rewrite Hd. done.
Qed.

Lemma eq_ignore_case_iff a b : eq_ignore_ascii_case a b = true ↔ to_ascii_lowercase a = to_ascii_lowercase b.
Proof. unfold eq_ignore_ascii_case. by rewrite bool_decide_eq_true. Qed.

Lemma is_tco_text v u d : validated v = Ok u → ui_host u = Some (Domain d) →
  is_tco_url (url_text u) = Ok (eq_ignore_ascii_case d (lit "t.co")).
Proof. intros Hv Hd. unfold is_tco_url. rewrite (validated_text _ _ Hv). simpl. by rewrite Hd. Qed.

Lemma tco_family d : to_ascii_lowercase d = lit "t.co" → provider_family_for_host d = None.
Proof.
  intros Hd. unfold provider_family_for_host. rewrite <-trim_dots_lower, Hd. by vm_compute.
Qed.

(** A submitted page that is not a short link is permitted. *)
Lemma submitted_permitted v u : is_allowed_ytdlp_source v allowed = Ok true → validated v = Ok u →
  is_tco_url (url_text u) = Ok false → permitted allowed u.
Proof.
  intros Ha Hv Ht. pose proof (validated_page _ _ Hv) as [Hu Hp]. split; [done|].
  destruct Hp as (_ & _ & _ & _ & d & Hd). rewrite (is_tco_text _ _ d Hv Hd) in Ht. injection Ht as Ht.
  destruct (submitted_family _ _ d Ha Hu Hd) as [|(Hl & Hin & _)]; [by left|right].
  exists d. split_and!; [done| |done]. destruct (strip_dot_cases d) as [Hs|Hs].
  - rewrite Hs in Hl. exfalso. assert (eq_ignore_ascii_case d (lit "t.co") = true); [|congruence].
    apply eq_ignore_case_iff. by rewrite Hl.
  - rewrite Hs. unfold to_ascii_lowercase in *. rewrite fmap_app, Hl. by vm_compute.
Qed.

(** A short link is allowed only with a host of X. *)
Lemma short_link_needs_x v u : is_allowed_ytdlp_source v allowed = Ok true → validated v = Ok u →
  is_tco_url (url_text u) = Ok true → ∃ a, a ∈ allowed ∧ provider_family_for_host a = Some FamilyX.
Proof.
  intros Ha Hv Ht. pose proof (validated_page _ _ Hv) as [Hu (_ & _ & _ & _ & d & Hd)].
  rewrite (is_tco_text _ _ d Hv Hd) in Ht. injection Ht as Ht%eq_ignore_case_iff.
  destruct (submitted_family _ _ d Ha Hu Hd) as [(f & a & Hf & _)|(_ & _ & Hx)]; [|done].
  exfalso. unfold family_of in Hf. rewrite Hd in Hf. cbn [mbind option_bind host_text] in Hf.
  rewrite tco_family in Hf; [done|]. by rewrite Ht.
Qed.

(** An inspection that passed the policy has its page on an enabled provider. *)
Lemma inspection_enabled i u : validate_ytdlp_inspection i allowed = Ok tt →
  validated (default (si_source_url i) (si_resolved_url i)) = Ok u → permitted allowed u.
Proof.
  unfold validate_ytdlp_inspection. intros Hv Hu. result_inv. subst.
  pose proof (validated_page _ _ Hu) as [Hi Hp]. split; [done|left].
  match goal with H : validate_provider_inspection i = Ok ?x |- _ => rename H into Hpi end.
  unfold validate_provider_inspection in Hpi. result_inv. unfold validate_provider_metadata in *. result_inv.
  match goal with H : provider_family_for_canonical_url _ = Ok ?x |- _ => rename H into Hc end.
  unfold provider_family_for_canonical_url in Hc. rewrite Hu in Hc. cbn [mbind result_bind] in Hc. simplify_eq.
  match goal with H : agreed_family _ _ _ = Ok _ |- _ => rename H into Hg end.
  assert (is_Some (family_of u)) as [f Hf].
  { destruct (family_of u); [done|]. unfold agreed_family in Hg. by repeat case_match. }
  destruct Hp as (_ & _ & _ & _ & d & Hd).
  assert (is_allowed_ytdlp_source (default (si_source_url i) (si_resolved_url i)) allowed = Ok true) as Ha
    by (by destruct (si_resolved_url i)).
  destruct (submitted_family _ _ d Ha Hi Hd) as [|(Hl & _)]; [done|exfalso].
  unfold family_of in Hf. rewrite Hd in Hf. cbn [mbind option_bind host_text] in Hf.
  rewrite <-family_normalized, tco_family in Hf; [done|]. by rewrite to_ascii_lowercase_idemp.
Qed.
End Pages.

(** ** Runs *)

Section Runs.
Context {J : Json} {Js : JsonShape} {U : UrlSyntax} {Y : YtDlpSerde} {allowed : list Str} {max_bytes : Z}.
Context {Di : Display io_error} {Dp : Display PublishError} {Dc : Display CommandError}.
Context {Da : Display IpAddr} {Df : Display YtDlpConfigError}.
Context {R : HostResolver} {F : FaithfulResolver (allowed := allowed) (max_bytes := max_bytes) R}.
Abbreviation rule := (http_rule allowed max_bytes).
Abbreviation wp := (@wp http_interface net rule).
Abbreviation mono := (http_rule_mono allowed max_bytes).

Lemma sent_first b φ φ' : sent 1 φ φ' → sent (Z.of_nat b + 1) φ φ'.
Proof. intros Hs. eapply sent_weaken; [exact Hs|lia]. Qed.

Lemma wp_tco_done u φ (Q : net → Prop) : page u → Q φ →
  wp φ (if decide (family_of u = Some FamilyX) then
          _ ←? Done (validate_public_video_path FamilyX (url_text u)); Done (Ok (url_text u))
        else Done (Err (dl_terminal "source_redirect_not_allowed"
                    "the t.co URL did not resolve to an X/Twitter page")))
    (λ φ' r, Q φ' ∧
      match r with Ok s => ∃ u, s = url_text u ∧ page u ∧ family_of u = Some FamilyX | Err _ => True end).
Proof.
  intros Hu HQ. case_decide; [|done]. apply (wp_try (Mono := mono)). cbn [Proc.wp].
  destruct (validate_public_video_path _ _); [|done]. split; [done|]. eauto.
Qed.

Lemma wp_tco_from timeout budget : ∀ u φ, page u →
  wp φ (tco_from timeout budget u) (λ φ' r, sent (Z.of_nat budget + 1) φ φ' ∧
    match r with Ok s => ∃ u, s = url_text u ∧ page u ∧ family_of u = Some FamilyX | Err _ => True end).
Proof.
  induction budget as [|budget IH]; intros u φ Hu; cbn [tco_from]; apply wp_round;
    try (intros φ' e Hs; split; [by apply sent_first|done]); intros φ' r Hs;
    (destruct (is_redirection (rs_status r)); [|by apply (wp_tco_done _ _ (sent _ φ)), sent_first]).
  - split; [by apply sent_first|done].
  - apply (wp_try (Mono := mono)). cbn [Proc.wp].
    destruct (tco_location r) as [l|]; [|split; [by apply sent_first|done]].
    apply (wp_try (Mono := mono)). cbn [Proc.wp].
    destruct (validate_tco_redirect_target u l) as [next|] eqn:Hn; [|split; [by apply sent_first|done]].
    eapply (wp_mono (Mono := mono)); [|apply IH].
    + intros φ2 x [Hs2 Hx]. split; [|done]. eapply sent_weaken; [eapply sent_trans; [exact Hs|exact Hs2]|lia].
    + unfold validate_tco_redirect_target in Hn. result_inv. simplify_eq. by eapply validated_page.
Qed.

Section Config.
Context (config : YtDlpConfig) (limits : DownloadLimits).

Definition preflight_hops : Z := MAX_TCO_REDIRECTS + 1.

Lemma wp_resolve_tco_target v φ :
  wp φ (resolve_tco_target limits v) (λ φ' r, sent preflight_hops φ φ' ∧
    match r with Ok s => ∃ u, s = url_text u ∧ page u ∧ family_of u = Some FamilyX | Err _ => True end).
Proof.
  unfold resolve_tco_target, resolve_tco_target_with_resolver.
  assert (sent preflight_hops φ φ) as Hr by (by apply sent_refl).
  apply (wp_try (Mono := mono)). cbn [Proc.wp]. destruct (validated v) as [u|] eqn:Hv; [|done].
  apply (wp_try (Mono := mono)). cbn [Proc.wp]. destruct (is_tco_url _); [|done].
  apply (wp_try (Mono := mono)). unfold check. cbn [Proc.wp]. case_match; [|done].
  eapply (wp_mono (Mono := mono)); [|by apply wp_tco_from; eapply validated_page].
  intros φ' r [Hs Hx]. split; [|done]. eapply sent_weaken; [exact Hs|]. unfold preflight_hops, MAX_TCO_REDIRECTS. lia.
Qed.

(** ** Commands *)

Ltac elem_of_literal := repeat first [apply list_elem_of_here | apply list_elem_of_further].

Lemma security_options family : Forall (λ o, o ∈ security_args config family)
  [lit "--ignore-config"; lit "--no-cookies"; lit "--no-remote-components"; lit "--no-plugin-dirs"].
Proof. unfold security_args. repeat constructor; apply elem_of_app; left; elem_of_literal. Qed.

Lemma args_environment l c : ec_environment (args l c) = ec_environment c.
Proof. revert c. induction l as [|a l IH]; intros c; [done|]. simpl. by rewrite IH. Qed.
Lemma ytdlp_command_environment l : ec_environment (ytdlp_command config l) = [(lit "PATH", DEFAULT_COMMAND_PATH)].
Proof. unfold ytdlp_command. cbn -[args lit]. by rewrite args_environment. Qed.
Lemma ytdlp_command_args l : ec_args (ytdlp_command config l) = l.
Proof. unfold ytdlp_command. cbn -[args lit]. by rewrite args_app. Qed.

(** Options, the security options among them, and the page. *)
Lemma safe_command c before after family u :
  ec_clear_environment c = true → ec_environment c = [(lit "PATH", DEFAULT_COMMAND_PATH)] →
  ec_args c = before ++ security_args config family ++ after ++ [lit "--"; url_text u] →
  lit "--no-playlist" ∈ before → permitted allowed u → safe_invocation allowed c.
Proof.
  intros Hc He Ha Hb Hu. split; [done|]. split; [done|].
  exists (before ++ security_args config family ++ after), u. rewrite Ha, <-!(assoc_L (++)).
  split; [done|]. split; [done|]. pose proof (security_options family) as Ho.
  rewrite !Forall_cons in Ho. destruct Ho as (?&?&?&?&_). rewrite !elem_of_app. tauto.
Qed.

Lemma wp_run_with_output_limit family timeout u s limit φ : permitted allowed u →
  wp φ (run_with_output_limit config (inspect_args config family (url_text u)) timeout s limit)
    (λ φ' _, φ' = φ).
Proof.
  intros Hu. unfold run_with_output_limit, check. apply (wp_try (Mono := mono)). cbn [Proc.wp].
  case_match; [|done]. split.
  { eapply (safe_command _ _ [lit "--format"; yc_format_selection config] family u);
      [done|apply ytdlp_command_environment|apply ytdlp_command_args|elem_of_literal|done]. }
  intros [o|e]; [|done]. cbn -[lit]. destruct (negb (eo_stdout_truncated o || eo_stderr_truncated o)); [|done].
  cbn -[lit]. by destruct (eo_success o).
Qed.

Lemma wp_ytdlp_inspect source φ : is_allowed_ytdlp_source (in_source_url source) allowed = Ok true →
  wp φ (ytdlp_inspect config limits source) (λ φ' _, sent preflight_hops φ φ').
Proof.
  intros Ha. assert (sent preflight_hops φ φ) as Hr by (by apply sent_refl).
  unfold ytdlp_inspect, validate_source_url. apply (wp_try (Mono := mono)). cbn [Proc.wp].
  destruct (ytdlp_validate_limits _ _); [|done].
  apply (wp_try (Mono := mono)). cbn [Proc.wp].
  destruct (validated (in_source_url source)) as [u|] eqn:Hv; [|done]. cbn [mbind result_bind].
  apply (wp_try (Mono := mono)). cbn [Proc.wp]. destruct (is_tco_url (url_text u)) as [tco|] eqn:Ht; [|done].
  apply (wp_try (Mono := mono)).
  apply (wp_mono (Mono := mono) φ _ (λ φ' r, sent preflight_hops φ φ' ∧
    match r with Ok s => ∃ u, s = url_text u ∧ permitted allowed u | Err _ => True end)); cycle 1.
  { destruct tco; [|split; [done|]; exists u; split; [done|by eapply submitted_permitted]].
    eapply (wp_mono (Mono := mono)); [|apply wp_resolve_tco_target]. intros φ' [s|e] [Hs Hx]; [|done].
    split; [done|]. destruct Hx as (u' & -> & Hp & Hf). exists u'. split; [done|]. split; [done|left].
    destruct (short_link_needs_x _ _ Ha Hv Ht) as (host & Hin & Hfa). by exists FamilyX, host. }
  intros φ1 [s|e] [Hs Hx]; cbv beta iota; [|done]. destruct Hx as (u' & -> & Hp).
  apply (wp_try (Mono := mono)). cbn [Proc.wp]. destruct (provider_family_for_source_url _) as [fam|]; [|exact Hs].
  apply (wp_try (Mono := mono)). cbn [Proc.wp]. destruct (if decide _ then Ok fam else _) as [can|]; [|exact Hs].
  apply (wp_try (Mono := mono)). cbn [Proc.wp]. destruct (if decide _ then _ else Ok tt); [|exact Hs].
  apply (wp_try (Mono := mono)). eapply (wp_mono (Mono := mono)); [|by apply wp_run_with_output_limit].
  intros φ2 [o|e] ->; exact Hs.
Qed.

(** ** Attempts *)

Lemma wp_reserve_directory p φ :
  wp φ (reserve_directory p) (λ φ' r,
    φ' = match r with Ok _ => φ <| nt_armed := {[p]} ∪ nt_armed φ |> | Err _ => φ end).
Proof.
  unfold reserve_directory. destruct (path_parent p); [|done]. split; [done|]. intros [t|e]; [|done].
  cbn -[real_directory lit]. destruct (real_directory t); [|done]. split; [done|]. intros [[]|e]; [|done].
  split; [done|]. intros []. apply armed_twice.
Qed.

Lemma wp_regular_entries es : ∀ φ, wp φ (regular_entries es) (λ φ' _, φ' = φ).
Proof.
  induction es as [|[p|e] es IH]; intros φ; [done| |done]. split; [done|]. intros [t|e]; [|done].
  cbv beta iota. apply (wp_try (Mono := mono)). unfold check. cbn [Proc.wp]. case_match; [|done].
  apply (wp_try (Mono := mono)). eapply (wp_mono (Mono := mono)); [|apply IH]. by intros φ' [l|e] ->.
Qed.

Lemma wp_single_regular_file p φ : wp φ (single_regular_file p) (λ φ' _, φ' = φ).
Proof.
  intros [es|e]; [|done]. cbv beta iota. apply (wp_try (Mono := mono)).
  eapply (wp_mono (Mono := mono)); [|apply wp_regular_entries]. by intros φ' [l|e] ->.
Qed.

Lemma wp_run_sequence family l format u s p bytes φ : permitted allowed u → p ∈ nt_armed φ →
  bytes <= YTDLP_ATTEMPT_MAX_BYTES_MULTIPLIER * max_bytes →
  wp φ (run_sequence config (download_args config family l format (url_text u)) (dl_timeout l) s p bytes family)
    (λ φ' _, φ' = φ).
Proof.
  intros Hu Hp Hb. unfold run_sequence, check. apply (wp_try (Mono := mono)). cbn [Proc.wp].
  case_match; [|done]. split.
  { eapply (safe_command _ _ [_; _; _; _; _; _; _; _; _; _] family u);
      [done|apply ytdlp_command_environment|apply ytdlp_command_args|elem_of_literal|done]. }
  split; [done|]. split; [done|]. split; [done|].
  intros [o|e]; [|done]. cbn -[lit]. destruct (negb (eo_stdout_truncated o || eo_stderr_truncated o)); [|done].
  cbn -[lit]. by destruct (eo_success o).
Qed.

Lemma wp_run_attempt p d l bytes format u family φ : permitted allowed u → p ∈ nt_armed φ →
  bytes <= YTDLP_ATTEMPT_MAX_BYTES_MULTIPLIER * max_bytes →
  wp φ (run_attempt config p d l bytes format (url_text u) family) (λ φ' _, φ' = φ).
Proof.
  intros Hu Hp Hb. unfold run_attempt. apply (wp_try (Mono := mono)).
  eapply (wp_mono (Mono := mono)); [|by apply wp_run_sequence]. intros φ1 [o|e] ->; cbv beta iota; [|done].
  apply (wp_try (Mono := mono)), (wp_bind (Mono := mono)).
  eapply (wp_mono (Mono := mono)); [|apply wp_single_regular_file].
  intros φ2 [final|e] ->; cbn [map_err Proc.wp]; [|done].
  split; [done|]. intros [m|e]; [|done]. cbv beta iota.
  apply (wp_try (Mono := mono)). unfold check. cbn [Proc.wp]. case_match; [|done].
  apply (wp_try (Mono := mono)), (wp_bind (Mono := mono)).
  eapply (wp_mono (Mono := mono)); [|apply wp_publish].
  intros φ3 [[]|e] ->; cbn [map_err Proc.wp]; [done| |done]. split; [done|]. by intros [r|e].
Qed.

Lemma wp_download_with_format i d l bytes format family φ :
  validate_ytdlp_inspection i allowed = Ok tt → nt_armed φ = ∅ →
  bytes <= YTDLP_ATTEMPT_MAX_BYTES_MULTIPLIER * max_bytes →
  wp φ (download_with_format config i d l bytes format family) (λ φ' _, φ' = φ).
Proof.
  intros Hv Ha Hb. unfold download_with_format, validate_source_url.
  apply (wp_try (Mono := mono)). cbn [Proc.wp]. destruct (validated _) as [u|] eqn:Hu; [|done].
  cbn [mbind result_bind]. apply (wp_try (Mono := mono)). cbn [Proc.wp].
  destruct (map_err _ _); [|done]. split; [done|]. intros id. change (file_step NewUuid φ id) with φ.
  set (p := attempt_directory d id). apply (wp_try (Mono := mono)), (wp_bind (Mono := mono)).
  eapply (wp_mono (Mono := mono)); [|apply wp_reserve_directory].
  intros φ1 [[]|e] ->; cbn [map_err Proc.wp]; [|done]. apply (wp_bind (Mono := mono)).
  eapply (wp_mono (Mono := mono));
    [|apply wp_run_attempt; [by eapply inspection_enabled|simpl; set_solver|done]].
  intros φ2 r ->. split; [done|]. intros x. split; [done|]. intros [].
  destruct φ as [n w armed]. simpl in *. subst armed. unfold set_field. simpl. f_equal. set_solver.
Qed.

Lemma wp_ytdlp_download i d l φ : validate_ytdlp_inspection i allowed = Ok tt → nt_armed φ = ∅ →
  dl_max_bytes l = max_bytes →
  wp φ (ytdlp_download config i d l) (λ φ' _, φ' = φ).
Proof.
  intros Hv Ha Hm. unfold ytdlp_download. do 2 (apply (wp_try (Mono := mono)); cbn [Proc.wp]; case_match; [|done]).
  cbv zeta. apply (wp_try (Mono := mono)); cbn [Proc.wp]; destruct (if decide _ then _ else Ok tt); [|done].
  apply (wp_try (Mono := mono)); unfold check; cbn [Proc.wp]; destruct (_ <=? u64_max); [|done].
  assert (dl_max_bytes l * YTDLP_ATTEMPT_MAX_BYTES_MULTIPLIER <= YTDLP_ATTEMPT_MAX_BYTES_MULTIPLIER * max_bytes)
    as Hb by lia.
  apply (wp_bind (Mono := mono)). eapply (wp_mono (Mono := mono)); [|by apply wp_download_with_format].
  intros φ1 [r|e] ->; cbv beta iota; [done|]. case_match; [|done].
  apply (wp_bind (Mono := mono)). eapply (wp_mono (Mono := mono)); [|by apply wp_download_with_format].
  intros φ1 [r|e'] ->; cbv beta iota; [done|]. case_match; [|done].
  apply (wp_bind (Mono := mono)). eapply (wp_mono (Mono := mono)); [|by apply wp_download_with_format].
  by intros φ1 r ->.
Qed.
End Config.

(** ** Mirrors and routing *)

(** A downloader whose inspections send at most [k] requests. *)
Definition inspects (k : Z) (d : SourceDownloader) : Prop :=
  ∀ s φ, wp φ (sd_inspect d s) (λ φ' _, sent k φ φ').

Lemma wp_try_mirrors k direct s u submitted hosts : 0 <= k → inspects k direct → ∀ failures all φ,
  wp φ (try_mirrors direct s u submitted hosts failures all)
    (λ φ' _, sent (k * Z.of_nat (length hosts)) φ φ').
Proof.
  intros Hk Hd. induction hosts as [|host hosts IH]; intros failures all φ; cbn [try_mirrors];
    [by apply sent_refl; simpl; lia|].
  apply (wp_bind (Mono := mono)). eapply (wp_mono (Mono := mono)); [|apply Hd].
  intros φ1 [i|e] Hs; cbv beta iota; [eapply sent_weaken; [exact Hs|cbn [length]; nia]|].
  destruct (should_try_next_mirror e); [|eapply sent_weaken; [exact Hs|cbn [length]; nia]].
  eapply (wp_mono (Mono := mono)); [|apply IH]. intros φ2 x Hs2.
  eapply sent_weaken; [eapply sent_trans; [exact Hs|exact Hs2]|cbn [length]; lia].
Qed.

Lemma mirrors_inspect k direct : 0 <= k → inspects k direct → inspects (k * 3) (TwoChMirrorDownloader direct).
Proof.
  intros Hk Hd s φ. cbn [TwoChMirrorDownloader sd_inspect]. destruct (mirror_source s) as [[u h]|].
  - apply (wp_try_mirrors k direct s u h TWO_CH_MIRROR_HOSTS); done.
  - eapply (wp_mono (Mono := mono)); [|apply Hd]. intros φ' x Hs. eapply sent_weaken; [exact Hs|lia].
Qed.

Lemma wp_router_inspect config limits source φ : 0 <= dl_max_redirects limits →
  wp φ (router_inspect (worker_router config limits allowed) source)
    (λ φ' _, sent (hops limits * 3 + preflight_hops) φ φ').
Proof.
  intros Hl. unfold router_inspect. set (r := worker_router config limits allowed).
  assert (sr_direct_http r = TwoChMirrorDownloader (DirectHttpDownloader limits)) as ->
    by (by unfold r, worker_router; destruct allowed).
  assert (sr_ytdlp_allowed_hosts r = allowed) as Hallowed by (by unfold r, worker_router; destruct allowed).
  assert (sr_ytdlp r = None ∨ sr_ytdlp r = Some (YtDlpDownloader config limits)) as Hy
    by (unfold r, worker_router; destruct allowed; [by left|by right]).
  apply (wp_bind (Mono := mono)). eapply (wp_mono (Mono := mono));
    [|apply (mirrors_inspect (hops limits)); [unfold hops; lia|intros s φ'; by apply wp_direct_inspect]].
  intros φ1 x Hs. cbv beta.
  assert (sent (hops limits * 3 + preflight_hops) φ φ1) as Hs'
    by (eapply sent_weaken; [exact Hs|unfold preflight_hops, MAX_TCO_REDIRECTS; lia]).
  assert (wp φ1 (inspect_with_ytdlp_policy r source)
    (λ φ' _, sent (hops limits * 3 + preflight_hops) φ φ')) as Hpolicy.
  { unfold inspect_with_ytdlp_policy. rewrite Hallowed. apply (wp_try (Mono := mono)). cbn [Proc.wp].
    destruct (is_allowed_ytdlp_source _ _) as [[]|] eqn:Ha; [|done..].
    apply (wp_try (Mono := mono)). unfold check. cbn [Proc.wp]. destruct Hy as [->| ->]; [done|].
    apply (wp_try (Mono := mono)). eapply (wp_mono (Mono := mono)); [|by apply wp_ytdlp_inspect].
    intros φ2 i Hs2. assert (sent (hops limits * 3 + preflight_hops) φ φ2) by (eapply sent_trans; [exact Hs|exact Hs2]).
    destruct i as [i|e]; cbv beta iota; [|done]. apply (wp_try (Mono := mono)). cbn [Proc.wp].
    by destruct (validate_ytdlp_inspection _ _). }
  destruct x as [i|e]; cbv beta iota; [case_decide|case_match]; done.
Qed.

Lemma wp_router_download quote config limits' i d limits φ :
  0 <= dl_max_redirects limits → dl_max_bytes limits = max_bytes → 0 <= max_bytes →
  nt_written φ = 0 → nt_armed φ = ∅ →
  wp φ (router_download quote (worker_router config limits' allowed) i d limits)
    (λ φ' _, downloaded (max_bytes := max_bytes) (hops limits) φ φ').
Proof.
  intros Hl Hb Hm Hw Ha. unfold router_download. set (r := worker_router config limits' allowed).
  assert (downloaded (max_bytes := max_bytes) (hops limits) φ φ) as Hrefl
    by (unfold downloaded, hops; split_and!; first [lia|done]).
  case_decide; [|case_decide; [|done]].
  - assert (sd_download (sr_direct_http r) = direct_download) as ->
      by (by unfold r, worker_router; destruct allowed). by apply wp_direct_download.
  - assert (sr_ytdlp_allowed_hosts r = allowed) as -> by (by unfold r, worker_router; destruct allowed).
    assert (sr_ytdlp r = None ∨ sr_ytdlp r = Some (YtDlpDownloader config limits')) as Hy
      by (unfold r, worker_router; destruct allowed; [by left|by right]).
    destruct Hy as [->| ->]; [done|]. apply (wp_try (Mono := mono)). cbn [Proc.wp].
    destruct (validate_ytdlp_inspection i allowed) as [[]|] eqn:Hv; [|done].
    cbn [sd_download YtDlpDownloader].
    eapply (wp_mono (Mono := mono)); [|apply wp_ytdlp_download; [exact Hv|exact Ha|exact Hb]]. by intros φ' x ->.
Qed.
End Runs.

(** ** The dotted short link

    The router strips a final dot before it compares a host with [t.co], the adapter does
    not: the fully qualified name is allowed, and is not recognised as a short link, so that
    yt-dlp is run on it without the preflight. *)
Theorem dotted_short_link_skips_the_preflight `{UrlSyntax} v u :
  url_info v = Some u → page u → ui_host u = Some (Domain (lit "t.co.")) →
  is_allowed_ytdlp_source v [lit "t.co"; lit "x.com"] = Ok true ∧ is_tco_url v = Ok false.
Proof.
  intros Hv (Hs & Hu & Hp & Hport & _) Hh.
  assert (match ui_port u with Some port => port =? default_port (ui_scheme u) | None => true end = true) as Hd.
  { destruct (ui_port u); [|done]. specialize (Hport _ eq_refl). lia. }
  assert (validated v = Ok u) as Hval.
  { unfold validated. rewrite Hv. cbn [ok_or mbind result_bind]. by rewrite Hs, Hu, Hp, Hh, Hd. }
  split; [|unfold is_tco_url; rewrite Hval; cbn [mbind result_bind]; by rewrite Hh].
  unfold is_allowed_ytdlp_source. rewrite Hv. cbn [ok_or mbind result_bind].
  rewrite Hs, Hu, Hp, Hh, Hd. by vm_compute.
Qed.

(** ** Confinement *)

Section Confinement.
Context {J : Json} {Js : JsonShape} {U : UrlSyntax} {Y : YtDlpSerde}.
Context {Di : Display io_error} {Dp : Display PublishError} {Dc : Display CommandError}.
Context {Da : Display IpAddr} {Df : Display YtDlpConfigError}.
#[local] Existing Instance SystemResolver.

(** C7: The worker inspects a source only within its network policy.  Whatever names resolve
    to, servers answer (redirects included) and yt-dlp prints: every request connects to an
    address that is not blocked, yt-dlp is run with its safety options on a page of an
    enabled provider only (or on the fully qualified name of the short-link service), and
    the number of requests is bounded by the redirect limits. *)
Theorem source_inspections_are_confined config limits allowed max_bytes source φ :
  0 <= dl_max_redirects limits →
  Proc.wp (http_rule allowed max_bytes) φ
    (router_inspect (worker_router config limits allowed) source)
    (λ φ' _, sent (hops limits * 3 + preflight_hops) φ φ').
Proof. apply wp_router_inspect. Qed.

(** C6: The worker downloads a source only within its policy: every request connects to an
    address that is not blocked, at most one request per redirect and one more is sent, no
    more than the byte limit is written, yt-dlp is run in its own attempt directory on a
    page of an enabled provider with at most three times the byte limit, and at the end, on
    success as on every error, no temporary name is left without having been dropped. *)
Theorem source_downloads_are_confined quote config limits' allowed inspection destination limits φ :
  0 <= dl_max_redirects limits → 0 <= dl_max_bytes limits → nt_written φ = 0 → nt_armed φ = ∅ →
  Proc.wp (http_rule allowed (dl_max_bytes limits)) φ
    (router_download quote (worker_router config limits' allowed) inspection destination limits)
    (λ φ' _, downloaded (max_bytes := dl_max_bytes limits) (hops limits) φ φ').
Proof. intros Hl Hb Hw Ha. by apply wp_router_download. Qed.
End Confinement.

Definition demo_url (host : Str) : UrlInfo :=
  {| ui_scheme := lit "https"; ui_username := []; ui_password := None; ui_host := Some (Domain host);
     ui_port := None; ui_path := lit "/"; ui_query := None; ui_fragment := None |}.
Definition demo_url_info (s : Str) : option UrlInfo :=
  rest ← strip_prefix (lit "https://") s;
  match ip_from_str rest with Some _ => None | None => Some (demo_url rest) end.
Definition demo_url_text (u : UrlInfo) : Str :=
  lit "https://" ++ match ui_host u with Some (Domain d) => d | _ => [] end.

Lemma demo_url_info_spec s u : demo_url_info s = Some u → ∃ d, u = demo_url d ∧ ip_from_str d = None.
Proof.
  unfold demo_url_info. intros (rest & _ & Hr)%bind_Some. case_match; simplify_eq. eauto.
Qed.
Lemma strip_prefix_app p s : strip_prefix p (p ++ s) = Some s.
Proof. unfold strip_prefix, starts_with. rewrite take_app_length, bool_decide_true by done. by rewrite drop_app_length. Qed.

#[global] Instance demo_url_syntax : UrlSyntax.
Proof.
  refine {| url_info := demo_url_info; url_join _ location := demo_url_info location;
            url_set_host _ host := demo_url host; url_text := demo_url_text;
            known_default_port scheme := if decide (scheme = lit "https") then Some 443 else Some 80;
            ipv6_text _ := [] |}.
  - intros _. apply not_elem_of_nil.
  - intros s u d (d' & -> & Hd)%demo_url_info_spec Hh. by simplify_eq/=.
  - intros s u (d & -> & Hd)%demo_url_info_spec. unfold demo_url_info, demo_url_text.
    cbn [ui_host demo_url]. rewrite strip_prefix_app. cbn [mbind option_bind]. by rewrite Hd.
  - by intros s u (d & -> & Hd)%demo_url_info_spec.
Defined.

Definition enc_metadata (m : YtDlpMetadata) : demo_value :=
  VArr [enc_opt VText (ym_id m); enc_opt VText (ym_title m); enc_opt VText (ym_webpage_url m);
        enc_opt VText (ym_extractor m); enc_opt VText (ym_platform m); enc_opt VNum (ym_duration_ms m);
        enc_opt VNum (ym_filesize_bytes m); enc_opt VNum (ym_width m); enc_opt VNum (ym_height m);
        enc_opt VText (ym_ext m); enc_opt VText (ym_mime_type m); enc_opt VText (ym_vcodec m);
        enc_opt VText (ym_acodec m); enc_opt VText (ym_format_id m); enc_opt VText (ym_format m);
        enc_opt VText (ym_thumbnail m); enc_opt VText (ym_uploader m)].
Definition dec_metadata (v : demo_value) : option YtDlpMetadata :=
  match v with
  | VArr [a; b; c; d; e; f; g; h; i; j; k; l; m; n; o; p; q] =>
      a ← dec_opt dec_text a; b ← dec_opt dec_text b; c ← dec_opt dec_text c; d ← dec_opt dec_text d;
      e ← dec_opt dec_text e; f ← dec_opt dec_num f; g ← dec_opt dec_num g; h ← dec_opt dec_num h;
      i ← dec_opt dec_num i; j ← dec_opt dec_text j; k ← dec_opt dec_text k; l ← dec_opt dec_text l;
      m ← dec_opt dec_text m; n ← dec_opt dec_text n; o ← dec_opt dec_text o; p ← dec_opt dec_text p;
      q ← dec_opt dec_text q;
      Some (Build_YtDlpMetadata a b c d e f g h i j k l m n o p q)
  | _ => None
  end.
#[local] Arguments dec_opt : simpl never.
#[local] Arguments enc_opt : simpl never.
Lemma dec_enc_metadata m : dec_metadata (enc_metadata m) = Some m.
Proof. destruct m. cbn. by repeat (rewrite dec_enc_opt by done; cbn). Qed.

#[global] Instance demo_ytdlp_serde : YtDlpSerde.
Proof.
  unshelve refine {| raw_from_slice _ := Err (lit "EOF while parsing a value");
                     serde_metadata := {| to_value := enc_metadata : YtDlpMetadata → Value;
                       from_value v := ok_or (dec_metadata v) (lit "missing field") |} |}.
  intros m. by rewrite dec_enc_metadata.
Defined.

#[local] Instance silent E : Display E := λ _, [].

Definition demo_ytdlp : YtDlpConfig :=
  {| yc_executable := lit "yt-dlp"; yc_format_selection := lit "best"; yc_deno_path := lit "deno";
     yc_max_output_bytes := DEFAULT_MAX_OUTPUT_BYTES;
     yc_metadata_max_output_bytes := DEFAULT_YTDLP_METADATA_MAX_OUTPUT_BYTES;
     yc_pot_provider_url := lit "http://127.0.0.1:4416" |}.
Definition demo_source : SourceInput :=
  {| in_ingest_request_id := 1%N; in_source_url := lit "https://youtube.com"; in_page_url := None |}.
Definition demo_inspected : SourceInspection :=
  {| si_adapter := lit "direct_http"; si_source_url := lit "https://cdn.example"; si_resolved_url := None;
     si_media_kind := SourceMediaKind.Video; si_mime_type := None; si_content_length_bytes := None;
     si_title := None; si_metadata := VNull |}.
Definition demo_net : net := {| nt_requests := 0; nt_written := 0; nt_armed := ∅ |}.
#[local] Existing Instance SystemResolver.

Lemma source_inspections_are_confined_witness :
  Proc.wp (http_rule [lit "youtube.com"] (dl_max_bytes default_limits)) demo_net
    (router_inspect (worker_router demo_ytdlp default_limits [lit "youtube.com"]) demo_source)
    (λ φ' _, sent (hops default_limits * 3 + preflight_hops) demo_net φ').
Proof. apply source_inspections_are_confined. by vm_compute. Defined.

Lemma source_downloads_are_confined_witness :
  Proc.wp (http_rule [lit "youtube.com"] (dl_max_bytes default_limits)) demo_net
    (router_download id (worker_router demo_ytdlp default_limits [lit "youtube.com"]) demo_inspected
       (lit "/work/source") default_limits)
    (λ φ' _, downloaded (max_bytes := dl_max_bytes default_limits) (hops default_limits) demo_net φ').
Proof. apply source_downloads_are_confined; [by vm_compute|by vm_compute|done|done]. Defined.
