(* ===== verification/NetSpec.v ===== *)
(** * NetSpec: the blocked addresses

    The blocked IPv4 addresses are exactly those of a list of reserved ranges, and every
    address at which the configuration accepts a service over plain HTTP is blocked for
    downloads. *)

From S2P Require Import Prelude Text Jobs Envelope Proc Preview Normalize.
From S2P Require Import Net Execute Download YtDlp DownloadSpec.

(** ** Ranges *)

Definition ipv4_value (x : Ipv4) : Z := let '(a, b, c, d) := x in a * 2 ^ 24 + b * 2 ^ 16 + c * 2 ^ 8 + d.
(** The first [len] bits agree. *)
Definition in_range (x base : Ipv4) (len : Z) : bool :=
  ipv4_value x / 2 ^ (32 - len) =? ipv4_value base / 2 ^ (32 - len).

Definition RESERVED_RANGES : list (Ipv4 * Z) :=
  [((0, 0, 0, 0), 8); ((10, 0, 0, 0), 8); ((100, 64, 0, 0), 10); ((127, 0, 0, 0), 8);
   ((169, 254, 0, 0), 16); ((172, 16, 0, 0), 12); ((192, 0, 0, 0), 16); ((192, 168, 0, 0), 16);
   ((198, 18, 0, 0), 15); ((198, 51, 100, 0), 24); ((203, 0, 113, 0), 24); ((224, 0, 0, 0), 3)].

(** A number of four octets divided by a power of two below an octet boundary. *)
Lemma range_first a b c d base len k : valid_ipv4 (a, b, c, d) →
  2 ^ (32 - len) = k * 2 ^ 24 → 0 < k →
  in_range (a, b, c, d) base len = (a / k =? ipv4_value base / (k * 2 ^ 24)).
Proof.
  intros (Ha & Hb & Hc & Hd) Hk Hpos. unfold in_range. rewrite Hk. f_equal.
  rewrite Z.mul_comm, <-Z.div_div by lia. f_equal. cbn [ipv4_value].
  symmetry. apply (Z.div_unique _ _ _ (b * 2 ^ 16 + c * 2 ^ 8 + d)); lia.
Qed.
Lemma range_second a b c d base len k : valid_ipv4 (a, b, c, d) →
  2 ^ (32 - len) = k * 2 ^ 16 → 0 < k →
  in_range (a, b, c, d) base len = ((a * 256 + b) / k =? ipv4_value base / (k * 2 ^ 16)).
Proof.
  intros (Ha & Hb & Hc & Hd) Hk Hpos. unfold in_range. rewrite Hk. f_equal.
  rewrite Z.mul_comm, <-Z.div_div by lia. f_equal. cbn [ipv4_value].
  symmetry. apply (Z.div_unique _ _ _ (c * 2 ^ 8 + d)); lia.
Qed.
Lemma range_third a b c d base : valid_ipv4 (a, b, c, d) →
  in_range (a, b, c, d) base 24 = (a * 65536 + b * 256 + c =? ipv4_value base / 256).
Proof.
  intros (Ha & Hb & Hc & Hd). unfold in_range. f_equal. cbn [ipv4_value].
  change (2 ^ (32 - 24)) with 256. symmetry. apply (Z.div_unique _ _ _ d); lia.
Qed.

(** C39: Blocking by octets is blocking by prefixes: an IPv4 address is refused by the
    downloader exactly when it lies in one of the twelve reserved ranges. *)
Theorem blocked_ipv4_is_the_reserved_ranges x : valid_ipv4 x →
  is_blocked_ipv4 x = existsb (λ '(base, len), in_range x base len) RESERVED_RANGES.
Proof.
  destruct x as [[[a b] c] d]. intros Hv. cbn [existsb RESERVED_RANGES].
  rewrite (range_first a b c d (0, 0, 0, 0) 8 1), (range_first a b c d (10, 0, 0, 0) 8 1),
    (range_second a b c d (100, 64, 0, 0) 10 64), (range_first a b c d (127, 0, 0, 0) 8 1),
    (range_second a b c d (169, 254, 0, 0) 16 1), (range_second a b c d (172, 16, 0, 0) 12 16),
    (range_second a b c d (192, 0, 0, 0) 16 1), (range_second a b c d (192, 168, 0, 0) 16 1),
    (range_second a b c d (198, 18, 0, 0) 15 2), (range_third a b c d (198, 51, 100, 0)),
    (range_third a b c d (203, 0, 113, 0)), (range_first a b c d (224, 0, 0, 0) 3 32) by done.
  destruct Hv as (Ha & Hb & Hc & Hd). unfold is_blocked_ipv4. rewrite !Z.div_1_r, orb_false_r, !orb_assoc.
  repeat match goal with |- _ || _ = _ || _ => f_equal end; apply eq_true_iff_eq;
    repeat match goal with |- context [ipv4_value ?y / ?n] =>
      let v := eval vm_compute in (ipv4_value y / n) in change (ipv4_value y / n) with v end;
    Z.to_euclidean_division_equations; lia.
Qed.

(** ** Internal services *)

Lemma private_ipv4_blocked a : private_ipv4 a = true → is_blocked_ipv4 a = true.
Proof.
  destruct a as [[[a b] c] d]. unfold private_ipv4, v4_is_loopback, v4_is_private, v4_is_link_local, is_blocked_ipv4.
  rewrite !andb_true_iff, !orb_true_iff, !andb_true_iff, !Z.eqb_eq. tauto.
Qed.
Lemma private_ipv6_blocked a : private_ipv6 a = true → is_blocked_ipv6 a = true.
Proof.
  unfold private_ipv6, is_blocked_ipv6, v6_is_unique_local, v6_is_unicast_link_local.
  intros [_ [[H|H]%orb_prop|H]%orb_prop]%andb_prop; rewrite H; by rewrite ?orb_true_r.
Qed.

(** No download reaches an internal service: when the configuration accepts a URL over
    plain HTTP because its host is an internal address, no client whatsoever makes a public
    request to it, so every download that is pointed or redirected there is refused. *)
Theorem internal_address_is_never_downloaded u policy c :
  is_safe_internal_http_url u policy = true → ui_scheme u = lit "http" →
  (∀ d, ui_host u ≠ Some (Domain d)) → ¬ public_request c u.
Proof.
  unfold is_safe_internal_http_url. intros [_ Hs]%andb_prop Hh Hd (_ & _ & _ & Hip). rewrite Hh in Hs.
  destruct (ui_host u) as [[d|a|a]|] eqn:Ha; [by destruct (Hd d)| | |done]; cbn in Hs.
  - specialize (Hip _ (connect_v4 _ _ _ Ha)). simpl in Hip. by rewrite private_ipv4_blocked in Hip.
  - specialize (Hip _ (connect_v6 _ _ _ Ha)). simpl in Hip. by rewrite private_ipv6_blocked in Hip.
Qed.

(** ** Addresses in text *)

(** The text of an octet: one to three digits without a leading zero. *)
Definition octet_text_ok (n : Z) : bool :=
  match mapM digit (show n) with
  | Some ds => bool_decide (fold_left (λ a d, a * 10 + d) ds 0 = n) && negb (length ds =? 0)%nat
               && negb (3 <? length ds)%nat
               && negb ((1 <? length ds)%nat && match ds with 0 :: _ => true | _ => false end)
  | None => false
  end.
Lemma octet_texts_ok : forallb octet_text_ok (seqZ 0 256) = true.
Proof. by vm_compute. Qed.
Lemma octet_text n : 0 <= n <= 255 → octet_text_ok n = true.
Proof.
  intros Hn. pose proof octet_texts_ok as H. rewrite forallb_forall in H. apply H.
  apply list_elem_of_In, elem_of_seqZ. lia.
Qed.

Definition stops (s : Str) : Prop := match s with c :: _ => digit c = None | [] => True end.
Lemma span_digits_app s ds rest : mapM digit s = Some ds → stops rest →
  span_digits digit (s ++ rest) = (ds, rest).
Proof.
  revert ds. induction s as [|c s IH]; intros ds Hs Hr; simpl in *.
  - injection Hs as <-. destruct rest as [|c rest]; [done|]. simpl in *. by rewrite Hr.
  - apply bind_Some in Hs as (d & Hd & Hs). apply bind_Some in Hs as (ds' & Hs & Hds).
    injection Hds as <-. by rewrite Hd, (IH ds').
Qed.
Lemma read_octet_text n rest : 0 <= n <= 255 → stops rest → read_octet (show n ++ rest) = Some (n, rest).
Proof.
  intros Hn Hr. pose proof (octet_text n Hn) as Ho. unfold octet_text_ok in Ho.
  destruct (mapM digit (show n)) as [ds|] eqn:Hd; [|done].
  rewrite !andb_true_iff, bool_decide_eq_true in Ho. destruct Ho as [[[Hv H0] H3] Hz].
  unfold read_octet, read_number. rewrite (span_digits_app _ _ _ Hd Hr), Hv.
  apply negb_true_iff in H0, H3, Hz. rewrite H0, H3. cbn [negb andb]. rewrite Hz.
  rewrite (proj2 (Z.ltb_ge 255 n)) by lia. done.
Qed.
Lemma read_ipv4_text a : valid_ipv4 a → ip_from_str (ipv4_text a) = Some (V4 a).
Proof.
  destruct a as [[[a b] c] d]. intros (Ha & Hb & Hc & Hd). unfold ip_from_str, whole, ipv4_text, read_ipv4_addr.
  rewrite read_octet_text by first [done|exact eq_refl]. cbn [mbind option_bind read_char app].
  rewrite Z.eqb_refl. cbn [mbind option_bind]. rewrite read_octet_text by first [done|exact eq_refl]. cbn [mbind option_bind read_char app].
  rewrite Z.eqb_refl. cbn [mbind option_bind]. rewrite read_octet_text by first [done|exact eq_refl]. cbn [mbind option_bind read_char app].
  rewrite Z.eqb_refl. cbn [mbind option_bind]. rewrite <-(app_nil_r (show d)), read_octet_text by done. done.
Qed.

Lemma not_contains c s : c ∉ s → contains [c] s = false.
Proof.
  induction s as [|x s IH]; intros Hs; [done|]. cbn [contains]. rewrite IH by set_solver.
  unfold starts_with. simpl. rewrite bool_decide_false; [done|]. rewrite take_0. set_solver.
Qed.

Section Api.
Context {U : UrlSyntax}.

(** The text of an IPv6 host is in brackets: it does not read as an address, and has no dot. *)
Lemma bracketed_ipv6 a : ip_from_str (host_text (HostV6 a)) = None ∧ private_name (host_text (HostV6 a)) = true.
Proof.
  split; [done|]. unfold private_name. rewrite orb_true_iff. left. rewrite orb_true_iff. right.
  apply negb_true_iff, not_contains. cbn [host_text]. rewrite !elem_of_app. pose proof (ipv6_text_dotless a).
  set_solver by lia.
Qed.

(** The client's own check lets every IPv6 address through: its branch for IPv6 is never
    taken. *)
Theorem any_ipv6_is_accepted_over_http u a : plain_origin u = true → ui_host u = Some (HostV6 a) →
  is_safe_api_base_url u = true.
Proof.
  intros Hp Hh. unfold is_safe_api_base_url. rewrite Hp, Hh. cbn [fmap option_fmap option_map].
  destruct (bracketed_ipv6 a) as [-> ->]. by rewrite orb_true_r.
Qed.

(** A base URL the configuration accepts is accepted by the Telegram client. *)
Lemma safe_internal_is_safe_api s u policy : url_info s = Some u →
  is_safe_internal_http_url u policy = true → is_safe_api_base_url u = true.
Proof.
  unfold is_safe_internal_http_url, is_safe_api_base_url. intros Hu [[Hp _]%andb_prop Hs]%andb_prop.
  rewrite Hp. apply orb_prop in Hs as [->|Hs]; [done|]. cbn [andb]. apply orb_true_iff. right.
  pose proof (hosts_valid s u Hu) as Hv. destruct (ui_host u) as [[d|a|a]|] eqn:Hh; cbn [fmap option_fmap option_map].
  - cbn [host_text]. by rewrite (domain_is_no_ip _ _ _ Hu Hh).
  - cbn [host_text]. by rewrite read_ipv4_text.
  - destruct (bracketed_ipv6 a) as [-> ->]. done.
  - done.
Qed.
End Api.

(** ** Witnesses *)

Lemma blocked_ipv4_is_the_reserved_ranges_witness :
  is_blocked_ipv4 (192, 168, 1, 7)
  = existsb (λ '(base, len), in_range (192, 168, 1, 7) base len) RESERVED_RANGES.
Proof. apply blocked_ipv4_is_the_reserved_ranges. repeat split; lia. Defined.

Definition demo_internal : UrlInfo :=
  {| ui_scheme := lit "http"; ui_username := []; ui_password := None; ui_host := Some (HostV4 (127, 0, 0, 1));
     ui_port := Some 4416; ui_path := lit "/"; ui_query := None; ui_fragment := None |}.
Definition demo_client : Client :=
  {| cl_follow_redirects := false; cl_proxy := false; cl_timeout := 1; cl_resolve := None |}.
Lemma internal_address_is_never_downloaded_witness : ¬ public_request demo_client demo_internal.
Proof.
  apply (internal_address_is_never_downloaded demo_internal OriginOnly); [by vm_compute|done|done].
Defined.
