(* ===== verification/Config.v ===== *)
(** * Config: the configuration of the three applications

    [config/src/lib.rs]: the command line, the configuration file with its defaults, the
    environment that overrides it, the validation of each role, and the summary that is
    printed.  The TOML decoder is an interface ([Toml]): a text gives the raw sections, with
    values in the ranges of their types.  The environment is a function from names to bytes;
    [usize] has sixty-four bits. *)

From S2P Require Import Prelude Text Net.

(** ** Errors *)

Inductive ConfigError :=
| ReadFile (path source : Str)
| ParseToml (message : Str)
| InvalidEnvironmentEncoding (name : Str)
| InvalidValue (name reason : Str)
| MissingArgument (name : Str)
| UnknownArgument (argument : Str)
| HelpRequested
| MissingSecret (name : Str).
Definition invalid (name reason : string) : ConfigError := InvalidValue (lit name) (lit reason).

(** ** The command line *)

Inductive AppRole := RoleServer | RoleWorker | RoleCompanion.
#[global] Instance role_eq_dec : EqDecision AppRole.
Proof. solve_decision. Defined.
Definition role_text (r : AppRole) : Str :=
  lit match r with RoleServer => "server" | RoleWorker => "worker" | RoleCompanion => "companion" end.

Inductive StorageCommand :=
| StorageList
| StorageMarkUnknown (media_id : Str) (force : bool)
| StorageReset (media_id : Str)
| StorageAttach (media_id generation storage_chat_id storage_message_id telegram_file_id
          telegram_file_unique_id : Str).
Inductive CliCommand := CliMigrate | CliStorage (c : StorageCommand).
Record CliOptions := {
  cli_check_config : bool;
  cli_command : option CliCommand;
  cli_config_path : option Str;
}.
#[global] Instance eta_cli : Eta CliOptions := fun o =>
  Build_CliOptions (cli_check_config o) (cli_command o) (cli_config_path o).

(** The arguments are taken from the front; what is left is returned. *)
Definition next_storage_argument (name : string) (l : list Str) : result ConfigError (Str * list Str) :=
  match l with a :: l => Ok (a, l) | [] => Err (MissingArgument (lit name)) end.

Definition mark_unknown_force (l : list Str) : result ConfigError (bool * list Str) :=
  match l with
  | [] => Ok (false, [])
  | option :: l =>
      if decide (option = lit "--force") then
        match l with
        | confirm :: l => if decide (confirm = lit "--confirm") then Ok (true, l)
                          else Err (MissingArgument (lit "--confirm"))
        | [] => Err (MissingArgument (lit "--confirm"))
        end
      else Err (UnknownArgument option)
  end.

Definition parse_storage_command (l : list Str) : result ConfigError (StorageCommand * list Str) :=
  '(subcommand, l) ← next_storage_argument "storage command" l;
  if decide (subcommand = lit "list") then Ok (StorageList, l)
  else if decide (subcommand = lit "mark-unknown") then
    '(media_id, l) ← next_storage_argument "storage mark-unknown media-id" l;
    '(force, l) ← mark_unknown_force l;
    Ok (StorageMarkUnknown media_id force, l)
  else if decide (subcommand = lit "reset") then
    '(media_id, l) ← next_storage_argument "storage reset media-id" l;
    match l with
    | confirm :: l => if decide (confirm = lit "--confirm") then Ok (StorageReset media_id, l)
                      else Err (UnknownArgument confirm)
    | [] => Err (MissingArgument (lit "--confirm"))
    end
  else if decide (subcommand = lit "attach") then
    '(media_id, l) ← next_storage_argument "storage attach media-id" l;
    '(generation, l) ← next_storage_argument "storage attach generation" l;
    '(chat_id, l) ← next_storage_argument "storage attach chat-id" l;
    '(message_id, l) ← next_storage_argument "storage attach message-id" l;
    '(file_id, l) ← next_storage_argument "storage attach file-id" l;
    '(file_unique_id, l) ← next_storage_argument "storage attach file-unique-id" l;
    Ok (StorageAttach media_id generation chat_id message_id file_id file_unique_id, l)
  else Err (UnknownArgument subcommand).

(** One round of the argument loop. *)
Definition parse_argument (o : CliOptions) (argument : Str) (l : list Str)
    : result ConfigError (CliOptions * list Str) :=
  if decide (argument = lit "--check-config") then Ok (o <| cli_check_config := true |>, l)
  else if decide (argument = lit "migrate") then Ok (o <| cli_command := Some CliMigrate |>, l)
  else if decide (argument = lit "storage") then
    '(c, l) ← parse_storage_command l; Ok (o <| cli_command := Some (CliStorage c) |>, l)
  else if decide (argument = lit "--config") then
    match l with
    | path :: l => Ok (o <| cli_config_path := Some path |>, l)
    | [] => Err (MissingArgument (lit "--config"))
    end
  else if decide (argument = lit "--help" ∨ argument = lit "-h") then Err HelpRequested
  else Err (UnknownArgument argument).

(** Every round takes an argument: the length of the list is enough rounds. *)
Fixpoint parse_arguments (rounds : nat) (o : CliOptions) (l : list Str) : result ConfigError CliOptions :=
  match l, rounds with
  | [], _ => Ok o
  | argument :: l, S rounds => '(o, l) ← parse_argument o argument l; parse_arguments rounds o l
  | _ :: _, O => Ok o
  end.
Definition cli_parse (l : list Str) : result ConfigError CliOptions :=
  parse_arguments (length l) {| cli_check_config := false; cli_command := None; cli_config_path := None |} l.

(** ** Sections *)

(** [SecretString], and its [is_configured]. *)
Record SecretString := secret { expose_secret : Str }.
Definition is_configured (s : SecretString) : bool := negb (is_empty (expose_secret s)).

Inductive LogFormat := FormatJson | FormatPretty.
Definition log_format_text (f : LogFormat) : Str :=
  lit match f with FormatJson => "json" | FormatPretty => "pretty" end.

Record ServerConfig := {
  srv_listen_address : Str;
  srv_request_body_limit_bytes : Z;
  srv_request_timeout_seconds : Z;
}.
#[global] Instance eta_server : Eta ServerConfig := fun c =>
  Build_ServerConfig (srv_listen_address c) (srv_request_body_limit_bytes c) (srv_request_timeout_seconds c).
Record DatabaseConfig := { dbc_url_env : Str; dbc_max_connections : Z }.
#[global] Instance eta_database : Eta DatabaseConfig := fun c =>
  Build_DatabaseConfig (dbc_url_env c) (dbc_max_connections c).
Record JobRetentionConfig := {
  jrc_enabled : bool;
  jrc_succeeded_seconds : Z;
  jrc_cancelled_seconds : Z;
  jrc_failed_seconds : Z;
  jrc_batch_size : Z;
  jrc_scan_size : Z;
}.
#[global] Instance eta_retention : Eta JobRetentionConfig := fun c =>
  Build_JobRetentionConfig (jrc_enabled c) (jrc_succeeded_seconds c) (jrc_cancelled_seconds c)
    (jrc_failed_seconds c) (jrc_batch_size c) (jrc_scan_size c).
Record WorkerConfig := {
  wkc_poll_interval_seconds : Z;
  wkc_lease_duration_seconds : Z;
  wkc_job_retention : JobRetentionConfig;
}.
#[global] Instance eta_worker : Eta WorkerConfig := fun c =>
  Build_WorkerConfig (wkc_poll_interval_seconds c) (wkc_lease_duration_seconds c) (wkc_job_retention c).
Record InlineVideoConfig := {
  ivc_target_max_bytes : Z;
  ivc_quality_crf : Z;
  ivc_minimum_short_edge : Z;
}.
#[global] Instance eta_inline : Eta InlineVideoConfig := fun c =>
  Build_InlineVideoConfig (ivc_target_max_bytes c) (ivc_quality_crf c) (ivc_minimum_short_edge c).
Record MediaConfig := {
  mdc_work_root : Str;
  mdc_work_free_space_reserve_bytes : Z;
  mdc_ffmpeg_path : Str;
  mdc_ffprobe_path : Str;
  mdc_ytdlp_path : Str;
  mdc_ytdlp_format : Str;
  mdc_ytdlp_allowed_hosts : list Str;
  mdc_ytdlp_pot_provider_url : Str;
  mdc_processing_timeout_seconds : Z;
  mdc_source_download_max_bytes : Z;
  mdc_normalized_storage_max_bytes : Z;
  mdc_inline_video : InlineVideoConfig;
}.
#[global] Instance eta_media : Eta MediaConfig := fun c =>
  Build_MediaConfig (mdc_work_root c) (mdc_work_free_space_reserve_bytes c) (mdc_ffmpeg_path c)
    (mdc_ffprobe_path c) (mdc_ytdlp_path c) (mdc_ytdlp_format c) (mdc_ytdlp_allowed_hosts c)
    (mdc_ytdlp_pot_provider_url c) (mdc_processing_timeout_seconds c) (mdc_source_download_max_bytes c)
    (mdc_normalized_storage_max_bytes c) (mdc_inline_video c).
Record CompanionConfig := {
  cmc_listen_address : Str;
  cmc_backend_url : Str;
  cmc_local_token : SecretString;
  cmc_backend_token : SecretString;
  cmc_request_body_limit_bytes : Z;
  cmc_request_timeout_seconds : Z;
}.
#[global] Instance eta_companion : Eta CompanionConfig := fun c =>
  Build_CompanionConfig (cmc_listen_address c) (cmc_backend_url c) (cmc_local_token c)
    (cmc_backend_token c) (cmc_request_body_limit_bytes c) (cmc_request_timeout_seconds c).
Record TelegramConfig := {
  tgc_api_base_url : Str;
  tgc_admin_user_ids : list Z;
  tgc_poll_timeout_seconds : Z;
  tgc_upload_timeout_seconds : Z;
  tgc_source_download_max_bytes : Z;
  tgc_local_file_root : option Str;
  tgc_storage_chat_id : option Z;
}.
#[global] Instance eta_telegram : Eta TelegramConfig := fun c =>
  Build_TelegramConfig (tgc_api_base_url c) (tgc_admin_user_ids c) (tgc_poll_timeout_seconds c)
    (tgc_upload_timeout_seconds c) (tgc_source_download_max_bytes c) (tgc_local_file_root c)
    (tgc_storage_chat_id c).
Record ObservabilityConfig := { obc_log_format : LogFormat; obc_log_level : Str }.
#[global] Instance eta_observability : Eta ObservabilityConfig := fun c =>
  Build_ObservabilityConfig (obc_log_format c) (obc_log_level c).
Record SecretConfig := {
  sec_database_url : option SecretString;
  sec_telegram_bot_token : option SecretString;
  sec_api_token : option SecretString;
}.
#[global] Instance eta_secrets : Eta SecretConfig := fun c =>
  Build_SecretConfig (sec_database_url c) (sec_telegram_bot_token c) (sec_api_token c).
Record AppConfig := {
  ac_role : AppRole;
  ac_config_path : option Str;
  ac_server : ServerConfig;
  ac_worker : WorkerConfig;
  ac_media : MediaConfig;
  ac_companion : CompanionConfig;
  ac_database : DatabaseConfig;
  ac_telegram : TelegramConfig;
  ac_observability : ObservabilityConfig;
  ac_secrets : SecretConfig;
}.
#[global] Instance eta_config : Eta AppConfig := fun c =>
  Build_AppConfig (ac_role c) (ac_config_path c) (ac_server c) (ac_worker c) (ac_media c)
    (ac_companion c) (ac_database c) (ac_telegram c) (ac_observability c) (ac_secrets c).

(** ** The raw sections of the file *)

Record RawServerConfig := {
  rsv_listen_address : option Str;
  rsv_request_body_limit_bytes : option Z;
  rsv_request_timeout_seconds : option Z;
}.
Record RawJobRetentionConfig := {
  rjr_enabled : option bool;
  rjr_succeeded_seconds : option Z;
  rjr_cancelled_seconds : option Z;
  rjr_failed_seconds : option Z;
  rjr_batch_size : option Z;
  rjr_scan_size : option Z;
}.
Record RawWorkerConfig := {
  rwk_poll_interval_seconds : option Z;
  rwk_lease_duration_seconds : option Z;
  rwk_job_retention : RawJobRetentionConfig;
}.
Record RawInlineVideoConfig := {
  riv_target_max_bytes : option Z;
  riv_quality_crf : option Z;
  riv_minimum_short_edge : option Z;
}.
Record RawMediaConfig := {
  rmd_work_root : option Str;
  rmd_work_free_space_reserve_bytes : option Z;
  rmd_ffmpeg_path : option Str;
  rmd_ffprobe_path : option Str;
  rmd_ytdlp_path : option Str;
  rmd_ytdlp_format : option Str;
  rmd_ytdlp_allowed_hosts : list Str;
  rmd_ytdlp_pot_provider_url : option Str;
  rmd_processing_timeout_seconds : option Z;
  rmd_source_download_max_bytes : option Z;
  rmd_normalized_storage_max_bytes : option Z;
  rmd_inline_video : RawInlineVideoConfig;
}.
Record RawCompanionConfig := {
  rcm_listen_address : option Str;
  rcm_backend_url : option Str;
  rcm_local_token : option Str;
  rcm_backend_token : option Str;
  rcm_request_body_limit_bytes : option Z;
  rcm_request_timeout_seconds : option Z;
}.
Record RawDatabaseConfig := { rdb_url_env : option Str; rdb_max_connections : option Z }.
Record RawTelegramConfig := {
  rtg_api_base_url : option Str;
  rtg_admin_user_ids : list Z;
  rtg_poll_timeout_seconds : option Z;
  rtg_upload_timeout_seconds : option Z;
  rtg_source_download_max_bytes : option Z;
  rtg_local_file_root : option Str;
  rtg_storage_chat_id : option Z;
}.
Record RawObservabilityConfig := { rob_log_format : option Str; rob_log_level : option Str }.
Record RawSecretConfig := {
  rse_database_url : option Str;
  rse_telegram_bot_token : option Str;
  rse_api_token : option Str;
}.
Record RawConfig := {
  rc_server : RawServerConfig;
  rc_worker : RawWorkerConfig;
  rc_media : RawMediaConfig;
  rc_companion : RawCompanionConfig;
  rc_database : RawDatabaseConfig;
  rc_telegram : RawTelegramConfig;
  rc_observability : RawObservabilityConfig;
  rc_secrets : RawSecretConfig;
}.

(** ** Constants *)

Definition MAX_JOB_RETENTION_HORIZON_SECONDS : Z := 10 * 365 * 24 * 60 * 60.
Definition MAX_JOB_RETENTION_BATCH_SIZE : Z := 10000.
Definition MAX_JOB_RETENTION_SCAN_SIZE : Z := 100000.
Definition MAX_COMPANION_REQUEST_BODY_LIMIT_BYTES : Z := 1024 * 1024.
Definition MAX_COMPANION_REQUEST_TIMEOUT_SECONDS : Z := 60.
Definition MAX_YTDLP_ALLOWED_HOSTS : Z := 32.
Definition MAX_YTDLP_ALLOWED_HOST_LENGTH : Z := 253.
Definition MAX_YTDLP_POT_PROVIDER_URL_LENGTH : Z := 256.
Definition MAX_MEDIA_PROCESSING_TIMEOUT_SECONDS : Z := 24 * 60 * 60.
Definition MAX_TELEGRAM_UPLOAD_TIMEOUT_SECONDS : Z := 24 * 60 * 60.
Definition TELEGRAM_LOCAL_MAX_UPLOAD_BYTES : Z := 2000000000.
Definition MAX_MEDIA_WORK_FREE_SPACE_RESERVE_BYTES : Z := 2 ^ 50.

(** ** Values *)

(** [FromStr] of [bool]. *)
Definition parse_bool (s : Str) : option bool :=
  if decide (s = lit "true") then Some true else if decide (s = lit "false") then Some false else None.

Definition parse_socket_address (name : string) (value : Str) : result ConfigError SocketAddr :=
  ok_or (socket_addr_from_str value)
    (invalid name "expected an IP address and port such as 127.0.0.1:8080").

Definition parse_log_format (value : Str) : result ConfigError LogFormat :=
  let value := to_ascii_lowercase value in
  if decide (value = lit "json") then Ok FormatJson
  else if decide (value = lit "pretty") then Ok FormatPretty
  else Err (invalid "observability.log_format" "expected json or pretty").
Definition normalize_log_level (value : Str) : result ConfigError Str :=
  let normalized := to_ascii_lowercase value in
  if decide (normalized ∈ lit <$> ["trace"; "debug"; "info"; "warn"; "error"]%string) then Ok normalized
  else Err (invalid "observability.log_level" "expected trace, debug, info, warn, or error").

Definition parse_admin_user_ids (name : string) (value : Str) : result ConfigError (list Z) :=
  ok_or (mapM (parse_i64 ∘ trim) (split_at_char 44 value []))
    (invalid name "expected comma-separated positive Telegram user IDs").

Definition configured_state (s : option SecretString) : Str :=
  match s with
  | Some s => if is_configured s then lit "configured" else lit "absent"
  | None => lit "absent"
  end.

(** [sort_unstable] and [dedup] on strings: the order of the bytes is the order of the
    characters. *)
Fixpoint str_le (a b : Str) : bool :=
  match a, b with
  | [], _ => true
  | _ :: _, [] => false
  | x :: a, y :: b => (x <? y) || ((x =? y) && str_le a b)
  end.
Fixpoint str_insert (s : Str) (l : list Str) : list Str :=
  match l with
  | [] => [s]
  | x :: r => if str_le s x then s :: l else x :: str_insert s r
  end.
Definition str_sort (l : list Str) : list Str := foldr str_insert [] l.
Fixpoint str_dedup (l : list Str) : list Str :=
  match l with
  | x :: (y :: _) as r => if decide (x = y) then str_dedup r else x :: str_dedup r
  | _ => l
  end.

Definition is_supported_ytdlp_host (host : Str) : bool :=
  bool_decide (host = lit "youtube.com") || ends_with (lit ".youtube.com") host
  || bool_decide (host = lit "youtu.be") || ends_with (lit ".youtu.be") host
  || bool_decide (host ∈ lit <$>
       ["tiktok.com"; "www.tiktok.com"; "vm.tiktok.com"; "vt.tiktok.com"; "m.tiktok.com"; "instagram.com";
        "www.instagram.com"; "x.com"; "www.x.com"; "twitter.com"; "www.twitter.com"; "t.co"]%string).

Section Urls.
Context {U : UrlSyntax}.

(** One entry of the host list. *)
Definition parse_allowed_host (name : string) (raw : Str) : result ConfigError Str :=
  let value := trim raw in
  _ ← ensure (negb (is_empty value)) (invalid name "must not contain empty host entries");
  _ ← ensure (negb ((MAX_YTDLP_ALLOWED_HOST_LENGTH <? byte_len value) || existsb is_control value
                    || contains (lit "*") value || contains (lit "/") value
                    || contains (lit "?") value || contains (lit "#") value))
        (invalid name "entries must be bounded hostnames without wildcards, paths, or control characters");
  parsed ← ok_or (url_info (lit "https://" ++ value)) (invalid name "entries must be valid hostnames");
  _ ← ensure (is_empty (ui_username parsed) && bool_decide (ui_password parsed = None)
              && bool_decide (ui_query parsed = None) && bool_decide (ui_fragment parsed = None)
              && bool_decide (ui_path parsed = lit "/"))
        (invalid name "entries must be hostnames without credentials, paths, queries, or fragments");
  _ ← ensure (match ui_port parsed with
              | Some port => port =? (if decide (ui_scheme parsed = lit "http") then 80 else 443)
              | None => true
              end)
        (invalid name "entries must not use a non-default port");
  host ← ok_or (host_text <$> ui_host parsed) (invalid name "entries must contain a hostname");
  let host := strip_dot host in
  _ ← ensure (negb (is_empty host || (MAX_YTDLP_ALLOWED_HOST_LENGTH <? byte_len host)
                    || ends_with (lit ".") host
                    || negb (match ui_host parsed with Some (Domain _) => true | _ => false end)
                    || existsb is_empty (split_at_char 46 host [])))
        (invalid name "entries must be non-empty DNS hostnames, not IP literals");
  let host := to_ascii_lowercase host in
  _ ← ensure (is_supported_ytdlp_host host)
        (invalid name "entries must belong to a supported YouTube, TikTok, Instagram, or X provider family");
  Ok host.

Fixpoint parse_each (name : string) (values : list Str) : result ConfigError (list Str) :=
  match values with
  | [] => Ok []
  | raw :: values => host ← parse_allowed_host name raw; hosts ← parse_each name values; Ok (host :: hosts)
  end.
Definition parse_ytdlp_allowed_hosts (name : string) (values : list Str) : result ConfigError (list Str) :=
  _ ← ensure (Z.of_nat (length values) <=? MAX_YTDLP_ALLOWED_HOSTS)
        (invalid name "must contain at most 32 host entries");
  normalized ← parse_each name values;
  Ok (str_dedup (str_sort normalized)).

Definition parse_ytdlp_pot_provider_url (name : string) (value : Str) : result ConfigError Str :=
  let value := trim value in
  _ ← ensure (negb (is_empty value || (MAX_YTDLP_POT_PROVIDER_URL_LENGTH <? byte_len value)))
        (invalid name "must be a bounded HTTP(S) provider origin");
  parsed ← ok_or (url_info value) (invalid name "must be a valid HTTP(S) provider URL");
  _ ← ensure (is_safe_internal_http_url parsed OriginOnly)
        (invalid name "must be an HTTP(S) provider origin without credentials, path, query, or fragment; HTTP hosts must be private");
  Ok value.

(** ** The file *)

(** The derived [Deserialize]: unsigned fields are not negative. *)
Definition natural (o : option Z) : Prop := match o with Some n => 0 <= n | None => True end.
Definition raw_typed (r : RawConfig) : Prop :=
  natural (rwk_poll_interval_seconds (rc_worker r)) ∧ natural (rwk_lease_duration_seconds (rc_worker r))
  ∧ natural (rjr_succeeded_seconds (rwk_job_retention (rc_worker r)))
  ∧ natural (rjr_cancelled_seconds (rwk_job_retention (rc_worker r)))
  ∧ natural (rjr_failed_seconds (rwk_job_retention (rc_worker r)))
  ∧ natural (rjr_batch_size (rwk_job_retention (rc_worker r)))
  ∧ natural (rjr_scan_size (rwk_job_retention (rc_worker r)))
  ∧ natural (rmd_source_download_max_bytes (rc_media r))
  ∧ natural (rtg_poll_timeout_seconds (rc_telegram r))
  ∧ natural (rtg_upload_timeout_seconds (rc_telegram r)).
Class Toml := {
  toml_from_str : Str → result Str RawConfig;
  toml_typed : ∀ s r, toml_from_str s = Ok r → raw_typed r;
}.
Context {T : Toml}.

Definition read_server (r : RawServerConfig) : ServerConfig :=
  {| srv_listen_address := default (lit "0.0.0.0:8080") (rsv_listen_address r);
     srv_request_body_limit_bytes := default 1048576 (rsv_request_body_limit_bytes r);
     srv_request_timeout_seconds := default 30 (rsv_request_timeout_seconds r) |}.
Definition read_job_retention (r : RawJobRetentionConfig) : JobRetentionConfig :=
  {| jrc_enabled := default true (rjr_enabled r);
     jrc_succeeded_seconds := default (30 * 24 * 60 * 60) (rjr_succeeded_seconds r);
     jrc_cancelled_seconds := default (90 * 24 * 60 * 60) (rjr_cancelled_seconds r);
     jrc_failed_seconds := default (365 * 24 * 60 * 60) (rjr_failed_seconds r);
     jrc_batch_size := default 128 (rjr_batch_size r);
     jrc_scan_size := default 1024 (rjr_scan_size r) |}.
Definition read_worker (r : RawWorkerConfig) : WorkerConfig :=
  {| wkc_poll_interval_seconds := default 5 (rwk_poll_interval_seconds r);
     wkc_lease_duration_seconds := default 60 (rwk_lease_duration_seconds r);
     wkc_job_retention := read_job_retention (rwk_job_retention r) |}.
Definition read_inline_video (r : RawInlineVideoConfig) : InlineVideoConfig :=
  {| ivc_target_max_bytes := default (14 * 1024 * 1024) (riv_target_max_bytes r);
     ivc_quality_crf := default 27 (riv_quality_crf r);
     ivc_minimum_short_edge := default 480 (riv_minimum_short_edge r) |}.
Definition read_media (r : RawMediaConfig) : result ConfigError MediaConfig :=
  hosts ← parse_ytdlp_allowed_hosts "media.ytdlp_allowed_hosts" (rmd_ytdlp_allowed_hosts r);
  pot ← parse_ytdlp_pot_provider_url "media.ytdlp_pot_provider_url"
          (default (lit "http://127.0.0.1:4416") (rmd_ytdlp_pot_provider_url r));
  Ok {| mdc_work_root := default (lit "/var/lib/sooqa/work") (rmd_work_root r);
        mdc_work_free_space_reserve_bytes :=
          default (16 * 1024 * 1024 * 1024) (rmd_work_free_space_reserve_bytes r);
        mdc_ffmpeg_path := default (lit "ffmpeg") (rmd_ffmpeg_path r);
        mdc_ffprobe_path := default (lit "ffprobe") (rmd_ffprobe_path r);
        mdc_ytdlp_path := default (lit "yt-dlp") (rmd_ytdlp_path r);
        mdc_ytdlp_format := default (lit "bestvideo*+bestaudio/best") (rmd_ytdlp_format r);
        mdc_ytdlp_allowed_hosts := hosts;
        mdc_ytdlp_pot_provider_url := pot;
        mdc_processing_timeout_seconds := default 3600 (rmd_processing_timeout_seconds r);
        mdc_source_download_max_bytes := default (8 * 1024 * 1024 * 1024) (rmd_source_download_max_bytes r);
        mdc_normalized_storage_max_bytes := default 1900000000 (rmd_normalized_storage_max_bytes r);
        mdc_inline_video := read_inline_video (rmd_inline_video r) |}.
Definition read_companion (r : RawCompanionConfig) : CompanionConfig :=
  {| cmc_listen_address := default (lit "127.0.0.1:47831") (rcm_listen_address r);
     cmc_backend_url := default (lit "http://127.0.0.1:8080") (rcm_backend_url r);
     cmc_local_token := secret (default [] (rcm_local_token r));
     cmc_backend_token := secret (default [] (rcm_backend_token r));
     cmc_request_body_limit_bytes := default (64 * 1024) (rcm_request_body_limit_bytes r);
     cmc_request_timeout_seconds := default 15 (rcm_request_timeout_seconds r) |}.
Definition read_database (r : RawDatabaseConfig) : DatabaseConfig :=
  {| dbc_url_env := default (lit "DATABASE_URL") (rdb_url_env r);
     dbc_max_connections := default 20 (rdb_max_connections r) |}.
Definition read_telegram (r : RawTelegramConfig) : TelegramConfig :=
  {| tgc_api_base_url := default (lit "https://api.telegram.org") (rtg_api_base_url r);
     tgc_admin_user_ids := rtg_admin_user_ids r;
     tgc_poll_timeout_seconds := default 30 (rtg_poll_timeout_seconds r);
     tgc_upload_timeout_seconds := default 3600 (rtg_upload_timeout_seconds r);
     tgc_source_download_max_bytes := default (2 * 1024 * 1024 * 1024) (rtg_source_download_max_bytes r);
     tgc_local_file_root := (path ← rtg_local_file_root r; if is_empty path then None else Some path);
     tgc_storage_chat_id := rtg_storage_chat_id r |}.
Definition read_secrets (r : RawSecretConfig) : SecretConfig :=
  {| sec_database_url := secret <$> rse_database_url r;
     sec_telegram_bot_token := secret <$> rse_telegram_bot_token r;
     sec_api_token := secret <$> rse_api_token r |}.

Definition from_toml_str (role : AppRole) (config_path : option Str) (contents : Str)
    : result ConfigError AppConfig :=
  raw ← map_err ParseToml (toml_from_str contents);
  log_format ← parse_log_format (default (lit "json") (rob_log_format (rc_observability raw)));
  log_level ← normalize_log_level (default (lit "info") (rob_log_level (rc_observability raw)));
  media ← read_media (rc_media raw);
  Ok {| ac_role := role; ac_config_path := config_path;
        ac_server := read_server (rc_server raw);
        ac_worker := read_worker (rc_worker raw);
        ac_media := media;
        ac_companion := read_companion (rc_companion raw);
        ac_database := read_database (rc_database raw);
        ac_telegram := read_telegram (rc_telegram raw);
        ac_observability := {| obc_log_format := log_format; obc_log_level := log_level |};
        ac_secrets := read_secrets (rc_secrets raw) |}.
End Urls.

(** ** The environment *)

Definition getter : Type := Str → result ConfigError (option Str).

Definition optional_env_string (env : Str → option (list Z)) : getter := λ name,
  match env name with
  | None => Ok None
  | Some bytes => value ← ok_or (from_utf8 bytes) (InvalidEnvironmentEncoding name); Ok (Some value)
  end.

Section Environment.
Context (get : getter).

Definition optional_env_value {A} (parse : Str → option A) (name reason : string)
    : result ConfigError (option A) :=
  value ← get (lit name);
  match value with
  | None => Ok None
  | Some value => a ← ok_or (parse value) (invalid name reason); Ok (Some a)
  end.
Definition optional_positive_integer (bound : Z) (name : string) : result ConfigError (option Z) :=
  optional_env_value (parse_unsigned bound) name "expected a positive integer".
Definition optional_byte_size (name : string) : result ConfigError (option Z) :=
  optional_env_value parse_u64 name "expected a positive integer".
Definition optional_duration_seconds (name : string) : result ConfigError (option Z) :=
  optional_env_value parse_u64 name "expected a positive integer".
Definition optional_path (name : string) : result ConfigError (option Str) := get (lit name).
Definition optional_socket_address (name config_name : string) : result ConfigError (option Str) :=
  value ← get (lit name);
  match value with
  | None => Ok None
  | Some value => _ ← parse_socket_address config_name value; Ok (Some value)
  end.

(** [if let Some(value) = .. { self.field = value; }]. *)
Definition assign {R A} (update : A → R → R) (value : option A) (r : R) : R :=
  match value with Some v => update v r | None => r end.

Definition server_environment (c : ServerConfig) : result ConfigError ServerConfig :=
  v ← optional_socket_address "SOOQA_SERVER_LISTEN_ADDRESS" "server.listen_address";
  Ok (assign (λ v c, c <| srv_listen_address := v |>) v c).

Definition job_retention_environment (c : JobRetentionConfig) : result ConfigError JobRetentionConfig :=
  v ← optional_env_value parse_bool "SOOQA_WORKER_JOB_RETENTION_ENABLED" "expected true or false";
  let c := assign (λ v c, c <| jrc_enabled := v |>) v c in
  v ← optional_duration_seconds "SOOQA_WORKER_JOB_RETENTION_SUCCEEDED_SECONDS";
  let c := assign (λ v c, c <| jrc_succeeded_seconds := v |>) v c in
  v ← optional_duration_seconds "SOOQA_WORKER_JOB_RETENTION_CANCELLED_SECONDS";
  let c := assign (λ v c, c <| jrc_cancelled_seconds := v |>) v c in
  v ← optional_duration_seconds "SOOQA_WORKER_JOB_RETENTION_FAILED_SECONDS";
  let c := assign (λ v c, c <| jrc_failed_seconds := v |>) v c in
  v ← optional_positive_integer u64_max "SOOQA_WORKER_JOB_RETENTION_BATCH_SIZE";
  let c := assign (λ v c, c <| jrc_batch_size := v |>) v c in
  v ← optional_positive_integer u64_max "SOOQA_WORKER_JOB_RETENTION_SCAN_SIZE";
  Ok (assign (λ v c, c <| jrc_scan_size := v |>) v c).

Definition worker_environment (c : WorkerConfig) : result ConfigError WorkerConfig :=
  v ← optional_duration_seconds "SOOQA_WORKER_POLL_INTERVAL_SECONDS";
  let c := assign (λ v c, c <| wkc_poll_interval_seconds := v |>) v c in
  v ← optional_duration_seconds "SOOQA_WORKER_LEASE_DURATION_SECONDS";
  let c := assign (λ v c, c <| wkc_lease_duration_seconds := v |>) v c in
  r ← job_retention_environment (wkc_job_retention c);
  Ok (c <| wkc_job_retention := r |>).

Definition inline_video_environment (c : InlineVideoConfig) : result ConfigError InlineVideoConfig :=
  v ← optional_byte_size "SOOQA_MEDIA_INLINE_VIDEO_TARGET_MAX_BYTES";
  let c := assign (λ v c, c <| ivc_target_max_bytes := v |>) v c in
  v ← optional_env_value (parse_unsigned 255) "SOOQA_MEDIA_INLINE_VIDEO_QUALITY_CRF"
        "expected an integer between 0 and 51";
  let c := assign (λ v c, c <| ivc_quality_crf := v |>) v c in
  v ← optional_positive_integer u32_max "SOOQA_MEDIA_INLINE_VIDEO_MINIMUM_SHORT_EDGE";
  Ok (assign (λ v c, c <| ivc_minimum_short_edge := v |>) v c).

Definition media_environment `{UrlSyntax} (c : MediaConfig) : result ConfigError MediaConfig :=
  v ← optional_path "SOOQA_MEDIA_FFMPEG_PATH";
  let c := assign (λ v c, c <| mdc_ffmpeg_path := v |>) v c in
  v ← optional_path "SOOQA_MEDIA_WORK_ROOT";
  let c := assign (λ v c, c <| mdc_work_root := v |>) v c in
  v ← optional_byte_size "SOOQA_MEDIA_WORK_FREE_SPACE_RESERVE_BYTES";
  let c := assign (λ v c, c <| mdc_work_free_space_reserve_bytes := v |>) v c in
  v ← optional_path "SOOQA_MEDIA_FFPROBE_PATH";
  let c := assign (λ v c, c <| mdc_ffprobe_path := v |>) v c in
  v ← optional_path "SOOQA_MEDIA_YTDLP_PATH";
  let c := assign (λ v c, c <| mdc_ytdlp_path := v |>) v c in
  v ← get (lit "SOOQA_MEDIA_YTDLP_FORMAT");
  let c := assign (λ v c, c <| mdc_ytdlp_format := v |>) v c in
  v ← get (lit "SOOQA_MEDIA_YTDLP_ALLOWED_HOSTS");
  c ← match v with
      | None => Ok c
      | Some value =>
          hosts ← parse_ytdlp_allowed_hosts "SOOQA_MEDIA_YTDLP_ALLOWED_HOSTS"
                    (if is_empty (trim value) then [] else split_at_char 44 value []);
          Ok (c <| mdc_ytdlp_allowed_hosts := hosts |>)
      end;
  v ← get (lit "SOOQA_MEDIA_YTDLP_POT_PROVIDER_URL");
  c ← match v with
      | None => Ok c
      | Some value => url ← parse_ytdlp_pot_provider_url "SOOQA_MEDIA_YTDLP_POT_PROVIDER_URL" value;
                      Ok (c <| mdc_ytdlp_pot_provider_url := url |>)
      end;
  v ← optional_duration_seconds "SOOQA_MEDIA_PROCESSING_TIMEOUT_SECONDS";
  let c := assign (λ v c, c <| mdc_processing_timeout_seconds := v |>) v c in
  v ← optional_byte_size "SOOQA_MEDIA_SOURCE_DOWNLOAD_MAX_BYTES";
  let c := assign (λ v c, c <| mdc_source_download_max_bytes := v |>) v c in
  v ← optional_byte_size "SOOQA_MEDIA_NORMALIZED_STORAGE_MAX_BYTES";
  let c := assign (λ v c, c <| mdc_normalized_storage_max_bytes := v |>) v c in
  i ← inline_video_environment (mdc_inline_video c);
  Ok (c <| mdc_inline_video := i |>).

Definition companion_environment (c : CompanionConfig) : result ConfigError CompanionConfig :=
  v ← optional_socket_address "SOOQA_COMPANION_LISTEN_ADDRESS" "companion.listen_address";
  let c := assign (λ v c, c <| cmc_listen_address := v |>) v c in
  v ← get (lit "SOOQA_COMPANION_BACKEND_URL");
  let c := assign (λ v c, c <| cmc_backend_url := v |>) v c in
  v ← get (lit "SOOQA_COMPANION_LOCAL_TOKEN");
  let c := assign (λ v c, c <| cmc_local_token := secret v |>) v c in
  v ← get (lit "SOOQA_COMPANION_BACKEND_TOKEN");
  let c := assign (λ v c, c <| cmc_backend_token := secret v |>) v c in
  v ← optional_byte_size "SOOQA_COMPANION_REQUEST_BODY_LIMIT_BYTES";
  let c := assign (λ v c, c <| cmc_request_body_limit_bytes := v |>) v c in
  v ← optional_duration_seconds "SOOQA_COMPANION_REQUEST_TIMEOUT_SECONDS";
  Ok (assign (λ v c, c <| cmc_request_timeout_seconds := v |>) v c).

Definition database_environment (c : DatabaseConfig) : result ConfigError DatabaseConfig :=
  v ← optional_positive_integer u32_max "SOOQA_DATABASE_MAX_CONNECTIONS";
  Ok (assign (λ v c, c <| dbc_max_connections := v |>) v c).

Definition telegram_environment (c : TelegramConfig) : result ConfigError TelegramConfig :=
  v ← get (lit "SOOQA_TELEGRAM_API_BASE_URL");
  let c := assign (λ v c, c <| tgc_api_base_url := v |>) v c in
  v ← get (lit "SOOQA_TELEGRAM_ADMIN_USER_IDS");
  c ← match v with
      | None => Ok c
      | Some value => ids ← parse_admin_user_ids "SOOQA_TELEGRAM_ADMIN_USER_IDS" value;
                      Ok (c <| tgc_admin_user_ids := ids |>)
      end;
  v ← optional_duration_seconds "SOOQA_TELEGRAM_POLL_TIMEOUT_SECONDS";
  let c := assign (λ v c, c <| tgc_poll_timeout_seconds := v |>) v c in
  v ← optional_duration_seconds "SOOQA_TELEGRAM_UPLOAD_TIMEOUT_SECONDS";
  let c := assign (λ v c, c <| tgc_upload_timeout_seconds := v |>) v c in
  v ← optional_byte_size "SOOQA_TELEGRAM_SOURCE_DOWNLOAD_MAX_BYTES";
  let c := assign (λ v c, c <| tgc_source_download_max_bytes := v |>) v c in
  v ← optional_path "SOOQA_TELEGRAM_LOCAL_FILE_ROOT";
  let c := assign (λ v c, c <| tgc_local_file_root := if is_empty v then None else Some v |>) v c in
  v ← optional_env_value parse_i64 "SOOQA_TELEGRAM_STORAGE_CHAT_ID" "expected a negative Telegram chat ID";
  Ok (assign (λ v c, c <| tgc_storage_chat_id := Some v |>) v c).

Definition observability_environment (c : ObservabilityConfig) : result ConfigError ObservabilityConfig :=
  v ← get (lit "SOOQA_OBSERVABILITY_LOG_FORMAT");
  c ← match v with
      | None => Ok c
      | Some value => f ← parse_log_format value; Ok (c <| obc_log_format := f |>)
      end;
  v ← get (lit "SOOQA_OBSERVABILITY_LOG_LEVEL");
  match v with
  | None => Ok c
  | Some value => level ← normalize_log_level value; Ok (c <| obc_log_level := level |>)
  end.

Definition secrets_environment (database_url_env : Str) (c : SecretConfig) : result ConfigError SecretConfig :=
  v ← get (lit "SOOQA_DATABASE_URL");
  c ← match v with
      | Some value => Ok (c <| sec_database_url := Some (secret value) |>)
      | None => v ← get database_url_env; Ok (assign (λ v c, c <| sec_database_url := Some (secret v) |>) v c)
      end;
  v ← get (lit "SOOQA_TELEGRAM_BOT_TOKEN");
  let c := assign (λ v c, c <| sec_telegram_bot_token := Some (secret v) |>) v c in
  v ← get (lit "SOOQA_API_TOKEN");
  Ok (assign (λ v c, c <| sec_api_token := Some (secret v) |>) v c).

Definition apply_environment `{UrlSyntax} (c : AppConfig) : result ConfigError AppConfig :=
  server ← server_environment (ac_server c);
  worker ← worker_environment (ac_worker c);
  media ← media_environment (ac_media c);
  companion ← companion_environment (ac_companion c);
  observability ← observability_environment (ac_observability c);
  secrets ← secrets_environment (dbc_url_env (ac_database c)) (ac_secrets c);
  database ← database_environment (ac_database c);
  telegram ← telegram_environment (ac_telegram c);
  Ok {| ac_role := ac_role c; ac_config_path := ac_config_path c; ac_server := server;
        ac_worker := worker; ac_media := media; ac_companion := companion; ac_database := database;
        ac_telegram := telegram; ac_observability := observability; ac_secrets := secrets |}.
End Environment.

(** ** Validation *)

Definition above_zero (value : Z) (name : string) : result ConfigError unit :=
  ensure (negb (value =? 0)) (invalid name "must be greater than zero").
Definition within (value limit : Z) (name reason : string) : result ConfigError unit :=
  ensure (negb ((value =? 0) || (limit <? value))) (invalid name reason).

Definition server_validate (c : ServerConfig) : result ConfigError unit :=
  _ ← parse_socket_address "server.listen_address" (srv_listen_address c);
  _ ← above_zero (srv_request_body_limit_bytes c) "server.request_body_limit_bytes";
  above_zero (srv_request_timeout_seconds c) "server.request_timeout_seconds".

Definition horizon (value : Z) (name : string) : result ConfigError unit :=
  within value MAX_JOB_RETENTION_HORIZON_SECONDS name "must be greater than zero and at most ten years".
Definition job_retention_validate (c : JobRetentionConfig) : result ConfigError unit :=
  _ ← horizon (jrc_succeeded_seconds c) "worker.job_retention.succeeded_seconds";
  _ ← horizon (jrc_cancelled_seconds c) "worker.job_retention.cancelled_seconds";
  _ ← horizon (jrc_failed_seconds c) "worker.job_retention.failed_seconds";
  _ ← within (jrc_batch_size c) MAX_JOB_RETENTION_BATCH_SIZE "worker.job_retention.batch_size"
        "must be greater than zero and at most 10000";
  ensure (negb ((jrc_scan_size c <? jrc_batch_size c) || (MAX_JOB_RETENTION_SCAN_SIZE <? jrc_scan_size c)))
    (invalid "worker.job_retention.scan_size" "must be at least batch_size and at most 100000").

Definition worker_validate (c : WorkerConfig) : result ConfigError unit :=
  _ ← above_zero (wkc_poll_interval_seconds c) "worker.poll_interval_seconds";
  _ ← above_zero (wkc_lease_duration_seconds c) "worker.lease_duration_seconds";
  job_retention_validate (wkc_job_retention c).

Definition inline_video_validate (c : InlineVideoConfig) : result ConfigError unit :=
  _ ← above_zero (ivc_target_max_bytes c) "media.inline_video.target_max_bytes";
  _ ← ensure (ivc_quality_crf c <=? 51) (invalid "media.inline_video.quality_crf" "must be between 0 and 51");
  _ ← above_zero (ivc_minimum_short_edge c) "media.inline_video.minimum_short_edge";
  ensure (ivc_minimum_short_edge c <=? 1080)
    (invalid "media.inline_video.minimum_short_edge" "must be at most the canonical 1080p short-edge limit").

Definition not_empty (path : Str) (name : string) : result ConfigError unit :=
  ensure (negb (is_empty path)) (invalid name "must not be empty").

Definition media_validate `{UrlSyntax} (c : MediaConfig) : result ConfigError unit :=
  _ ← above_zero (mdc_processing_timeout_seconds c) "media.processing_timeout_seconds";
  _ ← ensure (mdc_processing_timeout_seconds c <=? MAX_MEDIA_PROCESSING_TIMEOUT_SECONDS)
        (invalid "media.processing_timeout_seconds" "must be at most 24 hours");
  _ ← above_zero (mdc_source_download_max_bytes c) "media.source_download_max_bytes";
  _ ← above_zero (mdc_work_free_space_reserve_bytes c) "media.work_free_space_reserve_bytes";
  _ ← ensure (mdc_work_free_space_reserve_bytes c <=? MAX_MEDIA_WORK_FREE_SPACE_RESERVE_BYTES)
        (invalid "media.work_free_space_reserve_bytes" "must be at most 1 PiB");
  _ ← above_zero (mdc_normalized_storage_max_bytes c) "media.normalized_storage_max_bytes";
  _ ← ensure (mdc_normalized_storage_max_bytes c <? TELEGRAM_LOCAL_MAX_UPLOAD_BYTES)
        (invalid "media.normalized_storage_max_bytes" "must be below Telegram's 2000 MB local upload limit");
  _ ← inline_video_validate (mdc_inline_video c);
  _ ← parse_ytdlp_allowed_hosts "media.ytdlp_allowed_hosts" (mdc_ytdlp_allowed_hosts c);
  _ ← parse_ytdlp_pot_provider_url "media.ytdlp_pot_provider_url" (mdc_ytdlp_pot_provider_url c);
  _ ← not_empty (mdc_work_root c) "media.work_root";
  _ ← not_empty (mdc_ffmpeg_path c) "media.ffmpeg_path";
  _ ← not_empty (mdc_ffprobe_path c) "media.ffprobe_path";
  _ ← not_empty (mdc_ytdlp_path c) "media.ytdlp_path";
  _ ← ensure (negb (is_empty (trim (mdc_ytdlp_format c)))) (invalid "media.ytdlp_format" "must not be empty");
  ensure (negb (starts_with (lit "-") (mdc_ytdlp_format c) || existsb is_control (mdc_ytdlp_format c)))
    (invalid "media.ytdlp_format" "must not start with an option prefix or contain control characters").

Definition companion_validate `{UrlSyntax} (c : CompanionConfig) : result ConfigError unit :=
  address ← parse_socket_address "companion.listen_address" (cmc_listen_address c);
  _ ← ensure (ip_is_loopback (sa_ip address)) (invalid "companion.listen_address" "must use a loopback address");
  backend ← ok_or (url_info (cmc_backend_url c))
              (invalid "companion.backend_url" "must be a valid HTTP(S) URL");
  _ ← ensure (is_safe_internal_http_url backend AnyPath)
        (invalid "companion.backend_url" "must be an HTTP(S) URL without credentials, query, or fragment; HTTP URLs must use a private host");
  _ ← ensure (is_configured (cmc_local_token c)) (MissingSecret (lit "Companion local token"));
  _ ← ensure (is_configured (cmc_backend_token c)) (MissingSecret (lit "Companion backend token"));
  _ ← ensure (negb (bool_decide (expose_secret (cmc_local_token c) = expose_secret (cmc_backend_token c))))
        (invalid "companion.local_token" "must be distinct from the backend token");
  _ ← within (cmc_request_body_limit_bytes c) MAX_COMPANION_REQUEST_BODY_LIMIT_BYTES
        "companion.request_body_limit_bytes" "must be greater than zero and at most 1 MiB";
  within (cmc_request_timeout_seconds c) MAX_COMPANION_REQUEST_TIMEOUT_SECONDS
    "companion.request_timeout_seconds" "must be greater than zero and at most 60 seconds".

Definition database_validate (c : DatabaseConfig) : result ConfigError unit :=
  above_zero (dbc_max_connections c) "database.max_connections".

Definition telegram_validate `{UrlSyntax} (c : TelegramConfig) (s : SecretConfig) : result ConfigError unit :=
  api ← ok_or (url_info (tgc_api_base_url c)) (invalid "telegram.api_base_url" "must be a valid HTTP(S) URL");
  _ ← ensure (is_safe_internal_http_url api AnyPath)
        (invalid "telegram.api_base_url" "must be an HTTP(S) URL without credentials; HTTP URLs must use a private host");
  _ ← above_zero (tgc_poll_timeout_seconds c) "telegram.poll_timeout_seconds";
  _ ← above_zero (tgc_upload_timeout_seconds c) "telegram.upload_timeout_seconds";
  _ ← ensure (tgc_upload_timeout_seconds c <=? MAX_TELEGRAM_UPLOAD_TIMEOUT_SECONDS)
        (invalid "telegram.upload_timeout_seconds" "must be at most 24 hours");
  _ ← above_zero (tgc_source_download_max_bytes c) "telegram.source_download_max_bytes";
  _ ← ensure (match tgc_local_file_root c with Some path => starts_with (lit "/") path | None => true end)
        (invalid "telegram.local_file_root" "must be an absolute path");
  _ ← ensure (match tgc_storage_chat_id c with Some id => id <? 0 | None => true end)
        (invalid "telegram.storage_chat_id" "must be a negative Telegram channel or group ID");
  _ ← ensure (negb (match sec_telegram_bot_token s with Some t => is_configured t | None => false end
                    && (length (tgc_admin_user_ids c) =? 0)%nat))
        (invalid "telegram.admin_user_ids" "must configure at least one administrator when a bot token is set");
  ensure (forallb (λ id, 0 <? id) (tgc_admin_user_ids c))
    (invalid "telegram.admin_user_ids" "must contain positive Telegram user IDs").

Definition app_validate `{UrlSyntax} (c : AppConfig) : result ConfigError unit :=
  match ac_role c with
  | RoleServer =>
      _ ← server_validate (ac_server c);
      _ ← database_validate (ac_database c);
      telegram_validate (ac_telegram c) (ac_secrets c)
  | RoleWorker =>
      _ ← worker_validate (ac_worker c);
      _ ← database_validate (ac_database c);
      _ ← media_validate (ac_media c);
      telegram_validate (ac_telegram c) (ac_secrets c)
  | RoleCompanion => companion_validate (ac_companion c)
  end.

(** ** Loading *)

Definition load `{UrlSyntax} `{Toml} (read_to_string : Str → result Str Str) (env : Str → option (list Z))
    (role : AppRole) (cli_path : option Str) : result ConfigError AppConfig :=
  let get := optional_env_string env in
  path ← match cli_path with
         | Some path => Ok (Some path)
         | None => optional_path get "SOOQA_CONFIG_FILE"
         end;
  contents ← match path with
             | Some path => map_err (ReadFile path) (read_to_string path)
             | None => Ok []
             end;
  config ← from_toml_str role path contents;
  config ← apply_environment get config;
  _ ← app_validate config;
  Ok config.

(** ** The summary *)

Definition show_bool (b : bool) : Str := lit (if b then "true" else "false").
(** The entries in their order, each a key and a value. *)
Definition summary_entries (c : AppConfig) : list (string * Str) :=
  let w := ac_worker c in
  let r := wkc_job_retention w in
  let m := ac_media c in
  let t := ac_telegram c in
  [("role", role_text (ac_role c));
   ("config_file", default (lit "<defaults>") (ac_config_path c));
   ("server.listen_address", srv_listen_address (ac_server c));
   ("worker.poll_interval_seconds", show (wkc_poll_interval_seconds w));
   ("worker.lease_duration_seconds", show (wkc_lease_duration_seconds w));
   ("worker.job_retention.enabled", show_bool (jrc_enabled r));
   ("worker.job_retention.succeeded_seconds", show (jrc_succeeded_seconds r));
   ("worker.job_retention.cancelled_seconds", show (jrc_cancelled_seconds r));
   ("worker.job_retention.failed_seconds", show (jrc_failed_seconds r));
   ("worker.job_retention.batch_size", show (jrc_batch_size r));
   ("worker.job_retention.scan_size", show (jrc_scan_size r));
   ("media.work_root", mdc_work_root m);
   ("media.work_free_space_reserve_bytes", show (mdc_work_free_space_reserve_bytes m));
   ("media.ffmpeg_path", mdc_ffmpeg_path m);
   ("media.ffprobe_path", mdc_ffprobe_path m);
   ("media.ytdlp_path", mdc_ytdlp_path m);
   ("media.ytdlp_format", mdc_ytdlp_format m);
   ("media.ytdlp_allowed_hosts", join_with (lit ",") (mdc_ytdlp_allowed_hosts m));
   ("media.ytdlp_pot_provider_url", mdc_ytdlp_pot_provider_url m);
   ("media.processing_timeout_seconds", show (mdc_processing_timeout_seconds m));
   ("media.source_download_max_bytes", show (mdc_source_download_max_bytes m));
   ("media.normalized_storage_max_bytes", show (mdc_normalized_storage_max_bytes m));
   ("media.inline_video.target_max_bytes", show (ivc_target_max_bytes (mdc_inline_video m)));
   ("media.inline_video.quality_crf", show (ivc_quality_crf (mdc_inline_video m)));
   ("media.inline_video.minimum_short_edge", show (ivc_minimum_short_edge (mdc_inline_video m)));
   ("companion.listen_address", cmc_listen_address (ac_companion c));
   ("companion.request_body_limit_bytes", show (cmc_request_body_limit_bytes (ac_companion c)));
   ("companion.request_timeout_seconds", show (cmc_request_timeout_seconds (ac_companion c)));
   ("database.url_env", dbc_url_env (ac_database c));
   ("database.max_connections", show (dbc_max_connections (ac_database c)));
   ("telegram.api_base_url", tgc_api_base_url t);
   ("telegram.admin_user_ids", show (Z.of_nat (length (tgc_admin_user_ids t))));
   ("telegram.poll_timeout_seconds", show (tgc_poll_timeout_seconds t));
   ("telegram.upload_timeout_seconds", show (tgc_upload_timeout_seconds t));
   ("telegram.source_download_max_bytes", show (tgc_source_download_max_bytes t));
   ("telegram.storage_chat_id", show_option (tgc_storage_chat_id t));
   ("observability.log_format", log_format_text (obc_log_format (ac_observability c)));
   ("observability.log_level", obc_log_level (ac_observability c));
   ("secret.database_url", configured_state (sec_database_url (ac_secrets c)));
   ("secret.telegram_bot_token", configured_state (sec_telegram_bot_token (ac_secrets c)));
   ("secret.api_token", configured_state (sec_api_token (ac_secrets c)))]%string.
Definition summary (c : AppConfig) : Str :=
  join_with (lit " ") ((λ '(key, value), lit key ++ lit "=" ++ value) <$> summary_entries c).
