(* ===== verification/FileLogic.v ===== *)
(** * FileLogic: the directory in which a handler works, and what it knows about its files

    The file system as the normalization handler sees it, the calls as steps of it, and
    what other processes may do between two calls.  A name is linked to an inode, so that
    a hard link shares its contents with the name it was made from.

    A handler is cancelled while it awaits a call.  The call goes on, and its effect may
    come after the destructors have run: the name it makes is then left behind.

    The handler names its files with fresh version 4 identifiers; nobody else uses those
    names, and nobody replaces a published output.  ffmpeg writes to its output file and
    below its pass log directory only.  A removal may fail: [wf_stuck] remembers the names
    for which one did.

    A view is what the program may rely on between two calls: the identifiers it has drawn,
    the destructors it has armed, the file nobody else is linked to, the digests of the
    files it has finished and the digests it has computed.  [Good] ties a view to a world,
    is kept by other processes, and each call has a rule. *)

From S2P Require Import Prelude Jobs Proc Preview Normalize Text Execute NormalizeVideo.

Inductive node := File (inode : nat) | Directory.
#[global] Instance node_eq_dec : EqDecision node.
Proof. solve_decision. Defined.

Record World := {
  wf_names : gmap Str node;
  wf_data : gmap nat (list Z);
  wf_guards : gset Str;                  (* the names with a destructor alive *)
  wf_stuck : gset Str;
  wf_issued : gset Uuid;                 (* the identifiers this handler has drawn *)
  wf_log : list (Str * FileDigest);      (* the digests it has computed *)
}.
#[global] Instance eta_world : Eta World := fun w =>
  Build_World (wf_names w) (wf_data w) (wf_guards w) (wf_stuck w) (wf_issued w) (wf_log w).

Section World.
Context {J : Json} {H : Sha256} (output : Str).

(** The names the handler makes from an identifier. *)
Definition named (u : Uuid) (p : Str) : Prop :=
  p = video_candidate_path output u ∨ p = passlog_directory output u
  ∨ ∃ u', p = temporary_output_path (video_candidate_path output u') u.
Definition owned (w : World) (p : Str) : Prop := ∃ u, u ∈ wf_issued w ∧ named u p.
Definition mine (w : World) (p : Str) : Prop := owned w p ∨ p = output.

Definition content (w : World) (p : Str) (d : FileDigest) : Prop :=
  ∃ i b, wf_names w !! p = Some (File i) ∧ wf_data w !! i = Some b ∧ d = sha256_bytes b.

(** What other processes may do. *)
Record env (w w' : World) : Prop := {
  env_guards : wf_guards w' = wf_guards w;
  env_stuck : wf_stuck w' = wf_stuck w;
  env_issued : wf_issued w' = wf_issued w;
  env_log : wf_log w' = wf_log w;
  env_owned : ∀ p, owned w p → wf_names w' !! p = wf_names w !! p;
  env_data : ∀ p i, mine w p → wf_names w !! p = Some (File i) → wf_data w' !! i = wf_data w !! i;
  env_output : ∀ n, wf_names w !! output = Some n → wf_names w' !! output = Some n;
  env_foreign : ∀ i, wf_names w' !! output = Some (File i) →
    wf_names w !! output = Some (File i) ∨ ∀ p, owned w p → wf_names w !! p ≠ Some (File i);
}.

(** The world with a destructor for [p]. *)
Definition arm (p : Str) (w : World) : World := w <| wf_guards := {[p]} ∪ wf_guards w |>.

Definition unlinked (w : World) (i : nat) : Prop := ∀ q, wf_names w !! q ≠ Some (File i).

(** A call, made in [w], leaves [w'] and is answered. *)
Definition step (c : call) (w w' : World) : answer c → Prop :=
  match c return answer c → Prop with
  | NewUuid => λ u,
      u ∉ wf_issued w ∧ (∀ p, named u p → wf_names w !! p = None ∧ p ∉ wf_guards w ∧ p ≠ output)
      ∧ w' = w <| wf_issued := {[u]} ∪ wf_issued w |>
  | SymlinkMetadata _ | Metadata _ => λ _, w' = w
  | ProbeFile _ => λ _, w' = w
  | CreateNew p => λ r,
      match r with
      | Ok _ => wf_names w !! p = None ∧ ∃ i, unlinked w i
                ∧ w' = w <| wf_names := <[p := File i]> (wf_names w) |>
                         <| wf_data := <[i := []]> (wf_data w) |>
      | Err _ => w' = w
      end
  | CreateDir p => λ r,
      match r with
      | Ok _ => wf_names w !! p = None ∧ w' = w <| wf_names := <[p := Directory]> (wf_names w) |>
      | Err _ => w' = w
      end
  | HardLink s d => λ r,
      match r with
      | Ok _ => ∃ i, wf_names w !! s = Some (File i) ∧ wf_names w !! d = None
                ∧ w' = w <| wf_names := <[d := File i]> (wf_names w) |>
      | Err IoAlreadyExists => is_Some (wf_names w !! d) ∧ w' = w
      | Err _ => w' = w
      end
  | RemoveFile p => λ r,
      match r with
      | Ok _ => (∃ i, wf_names w !! p = Some (File i)) ∧ w' = w <| wf_names := delete p (wf_names w) |>
      | Err IoNotFound => wf_names w !! p = None ∧ w' = w
      | Err _ => w' = w <| wf_stuck := {[p]} ∪ wf_stuck w |>
      end
  | RemoveDirAll p => λ r,
      match r with
      | Ok _ => wf_names w !! p = Some Directory ∧ w' = w <| wf_names := delete p (wf_names w) |>
      | Err IoNotFound => wf_names w !! p = None ∧ w' = w
      | Err _ => w' = w <| wf_stuck := {[p]} ∪ wf_stuck w |>
      end
  | PathExists p => λ b, w' = w ∧ (b = true → is_Some (wf_names w !! p))
  | Sha256File p => λ r,
      match r with
      | Ok d => content w p d ∧ w' = w <| wf_log := wf_log w ++ [(p, d)] |>
      | Err _ => w' = w
      end
  | RunCommand c => λ _,
      w' = w ∨ ∃ p i b, last (ec_args c) = Some p ∧ p ≠ lit "-"
                 ∧ wf_names w !! p = Some (File i) ∧ w' = w <| wf_data := <[i := b]> (wf_data w) |>
  | Arm p => λ _, w' = arm p w
  | Disarm p => λ _, w' = w <| wf_guards := wf_guards w ∖ {[p]} |>
  | DropGuards => λ _,
      ∃ failed, failed ⊆ wf_guards w
        ∧ w' = w <| wf_names := filter (λ x, x.1 ∉ wf_guards w ∖ failed) (wf_names w) |>
                 <| wf_guards := ∅ |> <| wf_stuck := failed ∪ wf_stuck w |>
  end.

(** Every name the handler owns has a destructor alive, or one that failed; and the same
    with one exception. *)
Definition guarded (w : World) : Prop :=
  ∀ p, owned w p → is_Some (wf_names w !! p) → p ∈ wf_guards w ∨ p ∈ wf_stuck w.
Definition guarded_but (except : option Str) (w : World) : Prop :=
  ∀ p, owned w p → is_Some (wf_names w !! p) → except ≠ Some p → p ∈ wf_guards w ∨ p ∈ wf_stuck w.

(** Guards are values: making, disarming and dropping them is not awaited, and a handler
    cannot be cancelled there. *)
Definition awaited (c : call) : bool :=
  match c with Arm _ | Disarm _ | DropGuards => false | _ => true end.
(** The name a call makes.  A call that is in flight when the handler is cancelled goes on,
    and may take effect after the destructors have run. *)
Definition creates (c : call) : option Str :=
  match c with CreateNew p | CreateDir p => Some p | HardLink _ d => Some d | _ => None end.

(** A published output is neither replaced nor written to. *)
Definition keeps_output (w w' : World) : Prop :=
  ∀ n, wf_names w !! output = Some n →
    wf_names w' !! output = Some n
    ∧ ∀ i, n = File i → wf_data w' !! i = wf_data w !! i.

(** The rule every call obeys: a call that is awaited is made with all files guarded, when
    it has taken effect all are guarded but the one it makes, and it keeps the output. *)
Definition file_rule (c : call) (w : World) (go : World → answer c → Prop) : Prop :=
  (awaited c = true → guarded w)
  ∧ ∀ w1 w2 x, env w w1 → step c w1 w2 x →
      keeps_output w1 w2 ∧ (awaited c = true → guarded_but (creates c) w2) ∧ go w2 x.

#[global] Instance file_rule_mono : RuleMono file_rule.
Proof. intros c w go go' Hgo [Hg Hs]. split; [done|]. intros w1 w2 x He Hst. naive_solver. Qed.
End World.

Record view := {
  v_issued : gset Uuid;
  v_armed : gset Str;
  v_private : option Str;
  v_known : gmap Str FileDigest;
  v_seen : list FileDigest;
}.
#[global] Instance eta_view : Eta view := fun v =>
  Build_view (v_issued v) (v_armed v) (v_private v) (v_known v) (v_seen v).

Section Logic.
Context {J : Json} {H : Sha256} {output : Str}.
Abbreviation owned := (owned output).
Abbreviation mine := (mine output).
Abbreviation env := (env output).
Abbreviation guarded := (guarded output).
Abbreviation guarded_but := (guarded_but output).
Abbreviation named := (named output).
Abbreviation rule := (file_rule output).

(** A digest the handler computed of a file other than the output. *)
Definition measured (w : World) (d : FileDigest) : Prop := ∃ p, p ≠ output ∧ (p, d) ∈ wf_log w.

(** No other name of the handler, nor the output, is linked to the inode of [t]. *)
Definition sole (w : World) (t : Str) : Prop :=
  owned w t ∧ ∃ i, wf_names w !! t = Some (File i) ∧ ∀ q, mine w q → wf_names w !! q = Some (File i) → q = t.

Record Good (w : World) (v : view) : Prop := {
  g_guarded : guarded w;
  g_guards : ∀ p, p ∈ wf_guards w → owned w p;
  g_output : ∀ p, owned w p → p ≠ output;
  g_issued : v_issued v ⊆ wf_issued w;
  g_armed : v_armed v ⊆ wf_guards w;
  g_private : ∀ t, v_private v = Some t → sole w t;
  g_known : ∀ p d, v_known v !! p = Some d → mine w p ∧ content w p d;
  g_seen : ∀ d, measured w d ↔ d ∈ v_seen v;
}.

Definition has_name (v : view) (p : Str) : Prop := ∃ u, u ∈ v_issued v ∧ named u p.

Lemma good_has_name w v p : Good w v → has_name v p → owned w p.
Proof. intros Hg (u & Hu & Hn). exists u. split; [by apply (g_issued _ _ Hg)|done]. Qed.

(** Names that are gone, or that could not be removed. *)
Definition removed (w : World) (p : Str) : Prop := wf_names w !! p = None ∨ p ∈ wf_stuck w.

Lemma env_owned_iff w w1 p : env w w1 → owned w1 p ↔ owned w p.
Proof. intros He. unfold FileLogic.owned. by rewrite (env_issued _ _ _ He). Qed.
Lemma env_mine_iff w w1 p : env w w1 → mine w1 p ↔ mine w p.
Proof. intros He. unfold FileLogic.mine. by rewrite (env_owned_iff _ _ _ He). Qed.

Lemma content_env w w1 p d : env w w1 → mine w p → content w p d → content w1 p d.
Proof.
  intros He Hm (i & b & Hn & Hd & ->). exists i, b. split_and!; [| |done].
  - destruct Hm as [Ho| ->]; [by rewrite (env_owned _ _ _ He)|by apply (env_output _ _ _ He)].
  - by rewrite (env_data _ _ _ He p i).
Qed.

Lemma sole_env w w1 t : env w w1 → (∀ p, owned w p → p ≠ output) → sole w t → sole w1 t.
Proof.
  intros He Hout (Ho & i & Hn & Hq). split; [by rewrite env_owned_iff|].
  exists i. split; [by rewrite (env_owned _ _ _ He)|]. intros q [Hoq| ->] Hqi.
  - rewrite (env_owned_iff _ _ _ He) in Hoq. rewrite (env_owned _ _ _ He) in Hqi by done. apply Hq; [by left|done].
  - destruct (env_foreign _ _ _ He i Hqi) as [Hi|Hi]; [apply Hq; [by right|done]|]. by destruct (Hi t Ho).
Qed.

Lemma good_env w w1 v : env w w1 → Good w v → Good w1 v.
Proof.
  intros He [Hg Hgs Ho Hi Ha Hp Hk Hs]. split.
  - intros p Hop Hn. rewrite (env_owned_iff _ _ _ He) in Hop. rewrite (env_owned _ _ _ He) in Hn by done.
    rewrite (env_guards _ _ _ He), (env_stuck _ _ _ He). by apply Hg.
  - intros p. rewrite (env_guards _ _ _ He), (env_owned_iff _ _ _ He). apply Hgs.
  - intros p. rewrite (env_owned_iff _ _ _ He). apply Ho.
  - by rewrite (env_issued _ _ _ He).
  - by rewrite (env_guards _ _ _ He).
  - intros t Ht. by eapply sole_env, Hp.
  - intros p d Hpd. destruct (Hk p d Hpd) as [Hm Hc]. split; [by rewrite env_mine_iff|by eapply content_env].
  - intros d. unfold measured. rewrite (env_log _ _ _ He). apply Hs.
Qed.
Lemma removed_env w w1 p : env w w1 → owned w p → removed w p → removed w1 p.
Proof.
  intros He Ho. unfold removed. by rewrite (env_owned _ _ _ He), (env_stuck _ _ _ He).
Qed.

(** A call leaves every file guarded but the one it makes. *)
Lemma step_guarded c w w' x :
  awaited c = true → guarded w → step output c w w' x → guarded_but (creates c) w'.
Proof.
  intros Hc Hg Hs p Ho Hn Hne.
  assert (∀ q nd (m : gmap Str node), creates c = Some q → <[q := nd]> m !! p = m !! p) as Hother.
  { intros q nd m Hq. apply lookup_insert_ne. congruence. }
  assert (∀ q (m : gmap Str node), is_Some (delete q m !! p) → is_Some (m !! p)) as Hdel.
  { intros q m [nd [_ Hd]%lookup_delete_Some]. by eexists. }
  destruct c; try discriminate Hc; simpl in Hs; try (by subst; apply Hg).
  - destruct Hs as (_ & Hfresh & ->). simpl in *. destruct Ho as (u & Hu & Hnm). simpl in Hu.
    apply elem_of_union in Hu as [->%elem_of_singleton|Hu]; [|apply Hg; [by exists u|done]].
    destruct (Hfresh p Hnm) as [Hno _]. rewrite Hno in Hn. by destruct Hn.
  - destruct x; [|by subst; apply Hg]. destruct Hs as (_ & i & _ & ->). simpl in *.
    apply Hg; [done|]. by rewrite Hother in Hn.
  - destruct x; [|by subst; apply Hg]. destruct Hs as (_ & ->). simpl in *. apply Hg; [done|]. by rewrite Hother in Hn.
  - destruct x as [?|[]]; [|destruct_and?; by subst; apply Hg..]. destruct Hs as (i & _ & _ & ->). simpl in *.
    apply Hg; [done|]. by rewrite Hother in Hn.
  - destruct x as [?|[]]; destruct_and?; subst; simpl in *; [apply Hg; [done|by eapply Hdel]|by apply Hg|..];
      destruct (Hg p Ho Hn); set_solver.
  - destruct x as [?|[]]; destruct_and?; subst; simpl in *; [apply Hg; [done|by eapply Hdel]|by apply Hg|..];
      destruct (Hg p Ho Hn); set_solver.
  - destruct Hs as [-> _]. by apply Hg.
  - destruct x; [destruct Hs as [_ ->]|subst]; by apply Hg.
  - destruct Hs as [->|(q & i & b & _ & _ & _ & ->)]; by apply Hg.
Qed.

(** To prove a rule it is enough to follow the step from a world that is still [Good]. *)
Lemma good_rule c w v (go : World → answer c → Prop) :
  Good w v →
  (∀ w1 w2 x, env w w1 → Good w1 v → step output c w1 w2 x → keeps_output output w1 w2 ∧ go w2 x) →
  rule c w go.
Proof.
  intros Hg Hgo. split; [intros _; apply Hg|]. intros w1 w2 x He Hs.
  assert (Good w1 v) as Hg1 by by eapply good_env. destruct (Hgo w1 w2 x He Hg1 Hs) as [Hk Hgo'].
  split; [done|]. split; [|done]. intros Ha. eapply step_guarded; [done|apply Hg1|done].
Qed.

Lemma keeps_output_refl w : keeps_output output w w.
Proof. by intros n Hn. Qed.
Lemma keeps_output_same w w' : wf_names w' !! output = wf_names w !! output → wf_data w' = wf_data w →
  keeps_output output w w'.
Proof. intros Hn Hd n Hw. by rewrite Hn, Hd. Qed.

(** ** Reading *)

Definition reads (c : call) : Prop :=
  ∀ w w' (x : answer c), step output c w w' x → w' = w.
Lemma good_read c w v : reads c → Good w v → rule c w (λ w' _, Good w' v).
Proof.
  intros Hr Hg. eapply good_rule; [done|]. intros w1 w2 x _ Hg1 ->%Hr. split; [apply keeps_output_refl|done].
Qed.
Lemma symlink_metadata_reads p : reads (SymlinkMetadata p).
Proof. by intros w w' x. Qed.
Lemma metadata_reads p : reads (Metadata p).
Proof. by intros w w' x. Qed.
Lemma probe_reads p : reads (ProbeFile p).
Proof. by intros w w' x. Qed.
Lemma analysis_reads c : last (ec_args c) = Some (lit "-") → reads (RunCommand c).
Proof. intros Hl w w' x [->|(p & i & b & Hp & Hne & _)]; [done|]. congruence. Qed.

Lemma good_exists p w v : Good w v → owned w p → removed w p →
  rule (PathExists p) w (λ w' _, Good w' v ∧ removed w' p).
Proof.
  intros Hg Ho Hr. eapply good_rule; [done|]. intros w1 w2 x He Hg1 [-> _].
  split; [apply keeps_output_refl|]. split; [done|]. by eapply removed_env.
Qed.

(** ** Drawing names and guards *)

Lemma good_new_uuid w v : Good w v →
  rule NewUuid w (λ w' u, Good w' (v <| v_issued := {[u]} ∪ v_issued v |>)
                          ∧ ∀ p, named u p → p ∉ v_armed v ∧ v_known v !! p = None).
Proof.
  intros Hg. eapply good_rule; [done|]. intros w1 w2 u _ [Hgd Hgs Ho Hi Ha Hp Hk Hs] (Hnew & Hfresh & ->).
  assert (∀ p, owned (w1 <| wf_issued := {[u]} ∪ wf_issued w1 |>) p → owned w1 p ∨ named u p) as Hown.
  { intros p (u' & Hu' & Hn). simpl in Hu'. apply elem_of_union in Hu' as [->%elem_of_singleton|]; [by right|].
    left. by exists u'. }
  assert (∀ p, owned w1 p → owned (w1 <| wf_issued := {[u]} ∪ wf_issued w1 |>) p) as Hmono.
  { intros p (u' & Hu' & Hn). exists u'. split; [set_solver|done]. }
  split; [by apply keeps_output_same|]. split.
  2: { intros p Hnm. destruct (Hfresh p Hnm) as (Hno & Hng & _). split; [set_solver|].
       destruct (v_known v !! p) as [d|] eqn:Hd; [|done]. destruct (Hk p d Hd) as [_ (i & b & Hn & _)]. congruence. }
  split; simpl.
  - intros p Hop Hn. destruct (Hown p Hop) as [?|Hnm]; [by apply Hgd|].
    destruct (Hfresh p Hnm) as [Hno _]. simpl in Hn. rewrite Hno in Hn. by destruct Hn.
  - intros p Hpg. apply Hmono, Hgs, Hpg.
  - intros p Hop. destruct (Hown p Hop) as [?|Hnm]; [by apply Ho|by apply Hfresh].
  - set_solver.
  - done.
  - intros t Ht. destruct (Hp t Ht) as (Hot & i & Hn & Hq). split; [by apply Hmono|].
    exists i. split; [done|]. intros q Hmq Hqi. apply Hq; [|done]. destruct Hmq as [Hoq|]; [|by right].
    destruct (Hown q Hoq) as [|Hnm]; [by left|]. simpl in Hqi. destruct (Hfresh q Hnm). congruence.
  - intros p d Hpd. destruct (Hk p d Hpd) as [Hm Hc]. split; [|done]. destruct Hm; [left; by apply Hmono|by right].
  - done.
Qed.

Lemma good_arm p w v : Good w v → has_name v p →
  rule (Arm p) w (λ w' _, Good w' (v <| v_armed := {[p]} ∪ v_armed v |>)).
Proof.
  intros Hg Hn. eapply good_rule; [done|]. intros w1 w2 x _ Hg1 ->.
  pose proof (good_has_name _ _ _ Hg1 Hn) as Hop. destruct Hg1 as [Hgd Hgs Ho Hi Ha Hp Hk Hs].
  split; [by apply keeps_output_same|]. split; simpl; [|set_solver|done|done|set_solver|done|done|done].
  intros q Hoq Hnq. destruct (Hgd q Hoq Hnq); simpl; [left; set_solver|by right].
Qed.

Lemma good_disarm p w v : Good w v → owned w p → removed w p →
  rule (Disarm p) w (λ w' _, Good w' (v <| v_armed := v_armed v ∖ {[p]} |>)).
Proof.
  intros Hg Ho Hr. eapply good_rule; [done|]. intros w1 w2 x He Hg1 ->.
  pose proof (removed_env _ _ _ He Ho Hr) as Hr1. destruct Hg1 as [Hgd Hgs Hout Hi Ha Hp Hk Hs].
  split; [by apply keeps_output_same|]. split; simpl; [|set_solver|done|done|set_solver|done|done|done].
  intros q Hoq Hnq. destruct (Hgd q Hoq Hnq) as [Hq|]; [|by right]. simpl in *.
  destruct (decide (q = p)) as [->|]; [|left; set_solver].
  destruct Hr1 as [Hr1|]; [|by right]. rewrite Hr1 in Hnq. by destruct Hnq.
Qed.

(** ** Writing *)

Lemma content_other w w' p d :
  (∀ i, wf_names w !! p = Some (File i) → wf_names w' !! p = Some (File i) ∧ wf_data w' !! i = wf_data w !! i) →
  content w p d → content w' p d.
Proof. intros Hs (i & b & Hn & Hd & ->). destruct (Hs i Hn) as [? E]. exists i, b. by rewrite E. Qed.

(** A new name, linked to nothing the handler has; the view holds once it has its guard. *)
Lemma good_create p w v : Good w v → has_name v p →
  rule (CreateNew p) w (λ w' r,
    match r with
    | Ok _ => v_known v !! p = None
              ∧ Good (arm p w') (v <| v_armed := {[p]} ∪ v_armed v |> <| v_private := Some p |>)
    | Err _ => Good w' v
    end).
Proof.
  intros Hg Hn. eapply good_rule; [done|]. intros w1 w2 [[]|e] _ Hg1 Hs; simpl in Hs;
    [|subst; split; [apply keeps_output_refl|done]].
  destruct Hs as (Hnone & i & Hun & ->). pose proof (good_has_name _ _ _ Hg1 Hn) as Hop.
  destruct Hg1 as [Hgd Hgs Ho Hi Ha Hp Hk Hs].
  assert (∀ q j, wf_names w1 !! q = Some (File j) → q ≠ p ∧ j ≠ i) as Hother.
  { intros q j Hq. split; [congruence|]. intros ->. by apply (Hun q). }
  split.
  { intros n Hout. simpl. rewrite lookup_insert_ne by (intros ->; congruence). split; [done|].
    intros j ->. rewrite lookup_insert_ne; [done|]. by destruct (Hother _ _ Hout). }
  split; [destruct (v_known v !! p) as [d|] eqn:Hkp; [|done]; destruct (Hk p d Hkp) as [_ (j & b & Hj & _)]; congruence|].
  split; simpl; [|set_solver|done|done|set_solver| | |done].
  - intros q Hoq Hnq. simpl in *. destruct (decide (q = p)) as [->|]; [left; set_solver|].
    rewrite lookup_insert_ne in Hnq by done. destruct (Hgd q Hoq Hnq); [left; set_solver|by right].
  - intros t [= <-]. split; [done|]. exists i. simpl. rewrite lookup_insert_eq. split; [done|].
    intros q _ Hq. destruct (decide (q = p)); [done|]. rewrite lookup_insert_ne in Hq by done. by destruct (Hun q).
  - intros q d Hq. destruct (Hk q d Hq) as [Hm Hc]. split; [done|]. eapply content_other; [|exact Hc].
    intros j Hj. destruct (Hother q j Hj). simpl. by rewrite !lookup_insert_ne.
Qed.

Lemma good_create_dir p w v : Good w v → has_name v p →
  rule (CreateDir p) w (λ w' r,
    match r with
    | Ok _ => Good (arm p w') (v <| v_armed := {[p]} ∪ v_armed v |>)
    | Err _ => Good w' v
    end).
Proof.
  intros Hg Hn. eapply good_rule; [done|]. intros w1 w2 [[]|e] _ Hg1 Hs; simpl in Hs;
    [|subst; split; [apply keeps_output_refl|done]].
  destruct Hs as (Hnone & ->). pose proof (good_has_name _ _ _ Hg1 Hn) as Hop.
  destruct Hg1 as [Hgd Hgs Ho Hi Ha Hp Hk Hs].
  assert (∀ q n, wf_names w1 !! q = Some n → <[p := Directory]> (wf_names w1) !! q = Some n) as Hother.
  { intros q n Hq. rewrite lookup_insert_ne; [done|congruence]. }
  split; [intros n Hout; split; [by apply Hother|done]|].
  split; simpl; [|set_solver|done|done|set_solver| | |done].
  - intros q Hoq Hnq. simpl in *. destruct (decide (q = p)) as [->|]; [left; set_solver|].
    rewrite lookup_insert_ne in Hnq by done. destruct (Hgd q Hoq Hnq); [left; set_solver|by right].
  - intros t Ht. destruct (Hp t Ht) as (Hot & i & Hi' & Hq). split; [done|]. exists i. split; [by apply Hother|].
    intros q Hmq Hqi. apply Hq; [done|]. simpl in Hqi. destruct (decide (q = p)) as [->|]; [by rewrite lookup_insert_eq in Hqi|].
    by rewrite lookup_insert_ne in Hqi.
  - intros q d Hq. destruct (Hk q d Hq) as [Hm Hc]. split; [done|]. eapply content_other; [|exact Hc].
    intros j Hj. split; [by apply Hother|done].
Qed.

(** The guard of a name that has just been made. *)
Lemma env_arm p w w1 : env w w1 → env (arm p w) (arm p w1).
Proof.
  intros [Hg Hs Hi Hl Ho Hd Hout Hf]. split; simpl; [by rewrite Hg|done|done|done|exact Ho|exact Hd|exact Hout|exact Hf].
Qed.
Lemma good_arm_made p w v : Good (arm p w) v → rule (Arm p) w (λ w' _, Good w' v).
Proof.
  intros Hg. split; [done|]. intros w1 w2 x He ->. split; [by apply keeps_output_same|]. split; [done|].
  eapply good_env; [by apply env_arm|done].
Qed.

(** ffmpeg writes to the private file. *)
Lemma good_run c t w v : Good w v → v_private v = Some t → v_known v !! t = None → last (ec_args c) = Some t →
  rule (RunCommand c) w (λ w' _, Good w' v).
Proof.
  intros Hg Ht Hkt Hl. eapply good_rule; [done|]. intros w1 w2 x _ Hg1 Hs.
  destruct Hs as [->|(p & i & b & Hp & _ & Hn & ->)]; [split; [apply keeps_output_refl|done]|].
  assert (p = t) as -> by congruence. pose proof (g_private _ _ Hg1 t Ht) as (Hot & i' & Hi' & Hq).
  assert (i' = i) as -> by congruence.
  assert (∀ q j, mine w1 q → q ≠ t → wf_names w1 !! q = Some (File j) → j ≠ i) as Hother.
  { intros q j Hm Hne Hj ->. by apply Hne, Hq. }
  destruct Hg1 as [Hgd Hgs Ho Hi Ha Hpr Hk Hsn]. split.
  { intros n Hout. split; [done|]. intros j ->. simpl. rewrite lookup_insert_ne; [done|].
    intros ->. eapply Hother; [by right| |exact Hout|done]. intros ->. by apply (Ho t Hot). }
  split; simpl; [done|done|done|done|done|done| |done].
  intros q d Hqd. destruct (Hk q d Hqd) as [Hm Hc]. split; [done|]. eapply content_other; [|exact Hc].
  intros j Hj. split; [done|]. simpl. rewrite lookup_insert_ne; [done|]. intros ->.
  eapply Hother; [exact Hm| |exact Hj|done]. congruence.
Qed.

Lemma content_fun w p d d' : content w p d → content w p d' → d = d'.
Proof. intros (i & b & Hn & Hd & ->) (i' & b' & Hn' & Hd' & ->). congruence. Qed.

Lemma measured_log w p d : p ≠ output →
  ∀ d', measured (w <| wf_log := wf_log w ++ [(p, d)] |>) d' ↔ measured w d' ∨ d' = d.
Proof.
  intros Hp d'. unfold measured. simpl. split.
  - intros (q & Hq & Hin). apply elem_of_app in Hin as [?|Hin]; [by left; exists q|]. right.
    apply list_elem_of_singleton in Hin. congruence.
  - intros [(q & Hq & Hin)| ->]; [exists q; split; [done|]; apply elem_of_app; by left|].
    exists p. split; [done|]. apply elem_of_app. right. by apply list_elem_of_singleton.
Qed.
Lemma measured_output w d : ∀ d', measured (w <| wf_log := wf_log w ++ [(output, d)] |>) d' ↔ measured w d'.
Proof.
  intros d'. unfold measured. simpl. split; intros (q & Hq & Hin); exists q; (split; [done|]).
  - apply elem_of_app in Hin as [?|Hin]; [done|]. apply list_elem_of_singleton in Hin. congruence.
  - apply elem_of_app. by left.
Qed.

(** Hashing a file of the handler's, or the output. *)
Lemma good_sha p w v : Good w v → has_name v p ∨ p = output →
  rule (Sha256File p) w (λ w' r,
    match r with
    | Ok d => (∀ d', v_known v !! p = Some d' → d = d')
              ∧ Good w' (v <| v_known := <[p := d]> (v_known v) |>
                           <| v_seen := if decide (p = output) then v_seen v else d :: v_seen v |>)
    | Err _ => Good w' v
    end).
Proof.
  intros Hg Hn. eapply good_rule; [done|]. intros w1 w2 [d|e] _ Hg1 Hs; simpl in Hs;
    [|subst; split; [apply keeps_output_refl|done]].
  destruct Hs as [Hc ->]. split; [by apply keeps_output_same|].
  assert (mine w1 p) as Hm by (destruct Hn; [left; by eapply good_has_name|by right]).
  destruct Hg1 as [Hgd Hgs Ho Hi Ha Hp Hk Hsn]. split.
  { intros d' Hd'. eapply content_fun; [exact Hc|]. by apply (Hk p d'). }
  split; simpl; [done|done|done|done|done|done| |].
  - intros q d' Hq. destruct (decide (q = p)) as [->|].
    + rewrite lookup_insert_eq in Hq. simplify_eq. done.
    + rewrite lookup_insert_ne in Hq by done. by apply Hk.
  - intros d'. case_decide as Hpo.
    + subst. etransitivity; [apply measured_output|apply Hsn].
    + etransitivity; [by apply measured_log|]. rewrite Hsn, elem_of_cons. tauto.
Qed.

(** A link to a name that is guarded, or to the output. *)
Lemma good_hard_link s d dig w v : Good w v → v_known v !! s = Some dig →
  (has_name v d ∧ d ∈ v_armed v) ∨ d = output →
  rule (HardLink s d) w (λ w' r,
    match r with
    | Ok _ => Good w' (v <| v_private := None |> <| v_known := <[d := dig]> (v_known v) |>)
    | Err _ => Good w' v
    end).
Proof.
  intros Hg Hks Hd. eapply good_rule; [done|]. intros w1 w2 [[]|e] _ Hg1 Hs; simpl in Hs;
    [|destruct e; [..|]; try (destruct Hs as [_ Hs]); subst; (split; [apply keeps_output_refl|done])].
  destruct Hs as (i & Hi & Hnone & ->).
  assert (mine w1 d) as Hm by (destruct Hd as [[? _]|]; [left; by eapply good_has_name|by right]).
  assert (∀ q n, wf_names w1 !! q = Some n → <[d := File i]> (wf_names w1) !! q = Some n) as Hother.
  { intros q n Hq. rewrite lookup_insert_ne; [done|congruence]. }
  destruct Hg1 as [Hgd Hgs Ho His Ha Hp Hk Hsn]. split; [intros n Hout; split; [by apply Hother|done]|].
  split; simpl; [|done|done|done|done|done| |done].
  - intros q Hoq Hnq. simpl in *. destruct (decide (q = d)) as [->|].
    + destruct Hd as [[_ Hd]| ->]; [left; by apply Ha|]. by destruct (Ho _ Hoq).
    + rewrite lookup_insert_ne in Hnq by done. by apply Hgd.
  - intros q d' Hq. destruct (decide (q = d)) as [->|].
    + rewrite lookup_insert_eq in Hq. simplify_eq. split; [done|].
      destruct (Hk s d' Hks) as [_ (j & b & Hj & Hb & ->)]. exists i, b. simpl. rewrite lookup_insert_eq.
      split_and!; [done|congruence|done].
    + rewrite lookup_insert_ne in Hq by done. destruct (Hk q d' Hq) as [Hmq Hc]. split; [done|].
      eapply content_other; [|exact Hc]. intros j Hj. split; [by apply Hother|done].
Qed.

(** ** Removing *)

Lemma good_remove_name w v p : Good w v → owned w p →
  Good (w <| wf_names := delete p (wf_names w) |>)
       (v <| v_private := None |> <| v_known := delete p (v_known v) |>).
Proof.
  intros [Hgd Hgs Ho His Ha Hp Hk Hsn] Hop. split; simpl; [|done|done|done|done|done| |done].
  - intros q Hoq Hnq. simpl in *. apply Hgd; [done|]. destruct (decide (q = p)) as [->|].
    + rewrite lookup_delete_eq in Hnq. by destruct Hnq.
    + by rewrite lookup_delete_ne in Hnq.
  - intros q d Hq. destruct (decide (q = p)) as [->|]; [by rewrite lookup_delete_eq in Hq|].
    rewrite lookup_delete_ne in Hq by done. destruct (Hk q d Hq) as [Hm Hc]. split; [done|].
    eapply content_other; [|exact Hc]. intros j Hj. simpl. by rewrite lookup_delete_ne.
Qed.
Lemma good_stuck w v p : Good w v →
  Good (w <| wf_stuck := {[p]} ∪ wf_stuck w |>) v.
Proof.
  intros [Hgd Hgs Ho His Ha Hp Hk Hsn]. split; simpl; [|done..].
  intros q Hoq Hnq. destruct (Hgd q Hoq Hnq); simpl; [by left|right; set_solver].
Qed.
Lemma good_forget w v p : Good w v → Good w (v <| v_private := None |> <| v_known := delete p (v_known v) |>).
Proof.
  intros [Hgd Hgs Ho His Ha Hp Hk Hsn]. split; simpl; [done|done|done|done|done|done| |done].
  intros q d. rewrite lookup_delete_Some. intros [_ Hq]. by apply Hk.
Qed.

Definition without (p : Str) (v : view) : view :=
  v <| v_private := None |> <| v_known := delete p (v_known v) |>.

Lemma good_remove_any c p w v :
  (∀ w1 w2 (r : answer c), step output c w1 w2 r →
     (∃ n, wf_names w1 !! p = Some n ∧ w2 = w1 <| wf_names := delete p (wf_names w1) |>)
     ∨ (wf_names w1 !! p = None ∧ w2 = w1) ∨ w2 = w1 <| wf_stuck := {[p]} ∪ wf_stuck w1 |>) →
  Good w v → has_name v p →
  rule c w (λ w' _, Good w' (without p v) ∧ removed w' p ∧ owned w' p).
Proof.
  intros Hstep Hg Hn. eapply good_rule; [done|]. intros w1 w2 r _ Hg1 Hs.
  pose proof (good_has_name _ _ _ Hg1 Hn) as Hop. pose proof (g_output _ _ Hg1 p Hop) as Hpo.
  destruct (Hstep _ _ _ Hs) as [(n & Hnn & ->)|[[Hnone ->]| ->]].
  - split; [apply keeps_output_same; [simpl; by rewrite lookup_delete_ne|done]|]. split; [by apply good_remove_name|].
    split; [left; simpl; by rewrite lookup_delete_eq|done].
  - split; [apply keeps_output_refl|]. split; [by apply good_forget|]. split; [by left|done].
  - split; [by apply keeps_output_same|]. split; [by apply good_stuck, good_forget|]. split; [right; simpl; set_solver|done].
Qed.
Lemma good_remove p w v : Good w v → has_name v p →
  rule (RemoveFile p) w (λ w' _, Good w' (without p v) ∧ removed w' p ∧ owned w' p).
Proof.
  apply (good_remove_any (RemoveFile p)). intros w1 w2 [[]|[]]; simpl; naive_solver.
Qed.
Lemma good_remove_dir p w v : Good w v → has_name v p →
  rule (RemoveDirAll p) w (λ w' _, Good w' (without p v) ∧ removed w' p ∧ owned w' p).
Proof.
  apply (good_remove_any (RemoveDirAll p)). intros w1 w2 [[]|[]]; simpl; naive_solver.
Qed.

(** The end of the scope: what is left could not be removed. *)
Lemma good_drop w v : Good w v →
  rule DropGuards w (λ w' _,
    (∀ p, owned w' p → is_Some (wf_names w' !! p) → p ∈ wf_stuck w')
    ∧ (∀ d, measured w' d ↔ d ∈ v_seen v)
    ∧ (∀ d, v_known v !! output = Some d → content w' output d)).
Proof.
  intros Hg. eapply good_rule; [done|]. intros w1 w2 x _ [Hgd Hgs Ho His Ha Hp Hk Hsn] (failed & Hf & ->).
  assert (output ∉ wf_guards w1) as Hout by (intros Hin%Hgs; by destruct (Ho _ Hin)).
  assert (∀ n, wf_names w1 !! output = Some n →
    filter (λ x, x.1 ∉ wf_guards w1 ∖ failed) (wf_names w1) !! output = Some n) as Hkeep.
  { intros n Hn. apply map_lookup_filter_Some. split; [done|]. simpl. by intros [? _]%elem_of_difference. }
  split; [intros n Hn; split; [by apply Hkeep|done]|]. split_and!.
  - intros p Hop [n Hn]. simpl in *. apply map_lookup_filter_Some in Hn as [Hn Hnot]. simpl in Hnot.
    apply elem_of_union. destruct (Hgd p Hop) as [Hin|]; [by eexists| |by right].
    left. destruct (decide (p ∈ failed)); [done|]. destruct Hnot. by apply elem_of_difference.
  - done.
  - intros d Hd. destruct (Hk _ _ Hd) as [_ Hc]. eapply content_other; [|exact Hc].
    intros i Hi. split; [by apply Hkeep|done].
Qed.
End Logic.
