(* ===== verification/ExecuteSpec.v ===== *)
(** * ExecuteSpec: publication and one ffmpeg run, against the file rules

    What [publish_or_reuse] and [FfmpegExecutor::execute] leave behind: the destination has
    the digest of the file that was published, the temporary file is gone or guarded, and an
    error leaves a consistent view. *)

From S2P Require Import Prelude Jobs Proc Preview Normalize Text Execute NormalizeVideo.
From S2P Require Import FileLogic.

Section Spec.
Context {J : Json} {H : Sha256} {output : Str}.
Abbreviation rule := (file_rule output).
Abbreviation wp := (wp rule).
Abbreviation Good := (Good (output := output)).
Abbreviation has_name := (has_name (output := output)).
Abbreviation named := (named output).

(** Some view is good. *)
Definition fine (w : World) : Prop := ∃ v, Good w v.
Lemma good_fine w v : Good w v → fine w.
Proof. by exists v. Qed.
#[local] Hint Resolve good_fine : core.
(** The same, with the identifiers of an earlier view. *)
Definition fine_from (v : view) (w : World) : Prop := ∃ v', v_issued v ⊆ v_issued v' ∧ Good w v'.
Lemma good_fine_from w v v' : Good w v' → v_issued v ⊆ v_issued v' → fine_from v w.
Proof. by exists v'. Qed.
#[local] Hint Resolve good_fine_from : core.

(** The errors of a run; the storage limit is reported by the selection only. *)
Definition benign (e : NormalizationExecutionError) : Prop :=
  match e with OutputExceedsStorageLimit _ _ => False | _ => True end.

(** One call of a program. *)
Lemma wp_call {A} c (k : answer c → proc A) w (R : World → answer c → Prop) Q :
  rule c w R → (∀ w' x, R w' x → wp w' (k x) Q) → wp w (Ask c k) Q.
Proof. intros Hr Hk. eapply (rule_mono rule); [|exact Hr]. exact Hk. Qed.

Lemma wp_read {A} c (k : answer c → proc A) w v Q :
  reads (output := output) c → Good w v → (∀ w' x, Good w' v → wp w' (k x) Q) → wp w (Ask c k) Q.
Proof. intros Hr Hg Hk. eapply wp_call; [by eapply good_read|exact Hk]. Qed.

Lemma same_digest_eq a b : same_digest a b = true → a = b.
Proof.
  unfold same_digest. intros [Hb%Z.eqb_eq Hs%bool_decide_eq_true]%andb_true_iff.
  destruct a, b; simpl in *; congruence.
Qed.

Lemma good_view w v v' :
  v_issued v' = v_issued v → v_armed v' = v_armed v → v_private v' = None →
  v_known v' = v_known v → (∀ d, d ∈ v_seen v' ↔ d ∈ v_seen v) → Good w v → Good w v'.
Proof.
  intros Hi Ha Hp Hk Hs [? ? ? ? ? ? ? Hsn]. split; rewrite ?Hi, ?Ha, ?Hp, ?Hk; try done.
  intros d. by rewrite Hs, Hsn.
Qed.

Lemma wp_require_regular p w v : Good w v → wp w (require_regular p) (λ w' _, Good w' v).
Proof.
  intros Hg. unfold require_regular. eapply wp_read; [apply symlink_metadata_reads|done|].
  intros w' [t|e] Hg'; exact Hg'.
Qed.

(** Publishing a finished file under a guarded name, or as the output. *)
Definition published (v : view) (d : Str) (dig : FileDigest) : view :=
  v <| v_private := None |> <| v_known := <[d := dig]> (v_known v) |>.
Definition target_name (v : view) (d : Str) : Prop := (has_name v d ∧ d ∈ v_armed v) ∨ d = output.

Lemma wp_compare_or_conflict s d dig w v : Good w v →
  v_known v !! s = Some dig → has_name v s ∨ s = output → dig ∈ v_seen v → target_name v d →
  wp w (compare_or_conflict s d) (λ w' r,
    match r with Ok _ => Good w' (published v d dig) | Err _ => fine_from v w' end).
Proof.
  intros Hg Hs Hns Hseen Hd. unfold compare_or_conflict. apply (wp_try (Mono := file_rule_mono output)).
  eapply (wp_mono (Mono := file_rule_mono output)); [|by apply wp_require_regular].
  intros w1 [[]|e] Hg1; [|eauto]. simpl in Hg1.
  eapply wp_call; [by eapply good_sha|]. intros w2 [a|e] Ha; [|simpl; eauto].
  destruct Ha as [Heq Hg2]. pose proof (Heq _ Hs) as ->. cbn [map_err].
  eapply wp_call; [eapply good_sha; [exact Hg2|]|].
  { destruct Hd as [[Hn _]| ->]; [left; exact Hn|by right]. }
  intros w3 [b|e] Hb; [|simpl; eauto]. destruct Hb as [_ Hg3]. cbn [map_err Proc.wp].
  destruct (same_digest dig b) eqn:Hsame; [|eauto]. apply same_digest_eq in Hsame as <-.
  eapply good_view; [..|exact Hg3]; simpl; [done|done|done| |].
  - by rewrite (insert_id (v_known v) s dig).
  - intros x. repeat case_decide; rewrite ?elem_of_cons; naive_solver.
Qed.

Lemma wp_publish_or_reuse s d dig w v : Good w v →
  v_known v !! s = Some dig → has_name v s ∨ s = output → dig ∈ v_seen v → target_name v d →
  wp w (publish_or_reuse s d) (λ w' r,
    match r with Ok _ => Good w' (published v d dig) | Err _ => fine_from v w' end).
Proof.
  intros Hg Hs Hns Hseen Hd. unfold publish_or_reuse.
  destruct (path_parent s) as [sp|], (path_parent d) as [dp|]; [|simpl; eauto..].
  eapply wp_read; [apply symlink_metadata_reads|done|]. intros w1 [t|e] Hg1; [|simpl; eauto].
  eapply wp_read; [apply symlink_metadata_reads|done|]. intros w2 [t'|e] Hg2; [|simpl; eauto].
  cbn [map_err]. apply (wp_try (Mono := file_rule_mono output)). unfold check. cbn [Proc.wp].
  destruct (real_directory t && real_directory t'); [|eauto].
  apply (wp_try (Mono := file_rule_mono output)).
  eapply (wp_mono (Mono := file_rule_mono output)); [|by apply wp_require_regular].
  intros w3 [[]|e] Hg3; [|eauto]. simpl in Hg3.
  eapply wp_call; [by eapply good_hard_link|]. intros w4 [[]|e] Hg4; [exact Hg4|].
  destruct e; [simpl; eauto| |simpl; eauto..]. by apply wp_compare_or_conflict.
Qed.

(** ** One run *)

Lemma last_of_args l x c : last (ec_args (args (l ++ [x]) c)) = Some x.
Proof. by rewrite args_app, app_assoc, last_snoc. Qed.

(** The command of a plan writes to the given output. *)
Lemma command_output plan t :
  last (ec_args (command_with_progress_for_output plan t)) = Some t
  ∨ last (ec_args (command_with_progress_for_output plan t)) = None.
Proof.
  unfold command_with_progress_for_output. destruct (last (ec_args (np_command plan))) as [a|] eqn:Hl; [left|by right].
  unfold retargeted.
  assert (∀ l : list Str, l ++ [lit "-progress"; lit "pipe:1"; t] = (l ++ [lit "-progress"; lit "pipe:1"]) ++ [t])
    as -> by (intros; by rewrite <-app_assoc).
  apply last_of_args.
Qed.

Lemma wp_run_with_progress x c w v (Q : World → result NormalizationExecutionError FfmpegProgress → Prop) :
  rule (RunCommand c) w (λ w' _, Good w' v) →
  (∀ w' r, Good w' v → match r with Ok _ => True | Err e => benign e end → Q w' r) →
  wp w (run_with_progress x c) Q.
Proof.
  intros Hr HQ. unfold run_with_progress. eapply wp_call; [exact Hr|].
  intros w' [o|e] Hg; cbn [map_err]; [|by apply HQ].
  apply (wp_try (Mono := file_rule_mono output)). unfold check. cbn [Proc.wp].
  destruct (eo_success o); [|by apply HQ].
  apply (wp_try (Mono := file_rule_mono output)). cbn [Proc.wp].
  destruct (negb (eo_stderr_truncated o)); [|by apply HQ].
  destruct (eo_stdout_truncated o); [by apply HQ|].
  apply (wp_try (Mono := file_rule_mono output)). cbn [Proc.wp].
  destruct (parse_ffmpeg_progress (eo_stdout o)) as [p|e]; simpl; [|by apply HQ].
  case_decide; by apply HQ.
Qed.

(** The view after a private file has been hashed. *)
Definition hashed (v : view) (t : Str) (d : FileDigest) : view :=
  v <| v_known := <[t := d]> (v_known v) |> <| v_seen := d :: v_seen v |>.

Lemma validate_output_probe_benign probe p :
  match validate_output_probe probe p with Ok _ => True | Err e => benign e end.
Proof.
  destruct (validate_output_probe probe p) as [|e] eqn:Hv; [done|]. unfold validate_output_probe in Hv.
  repeat (case_match; simplify_eq); done.
Qed.

Lemma wp_execute_inner x plan t w v : Good w v → v_private v = Some t → v_known v !! t = None → has_name v t →
  t ≠ output →
  wp w (execute_inner x plan t) (λ w' r,
    match r with
    | Ok (_, _, d) => Good w' (hashed v t d)
    | Err e => benign e ∧ Good w' v
    end).
Proof.
  intros Hg Hp Hk Hn Hto. unfold execute_inner. apply (wp_try (Mono := file_rule_mono output)).
  apply (wp_run_with_progress _ _ _ v).
  { destruct (command_output plan t) as [Hl|Hl].
    - by eapply good_run.
    - apply good_read; [|done]. intros w1 w2 o [->|(p & i & b & Hp' & _)]; [done|]. simpl in Hp'. congruence. }
  intros w1 [pr|e] Hg1 He; [|done].
  eapply wp_read; [apply metadata_reads|done|]. intros w2 [m|e] Hg2; [|done]. cbn [map_err].
  apply (wp_try (Mono := file_rule_mono output)). unfold check. cbn [Proc.wp].
  destruct (ft_is_file m && negb (ft_len m =? 0)); [|done].
  eapply wp_read; [apply probe_reads|done|]. intros w3 [probe|e] Hg3; [|done]. cbn [map_err].
  apply (wp_try (Mono := file_rule_mono output)). cbn [Proc.wp].
  pose proof (validate_output_probe_benign probe (np_profile plan)) as Hv.
  destruct (validate_output_probe _ _) as [[]|e]; [|done].
  eapply wp_call; [eapply good_sha; [exact Hg3|by left]|]. intros w4 [d|e] Hd; [|done].
  destruct Hd as [_ Hg4]. rewrite decide_False in Hg4 by done. exact Hg4.
Qed.

(** ** Temporary files *)

Lemma wp_disarm p w v (Q : World → unit → Prop) : Good w v → removed w p → owned output w p →
  (∀ w', Good w' (v <| v_armed := v_armed v ∖ {[p]} |>) → Q w' tt) → wp w (ask (Disarm p)) Q.
Proof. intros Hg Hr Ho HQ. eapply wp_call; [by eapply good_disarm|]. intros w' [] Hg'. by apply HQ. Qed.

Lemma wp_drop_artifact p w v : Good w v → has_name v p →
  wp w (drop_artifact p) (λ w' _, Good w' (without p v <| v_armed := v_armed v ∖ {[p]} |>)).
Proof.
  intros Hg Hn. eapply wp_call; [by eapply good_remove|]. intros w1 r (Hg1 & Hr & Ho).
  eapply wp_disarm; [done..|]. auto.
Qed.
Lemma without_twice p v : without p (without p v) = without p v.
Proof. unfold without, set_field; simpl. unfold set_field. simpl. by rewrite delete_delete_eq. Qed.

Lemma wp_remove_artifact p w v : Good w v → has_name v p →
  wp w (remove_artifact p) (λ w' _, Good w' (without p v <| v_armed := v_armed v ∖ {[p]} |>)).
Proof.
  intros Hg Hn. eapply wp_call; [by eapply good_remove|]. intros w1 [r|e] (Hg1 & Hr & Ho).
  - eapply wp_disarm; [done..|]. auto.
  - eapply wp_call; [eapply good_remove; [exact Hg1|exact Hn]|]. intros w2 r' (Hg2 & Hr2 & Ho2).
    eapply wp_disarm; [done..|]. rewrite without_twice. auto.
Qed.

Lemma wp_reserve_artifact p w v : Good w v → has_name v p →
  wp w (reserve_artifact p) (λ w' r,
    match r with
    | Ok _ => Good w' (v <| v_armed := {[p]} ∪ v_armed v |> <| v_private := Some p |>)
    | Err _ => Good w' v
    end).
Proof.
  intros Hg Hn. unfold reserve_artifact. destruct (path_parent p) as [parent|]; [|done].
  eapply wp_read; [apply symlink_metadata_reads|done|]. intros w1 [t|e] Hg1; [|done].
  apply (wp_try (Mono := file_rule_mono output)). unfold check. cbn [Proc.wp].
  destruct (real_directory t); [|done].
  eapply wp_call; [by eapply good_create|]. intros w2 [[]|e]; [|done]. intros [_ Hg2].
  eapply wp_call; [by eapply good_arm_made|]. by intros w3 [].
Qed.

(** ** The executor *)

(** The view after a candidate was encoded to [c]. *)
Record encoded (v v' : view) (c : Str) (d : FileDigest) : Prop := {
  en_issued : v_issued v ⊆ v_issued v';
  en_known : v_known v' = <[c := d]> (v_known v);
  en_seen : v_seen v' = d :: v_seen v;
}.

Lemma wp_execute x plan w v u : np_output plan = video_candidate_path output u →
  u ∈ v_issued v → np_output plan ∈ v_armed v → Good w v →
  wp w (execute x plan) (λ w' r,
    match r with
    | Ok r => nr_output_path r = np_output plan
              ∧ ∃ v', Good w' v' ∧ encoded v v' (np_output plan) (nr_digest r)
    | Err e => benign e ∧ fine w'
    end).
Proof.
  intros Hc Hu Harm Hg. unfold execute. set (c := np_output plan) in *.
  eapply wp_call; [by eapply good_new_uuid|]. intros w1 u1 [Hg1 Hfresh].
  set (t := temporary_output_path c u1).
  assert (named u1 t) as Hnt by (right; right; exists u; unfold t; by rewrite Hc).
  destruct (Hfresh t Hnt) as [Hta Htk]. set (v1 := v <| v_issued := _ |>) in *.
  assert (has_name v1 t) as Ht by (exists u1; split; [set_solver|done]).
  assert (has_name v1 c) as Hcn by (exists u; split; [set_solver|by left]).
  apply (wp_try (Mono := file_rule_mono output)), (wp_bind (Mono := file_rule_mono output)).
  eapply (wp_mono (Mono := file_rule_mono output)); [|by apply wp_reserve_artifact].
  intros w2 [[]|e] Hg2; cbn [Proc.wp map_err]; [|by split; [|eauto]].
  assert (t ≠ output) as Hto by (eapply g_output; [exact Hg2|]; eapply good_has_name; [exact Hg2|done]).
  apply (wp_bind (Mono := file_rule_mono output)).
  eapply (wp_mono (Mono := file_rule_mono output)); [|by eapply wp_execute_inner].
  set (v2 := v1 <| v_armed := _ |> <| v_private := _ |>) in *.
  assert (t ≠ c) as Htc by (intros ->; done).
  intros w3 [[[pr probe] d]|e]; cbv beta iota; cycle 1.
  { intros [He Hg3]. apply (wp_bind (Mono := file_rule_mono output)).
    eapply (wp_mono (Mono := file_rule_mono output)); [|by apply wp_drop_artifact].
    intros w4 [] Hg4. split; [done|eauto]. }
  intros Hg3. apply (wp_bind (Mono := file_rule_mono output)).
  eapply (wp_mono (Mono := file_rule_mono output));
    [|eapply (wp_publish_or_reuse t c d); [exact Hg3|simpl; by rewrite lookup_insert_eq|by left|simpl; set_solver|]].
  2: { left. split; [done|]. simpl. set_solver. }
  intros w4 [o|e]; cbv beta iota; cycle 1.
  { intros (v4 & Hi4 & Hg4). apply (wp_bind (Mono := file_rule_mono output)).
    eapply (wp_mono (Mono := file_rule_mono output));
      [|eapply wp_drop_artifact; [exact Hg4|exists u1; split; [apply Hi4; simpl; set_solver|done]]].
    intros w5 [] Hg5. split; [done|eauto]. }
  intros Hg4. apply (wp_bind (Mono := file_rule_mono output)).
  eapply (wp_mono (Mono := file_rule_mono output)); [|eapply wp_remove_artifact; [exact Hg4|exact Ht]].
  intros w5 [] Hg5. split; [done|]. eexists. split; [exact Hg5|]. split; simpl; [set_solver| |done].
  rewrite delete_insert_ne by done. rewrite delete_insert_id; done.
Qed.
End Spec.
