(* ===== verification/NormalizeVideoSpec.v ===== *)
(** * NormalizeVideoSpec: the selection of the video, end to end

    Whatever ffmpeg answers, whichever files it leaves and whenever the handler is
    cancelled: the handler owns no file without a destructor but the one being made, never
    replaces or rewrites a published output, and the encode it publishes is within the
    storage limit and meets the target if any encode that fits does. *)

From S2P Require Import Prelude Jobs Proc Preview Normalize Text Execute NormalizeVideo.
From S2P Require Import Instances IdentityWitness FileLogic ExecuteSpec NormalizeSpec.

Section Selection.
Context {J : Json} {H : Sha256} {output : Str} {target limit : Z} {Hlimit : 0 <= limit}.
Abbreviation rule := (file_rule output).
Abbreviation wp := (wp rule).
Abbreviation Good := (Good (output := output)).
Abbreviation has_name := (has_name (output := output)).
Abbreviation named := (named output).
Abbreviation fine := (fine (output := output)).

(** ** The candidate set *)

(** The digests [s] have been considered, none of them chosen. *)
Record Candidates (v : view) (cs : VideoCandidateSet) (s : list FileDigest) : Prop := {
  ca_target : cs_target cs = target;
  ca_limit : cs_limit cs = limit;
  ca_names : ∀ p, p ∈ cs_paths cs → has_name v p;
  ca_candidate : ∀ f, cs_fallback cs = Some f → ∃ u, nr_output_path f = video_candidate_path output u;
  ca_fallback : ∀ f, cs_fallback cs = Some f →
    has_name v (nr_output_path f) ∧ v_known v !! nr_output_path f = Some (nr_digest f)
    ∧ bytes_of f <= limit ∧ nr_digest f ∈ s;
  ca_none : cs_fallback cs = None → ∀ d, d ∈ s → limit < fd_bytes d;
  ca_above : ∀ d, d ∈ s → fd_bytes d <= limit → target < fd_bytes d;
  ca_largest : match cs_largest_oversized cs with
               | None => ∀ d, d ∈ s → fd_bytes d <= limit
               | Some b => limit < b ∧ (∃ d, d ∈ s ∧ fd_bytes d = b)
                           ∧ ∀ d, d ∈ s → limit < fd_bytes d → fd_bytes d <= b
               end;
}.

(** The result [r], encoded last. *)
Record Fresh (v : view) (cs : VideoCandidateSet) (r : NormalizationResult) : Prop := {
  fr_candidate : ∃ u, nr_output_path r = video_candidate_path output u;
  fr_name : has_name v (nr_output_path r);
  fr_known : v_known v !! nr_output_path r = Some (nr_digest r);
  fr_new : ∀ f, cs_fallback cs = Some f → nr_output_path f ≠ nr_output_path r;
}.

(** [v'] knows what [v] knows, but for the names in [l]. *)
Record grows (v v' : view) (l : list Str) : Prop := {
  gr_issued : v_issued v ⊆ v_issued v';
  gr_known : ∀ p, p ∉ l → v_known v' !! p = v_known v !! p;
  gr_seen : ∀ d, d ∈ v_seen v' ↔ d ∈ v_seen v;
}.
Lemma grows_name v v' l p : grows v v' l → has_name v p → has_name v' p.
Proof. intros Hg (u & Hu & Hn). exists u. split; [by apply (gr_issued _ _ _ Hg)|done]. Qed.
Lemma grows_trans v1 v2 v3 l l' : grows v1 v2 l → grows v2 v3 l' → grows v1 v3 (l ++ l').
Proof.
  intros [Hi Hk Hs] [Hi' Hk' Hs']. split; [set_solver| |naive_solver].
  intros p Hp. rewrite elem_of_app in Hp. rewrite Hk', Hk; naive_solver.
Qed.
Lemma grows_refl v : grows v v [].
Proof. done. Qed.
Lemma grows_without v p : grows v (without p v) [p].
Proof. split; [done| |done]. intros q Hq. simpl. rewrite lookup_delete_ne; [done|set_solver]. Qed.
Lemma grows_disarm v p v' l : grows v v' l → grows v (v' <| v_armed := v_armed v' ∖ {[p]} |>) l.
Proof. by intros [? ? ?]. Qed.
Lemma grows_weaken v v' l l' : grows v v' l → l ⊆ l' → grows v v' l'.
Proof. intros [Hi Hk Hs] Hl. split; [done| |done]. intros p Hp. apply Hk. set_solver. Qed.

(** ** Removing candidates *)

Lemma wp_forgotten p paths w v l v0 : Good w v → removed w p → owned output w p → grows v0 v l →
  wp w (_ ← ask (Disarm p); Done (forget p paths)) (λ w' paths',
    (∃ v', Good w' v' ∧ grows v0 v' l) ∧ (∀ q, q ∈ paths' → q ∈ paths)).
Proof.
  intros Hg Hr Ho Hgr. eapply wp_call; [by eapply good_disarm|]. intros w' [] Hg'. split.
  - eexists. split; [exact Hg'|]. by apply grows_disarm.
  - intros q. unfold forget. rewrite list_elem_of_filter. tauto.
Qed.

Lemma wp_remove_video_candidate p paths w v : Good w v → has_name v p →
  wp w (remove_video_candidate p paths) (λ w' paths',
    (∃ v', Good w' v' ∧ grows v v' [p]) ∧ (∀ q, q ∈ paths' → q ∈ paths)).
Proof.
  intros Hg Hn. unfold remove_video_candidate.
  eapply wp_call; [by eapply good_remove|]. intros w1 r (Hg1 & Hr1 & Ho1).
  assert (grows v (without p v) [p]) as Hgr by apply grows_without.
  assert (wp w1 (_ ← ask (Disarm p); Done (forget p paths)) (λ w' paths',
    (∃ v', Good w' v' ∧ grows v v' [p]) ∧ (∀ q, q ∈ paths' → q ∈ paths))) as Hdone
    by (by eapply wp_forgotten).
  assert (wp w1 (again ← ask (RemoveFile p);
      match again with
      | Ok _ => _ ← ask (Disarm p); Done (forget p paths)
      | Err _ => exists_ ← ask (PathExists p); if (exists_ : bool) then Done paths else _ ← ask (Disarm p); Done (forget p paths)
      end) (λ w' paths', (∃ v', Good w' v' ∧ grows v v' [p]) ∧ (∀ q, q ∈ paths' → q ∈ paths))) as Hagain.
  { eapply wp_call; [eapply good_remove; [exact Hg1|exact Hn]|]. intros w2 r' (Hg2 & Hr2 & Ho2).
    rewrite without_twice in Hg2. destruct r' as [|e']; [by eapply wp_forgotten|].
    eapply wp_call; [by eapply good_exists|]. intros w3 b [Hg3 Hr3].
    destruct b; [split; [by eexists|done]|].
    eapply wp_forgotten; [done|done| |done]. eapply good_has_name; [exact Hg3|exact Hn]. }
  destruct r as [|[]]; [exact Hdone|exact Hdone|exact Hagain..].
Qed.

Lemma wp_remove_all l : ∀ paths w v, Good w v → (∀ p, p ∈ l → has_name v p) →
  wp w (remove_all l paths) (λ w' _, ∃ v', Good w' v' ∧ grows v v' l).
Proof.
  induction l as [|p l IH]; intros paths w v Hg Hn; [by exists v|].
  apply (wp_bind (Mono := file_rule_mono output)).
  eapply (wp_mono (Mono := file_rule_mono output)); [|apply wp_remove_video_candidate; [exact Hg|apply Hn; set_solver]].
  intros w' paths' [(v' & Hg' & Hgr) _]. eapply (wp_mono (Mono := file_rule_mono output)); [|apply IH; [exact Hg'|]].
  - intros w2 paths2 (v2 & Hg2 & Hgr2). exists v2. split; [done|]. by apply (grows_trans v v' v2 [p] l).
  - intros q Hq. eapply grows_name; [exact Hgr|]. apply Hn. set_solver.
Qed.

(** ** Publishing the selection *)

Definition final (w : World) (r : result NormalizationExecutionError NormalizationResult) : Prop :=
  match r with
  | Ok r => ∃ v, Good w v ∧ v_known v !! output = Some (nr_digest r) ∧ nr_output_path r = output
                 ∧ bytes_of r <= limit
                 ∧ ∀ d, d ∈ v_seen v → fd_bytes d <= limit → fd_bytes d <= target → bytes_of r <= target
  | Err (OutputExceedsStorageLimit b l) =>
      ∃ v, Good w v ∧ l = limit ∧ (∀ d, d ∈ v_seen v → limit < fd_bytes d <= b)
           ∧ ∃ d, d ∈ v_seen v ∧ fd_bytes d = b
  | Err _ => fine w
  end.
Lemma final_err w e : benign e → fine w → final w (Err e).
Proof. by destruct e. Qed.

Lemma wp_publish_video_candidate r cs w v :
  Good w v → has_name v (nr_output_path r) → v_known v !! nr_output_path r = Some (nr_digest r) →
  nr_digest r ∈ v_seen v → (∀ p, p ∈ cs_paths cs → has_name v p) → bytes_of r <= limit →
  (∀ d, d ∈ v_seen v → fd_bytes d <= limit → fd_bytes d <= target → bytes_of r <= target) →
  wp w (publish_video_candidate r output cs) final.
Proof.
  intros Hg Hn Hk Hs Hpaths Hb Ht. unfold publish_video_candidate, publish_artifact.
  apply (wp_try (Mono := file_rule_mono output)).
  apply (wp_bind (Mono := file_rule_mono output)), (wp_bind (Mono := file_rule_mono output)).
  eapply (wp_mono (Mono := file_rule_mono output));
    [|eapply (wp_publish_or_reuse _ output); [exact Hg|exact Hk|by left|exact Hs|by right]].
  intros w1 [o|e]; cbv beta iota; cycle 1.
  { intros (v' & _ & Hg'). destruct e; exact (ex_intro _ v' Hg'). }
  intros Hg1. cbn [map_err Proc.wp]. apply (wp_bind (Mono := file_rule_mono output)).
  eapply (wp_mono (Mono := file_rule_mono output)); [|eapply wp_remove_all; [exact Hg1|exact Hpaths]].
  intros w2 paths (v2 & Hg2 & [Hi Hk2 Hs2]). exists v2. split_and!; [done| |done|done|].
  - simpl. rewrite Hk2; [simpl; by rewrite lookup_insert_eq|]. intros Hin%Hpaths.
    eapply (g_output _ _ Hg1); [|done]. eapply good_has_name; [exact Hg1|exact Hin].
  - intros d Hd. apply Ht. by apply Hs2 in Hd.
Qed.

(** ** Considering a candidate *)

Lemma candidates_view v v' cs s : Candidates v cs s → v_issued v ⊆ v_issued v' →
  (∀ f, cs_fallback cs = Some f → v_known v' !! nr_output_path f = v_known v !! nr_output_path f) →
  Candidates v' cs s.
Proof.
  intros [? ? Hn ? Hf ? ? ?] Hi Hk.
  assert (∀ p, has_name v p → has_name v' p) as Hname.
  { intros p (u & Hu & Hp). exists u. split; [by apply Hi|done]. }
  split; try done; [auto|]. intros f Hfb. destruct (Hf f Hfb) as (? & ? & ? & ?). split_and!; [auto| |done|done].
  by rewrite Hk.
Qed.
Lemma candidates_grow v v' cs s l : Candidates v cs s → grows v v' l →
  (∀ f, cs_fallback cs = Some f → nr_output_path f ∉ l) → Candidates v' cs s.
Proof.
  intros Hc Hg Hl. eapply candidates_view; [done|apply Hg|]. intros f Hf. apply Hg. by apply Hl.
Qed.

Lemma candidates_paths v cs s paths : Candidates v cs s → (∀ q, q ∈ paths → q ∈ cs_paths cs) →
  Candidates v (cs <| cs_paths := paths |>) s.
Proof. intros [? ? Hn ? ? ? ? ?] Hp. split; try done. intros q Hq. by apply Hn, Hp. Qed.

(** The largest oversized result so far, with one more. *)
Definition note_oversized (cs : VideoCandidateSet) (r : NormalizationResult) : VideoCandidateSet :=
  if cs_limit cs <? bytes_of r
  then cs <| cs_largest_oversized := Some (Z.max (default 0 (cs_largest_oversized cs)) (bytes_of r)) |>
  else cs.

Lemma candidates_keep v cs s r : Candidates v cs s → Fresh v cs r → cs_fallback cs = None →
  target < bytes_of r <= limit → Candidates v (cs <| cs_fallback := Some r |>) (nr_digest r :: s).
Proof.
  intros [Ht Hl Hn Hca Hf Hno Ha Hla] [Hrc Hrn Hrk _] Hnone Hb. unfold bytes_of in *.
  split; simpl; [done|done|done|by intros f [= <-]| |done| |].
  - intros f [= <-]. split_and!; [done|done|unfold bytes_of; lia|by left].
  - intros d [->|Hd]%elem_of_cons ?; [lia|by apply Ha].
  - destruct (cs_largest_oversized cs) as [b|].
    + destruct Hla as (? & (d & Hd & Hdb) & Hall). split_and!; [done|exists d; split; [by right|done]|].
      intros d' [->|Hd']%elem_of_cons; [lia|by apply Hall].
    + intros d' [->|Hd']%elem_of_cons; [lia|by apply Hla].
Qed.

Lemma candidates_drop v cs s r : Candidates v cs s →
  (bytes_of r <= limit → target < bytes_of r ∧ is_Some (cs_fallback cs)) →
  Candidates v (note_oversized cs r) (nr_digest r :: s).
Proof.
  intros [Ht Hl Hn Hca Hf Hno Ha Hla] Hb. unfold note_oversized, bytes_of in *. rewrite Hl.
  assert (∀ d, d ∈ nr_digest r :: s → fd_bytes d <= limit → target < fd_bytes d) as Habove.
  { intros d [->|Hd]%elem_of_cons ?; [by apply Hb|by apply Ha]. }
  assert (∀ f, cs_fallback cs = Some f → has_name v (nr_output_path f)
    ∧ v_known v !! nr_output_path f = Some (nr_digest f) ∧ bytes_of f <= limit ∧ nr_digest f ∈ nr_digest r :: s) as Hfb.
  { intros f Hfe. destruct (Hf f Hfe) as (? & ? & ? & ?). split_and!; [done|done|done|by right]. }
  destruct (Z.ltb_spec limit (fd_bytes (nr_digest r))) as [Hbig|Hsmall]; split; simpl; try done.
  - intros Hne d [->|Hd]%elem_of_cons; [done|by apply Hno].
  - destruct (cs_largest_oversized cs) as [b|]; simpl.
    + destruct Hla as (? & (d & Hd & Hdb) & Hall). split_and!; [lia| |].
      * destruct (Z.max_spec b (fd_bytes (nr_digest r))) as [[_ ->]|[_ ->]];
          [exists (nr_digest r); split; [by left|done]|exists d; split; [by right|done]].
      * intros d' [->|Hd']%elem_of_cons ?; [lia|]. pose proof (Hall d' Hd'). lia.
    + split_and!; [lia|exists (nr_digest r); split; [by left|lia]|].
      intros d' [->|Hd']%elem_of_cons ?; [lia|]. pose proof (Hla d' Hd'). lia.
  - intros Hne. destruct Hb as [_ [f Hfe]]; [lia|]. congruence.
  - destruct (cs_largest_oversized cs) as [b|].
    + destruct Hla as (? & (d & Hd & Hdb) & Hall). split_and!; [done|exists d; split; [by right|done]|].
      intros d' [->|Hd']%elem_of_cons; [lia|by apply Hall].
    + intros d' [->|Hd']%elem_of_cons; [lia|by apply Hla].
Qed.

(** A result that is not chosen: the target is missed, or it does not fit. *)
Lemma not_selected v cs s r policy : Candidates v cs s → selects cs r policy = false →
  bytes_of r <= limit → target < bytes_of r ∧ (policy = KeepSmallest → is_Some (cs_fallback cs)).
Proof.
  intros [Ht Hl Hn Hca Hf Hno Ha Hla] Hs Hb. unfold selects in Hs. rewrite Hl, Ht in Hs.
  destruct (Z.leb_spec (bytes_of r) limit); [|lia]. simpl in Hs. destruct policy.
  - apply Z.leb_gt in Hs. done.
  - destruct (cs_fallback cs) as [f|]; [|done]. apply Z.ltb_ge in Hs.
    destruct (Hf f eq_refl) as (_ & _ & Hfl & Hfs). pose proof (Ha _ Hfs Hfl). unfold bytes_of in *. split; [lia|done].
Qed.

Definition considered (v : view) (s : list FileDigest) : Prop := ∀ d, d ∈ v_seen v ↔ d ∈ s.

Lemma wp_remove_from p cs w v : Good w v → has_name v p →
  wp w (remove_from p cs) (λ w' cs', ∃ paths v', cs' = cs <| cs_paths := paths |>
    ∧ (∀ q, q ∈ paths → q ∈ cs_paths cs) ∧ Good w' v' ∧ grows v v' [p]).
Proof.
  intros Hg Hn. apply (wp_bind (Mono := file_rule_mono output)).
  eapply (wp_mono (Mono := file_rule_mono output)); [|by apply wp_remove_video_candidate].
  intros w' paths [(v' & Hg' & Hgr) Hp]. by exists paths, v'.
Qed.

(** Drop a result and go on. *)
Lemma wp_drop_result r cs cs1 s w v (k : VideoCandidateSet → exec NormalizationResult) :
  Good w v → Fresh v cs r → Candidates v cs1 (nr_digest r :: s) → cs_fallback cs1 = cs_fallback cs →
  considered v (nr_digest r :: s) →
  (∀ w' v' cs', Good w' v' → v_issued v ⊆ v_issued v' → Candidates v' cs' (nr_digest r :: s) →
     considered v' (nr_digest r :: s) → wp w' (k cs') final) →
  wp w (x ← (cs2 ← remove_from (nr_output_path r) cs1; Done (cs2, None));
        match x with (cs2, Some selected) => publish_video_candidate selected output cs2 | (cs2, None) => k cs2 end)
    final.
Proof.
  intros Hg [Hrc Hrn Hrk Hrf] Hc Hfb Hs Hk.
  apply (wp_bind (Mono := file_rule_mono output)), (wp_bind (Mono := file_rule_mono output)).
  eapply (wp_mono (Mono := file_rule_mono output)); [|by apply wp_remove_from].
  intros w' cs' (paths & v' & -> & Hp & Hg' & Hgr). cbn [Proc.wp].
  apply (Hk _ v'); [done|apply Hgr| |intros d; by rewrite (gr_seen _ _ _ Hgr)].
  apply candidates_paths; [|done]. eapply candidates_grow; [done..|].
  intros f Hf. rewrite list_elem_of_singleton. apply Hrf. congruence.
Qed.

Lemma wp_settle_candidate policy r cs s w v (k : VideoCandidateSet → exec NormalizationResult) :
  Good w v → Candidates v cs s → Fresh v cs r → considered v (nr_digest r :: s) →
  (∀ w' v' cs', Good w' v' → v_issued v ⊆ v_issued v' → Candidates v' cs' (nr_digest r :: s) →
     considered v' (nr_digest r :: s) → wp w' (k cs') final) →
  wp w (settle_candidate output cs r policy k) final.
Proof.
  intros Hg Hc Hr Hs Hk. unfold settle_candidate, consider. destruct (selects cs r policy) eqn:Hsel.
  - assert (bytes_of r <= limit) as Hb.
    { unfold selects in Hsel. rewrite (ca_limit _ _ _ Hc) in Hsel. destruct (Z.leb_spec (bytes_of r) limit); done. }
    assert (∀ d, d ∈ nr_digest r :: s → fd_bytes d <= limit → fd_bytes d <= target → bytes_of r <= target) as Ht.
    { intros d [->|Hd]%elem_of_cons ? ?; [done|]. pose proof (ca_above _ _ _ Hc d Hd). lia. }
    destruct Hr as [Hrc Hrn Hrk Hrf]. destruct (cs_fallback cs) as [f|] eqn:Hf.
    + destruct (ca_fallback _ _ _ Hc f Hf) as (Hfn & _).
      apply (wp_bind (Mono := file_rule_mono output)), (wp_bind (Mono := file_rule_mono output)).
      eapply (wp_mono (Mono := file_rule_mono output)); [|by apply wp_remove_from].
      intros w' cs' (paths & v' & -> & Hp & Hg' & Hgr). cbn [Proc.wp].
      eapply wp_publish_video_candidate; [done|by eapply grows_name| | | |done|].
      * rewrite (gr_known _ _ _ Hgr); [done|]. rewrite list_elem_of_singleton. intros Heq. by apply (Hrf f).
      * apply (gr_seen _ _ _ Hgr), Hs. by left.
      * intros q Hq. eapply grows_name; [done|]. apply (ca_names _ _ _ Hc), Hp, Hq.
      * intros d Hd. apply Ht. by apply Hs, (gr_seen _ _ _ Hgr).
    + change (wp w (publish_video_candidate r output cs) final).
      eapply wp_publish_video_candidate; [done|done|done|apply Hs; by left|apply Hc|done|].
      intros d Hd. apply Ht. by apply Hs.
  - pose proof (not_selected _ _ _ _ _ Hc Hsel) as Hns. fold (note_oversized cs r).
    assert (cs_fallback (note_oversized cs r) = cs_fallback cs ∧ cs_limit (note_oversized cs r) = limit) as [Hfb Hli].
    { unfold note_oversized. rewrite (ca_limit _ _ _ Hc). destruct (limit <? bytes_of r); split; try done; apply Hc. }
    rewrite Hfb, Hli. destruct (cs_fallback cs) as [f|] eqn:Hf.
    { eapply wp_drop_result; [done|done| |by rewrite Hfb|done|done].
      apply candidates_drop; [done|]. intros Hb. split; [by apply Hns|by rewrite Hf]. }
    destruct policy; [destruct (Z.leb_spec (bytes_of r) limit) as [Hb|Hb]|].
    + destruct (Hns Hb) as [Htb _]. cbn [Proc.wp mbind proc_bind proc_bind_go].
      assert (note_oversized cs r = cs) as ->.
      { unfold note_oversized. rewrite (ca_limit _ _ _ Hc). destruct (Z.ltb_spec limit (bytes_of r)); [lia|done]. }
      apply (Hk _ v); [done|done| |done]. by apply candidates_keep.
    + eapply wp_drop_result; [done|done| |by rewrite Hfb|done|done]. apply candidates_drop; [done|]. lia.
    + eapply wp_drop_result; [done|done| |by rewrite Hfb|done|done]. apply candidates_drop; [done|].
      intros Hb. destruct (Hns Hb) as [_ Hx]. by destruct (Hx eq_refl).
Qed.

(** ** Encoding *)

(** A new candidate name, armed and not yet written. *)
Record Target (v : view) (path : Str) : Prop := {
  ta_name : ∃ u, u ∈ v_issued v ∧ path = video_candidate_path output u;
  ta_armed : path ∈ v_armed v;
  ta_known : v_known v !! path = None;
}.
Definition Ready (w : World) (cs : VideoCandidateSet) (s : list FileDigest) (path : Str) : Prop :=
  ∃ v, Good w v ∧ Candidates v cs s ∧ considered v s ∧ Target v path.

Lemma wp_next_path cs s w v : Good w v → Candidates v cs s → considered v s →
  wp w (next_path output cs) (λ w' x, Ready w' x.1 s x.2).
Proof.
  intros Hg Hc Hs. eapply wp_call; [by eapply good_new_uuid|]. intros w1 u [Hg1 Hfresh].
  set (path := video_candidate_path output u).
  assert (named u path) as Hnm by (by left). destruct (Hfresh path Hnm) as [Ha Hk].
  set (v1 := v <| v_issued := _ |>) in *.
  assert (has_name v1 path) as Hn by (exists u; split; [set_solver|done]).
  eapply wp_call; [eapply good_arm; [exact Hg1|exact Hn]|]. intros w2 [] Hg2. eexists. split; [exact Hg2|].
  split_and!; [|exact Hs|split; [exists u; split; [simpl; set_solver|done]|simpl; set_solver|exact Hk]].
  assert (Candidates (v1 <| v_armed := {[path]} ∪ v_armed v1 |>) cs s) as [? ? Hp ? ? ? ? ?].
  { eapply candidates_view; [exact Hc|simpl; set_solver|done]. }
  split; try done. simpl. intros q [Hq| ->%list_elem_of_singleton]%elem_of_app; [by apply Hp|].
  exists u. split; [simpl; set_solver|done].
Qed.

(** What a successful encode to [path] gives. *)
Definition Encoded (cs : VideoCandidateSet) (s : list FileDigest) (v0 : view) (w : World)
    (r : result NormalizationExecutionError NormalizationResult) : Prop :=
  match r with
  | Ok r => ∃ v, Good w v ∧ v_issued v0 ⊆ v_issued v ∧ Candidates v cs s ∧ Fresh v cs r
                 ∧ considered v (nr_digest r :: s)
  | Err e => benign e ∧ fine w
  end.

Lemma wp_execute_candidate x plan cs s w v : Good w v → Candidates v cs s → considered v s →
  Target v (np_output plan) → wp w (execute x plan) (Encoded cs s v).
Proof.
  intros Hg Hc Hs [(u & Hu & Hpath) Harm Hk]. set (path := np_output plan) in *.
  eapply (wp_mono (Mono := file_rule_mono output)); [|by eapply wp_execute].
  intros w' [r|e]; [|done]. intros (Hr & v' & Hg' & [Hi Hkn Hsn]). fold path in Hr, Hkn.
  assert (∀ f, cs_fallback cs = Some f → nr_output_path f ≠ path) as Hne.
  { intros f Hf Heq. destruct (ca_fallback _ _ _ Hc f Hf) as (_ & Hkf & _). congruence. }
  exists v'. split_and!; [done|done| | |].
  - eapply candidates_view; [done|done|]. intros f Hf. rewrite Hkn, lookup_insert_ne; [done|].
    intros Heq. by apply (Hne f).
  - split; rewrite Hr; [by exists u| |by rewrite Hkn, lookup_insert_eq|by apply Hne].
    exists u. split; [by apply Hi|by left].
  - intros d. by rewrite Hsn, !elem_of_cons, (Hs d).
Qed.

Lemma validate_adapted_benign probe d source p :
  match validate_adapted_dimensions probe d source p with Ok _ => True | Err e => benign e end.
Proof.
  destruct (validate_adapted_dimensions probe d source p) as [|e] eqn:Hv; [done|].
  unfold validate_adapted_dimensions in Hv. repeat (case_match; simplify_eq); done.
Qed.

(** An encode, then the check of its dimensions. *)
Lemma wp_validated x plan d source pl cs s w v : Good w v → Candidates v cs s → considered v s →
  Target v (np_output plan) → wp w (execute_quality_candidate x plan d source pl) (Encoded cs s v).
Proof.
  intros Hg Hc Hs Ht. unfold execute_quality_candidate. apply (wp_try (Mono := file_rule_mono output)).
  eapply (wp_mono (Mono := file_rule_mono output)); [|by eapply wp_execute_candidate].
  intros w' [r|e] Hr; [|exact Hr]. apply (wp_try (Mono := file_rule_mono output)). cbn [Proc.wp].
  pose proof (validate_adapted_benign (nr_probe r) d source (pl_profile pl)) as Hb.
  destruct (validate_adapted_dimensions _ _ _ _) as [[]|e]; [exact Hr|].
  destruct Hr as (v' & Hg' & _). split; [done|]. by exists v'.
Qed.

Lemma encoded_err cs s v w e : Encoded cs s v w (Err e) → final w (Err e).
Proof. intros [? ?]. by apply final_err. Qed.

(** What the rest of the program is given after a candidate was not chosen. *)
Definition continues (k : VideoCandidateSet → exec NormalizationResult) : Prop :=
  ∀ w v cs s, s ≠ [] → Good w v → Candidates v cs s → considered v s → wp w (k cs) final.

Lemma wp_settle_encoded policy r cs s v0 w (k : VideoCandidateSet → exec NormalizationResult) :
  Encoded cs s v0 w (Ok r) → continues k → wp w (settle_candidate output cs r policy k) final.
Proof.
  intros (v & Hg & _ & Hc & Hf & Hs) Hk. eapply wp_settle_candidate; [done..|].
  intros w' v' cs' Hg' _ Hc' Hs'. by apply (Hk w' v' cs' (nr_digest r :: s)).
Qed.

Lemma wp_finish : continues (finish output).
Proof.
  intros w v cs s Hne Hg Hc Hs. unfold finish. apply (wp_try (Mono := file_rule_mono output)). cbn [Proc.wp].
  unfold take_fallback. destruct (cs_fallback cs) as [f|] eqn:Hf; simpl.
  - destruct (ca_fallback _ _ _ Hc f Hf) as (Hn & Hk & Hb & Hd).
    eapply wp_publish_video_candidate; [done|done|done|by apply Hs|apply Hc|done|].
    intros d Hdd Hdl Hdt. apply Hs in Hdd. pose proof (ca_above _ _ _ Hc d Hdd Hdl). lia.
  - exists v. split_and!; [done|apply Hc| |].
    + intros d Hd%Hs. pose proof (ca_none _ _ _ Hc Hf d Hd). pose proof (ca_largest _ _ _ Hc) as Hla.
      destruct (cs_largest_oversized cs) as [b|]; simpl; [|pose proof (Hla d Hd); lia].
      destruct Hla as (_ & _ & Hall). pose proof (Hall d Hd). lia.
    + pose proof (ca_largest _ _ _ Hc) as Hla. destruct (cs_largest_oversized cs) as [b|]; simpl.
      * destruct Hla as (_ & (d & Hd & Hb) & _). exists d. split; [by apply Hs|done].
      * destruct s as [|d s]; [done|]. pose proof (ca_none _ _ _ Hc Hf d ltac:(by left)).
        pose proof (Hla d ltac:(by left)). lia.
Qed.

(** ** The attempts *)

Section Attempts.
Context (x : FfmpegExecutor) (pl : NormalizationPlanner) (input : Str) (probe : MediaProbe)
  (video : MediaStream).

Lemma wp_try_remux first cs w v (k : VideoCandidateSet → exec NormalizationResult) :
  Good w v → Candidates v cs [] → considered v [] →
  (∀ w v cs s, Good w v → Candidates v cs s → considered v s → wp w (k cs) final) →
  wp w (try_remux x output first cs k) final.
Proof.
  intros Hg Hc Hs Hk. unfold try_remux. case_decide; [|by eapply Hk].
  apply (wp_bind (Mono := file_rule_mono output)).
  eapply (wp_mono (Mono := file_rule_mono output)); [|by eapply wp_next_path].
  intros w1 [cs1 path] (v1 & Hg1 & Hc1 & Hs1 & Ht1). apply (wp_try (Mono := file_rule_mono output)).
  eapply (wp_mono (Mono := file_rule_mono output)); [|by eapply wp_execute_candidate].
  intros w2 [r|e] Hr; [|by eapply encoded_err]. eapply wp_settle_encoded; [exact Hr|].
  intros w3 v3 cs3 s3 _. apply Hk.
Qed.

Lemma plan_output pl' input' path d plan :
  plan_quality_candidate pl' input' path probe d = Ok plan → np_output plan = path.
Proof. unfold plan_quality_candidate. intros Hp. repeat (case_match; simplify_eq); done. Qed.
Lemma map_candidate_plan_error_benign e : benign (map_candidate_plan_error e).
Proof. done. Qed.

Lemma wp_try_quality d first cs s w v (k : VideoCandidateSet → exec NormalizationResult) :
  Good w v → Candidates v cs s → considered v s → continues k →
  wp w (try_quality x pl input output probe video d first cs k) final.
Proof.
  intros Hg Hc Hs Hk. unfold try_quality. apply (wp_bind (Mono := file_rule_mono output)).
  eapply (wp_mono (Mono := file_rule_mono output)); [|by eapply wp_next_path].
  intros w1 [cs1 path] (v1 & Hg1 & Hc1 & Hs1 & Ht1). apply (wp_try (Mono := file_rule_mono output)). cbn [Proc.wp].
  assert (∃ r, match first with
    | Some first => Ok (with_output first path)
    | None => map_err map_candidate_plan_error (plan_quality_candidate pl input path probe d) end = r
    ∧ match r with Ok plan => np_output plan = path | Err e => benign e end) as (r & -> & Hr).
  { eexists. split; [done|]. destruct first; [done|].
    destruct (plan_quality_candidate _ _ _ _ _) as [plan|e] eqn:Hp; [by eapply plan_output|done]. }
  destruct r as [plan|e]; [|apply final_err; [done|by exists v1]].
  apply (wp_try (Mono := file_rule_mono output)).
  eapply (wp_mono (Mono := file_rule_mono output)); [|eapply wp_validated; [done..|by rewrite Hr]].
  intros w2 [r|e] Hen; [|by eapply encoded_err]. by eapply wp_settle_encoded.
Qed.

Lemma wp_try_rungs rungs : continues (try_rungs x pl input output probe video rungs).
Proof.
  induction rungs as [|d rungs IH]; [exact wp_finish|]. intros w v cs s _ Hg Hc Hs.
  by eapply wp_try_quality.
Qed.

(** ** Two passes *)

Lemma first_pass_output pl' input' path d bitrate prefix plan :
  plan_two_pass pl' input' path probe d bitrate prefix = Ok plan →
  np_output (tp_second_pass plan) = path ∧ last (ec_args (tp_first_pass plan)) = Some (lit "-").
Proof.
  unfold plan_two_pass. intros Hp. repeat (case_match; simplify_eq); try done. split; [done|].
  cbn [tp_first_pass]. unfold two_pass_command. cbn [Z.eqb Pos.eqb].
  assert (∀ c, last (ec_args (args [lit "-f"; lit "null"; lit "-"] c)) = Some (lit "-")) as Hl.
  { intros c. rewrite args_app. change [lit "-f"; lit "null"; lit "-"] with ([lit "-f"; lit "null"] ++ [lit "-"]).
    by rewrite app_assoc, last_snoc. }
  apply Hl.
Qed.

Lemma wp_execute_analysis c w v : last (ec_args c) = Some (lit "-") → Good w v →
  wp w (execute_analysis x c) (λ w' r, Good w' v ∧ match r with Ok _ => True | Err e => benign e end).
Proof.
  intros Hl Hg. unfold execute_analysis. rewrite Hl. apply (wp_run_with_progress _ _ _ v); [|done].
  apply good_read; [|done]. apply analysis_reads. simpl.
  assert (∀ l : list Str, l ++ [lit "-progress"; lit "pipe:1"; lit "-"] = (l ++ [lit "-progress"; lit "pipe:1"]) ++ [lit "-"])
    as -> by (intros; by rewrite <-app_assoc).
  apply last_snoc.
Qed.

Lemma wp_drop_passlogs dir armed w v : Good w v → has_name v dir →
  wp w (drop_passlogs dir armed) (λ w' _, ∃ v', Good w' v' ∧ grows v v' [dir]).
Proof.
  intros Hg Hn. unfold drop_passlogs. destruct armed; [|exists v; split; [done|eapply grows_weaken; [apply grows_refl|set_solver]]].
  eapply wp_call; [by eapply good_remove_dir|]. intros w1 r (Hg1 & Hr & Ho).
  eapply wp_disarm; [done..|]. intros w' Hg'. eexists. split; [exact Hg'|]. apply grows_disarm, grows_without.
Qed.
Lemma wp_remove_passlogs dir w v : Good w v → has_name v dir →
  wp w (remove_passlogs dir) (λ w' _, ∃ v', Good w' v' ∧ grows v v' [dir]).
Proof.
  intros Hg Hn. eapply wp_call; [by eapply good_remove_dir|]. intros w1 [r|e] (Hg1 & Hr & Ho).
  - eapply wp_call; [by eapply good_disarm|]. intros w' [] Hg'. eexists. split; [exact Hg'|].
    apply grows_disarm, grows_without.
  - eexists. split; [exact Hg1|]. apply grows_without.
Qed.

Lemma wp_reserve_passlogs dir w v : Good w v → has_name v dir →
  wp w (reserve_passlogs dir) (λ w' r,
    match r with
    | Ok _ => Good w' (v <| v_armed := {[dir]} ∪ v_armed v |>)
    | Err e => benign e ∧ Good w' v
    end).
Proof.
  intros Hg Hn. eapply wp_call; [by eapply good_create_dir|]. intros w1 [[]|e] Hg1; [|done].
  eapply wp_call; [by eapply good_arm_made|]. by intros w2 [].
Qed.

(** A pass log directory is not a candidate. *)
Lemma passlog_not_candidate u u' : video_candidate_path output u ≠ passlog_directory output u'.
Proof.
  unfold video_candidate_path, passlog_directory, with_file_name.
  destruct (path_parent output) as [dir|]; [intros Heq%path_join_inj|intros Heq]; simplify_eq.
Qed.

Lemma candidates_passlogs v v' cs s u : Candidates v cs s → grows v v' [passlog_directory output u] →
  Candidates v' cs s.
Proof.
  intros Hc Hg. eapply candidates_grow; [done..|]. intros f Hf. rewrite list_elem_of_singleton.
  destruct (ca_candidate _ _ _ Hc f Hf) as [u' ->]. apply passlog_not_candidate.
Qed.
Lemma fresh_passlogs v v' cs r u : Fresh v cs r → grows v v' [passlog_directory output u] → Fresh v' cs r.
Proof.
  intros [[u' Hu] Hn Hk Hf] Hg. split; [by exists u'|by eapply grows_name| |done].
  rewrite (gr_known _ _ _ Hg); [done|]. rewrite list_elem_of_singleton, Hu. apply passlog_not_candidate.
Qed.

Lemma wp_execute_two_pass plan d cs s w v path : Good w v → Candidates v cs s → considered v s →
  Target v path → np_output (tp_second_pass plan) = path → last (ec_args (tp_first_pass plan)) = Some (lit "-") →
  wp w (execute_two_pass_candidate x plan d video pl) (Encoded cs s v).
Proof.
  intros Hg Hc Hs Ht Hp Hl. unfold execute_two_pass_candidate. apply (wp_try (Mono := file_rule_mono output)).
  eapply (wp_mono (Mono := file_rule_mono output)); [|by apply wp_execute_analysis].
  intros w1 [pr|e] [Hg1 He]; [|split; [done|by exists v]].
  change (wp w1 (execute_quality_candidate x (tp_second_pass plan) d video pl) (Encoded cs s v)).
  eapply wp_validated; [done..|by rewrite Hp].
Qed.

Lemma wp_try_two_pass d bitrate cs s w v (k : VideoCandidateSet → exec NormalizationResult) :
  Good w v → Candidates v cs s → considered v s → continues k →
  wp w (try_two_pass x pl input output probe video d bitrate cs k) final.
Proof.
  intros Hg Hc Hs Hk. unfold try_two_pass. apply (wp_bind (Mono := file_rule_mono output)).
  eapply (wp_mono (Mono := file_rule_mono output)); [|by eapply wp_next_path].
  intros w1 [cs1 path] (v1 & Hg1 & Hc1 & Hs1 & [Htn Hta Htk]). cbn [fst snd] in *.
  eapply wp_call; [by eapply good_new_uuid|]. intros w2 u [Hg2 _]. set (v2 := v1 <| v_issued := _ |>) in *.
  set (dir := passlog_directory output u).
  assert (has_name v2 dir) as Hdn by (exists u; split; [set_solver|by right; left]).
  apply (wp_try (Mono := file_rule_mono output)).
  eapply (wp_mono (Mono := file_rule_mono output)); [|by apply (wp_reserve_passlogs dir)].
  intros w3 [[]|e] Hg3; [|apply final_err; [apply Hg3|eexists; apply Hg3]].
  set (v3 := v2 <| v_armed := _ |>) in *.
  assert (Candidates v3 (record_attempt cs1) s) as Hc3.
  { destruct (candidates_view v1 v3 cs1 s Hc1 ltac:(simpl; set_solver) ltac:(done)) as [? ? ? ? ? ? ? ?]. by split. }
  assert (Target v3 path) as Ht3.
  { destruct Htn as (u' & Hu' & ->). split; [exists u'; split; [simpl; set_solver|done]|simpl; set_solver|done]. }
  apply (wp_try (Mono := file_rule_mono output)). cbn [Proc.wp].
  destruct (plan_two_pass _ _ _ _ _ _ _) as [plan|e] eqn:Hp; cbn [map_err];
    [|apply final_err; [done|by exists v3]].
  apply first_pass_output in Hp as [Hpo Hpl]. apply (wp_try (Mono := file_rule_mono output)).
  eapply (wp_mono (Mono := file_rule_mono output)); [|eapply (wp_execute_two_pass plan d _ s w3 v3 path); done].
  intros w4 [r|e] Hr; [|by eapply encoded_err]. destruct Hr as (v4 & Hg4 & Hi4 & Hc4 & Hf4 & Hs4).
  assert (∀ v', v_issued v4 ⊆ v_issued v' → has_name v' dir) as Hdir.
  { intros v' Hi. exists u. split; [|by right; left]. apply Hi, Hi4. simpl. set_solver. }
  apply (wp_bind (Mono := file_rule_mono output)).
  eapply (wp_mono (Mono := file_rule_mono output)); [|eapply (wp_remove_passlogs dir); [exact Hg4|by apply Hdir]].
  intros w5 armed (v5 & Hg5 & Hgr5).
  eapply (wp_settle_candidate _ r _ s w5 v5);
    [done|by eapply candidates_passlogs|by eapply fresh_passlogs|intros d'; by rewrite (gr_seen _ _ _ Hgr5)|].
  intros w6 v6 cs6 Hg6 Hi6 Hc6 Hs6. apply (wp_bind (Mono := file_rule_mono output)).
  eapply (wp_mono (Mono := file_rule_mono output));
    [|eapply (wp_drop_passlogs dir armed); [exact Hg6|apply Hdir; etransitivity; [apply Hgr5|done]]].
  intros w7 [] (v7 & Hg7 & Hgr7). eapply (Hk w7 v7 cs6 (nr_digest r :: s)); [done|done| |].
  - by eapply candidates_passlogs.
  - intros d'. by rewrite (gr_seen _ _ _ Hgr7).
Qed.
End Attempts.

Lemma candidates_empty v : Candidates v (candidates_new target limit) [].
Proof. split; simpl; try done; set_solver. Qed.

Lemma wp_video_normalization pl x input probe first w v : vp_target_max_bytes (pl_profile pl) = target →
  Good w v → considered v [] →
  wp w (video_normalization pl x input output probe limit first) final.
Proof.
  intros Ht Hg Hs. unfold video_normalization. rewrite Ht.
  eapply wp_try_remux; [done|apply candidates_empty|done|]. intros w1 v1 cs1 s1 Hg1 Hc1 Hs1.
  destruct (find_stream StreamVideo probe) as [video|]; [|by exists v1].
  destruct (resolution_ladder _ _) as [|d rungs]; [by exists v1|].
  eapply wp_try_quality; [done..|]. intros w2 v2 cs2 s2 Hne Hg2 Hc2 Hs2.
  destruct (two_pass_candidate _ _) as [[d' bitrate]|].
  - eapply wp_try_two_pass; [done..|apply wp_finish].
  - by eapply wp_try_rungs.
Qed.
End Selection.

(** ** The theorem *)

(** A handler that starts: it has drawn no identifier, and owns nothing. *)
Definition starting (w : World) : Prop :=
  wf_issued w = ∅ ∧ wf_guards w = ∅ ∧ wf_log w = [].

(** C4: whatever ffmpeg and ffprobe answer, whatever they write to the output given to
    them, whatever removals fail and whatever other workers publish in between:
    - whenever the video normalization awaits a call, each file and directory it has made
      has a destructor alive (or a removal of it failed), and when the call has taken effect
      still each but the one the call itself makes: a cancellation leaves behind at most the
      one name that was being created or linked, and what could not be removed;
    - when it returns, nothing is left but what could not be removed;
    - no call replaces, removes or writes to an output that is there;
    - when it succeeds, the output has the digest it returns, its size is within the storage
      limit, and it meets the target if any encode it measured meets the target and the limit;
    - when it reports that the storage limit is exceeded, every encode it measured exceeds
      the limit, and the size it reports is the largest of them. *)
Theorem video_normalization_is_sound {J : Json} {H : Sha256} output pl x input probe limit first w :
  0 <= limit → starting w →
  Proc.wp (file_rule output) w (execute_video_normalization pl x input output probe limit first)
    (λ w' r,
      (∀ p, owned output w' p → is_Some (wf_names w' !! p) → p ∈ wf_stuck w')
      ∧ match r with
        | Ok r =>
            content w' output (nr_digest r) ∧ nr_output_path r = output ∧ bytes_of r <= limit
            ∧ ∀ d, measured (output := output) w' d → fd_bytes d <= limit →
                fd_bytes d <= vp_target_max_bytes (pl_profile pl) →
                bytes_of r <= vp_target_max_bytes (pl_profile pl)
        | Err (OutputExceedsStorageLimit b l) =>
            l = limit ∧ (∀ d, measured (output := output) w' d → limit < fd_bytes d <= b)
            ∧ ∃ d, measured (output := output) w' d ∧ fd_bytes d = b
        | Err _ => True
        end).
Proof.
  intros Hl (Hi & Hgd & Hlog). unfold execute_video_normalization.
  assert (∀ p, ¬ owned output w p) as Hno by (intros p (u & Hu & _); rewrite Hi in Hu; set_solver).
  set (v := {| v_issued := ∅; v_armed := ∅; v_private := None; v_known := ∅; v_seen := [] |}).
  assert (Good (output := output) w v) as Hg.
  { split; simpl; [by intros p Hp; destruct (Hno p)|rewrite Hgd; set_solver|by intros p Hp; destruct (Hno p)
      |set_solver|set_solver|done|done|]. intros d. unfold measured. rewrite Hlog. set_solver. }
  apply (wp_bind (Mono := file_rule_mono output)).
  eapply (wp_mono (Mono := file_rule_mono output)); [|eapply (wp_video_normalization (Hlimit := Hl)); done].
  intros w1 r Hf. assert (fine (output := output) w1) as Hfine.
  { destruct r as [r|[]]; try exact Hf; destruct Hf as (v' & Hg' & _); by exists v'. }
  destruct r as [r|e].
  - destruct Hf as (v1 & Hg1 & Hk & Ho & Hb & Ht). eapply wp_call; [by eapply good_drop|].
    intros w2 [] (Hleft & Hm & Hc). split_and!; [done|by apply Hc|done|done|].
    intros d Hd. apply Ht. by apply Hm.
  - destruct e; try (destruct Hfine as [v1 Hg1]; eapply wp_call; [by eapply good_drop|];
      intros w2 [] (Hleft & _); done).
    destruct Hf as (v1 & Hg1 & -> & Hall & d & Hd & Hb). eapply wp_call; [by eapply good_drop|].
    intros w2 [] (Hleft & Hm & _). split_and!; [done|done|intros d' Hd'%Hm; by apply Hall|].
    exists d. split; [by apply Hm|done].
Qed.

(** ** A starting world *)

(** A canonical file of an earlier attempt is there already. *)
Definition demo_output : Str := lit "/work/normalized/canonical.mp4".
Definition demo_world : World :=
  {| wf_names := {[ lit "/work/normalized" := Directory; demo_output := File 0 ]};
     wf_data := {[ 0%nat := [7; 7] ]}; wf_guards := ∅; wf_stuck := ∅; wf_issued := ∅; wf_log := [] |}.
Definition demo_planner : NormalizationPlanner :=
  {| pl_ffmpeg := lit "ffmpeg"; pl_profile := default_video_profile |}.
Definition demo_executor : FfmpegExecutor := {| ex_timeout := 60000000; ex_max_output_bytes := 65536 |}.
Definition demo_plan : NormalizationPlan :=
  {| np_mode := Transcode;
     np_command := transcode_command demo_planner (lit "/work/source/source.bin") demo_output
                     {| vd_width := 1920; vd_height := 1080 |} 27 demo_video;
     np_output := demo_output; np_profile := pl_profile demo_planner |}.

Lemma video_normalization_is_sound_witness :
  starting demo_world
  ∧ wp (file_rule demo_output) demo_world
      (execute_video_normalization demo_planner demo_executor (lit "/work/source/source.bin") demo_output
         demo_probe 1000 demo_plan)
      (λ w' r,
        (∀ p, owned demo_output w' p → is_Some (wf_names w' !! p) → p ∈ wf_stuck w')
        ∧ match r with
          | Ok r =>
              content w' demo_output (nr_digest r) ∧ nr_output_path r = demo_output ∧ bytes_of r <= 1000
              ∧ ∀ d, measured (output := demo_output) w' d → fd_bytes d <= 1000 →
                  fd_bytes d <= 14680064 → bytes_of r <= 14680064
          | Err (OutputExceedsStorageLimit b l) =>
              l = 1000 ∧ (∀ d, measured (output := demo_output) w' d → 1000 < fd_bytes d <= b)
              ∧ ∃ d, measured (output := demo_output) w' d ∧ fd_bytes d = b
          | Err _ => True
          end).
Proof.
  split; [done|].
  apply (video_normalization_is_sound demo_output demo_planner demo_executor); [lia|done].
Defined.
