(* ===== verification/PublishWorker.v ===== *)
(** * PublishWorker: the publication handlers of the worker

    [apps/worker/src/publication.rs] as programs over the calls they await: the
    publisher repository, the receipt lookup of the library and the two calls of
    [TelegramPublicationApi].  Then the system they run in: any number of handlers,
    each started for any job at any time, interleaved with each other and with the
    requests, settlements and recoveries of [PublisherSpec.request_step], each of
    them possibly cut off at any call, and every database call possibly answered by
    a connection error whether or not its transaction was committed. *)

From S2P Require Import Prelude Enums Jobs Db Queue Proc Publisher PublisherRepo PublisherOps.
From S2P Require Import Library LibraryRepo LibraryStorage.
From S2P Require Import PublisherSend Telegram PublisherSpec.

Section Calls.
Context {J : Json} {Pa : TelegramPublicationApi}.

Inductive publish_call :=
| CClaim (post : Uuid) (expected : Z) (attempt : JobLease)
| CReconcile (post : Uuid) (attempt : JobLease)
| CReceipt (media : Uuid)
| CCopy (request : TelegramPublicationRequest)
| CSend (request : TelegramPublicationRequest)
| CComplete (post : Uuid) (l : PublishLease) (message : Z)
| CFail (post : Uuid) (l : PublishLease) (state : PostState.t) (class msg : Str)
| CRetry (post : Uuid) (l : PublishLease) (class msg : Str)
| CMaterialize (ingest : Uuid).

#[global] Instance publish_interface : Interface :=
  {| call := publish_call;
     answer c := match c with
       | CClaim _ _ _ | CComplete _ _ _ => result PublisherRepositoryError PublishClaim
       | CReconcile _ _ => result PublisherRepositoryError bool
       | CReceipt _ => result LibraryRepositoryError (option StorageReceipt)
       | CCopy _ | CSend _ => result PubError Z
       | CFail _ _ _ _ _ => result PublisherRepositoryError PostRow
       | CRetry _ _ _ _ => result PublisherRepositoryError PublishRetry
       | CMaterialize _ => result PublisherRepositoryError MaterializationResult
       end |}.
End Calls.

Section Handlers.
Context {J : Json} {Pa : TelegramPublicationApi}.
Context {Dp : Display PublisherRepositoryError} {Dl : Display LibraryRepositoryError}.
Context {De : Display PubError}.
Abbreviation handler := (proc (result HandlerFailure unit)).

Definition map_publisher_error (e : PublisherRepositoryError) : HandlerFailure :=
  let message := display e in
  match e with
  | PubDatabase _ => retryable (lit "database_error") message
  | ChannelDisabled _ | MediaNotReady _ _ | MaterializationNotReady _ =>
      retryable (lit "publication_dependency") message
  | _ => permanent (lit "publication_state") message
  end.

Definition record_publication_failure (claim : PublishClaim) (l : PublishLease)
    (state : PostState.t) (class msg : Str) : handler :=
  Ask (CFail (post_id (pc_post claim)) l state class msg) (λ r,
    match r with
    | Ok _ => mret (Err (permanent class msg))
    | Err (PublishLeaseLost _) => mret (Ok tt)
    | Err e => mret (Err (permanent (lit "publication_state")
                 (lit "could not record publication outcome: " ++ display e)))
    end).

(** The retry path of the transport errors repeats this code with its own class. *)
Definition settle_pre_send_retryable_error (claim : PublishClaim) (l : PublishLease) (class msg : Str) : handler :=
  Ask (CRetry (post_id (pc_post claim)) l class msg) (λ r,
    match r with
    | Ok rt => if pr_terminal rt then mret (Err (permanent class msg))
               else mret (Err (retryable class msg))
    | Err (PublishLeaseLost _) => mret (Ok tt)
    | Err e => mret (Err (permanent (lit "publication_state")
                 (lit "could not requeue a safe publication retry: " ++ display e)))
    end).

Definition settle_publication_transport_error (claim : PublishClaim) (l : PublishLease)
    (e : PubError) : handler :=
  let message := display e in
  if is_retryable_no_effect e then
    settle_pre_send_retryable_error claim l (lit "telegram_retryable") message
  else
    let '(state, class) :=
      if is_known_caption_error e then (PostState.Failed, lit "caption_rejected")
      else if is_ambiguous_error e then (PostState.Unknown, lit "publication_unknown")
      else (PostState.Failed, lit "publication_rejected") in
    record_publication_failure claim l state class message.

Definition publication_request (claim : PublishClaim) (receipt : StorageReceipt)
    : TelegramPublicationRequest :=
  {| rq_target_chat_id := pc_chat_id claim;
     rq_storage_chat_id := sr_chat_id receipt;
     rq_storage_message_id := sr_message_id receipt;
     rq_file_id := sr_file_id receipt;
     rq_media_kind := sr_media_kind receipt;
     rq_caption := post_caption (pc_post claim);
     rq_parse_mode := post_parse_mode (pc_post claim);
     rq_disable_notification := post_disable_notification (pc_post claim) |}.

(** The end of [publish_post], once Telegram has confirmed the message: when the
    completion cannot be recorded, the post is fenced as unknown. *)
Definition fence_unknown (post : Uuid) (l : PublishLease) (text : Str) : handler :=
  Ask (CFail post l PostState.Unknown (lit "publication_commit") text) (λ f,
    match f with
    | Ok _ => mret (Err (permanent (lit "publication_commit") text))
    | Err (PublishLeaseLost _) => mret (Ok tt)
    | Err failure => mret (Err (permanent (lit "publication_commit")
        (text ++ lit "; could not fence the publication as unknown: " ++ display failure)))
    end).
Definition confirm_publication (post : Uuid) (l : PublishLease) (message : Z) : handler :=
  Ask (CComplete post l message) (λ r,
    match r with
    | Ok _ | Err (PublishConflict _) | Err (PublishLeaseLost _) => mret (Ok tt)
    | Err e => fence_unknown post l (display e)
    end).

(** The middle: with the receipt at hand, copy the stored message, or send its file
    when Telegram cannot copy it. *)
Definition send_publication (post : Uuid) (claim : PublishClaim) (l : PublishLease)
    (receipt : StorageReceipt) : handler :=
  let request := publication_request claim receipt in
  Ask (CCopy request) (λ r,
    match r with
    | Ok message => confirm_publication post l message
    | Err e =>
        if is_copy_unavailable e then
          if is_none (rq_file_id request) then
            record_publication_failure claim l PostState.Failed
              (lit "storage_file_reference_missing")
              (lit "copyMessage was unavailable and the storage receipt has no file ID")
          else
            Ask (CSend request) (λ r,
              match r with
              | Ok message => confirm_publication post l message
              | Err e => settle_publication_transport_error claim l e
              end)
        else settle_publication_transport_error claim l e
    end).

(** The claimed post: look its receipt up before anything is sent. *)
Definition publish_claimed (post : Uuid) (claim : PublishClaim) (l : PublishLease) : handler :=
  Ask (CReceipt (post_media_id (pc_post claim))) (λ r,
    match r with
    | Ok (Some receipt) => send_publication post claim l receipt
    | Ok None =>
        record_publication_failure claim l PostState.Failed (lit "storage_receipt_missing")
          (lit "media has no ready Telegram storage receipt")
    | Err (LibDatabase s) =>
        settle_pre_send_retryable_error claim l (lit "storage_receipt_lookup")
          (display (LibDatabase s))
    | Err e =>
        record_publication_failure claim l PostState.Failed (lit "storage_receipt_invalid")
          (display e)
    end).

Definition publish_post (job : Job) : handler :=
  match jb_command job with
  | PublishPost payload =>
      match lease job with
      | None => mret (Err (permanent (lit "invalid_job_state")
                  (lit "publish_post handler requires a running job lease")))
      | Some attempt =>
          Ask (CClaim (publish_post_id payload) (publish_expected_revision payload) attempt) (λ r,
            match r with
            | Ok claim =>
                match post_send_token (pc_post claim) with
                | None => mret (Err (permanent (lit "invalid_publication_state")
                            (lit "publication claim has no send token")))
                | Some token =>
                    publish_claimed (publish_post_id payload) claim
                      {| pl_generation := post_send_generation (pc_post claim);
                         pl_token := token; pl_attempt := attempt |}
                end
            | Err (PostNotClaimable _ PostState.Sending) =>
                Ask (CReconcile (publish_post_id payload) attempt) (λ r,
                  match r with
                  | Ok _ | Err (PublishLeaseLost _) => mret (Ok tt)
                  | Err e => mret (Err (map_publisher_error e))
                  end)
            | Err (PostNotClaimable _ _) | Err (StalePublicationJob _)
            | Err (PublishLeaseLost _) => mret (Ok tt)
            | Err e => mret (Err (map_publisher_error e))
            end)
      end
  | _ => mret (Err (permanent (lit "invalid_payload")
           (lit "publish_post handler received a different job command")))
  end.

Definition materialize_publication (job : Job) : handler :=
  match jb_command job with
  | MaterializePublication payload =>
      Ask (CMaterialize (materialize_ingest_id payload)) (λ r,
        mret (match r with Ok _ => Ok tt | Err e => Err (map_publisher_error e) end))
  | _ => mret (Err (permanent (lit "invalid_payload")
           (lit "materialize_publication handler received a different job command")))
  end.
End Handlers.

(** ** The system *)

(** What one call reads besides the tables: the clocks and the identifiers it draws. *)
Record supply := { su_clock : Clock; su_first : Uuid; su_second : Uuid }.

(** A message in a channel: the post it was sent for, what was sent, its identifier. *)
Record delivery := { dl_post : Uuid; dl_request : TelegramPublicationRequest; dl_message : Z }.

Section System.
Context {J : Json} {P : PayloadSerde} {T : TimeZones} {D : Digests} {Pa : TelegramPublicationApi}.
Context {Dp : Display PublisherRepositoryError} {Dl : Display LibraryRepositoryError}.
Context {De : Display PubError}.
Abbreviation reply := (result HandlerFailure unit).

(** The answer of a repository call and the committed tables; Telegram's calls are
    not answered by the database. *)
Definition exec_call (su : supply) (c : call) (db : Db) : option (answer c * Db) :=
  let ck := su_clock su in
  match c return option (answer c * Db) with
  | CClaim post expected attempt =>
      Some (run_txn (claim_publish (su_first su) post expected attempt) ck db)
  | CReconcile post attempt => Some (run_txn (reconcile_interrupted_publish post attempt) ck db)
  | CReceipt media => Some (run_txn (find_storage_receipt media) ck db)
  | CComplete post l message => Some (run_txn (complete_publish post l message) ck db)
  | CFail post l state class msg => Some (run_txn (fail_publish post l state class msg) ck db)
  | CRetry post l class msg => Some (run_txn (retry_publish post l class msg) ck db)
  | CMaterialize ingest =>
      Some (run_txn (materialize_ingest (su_first su) (su_second su) ingest) ck db)
  | CCopy _ | CSend _ => None
  end.

(** The answer of a repository call whose connection fails. *)
Definition outage (s : SqlError) (c : call) : option (answer c) :=
  match c return option (answer c) with
  | CReceipt _ => Some (Err (LibDatabase s))
  | CCopy _ | CSend _ => None
  | CClaim _ _ _ | CComplete _ _ _ => Some (Err (PubDatabase s))
  | CReconcile _ _ => Some (Err (PubDatabase s))
  | CFail _ _ _ _ _ => Some (Err (PubDatabase s))
  | CRetry _ _ _ _ => Some (Err (PubDatabase s))
  | CMaterialize _ => Some (Err (PubDatabase s))
  end.

Record system := {
  sy_db : Db;
  sy_threads : gmap nat (thread Uuid reply);
  sy_log : list delivery;
}.

(** What Telegram did with a request it answered by [r]: a confirmed message exists;
    a request answered by an error [e] was delivered at most when [delivered e]. *)
Inductive deliveries_of (delivered : PubError → bool) (post : Uuid)
    (q : TelegramPublicationRequest) : result PubError Z → list delivery → Prop :=
| confirmed m :
    deliveries_of delivered post q (Ok m) [{| dl_post := post; dl_request := q; dl_message := m |}]
| rejected e : deliveries_of delivered post q (Err e) []
| unconfirmed e m :
    delivered e = true →
    deliveries_of delivered post q (Err e)
      [{| dl_post := post; dl_request := q; dl_message := m |}].

(** A handler cut off after a commit or after a delivery is one that got its answer
    and stopped before using it: [sys_crash] needs no further cases. *)
Inductive sys_step (delivered : PubError → bool) : system → system → Prop :=
| sys_request db db' ts log :
    request_step db db' →
    sys_step delivered {| sy_db := db; sy_threads := ts; sy_log := log |}
      {| sy_db := db'; sy_threads := ts; sy_log := log |}
| sys_start db ts log n job payload :
    ts !! n = None → jb_command job = PublishPost payload →
    sys_step delivered {| sy_db := db; sy_threads := ts; sy_log := log |}
      {| sy_db := db;
         sy_threads := <[n := Build_thread (publish_post_id payload) (publish_post job)]> ts;
         sy_log := log |}
| sys_call db ts log n post c k su x db' :
    ts !! n = Some (Build_thread post (Ask c k)) → exec_call su c db = Some (x, db') →
    sys_step delivered {| sy_db := db; sy_threads := ts; sy_log := log |}
      {| sy_db := db'; sy_threads := <[n := Build_thread post (k x)]> ts; sy_log := log |}
| sys_outage db ts log n post c k su x db' s y db'' :
    ts !! n = Some (Build_thread post (Ask c k)) → exec_call su c db = Some (x, db') →
    outage s c = Some y → db'' = db ∨ db'' = db' →
    sys_step delivered {| sy_db := db; sy_threads := ts; sy_log := log |}
      {| sy_db := db''; sy_threads := <[n := Build_thread post (k y)]> ts; sy_log := log |}
| sys_copy db ts log n post q k x ds :
    ts !! n = Some (Build_thread post (Ask (CCopy q) k)) → deliveries_of delivered post q x ds →
    sys_step delivered {| sy_db := db; sy_threads := ts; sy_log := log |}
      {| sy_db := db; sy_threads := <[n := Build_thread post (k x)]> ts; sy_log := log ++ ds |}
| sys_send db ts log n post q k x ds :
    ts !! n = Some (Build_thread post (Ask (CSend q) k)) → deliveries_of delivered post q x ds →
    sys_step delivered {| sy_db := db; sy_threads := ts; sy_log := log |}
      {| sy_db := db; sy_threads := <[n := Build_thread post (k x)]> ts; sy_log := log ++ ds |}
| sys_crash db ts log n :
    sys_step delivered {| sy_db := db; sy_threads := ts; sy_log := log |}
      {| sy_db := db; sy_threads := delete n ts; sy_log := log |}.

(** The messages sent for a post, in order. *)
Definition deliveries (p : Uuid) (log : list delivery) : list delivery :=
  filter (λ d, dl_post d = p) log.
End System.
