(* ===== verification/PublisherHistory.v ===== *)
(** * PublisherHistory: what holds over every history of the publisher

    Finality, optimistic concurrency, send fencing and exclusive cadence slots,
    each by induction over committed transactions. *)

From S2P Require Import Prelude Enums Jobs Db Queue Instances Publisher PublisherRepo.
From S2P Require Import PublisherOps PublisherSend PublisherDemo PublisherInv PublisherSpec.

Section Rows.
Context {J : Json}.
Implicit Types (r : PostRow).

(** States no transaction leaves. *)
Definition is_final (s : PostState.t) : bool :=
  match s with
  | PostState.Published | PostState.Unknown | PostState.Cancelled => true
  | _ => false
  end.

Lemma final_no_change w occ r r' : is_final (post_state r) = true → ¬ post_change w occ r r'.
Proof. intros Hf [_ _ _ _ []]; destruct (post_state r); done. Qed.

(** Once left, a claimed send comes back only under a higher generation. *)
Definition send_superseded r r' : Prop :=
  post_send_generation r ≤ post_send_generation r'
  ∧ (post_state r' = PostState.Sending → post_send_generation r < post_send_generation r').

Lemma send_superseded_change occ r r1 r2 :
  post_state r = PostState.Sending → r1 = r ∨ send_superseded r r1 →
  post_change Sender occ r1 r2 → r2 = r ∨ send_superseded r r2.
Proof.
  intros Hs Hr [_ _ _ _ Hm]. right. unfold send_superseded in *.
  destruct Hr as [->|[Hle Hlt]], Hm as [Hq He|Hq He|Hq He|_ Hq He|_ Hq He|Hq He|Hq He];
    rewrite ?Hs in *; try done; split; try lia; intros He'; rewrite He' in *; try done; try lia;
    first [by rewrite <-He in Hq | by set_unfold in He; naive_solver].
Qed.
End Rows.

Section Slots.
Context {J : Json}.
Implicit Types (db : Db) (r : PostRow).

(** A post that occupies its cadence slot. *)
Definition live r : bool :=
  bool_decide (post_state r = PostState.Queued) || bool_decide (post_state r = PostState.Sending).

Definition slots_exclusive db : Prop := ∀ i j ri rj s,
  db_posts db !! i = Some ri → db_posts db !! j = Some rj → i ≠ j →
  post_channel_id ri = post_channel_id rj → live ri = true → live rj = true →
  post_cadence_slot_at ri = Some s → post_cadence_slot_at rj ≠ Some s.

Lemma occupied_slots_elem db c i j r s :
  db_wf db → db_posts db !! j = Some r → j ≠ i → post_channel_id r = c → live r = true →
  post_cadence_slot_at r = Some s → s ∈ occupied_slots db c i.
Proof.
  intros Hwf Hr Hne Hc Hl Hs. unfold occupied_slots. apply list_elem_of_omap.
  exists r. split; [|done]. apply elem_of_select_rows. exists j. split; [done|].
  unfold holds_slot, live in *. rewrite Hs, Hl, (bool_decide_true (_ = c)) by done. simpl.
  rewrite (wf_post_key _ Hwf _ _ Hr), bool_decide_false by done. done.
Qed.
End Slots.

Section Exclusive.
Context {J : Json} {P : PayloadSerde} {T : TimeZones} {D : Digests}.
Implicit Types (db : Db) (r : PostRow).

(** A changed post either already occupied its slot or took a free one. *)
Lemma post_change_slot occ r r' s :
  post_change Sender occ r r' → live r' = true → post_cadence_slot_at r' = Some s →
  (live r = true ∧ post_cadence_slot_at r = Some s) ∨ s ∉ occ.
Proof.
  unfold live. intros [_ _ _ _ Hm] Hl Hs.
  destruct Hm as [Hq He Hc|Hq He Hc|Hq He Hc|_ Hq He Hc|_ Hq He Hc|Hq He Hc|Hq He Hc];
    try (by rewrite He in Hl); rewrite ?He, ?Hq, <-?Hc; auto.
  left. by rewrite <-He.
Qed.

Lemma slots_exclusive_step db db' :
  pub_step db db' → db_wf db → slots_exclusive db → slots_exclusive db'.
Proof.
  intros Hstep Hwf Hex. destruct (pub_step_effect _ _ Hstep Hwf) as [He _].
  intros i j ri rj s Hi Hj Hne Hch Hli Hlj Hsi Hsj.
  destruct He as [Heq|r r' Hr Heq Hc|r Hr Heq Hn _]; rewrite Heq in Hi, Hj.
  - by apply (Hex i j ri rj s).
  - pose proof (si_channel _ _ (ch_identity _ _ _ _ Hc)) as Hcc.
    apply lookup_insert_Some in Hi as [[Hei <-]|[Hni Hi]];
    apply lookup_insert_Some in Hj as [[Hej <-]|[Hnj Hj]]; try congruence.
    + destruct (post_change_slot _ _ _ _ Hc Hli Hsi) as [[? ?]|Hfree].
      * eapply (Hex i j r rj s); eauto; congruence.
      * apply Hfree. eapply (occupied_slots_elem _ _ _ j); eauto; congruence.
    + destruct (post_change_slot _ _ _ _ Hc Hlj Hsj) as [[? ?]|Hfree].
      * eapply (Hex i j ri r s); eauto; congruence.
      * apply Hfree. eapply (occupied_slots_elem _ _ _ i); eauto; congruence.
    + by apply (Hex i j ri rj s).
  - apply lookup_insert_Some in Hi as [[Hei <-]|[Hni Hi]];
    apply lookup_insert_Some in Hj as [[Hej <-]|[Hnj Hj]]; try congruence.
    + eapply (np_slot _ _ Hn); [done|]. eapply (occupied_slots_elem _ _ _ j); eauto; congruence.
    + eapply (np_slot _ _ Hn); [done|]. eapply (occupied_slots_elem _ _ _ i); eauto; congruence.
    + by apply (Hex i j ri rj s).
Qed.
End Exclusive.

(** ** Theorems *)

Section Theorems.
Context {J : Json} {P : PayloadSerde} {T : TimeZones} {D : Digests}.
Implicit Types (db : Db) (r : PostRow) (ck : Clock).

(** C14: every committed transaction of the publisher (creation, edits, the four
    ways to queue, cancellation, claim, completion, failure, retry, interrupted-send
    reconciliation, and the settlement and stale recovery of publication jobs) refines
    the abstract post machine: it leaves the posts alone, creates one fresh post, or
    moves exactly one post along one allowed transition with its revision raised by
    one; and it keeps every table well formed. *)
Theorem publisher_refines_post_machine db db' :
  pub_step db db' → db_wf db → posts_effect Sender db db' ∧ db_wf db'.
Proof. apply pub_step_effect. Qed.

(** C15: a published, unknown or cancelled post is final: no history of transactions
    changes any column of it, so a message with an unknown outcome is never sent
    again. *)
Theorem final_posts_never_change db db' i r :
  rtc pub_step db db' → db_wf db → db_posts db !! i = Some r →
  is_final (post_state r) = true → db_posts db' !! i = Some r.
Proof.
  intros Hs Hwf Hr Hf.
  destruct (history_post_ind (eq r) i) with (db := db) (db' := db') (r := r)
    as (_ & r' & Hr' & <-); try done.
  intros occ x x' <- Hc. by destruct (final_no_change _ _ _ _ Hf Hc).
Qed.

(** the revision identifies the row: along any history the revision of a post
    never decreases, and if it is the one read earlier then no column changed since.
    This is what makes [expected_revision] an optimistic lock. *)
Theorem same_revision_same_row db db' i r r' :
  rtc pub_step db db' → db_wf db → db_posts db !! i = Some r → db_posts db' !! i = Some r' →
  post_revision r ≤ post_revision r' ∧ (post_revision r' = post_revision r → r' = r).
Proof.
  intros Hs Hwf Hr Hr'.
  destruct (history_post_ind (λ x, x = r ∨ post_revision r < post_revision x) i)
    with (db := db) (db' := db') (r := r) as (_ & x & Hx & Hcase); auto.
  - intros occ x x' Hx Hc. right. rewrite (ch_revision _ _ _ _ Hc). destruct Hx as [->|?]; lia.
  - simplify_eq. destruct Hcase as [->|?]; [done|]. lia.
Qed.

(** C16: send fencing.  A worker claims a post for sending; whatever other
    transactions commit afterwards, a completion under the generation of that claim
    either finds the claimed row unchanged and publishes it, or is the replay of a
    completion already recorded with the same message and changes nothing. *)
Theorem completion_is_fenced tok id e l ck db claim db1 db2 ck' lease m res db3 :
  db_wf db → claim_publish tok id e l ck db = Ok (claim, db1) → rtc pub_step db1 db2 →
  pl_generation lease = post_send_generation (pc_post claim) →
  complete_publish id lease m ck' db2 = Ok (res, db3) →
  (db_posts db2 !! id = Some (pc_post claim) ∧ pl_token lease = tok
     ∧ db3 = set_post (pc_post res) db2
     ∧ post_state (pc_post res) = PostState.Published
     ∧ post_telegram_message_id (pc_post res) = Some m)
  ∨ (db3 = db2 ∧ db_posts db2 !! id = Some (pc_post res)
     ∧ post_state (pc_post res) = PostState.Published
     ∧ post_telegram_message_id (pc_post res) = Some m).
Proof.
  intros Hwf Hc Hs Hg Hcomp.
  destruct (claim_publish_effect _ _ _ _ _ _ _ _ Hc Hwf) as ([_ Hwf1] & r0 & Hr0 & _ & _ & -> & Hsend & _).
  pose proof (lookup_post_id _ _ _ Hwf Hr0) as Hid.
  unfold sending_post in Hsend. case_match; [|done]. injection Hsend as Hsend.
  destruct (history_post_ind (λ x, x = pc_post claim ∨ send_superseded (pc_post claim) x) id)
    with (db := set_post (pc_post claim) db) (db' := db2) (r := pc_post claim)
    as (_ & r & Hr & Hcase); auto.
  { intros occ x x' Hx. eapply send_superseded_change; [|done]. by rewrite <-Hsend. }
  { simpl. rewrite <-Hsend; simpl. by rewrite Hid, lookup_insert_eq. }
  unfold complete_publish in Hcomp. pub_inv; [by right; auto|].
  match goal with H : holds_send _ _ = true |- _ => apply holds_send_ok in H as (Hst & Hgen & Htok) end.
  left. destruct Hcase as [->|[_ Hlt]]; [|specialize (Hlt Hst); lia].
  split_and!; try done. rewrite <-Hsend in Htok. simpl in Htok. congruence.
Qed.

(** C17: two posts of one channel that are queued or being sent never hold the same
    cadence slot, in every state reachable from one where that is so. *)
Theorem cadence_slots_exclusive db db' :
  rtc pub_step db db' → db_wf db → slots_exclusive db → slots_exclusive db'.
Proof.
  induction 1 as [|db db1 db' Hstep _ IH]; [done|]. intros Hwf Hex.
  apply IH; [by eapply pub_step_effect|by eapply slots_exclusive_step].
Qed.
End Theorems.

(** ** The theorems at a concrete history *)

Lemma demo_step_intent : pub_step demo_one demo_two.
Proof.
  apply SRequest, (SIntent _ _ (demo_clock (9 * hour)) 6 7 5 queue_intent (lit "k2")
    {| cp_post := post_at demo_two 6; cp_created := true |}). by_vm.
Qed.
Lemma demo_claims : claim_publish 90 3 0 demo_attempt (demo_clock (9 * hour)) demo_taken
  = Ok (demo_claim, demo_sending).
Proof. by_vm. Qed.
Lemma demo_completes :
  complete_publish 3 demo_send 555 (demo_clock (9 * hour + 1)) demo_sending
  = Ok ({| pc_post := post_at demo_published 3; pc_chat_id := -100123 |}, demo_published).
Proof. by_vm. Qed.
Lemma demo_step_take : pub_step demo_two demo_taken.
Proof. apply SRequest, SOther; [by_vm|]. apply db_wfb_sound. by_vm. Qed.

(** After the publication, post 6 is cancelled. *)
Definition demo_cancelled : Db :=
  (run_txn (cancel_post 6 0) (demo_clock (9 * hour + 2)) demo_published).2.
Lemma demo_step_cancel : pub_step demo_published demo_cancelled.
Proof.
  apply SRequest, (SCancel _ _ (demo_clock (9 * hour + 2)) 6 0 (post_at demo_cancelled 6)). by_vm.
Qed.
Lemma demo_history_posts : rtc pub_step demo_one demo_published.
Proof.
  eapply rtc_l; [apply demo_step_intent|]. eapply rtc_l; [apply demo_step_take|].
  eapply rtc_l; [eapply SClaim, demo_claims|]. apply rtc_once. eapply SComplete, demo_completes.
Qed.

Lemma publisher_refines_post_machine_witness :
  posts_effect Sender demo_taken demo_sending ∧ db_wf demo_sending.
Proof.
  apply (publisher_refines_post_machine demo_taken demo_sending).
  - eapply SClaim, demo_claims.
  - apply db_wfb_sound. by_vm.
Defined.

Lemma final_posts_never_change_witness :
  db_posts demo_cancelled !! 3%N = Some (post_at demo_published 3).
Proof.
  apply (final_posts_never_change demo_published demo_cancelled 3 (post_at demo_published 3)).
  - apply rtc_once, demo_step_cancel.
  - apply db_wfb_sound. by_vm.
  - by_vm.
  - by_vm.
Defined.

Lemma same_revision_same_row_witness :
  post_revision (post_at demo_one 3) ≤ post_revision (post_at demo_published 3)
  ∧ (post_revision (post_at demo_published 3) = post_revision (post_at demo_one 3) →
     post_at demo_published 3 = post_at demo_one 3).
Proof.
  apply (same_revision_same_row demo_one demo_published 3 (post_at demo_one 3)
    (post_at demo_published 3)).
  - apply demo_history_posts.
  - apply db_wfb_sound. by_vm.
  - by_vm.
  - by_vm.
Defined.

(** Between the claim and the completion post 6 is cancelled. *)
Definition demo_between : Db :=
  (run_txn (cancel_post 6 0) (demo_clock (9 * hour)) demo_sending).2.
Definition demo_between_published : Db :=
  (run_txn (complete_publish 3 demo_send 555) (demo_clock (9 * hour + 1)) demo_between).2.

Lemma completion_is_fenced_witness :
  (db_posts demo_between !! 3%N = Some (pc_post demo_claim) ∧ pl_token demo_send = 90%N
     ∧ demo_between_published = set_post (post_at demo_between_published 3) demo_between
     ∧ post_state (post_at demo_between_published 3) = PostState.Published
     ∧ post_telegram_message_id (post_at demo_between_published 3) = Some 555)
  ∨ (demo_between_published = demo_between
     ∧ db_posts demo_between !! 3%N = Some (post_at demo_between_published 3)
     ∧ post_state (post_at demo_between_published 3) = PostState.Published
     ∧ post_telegram_message_id (post_at demo_between_published 3) = Some 555).
Proof.
  apply (completion_is_fenced 90 3 0 demo_attempt (demo_clock (9 * hour)) demo_taken demo_claim
    demo_sending demo_between (demo_clock (9 * hour + 1)) demo_send 555
    {| pc_post := post_at demo_between_published 3; pc_chat_id := -100123 |}
    demo_between_published).
  - apply db_wfb_sound. by_vm.
  - apply demo_claims.
  - apply rtc_once.
    apply SRequest, (SCancel _ _ (demo_clock (9 * hour)) 6 0 (post_at demo_between 6)). by_vm.
  - by_vm.
  - by_vm.
Defined.

Lemma cadence_slots_exclusive_witness : slots_exclusive demo_published.
Proof.
  apply (cadence_slots_exclusive demo_one demo_published).
  - apply demo_history_posts.
  - apply db_wfb_sound. by_vm.
  - intros i j ri rj s Hi Hj Hne. exfalso. apply Hne.
    assert (∀ k x, db_posts demo_one !! k = Some x → k = 3%N) as Honly.
    { intros k x Hx. apply elem_of_map_to_list in Hx.
      assert (map_to_list (db_posts demo_one) = [(3%N, post_at demo_one 3)]) as Hl by by_vm.
      rewrite Hl in Hx. apply list_elem_of_singleton in Hx. congruence. }
    by rewrite (Honly i ri), (Honly j rj).
Defined.
