(* ===== verification/PublishWorkerSpec.v ===== *)
(** * PublishWorkerSpec: a post has at most one message

    [follows] says when a program may be called a sender: what it may ask in which phase
    of a send.  The handler follows it; and in a system of programs that follow it, the
    log of deliveries, the tables and the phases stay in step.  The theorem is over all
    reachable systems. *)

From stdpp Require Import functions.
From S2P Require Import Prelude Enums Jobs Db Queue Instances Proc Publisher PublisherRepo PublisherOps.
From S2P Require Import Library LibraryRepo LibraryStorage PublisherSend Telegram PublisherInv.
From S2P Require Import PublisherSpec PublishWorker PublisherDemo PublisherHistory.

(** ** The protocol *)

(** How far a program has got with its post: nothing is claimed (or nothing more will
    be sent); the claim is held and nothing was delivered; Telegram confirmed message
    [m]; a message may or may not exist. *)
Inductive phase {J : Json} :=
| Idle
| Holding (c : PublishClaim)
| Confirmed (c : PublishClaim) (q : TelegramPublicationRequest) (m : Z)
| Doubtful (c : PublishClaim).

Section Protocol.
Context {J : Json} {Pa : TelegramPublicationApi} (delivered : PubError → bool) (p : Uuid).
Abbreviation reply := (result HandlerFailure unit).

(** The request carries the content of the claimed post to the claimed channel. *)
Definition request_of (c : PublishClaim) (q : TelegramPublicationRequest) : Prop :=
  rq_target_chat_id q = pc_chat_id c ∧ rq_caption q = post_caption (pc_post c)
  ∧ rq_parse_mode q = post_parse_mode (pc_post c)
  ∧ rq_disable_notification q = post_disable_notification (pc_post c).

Definition under (c : PublishClaim) (l : PublishLease) : Prop :=
  pl_generation l = post_send_generation (pc_post c).

Definition send_rule (φ : phase) (q : TelegramPublicationRequest)
    (go : phase → result PubError Z → Prop) : Prop :=
  ∃ c, φ = Holding c ∧ request_of c q ∧ (∀ m, go (Confirmed c q m) (Ok m))
    ∧ (∀ e, go (if delivered e then Doubtful c else Holding c) (Err e)).

Fixpoint follows (φ : phase) (t : proc reply) : Prop :=
  match t with
  | Done _ => True
  | Ask c k =>
      match c return (phase → answer c → Prop) → Prop with
      | CClaim post _ _ => λ go,
          φ = Idle ∧ post = p
          ∧ (∀ c, post_id (pc_post c) = p → go (Holding c) (Ok c)) ∧ (∀ e, go Idle (Err e))
      | CReconcile _ _ | CMaterialize _ => λ go, φ = Idle ∧ ∀ x, go Idle x
      | CReceipt _ => λ go, ∀ x, go φ x
      | CCopy q | CSend q => λ go, send_rule φ q go
      | CComplete post l m => λ go, post = p ∧ ∃ c q,
          φ = Confirmed c q m ∧ under c l ∧ (∀ x, go Idle (Ok x)) ∧ (∀ e, go (Doubtful c) (Err e))
      | CFail post l state _ _ => λ go, post = p ∧ ∃ c,
          (φ = Holding c ∨ φ = Doubtful c ∧ state = PostState.Unknown) ∧ under c l
          ∧ ∀ x, go Idle x
      | CRetry post l _ _ => λ go, post = p ∧ ∃ c, φ = Holding c ∧ under c l ∧ ∀ x, go Idle x
      end (λ φ x, follows φ (k x))
  end.
End Protocol.

(** ** The handler follows the protocol *)

Section Follows.
Context {J : Json} {Pa : TelegramPublicationApi} {delivered : PubError → bool}.
Context {Laws : PublicationLaws Pa delivered}.
Context {Dp : Display PublisherRepositoryError} {Dl : Display LibraryRepositoryError}.
Context {De : Display PubError}.
Abbreviation follows := (follows delivered).

Lemma record_failure_follows p φ c l state cls msg :
  post_id (pc_post c) = p → φ = Holding c ∨ φ = Doubtful c ∧ state = PostState.Unknown →
  under c l → follows p φ (record_publication_failure c l state cls msg).
Proof.
  intros Hp Hφ Hl. simpl. split; [done|]. exists c. split_and!; [done..|].
  by intros [?|[]].
Qed.

Lemma requeue_follows p c l cls msg :
  post_id (pc_post c) = p → under c l →
  follows p (Holding c) (settle_pre_send_retryable_error c l cls msg).
Proof.
  intros Hp Hl. simpl. split; [done|]. exists c. split_and!; [done..|].
  intros [[? []]|[]]; done.
Qed.

Lemma transport_error_follows p c l e :
  post_id (pc_post c) = p → under c l →
  follows p (if delivered e then Doubtful c else Holding c)
    (settle_publication_transport_error c l e).
Proof.
  intros Hp Hl. unfold settle_publication_transport_error.
  destruct (delivered e) eqn:Hd.
  - rewrite (delivered_not_retry e Hd), (delivered_not_caption e Hd), (delivered_ambiguous e Hd).
    apply record_failure_follows; auto.
  - destruct (is_retryable_no_effect e); [by apply requeue_follows|].
    destruct (is_known_caption_error e), (is_ambiguous_error e);
      apply record_failure_follows; auto.
Qed.

Lemma fence_follows p c l text :
  under c l → follows p (Doubtful c) (fence_unknown p l text).
Proof.
  intros Hl. simpl. split; [done|]. exists c. split_and!; [by right|done|]. by intros [?|[]].
Qed.

Lemma confirm_follows p c q l m :
  under c l → follows p (Confirmed c q m) (confirm_publication p l m).
Proof.
  intros Hl. split; [done|]. exists c, q. split_and!; [done..|].
  intros []; first [exact I|by apply fence_follows].
Qed.

Lemma publish_claimed_follows p c l :
  post_id (pc_post c) = p → under c l → follows p (Holding c) (publish_claimed p c l).
Proof.
  intros Hp Hl. intros [[receipt|]|e].
  - exists c. split_and!; [done..|by intros m; apply confirm_follows|]. intros e.
    destruct (is_copy_unavailable e) eqn:Hcopy; [|by apply transport_error_follows].
    destruct (delivered e) eqn:Hd; [by rewrite (delivered_not_copy e Hd) in Hcopy|].
    case_match; [by apply record_failure_follows; auto|].
    exists c. split_and!; [done..| |].
    + intros m. by apply confirm_follows.
    + intros e'. by apply transport_error_follows.
  - by apply record_failure_follows; auto.
  - destruct e; [by apply requeue_follows|apply record_failure_follows; by auto..].
Qed.

Lemma publish_post_follows job payload :
  jb_command job = PublishPost payload → follows (publish_post_id payload) Idle (publish_post job).
Proof.
  unfold publish_post. intros ->. destruct (lease job) as [attempt|]; [|done].
  simpl. split_and!; [done..| |].
  - intros c Hc. destruct (post_send_token (pc_post c)) as [token|]; [|done].
    by apply publish_claimed_follows.
  - intros []; simpl; try done. destruct state; simpl; try done. split; [done|].
    by intros [?|[]].
Qed.
End Follows.

Section Invariant.
Context {J : Json} {P : PayloadSerde} {T : TimeZones} {D : Digests} {Pa : TelegramPublicationApi}.
Context {Dp : Display PublisherRepositoryError} {Dl : Display LibraryRepositoryError}.
Context {De : Display PubError}.
Context (delivered : PubError → bool) (db0 : Db).
Abbreviation reply := (result HandlerFailure unit).
Implicit Types (db : Db) (r : PostRow) (ts : gmap nat (thread Uuid reply)) (log : list delivery).

(** The delivered request is the post's own content. *)
Definition content_of r (q : TelegramPublicationRequest) : Prop :=
  rq_caption q = post_caption r ∧ rq_parse_mode q = post_parse_mode r
  ∧ rq_disable_notification q = post_disable_notification r.

(** What a post may have been sent, by its state. *)
Definition post_inv (row : option PostRow) (before : option PostRow) (ds : list delivery)
    : Prop :=
  (length ds ≤ 1)%nat ∧
  match row with
  | None => ds = []
  | Some r =>
      match post_state r with
      | PostState.Published =>
          before = Some r ∧ ds = []
          ∨ ∃ d, ds = [d] ∧ post_telegram_message_id r = Some (dl_message d)
              ∧ content_of r (dl_request d)
      | PostState.Sending | PostState.Unknown => True
      | _ => ds = []
      end
  end.

(** The claimed row is still there, or the send was given up as unknown. *)
Definition claimed (c : PublishClaim) (row : option PostRow) : Prop :=
  post_state (pc_post c) = PostState.Sending ∧
  ∃ r, row = Some r ∧ (r = pc_post c ∨ post_state r = PostState.Unknown).

Definition phase_inv (p : Uuid) (φ : phase) (row : option PostRow) (ds : list delivery) : Prop :=
  match φ with
  | Idle => True
  | Holding c => ds = [] ∧ claimed c row
  | Confirmed c q m =>
      ds = [{| dl_post := p; dl_request := q; dl_message := m |}] ∧ request_of c q ∧ claimed c row
  | Doubtful c =>
      claimed c row ∨ ∃ r, row = Some r ∧ post_state r = PostState.Published
  end.

(** [Φ] is the phase of every thread. *)
Record sys_inv (db : Db) ts log (Φ : nat → phase) : Prop := {
  sv_wf : db_wf db;
  sv_thread n t : ts !! n = Some t →
    follows delivered (th_work t) (Φ n) (th_proc t)
    ∧ phase_inv (th_work t) (Φ n) (db_posts db !! th_work t) (deliveries (th_work t) log);
  sv_unique n n' t t' : ts !! n = Some t → ts !! n' = Some t' → th_work t = th_work t' →
    Φ n ≠ Idle → Φ n' ≠ Idle → n = n';
  sv_post p : post_inv (db_posts db !! p) (db_posts db0 !! p) (deliveries p log);
}.

(** ** Steps that change one post on behalf of one thread *)

(** No other thread is sending post [p]. *)
Definition only_sender ts (Φ : nat → phase) (p : Uuid) (n : nat) : Prop := ∀ n' t,
  ts !! n' = Some t → th_work t = p → Φ n' ≠ Idle → n' = n.

Lemma sender_is_only db ts log Φ n p t :
  sys_inv db ts log Φ → ts !! n = Some (Build_thread p t) → Φ n ≠ Idle → only_sender ts Φ p n.
Proof. intros Hv Hn Hi n' t' Hn' Hp Hi'. eapply sv_unique; eauto. Qed.

Lemma thread_step db db' ts log log' Φ n p t t' φ :
  sys_inv db ts log Φ → ts !! n = Some (Build_thread p t) → db_wf db' →
  (∀ p', p' ≠ p → db_posts db' !! p' = db_posts db !! p' ∧ deliveries p' log' = deliveries p' log) →
  (only_sender ts Φ p n
   ∨ φ = Idle ∧ db_posts db' !! p = db_posts db !! p ∧ deliveries p log' = deliveries p log) →
  follows delivered p φ t' →
  phase_inv p φ (db_posts db' !! p) (deliveries p log') →
  post_inv (db_posts db' !! p) (db_posts db0 !! p) (deliveries p log') →
  sys_inv db' (<[n := Build_thread p t']> ts) log' (<[n := φ]> Φ).
Proof.
  intros Hv Hn Hwf Hoth Hone Hf Hph Hpost. constructor; [done|..].
  - intros n' x Hx. destruct (decide (n' = n)) as [->|Hne].
    + rewrite lookup_insert_eq in Hx. simplify_eq/=. by rewrite fn_lookup_insert.
    + rewrite lookup_insert_ne in Hx by done. rewrite fn_lookup_insert_ne by done.
      destruct (sv_thread _ _ _ _ Hv _ _ Hx) as [Hfx Hpx]. split; [done|].
      destruct (decide (th_work x = p)) as [Hw|Hw].
      * destruct Hone as [Hone|(_ & Hrow & Hds)]; [|rewrite Hw in *; by rewrite Hrow, Hds].
        destruct (Φ n') eqn:Hi; [done|exfalso; apply Hne, (Hone _ _ Hx Hw); by rewrite Hi..].
      * destruct (Hoth _ Hw) as [-> ->]. done.
  - intros n1 n2 x1 x2 H1 H2 Hw Hi1 Hi2.
    assert (∀ m x, <[n := Build_thread p t']> ts !! m = Some x → m ≠ n → (<[n := φ]> Φ) m ≠ Idle →
      ts !! m = Some x ∧ Φ m ≠ Idle) as Hold.
    { intros m x Hm Hne. by rewrite lookup_insert_ne in Hm; [rewrite fn_lookup_insert_ne|]. }
    destruct (decide (n1 = n)) as [->|Hne1], (decide (n2 = n)) as [->|Hne2]; try done.
    + destruct (Hold _ _ H2 Hne2 Hi2) as [H2' Hi2']. rewrite lookup_insert_eq in H1.
      rewrite fn_lookup_insert in Hi1. simplify_eq/=.
      destruct Hone as [Hone|[? _]]; [|done]. symmetry. by eapply Hone.
    + destruct (Hold _ _ H1 Hne1 Hi1) as [H1' Hi1']. rewrite lookup_insert_eq in H2.
      rewrite fn_lookup_insert in Hi2. simplify_eq/=.
      destruct Hone as [Hone|[? _]]; [|done]. by eapply Hone.
    + destruct (Hold _ _ H1 Hne1 Hi1), (Hold _ _ H2 Hne2 Hi2).
      by eapply (sv_unique _ _ _ _ Hv).
  - intros p'. destruct (decide (p' = p)) as [->|Hne]; [done|].
    destruct (Hoth _ Hne) as [-> ->]. apply (sv_post _ _ _ _ Hv).
Qed.
(** ** Steps of everybody else *)

(** One row under a transaction of anybody but its sender. *)
Inductive row_moves : option PostRow → option PostRow → Prop :=
| row_same row : row_moves row row
| row_changed occ r r' : post_change Requester occ r r' → row_moves (Some r) (Some r')
| row_new occ r : new_post occ r → row_moves None (Some r).

Lemma requester_row db db' p :
  effect Requester db db' → db_wf db → row_moves (db_posts db !! p) (db_posts db' !! p).
Proof.
  intros [He _] Hwf. destruct He as [->|r r' Hr -> Hc|r Hr -> Hn _]; [constructor|..];
    (destruct (decide (post_id r = p)) as [<-|Hne];
      [rewrite lookup_insert_eq, Hr; by econstructor|rewrite lookup_insert_ne by done; constructor]).
Qed.

Lemma claimed_moves c row row' : row_moves row row' → claimed c row → claimed c row'.
Proof.
  intros [x|occ r r' Hc|occ r Hn] [Hs (y & Hy & Hcase)]; simplify_eq/=; split; try done; [by eauto|].
  destruct Hcase as [->|Hu].
  - exists r'. split; [done|]. right. destruct Hc as [_ _ _ _ Hm].
    destruct Hm as [Hq|Hq|Hq|Hq|Hq|Hq|Hq]; try done; by rewrite Hs in Hq.
  - by destruct (final_no_change Requester occ y r'); [rewrite Hu|].
Qed.

Lemma phase_moves p φ row row' ds : row_moves row row' → phase_inv p φ row ds → phase_inv p φ row' ds.
Proof.
  intros Hr. destruct φ as [|c|c q m|c]; simpl; try done.
  - intros [? ?]. eauto using claimed_moves.
  - intros (? & ? & ?). eauto using claimed_moves.
  - intros [?|(r & -> & Hs)]; [eauto using claimed_moves|right].
    inversion Hr as [x|occ y r' Hc|]; simplify_eq; [by eauto|].
    by destruct (final_no_change Requester occ r r'); [rewrite Hs|].
Qed.

Lemma post_moves row row' before ds :
  row_moves row row' → post_inv row before ds → post_inv row' before ds.
Proof.
  intros [x|occ r r' Hc|occ r Hn] [Hlen Hcase]; [done|..]; split; try done.
  - destruct Hc as [_ _ _ _ Hm].
    destruct Hm as [Hq He|Hq He|Hq He|Hq He|Hq He|Hq He|Hq He]; try done; rewrite ?He; try done;
      rewrite ?Hq in Hcase; try done; by destruct (post_state r).
  - destruct (np_state _ _ Hn) as [->| ->]; done.
Qed.

Lemma requester_step db db' ts log Φ :
  effect Requester db db' → sys_inv db ts log Φ → sys_inv db' ts log Φ.
Proof.
  intros He Hv. pose proof (sv_wf _ _ _ _ Hv) as Hwf. constructor.
  - apply He.
  - intros n t Hn. destruct (sv_thread _ _ _ _ Hv _ _ Hn) as [? ?].
    split; [done|]. eapply phase_moves; [by apply requester_row|done].
  - apply (sv_unique _ _ _ _ Hv).
  - intros p. eapply post_moves; [by apply requester_row|apply (sv_post _ _ _ _ Hv)].
Qed.

(** ** The sender's transactions, row by row *)

Lemma set_post_other p r db p' : post_id r = p → p' ≠ p → db_posts (set_post r db) !! p' = db_posts db !! p'.
Proof. intros <- Hne. simpl. by rewrite lookup_insert_ne. Qed.
End Invariant.

Section SenderRows.
Context {J : Json} {P : PayloadSerde} {T : TimeZones} {D : Digests}.
Implicit Types (db : Db) (r : PostRow) (ck : Clock).

(** The table of posts changes in one row, which the send of [l] held. *)
Definition held_row (id : Uuid) (l : PublishLease) db db' r r' : Prop :=
  db_posts db !! id = Some r ∧ holds_send l r = true
  ∧ db_posts db' = <[id := r']> (db_posts db).

Lemma complete_publish_row id l m ck db res db' :
  complete_publish id l m ck db = Ok (res, db') → db_wf db →
  db' = db ∧ (∃ r, db_posts db !! id = Some r ∧ post_state r = PostState.Published)
  ∨ ∃ r r', held_row id l db db' r r' ∧ post_state r' = PostState.Published
      ∧ post_telegram_message_id r' = Some m ∧ post_caption r' = post_caption r
      ∧ post_parse_mode r' = post_parse_mode r
      ∧ post_disable_notification r' = post_disable_notification r.
Proof.
  unfold complete_publish. intros H Hwf. pub_inv; [by left; eauto|].
  pose proof (lookup_post_id _ _ _ Hwf ltac:(eassumption)) as <-.
  right. eexists _, _. split; [split_and!; done|]. done.
Qed.

Lemma fail_publish_row id l st c m ck db res db' :
  fail_publish id l st c m ck db = Ok (res, db') → db_wf db →
  ∃ r r', held_row id l db db' r r' ∧ post_state r' = st
    ∧ (st = PostState.Failed ∨ st = PostState.Unknown).
Proof.
  unfold fail_publish. intros H Hwf. pub_inv.
  match goal with H : update_post_where _ _ _ _ _ _ = Ok _ |- _ =>
    apply update_post_where_ok in H as [(? & ? & _)|(? & ? & ? & ? & ? & ? & ?)] end.
  all: simplify_eq/=. pub_inv.
  pose proof (lookup_post_id _ _ _ Hwf ltac:(eassumption)) as <-.
  match goal with H : _ || _ = true |- _ =>
    rewrite orb_true_iff, !bool_decide_eq_true in H end.
  eexists _, _. split; [split_and!; done|]. done.
Qed.

Lemma update_running_payload_posts post job rev ck db u db' :
  update_running_payload post job rev ck db = Ok (u, db') → db_posts db' = db_posts db.
Proof.
  unfold update_running_payload. intros H. db_inv.
  destruct (db_jobs db !! job) as [j|] eqn:Hj; by db_inv.
Qed.

Lemma retry_publish_row id l c m ck db res db' :
  retry_publish id l c m ck db = Ok (res, db') → db_wf db →
  ∃ r r', held_row id l db db' r r'
    ∧ (post_state r' = PostState.Failed ∨ post_state r' = PostState.Queued).
Proof.
  unfold retry_publish. intros H Hwf. pub_inv;
  pose proof (lookup_post_id _ _ _ Hwf ltac:(eassumption)) as <-.
  - eexists _, _. split; [split_and!; done|]. simpl. by left.
  - match goal with H : update_running_payload _ _ _ _ _ = _ |- _ =>
      apply update_running_payload_posts in H; simpl in H end.
    eexists _, _. split; [split_and!; done|]. simpl. by right.
Qed.
End SenderRows.

(** ** Preservation *)

Section Preservation.
Context {J : Json} {P : PayloadSerde} {T : TimeZones} {D : Digests} {Pa : TelegramPublicationApi}.
Context {Dp : Display PublisherRepositoryError} {Dl : Display LibraryRepositoryError}.
Context {De : Display PubError}.
Context {delivered : PubError → bool} {Laws : PublicationLaws Pa delivered} (db0 : Db).
Abbreviation reply := (result HandlerFailure unit).
Abbreviation follows := (follows delivered).
Abbreviation sys_inv := (sys_inv delivered db0).
Implicit Types (db : Db) (r : PostRow) (ts : gmap nat (thread Uuid reply)) (log : list delivery).

(** The thread goes on and neither its post nor the log changed. *)
Lemma quiet_step db ts log Φ n p t t' φ :
  sys_inv db ts log Φ → ts !! n = Some (Build_thread p t) → follows p φ t' →
  φ = Idle ∨ Φ n ≠ Idle ∧ phase_inv p φ (db_posts db !! p) (deliveries p log) →
  sys_inv db (<[n := Build_thread p t']> ts) log (<[n := φ]> Φ).
Proof.
  intros Hv Hn Hf Hφ. eapply thread_step; eauto using sv_wf, sv_post.
  - destruct Hφ as [->|[? _]]; [by right|left; by eapply sender_is_only].
  - by destruct Hφ as [->|[_ ?]].
Qed.

(** A transaction of the sender moved the row it holds. *)
Lemma held_step db db' ts log Φ n p t t' φ r' :
  sys_inv db ts log Φ → ts !! n = Some (Build_thread p t) → Φ n ≠ Idle → db_wf db' →
  db_posts db' = <[p := r']> (db_posts db) → follows p φ t' →
  phase_inv p φ (Some r') (deliveries p log) →
  post_inv (Some r') (db_posts db0 !! p) (deliveries p log) →
  sys_inv db' (<[n := Build_thread p t']> ts) log (<[n := φ]> Φ).
Proof.
  intros Hv Hn Hi Hwf Hp Hf Hph Hpost.
  eapply thread_step; eauto; rewrite ?Hp, ?lookup_insert_eq; try done.
  - intros p' Hne. by rewrite lookup_insert_ne.
  - left. by eapply sender_is_only.
Qed.

(** The send a row is held under is the claim of the phase. *)
Lemma held_is_claim db c p l r :
  claimed c (db_posts db !! p) → db_posts db !! p = Some r → holds_send l r = true → r = pc_post c.
Proof.
  intros (_ & x & Hx & Hcase) Hr Hh. apply holds_send_ok in Hh as (Hs & _). simplify_eq.
  destruct Hcase as [->|Hu]; [done|congruence].
Qed.

Lemma deliveries_app p log ds : deliveries p (log ++ ds) = deliveries p log ++ deliveries p ds.
Proof.
  unfold deliveries. induction log as [|d log IH]; [done|]. simpl.
  rewrite !filter_cons. case_decide; simpl; by rewrite IH.
Qed.
Lemma deliveries_own p ds : Forall (λ d, dl_post d = p) ds → deliveries p ds = ds.
Proof.
  unfold deliveries. induction 1 as [|d ds Hd _ IH]; [done|].
  by rewrite filter_cons_True, IH.
Qed.
Lemma deliveries_foreign p p' ds : Forall (λ d, dl_post d = p) ds → p' ≠ p → deliveries p' ds = [].
Proof.
  unfold deliveries. intros Hds Hne. induction Hds as [|d ds Hd _ IH]; [done|].
  by rewrite filter_cons_False; [|congruence].
Qed.

(** Telegram answered. *)
Lemma send_step db ts log Φ n p q k x ds c :
  sys_inv db ts log Φ → ts !! n = Some (Build_thread p c) →
  send_rule delivered (Φ n) q (λ φ x, follows p φ (k x)) → deliveries_of delivered p q x ds →
  ∃ φ, sys_inv db (<[n := Build_thread p (k x)]> ts) (log ++ ds) (<[n := φ]> Φ).
Proof.
  intros Hv Hn (cl & Hφ & Hq & Hok & Herr) Hds.
  destruct (sv_thread _ _ _ _ _ _ Hv _ _ Hn) as [_ Hph]. simpl in Hph.
  rewrite Hφ in Hph. destruct Hph as [Hnil Hcl].
  assert (∀ φ ds', follows p φ (k x) → Forall (λ d, dl_post d = p) ds' →
    phase_inv p φ (db_posts db !! p) ds' → (length ds' ≤ 1)%nat →
    sys_inv db (<[n := Build_thread p (k x)]> ts) (log ++ ds') (<[n := φ]> Φ)) as Hstep.
  { intros φ ds' Hf Hall Hphase Hlen.
    assert (deliveries p (log ++ ds') = ds') as Hdel.
    { rewrite deliveries_app, Hnil. by apply deliveries_own. }
    eapply (thread_step _ _ db db ts log); rewrite ?Hdel; [done|done|by eapply sv_wf| | |done|done|].
    - intros p' Hne. split; [done|]. rewrite deliveries_app.
      by rewrite (deliveries_foreign p p' ds'), app_nil_r.
    - left. eapply sender_is_only; [done..|by rewrite Hφ].
    - split; [done|]. destruct Hcl as (Hs & r & -> & [->|Hu]); [by rewrite Hs|by rewrite Hu]. }
  destruct Hds as [m|e|e m He].
  - exists (Confirmed cl q m). apply Hstep; [done|by constructor|done|done].
  - exists (if delivered e then Doubtful cl else Holding cl).
    apply Hstep; [done|by constructor| |simpl; lia].
    destruct (delivered e); simpl; auto.
  - exists (Doubtful cl). specialize (Herr e). rewrite He in Herr.
    apply Hstep; [done|by constructor|by left|done].
Qed.
(** *** Committed transactions of the sender *)

Lemma claim_moves db ts log Φ n p t t' φ tok e l ck c db' :
  sys_inv db ts log Φ → ts !! n = Some (Build_thread p t) → Φ n = Idle →
  claim_publish tok p e l ck db = Ok (c, db') → φ = Idle ∨ φ = Holding c → follows p φ t' →
  sys_inv db' (<[n := Build_thread p t']> ts) log (<[n := φ]> Φ).
Proof.
  intros Hv Hn Hi Hc Hφ Hf. pose proof (sv_wf _ _ _ _ _ _ Hv) as Hwf.
  destruct (claim_publish_effect _ _ _ _ _ _ _ _ Hc Hwf)
    as ([_ Hwf'] & r & Hr & Hq & _ & -> & Hsend & _).
  unfold sending_post in Hsend. case_match; [|done]. injection Hsend as Hsend.
  assert (post_id (pc_post c) = p) as Hid.
  { rewrite <-Hsend. simpl. exact (lookup_post_id _ _ _ Hwf Hr). }
  assert (post_state (pc_post c) = PostState.Sending) as Hs by by rewrite <-Hsend.
  pose proof (sv_post _ _ _ _ _ _ Hv p) as [_ Hnil]. rewrite Hr, Hq in Hnil.
  assert (db_posts (set_post (pc_post c) db) !! p = Some (pc_post c)) as Hnew.
  { simpl. by rewrite Hid, lookup_insert_eq. }
  eapply (thread_step _ _ db _ ts log log); rewrite ?Hnew; [done|done|done| | |done| |].
  - intros p' Hne. by rewrite (set_post_other p).
  - left. intros n' x Hx Hw Hact. exfalso.
    destruct (sv_thread _ _ _ _ _ _ Hv _ _ Hx) as [_ Hph]. rewrite Hw, Hr in Hph.
    assert (∀ c', ¬ claimed c' (Some r)) as Hno.
    { intros c' (Hs' & y & [= <-] & [->|Hu]); congruence. }
    destruct (Φ n'); simpl in Hph; try done;
      [exact (Hno _ (proj2 Hph))|exact (Hno _ (proj2 (proj2 Hph)))|].
    destruct Hph as [Hph|(y & [= <-] & Hu)]; [exact (Hno _ Hph)|congruence].
  - destruct Hφ as [->| ->]; [done|]. simpl. split; [done|]. split; [done|]. eauto.
  - unfold post_inv. rewrite Hs, Hnil. split; [simpl; lia|done].
Qed.

Lemma complete_moves db ts log Φ n p t t' φ l ck c q m res db' :
  sys_inv db ts log Φ → ts !! n = Some (Build_thread p t) → Φ n = Confirmed c q m →
  complete_publish p l m ck db = Ok (res, db') → φ = Idle ∨ φ = Doubtful c → follows p φ t' →
  sys_inv db' (<[n := Build_thread p t']> ts) log (<[n := φ]> Φ).
Proof.
  intros Hv Hn Hi Hc Hφ Hf. pose proof (sv_wf _ _ _ _ _ _ Hv) as Hwf.
  destruct (sv_thread _ _ _ _ _ _ Hv _ _ Hn) as [_ Hph]. simpl in Hph.
  rewrite Hi in Hph. destruct Hph as (Hds & (_ & Hq) & Hcl).
  destruct (complete_publish_effect _ _ _ _ _ _ _ Hc Hwf) as [_ Hwf'].
  apply complete_publish_row in Hc as [[-> _]|(r & r' & (Hr & Hh & Hp) & Hs & Hm & Hcap & Hmode & Hnot)];
    [| |done].
  - eapply quiet_step; [done..|]. destruct Hφ as [->| ->]; [by left|right].
    split; [by rewrite Hi|by left].
  - rewrite (held_is_claim _ _ _ _ _ Hcl Hr Hh) in *.
    eapply held_step; [done..|by rewrite Hi|done|done|done| |].
    + destruct Hφ as [->| ->]; simpl; eauto.
    + rewrite Hds. unfold post_inv. rewrite Hs. split; [simpl; lia|]. right. eexists. split; [done|].
      split; [done|]. unfold content_of; simpl. by rewrite Hcap, Hmode, Hnot.
Qed.

Lemma fail_moves db ts log Φ n p t t' l st cls msg ck c res db' :
  sys_inv db ts log Φ → ts !! n = Some (Build_thread p t) →
  Φ n = Holding c ∨ Φ n = Doubtful c ∧ st = PostState.Unknown →
  fail_publish p l st cls msg ck db = Ok (res, db') → follows p Idle t' →
  sys_inv db' (<[n := Build_thread p t']> ts) log (<[n := Idle]> Φ).
Proof.
  intros Hv Hn Hi Hc Hf. pose proof (sv_wf _ _ _ _ _ _ Hv) as Hwf.
  destruct (sv_thread _ _ _ _ _ _ Hv _ _ Hn) as [_ Hph]. simpl in Hph.
  destruct (fail_publish_effect _ _ _ _ _ _ _ _ _ Hc Hwf) as [_ Hwf'].
  apply fail_publish_row in Hc as (r & r' & (Hr & Hh & Hp) & Hs & Hst); [|done].
  eapply held_step; [done..| |done|done|done|done|].
  - by destruct Hi as [->|[-> _]].
  - pose proof (sv_post _ _ _ _ _ _ Hv p) as [Hlen _]. split; [done|]. rewrite Hs.
    destruct Hi as [Hi|[_ ->]]; [|done]. rewrite Hi in Hph. destruct Hph as [Hnil _].
    by destruct Hst as [->| ->].
Qed.

Lemma retry_moves db ts log Φ n p t t' l cls msg ck c res db' :
  sys_inv db ts log Φ → ts !! n = Some (Build_thread p t) → Φ n = Holding c →
  retry_publish p l cls msg ck db = Ok (res, db') → follows p Idle t' →
  sys_inv db' (<[n := Build_thread p t']> ts) log (<[n := Idle]> Φ).
Proof.
  intros Hv Hn Hi Hc Hf. pose proof (sv_wf _ _ _ _ _ _ Hv) as Hwf.
  destruct (sv_thread _ _ _ _ _ _ Hv _ _ Hn) as [_ Hph]. simpl in Hph.
  destruct (retry_publish_effect _ _ _ _ _ _ _ _ Hc Hwf) as [_ Hwf'].
  apply retry_publish_row in Hc as (r & r' & (Hr & Hh & Hp) & Hst); [|done].
  rewrite Hi in Hph. destruct Hph as [Hnil _].
  eapply held_step; [done..|by rewrite Hi|done|done|done|done|].
  rewrite Hnil. unfold post_inv. destruct Hst as [->| ->]; (split; [simpl; lia|done]).
Qed.
(** *** Threads come and go *)

Lemma start_inv db ts log Φ n job payload :
  sys_inv db ts log Φ → ts !! n = None → jb_command job = PublishPost payload →
  sys_inv db (<[n := Build_thread (publish_post_id payload) (publish_post job)]> ts) log
    (<[n := Idle]> Φ).
Proof.
  intros Hv Hn Hj.
  assert (∀ m x, <[n := Build_thread (publish_post_id payload) (publish_post job)]> ts !! m = Some x →
    (<[n := Idle]> Φ) m ≠ Idle → ts !! m = Some x ∧ Φ m ≠ Idle) as Hold.
  { intros m x Hm Hi. destruct (decide (m = n)) as [->|Hne]; [by rewrite fn_lookup_insert in Hi|].
    by rewrite lookup_insert_ne in Hm; [rewrite fn_lookup_insert_ne in Hi|]. }
  constructor.
  - by eapply sv_wf.
  - intros m x Hx. destruct (decide (m = n)) as [->|Hne].
    + rewrite lookup_insert_eq in Hx. simplify_eq/=. rewrite fn_lookup_insert.
      split; [by apply publish_post_follows|done].
    + rewrite lookup_insert_ne in Hx by done. rewrite fn_lookup_insert_ne by done.
      by eapply sv_thread.
  - intros n1 n2 x1 x2 H1 H2 Hw Hi1 Hi2.
    destruct (Hold _ _ H1 Hi1), (Hold _ _ H2 Hi2). by eapply (sv_unique _ _ _ _ _ _ Hv).
  - by eapply sv_post.
Qed.

Lemma crash_inv db ts log Φ n : sys_inv db ts log Φ → sys_inv db (delete n ts) log Φ.
Proof.
  intros Hv. constructor; try by eapply Hv.
  - intros m x [_ Hx]%lookup_delete_Some. by eapply sv_thread.
  - intros n1 n2 x1 x2 [_ H1]%lookup_delete_Some [_ H2]%lookup_delete_Some.
    by eapply (sv_unique _ _ _ _ _ _ Hv).
Qed.

(** *** Calls *)

(** What a handler sees of a call that the database answers by [x], committing [db']:
    the answer; or a connection error, with or without the commit. *)
Definition seen (c : call) (x : answer c) (db db' : Db) (y : answer c) (d : Db) : Prop :=
  y = x ∧ d = db' ∨ (∃ s, outage s c = Some y) ∧ (d = db ∨ d = db').

(** The three outcomes: the answer of a commit, a commit answered by an error, nothing. *)
Ltac call_cases Hx Hy :=
  simpl in Hx; injection Hx as Hx;
  apply run_txn_inv in Hx as [(a & -> & Hx)|(err & -> & ->)];
  destruct Hy as [[-> ->]|[[s Hs] [-> | ->]]]; simpl in *; simplify_eq.

Lemma call_step db ts log Φ n p c k su x db' y d :
  sys_inv db ts log Φ → ts !! n = Some (Build_thread p (Ask c k)) →
  exec_call su c db = Some (x, db') → seen c x db db' y d →
  ∃ φ, sys_inv d (<[n := Build_thread p (k y)]> ts) log (<[n := φ]> Φ).
Proof.
  intros Hv Hn Hx Hy. destruct (sv_thread _ _ _ _ _ _ Hv _ _ Hn) as [Hf Hph].
  pose proof (sv_wf _ _ _ _ _ _ Hv) as Hwf. simpl in Hph.
  assert (∀ t', follows p Idle t' → ∃ φ,
    sys_inv db (<[n := Build_thread p t']> ts) log (<[n := φ]> Φ)) as Hquiet.
  { intros t' Ht. exists Idle. eapply quiet_step; eauto. }
  assert (∀ d t', effect Requester db d → follows p Idle t' → ∃ φ,
    sys_inv d (<[n := Build_thread p t']> ts) log (<[n := φ]> Φ)) as Hreq.
  { intros d' t' He Ht. exists Idle. eapply quiet_step; eauto using requester_step. }
  destruct c; try done; simpl in Hf.
  - destruct Hf as (Hi & -> & Hok & Herr). call_cases Hx Hy; eauto.
    + exists (Holding a). eapply claim_moves; eauto. apply Hok.
      destruct (claim_publish_effect _ _ _ _ _ _ _ _ Hx Hwf) as (_ & r & Hr & _ & _ & _ & Hsend & _).
      unfold sending_post in Hsend. case_match; [|done]. injection Hsend as <-.
      exact (lookup_post_id _ _ _ Hwf Hr).
    + exists Idle. eapply claim_moves; eauto.
  - destruct Hf as [Hi Hf]. call_cases Hx Hy; eauto using reconcile_interrupted_publish_effect.
  - assert (d = db) as ->.
    { assert (db' = db) as ->; [|by destruct Hy as [[_ ->]|[_ [->| ->]]]].
      injection Hx as Hx. apply run_txn_inv in Hx as [(a & _ & Ha)|(err & _ & ->)]; [|done].
      unfold find_storage_receipt in Ha. db_inv. by repeat case_match; db_inv. }
    exists (Φ n). eapply quiet_step; eauto. destruct (Φ n); auto.
  - destruct Hf as (-> & c & q & Hi & Hl & Hok & Herr). call_cases Hx Hy.
    + exists Idle. eapply complete_moves; eauto.
    + exists (Doubtful c). eapply quiet_step; eauto. right. rewrite Hi in *.
      split; [done|]. left. apply Hph.
    + exists (Doubtful c). eapply complete_moves; eauto.
    + exists (Doubtful c). eapply quiet_step; eauto. right. rewrite Hi in *.
      split; [done|]. left. apply Hph.
    + exists (Doubtful c). eapply quiet_step; eauto. right. rewrite Hi in *.
      split; [done|]. left. apply Hph.
    + exists (Doubtful c). eapply quiet_step; eauto. right. rewrite Hi in *.
      split; [done|]. left. apply Hph.
  - destruct Hf as (-> & c & Hi & Hl & Hf). call_cases Hx Hy; eauto using fail_moves.
  - destruct Hf as (-> & c & Hi & Hl & Hf). call_cases Hx Hy; eauto using retry_moves.
  - destruct Hf as [Hi Hf]. call_cases Hx Hy; eauto using materialize_ingest_effect.
Qed.

Lemma sys_step_inv s s' Φ :
  sys_step delivered s s' → sys_inv (sy_db s) (sy_threads s) (sy_log s) Φ →
  ∃ Φ', sys_inv (sy_db s') (sy_threads s') (sy_log s') Φ'.
Proof.
  intros Hstep Hv. destruct Hstep as [db db' ts log Hr|db ts log n job payload Hn Hj
    |db ts log n p c k su x db' Hn Hx|db ts log n p c k su x db' e y d Hn Hx Hy Hd
    |db ts log n p q k x ds Hn Hds|db ts log n p q k x ds Hn Hds|db ts log n]; simpl in *.
  - exists Φ. eapply requester_step; [|done]. eapply request_step_effect; [done|].
    by eapply sv_wf.
  - exists (<[n := Idle]> Φ). by eapply start_inv.
  - edestruct call_step as [φ ?]; [done..|by left|eauto].
  - edestruct call_step as [φ ?]; [done..|right; by eauto|eauto].
  - edestruct send_step as [φ ?]; [done|done| |done|eauto].
    apply (sv_thread _ _ _ _ _ _ Hv _ _ Hn).
  - edestruct send_step as [φ ?]; [done|done| |done|eauto].
    apply (sv_thread _ _ _ _ _ _ Hv _ _ Hn).
  - exists Φ. by apply crash_inv.
Qed.
End Preservation.

(** ** The theorem *)

Section Theorems.
Context {J : Json} {P : PayloadSerde} {T : TimeZones} {D : Digests} {Pa : TelegramPublicationApi}.
Context {Dp : Display PublisherRepositoryError} {Dl : Display LibraryRepositoryError}.
Context {De : Display PubError}.
Context {delivered : PubError → bool} {Laws : PublicationLaws Pa delivered}.

Lemma sys_steps_inv db0 s s' Φ :
  rtc (sys_step delivered) s s' →
  sys_inv delivered db0 (sy_db s) (sy_threads s) (sy_log s) Φ →
  ∃ Φ', sys_inv delivered db0 (sy_db s') (sy_threads s') (sy_log s') Φ'.
Proof.
  intros Hs. revert Φ. induction Hs as [s|s s1 s' Hstep _ IH]; intros Φ Hv; [by eauto|].
  destruct (sys_step_inv _ _ _ _ Hstep Hv) as [Φ1 Hv1]. by eapply IH.
Qed.

(** At the start nothing was delivered by this system. *)
Lemma sys_init_inv db : db_wf db → sys_inv delivered db db ∅ [] (λ _, Idle).
Proof.
  intros Hwf. constructor; try done. intros p. split; [simpl; lia|].
  destruct (db_posts db !! p) as [r|]; [|done]. destruct (post_state r); auto.
Qed.

(** C1: a post has at most one message.  Start any number of publication handlers for
    any jobs at any times, let them run interleaved with each other and with the
    requests, settlements and recoveries of the publisher, stop any of them anywhere,
    and let any repository call fail with or without its commit: Telegram receives at
    most one message for a post.  A post that is a draft, queued, failed or cancelled
    has none, so sending it again is safe; a published post has exactly one, the one
    whose identifier the row holds, and it carried the row's caption, parse mode and
    notification setting (unless the post was published before the system started). *)
Theorem posts_have_at_most_one_message db0 s p :
  db_wf db0 →
  rtc (sys_step delivered) {| sy_db := db0; sy_threads := ∅; sy_log := [] |} s →
  (length (deliveries p (sy_log s)) ≤ 1)%nat ∧
  ∀ r, db_posts (sy_db s) !! p = Some r →
    (post_state r ∈ [PostState.Draft; PostState.Queued; PostState.Failed; PostState.Cancelled] →
       deliveries p (sy_log s) = []) ∧
    (post_state r = PostState.Published →
       db_posts db0 !! p = Some r ∧ deliveries p (sy_log s) = []
       ∨ ∃ d, deliveries p (sy_log s) = [d]
           ∧ post_telegram_message_id r = Some (dl_message d) ∧ content_of r (dl_request d)).
Proof.
  intros Hwf Hs. destruct (sys_steps_inv db0 _ _ _ Hs (sys_init_inv _ Hwf)) as [Φ Hv].
  destruct (sv_post _ _ _ _ _ _ Hv p) as [Hlen Hcase]. split; [done|].
  intros r Hr. rewrite Hr in Hcase. split; intros Hst; [|by rewrite Hst in Hcase].
  destruct (post_state r); try done; set_unfold in Hst; naive_solver.
Qed.
End Theorems.

(** ** The theorem at a concrete run *)

#[global] Instance demo_display E : Display E := λ _, [].
Definition demo_delivered (e : TelegramApiError) : bool :=
  teloxide_is_ambiguous_error e && negb (teloxide_is_copy_unavailable e).
#[global] Instance demo_laws : PublicationLaws TeloxideApi demo_delivered.
Proof.
  apply teloxide_laws. intros e He. unfold demo_delivered in He.
  by apply andb_true_iff in He as [? ?%negb_true_iff].
Qed.

(** The job of [demo_attempt], as the runner hands it to the handler. *)
Definition demo_job : Job :=
  {| jb_id := 4; jb_command := PublishPost {| publish_post_id := 3; publish_expected_revision := 0 |};
     jb_status := JobStatus.Running; jb_priority := 0; jb_run_at := 0; jb_attempt_count := 1;
     jb_max_attempts := 5; jb_lease_token := Some 70%N; jb_lease_owner := Some (lit "worker-a");
     jb_lease_expires_at := None; jb_last_heartbeat_at := None; jb_last_error_class := None;
     jb_last_error_message := None; jb_dedupe_key := None; jb_created_at := 0; jb_updated_at := 0;
     jb_completed_at := None |}.
Definition demo_receipt : StorageReceipt :=
  {| sr_media_id := 2; sr_chat_id := -100500; sr_message_id := 12; sr_file_id := Some (lit "f");
     sr_file_unique_id := Some (lit "u"); sr_media_kind := MediaKind.Image; sr_stored_at := 0 |}.
Definition demo_supply (t : Z) : supply :=
  {| su_clock := demo_clock t; su_first := 90; su_second := 91 |}.

Lemma demo_receipt_found :
  find_storage_receipt 2 (demo_clock (9 * hour)) demo_sending = Ok (Some demo_receipt, demo_sending).
Proof. by_vm. Qed.
Lemma demo_claim_fields :
  post_send_token (pc_post demo_claim) = Some 90%N ∧ post_send_generation (pc_post demo_claim) = 1
  ∧ post_media_id (pc_post demo_claim) = 2%N.
Proof. split_and!; by_vm. Qed.

Definition demo_request : TelegramPublicationRequest := publication_request demo_claim demo_receipt.
Definition demo_delivery : delivery :=
  {| dl_post := 3; dl_request := demo_request; dl_message := 555 |}.

(** The handler claims, finds the receipt, copies the message and completes. *)
Lemma demo_publish_run : ∃ ts,
  rtc (sys_step demo_delivered) {| sy_db := demo_taken; sy_threads := ∅; sy_log := [] |}
    {| sy_db := demo_published; sy_threads := ts; sy_log := [demo_delivery] |}.
Proof.
  destruct demo_claim_fields as (Htok & Hgen & Hmedia). eexists.
  eapply rtc_l; [apply (sys_start _ _ ∅ _ 0 demo_job _ (lookup_empty _) eq_refl)|].
  eapply rtc_l; [eapply (sys_call _ _ _ _ 0 3 (CClaim 3 0 demo_attempt) _ (demo_supply (9 * hour))
    (Ok demo_claim) demo_sending); [by rewrite lookup_insert_eq|]|].
  { simpl. unfold run_txn. by rewrite demo_claims. }
  cbv beta iota. rewrite Htok, Hgen, insert_insert_eq. fold demo_send.
  eapply rtc_l; [eapply (sys_call _ _ _ _ 0 3 (CReceipt 2) _ (demo_supply (9 * hour))
    (Ok (Some demo_receipt)) demo_sending); [rewrite lookup_insert_eq; unfold publish_claimed;
      by rewrite Hmedia|]|].
  { simpl. unfold run_txn. by rewrite demo_receipt_found. }
  rewrite insert_insert_eq.
  eapply rtc_l; [eapply (sys_copy _ _ _ _ 0 3 demo_request _ (Ok 555) [demo_delivery]);
    [by rewrite lookup_insert_eq|constructor]|].
  rewrite insert_insert_eq.
  eapply rtc_l; [eapply (sys_call _ _ _ _ 0 3 (CComplete 3 demo_send 555) _
    (demo_supply (9 * hour + 1))); [by rewrite lookup_insert_eq|]|].
  { simpl. unfold run_txn. by rewrite demo_completes. }
  apply rtc_refl.
Qed.

Lemma posts_have_at_most_one_message_witness : ∃ s,
  sy_log s = [demo_delivery] ∧ (length (deliveries 3 (sy_log s)) ≤ 1)%nat ∧
  ∀ r, db_posts (sy_db s) !! 3%N = Some r →
    (post_state r ∈ [PostState.Draft; PostState.Queued; PostState.Failed; PostState.Cancelled] →
       deliveries 3 (sy_log s) = []) ∧
    (post_state r = PostState.Published →
       db_posts demo_taken !! 3%N = Some r ∧ deliveries 3 (sy_log s) = []
       ∨ ∃ d, deliveries 3 (sy_log s) = [d]
           ∧ post_telegram_message_id r = Some (dl_message d) ∧ content_of r (dl_request d)).
Proof.
  destruct demo_publish_run as [ts Hrun]. eexists. split; [|
    apply (posts_have_at_most_one_message (Pa := TeloxideApi) (delivered := demo_delivered) demo_taken _ 3);
      [apply db_wfb_sound; by_vm|exact Hrun]]. reflexivity.
Defined.
