(* ===== verification/CadenceSpec.v ===== *)
(** * CadenceSpec: the cadence search finds the earliest allowed slot

    [next_allowed_slot] walks a channel's grid day by day in local time; gaps
    and folds of the zone give grid points no instant or two.  It is compared
    with the set of grid instants it ought to search. *)

From S2P Require Import Prelude Enums Jobs Db Queue Instances Publisher PublisherRepo.
From S2P Require Import PublisherOps PublisherSend PublisherDemo.

(** [o] is the least element of [S], or [S] is empty. *)
Definition is_earliest (S : Z → Prop) (o : option Z) : Prop :=
  match o with
  | Some e => S e ∧ ∀ u, S u → e ≤ u
  | None => ∀ u, ¬ S u
  end.

#[global] Instance is_earliest_proper :
  Proper (pointwise_relation Z iff ==> eq ==> iff) is_earliest.
Proof.
  intros S S' HS o ? <-. unfold pointwise_relation in HS.
  destruct o; simpl; setoid_rewrite HS; done.
Qed.

Section Scan.
Context {T : TimeZones}.

Lemma keep_earliest_ok S o c r :
  is_earliest S o → is_earliest (λ u, S u ∨ (u = r ∧ c ≤ r)) (keep_earliest c o r).
Proof.
  unfold keep_earliest. intros Ho.
  destruct (Z.leb_spec c r) as [Hle|Hlt]; simpl.
  - destruct o as [e|]; simpl in *.
    + destruct (Z.ltb_spec r e) as [Hre|Hre]; simpl.
      * split; [by right|]. intros u [Hu|[-> _]]; [|done]. apply Ho in Hu. lia.
      * split; [left; apply Ho|]. intros u [Hu|[-> _]]; [by apply Ho|done].
    + split; [by right|]. intros u [Hu|[-> _]]; [by apply Ho in Hu|done].
  - destruct o as [e|]; simpl in *.
    + split; [left; apply Ho|]. intros u [Hu|[_ ?]]; [by apply Ho|lia].
    + intros u [Hu|[_ ?]]; [by apply Ho in Hu|lia].
Qed.

Lemma fold_earliest_ok S o c l :
  is_earliest S o →
  is_earliest (λ u, S u ∨ (u ∈ l ∧ c ≤ u)) (fold_left (keep_earliest c) l o).
Proof.
  revert S o. induction l as [|r l IH]; intros S o Ho; simpl.
  - eapply is_earliest_proper; [|reflexivity|exact Ho]. intros u. set_solver.
  - eapply is_earliest_proper; [|reflexivity|apply IH, keep_earliest_ok, Ho].
    intros u. rewrite elem_of_cons. naive_solver.
Qed.

(** Instants from [c] on that show a grid point of the rest of the day. *)
Definition grid_from (tz : Tz) (c step target end_ u : Z) : Prop :=
  c ≤ u ∧ ∃ k, 0 ≤ k ∧ local_time tz u = target + k * step ∧ target + k * step < end_.

Lemma grid_from_step tz c step target end_ u :
  target < end_ →
  grid_from tz c step target end_ u ↔
    (u ∈ from_local tz target ∧ c ≤ u) ∨ grid_from tz c step (target + step) end_ u.
Proof.
  intros Ht. unfold grid_from. rewrite from_local_spec. split.
  - intros (Hc & k & Hk & Hu & Hlt). destruct (decide (k = 0)) as [->|Hne].
    + left. split; [lia|done].
    + right. split; [done|]. exists (k - 1). split_and!; [lia|..]; rewrite <-?Hu; nia.
  - intros [[Hu Hc]|(Hc & k & Hk & Hu & Hlt)].
    + split; [done|]. exists 0. split_and!; lia.
    + split; [done|]. exists (k + 1). split_and!; [lia|..]; nia.
Qed.

(** With fuel for every remaining grid point the day scan is exact. *)
Lemma scan_day_ok fuel tz c step target end_ S o :
  0 < step → end_ - target ≤ step * Z.of_nat fuel → is_earliest S o →
  is_earliest (λ u, S u ∨ grid_from tz c step target end_ u)
    (scan_day fuel tz c step target end_ o).
Proof.
  intros Hstep. revert target S o.
  induction fuel as [|fuel IH]; intros target S o Hf Ho; simpl.
  - eapply is_earliest_proper; [|reflexivity|exact Ho]. intros u. split; [|by left].
    intros [?|(_ & k & ? & _ & ?)]; [done|]. nia.
  - destruct (Z.ltb_spec target end_) as [Hlt|Hge].
    + eapply is_earliest_proper;
        [|reflexivity|apply IH; [lia|apply fold_earliest_ok, Ho]].
      intros u. rewrite grid_from_step by done. naive_solver.
    + eapply is_earliest_proper; [|reflexivity|exact Ho]. intros u. split; [|by left].
      intros [?|(_ & k & ? & _ & ?)]; [done|]. nia.
Qed.

Lemma day_fuel_enough start end_ step :
  0 < step → start < end_ → end_ - start ≤ step * Z.of_nat (day_fuel start end_ step).
Proof.
  intros Hs Hw. unfold day_fuel.
  pose proof (Z.div_pos (end_ - start) step ltac:(lia) Hs).
  pose proof (Z.mul_div_le (end_ - start) step Hs).
  pose proof (Z.mod_pos_bound (end_ - start) step Hs).
  pose proof (Z.div_mod (end_ - start) step ltac:(lia)). nia.
Qed.

(** The instants of local day [d] a channel allows from [c] on. *)
Definition allowed_on (tz : Tz) (ch : ChannelRow) (c d u : Z) : Prop :=
  grid_from tz c (channel_interval_minutes ch * minute)
    (d * day + channel_window_start ch) (d * day + channel_window_end ch) u.

Lemma scan_one_day tz ch c d :
  0 < channel_interval_minutes ch → channel_window_start ch < channel_window_end ch →
  is_earliest (allowed_on tz ch c d)
    (scan_day (day_fuel (channel_window_start ch) (channel_window_end ch)
       (channel_interval_minutes ch * minute)) tz c (channel_interval_minutes ch * minute)
       (d * day + channel_window_start ch) (d * day + channel_window_end ch) None).
Proof.
  intros Hi Hw.
  pose proof (day_fuel_enough _ _ (channel_interval_minutes ch * minute)
    ltac:(unfold minute; lia) Hw) as Hf.
  eapply is_earliest_proper; [|reflexivity|
    apply (scan_day_ok _ tz c _ _ _ (λ _, False)); [unfold minute; lia|lia|by intros u []]].
  intros u. unfold allowed_on. naive_solver.
Qed.

(** What the search over [n] local days from [d] on may answer. *)
Definition earliest_slot (tz : Tz) (ch : ChannelRow) (c d : Z) (n : nat)
    (answer : result PublisherRepositoryError Z) : Prop :=
  match answer with
  | Ok s => ∃ d', d ≤ d' < d + Z.of_nat n
      ∧ is_earliest (allowed_on tz ch c d') (Some s)
      ∧ ∀ x u, d ≤ x < d' → ¬ allowed_on tz ch c x u
  | Err CadenceSearchExhausted => ∀ x u, d ≤ x < d + Z.of_nat n → ¬ allowed_on tz ch c x u
  | Err e => e = InvalidTimestamp
  end.

Lemma scan_days_spec n tz ch c d :
  0 < channel_interval_minutes ch → channel_window_start ch < channel_window_end ch →
  earliest_slot tz ch c d n
    (scan_days n tz c (channel_window_start ch) (channel_window_end ch)
      (channel_interval_minutes ch * minute) d).
Proof.
  intros Hi Hw. revert d. induction n as [|n IH]; intros d; cbn [scan_days]; [simpl; lia|].
  pose proof (scan_one_day tz ch c d Hi Hw) as He. destruct (scan_day _ _ _ _ _ _ _) as [e|].
  - unfold from_chrono. case_match; [|done]. exists d. split; [lia|split; [done|]]. intros. lia.
  - assert (∀ x u, d ≤ x < d + Z.of_nat (S n) → allowed_on tz ch c x u →
              d + 1 ≤ x < d + 1 + Z.of_nat n) as Hnext.
    { intros x u Hx Hu. destruct (decide (x = d)) as [->|?]; [by apply He in Hu|lia]. }
    specialize (IH (d + 1)). destruct (scan_days _ _ _ _ _ _ _) as [s|[]]; simpl in *; eauto.
    + destruct IH as (d' & Hd & Hs & Hnone). exists d'. split; [lia|split; [done|]].
      intros x u Hx Hu. eapply (Hnone x u); [|done]. pose proof (Hnext x u ltac:(lia) Hu). lia.
    + intros x u Hx Hu. eapply IH; eauto.
Qed.
End Scan.

Section Theorems.
Context {J : Json} {T : TimeZones}.

(** A channel row whose settings passed validation, in zone [tz]. *)
Record valid_cadence (ch : ChannelRow) (tz : Tz) : Prop := {
  vc_zone : parse_tz (channel_time_zone ch) = Some tz;
  vc_interval : 0 < channel_interval_minutes ch;
  vc_window : channel_window_start ch < channel_window_end ch;
}.

Lemma next_allowed_slot_spec ch tz requested :
  valid_cadence ch tz →
  earliest_slot tz ch requested (local_time tz requested / day) 370
    (next_allowed_slot requested ch).
Proof.
  intros [Hz Hi Hw]. unfold next_allowed_slot, to_chrono. rewrite Hz.
  unfold ok_or, mbind, result_bind; cbv beta iota.
  destruct (_ && _); cbv beta iota; [|done]. rewrite (proj2 (Z.leb_gt _ _)) by done.
  by apply scan_days_spec.
Qed.

(** The candidates a free-slot search walks through before [s]: each is the
    next allowed slot one second after the previous one, and is taken. *)
Inductive skipped (occ : list Z) (ch : ChannelRow) : Z → Z → Prop :=
| skipped_here s : s ∉ occ → skipped occ ch s s
| skipped_next c c' s :
    c ∈ occ → next_allowed_slot (c + 1000000) ch = Ok c' → skipped occ ch c' s →
    skipped occ ch c s.

Lemma free_slot_skipped fuel occ ch c s : free_slot fuel occ ch c = Ok s → skipped occ ch c s.
Proof.
  revert c. induction fuel as [|fuel IH]; intros c H; simpl in H; [done|].
  destruct (bool_decide (c ∈ occ)) eqn:Hd; bool_norm; simpl in H.
  - destruct (next_allowed_slot (c + 1000000) ch) as [c'|] eqn:Hn; [|done].
    eapply skipped_next; eauto.
  - simplify_eq. by constructor.
Qed.

Lemma skipped_allowed occ ch tz requested c s :
  valid_cadence ch tz → skipped occ ch c s →
  requested ≤ c → (∃ d, allowed_on tz ch requested d c) →
  requested ≤ s ∧ s ∉ occ ∧ ∃ d, allowed_on tz ch requested d s.
Proof.
  intros Hv Hsk. induction Hsk as [s Hs|c c' s Hc Hn _ IH]; intros Hle Ha; [eauto|].
  pose proof (next_allowed_slot_spec _ _ (c + 1000000) Hv) as Hs. rewrite Hn in Hs.
  destruct Hs as (d & _ & [[Hge Hg] _] & _).
  apply IH; [lia|]. exists d. split; [lia|done].
Qed.

(** C18: [next_allowed_slot] answers with the earliest instant at or after the request
    that shows a point of the channel's local grid inside its window, on the first
    local day that has one, through gaps and folds of the zone; it reports exhaustion
    only when none of the 370 local days it covers has such an instant. *)
Theorem next_allowed_slot_is_earliest ch tz requested :
  valid_cadence ch tz →
  earliest_slot tz ch requested (local_time tz requested / day) 370
    (next_allowed_slot requested ch).
Proof. apply next_allowed_slot_spec. Qed.

(** the slot given to a post is not before the request nor before now, lies on
    the channel's grid, is held by no other queued or sending post of the channel, and
    every candidate passed over on the way to it was held by one. *)
Theorem next_free_slot_is_free {P : PayloadSerde} ch tz post requested ck (db db' : Db) s :
  valid_cadence ch tz → next_free_slot ch post requested ck db = Ok (s, db') →
  db' = db ∧ Z.max requested (app_now ck) ≤ s
  ∧ s ∉ occupied_slots db (channel_id ch) post
  ∧ (∃ d, allowed_on tz ch (Z.max requested (app_now ck)) d s)
  ∧ ∃ first, next_allowed_slot (Z.max requested (app_now ck)) ch = Ok first
      ∧ skipped (occupied_slots db (channel_id ch) post) ch first s.
Proof.
  intros Hv H. unfold next_free_slot in H. db_inv.
  match goal with H : next_allowed_slot _ _ = Ok ?f |- _ =>
    pose proof (next_allowed_slot_spec _ _ (Z.max requested (app_now ck)) Hv) as Hf;
    rewrite H in Hf; destruct Hf as (d & _ & [Hd _] & _) end.
  match goal with H : free_slot _ _ _ _ = Ok _ |- _ => apply free_slot_skipped in H as Hsk end.
  destruct (skipped_allowed _ _ _ (Z.max requested (app_now ck)) _ _ Hv Hsk) as (? & ? & ?);
    [apply Hd|eauto|]. split_and!; eauto.
Qed.
End Theorems.

Lemma demo_valid_cadence : valid_cadence (T := demo_zones) demo_channel tt.
Proof. split; [by_vm|apply Z.ltb_lt; by_vm|apply Z.ltb_lt; by_vm]. Qed.

Lemma next_allowed_slot_is_earliest_witness :
  earliest_slot (T := demo_zones) tt demo_channel (9 * hour + 1) 0 370
    (Ok (9 * hour + 30 * minute)).
Proof.
  assert (next_allowed_slot (9 * hour + 1) demo_channel = Ok (9 * hour + 30 * minute)) as Hs
    by by_vm.
  pose proof (next_allowed_slot_is_earliest (T := demo_zones) demo_channel tt (9 * hour + 1) demo_valid_cadence)
    as H.
  rewrite Hs in H. exact H.
Defined.

Lemma next_free_slot_is_free_witness :
  Z.max 0 (9 * hour) ≤ 10 * hour
  ∧ 10 * hour ∉ occupied_slots demo_two 1 9.
Proof.
  destruct (next_free_slot_is_free (T := demo_zones) demo_channel tt 9 0 (demo_clock (9 * hour)) demo_two demo_two
    (10 * hour) demo_valid_cadence) as (_ & H1 & H2 & _).
  - by_vm.
  - exact (conj H1 H2).
Defined.
