(* ===== verification/PublisherReplay.v ===== *)
(** * PublisherReplay: request keys make the commands idempotent, and settings
    keep one publication target *)

From S2P Require Import Prelude Enums Jobs Db Queue Instances Publisher PublisherRepo.
From S2P Require Import PublisherOps PublisherSend PublisherDemo PublisherInv PublisherSpec.

Section Keys.
Context {J : Json} {P : PayloadSerde} {T : TimeZones} {D : Digests}.
Implicit Types (db : Db) (r : PostRow) (ck : Clock).

(** The unique indexes on [request_key] and [origin_ingest_id]. *)
Definition keys_unique db : Prop := ∀ i j x y, db_posts db !! i = Some x →
  db_posts db !! j = Some y →
  (∃ k, post_request_key x = Some k ∧ post_request_key y = Some k)
  ∨ (∃ o, post_origin_ingest_id x = Some o ∧ post_origin_ingest_id y = Some o) → i = j.

Lemma keys_unique_insert db r :
  keys_unique db → fresh_keys db r → ∀ i j x y,
  <[post_id r := r]> (db_posts db) !! i = Some x →
  <[post_id r := r]> (db_posts db) !! j = Some y →
  (∃ k, post_request_key x = Some k ∧ post_request_key y = Some k)
  ∨ (∃ o, post_origin_ingest_id x = Some o ∧ post_origin_ingest_id y = Some o) → i = j.
Proof.
  intros Hu Hf i j x y [[<- <-]|[? Hx]]%lookup_insert_Some [[<- <-]|[? Hy]]%lookup_insert_Some
    Hxy; [done| | |by eapply Hu].
  - destruct (Hf _ _ Hy). naive_solver.
  - destruct (Hf _ _ Hx). naive_solver.
Qed.

Lemma keys_unique_step db db' :
  pub_step db db' → db_wf db → keys_unique db → keys_unique db'.
Proof.
  intros Hs Hwf Hu. destruct (pub_step_effect _ _ Hs Hwf) as [He _]. intros i j x y.
  destruct He as [->|r r' Hr -> Hc|r Hr -> _ Hf]; [by apply Hu| |by apply keys_unique_insert].
  destruct (ch_identity _ _ _ _ Hc) as [_ _ _ Ho Hk _].
  intros [[<- <-]|[? Hx]]%lookup_insert_Some [[<- <-]|[? Hy]]%lookup_insert_Some; [done|..];
    rewrite ?Ho, ?Hk; by eapply Hu.
Qed.

Lemma keys_unique_steps db db' :
  rtc pub_step db db' → db_wf db → keys_unique db → keys_unique db' ∧ db_wf db'.
Proof.
  induction 1 as [|db db1 db' Hs _ IH]; [done|]. intros Hwf Hu.
  apply IH; [by eapply pub_step_effect|by eapply keys_unique_step].
Qed.

(** The row a unique key finds. *)
Lemma find_unique_row db p i r :
  db_posts db !! i = Some r → p r = true →
  (∀ j x, db_posts db !! j = Some x → p x = true → i = j) →
  find_row p (db_posts db) = Some r.
Proof.
  intros Hr Hp Hu. destruct (find_row p (db_posts db)) as [x|] eqn:Hf.
  - apply find_row_Some in Hf as (j & Hj & Hpx). by rewrite (Hu _ _ Hj Hpx), Hj in Hr.
  - eapply find_row_None in Hf; [|done]. congruence.
Qed.

(** Identity columns survive a history. *)
Lemma identity_kept db db' i r :
  rtc pub_step db db' → db_wf db → db_posts db !! i = Some r →
  ∃ r', db_posts db' !! i = Some r' ∧ same_identity r r'.
Proof.
  intros Hs Hwf Hr.
  destruct (history_post_ind (same_identity r) i) with (db := db) (db' := db') (r := r)
    as (_ & r' & ? & ?); try done; [|eauto].
  intros occ x x' Hi [[] _ _ _ _]. destruct Hi. constructor; congruence.
Qed.

Lemma insert_intended_post_row fp fj k h o m ch i ck db r db' :
  insert_intended_post fp fj k h o m ch i ck db = Ok (r, db') → db_wf db →
  db_posts db' !! post_id r = Some r ∧ post_request_key r = Some k
  ∧ post_request_hash r = Some h ∧ post_origin_ingest_id r = o ∧ post_id r = fp.
Proof.
  intros H Hwf. pose proof (insert_intended_post_effect (w := Requester) _ _ _ _ _ _ _ _ _ _ _ _ H Hwf) as [_ Hwf'].
  unfold insert_intended_post in H. pub_inv; split_and!; try done.
  - by rewrite lookup_insert_eq.
  - match goal with H : evaluation_time _ _ _ _ _ _ = _ |- _ =>
      apply evaluation_time_ok in H as [-> ?] end.
    match goal with H : insert_publish_job _ _ _ _ _ (set_post ?r _) = _ |- _ =>
      apply insert_publish_job_ok in H as (j & [-> _] & _) end.
    + simpl. by rewrite lookup_insert_eq.
    + apply wf_insert_post; [done|]. eapply (np_check []). apply intended_post_new. set_solver.
Qed.

Lemma create_publication_intent_row fp fj m i k ck db res db' :
  create_publication_intent fp fj m i k ck db = Ok (res, db') → db_wf db →
  ∃ key h, normalize_request_key k = Ok key ∧ publication_intent_hash m i = Ok h
    ∧ db_posts db' !! post_id (cp_post res) = Some (cp_post res)
    ∧ post_request_key (cp_post res) = Some key ∧ post_request_hash (cp_post res) = Some h.
Proof.
  unfold create_publication_intent. intros H Hwf. pub_inv.
  eexists _, _; split; [done|]; split; [done|].
  destruct (find_row _ _) as [r|] eqn:Hf; pub_inv.
  - apply find_row_Some in Hf as (j & Hj & Hk). unfold has_request_key in Hk. bool_norm.
    by rewrite (wf_post_key _ Hwf _ _ Hj).
  - match goal with H : insert_intended_post _ _ _ _ _ _ _ _ _ _ = _ |- _ =>
      apply insert_intended_post_row in H as (? & ? & ? & _); [|done] end. done.
Qed.

Lemma materialize_ingest_row fp fj id ck db r created db' :
  materialize_ingest fp fj id ck db =
    Ok ({| mr_post := Some r; mr_created := created |}, db') → db_wf db →
  db_posts db' !! post_id r = Some r ∧ post_origin_ingest_id r = Some id.
Proof.
  unfold materialize_ingest. intros H Hwf. pub_inv.
  match goal with H : db_ingests _ !! id = Some _ |- _ =>
    pose proof (wf_ingest_key _ Hwf _ _ H) as Hid end. rewrite Hid in *.
  destruct (find_row _ _) as [existing|] eqn:Hf; pub_inv.
  - apply find_row_Some in Hf as (j & Hj & Hk). unfold has_origin in Hk. bool_norm.
    by rewrite (wf_post_key _ Hwf _ _ Hj).
  - match goal with H : insert_intended_post _ _ _ _ _ _ _ _ _ _ = _ |- _ =>
      apply insert_intended_post_row in H as (? & _ & _ & ? & _); [|done] end. done.
Qed.

(** Steps that only follow an equation. *)
Lemma replay_intent fp fj m i k ck db key h r :
  normalize_request_key k = Ok key → publication_intent_hash m i = Ok h →
  find_row (has_request_key key) (db_posts db) = Some r → post_request_hash r = Some h →
  create_publication_intent fp fj m i k ck db =
    Ok ({| cp_post := r; cp_created := false |}, db).
Proof.
  intros Hk Hh Hf Hr. unfold create_publication_intent, mbind, txn_bind, lift, fail_if.
  rewrite Hk, Hh; simpl. rewrite Hf. by rewrite bool_decide_true.
Qed.
End Keys.

Section Theorems.
Context {J : Json} {P : PayloadSerde} {T : TimeZones} {D : Digests}.
Implicit Types (db : Db) (r : PostRow) (ck : Clock).

(** a publication request is idempotent.  Once it has been accepted, repeating it
    with the same key, media and intent at any later point of any history succeeds,
    creates nothing, and answers with the same post. *)
Theorem publication_intent_replays fp fj m i k ck db res db1 db2 fp' fj' ck' :
  db_wf db → keys_unique db → create_publication_intent fp fj m i k ck db = Ok (res, db1) →
  rtc pub_step db1 db2 →
  ∃ r, create_publication_intent fp' fj' m i k ck' db2 =
         Ok ({| cp_post := r; cp_created := false |}, db2)
    ∧ db_posts db2 !! post_id (cp_post res) = Some r ∧ post_id r = post_id (cp_post res).
Proof.
  intros Hwf Hu Hc Hs.
  destruct (create_publication_intent_row _ _ _ _ _ _ _ _ _ Hc Hwf)
    as (key & h & Hk & Hh & Hr & Hkey & Hhash).
  destruct (keys_unique_steps db db2) as [Hu2 Hwf2]; [by eapply rtc_l; [eapply SRequest, SIntent|]|done..|].
  destruct (identity_kept _ _ _ _ Hs ltac:(by eapply (create_publication_intent_effect (w := Requester))) Hr)
    as (r & Hr2 & [Hid _ _ _ Hk2 Hh2]).
  exists r. split_and!; [|done..]. eapply replay_intent; [done..| |congruence].
  eapply find_unique_row; [done|unfold has_request_key; apply bool_decide_eq_true; congruence|].
  intros j x Hx Hp. unfold has_request_key in Hp. bool_norm. eapply Hu2; eauto.
  left. exists key. split; congruence.
Qed.

(** materialising an ingest is idempotent.  Once an ingest has its post, a
    replayed materialisation job at any later point of any history, while the ingest
    is still a completed publication request, answers with the same post and changes
    nothing. *)
Theorem materialization_replays fp fj id ck db r created db1 db2 ingest fp' fj' ck' :
  db_wf db → keys_unique db →
  materialize_ingest fp fj id ck db =
    Ok ({| mr_post := Some r; mr_created := created |}, db1) →
  rtc pub_step db1 db2 → db_ingests db2 !! id = Some ingest →
  ingest_state ingest = IngestStatus.Completed →
  ingest_requested_action ingest ≠ RequestedAction.Save →
  ∃ r', materialize_ingest fp' fj' id ck' db2 =
          Ok ({| mr_post := Some r'; mr_created := false |}, db2)
    ∧ db_posts db2 !! post_id r = Some r' ∧ post_id r' = post_id r.
Proof.
  intros Hwf Hu Hm Hs Hi Hst Hact.
  destruct (materialize_ingest_row _ _ _ _ _ _ _ _ Hm Hwf) as [Hr Ho].
  destruct (keys_unique_steps db db2) as [Hu2 Hwf2];
    [by eapply rtc_l; [eapply SRequest, SMaterialize|]|done..|].
  destruct (identity_kept _ _ _ _ Hs ltac:(by eapply (materialize_ingest_effect (w := Requester))) Hr)
    as (r' & Hr2 & [Hid _ _ Ho2 _ _]).
  exists r'. split_and!; [|done..].
  assert (find_row (has_origin id) (db_posts db2) = Some r') as Hf.
  { eapply find_unique_row; [done|unfold has_origin; apply bool_decide_eq_true; congruence|].
    intros j x Hx Hp. unfold has_origin in Hp. bool_norm. eapply Hu2; eauto.
    right. exists id. split; congruence. }
  unfold materialize_ingest, mbind, txn_bind, require, lift, fail_if; simpl.
  rewrite Hi; simpl. rewrite bool_decide_false by done.
  rewrite Hst, (wf_ingest_key _ Hwf2 _ _ Hi); simpl. by rewrite Hf.
Qed.

(** ** Settings *)

(** At most one channel is enabled. *)
Definition one_target db : Prop := ∀ i j x y, db_channels db !! i = Some x →
  db_channels db !! j = Some y → channel_is_enabled x = true → channel_is_enabled y = true →
  i = j.

Lemma other_enabled_false db except i x :
  db_wf db → other_enabled db except = false → db_channels db !! i = Some x →
  channel_is_enabled x = true → Some i = except.
Proof.
  unfold other_enabled. intros Hwf Ho Hx He. destruct (find_row _ _) eqn:Hf; [done|].
  eapply find_row_None in Hf; [|done]. rewrite He, (wf_channel_key _ Hwf _ _ Hx) in Hf.
  simpl in Hf. by bool_norm.
Qed.

(** A write that enables its channel only when no other one is. *)
Lemma one_target_write db c :
  db_wf db → one_target db →
  (channel_is_enabled c = true → ∀ i x, db_channels db !! i = Some x →
     channel_is_enabled x = true → i = channel_id c) →
  one_target (db <| db_channels := <[channel_id c := c]> (db_channels db) |>).
Proof.
  intros Hwf Ho Hc i j x y. simpl.
  intros [[<- <-]|[? Hx]]%lookup_insert_Some [[<- <-]|[? Hy]]%lookup_insert_Some Ex Ey;
    [done| | |by eapply Ho].
  - symmetry. by eapply Hc.
  - by eapply Hc.
Qed.

(** the settings operations never leave two enabled channels: creating a channel
    through the settings path and updating any channel both preserve that at most one
    channel is a publication target. *)
Theorem settings_keep_one_target db :
  db_wf db → one_target db →
  (∀ fresh c ck row db', create_channel_unambiguous fresh c ck db = Ok (row, db') → one_target db')
  ∧ (∀ id u ck row db', update_channel id u ck db = Ok (row, db') → one_target db').
Proof.
  intros Hwf Ho. split.
  - unfold create_channel_unambiguous, insert_channel. intros fresh c ck row db' H. pub_inv.
    apply (one_target_write db (inserted_channel fresh c (sql_now ck))); [done..|].
    intros _ i y Hy He. by eapply (other_enabled_false _ None) in Hy.
  - unfold update_channel. intros id u ck row db' H. pub_inv.
    match goal with H : db_channels _ !! id = Some ?x |- _ =>
      pose proof (wf_channel_key _ Hwf _ _ H) as Hid;
      apply (one_target_write db (updated_channel (channel_candidate u x)
        (default (channel_is_enabled x) (cu_is_enabled u)) (sql_now ck) x)) end; [done..|].
    simpl. intros He i y Hy Hye.
    match goal with H : _ && _ = false |- _ => rewrite He in H; simpl in H end.
    eapply (other_enabled_false _ (Some id)) in Hy; [|done..]. congruence.
Qed.

(** publishing now queues the post for this instant outside the cadence: a
    successful call that is not a replay leaves the post queued at the current time
    without a cadence slot, its revision raised by one, and its publication job queued
    for the same instant under the new revision. *)
Theorem publish_now_leaves_cadence fj id k e ck db r db' key :
  db_wf db → normalize_request_key k = Ok key →
  publish_now fj id k e ck db = Ok (r, db') →
  (∀ r0, db_posts db !! id = Some r0 →
     has_schedule_request (publish_now_key key) r0 = false) →
  db_posts db' !! id = Some r ∧ post_state r = PostState.Queued
  ∧ post_scheduled_at r = app_now ck ∧ post_cadence_slot_at r = None
  ∧ post_revision r = e + 1
  ∧ ∃ j, db_jobs db' !! job_id j = Some j ∧ job_dedupe_key j = Some (publish_job_key id)
      ∧ job_state j = JobStatus.Queued ∧ job_run_at j = app_now ck
      ∧ job_payload j = publish_payload id (post_revision r).
Proof.
  intros Hwf Hk H Hnew. unfold publish_now in H. pub_inv.
  { match goal with H : db_posts _ !! id = Some _ |- _ => specialize (Hnew _ H) end. congruence. }
  pose proof (lookup_post_id _ _ _ Hwf ltac:(eassumption)) as Hid.
  match goal with H : update_post_where _ _ _ _ _ _ = Ok _ |- _ =>
    apply update_post_where_ok in H as [(? & ? & _)|(x' & y' & ? & ? & ? & ? & ?)] end;
    simplify_eq/=.
  match goal with H : place_publish_job _ _ _ _ _ _ ?d = _ |- _ =>
    assert (db_wf d) as Hwf1;
      [|apply place_publish_job_ok in H as (j & [-> _] & [_ Hkey Hpay] & Hq & Hrun); [|done]] end.
  - eapply (change_idle (w := Requester)); eauto; try (constructor; done); simpl; try lia. right; left. done.
  - split_and!; try done; simpl; [by rewrite lookup_insert_eq|].
    exists j. by rewrite lookup_insert_eq.
Qed.
End Theorems.

(** ** The theorems at concrete inputs *)

Lemma keys_unique_demo : keys_unique demo_empty_queue.
Proof.
  intros i j x y Hx. assert (db_posts demo_empty_queue = ∅) as He by by_vm.
  rewrite He in Hx. by rewrite lookup_empty in Hx.
Qed.

Lemma publication_intent_replays_witness :
  ∃ r, create_publication_intent 33 44 2 queue_intent (lit " k1 ") (demo_clock (11 * hour)) demo_two =
         Ok ({| cp_post := r; cp_created := false |}, demo_two)
    ∧ db_posts demo_two !! 3%N = Some r ∧ post_id r = 3%N.
Proof.
  apply (publication_intent_replays 3 4 2 queue_intent (lit " k1 ") (demo_clock (9 * hour))
    demo_empty_queue {| cp_post := post_at demo_one 3; cp_created := true |} demo_one demo_two
    33 44 (demo_clock (11 * hour))).
  - apply db_wfb_sound. by_vm.
  - apply keys_unique_demo.
  - by_vm.
  - apply rtc_once, SRequest, (SIntent _ _ (demo_clock (9 * hour)) 6 7 5 queue_intent (lit "k2")
      {| cp_post := post_at demo_two 6; cp_created := true |}). by_vm.
Defined.

(** A completed ingest that asked for a queued post of media 2 on channel 1. *)
Definition demo_ingest : IngestRow :=
  {| ingest_id := 20; ingest_workspace_id := 21; ingest_input_key := lit "in";
     ingest_request_hash := []; ingest_input_kind := IngestKind.Url;
     ingest_state := IngestStatus.Completed; ingest_submitted_via := SubmittedVia.Api;
     ingest_input_json := VNull; ingest_source_url := None; ingest_page_url := None;
     ingest_page_title := None; ingest_supplied_caption := None;
     ingest_supplied_description := None; ingest_supplied_tags := [];
     ingest_requested_action := RequestedAction.Queue; ingest_requested_publish_at := None;
     ingest_requested_post_caption := None; ingest_requested_channel_id := Some 1%N;
     ingest_media_id := Some 2%N; ingest_force_save := false; ingest_duplicate_evidence := None;
     ingest_error_code := None; ingest_error_message := None; ingest_created_at := 0;
     ingest_updated_at := 0; ingest_completed_at := Some 0;
     ingest_acknowledged_failure_at := None |}.
Definition demo_ingested : Db :=
  demo_empty_queue <| db_ingests := {[ 20%N := demo_ingest ]} |>.
Definition demo_materialized : Db :=
  (run_txn (materialize_ingest 30 31 20) (demo_clock (9 * hour)) demo_ingested).2.

Lemma materialization_replays_witness :
  ∃ r', materialize_ingest 32 33 20 (demo_clock (9 * hour + 5)) demo_materialized =
          Ok ({| mr_post := Some r'; mr_created := false |}, demo_materialized)
    ∧ db_posts demo_materialized !! 30%N = Some r' ∧ post_id r' = 30%N.
Proof.
  apply (materialization_replays 30 31 20 (demo_clock (9 * hour)) demo_ingested
    (post_at demo_materialized 30) true demo_materialized demo_materialized demo_ingest
    32 33 (demo_clock (9 * hour + 5))).
  - apply db_wfb_sound. by_vm.
  - intros i j x y Hx. assert (db_posts demo_ingested = ∅) as He by by_vm.
    rewrite He in Hx. by rewrite lookup_empty in Hx.
  - by_vm.
  - apply rtc_refl.
  - by_vm.
  - by_vm.
  - discriminate.
Defined.

Definition demo_no_channel : Db := demo_empty_queue <| db_channels := ∅ |>.
Lemma settings_keep_one_target_witness :
  (∀ fresh c ck row db', create_channel_unambiguous fresh c ck demo_no_channel = Ok (row, db') →
     one_target db')
  ∧ (∀ id u ck row db', update_channel id u ck demo_no_channel = Ok (row, db') → one_target db').
Proof.
  apply (settings_keep_one_target demo_no_channel).
  - apply db_wfb_sound. by_vm.
  - intros i j x y Hx. simpl in Hx. by rewrite lookup_empty in Hx.
Defined.

Definition demo_now : Db :=
  (run_txn (publish_now 99 6 (lit "go") 0) (demo_clock (9 * hour + 7)) demo_two).2.
Lemma publish_now_leaves_cadence_witness :
  post_cadence_slot_at (post_at demo_two 6) = Some (9 * hour + 30 * minute)
  ∧ post_cadence_slot_at (post_at demo_now 6) = None.
Proof.
  split; [by_vm|].
  pose proof (publish_now_leaves_cadence 99 6 (lit "go") 0 (demo_clock (9 * hour + 7)) demo_two
    (post_at demo_now 6) demo_now (lit "go")) as H.
  apply H.
  - apply db_wfb_sound. by_vm.
  - by_vm.
  - by_vm.
  - intros r0 Hr. assert (db_posts demo_two !! 6%N = Some (post_at demo_two 6)) as Hr' by by_vm.
    assert (has_schedule_request (publish_now_key (lit "go")) (post_at demo_two 6) = false) as Hh
      by by_vm.
    congruence.
Defined.
