(* ===== verification/LibraryHistory.v ===== *)
(** * LibraryHistory: what holds over every history of uploads and captions *)

From S2P Require Import Prelude Enums Jobs Db Queue Cleanup Library LibraryRepo LibraryStorage.
From S2P Require Import LibraryInv LibrarySpec Instances Publisher PublisherRepo PublisherOps.
From S2P Require Import PublisherSend PublisherDemo Envelope EnvelopeSpec Preview MediaIdentity IdentityWitness.

Section Rows.
Context {J : Json}.
Implicit Types (r : MediaRow).

(** A reservation exists only while the upload is pending, and a caption claim
    exactly while the caption is being synchronised. *)
Record columns_consistent r : Prop := {
  cc_token : is_some (media_storage_token r) →
    media_storage_state r = MediaStorageState.Pending ∧ is_some (media_storage_started_at r);
  cc_claim : is_some (media_caption_sync_claim_token r) ↔
    media_caption_sync_state r = CaptionSyncState.Syncing;
}.

Lemma columns_consistent_change o d r r' :
  columns_consistent r → media_change o d r r' → columns_consistent r'.
Proof.
  intros [Ht Hc] [_ _ _ Hu Hm]. split.
  - intros Hsome. destruct Hu as [(Es & Et & Est & _)|t ? ? ? ? ? ? ?|? Es Et ?
      |? ? (? & Et & _)|? ? (? & Et & _)|? (? & Et & _)|? ? (? & Et & _)|? ? (? & Et & _)];
      try (rewrite Et in Hsome; done).
    + rewrite Es, Est. apply Ht. by rewrite <-Et.
    + done.
    + rewrite Es. split; [|done]. by apply Ht.
  - destruct Hm as [Es Ec _ _|t ? ? Es Ec _ _|Es Ec _ _]; rewrite ?Ec, ?Es; simpl; try done.
Qed.

(** A row whose upload outcome is unknown, of generation [g]. *)
Definition upload_unknown (g : Z) r : Prop :=
  media_storage_state r = MediaStorageState.Unknown ∧ media_storage_token r = None
  ∧ media_storage_generation r = g.

Lemma upload_unknown_change o d g r r' :
  o ≠ Operator → upload_unknown g r → media_change o d r r' → upload_unknown g r'.
Proof.
  unfold upload_unknown. intros Ho (Hs & Ht & Hg) [_ _ _ Hu _].
  destruct Hu as [(Es & Et & _ & Eg)|t ? ? Es ? ? ? ? ?|Et ? ? ? ?|Es ? ? ?|? Et ? ?
    |? (Es & Et & _) Eg|? ? ? ?|? ? ? ?]; try done; try congruence.
  - rewrite Es, Et, Eg. auto.
  - by rewrite Ht in Et.
  - by rewrite Ht in Et.
  - rewrite Eg. auto.
Qed.

(** Reserved by [t] in generation [g], or that reservation is gone. *)
Definition reserved_or_lost (t : Uuid) (g : Z) r : Prop :=
  (media_storage_token r = Some t ∧ media_storage_generation r = g)
  ∨ media_storage_token r ≠ Some t.

Lemma reserved_or_lost_change o d t g r r' :
  d ≠ Some t → reserved_or_lost t g r → media_change o d r r' → reserved_or_lost t g r'.
Proof.
  unfold reserved_or_lost. intros Hd Hr [_ _ _ Hu _].
  destruct Hu as [(_ & Et & _ & Eg)|t' ? ? ? ? ? Et ? ?|? ? Et ? Eg|? ? (_ & Et & _) ?
    |? ? (_ & Et & _) ?|? (_ & Et & _) ?|? ? (_ & Et & _) ?|? ? (_ & Et & _) ?];
    rewrite ?Et, ?Eg; auto; try (by right).
  right. congruence.
Qed.

Lemma claim_current_change o d t (x : option Str * list Str) r r' :
  d ≠ Some t → (media_caption_sync_claim_token r = Some t → described r = x) →
  media_change o d r r' → media_caption_sync_claim_token r' = Some t → described r' = x.
Proof.
  intros Hd Hr [_ _ _ _ Hm] Hc.
  destruct Hm as [_ Ec _ ->|t' ? ? ? Ec _ ->|? Ec _ _]; rewrite Ec in Hc; [auto|congruence|done].
Qed.
End Rows.

Section Heads.
Context {J : Json} {P : PayloadSerde} {C : CaseMapping}.
Implicit Types (db : Db) (r : MediaRow) (ck : Clock).

(** What the first and the last transaction of an upload and of a caption
    synchronisation find and leave. *)

(** An update under a lock cannot miss the row the lock returned. *)
Ltac guard_held :=
  match goal with
  | H : ∀ r, ?t !! ?k = Some r → _ = false, Hr : ?t !! ?k = Some _ |- _ =>
      specialize (H _ Hr); rewrite ?Z.eqb_refl, ?bool_decide_true in H by congruence
  end.

Lemma reserved_row t m g ck db caption db1 :
  reserve_storage_upload t m g ck db = Ok (Reserved m t caption, db1) → db_wf db →
  db_wf db1 ∧ ∃ r, db_media db1 !! m = Some r ∧ media_storage_token r = Some t
    ∧ media_storage_generation r = g.
Proof.
  intros H Hwf. split; [by eapply le_wf, reserve_storage_upload_effect|].
  unfold reserve_storage_upload in H. lib_inv.
  match goal with H : db_media db !! m = Some _ |- _ => apply (wf_media_key _ Hwf) in H as <- end.
  rewrite lookup_insert_eq. eauto.
Qed.

Lemma completed_upload_row f gen m t a ck db row db' :
  complete_storage_upload_txn f gen m t a ck db = Ok (row, db') →
  ∃ r, db_media db !! m = Some r ∧ media_storage_token r = Some t
    ∧ media_storage_state r = MediaStorageState.Pending.
Proof.
  unfold complete_storage_upload_txn, owns_upload, storage_in. intros H. lib_inv. eauto.
Qed.

Lemma claimed_row m g t ck db claim db1 :
  begin_caption_sync m g t ck db = Ok (Some claim, db1) → db_wf db →
  db_wf db1 ∧ ∃ r, db_media db1 !! m = Some r ∧ media_caption_sync_claim_token r = Some t
    ∧ described r = (cm_description (cc_metadata claim), cm_tags (cc_metadata claim)).
Proof.
  intros H Hwf. split; [by eapply le_wf, begin_caption_sync_effect|].
  unfold begin_caption_sync in H. lib_inv; [by guard_held|].
  match goal with H : db_media db !! m = Some _ |- _ => apply (wf_media_key _ Hwf) in H as <- end.
  rewrite lookup_insert_eq. eexists. split_and!; [done..|].
  match goal with H : Some claim = _ |- _ => revert H end.
  destruct (media_storage_chat_id _), (media_storage_message_id _); by intros [= ->].
Qed.

Lemma applied_caption_row f m g t ret e ck db db' :
  complete_caption_sync f m g t true ret e ck db = Ok (Applied, db') →
  ∃ r r', db_media db !! m = Some r ∧ media_caption_sync_claim_token r = Some t
    ∧ db_media db' !! media_id r = Some r' ∧ media_caption_sync_state r' = CaptionSyncState.Synced
    ∧ described r' = described r.
Proof.
  unfold complete_caption_sync. intros H. lib_inv; [by guard_held|].
  eexists _, _. split_and!; [done..|by rewrite lookup_insert_eq|done|done].
Qed.

Lemma side_effect_lookup r db db' m :
  media_id r = m → side_effect (set_media r db) db' → db_media db' !! m = Some r.
Proof. intros <- [-> _ _ _]. simpl. by rewrite lookup_insert_eq. Qed.

Lemma finish_stored_row f gen m a r ck db row db' :
  finish_stored f gen m a r ck (set_media r db) = Ok (row, db') → media_id r = m →
  (∃ v now, row = with_caption_values v now r) ∧ db_media db' !! m = Some row.
Proof.
  unfold finish_stored. intros H Hk. lib_inv.
  all: match goal with H : <[_ := _]> _ !! _ = Some ?x |- _ =>
    rewrite lookup_insert_eq in H; apply (inj Some) in H; subst x end.
  all: split; [eauto|eapply side_effect_lookup; [reflexivity|]].
  all: match goal with H : side_effect (set_media _ _) _ |- _ => etrans; [exact H|clear H] end.
  all: repeat match goal with H : side_effect ?x ?y |- side_effect ?x _ =>
    transitivity y; [exact H|clear H] end.
  all: reflexivity.
Qed.

Lemma attached_row f gen m g a ck db row db' :
  attach_storage_upload_txn f gen m g a ck db = Ok (row, db') → db_wf db →
  media_id row = m ∧ db_media db' !! m = Some row
  ∧ media_storage_chat_id row = Some (at_chat_id a)
  ∧ media_storage_state row = MediaStorageState.Ready.
Proof.
  unfold attach_storage_upload_txn, storage_in. intros H Hwf. lib_inv.
  match goal with H : db_media db !! _ = Some _ |- _ =>
    pose proof (wf_media_key _ Hwf _ _ H) as Hk end.
  match goal with H : finish_stored _ _ _ _ _ _ _ = _ |- _ =>
    apply finish_stored_row in H as [(v & now & ->) ->]; [done|exact Hk] end.
Qed.
End Heads.

Section Theorems.
Context {J : Json} {P : PayloadSerde} {C : CaseMapping} {Sh : JsonShape} {Im : ImageLib}
  {Dg : Sha256} {T : LibraryText}.
Implicit Types (db : Db) (r : MediaRow) (ck : Clock).

(** C19: every committed storage or caption transaction (reservation, renewal,
    completion, release, the two ways to declare an upload unknown, reset, attach, the
    caption claim, completion and retry, edits, the resolution of a media by its bytes and
    the video identity decision, and the settlement and stale recovery of both job
    families) refines the media machine: at most one media row changes, along one upload
    move and one caption move, or one row with nothing reserved is inserted; posts are
    untouched and every table stays well formed. *)
Theorem library_refines_media_machine o d db db' :
  library_step o d db db' → db_wf db → library_effect o d db db'.
Proof. apply library_step_effect. Qed.

(** C20: over any history every media row, the inserted ones included, has consistent
    columns: a reservation token exists only while the upload is pending and then has a
    start time, and a claim token exists exactly while the caption is being
    synchronised. *)
Theorem media_columns_stay_consistent ops ds db db' :
  library_history ops ds db db' → db_wf db →
  map_Forall (λ _, columns_consistent) (db_media db) →
  map_Forall (λ _, columns_consistent) (db_media db').
Proof.
  apply history_rows_ind; [apply columns_consistent_change|].
  intros r [_ Ht Hs Hc]. split; [by rewrite Ht|]. rewrite Hc, Hs. done.
Qed.

(** C21: an upload whose outcome is unknown is never sent again by the system: without
    an operator command it stays unknown in its generation, and every attempt to
    reserve it is refused. *)
Theorem unknown_upload_waits_for_operator ds db db' m r t ck :
  library_history false ds db db' → db_wf db → db_media db !! m = Some r →
  columns_consistent r → media_storage_state r = MediaStorageState.Unknown →
  (∃ r', db_media db' !! m = Some r' ∧ media_storage_state r' = MediaStorageState.Unknown)
  ∧ reserve_storage_upload t m (media_storage_generation r) ck db' =
      Ok (ReconciliationRequired, db').
Proof.
  intros Hs Hwf Hr [Ht _] Hu.
  destruct (history_media_ind (upload_unknown (media_storage_generation r)) false m ds db db' r)
    as (_ & r' & Hr' & Hs' & Ht' & Hg'); auto.
  - intros o d x x' Hx Hc Ho _. eapply upload_unknown_change; [|done..].
    intros ->. by specialize (Ho eq_refl).
  - split_and!; auto. destruct (media_storage_token r); [|done]. destruct Ht; [done|]. congruence.
  - split; [eauto|].
    unfold reserve_storage_upload, lock_media, mbind, txn_bind, require, lift; simpl.
    rewrite Hr'; simpl. unfold storage_in. rewrite Hs', Hg', Z.eqb_refl. done.
Qed.

(** C22: upload reservations are exclusive.  A completion under the token of a
    reservation, with whatever other transactions in between, finds that reservation in
    place: the media is still pending, still held by the token, and still in the
    generation that was reserved.  A reservation that was released, reset or declared
    unknown can therefore never complete. *)
Theorem completion_needs_the_reservation t m g ck db caption db1 ds ops db2 f gen a ck' row db3 :
  db_wf db → reserve_storage_upload t m g ck db = Ok (Reserved m t caption, db1) →
  library_history ops ds db1 db2 → t ∉ ds →
  complete_storage_upload_txn f gen m t a ck' db2 = Ok (row, db3) →
  ∃ r, db_media db2 !! m = Some r ∧ media_storage_token r = Some t
    ∧ media_storage_state r = MediaStorageState.Pending ∧ media_storage_generation r = g.
Proof.
  intros Hwf Hres Hs Hfresh Hcomp.
  destruct (reserved_row _ _ _ _ _ _ _ Hres Hwf) as (Hwf1 & r1 & Hr1 & Ht1 & Hg1).
  destruct (completed_upload_row _ _ _ _ _ _ _ _ _ Hcomp) as (r & Hr & Ht & Hst).
  destruct (history_media_ind (reserved_or_lost t g) ops m ds db1 db2 r1)
    as (_ & r' & Hr' & Hcase); eauto.
  - intros o d x y Hx Hc _ Hd. by eapply reserved_or_lost_change; eauto.
  - by left.
  - simplify_eq. destruct Hcase as [[_ Hg]|Hn]; [eauto 6|congruence].
Qed.

(** a synchronised caption is current.  When a caption worker's completion is
    applied as a success, the media row is marked synchronised and its description and
    tags are still the ones the worker was given at its claim. *)
Theorem synced_caption_is_current m g t ck db claim db1 ds ops db2 f ret e ck' db3 :
  db_wf db → begin_caption_sync m g t ck db = Ok (Some claim, db1) →
  library_history ops ds db1 db2 → t ∉ ds →
  complete_caption_sync f m g t true ret e ck' db2 = Ok (Applied, db3) →
  ∃ r, db_media db3 !! m = Some r ∧ media_caption_sync_state r = CaptionSyncState.Synced
    ∧ media_description r = cm_description (cc_metadata claim)
    ∧ media_tags r = cm_tags (cc_metadata claim).
Proof.
  intros Hwf Hb Hs Hfresh Hcomp.
  destruct (claimed_row _ _ _ _ _ _ _ Hb Hwf) as (Hwf1 & r1 & Hr1 & _ & Hd1).
  destruct (applied_caption_row _ _ _ _ _ _ _ _ _ Hcomp) as (r & r3 & Hr & Ht & Hr3 & Hs3 & Hd3).
  destruct (history_media_ind (fun x => media_caption_sync_claim_token x = Some t →
    described x = described r1) ops m ds db1 db2 r1) as (Hwf2 & r' & Hr' & Hcase); eauto.
  - intros o d x y Hx Hc _ Hd. by eapply claim_current_change; eauto.
  - assert (r' = r) as -> by congruence. pose proof (wf_media_key _ Hwf2 _ _ Hr) as <-.
    exists r3. rewrite Hr3. rewrite (Hcase Ht), Hd1 in Hd3. unfold described in Hd3.
    by simplify_eq.
Qed.

(** The committed effect and the answer of an operator's attach can disagree.  The
    chat identifier is not validated before the commit but the receipt needs a negative
    one, so attaching a non-negative chat commits a ready media row and then reports
    that the receipt is missing. *)
Theorem attach_to_user_chat_commits_and_fails f gen m g a ck db row db' :
  attach_storage_upload_txn f gen m g a ck db = Ok (row, db') → db_wf db → 0 ≤ at_chat_id a →
  attach_storage_upload f gen m g a ck db = (Err (StorageReceiptMissing m), db')
  ∧ ∃ r, db_media db' !! m = Some r ∧ media_storage_state r = MediaStorageState.Ready.
Proof.
  intros H Hwf Hc. unfold attach_storage_upload, commit_then, run_txn. rewrite H.
  destruct (attached_row _ _ _ _ _ _ _ _ _ H Hwf) as (Hm & Hr & Hchat & Hst).
  split; [|eauto]. simpl. unfold into_storage_receipt. rewrite Hchat; simpl.
  destruct (Z.ltb_spec (at_chat_id a) 0); [lia|]. by rewrite Hm.
Qed.

(** An exact duplicate that brings only a source URL changes the caption text
    without a new caption generation.  The URL of the stored row is filled, the
    caption columns stay, and no caption job is inserted, although the caption is
    rendered from the URL too. *)
Theorem merged_url_schedules_no_caption mg f sha i ck db row db' u :
  merge_existing_media mg f sha i ck db = Ok (row, db') → db_wf db →
  (∀ r, find_row (has_sha sha) (db_media db) = Some r →
     media_source_url r = None ∧ merge_tags (media_tags r) (im_tags i) = media_tags r) →
  im_description i = None → im_source_url i = Some u →
  ∃ r, find_row (has_sha sha) (db_media db) = Some r
    ∧ db_media db' !! media_id r = Some row ∧ media_source_url row = Some u
    ∧ media_caption_sync_state row = media_caption_sync_state r
    ∧ media_caption_sync_generation row = media_caption_sync_generation r
    ∧ db_jobs db' = db_jobs db.
Proof.
  unfold merge_existing_media. intros H Hwf Hsame Hd Hu.
  lib_inv.
  all: match goal with Hf : find_row _ _ = Some ?r0 |- _ =>
    rename Hf into Hfind; rename r0 into r; destruct (Hsame r Hfind) as [Hurl Htags];
    exists r; split; [done|];
    apply find_row_Some in Hfind as (k & Hk & _); pose proof (wf_media_key _ Hwf _ _ Hk) as <- end.
  all: assert (Hsame' : bool_decide (merge_tags (media_tags r) (im_tags i) = media_tags r) = true)
    by (by apply bool_decide_true).
  all: rewrite Hd, Hsame' in *; simpl in *; try done.
  match goal with H : next_caption_sync_values _ _ = Ok _ |- _ =>
    injection H as <- end.
  assert (x = r) as -> by congruence. rewrite Hurl, Hu, lookup_insert_eq. done.
Qed.
End Theorems.

(** ** The theorems at a concrete library *)


#[global] Instance storage_reservation_eq_dec : EqDecision StorageUploadReservation.
Proof. solve_decision. Defined.
#[global] Instance caption_claim_eq_dec : EqDecision CaptionSyncClaim.
Proof. solve_decision. Defined.
#[global] Instance caption_completion_eq_dec : EqDecision CaptionSyncCompletion.
Proof. solve_decision. Defined.

(** Media 8 waits for its upload, media 9 for its caption. *)
Definition pending_media : MediaRow :=
  (demo_media 8) <| media_storage_state := MediaStorageState.Pending;
                    media_storage_chat_id := None; media_storage_message_id := None;
                    media_file_id := None; media_stored_at := None |>.
Definition captioned_media : MediaRow :=
  (demo_media 9) <| media_caption_sync_state := CaptionSyncState.Pending;
                    media_caption_sync_generation := 1; media_description := Some (lit "cat");
                    media_tags := [lit "a"]; media_canonical_sha256 := Some [1; 2] |>.
Definition demo_library : Db :=
  empty_db <| db_media := {[ 8%N := pending_media; 9%N := captioned_media ]} |>.

Definition demo_reserved : Db :=
  (run_txn (reserve_storage_upload 80 8 1) (demo_clock 1000) demo_library).2.
Definition demo_claimed : Db :=
  (run_txn (begin_caption_sync 9 1 81) (demo_clock 1001) demo_reserved).2.
Definition demo_unknown : Db :=
  (run_txn (mark_upload_unknown 8 80) (demo_clock 1002) demo_reserved).2.
Definition demo_unknown_claimed : Db :=
  (run_txn (begin_caption_sync 9 1 81) (demo_clock 1003) demo_unknown).2.
Definition media_at (db : Db) (i : Uuid) : MediaRow := default pending_media (db_media db !! i).

Lemma demo_reserve : reserve_storage_upload 80 8 1 (demo_clock 1000) demo_library
  = Ok (Reserved 8 80 (storage_caption_metadata_from_row pending_media), demo_reserved).
Proof. by_vm. Qed.
Definition demo_caption_claim : CaptionSyncClaim :=
  {| cc_media_id := 9; cc_generation := 1; cc_claim_token := 81; cc_chat_id := -100500;
     cc_message_id := 12; cc_metadata := storage_caption_metadata_from_row captioned_media |}.
Lemma demo_begin : begin_caption_sync 9 1 81 (demo_clock 1001) demo_reserved
  = Ok (Some demo_caption_claim, demo_claimed).
Proof. by_vm. Qed.
Lemma demo_history_library : library_history false [80%N; 81%N] demo_library demo_claimed.
Proof.
  apply (hist_cons false Uploader (Some 80%N) [81%N] demo_library demo_reserved); [|done|].
  - eapply MReserve, demo_reserve.
  - apply (hist_cons false Background (Some 81%N) [] demo_reserved demo_claimed); [|done|constructor].
    eapply MBeginCaption, demo_begin.
Qed.

Lemma library_refines_media_machine_witness :
  library_effect Uploader (Some 80%N) demo_library demo_reserved.
Proof.
  apply (library_refines_media_machine Uploader (Some 80%N) demo_library demo_reserved).
  - eapply MReserve, demo_reserve.
  - apply db_wfb_sound. by_vm.
Defined.

Lemma media_columns_stay_consistent_witness :
  map_Forall (λ _, columns_consistent) (db_media demo_claimed).
Proof.
  apply (media_columns_stay_consistent false [80%N; 81%N] demo_library demo_claimed).
  - apply demo_history_library.
  - apply db_wfb_sound. by_vm.
  - intros i r. unfold demo_library. simpl.
    intros [[_ <-]|[_ [_ <-]%lookup_singleton_Some]]%lookup_insert_Some; by split.
Defined.

Lemma unknown_upload_waits_for_operator_witness :
  (∃ r', db_media demo_unknown_claimed !! 8%N = Some r'
     ∧ media_storage_state r' = MediaStorageState.Unknown)
  ∧ reserve_storage_upload 82 8 (media_storage_generation (media_at demo_unknown 8))
      (demo_clock 1004) demo_unknown_claimed = Ok (ReconciliationRequired, demo_unknown_claimed).
Proof.
  apply (unknown_upload_waits_for_operator [81%N] demo_unknown demo_unknown_claimed 8%N
    (media_at demo_unknown 8)).
  - apply (hist_cons false Background (Some 81%N) [] demo_unknown demo_unknown_claimed);
      [|done|constructor].
    apply (MBeginCaption (demo_clock 1003) 9 1 81 (Some demo_caption_claim)). by_vm.
  - apply db_wfb_sound. by_vm.
  - by_vm.
  - by split.
  - by_vm.
Defined.

Definition demo_attachment (chat : Z) : StorageUploadAttachment :=
  {| at_chat_id := chat; at_message_id := 13; at_file_id := Some (lit "g");
     at_file_unique_id := None; at_caption_metadata := None |}.
Definition demo_stored : Db :=
  (run_txn (complete_storage_upload_txn 85 (λ i, i) 8 80 (demo_attachment (-100500)))
     (demo_clock 1005) demo_claimed).2.

Lemma completion_needs_the_reservation_witness :
  ∃ r, db_media demo_claimed !! 8%N = Some r ∧ media_storage_token r = Some 80%N
    ∧ media_storage_state r = MediaStorageState.Pending ∧ media_storage_generation r = 1.
Proof.
  apply (completion_needs_the_reservation 80 8 1 (demo_clock 1000) demo_library
    (storage_caption_metadata_from_row pending_media) demo_reserved [81%N] false demo_claimed
    85 (λ i, i) (demo_attachment (-100500)) (demo_clock 1005) (media_at demo_stored 8) demo_stored).
  - apply db_wfb_sound. by_vm.
  - apply demo_reserve.
  - apply (hist_cons false Background (Some 81%N) [] demo_reserved demo_claimed); [|done|constructor].
    eapply MBeginCaption, demo_begin.
  - by apply (bool_decide_unpack _).
  - by_vm.
Defined.

Definition demo_synced : Db :=
  (run_txn (complete_caption_sync 86 9 1 81 true false None) (demo_clock 1006) demo_stored).2.

Lemma synced_caption_is_current_witness :
  ∃ r, db_media demo_synced !! 9%N = Some r ∧ media_caption_sync_state r = CaptionSyncState.Synced
    ∧ media_description r = Some (lit "cat") ∧ media_tags r = [lit "a"].
Proof.
  apply (synced_caption_is_current 9 1 81 (demo_clock 1001) demo_reserved demo_caption_claim
    demo_claimed [] false demo_stored 86 false None (demo_clock 1006) demo_synced).
  - apply db_wfb_sound. by_vm.
  - apply demo_begin.
  - apply (hist_cons false Uploader None [] demo_claimed demo_stored); [|done|constructor].
    apply (MComplete (demo_clock 1005) 85 (λ i, i) 8 80 (demo_attachment (-100500))
      (media_at demo_stored 8)). by_vm.
  - by apply (bool_decide_unpack _).
  - by_vm.
Defined.

Definition demo_attached : Db :=
  (run_txn (attach_storage_upload_txn 87 (λ i, i) 8 1 (demo_attachment 7))
     (demo_clock 1007) demo_unknown).2.

Lemma attach_to_user_chat_commits_and_fails_witness :
  attach_storage_upload 87 (λ i, i) 8 1 (demo_attachment 7) (demo_clock 1007) demo_unknown
    = (Err (StorageReceiptMissing 8), demo_attached)
  ∧ ∃ r, db_media demo_attached !! 8%N = Some r ∧ media_storage_state r = MediaStorageState.Ready.
Proof.
  apply (attach_to_user_chat_commits_and_fails 87 (λ i, i) 8 1 (demo_attachment 7)
    (demo_clock 1007) demo_unknown (media_at demo_attached 8) demo_attached).
  - by_vm.
  - apply db_wfb_sound. by_vm.
  - done.
Defined.

Definition url_only : IncomingMedia :=
  {| im_tags := [lit "a"]; im_title := None; im_description := None;
     im_source_url := Some (lit "https://e.org/1"); im_source_value := VNull |}.
Definition demo_merged : Db :=
  (run_txn (merge_existing_media (λ a _, a) 88 [1; 2] url_only) (demo_clock 1008) demo_synced).2.

Lemma merged_url_schedules_no_caption_witness :
  ∃ r, find_row (has_sha [1; 2]) (db_media demo_synced) = Some r
    ∧ db_media demo_merged !! media_id r = Some (media_at demo_merged 9)
    ∧ media_source_url (media_at demo_merged 9) = Some (lit "https://e.org/1")
    ∧ media_caption_sync_state (media_at demo_merged 9) = media_caption_sync_state r
    ∧ media_caption_sync_generation (media_at demo_merged 9) = media_caption_sync_generation r
    ∧ db_jobs demo_merged = db_jobs demo_synced.
Proof.
  apply (merged_url_schedules_no_caption (λ a _, a) 88 [1; 2] url_only (demo_clock 1008)
    demo_synced (media_at demo_merged 9) demo_merged (lit "https://e.org/1")).
  - by_vm.
  - apply db_wfb_sound. by_vm.
  - intros r Hr.
    assert (find_row (has_sha [1; 2]) (db_media demo_synced) = Some (media_at demo_synced 9))
      as Hrow by by_vm.
    assert (r = media_at demo_synced 9) as -> by congruence. split; by_vm.
  - done.
  - done.
Defined.
