(* ===== verification/Settlement.v ===== *)
(** * Settlement: the jobs of the ingest stages, and the dispatch over the job families

    The queue side of [persistence/src/inbox.rs]: [settle_job], [recover_job] and
    [terminal_job_retention_eligible]; locking the ingest row reads it and has no other
    effect.  Then [persistence/src/settlement.rs] ([settle], [recover_stale],
    [recover_one]) and the entry points of [persistence/src/jobs.rs] that call it.
    [fresh] and [gen] are the identifiers drawn for the cleanup jobs a family may insert. *)

From S2P Require Import Prelude Enums Jobs Db Queue Cleanup LibraryRepo Library LibraryStorage Publisher.
From S2P Require Import PublisherRepo PublisherOps PublisherSend.

Section IngestJobs.
Context {J : Json} {P : PayloadSerde}.
Abbreviation jtxn A := (txn Db JobRepositoryError A).

(** The ingest a stage command belongs to; other commands lose the lease. *)
Definition stage_ingest_id (c : JobCommand) : result JobRepositoryError Uuid :=
  match c with
  | InspectSource p => Ok (inspect_ingest_id p)
  | DownloadSource p => Ok (download_ingest_id p)
  | ProbeAsset p | NormalizeAsset p | ComputeFingerprint p | FinalizeIngest p =>
      Ok (ingest_job_id p)
  | _ => Err LeaseLost
  end.

(** The columns written when a stage job has no attempt left. *)
Definition expired_ingest (now : Z) (i : IngestRow) : IngestRow :=
  i <| ingest_state := IngestStatus.FailedTerminal;
       ingest_error_code := Some (lit "job_lease_expired");
       ingest_error_message := Some (lit "job lease expired after the final attempt");
       ingest_completed_at := Some now; ingest_updated_at := now |>.

(** [UPDATE ingests .. WHERE id = $1 AND state NOT IN ('completed',
    'failed_terminal', 'cancelled')], then the cleanup of the workspace the row
    names, if there is a row. *)
Definition fail_ingest_for_job (fresh id : Uuid) : jtxn unit :=
  ck ← get_clock;
  update_ingests_where
    (λ i, bool_decide (ingest_id i = id) && negb (IngestStatus.is_terminal (ingest_state i)))
    (expired_ingest (sql_now ck));;
  o ← select_ingest id;
  match o with
  | Some i => enqueue_workspace_cleanup JobDatabase fresh id (ingest_workspace_id i)
                (app_now ck + WORKSPACE_CLEANUP_RETENTION)
  | None => mret tt
  end.

Definition settle_ingest_txn (fresh : Uuid) (l : JobLease) (expected : JobCommand)
    (s : JobSettlement) : jtxn JobRow :=
  i ← lift (stage_ingest_id expected);
  _ ← select_ingest i;
  job ← lock_running_job l (allows_expired_lease s);
  command ← lift (validate_locked_command job expected);
  i' ← lift (stage_ingest_id command);
  let u := queue_parameters job s in
  (if qu_terminal u then fail_ingest_for_job fresh i' else mret tt);;
  update_locked_job (job_id job) u.

Definition recover_ingest_job (fresh id : Uuid) (expected : JobCommand) : jtxn bool :=
  i ← lift (stage_ingest_id expected);
  _ ← select_ingest i;
  o ← lock_expired_job id;
  match o with
  | None => mret false
  | Some job =>
      command ← lift (validate_locked_command job expected);
      i' ← lift (stage_ingest_id command);
      ck ← get_clock;
      let u := recovery_update job (app_now ck) in
      (if qu_terminal u then fail_ingest_for_job fresh i' else mret tt);;
      _ ← update_locked_job (job_id job) u;
      mret true
  end.

(** [EXISTS (SELECT 1 FROM queue.jobs WHERE id <> $1 AND state IN ('queued',
    'running') AND kind <> 'cleanup_workspace' AND payload->>'ingest_id' = $2)]. *)
Definition live_ingest_job (db : Db) (job ingest : Uuid) : bool :=
  existsb (λ j, negb (bool_decide (job_id j = job)))
    (select_rows (λ j,
       (bool_decide (job_state j = JobStatus.Queued) || bool_decide (job_state j = JobStatus.Running))
       && negb (bool_decide (job_kind j = JobType.CleanupWorkspace))
       && bool_decide (json_text (job_payload j) "ingest_id" = Some (uuid_to_string ingest)))
     (db_jobs db)).

Definition ingest_retention_eligible (db : Db) (job : Uuid) (c : JobCommand) : bool :=
  match stage_ingest_id c with
  | Err _ => false
  | Ok i =>
      match db_ingests db !! i with
      | None => false
      | Some r =>
          if negb (IngestStatus.is_terminal (ingest_state r)) then false
          else negb (live_ingest_job db job i)
      end
  end.
End IngestJobs.

Section Settlement.
Context {J : Json} {P : PayloadSerde}.
Abbreviation jtxn A := (txn Db JobRepositoryError A).

(** The transaction of the family that owns the command. *)
Definition family_settlement (fresh : Uuid) (command : JobCommand) (l : JobLease)
    (s : JobSettlement) : jtxn JobRow :=
  match command with
  | PublishPost _ => settle_publish_txn l command s
  | UploadStorageAsset _ => settle_storage_txn l command s
  | SyncStorageCaption _ => settle_caption_txn l command s
  | InspectSource _ | DownloadSource _ | ProbeAsset _ | NormalizeAsset _
  | ComputeFingerprint _ | FinalizeIngest _ => settle_ingest_txn fresh l command s
  | MaterializePublication _ => settle_materialize_txn l command s
  | CleanupWorkspace _ => settle_cleanup_txn l command s
  end.

Definition settle (fresh : Uuid) (command : JobCommand) (l : JobLease) (s : JobSettlement)
    : op Db JobRepositoryError Job :=
  fun ck db =>
    match commit_then (family_settlement fresh command l s) into_job ck db with
    | (Err LeaseLost, db') =>
        if allows_expired_lease s then (load_already_requeued db' l s command, db')
        else (Err LeaseLost, db')
    | result => result
    end.

Definition settle_lease (fresh : Uuid) (job : Job) (l : JobLease) (s : JobSettlement)
    : op Db JobRepositoryError Job :=
  fun ck db =>
    if negb (lease_matches_job job l) then (Err LeaseLost, db)
    else settle fresh (jb_command job) l s ck db.

Definition family_recovery (fresh id : Uuid) (command : JobCommand) : jtxn bool :=
  match command with
  | PublishPost _ => recover_publish_job id command
  | UploadStorageAsset _ => recover_storage_job id command
  | SyncStorageCaption _ => recover_caption_job id command
  | InspectSource _ | DownloadSource _ | ProbeAsset _ | NormalizeAsset _
  | ComputeFingerprint _ | FinalizeIngest _ => recover_ingest_job fresh id command
  | MaterializePublication _ => recover_materialize_job id command
  | CleanupWorkspace _ => recover_cleanup_job id command
  end.

(** A row whose payload does not decode is recovered in the queue alone. *)
Definition recover_one (fresh : Uuid) (candidate : JobRow) : jtxn bool :=
  match into_job candidate with
  | Ok job => family_recovery fresh (job_id candidate) (jb_command job)
  | Err _ => recover_queue_only_untyped_txn (job_id candidate)
  end.

(** [ORDER BY updated_at, id]. *)
Definition stale_le (a b : JobRow) : bool :=
  lex_le [job_updated_at a; Z.of_N (job_id a)] [job_updated_at b; Z.of_N (job_id b)].
Definition stale_candidates (db : Db) (now : Z) : list JobRow :=
  order_by stale_le (select_rows (λ r,
    bool_decide (job_state r = JobStatus.Running)
    && match job_lease_expires_at r with Some t => t <=? now | None => false end) (db_jobs db)).

(** One transaction per candidate, each at its own clock; the first error ends
    the pass and keeps what was committed before it. *)
Fixpoint recover_each (gen : Uuid → Uuid) (tick : nat → Clock) (candidates : list JobRow) (n : Z)
    (db : Db) : result JobRepositoryError Z * Db :=
  match candidates with
  | [] => (Ok n, db)
  | c :: candidates =>
      match run_txn (recover_one (gen (job_id c)) c) (tick (length candidates)) db with
      | (Ok recovered, db') =>
          recover_each gen tick candidates (if recovered then n + 1 else n) db'
      | (Err e, db') => (Err e, db')
      end
  end.

Definition recover_stale (gen : Uuid → Uuid) (tick : nat → Clock)
    : op Db JobRepositoryError Z :=
  fun ck db => recover_each gen tick (stale_candidates db (sql_clock ck)) 0 db.
End Settlement.
