(* ===== verification/SettlementSpec.v ===== *)
(** * SettlementSpec: what settlement and recovery do to a job and its owner

    Every family settles a job the same way ([settles]): under the lease it
    moves exactly that row, keeps every other row, and when the job has failed
    for good its owner is no longer waiting for it ([owner_settled]). *)

From S2P Require Import Prelude Enums Jobs Db Queue QueueSpec Cleanup Library LibraryRepo.
From S2P Require Import LibraryStorage LibraryInv LibrarySpec Publisher PublisherRepo PublisherOps.
From S2P Require Import PublisherSend PublisherInv PublisherSpec Settlement.

Section Owners.
Context {J : Json} {P : PayloadSerde}.
Implicit Types (db : Db) (ck : Clock) (c : JobCommand).

(** The aggregate a failed job belongs to does not wait for it any more. *)
Definition owner_settled c db : Prop :=
  match c with
  | InspectSource _ | DownloadSource _ | ProbeAsset _ | NormalizeAsset _
  | ComputeFingerprint _ | FinalizeIngest _ =>
      ∀ id i, stage_ingest_id c = Ok id → db_ingests db !! id = Some i →
        IngestStatus.is_terminal (ingest_state i) = true
  | UploadStorageAsset p =>
      ∀ r, db_media db !! media_job_id p = Some r →
        media_storage_state r ≠ MediaStorageState.Pending
  | SyncStorageCaption p =>
      ∀ r, db_media db !! media_job_id p = Some r →
        media_caption_sync_generation r = media_job_generation p →
        media_caption_sync_state r ≠ CaptionSyncState.Syncing
  | PublishPost p =>
      ∀ r, db_posts db !! publish_post_id p = Some r →
        post_state r ≠ PostState.Sending
        ∧ (post_state r = PostState.Queued → post_revision r ≠ publish_expected_revision p)
  | MaterializePublication _ | CleanupWorkspace _ => True
  end.

(** Writing a job row does not matter to the owner. *)
Lemma owner_settled_jobs c db db' :
  db_ingests db' = db_ingests db → db_media db' = db_media db → db_posts db' = db_posts db →
  owner_settled c db → owner_settled c db'.
Proof. intros Hi Hm Hp. unfold owner_settled. by rewrite Hi, Hm, Hp. Qed.

(** ** The domain part of a terminal settlement *)

Lemma settle_terminal_post_owner id r e cls m ck db u db' :
  settle_terminal_publication_post id r e cls m ck db = Ok (u, db') → db_wf db →
  db_posts db !! id = Some r →
  ∀ r', db_posts db' !! id = Some r' →
    post_state r' ≠ PostState.Sending ∧ (post_state r' = PostState.Queued → post_revision r' ≠ e).
Proof.
  unfold settle_terminal_publication_post. intros H Hwf Hr r' Hr'. pub_inv.
  pose proof (wf_post_key _ Hwf _ _ Hr) as Hid.
  destruct (post_state r) eqn:Hs; pub_inv;
    try (rewrite Hs; split; congruence).
  - match goal with H : update_post_where _ _ _ _ _ _ = Ok _ |- _ =>
      apply update_post_where_ok in H as [(_ & -> & Hg)|(y & y' & Hy & _ & Hset & _ & ->)] end.
    + specialize (Hg _ Hr). by rewrite Hs, Z.eqb_refl in Hg.
    + assert (y = r) as -> by congruence. pub_inv. rewrite lookup_insert_eq in Hr'. by simplify_eq/=.
  - match goal with H : update_post_where _ _ _ _ _ _ = Ok _ |- _ =>
      apply update_post_where_ok in H as [(_ & -> & Hg)|(y & y' & Hy & _ & Hset & _ & ->)] end.
    + specialize (Hg _ Hr). unfold is_sending in Hg. by rewrite Hs in Hg.
    + assert (y = r) as -> by congruence. pub_inv. rewrite lookup_insert_eq in Hr'. by simplify_eq/=.
Qed.

(** Jobs are only added, and not under a lease. *)
Definition jobs_grow db db1 : Prop :=
  db_jobs db ⊆ db_jobs db1
  ∧ ∀ j x, db_jobs db !! j = None → db_jobs db1 !! j = Some x → job_lease_token x = None.
Lemma jobs_grow_eq db db1 : db_jobs db1 = db_jobs db → jobs_grow db db1.
Proof. intros H. split; rewrite H; [done|]. intros j x Hn Hs. congruence. Qed.

(** The part of a settlement that precedes the write of the queue row: no job
    is lost, the tables stay well formed, and a [final] one settles the owner. *)
Record domain_part (final : bool) c db db1 : Prop := {
  dp_jobs : jobs_grow db db1;
  dp_wf : db_wf db → db_wf db1;
  dp_owner : final = true → owner_settled c db1;
}.

Lemma domain_part_side (final : bool) c db db1 :
  side_effect db db1 → jobs_grow db db1 → (final = true → owner_settled c db1) →
  domain_part final c db db1.
Proof. intros [? ? ? ?] ? ?. by constructor. Qed.

Lemma domain_part_refl (final : bool) c db :
  (final = true → owner_settled c db) → domain_part final c db db.
Proof. constructor; [by apply jobs_grow_eq|done..]. Qed.

Lemma update_ingests_where_rows {E} guard set ck db u db' :
  (update_ingests_where guard set : txn Db E unit) ck db = Ok (u, db') →
  db_jobs db' = db_jobs db ∧ db_media db' = db_media db ∧
  ∀ id i', db_ingests db' !! id = Some i' →
    ∃ i, db_ingests db !! id = Some i ∧ i' = if guard i then set i else i.
Proof.
  unfold update_ingests_where. intros H. db_inv. split_and!; [done..|].
  intros id i'. rewrite lookup_fmap_Some. intros (i & <- & Hi). eauto.
Qed.

(** *** Ingest stages *)

Lemma insert_job_if_absent_rows {E} (inj : SqlError → E) fresh j ck db u db' :
  insert_job_if_absent inj fresh j ck db = Ok (u, db') →
  jobs_grow db db' ∧ db_ingests db' = db_ingests db.
Proof.
  unfold insert_job_if_absent. intros H. db_inv. case_match; db_inv; [split; [by apply jobs_grow_eq|done]|].
  split; [|done]. split; [apply insert_subseteq; by destruct (db_jobs db !! fresh) eqn:?|].
  intros k row Hk. simpl. rewrite lookup_insert_Some. intros [[_ <-]|[_ Hrow]]; [done|congruence].
Qed.

Lemma fail_ingest_for_job_part c fresh id ck db u db' :
  fail_ingest_for_job fresh id ck db = Ok (u, db') → db_wf db → stage_ingest_id c = Ok id →
  domain_part true c db db'.
Proof.
  unfold fail_ingest_for_job. intros H Hwf Hc. db_inv.
  match goal with H : update_ingests_where _ _ _ _ = Ok (_, ?d) |- _ =>
    rename H into Hup, d into db1 end.
  pose proof (update_ingests_where_rows _ _ _ _ _ _ Hup) as (Hj & Hm & Hrow).
  apply update_ingests_where_ok in Hup as Hside; [|done].
  assert (∀ i', db_ingests db1 !! id = Some i' → IngestStatus.is_terminal (ingest_state i') = true)
    as Hdone.
  { intros i' (i & Hi & ->)%Hrow. rewrite (wf_ingest_key _ Hwf _ _ Hi), bool_decide_true by done.
    simpl. destruct (IngestStatus.is_terminal (ingest_state i)) eqn:?; done. }
  assert (side_effect db1 db' ∧ jobs_grow db1 db' ∧ db_ingests db' = db_ingests db1)
    as (Hs & Hsub & Hi').
  { case_match; db_inv; [|split_and!; [done|by apply jobs_grow_eq|done]].
    unfold enqueue_workspace_cleanup in *. split.
    - eapply insert_job_if_absent_ok; [|eassumption]. done.
    - by eapply insert_job_if_absent_rows. }
  apply domain_part_side; [by etrans|by unfold jobs_grow in *; rewrite <-Hj|]. intros _.
  destruct c; simpl in Hc; simplify_eq; simpl; intros ? ? ?; simplify_eq; rewrite Hi'; auto.
Qed.

(** *** Publications *)

Lemma settle_terminal_post_part p r cls m ck db u db' :
  settle_terminal_publication_post (publish_post_id p) r (publish_expected_revision p) cls m ck db
    = Ok (u, db') → db_wf db → db_posts db !! publish_post_id p = Some r →
  domain_part true (PublishPost p) db db'.
Proof.
  intros H Hwf Hr. constructor.
  - apply jobs_grow_eq. by eapply settle_terminal_publication_post_jobs.
  - intros _. by eapply (settle_terminal_publication_post_effect (w := Requester)).
  - intros _. simpl. by eapply settle_terminal_post_owner.
Qed.

(** *** Captions *)

Lemma settle_caption_part p (final : bool) st e ck db u db' :
  settle_caption (media_job_id p) (media_job_generation p) st e ck db = Ok (u, db') →
  db_wf db → st ≠ CaptionSyncState.Syncing →
  domain_part final (SyncStorageCaption p) db db'.
Proof.
  unfold settle_caption. intros H Hwf Hst. db_inv.
  match goal with H : update_media_where _ _ _ _ _ _ = _ |- _ =>
    apply update_media_where_ok in H as [(-> & -> & Hg)|(r & Hr & Hg & -> & Hc & ->)] end.
  - apply domain_part_refl. intros _ r Hr Hgen Hs. specialize (Hg _ Hr).
    by rewrite Hgen, Hs, Z.eqb_refl in Hg.
  - constructor; [by apply jobs_grow_eq|by intros; apply wf_set_media|]. intros _ r'. simpl.
    rewrite <-(wf_media_key _ Hwf _ _ Hr), lookup_insert_eq. by intros [= <-].
Qed.

(** *** Uploads *)

Lemma fail_storage_part p msg ck db u db' :
  fail_storage (media_job_id p) msg ck db = Ok (u, db') → db_wf db →
  domain_part true (UploadStorageAsset p) db db'.
Proof.
  unfold fail_storage. intros H Hwf. db_inv.
  match goal with H : update_media_where _ _ _ _ _ _ = Ok (_, ?d) |- _ =>
    rename H into Hm, d into db1 end.
  match goal with H : update_ingests_where _ _ _ _ = _ |- _ =>
    pose proof (update_ingests_where_rows _ _ _ _ _ _ H) as (Hj & Hmed & _);
    apply update_ingests_where_ok in H as [_ _ _ Hwf']; [|done] end.
  apply update_media_where_ok in Hm as [(-> & -> & Hg)|(r & Hr & Hg & -> & Hc & ->)].
  - constructor; [by apply jobs_grow_eq|done|]. intros _ r. simpl. rewrite Hmed. intros Hr Hs.
    specialize (Hg _ Hr). unfold storage_in in Hg. by rewrite Hs in Hg.
  - constructor; [by apply jobs_grow_eq|by intros; apply Hwf', wf_set_media|]. intros _ r'. simpl.
    rewrite Hmed. simpl. rewrite <-(wf_media_key _ Hwf _ _ Hr), lookup_insert_eq. by intros [= <-].
Qed.

Lemma update_ingests_where_part {E} p guard set ck db u db' :
  (update_ingests_where guard set : txn Db E unit) ck db = Ok (u, db') →
  (∀ i, ingest_id (set i) = ingest_id i) →
  owner_settled (UploadStorageAsset p) db → domain_part true (UploadStorageAsset p) db db'.
Proof.
  intros H Hset Ho. pose proof (update_ingests_where_rows _ _ _ _ _ _ H) as (Hj & Hm & _).
  apply update_ingests_where_ok in H; [|done]. apply domain_part_side; [done|by apply jobs_grow_eq|].
  intros _. unfold owner_settled. by rewrite Hm.
Qed.

Lemma reconcile_storage_terminal_part p cls msg ck db u db' :
  reconcile_storage_terminal (media_job_id p) cls msg ck db = Ok (u, db') → db_wf db →
  domain_part true (UploadStorageAsset p) db db'.
Proof.
  unfold reconcile_storage_terminal. intros H Hwf. db_inv.
  destruct (db_media db !! media_job_id p) as [r|] eqn:Hr; simpl in *;
    [destruct (media_storage_state r) eqn:Hs|]; db_inv;
    eauto using fail_storage_part;
    first [apply domain_part_refl | eapply update_ingests_where_part; [eassumption|done|]];
    intros; intros ? ?; congruence.
Qed.

(** ** The whole settlement *)

(** [o] is the command of job [id], if its row decodes; the job stops running,
    every other job row stays, and a job that failed for good has settled its
    owner. *)
Record job_settled (id : Uuid) (o : option JobCommand) (st : JobStatus.t) db db' : Prop := {
  js_before : ∃ r, db_jobs db !! id = Some r ∧ job_state r = JobStatus.Running;
  js_after : ∃ r, db_jobs db' !! id = Some r ∧ job_state r = st;
  js_stopped : st ≠ JobStatus.Running;
  js_others : ∀ j x, j ≠ id → db_jobs db !! j = Some x → db_jobs db' !! j = Some x;
  js_new : ∀ j x, db_jobs db !! j = None → db_jobs db' !! j = Some x → job_lease_token x = None;
  js_wf : db_wf db';
  js_owner : ∀ c, o = Some c → st = JobStatus.Failed → owner_settled c db';
}.

(** An update of the queue row that a settlement or a recovery writes. *)
Record stopping (u : QueueUpdate) : Prop := {
  st_stops : qu_state u ≠ JobStatus.Running;
  st_queued : qu_state u = JobStatus.Queued → qu_terminal u = false;
  st_failed : qu_state u = JobStatus.Failed → qu_terminal u = true;
}.

Lemma queue_parameters_stopping r st : stopping (queue_parameters r st).
Proof.
  split; [apply queue_parameters_not_running|apply queue_parameters_terminal|].
  destruct st; simpl; try case_match; done.
Qed.
Lemma recovery_update_stopping r t : stopping (recovery_update r t).
Proof.
  split; [apply recovery_update_not_running|apply recovery_update_terminal|].
  unfold recovery_update; simpl. by case_match.
Qed.
Lemma storage_recovery_update_stopping j r now : stopping (storage_recovery_update j r now).
Proof.
  split; [apply storage_recovery_update_not_running|apply storage_recovery_update_terminal|].
  unfold storage_recovery_update. destruct (storage_in MediaStorageState.Ready r); simpl; [done|].
  destruct (storage_in MediaStorageState.Pending r), (media_storage_token r); simpl;
    rewrite ?orb_true_r, ?andb_true_r; done.
Qed.

Lemma update_locked_job_settled id o u r ck db db1 row db' :
  db_wf db → db_jobs db !! id = Some r →
  jobs_grow db db1 → db_wf db1 → (∀ c, o = Some c → qu_terminal u = true → owner_settled c db1) →
  stopping u → update_locked_job id u ck db1 = Ok (row, db') →
  row = settled_job u (sql_now ck) r ∧ job_settled id o (qu_state u) db db'.
Proof.
  intros Hwf Hr [Hsub Hnew] Hwf1 Ho [Hu1 Hu2 Hu3] H.
  pose proof (update_locked_job_side _ _ _ _ _ _ H Hu1 Hu2) as [Hm Hp _ Hw].
  apply update_locked_job_ok in H as (r1 & Hr1 & Hrun & -> & ->).
  assert (r1 = r) as -> by (apply (lookup_weaken _ _ _ _ Hr) in Hsub; congruence).
  pose proof (wf_job_key _ Hwf _ _ Hr) as Hid.
  split; [done|]. constructor; simpl; eauto.
  - exists (settled_job u (sql_now ck) r). by rewrite Hid, lookup_insert_eq.
  - intros j x Hj Hx. rewrite Hid, lookup_insert_ne by done. by eapply lookup_weaken.
  - intros j x Hj. rewrite Hid, lookup_insert_ne by congruence. by apply Hnew.
Qed.

Lemma validate_locked_command_ok r c c' :
  validate_locked_command r c = Ok c' →
  (∃ j, into_job r = Ok j ∧ jb_command j = c') ∧ commands_have_same_owner c c' = true.
Proof.
  unfold validate_locked_command. unfold mbind, result_bind.
  destruct (into_job r) as [j|]; [|done]. case_match; [|done]. intros [= <-]. eauto.
Qed.

(** What a settlement under lease [l] has checked and done: [r] is the job row
    it found, [j] the job that row decodes to. *)
Record settled_under (l : JobLease) c (s : JobSettlement) ck db (row : JobRow) db'
    (r : JobRow) (j : Job) : Prop := {
  su_lookup : db_jobs db !! jl_job_id l = Some r;
  su_lease : leased_by l r;
  su_attempt : job_attempt_count r = jl_attempt_number l;
  su_expiry : allows_expired_lease s = true
    ∨ ∃ t, job_lease_expires_at r = Some t ∧ sql_clock ck < t;
  su_decoded : into_job r = Ok j;
  su_same : commands_have_same_owner c (jb_command j) = true;
  su_result : row = settled_job (queue_parameters r s) (sql_now ck) r;
  su_settled : job_settled (jl_job_id l) (Some (jb_command j)) (qu_state (queue_parameters r s)) db db';
}.

Lemma settle_under_lease l c c' s ck db db0 db1 r row db' :
  db_wf db → lock_running_job l (allows_expired_lease s) ck db = Ok (r, db0) →
  validate_locked_command r c = Ok c' →
  domain_part (qu_terminal (queue_parameters r s)) c' db0 db1 →
  update_locked_job (job_id r) (queue_parameters r s) ck db1 = Ok (row, db') →
  ∃ j, settled_under l c s ck db row db' r j.
Proof.
  intros Hwf (-> & Hr & Hl & Ha & He)%lock_running_job_ok Hv Hd Hu.
  apply validate_locked_command_ok in Hv as [(j & Hj & <-) Hs].
  rewrite (wf_job_key _ Hwf _ _ Hr) in Hu.
  destruct Hd as [Hsub Hw Ho].
  eapply (update_locked_job_settled _ (Some (jb_command j))) in Hu as [-> Hjs]; eauto;
    [by exists j|naive_solver|apply queue_parameters_stopping].
Qed.

Lemma settle_queue_under l c s ck db row db' :
  settle_queue_in_transaction l c s ck db = Ok (row, db') → db_wf db →
  (∀ c', commands_have_same_owner c c' = true → owner_settled c' = λ _, True) →
  ∃ r j, settled_under l c s ck db row db' r j.
Proof.
  unfold settle_queue_in_transaction. intros H Hwf Hown. db_inv. eexists.
  eapply settle_under_lease; eauto. apply domain_part_refl.
  match goal with H : validate_locked_command _ _ = _ |- _ =>
    apply validate_locked_command_ok in H as [_ Hs] end. by rewrite Hown.
Qed.

Ltac settle_found :=
  match goal with
  | Hl : lock_running_job _ _ _ ?db = Ok (_, ?d), Hv : validate_locked_command _ _ = Ok _ |- _ =>
      assert (d = db) as -> by (by apply lock_running_job_ok in Hl as [-> _]);
      eexists; eapply settle_under_lease; [done|exact Hl|exact Hv| |eassumption]
  end.

Lemma settle_ingest_under fresh l c s ck db row db' :
  settle_ingest_txn fresh l c s ck db = Ok (row, db') → db_wf db →
  ∃ r j, settled_under l c s ck db row db' r j.
Proof.
  unfold settle_ingest_txn. intros H Hwf. db_inv. settle_found.
  case_match; db_inv; [by eapply fail_ingest_for_job_part|by apply domain_part_refl].
Qed.

Lemma settle_publish_under l c s ck db row db' :
  settle_publish_txn l c s ck db = Ok (row, db') → db_wf db →
  ∃ r j, settled_under l c s ck db row db' r j.
Proof.
  unfold settle_publish_txn, publish_command. intros H Hwf. db_inv.
  match goal with H : lock_publication_post _ _ _ = _ |- _ =>
    apply lock_publication_post_ok in H as [-> ->] end.
  match goal with H : validate_locked_command _ _ = _ |- _ =>
    pose proof H as Hv; apply validate_locked_command_ok in Hv as [_ Hsame] end.
  settle_found. destruct c; simplify_eq/=. case_match; simplify_eq/=. bool_norm.
  rewrite Hsame in *. case_match; [case_match|]; db_inv.
  - by eapply settle_terminal_post_part.
  - by apply domain_part_refl.
  - apply domain_part_refl. intros _ r Hr. congruence.
Qed.

Lemma settle_caption_under l c s ck db row db' :
  settle_caption_txn l c s ck db = Ok (row, db') → db_wf db →
  ∃ r j, settled_under l c s ck db row db' r j.
Proof.
  unfold settle_caption_txn, caption_command. intros H Hwf. db_inv.
  match goal with H : validate_locked_command _ _ = _ |- _ =>
    pose proof H as Hv; apply validate_locked_command_ok in Hv as [_ Hsame] end.
  settle_found. destruct c; simplify_eq/=. case_match; simplify_eq/=. bool_norm.
  eapply settle_caption_part; [|done|]; [by match goal with H : media_job_id _ = _ |- _ => rewrite <-H end|].
  by case_match.
Qed.

Lemma upload_command_ok c p : upload_command c = Ok p → c = UploadStorageAsset p.
Proof. by destruct c; intros; simplify_eq/=. Qed.

Lemma settle_storage_under l c s ck db row db' :
  settle_storage_txn l c s ck db = Ok (row, db') → db_wf db →
  ∃ r j, settled_under l c s ck db row db' r j.
Proof.
  unfold settle_storage_txn. intros H Hwf. db_inv. settle_found.
  match goal with H : upload_command ?c = Ok ?p, H' : validate_locked_command _ _ = Ok ?c |- _ =>
    apply upload_command_ok in H as -> end.
  case_match; db_inv; [|by apply domain_part_refl].
  by eapply reconcile_storage_terminal_part.
Qed.

Lemma family_settlement_under fresh c l s ck db row db' :
  family_settlement fresh c l s ck db = Ok (row, db') → db_wf db →
  ∃ r j, settled_under l c s ck db row db' r j.
Proof.
  intros H Hwf. destruct c; simpl in H;
    eauto using settle_ingest_under, settle_publish_under, settle_caption_under,
      settle_storage_under;
    unfold settle_materialize_txn, settle_cleanup_txn in H; db_inv;
    eapply settle_queue_under; eauto; by intros [].
Qed.

(** ** Recovery of one expired lease *)

Definition expired_at ck (r : JobRow) : Prop :=
  job_state r = JobStatus.Running ∧ ∃ t, job_lease_expires_at r = Some t ∧ t ≤ sql_clock ck.

Definition command_of (r : JobRow) : option JobCommand :=
  match into_job r with Ok j => Some (jb_command j) | Err _ => None end.

(** The upload a storage job stands for is in progress elsewhere. *)
Definition upload_in_progress ck db (r : JobRow) : Prop :=
  ∃ p m, command_of r = Some (UploadStorageAsset p) ∧ db_media db !! media_job_id p = Some m
    ∧ upload_fresh m (app_now ck) = true.

Lemma commands_have_same_owner_refl c : commands_have_same_owner c c = true.
Proof. destruct c; simpl; rewrite ?N.eqb_refl, ?Z.eqb_refl; done. Qed.

Lemma lock_expired_job_found id ck db r :
  db_jobs db !! id = Some r → expired_at ck r → lock_expired_job id ck db = Ok (Some r, db).
Proof.
  intros Hr (Hs & t & Ht & Hle). unfold lock_expired_job, mbind, txn_bind, get_clock. simpl.
  unfold mret, txn_ret. rewrite Hr. simpl. rewrite bool_decide_true, Ht by done.
  by rewrite (proj2 (Z.leb_le _ _)).
Qed.

Lemma validate_own_command r j :
  into_job r = Ok j → validate_locked_command r (jb_command j) = Ok (jb_command j).
Proof.
  intros Hj. unfold validate_locked_command. rewrite Hj. simpl.
  by rewrite commands_have_same_owner_refl.
Qed.

Lemma update_locked_job_total id u ck db r :
  db_jobs db !! id = Some r → job_state r = JobStatus.Running →
  ∃ row db', update_locked_job id u ck db = Ok (row, db').
Proof. intros. eexists _, _. apply update_locked_job_ok. eauto. Qed.

(** *** The domain parts always succeed

    [fresh] is the only job identifier a recovery may add, no post moves by more
    than one revision (room for one is all a recovery needs), and no upload
    becomes fresh. *)
Record growth (fresh : Uuid) db db' : Prop := {
  gr_jobs : ∀ i, db_jobs db !! i = None → i ≠ fresh → db_jobs db' !! i = None;
  gr_posts : ∀ i r', db_posts db' !! i = Some r' →
    ∃ r, db_posts db !! i = Some r ∧ post_revision r' ≤ post_revision r + 1;
  gr_media : ∀ i m' now, db_media db' !! i = Some m' → upload_fresh m' now = true →
    ∃ m, db_media db !! i = Some m ∧ upload_fresh m now = true;
}.

Definition revisions_below (n : Z) db : Prop :=
  ∀ i r, db_posts db !! i = Some r → post_revision r + n ≤ i64_max.

Lemma growth_same fresh db db' :
  db_jobs db' = db_jobs db → db_posts db' = db_posts db → db_media db' = db_media db →
  growth fresh db db'.
Proof.
  intros Hj Hp Hm. split; rewrite ?Hj, ?Hp, ?Hm; [done| |by eauto].
  intros i r Hr. exists r. split; [done|lia].
Qed.

Lemma growth_write_job fresh db db1 j :
  growth fresh db db1 → is_Some (db_jobs db !! job_id j) →
  growth fresh db (db1 <| db_jobs := <[job_id j := j]> (db_jobs db1) |>).
Proof.
  intros [Hj Hp Hm] [x Hx]. split; simpl; [|done..]. intros i Hi Hne.
  rewrite lookup_insert_ne by congruence. auto.
Qed.

Lemma growth_revisions fresh n db db' :
  growth fresh db db' → revisions_below (n + 1) db → revisions_below n db'.
Proof. intros [_ Hp _] Hb i r' Hr. destruct (Hp _ _ Hr) as (r & Hr0 & ?). specialize (Hb _ _ Hr0). lia. Qed.

Lemma update_ingests_where_total {E} guard set ck db :
  ∃ db', (update_ingests_where guard set : txn Db E unit) ck db = Ok (tt, db')
    ∧ db_jobs db' = db_jobs db ∧ db_posts db' = db_posts db ∧ db_media db' = db_media db.
Proof. eexists. split; [reflexivity|done]. Qed.

Lemma fail_ingest_for_job_total fresh id ck db :
  db_jobs db !! fresh = None →
  ∃ db', fail_ingest_for_job fresh id ck db = Ok (tt, db') ∧ growth fresh db db'.
Proof.
  intros Hf. unfold fail_ingest_for_job, mbind, txn_bind, get_clock.
  edestruct @update_ingests_where_total as (db1 & -> & Hj & Hp & Hm). simpl.
  destruct (db_ingests db1 !! id); simpl; [|eexists; split; [done|by apply growth_same]].
  unfold enqueue_workspace_cleanup, insert_job_if_absent, mbind, txn_bind, get_clock, get_state.
  destruct (dedupe_taken _ _); simpl; [eexists; split; [done|by apply growth_same]|].
  rewrite Hj, Hf. simpl. eexists. split; [done|]. split; simpl.
  - intros k Hk Hne. by rewrite Hj, lookup_insert_ne.
  - rewrite Hp. intros k r Hr. exists r. split; [done|lia].
  - rewrite Hm. eauto.
Qed.

Lemma update_post_where_total {E} (inj : SqlError → E) fresh id guard set ck db :
  db_wf db → revisions_below 1 db →
  (∀ r, post_id (set r) = post_id r ∧ post_revision (set r) = post_revision r) →
  ∃ o db', update_post_where inj id guard (λ r, bump_revision (set r)) ck db = Ok (o, db')
    ∧ growth fresh db db'.
Proof.
  intros Hwf Hb Hset. unfold update_post_where, mbind, txn_bind. simpl.
  destruct (db_posts db !! id) as [r|] eqn:Hr; simpl; [|by eexists _, _; split; [|apply growth_same]].
  destruct (guard r); simpl; [|by eexists _, _; split; [|apply growth_same]].
  destruct (Hset r) as [Hid Hrev]. unfold bump_revision.
  rewrite (proj2 (Z.leb_le _ _)) by (rewrite Hrev; apply (Hb _ _ Hr)). simpl.
  eexists _, _. split; [done|]. split; simpl; [done| |by eauto].
  rewrite Hid, (wf_post_key _ Hwf _ _ Hr). intros i r' [[<- <-]|[_ Hr']]%lookup_insert_Some.
  - exists r. simpl. split; [done|lia].
  - exists r'. split; [done|lia].
Qed.

Lemma settle_terminal_post_total fresh id r e cls m ck db :
  db_wf db → revisions_below 1 db →
  ∃ db', settle_terminal_publication_post id r e cls m ck db = Ok (tt, db') ∧ growth fresh db db'.
Proof.
  intros Hwf Hb. unfold settle_terminal_publication_post, mbind, txn_bind, get_clock.
  assert (∃ db', (Ok (tt, db) : result JobRepositoryError _) = Ok (tt, db') ∧ growth fresh db db') as Hsame.
  { eexists. split; [done|by apply growth_same]. }
  destruct (post_state r); try exact Hsame; [case_match; [|exact Hsame]|];
    edestruct (update_post_where_total JobDatabase fresh) as (o & db' & -> & Hg); eauto; done.
Qed.

Lemma update_media_where_total {E} (inj : SqlError → E) fresh id guard set ck db :
  db_wf db → (∀ r, media_check r = true → media_check (set r) = true) →
  (∀ r now, media_id (set r) = media_id r
     ∧ (upload_fresh (set r) now = true → upload_fresh r now = true)) →
  ∃ o db', update_media_where inj id guard set ck db = Ok (o, db') ∧ growth fresh db db'.
Proof.
  intros Hwf Hset Hup. unfold update_media_where, mbind, txn_bind. simpl.
  destruct (db_media db !! id) as [r|] eqn:Hr; simpl; [|by eexists _, _; split; [|apply growth_same]].
  destruct (guard r); simpl; [|by eexists _, _; split; [|apply growth_same]].
  rewrite Hset by (by eapply wf_media_check). simpl. eexists _, _. split; [done|].
  split; simpl; [done|intros i x Hx; exists x; split; [done|lia]|].
  intros i m' now [[<- <-]|[_ Hm]]%lookup_insert_Some Hf; [|by eauto].
  exists r. destruct (Hup r now) as [-> Hfr]. rewrite (wf_media_key _ Hwf _ _ Hr). auto.
Qed.

Lemma growth_then_same fresh db db1 db' :
  growth fresh db db1 → db_jobs db' = db_jobs db1 → db_posts db' = db_posts db1 →
  db_media db' = db_media db1 → growth fresh db db'.
Proof. intros [? ? ?] Hj Hp Hm. split; by rewrite ?Hj, ?Hp, ?Hm. Qed.

Lemma settle_caption_total fresh id g st e ck db :
  db_wf db → ∃ db', settle_caption id g st e ck db = Ok (tt, db') ∧ growth fresh db db'.
Proof.
  intros Hwf. unfold settle_caption. unfold mbind at 1 2, txn_bind, get_clock.
  edestruct (update_media_where_total JobDatabase fresh) as (o & db' & -> & Hg); [done| | |eauto].
  - intros r Hr. exact Hr.
  - intros r now. split; [done|]. intros Hr. exact Hr.
Qed.

Lemma fail_storage_total fresh id msg ck db :
  db_wf db → ∃ db', fail_storage id msg ck db = Ok (tt, db') ∧ growth fresh db db'.
Proof.
  intros Hwf. unfold fail_storage. unfold mbind, txn_bind, get_clock.
  edestruct (update_media_where_total JobDatabase fresh) as (o & db1 & -> & Hg); [done| | |].
  - intros r Hr. unfold media_check in *; simpl. bool_norm. by rewrite !andb_true_iff, !Z.leb_le.
  - intros r now. done.
  - edestruct @update_ingests_where_total as (db' & -> & Hj' & Hp' & Hm').
    eexists. split; [done|]. by eapply growth_then_same.
Qed.

(** ** Progress of a recovery *)

Definition recovered (fresh : Uuid) (r : JobRow) ck db (m : txn Db JobRepositoryError bool) : Prop :=
  ∃ st db', m ck db = Ok (true, db') ∧ job_settled (job_id r) (command_of r) st db db'
    ∧ growth fresh db db'.

Lemma update_locked_job_recovers fresh r o u ck db db1 :
  db_wf db → db_jobs db !! job_id r = Some r → job_state r = JobStatus.Running →
  jobs_grow db db1 → db_wf db1 →
  (∀ c, o = Some c → qu_terminal u = true → owner_settled c db1) →
  growth fresh db db1 → stopping u →
  ∃ row db', update_locked_job (job_id r) u ck db1 = Ok (row, db')
    ∧ job_settled (job_id r) o (qu_state u) db db' ∧ growth fresh db db'.
Proof.
  intros Hwf Hr Hs Hsub Hwf1 Ho Hg Hu.
  destruct (update_locked_job_total (job_id r) u ck db1 r) as (row & db' & Hup);
    [by eapply lookup_weaken; [|apply Hsub]|done|].
  exists row, db'. split; [done|].
  destruct (update_locked_job_settled _ o _ _ _ _ _ _ _ Hwf Hr Hsub Hwf1 Ho Hu Hup) as [_ Hset].
  split; [done|]. apply update_locked_job_ok in Hup as (r1 & Hr1 & _ & Hrow & ->).
  assert (r1 = r) as -> by (destruct Hsub as [Hsub _]; apply (lookup_weaken _ _ _ _ Hr) in Hsub; congruence).
  apply growth_write_job; [done|]. rewrite Hrow. by exists r.
Qed.

Lemma select_job_run {E} i ck db :
  (select_job i : txn Db E _) ck db = Ok (db_jobs db !! i, db).
Proof. done. Qed.
Lemma select_ingest_run {E} i ck db :
  (select_ingest i : txn Db E _) ck db = Ok (db_ingests db !! i, db).
Proof. done. Qed.
Lemma select_media_run {E} i ck db :
  (select_media i : txn Db E _) ck db = Ok (db_media db !! i, db).
Proof. done. Qed.
Lemma lock_publication_post_run i ck db :
  lock_publication_post i ck db = Ok (db_posts db !! i, db).
Proof.
  unfold lock_publication_post, mbind, txn_bind. simpl.
  destruct (db_posts db !! i) eqn:Hi; [|done]. by apply select_post_ok.
Qed.

Ltac recovery_side :=
  first [ done | by apply growth_same | by apply jobs_grow_eq | apply recovery_update_stopping
        | apply storage_recovery_update_stopping | congruence | naive_solver ].

(** The row of a finished upload also loses its error columns. *)
Lemma clear_job_error_settled fresh ck id o st db1 db2 :
  job_settled id o st db1 db2 → growth fresh db1 db2 →
  ∃ db3, clear_job_error id ck db2 = Ok (tt, db3) ∧ job_settled id o st db1 db3
    ∧ growth fresh db1 db3.
Proof.
  intros [Hb (x & Hx & Hst) Hstop Hoth Hnew Hwf2 Ho] Hg.
  pose proof (wf_job_key _ Hwf2 _ _ Hx) as Hid.
  assert (clear_job_error id ck db2
    = Ok (tt, db2 <| db_jobs := <[id := without_error x]> (db_jobs db2) |>)) as Hcl.
  { unfold clear_job_error, mbind, txn_bind. rewrite select_job_run, Hx.
    unfold write_job, mbind, txn_bind, get_state, put_state. simpl. by rewrite Hid. }
  eexists. split; [exact Hcl|]. split.
  - pose proof (se_wf _ _ (clear_job_error_side _ _ _ _ _ Hcl) Hwf2) as Hwf3.
    constructor; simpl; auto.
    + exists (without_error x). by rewrite lookup_insert_eq.
    + intros k y Hk Hy. rewrite lookup_insert_ne by done. auto.
    + destruct Hb as (y & Hy & _). intros k z Hk. rewrite lookup_insert_ne by congruence. by apply Hnew.
  - destruct Hb as (y & Hy & _).
    apply (growth_write_job fresh db1 db2 (without_error x)) in Hg; [by rewrite <-Hid|].
    simpl. rewrite Hid. eauto.
Qed.

Section Progress.
Context (fresh : Uuid) (r : JobRow) (ck : Clock) (db : Db).
Context (Hwf : db_wf db) (Hr : db_jobs db !! job_id r = Some r) (Hexp : expired_at ck r).
Context (Hrun : job_state r = JobStatus.Running).
Context (Hfresh : db_jobs db !! fresh = None) (Hrev : revisions_below 1 db).

Lemma recover_untyped_progress :
  command_of r = None → recovered fresh r ck db (recover_queue_only_untyped_txn (job_id r)).
Proof.
  intros Hc. unfold recovered, recover_queue_only_untyped_txn, mbind, txn_bind.
  rewrite (lock_expired_job_found _ _ _ _ Hr Hexp). unfold get_clock.
  destruct (update_locked_job_recovers fresh r (command_of r) (recovery_update r (app_now ck)) ck
    db db) as (row & db' & -> & Hs & Hg); [recovery_side..|].
  by eexists _, _.
Qed.

Context (j : Job) (Hj : into_job r = Ok j).

Lemma command_of_decoded : command_of r = Some (jb_command j).
Proof. unfold command_of. by rewrite Hj. Qed.

Lemma recover_queue_progress :
  owner_settled (jb_command j) db →
  ∃ st row db', recover_queue_only_in_transaction (job_id r) (jb_command j) ck db = Ok (Some row, db')
    ∧ job_settled (job_id r) (command_of r) st db db' ∧ growth fresh db db'.
Proof.
  intros Hc. unfold recover_queue_only_in_transaction, mbind, txn_bind.
  rewrite (lock_expired_job_found _ _ _ _ Hr Hexp), (validate_own_command _ _ Hj).
  unfold get_clock, lift. rewrite command_of_decoded.
  destruct (update_locked_job_recovers fresh r (Some (jb_command j))
    (recovery_update r (app_now ck)) ck db db) as (row & db' & -> & Hs & Hg); [recovery_side..|].
  by eexists _, _, _.
Qed.

Lemma recover_ingest_progress i :
  stage_ingest_id (jb_command j) = Ok i →
  recovered fresh r ck db (recover_ingest_job fresh (job_id r) (jb_command j)).
Proof.
  intros Hi. unfold recovered, recover_ingest_job, mbind, txn_bind, lift. rewrite Hi, select_ingest_run.
  rewrite (lock_expired_job_found _ _ _ _ Hr Hexp), (validate_own_command _ _ Hj), Hi.
  unfold get_clock. set (u := recovery_update r (app_now ck)).
  assert (∃ db1, (if qu_terminal u then fail_ingest_for_job fresh i else mret tt) ck db
            = Ok (tt, db1) ∧ domain_part (qu_terminal u) (jb_command j) db db1
            ∧ growth fresh db db1) as (db1 & -> & [Hsub Hw Ho] & Hg).
  { destruct (qu_terminal u).
    - destruct (fail_ingest_for_job_total fresh i ck db Hfresh) as (db1 & Hdb1 & Hg).
      exists db1. split_and!; [done|by eapply fail_ingest_for_job_part|done].
    - exists db. split_and!; [done|by apply domain_part_refl|by apply growth_same]. }
  rewrite command_of_decoded.
  destruct (update_locked_job_recovers fresh r (Some (jb_command j)) u ck db db1)
    as (row & db' & -> & Hs & Hg'); [recovery_side..|].
  by eexists _, _.
Qed.

Lemma recover_publish_progress p :
  jb_command j = PublishPost p →
  recovered fresh r ck db (recover_publish_job (job_id r) (jb_command j)).
Proof.
  intros Hc. pose proof (validate_own_command _ _ Hj) as Hv. rewrite Hc in *.
  unfold recovered, recover_publish_job, mbind, txn_bind, lift, publish_command.
  rewrite lock_publication_post_run, (lock_expired_job_found _ _ _ _ Hr Hexp), Hv.
  unfold get_clock. set (u := recovery_update r (app_now ck)).
  match goal with |- context [match ?m with Ok _ => _ | Err _ => _ end] => set (part := m) end.
  assert (∃ db1, part = Ok (tt, db1) ∧ domain_part (qu_terminal u) (PublishPost p) db db1
            ∧ growth fresh db db1) as (db1 & -> & [Hsub Hw Ho] & Hg).
  { assert (domain_part false (PublishPost p) db db) as Hrefl by (by apply domain_part_refl).
    subst part. destruct (db_posts db !! publish_post_id p) as [post|] eqn:Hpost.
    - destruct (qu_terminal u); [|by exists db; split_and!; [|..|apply growth_same]].
      destruct (bool_decide _);
        edestruct (settle_terminal_post_total fresh) as (db1 & Hdb1 & Hg); [done..| | | |];
        try done; exists db1; split_and!; eauto using settle_terminal_post_part.
    - exists db. split_and!; [done| |by apply growth_same].
      apply domain_part_refl. intros _ x Hx. congruence. }
  rewrite command_of_decoded, Hc.
  destruct (update_locked_job_recovers fresh r (Some (PublishPost p)) u ck db db1)
    as (row & db' & -> & Hs & Hg'); [recovery_side..|].
  by eexists _, _.
Qed.

Lemma recover_caption_progress p :
  jb_command j = SyncStorageCaption p →
  recovered fresh r ck db (recover_caption_job (job_id r) (jb_command j)).
Proof.
  intros Hc. pose proof (validate_own_command _ _ Hj) as Hv. rewrite Hc in *.
  unfold recovered, recover_caption_job, mbind, txn_bind, lift, caption_command.
  rewrite select_media_run, (lock_expired_job_found _ _ _ _ Hr Hexp), Hv.
  unfold get_clock. set (u := recovery_update r (app_now ck)).
  edestruct (settle_caption_total fresh) as (db1 & Hdb1 & Hg); [done|]. rewrite Hdb1.
  apply (settle_caption_part p (qu_terminal u)) in Hdb1 as [Hsub Hw Ho]; [|done|by case_match].
  rewrite command_of_decoded, Hc.
  destruct (update_locked_job_recovers fresh r (Some (SyncStorageCaption p)) u ck db db1)
    as (row & db' & -> & Hs & Hg'); [recovery_side..|].
  by eexists _, _.
Qed.

Lemma storage_recovery_ready m :
  qu_state (storage_recovery_update r m (app_now ck)) = JobStatus.Succeeded →
  media_storage_state m = MediaStorageState.Ready.
Proof.
  unfold storage_recovery_update, storage_in. case_bool_decide; [done|].
  simpl. by destruct (_ && _).
Qed.

Lemma storage_recovery_not_cancelled m :
  qu_state (storage_recovery_update r m (app_now ck)) ≠ JobStatus.Cancelled.
Proof. unfold storage_recovery_update. by destruct (storage_in _ m); [|destruct (_ && _)]. Qed.

Lemma recover_storage_progress p :
  jb_command j = UploadStorageAsset p →
  (recover_storage_job (job_id r) (jb_command j) ck db = Ok (false, db)
   ∧ upload_in_progress ck db r)
  ∨ recovered fresh r ck db (recover_storage_job (job_id r) (jb_command j)).
Proof.
  intros Hc. pose proof (validate_own_command _ _ Hj) as Hv. rewrite Hc in *.
  unfold recovered, recover_storage_job, mbind, txn_bind, lift, upload_command.
  rewrite select_media_run, (lock_expired_job_found _ _ _ _ Hr Hexp), Hv.
  unfold get_clock. rewrite select_media_run, command_of_decoded, Hc.
  destruct (db_media db !! media_job_id p) as [m|] eqn:Hm.
  - destruct (upload_fresh m (app_now ck)) eqn:Hf.
    { left. split; [done|]. exists p, m. by rewrite command_of_decoded, Hc. }
    right. pose proof (storage_recovery_update_stopping r m (app_now ck)) as Hstop.
    pose proof (storage_recovery_ready m) as Hready.
    pose proof (storage_recovery_not_cancelled m) as Hcan.
    set (u := storage_recovery_update r m (app_now ck)) in *.
    match goal with |- context [match ?m ck db with Ok _ => _ | Err _ => _ end] =>
      set (part := m) end.
    assert (∃ db1, part ck db = Ok (tt, db1) ∧ growth fresh db db1 ∧ jobs_grow db db1
              ∧ db_wf db1 ∧ (qu_terminal u = true → owner_settled (UploadStorageAsset p) db1))
      as (db1 & -> & Hg & Hsub & Hw & Ho).
    { subst part. destruct (qu_state u) eqn:Hu.
      - exists db. split_and!; try done; [by apply growth_same|by apply jobs_grow_eq|].
        by rewrite (st_queued _ Hstop Hu).
      - by destruct (st_stops _ Hstop).
      - edestruct @update_ingests_where_total as (db1 & Hdb1 & ? & ? & ?). exists db1.
        split; [exact Hdb1|]. split; [by apply growth_same|].
        eapply update_ingests_where_part in Hdb1 as [? ? ?]; [by split_and!; auto|done|].
        intros x Hx. rewrite Hm in Hx. simplify_eq. by rewrite Hready.
      - destruct (fail_storage_total fresh (media_job_id p) storage_recovery_message ck db Hwf)
          as (db1 & Hdb1 & Hg).
        exists db1. split; [exact Hdb1|]. apply fail_storage_part in Hdb1 as [? ? ?]; auto.
      - done. }
    destruct (update_locked_job_recovers fresh r (Some (UploadStorageAsset p)) u ck db db1)
      as (row & db' & -> & Hs & Hg'); [recovery_side..|].
    case_bool_decide.
    + eapply clear_job_error_settled in Hg' as (db3 & -> & Hs3 & Hg3); [|exact Hs].
      by eexists _, _.
    + by eexists _, _.
  - right. destruct (update_locked_job_recovers fresh r (Some (UploadStorageAsset p))
      (missing_media_update r) ck db db) as (row & db' & -> & Hs & Hg); [try recovery_side..|].
    + by eexists _, _.
Qed.

End Progress.

Lemma recover_one_progress fresh r ck db :
  db_wf db → db_jobs db !! job_id r = Some r → expired_at ck r →
  db_jobs db !! fresh = None → revisions_below 1 db →
  (recover_one fresh r ck db = Ok (false, db) ∧ upload_in_progress ck db r)
  ∨ recovered fresh r ck db (recover_one fresh r).
Proof.
  intros Hwf Hr Hexp Hf Hb. pose proof (proj1 Hexp) as Hrun. unfold recovered, recover_one.
  destruct (into_job r) as [j|e] eqn:Hj.
  - unfold family_recovery. destruct (jb_command j) eqn:Hc; rewrite <-Hc;
      eauto using recover_storage_progress; right;
      first [ eapply recover_ingest_progress; eauto; by rewrite Hc
            | by eapply recover_publish_progress | by eapply recover_caption_progress | idtac ].
    all: destruct (recover_queue_progress fresh r ck db Hwf Hr Hexp Hrun j Hj)
      as (st & row & db' & Hq & Hs & Hg); [by rewrite Hc|]; exists st, db'; split_and!; try done.
    + unfold recover_materialize_job, mbind, txn_bind, lift. rewrite Hc at 1. simpl.
      by rewrite Hq.
    + unfold recover_cleanup_job, mbind, txn_bind, fail_if. rewrite Hc at 1. simpl.
      by rewrite Hq.
  - right. apply recover_untyped_progress; auto. unfold command_of. by rewrite Hj.
Qed.
End Owners.
