(* ===== verification/RecoverySpec.v ===== *)
(** * RecoverySpec: the dispatcher's promises

    What [settle_lease] may do under a lease, and that a recovery pass over the
    expired leases makes progress on every one of them. *)

From S2P Require Import Prelude Enums Jobs Db Queue Instances QueueSpec Cleanup Library LibraryRepo.
From S2P Require Import LibraryStorage LibraryInv LibrarySpec Publisher PublisherRepo PublisherOps.
From S2P Require Import PublisherSend PublisherDemo PublisherInv PublisherSpec Settlement SettlementSpec.

Section Pass.
Context {J : Json} {P : PayloadSerde}.
Implicit Types (db : Db) (ck : Clock).

Lemma stale_candidates_elem db now r :
  r ∈ stale_candidates db now ↔
    ∃ i, db_jobs db !! i = Some r ∧ job_state r = JobStatus.Running
      ∧ ∃ t, job_lease_expires_at r = Some t ∧ t ≤ now.
Proof.
  unfold stale_candidates. rewrite elem_of_order_by, elem_of_select_rows.
  setoid_rewrite andb_true_iff. setoid_rewrite bool_decide_eq_true.
  split; intros (i & Hi & Hs & Ht); exists i; split_and!; try done.
  - destruct (job_lease_expires_at r) as [t|]; [|done]. apply Z.leb_le in Ht. eauto.
  - destruct Ht as (t & -> & Ht). by apply Z.leb_le.
Qed.

(** Membership is decided by the row's own columns. *)
Lemma stale_candidates_dec db now r i :
  db_jobs db !! i = Some r → r ∈ stale_candidates db now ∨ r ∉ stale_candidates db now.
Proof.
  intros Hr. rewrite stale_candidates_elem.
  destruct (decide (job_state r = JobStatus.Running)) as [Hs|Hs]; [|right; naive_solver].
  destruct (job_lease_expires_at r) as [t|] eqn:Ht; [|right; naive_solver].
  destruct (decide (t ≤ now)); [left; naive_solver|right; naive_solver lia].
Qed.

Lemma select_rows_nodup {A} (p : A → bool) (m : gmap Uuid A) (key : A → Uuid) :
  (∀ i r, m !! i = Some r → key r = i) → NoDup (key <$> select_rows p m).
Proof.
  intros Hk. unfold select_rows. rewrite <-list_fmap_compose.
  assert (NoDup (filter (λ kr : Uuid * A, p kr.2 = true) (map_to_list m)).*1) as Hn.
  { eapply sublist_NoDup; [apply (NoDup_fst_map_to_list m)|].
    apply fmap_sublist, sublist_filter. }
  erewrite (list_fmap_ext _ fst); [exact Hn|].
  intros n [i r] Hin. simpl. apply Hk, elem_of_map_to_list.
  apply list_elem_of_lookup_2, list_elem_of_filter in Hin. apply Hin.
Qed.

Lemma stale_candidates_nodup db now :
  db_wf db → NoDup (job_id <$> stale_candidates db now).
Proof.
  intros Hwf. unfold stale_candidates. rewrite order_by_perm.
  apply select_rows_nodup, wf_job_key. done.
Qed.

(** What is known of a candidate after the pass. *)
Definition released ck db db' (c : JobRow) : Prop :=
  (∃ r, db_jobs db' !! job_id c = Some r ∧ job_state r ≠ JobStatus.Running)
  ∨ (db_jobs db' !! job_id c = Some c ∧ upload_in_progress ck db c).

Lemma upload_in_progress_before fresh ck db db1 r :
  growth fresh db db1 → upload_in_progress ck db1 r → upload_in_progress ck db r.
Proof.
  intros Hg (p & m & Hc & Hm & Hf). destruct (gr_media _ _ _ Hg _ _ _ Hm Hf) as (m0 & ? & ?).
  exists p, m0. done.
Qed.

Section Loop.
Context (gen : Uuid → Uuid) (tick : nat → Clock).

(** The rows the rest of the pass relies on. *)
Record pass_ready (l : list JobRow) db : Prop := {
  pr_wf : db_wf db;
  pr_rows : ∀ c, c ∈ l → db_jobs db !! job_id c = Some c;
  pr_fresh : ∀ c, c ∈ l → db_jobs db !! gen (job_id c) = None;
  pr_room : revisions_below (Z.of_nat (length l)) db;
}.

Lemma pass_ready_step c l st db db1 :
  pass_ready (c :: l) db → NoDup (job_id <$> c :: l) → NoDup (gen <$> (job_id <$> c :: l)) →
  job_settled (job_id c) (command_of c) st db db1 → growth (gen (job_id c)) db db1 →
  pass_ready l db1.
Proof.
  intros [Hwf Hrows Hfr Hroom] [Hc _]%NoDup_cons [Hgc _]%NoDup_cons Hset Hg.
  split; [apply Hset|..].
  - intros x Hx. eapply js_others; [done| |by apply Hrows; right].
    intros Heq. apply Hc. rewrite <-Heq. by apply list_elem_of_fmap_2.
  - intros x Hx. apply (gr_jobs _ _ _ Hg); [by apply Hfr; right|].
    intros Heq. apply Hgc. rewrite <-Heq. by apply list_elem_of_fmap_2, list_elem_of_fmap_2.
  - eapply growth_revisions; [done|]. simpl in Hroom. intros i r Hr. specialize (Hroom i r Hr). lia.
Qed.

Lemma recover_each_progress l n db :
  pass_ready l db → NoDup (job_id <$> l) → NoDup (gen <$> (job_id <$> l)) →
  (∀ c k, c ∈ l → expired_at (tick k) c) →
  ∃ n' db', recover_each gen tick l n db = (Ok n', db') ∧ db_wf db' ∧ n ≤ n'
    ∧ (∀ c, c ∈ l → ∃ k, released (tick k) db db' c)
    ∧ (∀ i r, db_jobs db !! i = Some r → i ∉ job_id <$> l → db_jobs db' !! i = Some r).
Proof.
  revert n db. induction l as [|c l IH]; intros n db [Hwf Hrows Hfr Hroom] Hnd Hng Hexp; simpl.
  { exists n, db. split_and!; try done. intros c []%elem_of_nil. }
  inversion Hnd as [|? ? Hc Hnd']; inversion Hng as [|? ? Hgc Hng']; subst.
  assert (c ∈ c :: l) as Hin by left.
  assert (revisions_below 1 db) as Hone.
  { intros i r Hr. specialize (Hroom i r Hr). simpl in Hroom. lia. }
  unfold run_txn.
  destruct (recover_one_progress (gen (job_id c)) c (tick (length l)) db)
    as [[-> Hup]|(st & db1 & -> & Hset & Hg)]; auto.
  - destruct (IH n db) as (n' & db' & -> & Hwf' & Hn & Hrel & Hframe);
      [|done|done|by intros x k Hx; apply Hexp; right|].
    { split; [done|set_solver..|]. intros i r Hr. specialize (Hroom i r Hr). simpl in Hroom. lia. }
    exists n', db'. split_and!; try done.
    + intros x [->|Hx]%elem_of_cons; [|by auto]. exists (length l). right. split; [|done].
      apply Hframe; [by apply Hrows|]. done.
    + intros i r Hi Hni. apply Hframe; set_solver.
  - destruct (IH (n + 1) db1) as (n' & db' & -> & Hwf' & Hn & Hrel & Hframe);
      [|done|done|by intros x k Hx; apply Hexp; right|].
    { by eapply pass_ready_step. }
    exists n', db'. split_and!; try done; [lia| |].
    + intros x [->|Hx]%elem_of_cons.
      * exists 0%nat. left. destruct (js_after _ _ _ _ _ Hset) as (r & Hr & <-).
        exists r. split; [by apply Hframe|by apply Hset].
      * destruct (Hrel x Hx) as (k & [?|[? ?]]); exists k; [by left|right].
        eauto using upload_in_progress_before.
    + intros i r Hi Hni. apply Hframe; [|set_solver]. eapply js_others; eauto. set_solver.
Qed.
End Loop.

(** ** The promises *)

Lemma into_job_settled r j u now :
  into_job r = Ok j → ∃ j', into_job (settled_job u now r) = Ok j'.
Proof.
  unfold into_job, settled_job. simpl. destruct (from_payload _ _); simpl; [|done]. eauto.
Qed.

Lemma settle_cases fresh c l s ck db :
  db_wf db →
  ((settle fresh c l s ck db).2 = db
   ∧ ((∃ e, (settle fresh c l s ck db).1 = Err e)
      ∨ allows_expired_lease s = true
        ∧ (settle fresh c l s ck db).1 = load_already_requeued db l s c))
  ∨ ∃ row r j, settled_under l c s ck db row (settle fresh c l s ck db).2 r j
      ∧ (settle fresh c l s ck db).1 = into_job row.
Proof.
  intros Hwf. unfold settle, commit_then, run_txn.
  destruct (family_settlement fresh c l s ck db) as [[row db']|e] eqn:Hf; simpl.
  - right. destruct (family_settlement_under _ _ _ _ _ _ _ _ Hf Hwf) as (r & j & Hu).
    exists row, r, j.
    assert (∃ j', into_job row = Ok j') as [j' Hj'].
    { rewrite (su_result _ _ _ _ _ _ _ _ _ Hu). eapply into_job_settled, su_decoded, Hu. }
    by rewrite Hj'.
  - left. destruct e; simpl; eauto. destruct (allows_expired_lease s); simpl; eauto.
Qed.

(** C23: settlement is fenced and settles the owner.  Whatever the job family,
    [settle_lease] either leaves the database alone and answers an error (or,
    for a settlement that tolerates an expired lease, the row that was already
    put back in the queue), or it found the job running under exactly this
    lease and attempt, moved exactly that row as the settlement says, kept every
    other job, and, when the job failed for good, its ingest, upload, caption or
    post no longer waits for it. *)
Theorem settlement_is_fenced fresh job l s ck db :
  db_wf db →
  ((settle_lease fresh job l s ck db).2 = db
   ∧ ((∃ e, (settle_lease fresh job l s ck db).1 = Err e)
      ∨ allows_expired_lease s = true
        ∧ (settle_lease fresh job l s ck db).1
          = load_already_requeued db l s (jb_command job)))
  ∨ ∃ row r j, settled_under l (jb_command job) s ck db row (settle_lease fresh job l s ck db).2 r j
      ∧ (settle_lease fresh job l s ck db).1 = into_job row.
Proof.
  intros Hwf. unfold settle_lease. destruct (negb _); [left; simpl; eauto|]. by apply settle_cases.
Qed.

(** C24: a recovery pass frees every expired lease.  When the identifiers drawn
    for cleanup jobs are new, every post has room for the revisions of the pass
    and the clock does not run backwards, the pass succeeds; afterwards each job
    whose lease had expired is no longer running, unless it is an upload whose
    reservation was renewed within the last minute, which keeps its row; and
    every other job row is what it was. *)
Theorem recovery_frees_expired_leases gen tick ck db :
  db_wf db → (∀ k, sql_clock ck ≤ sql_clock (tick k)) → Inj (=) (=) gen →
  (∀ i, is_Some (db_jobs db !! i) → db_jobs db !! gen i = None) →
  revisions_below (Z.of_nat (length (stale_candidates db (sql_clock ck)))) db →
  ∃ n db', recover_stale gen tick ck db = (Ok n, db') ∧ db_wf db'
    ∧ ∀ i r, db_jobs db !! i = Some r →
        (expired_at ck r ∧ ∃ k, released (tick k) db db' r)
        ∨ (¬ expired_at ck r ∧ db_jobs db' !! i = Some r).
Proof.
  intros Hwf Hmono Hinj Hgen Hroom. unfold recover_stale.
  set (l := stale_candidates db (sql_clock ck)) in *.
  assert (∀ c, c ∈ l → db_jobs db !! job_id c = Some c ∧ expired_at ck c) as Hl.
  { intros c (i & Hi & He)%stale_candidates_elem. by rewrite (wf_job_key _ Hwf _ _ Hi). }
  destruct (recover_each_progress gen tick l 0 db) as (n & db' & -> & Hwf' & _ & Hrel & Hframe).
  - split; [done|apply Hl| |done]. intros c Hc. apply Hgen. exists c. by apply Hl.
  - by apply stale_candidates_nodup.
  - apply NoDup_fmap_2; [done|]. by apply stale_candidates_nodup.
  - intros c k Hc. apply Hl in Hc as (_ & Hs & t & Ht & Hle). split; [done|].
    exists t. split; [done|]. specialize (Hmono k). lia.
  - exists n, db'. split_and!; try done. intros i r Hr.
    destruct (stale_candidates_dec db (sql_clock ck) r i Hr) as [Hin|Hout].
    + left. split; [by apply Hl|by apply Hrel].
    + right. assert (¬ expired_at ck r) as He
        by (intros ?; apply Hout, stale_candidates_elem; eauto).
      split; [done|]. apply Hframe; [done|].
      intros (c & Hc & Hin)%list_elem_of_fmap. destruct (Hl _ Hin) as [Hcl _].
      apply Hout. rewrite <-Hc, Hr in Hcl. by injection Hcl as ->.
Qed.
End Pass.

(** ** The promises at a concrete queue *)

(** Worker A fails the publication of post 3 for good while it is sending. *)
Definition demo_job_taken : Job :=
  match into_job (default demo_running (db_jobs demo_sending !! 4%N)) with
  | Ok j => j
  | Err _ => {| jb_id := 0; jb_command := InspectSource {| inspect_ingest_id := 0 |};
                jb_status := JobStatus.Queued; jb_priority := 0; jb_run_at := 0;
                jb_attempt_count := 0; jb_max_attempts := 0; jb_lease_token := None;
                jb_lease_owner := None; jb_lease_expires_at := None;
                jb_last_heartbeat_at := None; jb_last_error_class := None;
                jb_last_error_message := None; jb_dedupe_key := None; jb_created_at := 0;
                jb_updated_at := 0; jb_completed_at := None |}
  end.
Definition demo_failed : result JobRepositoryError Job * Db :=
  settle_lease 200 demo_job_taken demo_attempt (Fail_ (lit "telegram") (lit "chat not found"))
    (demo_clock (9 * hour + 1)) demo_sending.

Lemma settlement_is_fenced_witness :
  ∃ row r j, settled_under demo_attempt (jb_command demo_job_taken)
    (Fail_ (lit "telegram") (lit "chat not found")) (demo_clock (9 * hour + 1)) demo_sending
    row demo_failed.2 r j
  ∧ post_state (post_at demo_failed.2 3) = PostState.Unknown.
Proof.
  destruct (settlement_is_fenced 200 demo_job_taken demo_attempt
    (Fail_ (lit "telegram") (lit "chat not found")) (demo_clock (9 * hour + 1)) demo_sending)
    as [[Hsame _]|(row & r & j & Hu & _)].
  - apply db_wfb_sound. by_vm.
  - exfalso. assert (bool_decide (demo_failed.2 = demo_sending) = false) as Hd by by_vm.
    apply bool_decide_eq_false in Hd. by apply Hd.
  - exists row, r, j. split; [exact Hu|]. by_vm.
Defined.

(** Worker A dies instead; at noon its lease has expired. *)
Definition demo_gen (i : Uuid) : Uuid := (i + 1000)%N.
Definition demo_noon : Clock := demo_clock (12 * hour).

Definition revisions_belowb (n : Z) (db : Db) : bool :=
  forallb (λ kr : Uuid * PostRow, post_revision kr.2 + n <=? i64_max) (map_to_list (db_posts db)).
Lemma revisions_belowb_sound n (db : Db) : revisions_belowb n db = true → revisions_below n db.
Proof.
  intros Hall i r Hr. apply (forallb_map_to_list _ _ Hall) in Hr. by apply Z.leb_le in Hr.
Qed.
Definition gen_freshb (gen : Uuid → Uuid) (db : Db) : bool :=
  forallb (λ kr : Uuid * JobRow, is_none (db_jobs db !! gen kr.1)) (map_to_list (db_jobs db)).
Lemma gen_freshb_sound gen (db : Db) :
  gen_freshb gen db = true → ∀ i, is_Some (db_jobs db !! i) → db_jobs db !! gen i = None.
Proof.
  intros Hall i [r Hr]. apply (forallb_map_to_list _ _ Hall) in Hr. simpl in Hr.
  by destruct (db_jobs db !! gen i).
Qed.

Lemma recovery_frees_expired_leases_witness :
  ∃ n db', recover_stale demo_gen (λ _, demo_noon) demo_noon demo_sending = (Ok n, db')
    ∧ db_wf db'
    ∧ ∀ i r, db_jobs demo_sending !! i = Some r →
        (expired_at demo_noon r ∧ ∃ k : nat, released ((λ _, demo_noon) k) demo_sending db' r)
        ∨ (¬ expired_at demo_noon r ∧ db_jobs db' !! i = Some r).
Proof.
  apply (recovery_frees_expired_leases demo_gen (λ _, demo_noon) demo_noon demo_sending).
  - apply db_wfb_sound. by_vm.
  - intros _. apply Z.leb_le. by_vm.
  - intros a b Hab. unfold demo_gen in Hab. lia.
  - apply gen_freshb_sound. by_vm.
  - apply revisions_belowb_sound. by_vm.
Defined.
