(* ===== verification/Runner.v ===== *)
(** * Runner: the loop of a worker

    [apps/worker/src/runner.rs] and the handler registry of [common.rs]: a worker
    claims a job, runs its handler beside a heartbeat, and settles the job with what
    the handler answered.  The loop is a program over the calls it awaits; a
    [tokio::select!] is a call answered by the branch that was ready first. *)

From S2P Require Import Prelude Enums Jobs Db Queue Proc.

(** ** The registry *)

(** An entry holds a plain handler or one that can be cancelled; the handlers
    themselves are programs of other files. *)
Inductive HandlerEntry := PlainHandler | CancellableHandler.
Definition HandlerRegistry := JobType.t → option HandlerEntry.

Definition registry_new : HandlerRegistry := λ _, None.
Definition register (t : JobType.t) (g : HandlerRegistry) : HandlerRegistry :=
  λ t', if decide (t' = t) then Some PlainHandler else g t'.
Definition register_cancellable (t : JobType.t) (g : HandlerRegistry) : HandlerRegistry :=
  λ t', if decide (t' = t) then Some CancellableHandler else g t'.
(** [job_types]: the registered kinds, in the order of their names. *)
Definition job_types (g : HandlerRegistry) : list JobType.t :=
  filter (λ t, is_Some (g t))
    [JobType.CleanupWorkspace; JobType.ComputeFingerprint; JobType.DownloadSource;
     JobType.FinalizeIngest; JobType.InspectSource; JobType.MaterializePublication;
     JobType.NormalizeAsset; JobType.ProbeAsset; JobType.PublishPost;
     JobType.SyncStorageCaption; JobType.UploadStorageAsset].

Inductive WorkerError :=
| InvalidPollInterval
| WkInvalidLeaseDuration
| WkRepository (e : JobRepositoryError)
| HeartbeatTask (what : Str).

Definition validate_timing (poll_interval lease_duration : Z) : result WorkerError unit :=
  if poll_interval =? 0 then Err InvalidPollInterval
  else if lease_duration =? 0 then Err WkInvalidLeaseDuration
  else Ok tt.

(** Durations in microseconds. *)
Definition heartbeat_interval (lease_duration : Z) : Z :=
  let interval := lease_duration / 3 in if interval =? 0 then 1000 else interval.
Definition recovery_interval (lease_duration : Z) : Z :=
  let interval := lease_duration / 2 in if interval =? 0 then 1000 else interval.

Record WorkerLogCounters := {
  wc_polls : Z;
  wc_claimed : Z;
  wc_succeeded : Z;
  wc_retried : Z;
  wc_failed : Z;
  wc_shutdown_requeued : Z;
}.
#[global] Instance eta_counters : Eta WorkerLogCounters := fun r =>
  Build_WorkerLogCounters (wc_polls r) (wc_claimed r) (wc_succeeded r) (wc_retried r)
    (wc_failed r) (wc_shutdown_requeued r).
Definition no_counts : WorkerLogCounters := Build_WorkerLogCounters 0 0 0 0 0 0.

(** ** Calls *)

(** How the heartbeat task ended: stopped, refused by the queue, or not joined. *)
Inductive heartbeat_end := HbStopped | HbRefused (e : JobRepositoryError) | HbLost (what : Str).

Section Runner.
Context {J : Json} {P : PayloadSerde}.
Abbreviation outcome := (result HandlerFailure unit).

(** The first branch of the [select!] around a running handler. *)
Inductive race := RaceShutdown | RaceHandler (r : outcome) | RaceHeartbeat (h : heartbeat_end).

Inductive runner_call :=
| RClaim (worker : Str) (lease_duration : Z) (capabilities : list JobType.t)
| RSleep (poll_interval : Z)
| RRun (job : Job) (l : JobLease) (entry : HandlerEntry)
| RCancel
| RStopHeartbeat
| RAwaitHandler (l : JobLease)
| RAwaitHeartbeat
| RNow
| RComplete (l : JobLease)
| RSettle (job : Job) (l : JobLease) (s : JobSettlement).

(** [RClaim] is answered by [None] and [RSleep] by [false] when the shutdown was first. *)
#[global] Instance runner_interface : Interface :=
  {| call := runner_call;
     answer c := match c with
       | RClaim _ _ _ => option (result JobRepositoryError (option Job))
       | RSleep _ => bool
       | RRun _ _ _ => race
       | RCancel | RStopHeartbeat => unit
       | RAwaitHandler _ => outcome
       | RAwaitHeartbeat => heartbeat_end
       | RNow => Z
       | RComplete _ | RSettle _ _ _ => result JobRepositoryError Job
       end |}.
Abbreviation work A := (proc (result WorkerError A)).

Definition repository {A} (c : call) (f : answer c → result JobRepositoryError A) : work A :=
  x ← ask c; mret (map_err WkRepository (f x)).

Inductive HandlerRunOutcome :=
| Completed (r : outcome)
| ShutdownCompleted (r : outcome)
| HeartbeatFailed (r : outcome) (e : WorkerError)
| Shutdown.

(** [await_heartbeat]. *)
Definition await_heartbeat : work unit :=
  h ← ask RAwaitHeartbeat;
  mret (match h : heartbeat_end with
        | HbStopped => Ok tt
        | HbRefused e => Err (WkRepository e)
        | HbLost what => Err (HeartbeatTask what)
        end).

Definition heartbeat_error (h : heartbeat_end) : WorkerError :=
  match h with
  | HbStopped => HeartbeatTask (lit "heartbeat loop stopped while the handler was active")
  | HbRefused e => WkRepository e
  | HbLost what => HeartbeatTask what
  end.

Definition execute_handler (job : Job) (l : JobLease) (entry : HandlerEntry)
    : work HandlerRunOutcome :=
  first ← ask (RRun job l entry);
  match first : race with
  | RaceShutdown =>
      match entry with
      | CancellableHandler =>
          _ ← ask RCancel;
          _ ← ask RStopHeartbeat;
          r ← ask (RAwaitHandler l);
          _ ←? await_heartbeat;
          mret (Ok (ShutdownCompleted r))
      | PlainHandler =>
          _ ← ask RStopHeartbeat;
          _ ←? await_heartbeat;
          mret (Ok Shutdown)
      end
  | RaceHandler r =>
      _ ← ask RStopHeartbeat;
      _ ←? await_heartbeat;
      mret (Ok (Completed r))
  | RaceHeartbeat h =>
      match entry with
      | CancellableHandler =>
          _ ← ask RCancel;
          r ← ask (RAwaitHandler l);
          mret (Ok (HeartbeatFailed
            match r : outcome with
            | Ok _ => Err (permanent (lit "heartbeat_lost")
                       (lit "worker heartbeat stopped while the upload was active"))
            | Err failure => Err failure
            end (heartbeat_error h)))
      | PlainHandler => mret (Err (heartbeat_error h))
      end
  end.

(** A settlement and what it says about the row. *)
Definition settle_job (job : Job) (l : JobLease) (s : JobSettlement) : work Job :=
  repository (RSettle job l s) (λ r, r).

(** [OffsetDateTime::now_utc() + TimeDuration::seconds(1)]. *)
Definition retry_delay : Z := 1000000.

Definition finish_job (job : Job) (l : JobLease) (r : outcome) (n : WorkerLogCounters)
    : work WorkerLogCounters :=
  match r with
  | Ok _ =>
      _ ←? repository (RComplete l) (λ r, r);
      mret (Ok (n <| wc_succeeded := wc_succeeded n + 1 |>))
  | Err f =>
      if hf_requires_storage_reconciliation f then mret (Ok n)
      else
        match hf_defer_until f with
        | Some until =>
            _ ←? settle_job job l
                  (if hf_defer_without_consuming_attempt f
                   then settlement_defer_without_consuming_attempt until (hf_class f) (hf_message f)
                   else settlement_defer until (hf_class f) (hf_message f));
            mret (Ok n)
        | None =>
            if hf_retryable f then
              now ← ask RNow;
              let run_at := now + retry_delay in
              updated ←? settle_job job l
                (if hf_retry_without_consuming_attempt f
                 then settlement_retry_without_consuming_attempt run_at (hf_class f) (hf_message f)
                 else settlement_retry run_at (hf_class f) (hf_message f));
              mret (Ok (if decide (jb_status updated = JobStatus.Queued)
                        then n <| wc_retried := wc_retried n + 1 |>
                        else n <| wc_failed := wc_failed n + 1 |>))
            else
              _ ←? settle_job job l (settlement_fail (hf_class f) (hf_message f));
              mret (Ok (n <| wc_failed := wc_failed n + 1 |>))
        end
  end.

Record Worker := {
  wk_registry : HandlerRegistry;
  wk_id : Str;
  wk_poll_interval : Z;
  wk_lease_duration : Z;
}.
Definition worker_new (g : HandlerRegistry) (id : Str) (poll lease : Z)
    : result WorkerError Worker :=
  _ ← validate_timing poll lease;
  Ok {| wk_registry := g; wk_id := id; wk_poll_interval := poll; wk_lease_duration := lease |}.

(** One claimed job, from its lease to its settlement; [true] ends the loop. *)
Definition run_job (w : Worker) (job : Job) (n : WorkerLogCounters)
    : work (bool * WorkerLogCounters) :=
  l ←? mret (ok_or (lease job) (WkRepository LeaseLost));
  match wk_registry w (job_type (jb_command job)) with
  | None =>
      _ ←? settle_job job l (settlement_fail (lit "handler_not_registered")
             (lit "no handler is registered for this job type"));
      mret (Ok (false, n <| wc_failed := wc_failed n + 1 |>))
  | Some entry =>
      o ←? execute_handler job l entry;
      match o with
      | Completed r => n ←? finish_job job l r n; mret (Ok (false, n))
      | ShutdownCompleted r => n ←? finish_job job l r n; mret (Ok (true, n))
      | HeartbeatFailed r e => _ ←? finish_job job l r n; mret (Err e)
      | Shutdown =>
          now ← ask RNow;
          _ ←? settle_job job l (settlement_retry now (lit "worker_shutdown")
                 (lit "worker stopped while the job was active"));
          mret (Ok (true, n <| wc_shutdown_requeued := wc_shutdown_requeued n + 1 |>))
      end
  end.

(** [run_loop], with a bound on the number of polls: [None] when it is reached. *)
Fixpoint run_loop (w : Worker) (polls : nat) (n : WorkerLogCounters)
    : work (option WorkerLogCounters) :=
  match polls with
  | O => mret (Ok None)
  | S polls =>
      let n := n <| wc_polls := wc_polls n + 1 |> in
      claimed ← ask (RClaim (wk_id w) (wk_lease_duration w) (job_types (wk_registry w)));
      match claimed : option (result JobRepositoryError (option Job)) with
      | None => mret (Ok (Some n))
      | Some (Err e) => mret (Err (WkRepository e))
      | Some (Ok None) =>
          again ← ask (RSleep (wk_poll_interval w));
          if again : bool then run_loop w polls n else mret (Ok (Some n))
      | Some (Ok (Some job)) =>
          r ←? run_job w job (n <| wc_claimed := wc_claimed n + 1 |>);
          if r.1 : bool then mret (Ok (Some r.2)) else run_loop w polls r.2
      end
  end.
End Runner.
