(* ===== verification/RunnerSpec.v ===== *)
(** * RunnerSpec: a worker that stops leaves no lease behind

    The loop of [Runner] running against the queue, beside everybody else: what it
    holds at every moment, and what it may still hold when it has stopped. *)

From S2P Require Import Prelude Enums Jobs Db Queue QueueSpec Proc Settlement SettlementSpec.
From S2P Require Import Instances RecoverySpec Runner.

Section System.
Context {J : Json} {P : PayloadSerde}.
Implicit Types (db : Db) (used : gset Uuid) (l : JobLease).
Abbreviation reply := (result WorkerError (option WorkerLogCounters)).

(** What a call draws besides the clocks: the rows other claimers hold locked, a lease
    token, an identifier for a cleanup job. *)
Record runner_supply := {
  rs_clock : Clock;
  rs_locked : gset Uuid;
  rs_token : Uuid;
  rs_cleanup : Uuid;
}.

(** The worker and the queue; the tokens drawn so far, by anybody and by this worker;
    the tokens of the jobs its handlers left for reconciliation; the token of a claim
    the shutdown overtook. *)
Record worker_system := {
  ws_db : Db;
  ws_proc : proc reply;
  ws_used : gset Uuid;
  ws_mine : gset Uuid;
  ws_unresolved : gset Uuid;
  ws_overtaken : option Uuid;
}.

(** Others give a job only a token that was never drawn before. *)
Definition others_step used db used' db' : Prop :=
  db_wf db' ∧ used ⊆ used' ∧
  ∀ i r' t, db_jobs db' !! i = Some r' → job_lease_token r' = Some t →
    t ∈ used' ∧ (t ∉ used ∨ ∃ r, db_jobs db !! i = Some r ∧ job_lease_token r = Some t).

(** A queue call is answered by the queue, or by a connection error although it may
    have been committed. *)
Definition answered {A} (x y : result JobRepositoryError A) db db' d : Prop :=
  (y = x ∧ d = db') ∨ (∃ s, y = Err (JobDatabase s)) ∧ (d = db ∨ d = db').

Definition needs_reconciliation (r : result HandlerFailure unit) : bool :=
  match r with Err f => hf_requires_storage_reconciliation f | Ok _ => false end.
Definition leaves_unresolved (l : JobLease) (r : result HandlerFailure unit) : gset Uuid :=
  if needs_reconciliation r then {[jl_lease_token l]} else ∅.

Inductive worker_step : worker_system → worker_system → Prop :=
| ws_others db k used mine un ov db' used' :
    others_step used db used' db' →
    worker_step (Build_worker_system db k used mine un ov) (Build_worker_system db' k used' mine un ov)
| ws_claim db used mine un ov w d caps k su x y db' db1 :
    rs_token su ∉ used →
    claim_next (rs_locked su) (rs_token su) w d caps (rs_clock su) db = (x, db') →
    answered x y db db' db1 →
    worker_step (Build_worker_system db (Ask (RClaim w d caps) k) used mine un ov)
      (Build_worker_system db1 (k (Some y)) ({[rs_token su]} ∪ used) ({[rs_token su]} ∪ mine) un ov)
| ws_claim_overtaken db used mine un ov w d caps k su x db' db1 :
    rs_token su ∉ used →
    claim_next (rs_locked su) (rs_token su) w d caps (rs_clock su) db = (x, db') →
    db1 = db ∨ db1 = db' →
    worker_step (Build_worker_system db (Ask (RClaim w d caps) k) used mine un ov)
      (Build_worker_system db1 (k None) ({[rs_token su]} ∪ used) ({[rs_token su]} ∪ mine) un
         (Some (rs_token su)))
| ws_complete db used mine un ov l k su x y db' db1 :
    complete_lease l (rs_clock su) db = (x, db') → answered x y db db' db1 →
    worker_step (Build_worker_system db (Ask (RComplete l) k) used mine un ov)
      (Build_worker_system db1 (k y) used mine un ov)
| ws_settle db used mine un ov job l s k su x y db' db1 :
    settle_lease (rs_cleanup su) job l s (rs_clock su) db = (x, db') → answered x y db db' db1 →
    worker_step (Build_worker_system db (Ask (RSettle job l s) k) used mine un ov)
      (Build_worker_system db1 (k y) used mine un ov)
| ws_run db used mine un ov job l e k y :
    worker_step (Build_worker_system db (Ask (RRun job l e) k) used mine un ov)
      (Build_worker_system db (k y) used mine
         (match y with RaceHandler r => leaves_unresolved l r | _ => ∅ end ∪ un) ov)
| ws_await db used mine un ov l k y :
    worker_step (Build_worker_system db (Ask (RAwaitHandler l) k) used mine un ov)
      (Build_worker_system db (k y) used mine (leaves_unresolved l y ∪ un) ov)
| ws_free db c k used mine un ov y :
    match c with RSleep _ | RCancel | RStopHeartbeat | RAwaitHeartbeat | RNow => True | _ => False end →
    worker_step (Build_worker_system db (Ask c k) used mine un ov)
      (Build_worker_system db (k y) used mine un ov).

(** ** The protocol of the loop *)

(** Nothing held; the lease [l] held; stopped by the shutdown during a claim; failed. *)
Inductive grip := Free | Holds (l : JobLease) | Overtaken | Failed.

Definition after_handler (φ : grip) (r : result HandlerFailure unit) : grip :=
  if needs_reconciliation r then Free else φ.

Definition loop_rule (c : call) (φ : grip) : (grip → answer c → Prop) → Prop :=
  match c return (grip → answer c → Prop) → Prop with
  | RClaim _ _ _ => λ go,
      φ = Free ∧ go Overtaken None ∧ (∀ e, go Failed (Some (Err e))) ∧ go Free (Some (Ok None))
      ∧ (∀ job l, lease job = Some l → go (Holds l) (Some (Ok (Some job))))
      ∧ (∀ job, lease job = None → go Failed (Some (Ok (Some job))))
  | RRun _ l _ => λ go,
      φ = Holds l ∧ go φ RaceShutdown ∧ (∀ h, go φ (RaceHeartbeat h))
      ∧ (∀ r, go (after_handler φ r) (RaceHandler r))
  | RAwaitHandler l => λ go, φ = Holds l ∧ ∀ r, go (after_handler φ r) r
  | RComplete l | RSettle _ l _ => λ go,
      φ = Holds l ∧ (∀ job, go Free (Ok job)) ∧ (∀ e, go Failed (Err e))
  | _ => λ go, ∀ x, go φ x
  end.
#[global] Instance loop_rule_mono : RuleMono loop_rule.
Proof. intros c φ go go' Hgo. destruct c; simpl; firstorder. Qed.

(** A result is an error, or nothing is held any more. *)
Definition let_go {A} (φ : grip) (r : result WorkerError A) : Prop :=
  match r with Ok _ => φ = Free | Err _ => True end.
Definition stopped (φ : grip) (r : reply) : Prop :=
  match r with Ok (Some _) => φ = Free ∨ φ = Overtaken | _ => True end.
Abbreviation wp := (wp loop_rule).
Abbreviation work A := (proc (result WorkerError A)).

Lemma settle_job_wp job l s : wp (Holds l) (settle_job job l s) let_go.
Proof. simpl. by split_and!. Qed.
Lemma finish_job_wp job l r n : wp (after_handler (Holds l) r) (finish_job job l r n) let_go.
Proof.
  unfold finish_job, after_handler. destruct r as [[]|f]; simpl needs_reconciliation; cbv iota.
  - apply wp_try. by split_and!.
  - destruct (hf_requires_storage_reconciliation f); [done|].
    destruct (hf_defer_until f).
    + apply wp_try. eapply wp_mono; [|apply settle_job_wp]. by intros φ [].
    + destruct (hf_retryable f).
      * intros now. apply wp_try. eapply wp_mono; [|apply settle_job_wp]. by intros φ [].
      * apply wp_try. eapply wp_mono; [|apply settle_job_wp]. by intros φ [].
Qed.

Definition ran (l : JobLease) (φ : grip) (r : result WorkerError HandlerRunOutcome) : Prop :=
  match r with
  | Ok (Completed r) | Ok (ShutdownCompleted r) | Ok (HeartbeatFailed r _) =>
      φ = after_handler (Holds l) r
  | Ok Shutdown => φ = Holds l
  | Err _ => True
  end.

Lemma await_heartbeat_wp {A} φ (k : work A) Q :
  wp φ k Q → (∀ e, Q φ (Err e)) → wp φ (_ ←? await_heartbeat; k) Q.
Proof. intros Hk He. apply wp_try. intros []; [exact Hk|apply He..]. Qed.

Lemma execute_handler_wp job l e : wp (Holds l) (execute_handler job l e) (ran l).
Proof.
  unfold execute_handler. apply wp_bind, wp_ask. cbn [loop_rule]. split; [done|]. split; [|split].
  - destruct e; apply wp_bind, wp_ask; cbn [loop_rule]; intros _.
    + by apply await_heartbeat_wp.
    + apply wp_bind, wp_ask. cbn [loop_rule]. intros _. apply wp_bind, wp_ask. cbn [loop_rule].
      split; [done|]. intros r. by apply await_heartbeat_wp.
  - intros h. destruct e; [done|]. apply wp_bind, wp_ask. cbn [loop_rule]. intros _.
    apply wp_bind, wp_ask. cbn [loop_rule]. split; [done|]. by intros [[]|f].
  - intros r. apply wp_bind, wp_ask. cbn [loop_rule]. intros _. by apply await_heartbeat_wp.
Qed.

Lemma run_job_wp w job l n : lease job = Some l → wp (Holds l) (run_job w job n) let_go.
Proof.
  intros Hl. unfold run_job. rewrite Hl. apply wp_try. simpl ok_or. cbn [Proc.wp].
  destruct (wk_registry w _) as [e|].
  - apply wp_try. eapply wp_mono; [|apply execute_handler_wp].
    intros φ [[r|r|r err|]|err]; simpl; [intros -> ..|done].
    + apply wp_try. eapply wp_mono; [|apply finish_job_wp]. by intros φ' [].
    + apply wp_try. eapply wp_mono; [|apply finish_job_wp]. by intros φ' [].
    + apply wp_try. eapply wp_mono; [|apply finish_job_wp]. by intros φ' [].
    + by intros now.
  - apply wp_try. eapply wp_mono; [|apply settle_job_wp]. by intros φ' [].
Qed.

Lemma run_loop_wp w polls n : wp Free (run_loop w polls n) stopped.
Proof.
  revert n. induction polls as [|polls IH]; intros n; [done|]. cbn [run_loop].
  apply wp_bind, wp_ask. cbn [loop_rule]. split_and!; [done|by right|done| | |].
  - apply wp_bind, wp_ask. cbn [loop_rule]. intros []; [apply IH|by left].
  - intros job l Hl. apply wp_try. eapply wp_mono; [|by apply run_job_wp].
    intros φ [[stop m]|e] Hφ; [|done]. simpl in Hφ. subst φ. destruct stop; [by left|apply IH].
  - intros job Hl. unfold run_job. by rewrite Hl.
Qed.
End System.

(** ** What the calls do to the leases of the table *)

Section Leases.
Context {J : Json} {P : PayloadSerde}.
Implicit Types (db : Db) (used : gset Uuid) (l : JobLease).

(** No row gets a token it did not have. *)
Definition keeps_tokens db db' : Prop := ∀ i r' t,
  db_jobs db' !! i = Some r' → job_lease_token r' = Some t →
  ∃ r, db_jobs db !! i = Some r ∧ job_lease_token r = Some t.
(** The job of [l] is not leased. *)
Definition unleased l db : Prop := ∀ r, db_jobs db !! jl_job_id l = Some r → job_lease_token r = None.

Lemma keeps_refl db : keeps_tokens db db.
Proof. intros i r t. eauto. Qed.

Lemma stopped_unleased db i r :
  db_wf db → db_jobs db !! i = Some r → job_state r ≠ JobStatus.Running → job_lease_token r = None.
Proof.
  intros Hwf Hr Hs. pose proof (wf_job_inv _ Hwf _ _ Hr) as Hi.
  unfold job_inv, job_check, job_lease_check in Hi. destruct (job_state r); [| |..]; bool_norm;
    by destruct (job_lease_token r).
Qed.

Lemma one_row_keeps used lab db db' : one_row_step used used lab db db' → keeps_tokens db db'.
Proof.
  intros [[-> _]|[(i & r & r' & Hr & -> & [_ _ Ht] & _)|(r' & Hn & _ & _ & Ht & _ & ->)]];
    [apply keeps_refl|..]; intros k x t; simpl; rewrite lookup_insert_Some;
    intros [[<- <-]|[_ Hx]] Hxt; eauto; [|congruence].
  destruct Ht as [Ht|[Ht|(t' & _ & ? & ?)]]; [|congruence|done]. exists r. by rewrite <-Ht.
Qed.

Lemma claim_tokens locked token w d caps ck db x db' :
  claim_next locked token w d caps ck db = (x, db') → db_wf db →
  (db' = db ∧ ∀ job, x ≠ Ok (Some job))
  ∨ ∃ r r', db_jobs db !! job_id r = Some r ∧ db_wf db'
      ∧ db' = db <| db_jobs := <[job_id r := r']> (db_jobs db) |>
      ∧ job_lease_token r' = Some token ∧ job_id r' = job_id r ∧ x = Some <$> into_job r'.
Proof.
  intros H Hwf. destruct (decide (d = 0)) as [->|Hd].
  { left. unfold claim_next, commit_then, run_txn, claim_next_txn in H. by simplify_eq/=. }
  destruct (claim_next_result locked token w d caps ck db Hwf Hd) as [[Hc _]|(r & He & _ & r' & Ht & Hc)];
    rewrite Hc in H; simplify_eq; [by left|].
  right. apply taken_claimed in Ht as ->. destruct He as (Hr & _ & [Hqueued _ Hleft _]).
  eexists r, _. split_and!; try done.
  apply (wf_update_job _ r (claimed_job w d token (sql_now ck) r)); auto.
  apply claimed_job_inv; [by eapply wf_job_inv|done|lia].
Qed.

Lemma complete_lease_tokens l ck db x db' :
  complete_lease l ck db = (x, db') → db_wf db →
  db_wf db' ∧ keeps_tokens db db' ∧ ∀ job, x = Ok job → unleased l db'.
Proof.
  intros H Hwf. apply commit_then_inv in H as [(e & -> & ->)|(row & -> & Hrow)].
  { by split_and!; [|apply keeps_refl|]. }
  pose proof (complete_step ∅ _ _ _ _ _ Hwf Hrow) as Hone.
  pose proof (one_row_step_wf _ _ _ _ _ Hwf Hone) as Hwf'.
  split_and!; [done|by eapply one_row_keeps|]. intros _ _.
  assert (∃ y, db_jobs db' !! jl_job_id l = Some y ∧ job_state y ≠ JobStatus.Running) as (y & Hy & Hs).
  { clear Hone Hwf'. unfold complete_lease_txn in Hrow. db_inv.
    match goal with H : _ = db_jobs db !! _ |- _ => symmetry in H;
      pose proof (wf_job_key _ Hwf _ _ H) as Hk; rename H into Hx end.
    case_match; [|case_match]; db_inv; eexists; simpl.
    - by rewrite Hk, lookup_insert_eq.
    - split; [done|]. bool_norm. congruence. }
  intros r Hr. simplify_eq. by eapply stopped_unleased.
Qed.

Lemma settle_lease_tokens fresh job l s ck db x db' :
  settle_lease fresh job l s ck db = (x, db') → db_wf db →
  db_wf db' ∧ keeps_tokens db db' ∧ ∀ j, x = Ok j → unleased l db'.
Proof.
  intros H Hwf. unfold settle_lease in H. destruct (negb _).
  { simplify_eq. by split_and!; [|apply keeps_refl|]. }
  pose proof (settle_cases fresh (jb_command job) l s ck db Hwf) as Hc. rewrite H in Hc. simpl in Hc.
  destruct Hc as [(-> & Hx)|(row & r & j & Hu & Hx)].
  - split_and!; [done|apply keeps_refl|]. intros j -> r Hr.
    destruct Hx as [[e ?]|[_ Hx]]; [done|]. symmetry in Hx. unfold load_already_requeued in Hx.
    rewrite Hr in Hx. result_inv. case_match; [|done]. bool_norm.
    eapply stopped_unleased; [done..|]. simplify_eq. congruence.
  - destruct (su_settled _ _ _ _ _ _ _ _ _ Hu) as [_ (r' & Hr' & Hst) Hstop Hoth Hnew Hwf' _].
    rewrite <-Hst in Hstop.
    split_and!; [done| |].
    + intros i y t Hy Ht. destruct (db_jobs db !! i) as [z|] eqn:Hz; [|by rewrite (Hnew _ _ Hz Hy) in Ht].
      destruct (decide (i = jl_job_id l)) as [->|Hne].
      * simplify_eq. by rewrite (stopped_unleased _ _ _ Hwf' Hr' Hstop) in Ht.
      * rewrite (Hoth _ _ Hne Hz) in Hy. simplify_eq. eauto.
    + intros _ _ y Hy. simplify_eq. by eapply stopped_unleased.
Qed.
End Leases.

(** ** The invariant *)

Section Invariant.
Context {J : Json} {P : PayloadSerde}.
Implicit Types (db : Db) (used mine un : gset Uuid) (ov : option Uuid) (φ : grip).
Abbreviation wp := (wp loop_rule).

(** A token of this worker that is still on a row is accounted for. *)
Definition accounted un ov φ (i t : Uuid) : Prop :=
  t ∈ un ∨ ov = Some t ∨ (∃ l, φ = Holds l ∧ jl_lease_token l = t ∧ jl_job_id l = i) ∨ φ = Failed.

Record loop_inv db used mine un ov φ : Prop := {
  li_wf : db_wf db;
  li_mine : mine ⊆ used;
  li_used : tokens_issued used db;
  li_overtaken : is_Some ov → φ = Overtaken ∨ φ = Failed;
  li_tokens i r t : db_jobs db !! i = Some r → job_lease_token r = Some t → t ∈ mine →
    accounted un ov φ i t;
}.

Definition system_inv (s : worker_system) : Prop := ∃ φ,
  loop_inv (ws_db s) (ws_used s) (ws_mine s) (ws_unresolved s) (ws_overtaken s) φ
  ∧ wp φ (ws_proc s) stopped.

Lemma others_inv db used db' used' mine un ov φ :
  others_step used db used' db' → loop_inv db used mine un ov φ → loop_inv db' used' mine un ov φ.
Proof.
  intros (Hwf & Hsub & Hnew) [_ Hm Hu Ho Ht]. constructor; [done|set_solver| |done|].
  - intros i r t Hr Hrt. by destruct (Hnew _ _ _ Hr Hrt).
  - intros i r t Hr Hrt Hmine. destruct (Hnew _ _ _ Hr Hrt) as [_ [Hnot|(r0 & Hr0 & Ht0)]]; [set_solver|].
    by eapply Ht.
Qed.

(** A call that gives no token to a row. *)
Lemma keeps_inv db db' used mine un ov φ :
  keeps_tokens db db' → db_wf db' → loop_inv db used mine un ov φ → loop_inv db' used mine un ov φ.
Proof.
  intros Hk Hwf [_ Hm Hu Ho Ht]. constructor; try done.
  - intros i r t Hr Hrt. destruct (Hk _ _ _ Hr Hrt) as (r0 & ? & ?). by eapply Hu.
  - intros i r t Hr Hrt. destruct (Hk _ _ _ Hr Hrt) as (r0 & ? & ?). by eapply Ht.
Qed.
Lemma failed_inv db used mine un ov φ : loop_inv db used mine un ov φ → loop_inv db used mine un ov Failed.
Proof. intros [? ? ? Ho Ht]. constructor; auto. intros. unfold accounted. auto. Qed.

(** The lease is settled. *)
Lemma settled_inv db db' used mine un ov l :
  keeps_tokens db db' → db_wf db' → unleased l db' →
  loop_inv db used mine un ov (Holds l) → loop_inv db' used mine un ov Free.
Proof.
  intros Hk Hwf Hun Hv. destruct (keeps_inv _ _ _ _ _ _ _ Hk Hwf Hv) as [? ? ? Ho Ht].
  constructor; try done; [by intros [? | ?]%Ho|]. intros i r t Hr Hrt Hm.
  destruct (Ht _ _ _ Hr Hrt Hm) as [?|[?|[(l' & [= <-] & <- & <-)|?]]]; [by left|by right; left| |done].
  by rewrite (Hun _ Hr) in Hrt.
Qed.

(** The handler has answered. *)
Lemma handler_inv db used mine un ov l r :
  loop_inv db used mine un ov (Holds l) →
  loop_inv db used mine (leaves_unresolved l r ∪ un) ov (after_handler (Holds l) r).
Proof.
  intros [? ? ? Ho Ht]. unfold leaves_unresolved, after_handler.
  destruct (needs_reconciliation r); constructor; try done.
  - by intros [? | ?]%Ho.
  - intros i x t Hx Hxt Hm. destruct (Ht _ _ _ Hx Hxt Hm) as [?|[?|[(l' & [= <-] & <- & <-)|?]]];
      [left; set_solver|by right; left|left; set_solver|done].
  - intros i x t Hx Hxt Hm. destruct (Ht _ _ _ Hx Hxt Hm) as [?|?]; [left; set_solver|by right].
Qed.

(** A claim: nothing was claimed, or one row has the new token. *)
Lemma fresh_token_inv db used mine un ov φ token :
  loop_inv db used mine un ov φ → token ∉ used →
  loop_inv db ({[token]} ∪ used) ({[token]} ∪ mine) un ov φ.
Proof.
  intros [? Hm Hu ? Ht] Hn. constructor; [done|set_solver| |done|].
  - intros i r t Hr Hrt. specialize (Hu _ _ _ Hr Hrt). set_solver.
  - intros i r t Hr Hrt Hin. eapply Ht; [done..|]. specialize (Hu _ _ _ Hr Hrt). set_solver.
Qed.

Lemma claimed_inv db used mine un r r' token ov φ :
  loop_inv db used mine un None Free → token ∉ used → db_jobs db !! job_id r = Some r →
  db_wf (db <| db_jobs := <[job_id r := r']> (db_jobs db) |>) → job_lease_token r' = Some token →
  (is_Some ov → φ = Overtaken ∨ φ = Failed) →
  ov = Some token ∨ φ = Failed ∨ (∃ l, φ = Holds l ∧ jl_lease_token l = token ∧ jl_job_id l = job_id r) →
  loop_inv (db <| db_jobs := <[job_id r := r']> (db_jobs db) |>) ({[token]} ∪ used)
    ({[token]} ∪ mine) un ov φ.
Proof.
  intros [_ Hm Hu _ Ht] Hn Hr Hwf Hr' Hov Hcase. constructor; [done|set_solver| |done|].
  - intros i x t. simpl. rewrite lookup_insert_Some. intros [[<- <-]|[_ Hx]] Hxt; [set_solver|].
    specialize (Hu _ _ _ Hx Hxt). set_solver.
  - intros i x t. simpl. rewrite lookup_insert_Some. intros [[<- <-]|[_ Hx]] Hxt Hin.
    + assert (t = token) as -> by congruence. unfold accounted. naive_solver.
    + specialize (Hu _ _ _ Hx Hxt).
      destruct (Ht _ _ _ Hx Hxt) as [?|[?|[(? & ? & _)|?]]]; [set_solver|by left|done..].
Qed.
End Invariant.

Section Steps.
Context {J : Json} {P : PayloadSerde}.
Implicit Types (db : Db) (used mine un : gset Uuid).

Lemma claimed_lease r job l t :
  into_job r = Ok job → lease job = Some l → job_lease_token r = Some t →
  jl_lease_token l = t ∧ jl_job_id l = job_id r.
Proof.
  unfold into_job, mbind, result_bind. intros Hj Hl Ht.
  destruct (map_err _ _) as [c|]; [|done]. injection Hj as <-. unfold lease in Hl. simpl in Hl.
  rewrite Ht in Hl. destruct (job_lease_owner r); simpl in Hl; by simplify_eq/=.
Qed.

(** A claim that reached the queue: the phase each answer leaves the worker in. *)
Lemma claim_step_inv db used mine un w d caps k su x y db' db1 :
  loop_inv db used mine un None Free → rs_token su ∉ used →
  claim_next (rs_locked su) (rs_token su) w d caps (rs_clock su) db = (x, db') →
  answered x y db db' db1 → wp loop_rule Free (Ask (RClaim w d caps) k) stopped →
  system_inv (Build_worker_system db1 (k (Some y)) ({[rs_token su]} ∪ used)
    ({[rs_token su]} ∪ mine) un None).
Proof.
  intros Hv Hn Hc Ha (_ & _ & Herr & Hnone & Hsome & Hless).
  pose proof (fresh_token_inv _ _ _ _ _ _ _ Hv Hn) as Hv'.
  apply claim_tokens in Hc as [[-> Hx]|(r & r' & Hr & Hwf & -> & Ht & Hid & ->)]; [| |by eapply li_wf].
  - assert (db1 = db) as -> by (destruct Ha as [[_ ->]|[_ [->| ->]]]; done).
    destruct y as [[job|]|e].
    + destruct Ha as [[<- _]|[[s ?] _]]; [by destruct (Hx job)|done].
    + by exists Free.
    + exists Failed. split; [by eapply failed_inv|apply Herr].
  - assert (∀ φ, φ = Failed ∨ (∃ l, φ = Holds l ∧ jl_lease_token l = rs_token su ∧ jl_job_id l = job_id r) →
      loop_inv (db <| db_jobs := <[job_id r := r']> (db_jobs db) |>) ({[rs_token su]} ∪ used)
        ({[rs_token su]} ∪ mine) un None φ) as Hcl.
    { intros φ Hφ. eapply claimed_inv; eauto. by intros [? ?]. }
    destruct Ha as [[-> ->]|[[s ->] [->| ->]]].
    + destruct (into_job r') as [job|e] eqn:Hj; simpl.
      * destruct (lease job) as [l|] eqn:Hl.
        { exists (Holds l). split; [|by apply Hsome]. apply Hcl. right. exists l.
          destruct (claimed_lease _ _ _ _ Hj Hl Ht) as [? ->]. by rewrite Hid. }
        { exists Failed. split; [apply Hcl; auto|by apply Hless]. }
      * exists Failed. split; [apply Hcl; auto|apply Herr].
    + exists Failed. split; [by eapply failed_inv|apply Herr].
    + exists Failed. split; [apply Hcl; auto|apply Herr].
Qed.

(** A claim the shutdown overtook. *)
Lemma overtaken_step_inv db used mine un w d caps k su x db' db1 :
  loop_inv db used mine un None Free → rs_token su ∉ used →
  claim_next (rs_locked su) (rs_token su) w d caps (rs_clock su) db = (x, db') →
  db1 = db ∨ db1 = db' → wp loop_rule Free (Ask (RClaim w d caps) k) stopped →
  system_inv (Build_worker_system db1 (k None) ({[rs_token su]} ∪ used)
    ({[rs_token su]} ∪ mine) un (Some (rs_token su))).
Proof.
  intros Hv Hn Hc Hd (_ & Hover & _). exists Overtaken. split; [|exact Hover]. simpl.
  assert (loop_inv db ({[rs_token su]} ∪ used) ({[rs_token su]} ∪ mine) un (Some (rs_token su)) Overtaken)
    as Hsame.
  { destruct (fresh_token_inv _ _ _ _ _ _ _ Hv Hn) as [? ? ? _ Ht]. constructor; auto.
    intros i r t Hr Hrt Hm. destruct (Ht _ _ _ Hr Hrt Hm) as [?|[?|[(? & ? & _)|?]]]; [by left|done..]. }
  apply claim_tokens in Hc as [[-> _]|(r & r' & Hr & Hwf & -> & Ht & _ & _)]; [| |by eapply li_wf].
  - by destruct Hd as [->| ->].
  - destruct Hd as [->| ->]; [done|]. eapply claimed_inv; eauto.
Qed.

(** A settlement or a completion. *)
Lemma settle_step_inv db used mine un ov l (k : result JobRepositoryError Job → _) x y db' db1 :
  loop_inv db used mine un ov (Holds l) → answered x y db db' db1 →
  db_wf db' ∧ keeps_tokens db db' ∧ (∀ job, x = Ok job → unleased l db') →
  (∀ job, wp loop_rule Free (k (Ok job)) stopped) → (∀ e, wp loop_rule Failed (k (Err e)) stopped) →
  system_inv (Build_worker_system db1 (k y) used mine un ov).
Proof.
  intros Hv Ha (Hwf & Hk & Hok) Hgo Hfail.
  pose proof (keeps_inv _ _ _ _ _ _ _ Hk Hwf Hv) as Hv'.
  destruct Ha as [[-> ->]|[[s ->] [->| ->]]]; [destruct x as [job|e]|..].
  - exists Free. split; [eapply settled_inv; eauto|apply Hgo].
  - exists Failed. split; [by eapply failed_inv|apply Hfail].
  - exists Failed. split; [by eapply failed_inv|apply Hfail].
  - exists Failed. split; [by eapply failed_inv|apply Hfail].
Qed.

Lemma free_overtaken db used mine un ov φ :
  loop_inv db used mine un ov φ → φ = Free → ov = None.
Proof. intros [_ _ _ Ho _] ->. destruct ov; [|done]. destruct (Ho ltac:(done)) as [?|?]; done. Qed.

Lemma worker_step_inv s s' : worker_step s s' → system_inv s → system_inv s'.
Proof.
  intros Hs (φ & Hv & Hp).
  destruct Hs as [db k used mine un ov db' used' He|db used mine un ov w d caps k su x y db' db1 Hn Hc Ha
    |db used mine un ov w d caps k su x db' db1 Hn Hc Hd|db used mine un ov l k su x y db' db1 Hc Ha
    |db used mine un ov job l s k su x y db' db1 Hc Ha|db used mine un ov job l e k y
    |db used mine un ov l k y|db c k used mine un ov y Hc]; simpl in Hv, Hp.
  - exists φ. split; [by eapply others_inv|done].
  - pose proof Hp as [-> _]. pose proof (free_overtaken _ _ _ _ _ _ Hv eq_refl) as ->.
    eapply claim_step_inv; [exact Hv|exact Hn|exact Hc|exact Ha|exact Hp].
  - pose proof Hp as [-> _]. pose proof (free_overtaken _ _ _ _ _ _ Hv eq_refl) as ->.
    eapply overtaken_step_inv; [exact Hv|exact Hn|exact Hc|exact Hd|exact Hp].
  - destruct Hp as (-> & Hok & Herr). eapply settle_step_inv; eauto.
    eapply complete_lease_tokens; [exact Hc|by eapply li_wf].
  - destruct Hp as (-> & Hok & Herr). eapply settle_step_inv; eauto.
    eapply settle_lease_tokens; [exact Hc|by eapply li_wf].
  - destruct Hp as (-> & Hshut & Hbeat & Hdone). destruct y as [|r|h]; simpl.
    + exists (Holds l). rewrite (left_id_L ∅ (∪)). done.
    + eexists. split; [by apply handler_inv|apply Hdone].
    + exists (Holds l). rewrite (left_id_L ∅ (∪)). split; [done|apply Hbeat].
  - destruct Hp as (-> & Hdone). eexists. split; [by apply handler_inv|apply Hdone].
  - exists φ. split; [done|]. destruct c; try done; apply Hp.
Qed.

(** Every step of [QueueSpec] is one that others may take. *)
Lemma queue_step_others used db lab used' db' :
  db_wf db → tokens_issued used db → queue_step (used, db) lab (used', db') →
  others_step used db used' db'.
Proof.
  intros Hwf Hu Hq. pose proof (queue_step_one_row _ _ _ _ _ Hwf Hq) as Hone.
  assert (used ⊆ used') as Hsub by (inversion Hq; set_solver).
  split; [by eapply one_row_step_wf|]. split; [done|].
  destruct Hone as [[-> _]|[(i & r & r' & Hr & -> & [_ _ Ht] & _)|(r' & Hn & _ & _ & Ht & _ & ->)]];
    intros k x t; simpl.
  - intros Hx Hxt. split; [|eauto]. specialize (Hu _ _ _ Hx Hxt). set_solver.
  - rewrite lookup_insert_Some. intros [[<- <-]|[_ Hx]] Hxt.
    + destruct Ht as [Ht|[Ht|(t' & Ht & ? & ?)]]; [|congruence|split; [|left]; congruence].
      rewrite Ht in Hxt. specialize (Hu _ _ _ Hr Hxt). split; [set_solver|eauto].
    + specialize (Hu _ _ _ Hx Hxt). split; [set_solver|eauto].
  - rewrite lookup_insert_Some. intros [[<- <-]|[_ Hx]] Hxt; [congruence|].
    specialize (Hu _ _ _ Hx Hxt). split; [set_solver|eauto].
Qed.

(** The worker before its first poll. *)
Definition worker_start (db : Db) (used : gset Uuid) (w : Worker) (polls : nat) : worker_system :=
  Build_worker_system db (run_loop w polls no_counts) used ∅ ∅ None.

(** C3: a worker that stops leaves no lease behind.  Whatever its handlers answer, the
    heartbeats do and others do to the queue in between, and whether or not an answer of
    the queue is lost: when the loop has ended without an error, every lease token it ever
    drew has left the table, except those of jobs whose handlers asked for a later
    reconciliation and that of one claim the shutdown overtook. *)
Theorem stopped_worker_holds_no_lease db used w polls s n :
  db_wf db → tokens_issued used db → rtc worker_step (worker_start db used w polls) s →
  ws_proc s = Done (Ok (Some n)) →
  ∀ i r t, db_jobs (ws_db s) !! i = Some r → job_lease_token r = Some t → t ∈ ws_mine s →
    t ∈ ws_unresolved s ∨ ws_overtaken s = Some t.
Proof.
  intros Hwf Hu Hrun Hdone i r t Hr Ht Hm.
  assert (system_inv s) as (φ & Hv & Hp).
  { assert (system_inv (worker_start db used w polls)) as Hs.
    { exists Free. split; [constructor; simpl; try done; set_solver|]. apply run_loop_wp. }
    clear Hdone Hr Ht Hm. induction Hrun; eauto using worker_step_inv. }
  rewrite Hdone in Hp. simpl in Hp.
  destruct (li_tokens _ _ _ _ _ _ Hv _ _ _ Hr Ht Hm) as [?|[?|[(l & -> & _)| ->]]]; auto;
    by destruct Hp.
Qed.
End Steps.

(** ** A run: one job done, the next claim overtaken by the shutdown *)

Definition demo_runner_supply (token : Uuid) : runner_supply :=
  {| rs_clock := demo_clock 200; rs_locked := ∅; rs_token := token; rs_cleanup := 99 |}.

(** One call of the worker answered by the queue, with handlers that succeed. *)
Definition drive_worker (shutdown : bool) (token : Uuid) (s : worker_system) : worker_system :=
  let '(Build_worker_system db p used mine un ov) := s in
  let ck := demo_clock 200 in
  match p with
  | Done _ => s
  | Ask c k =>
      match c return (answer c → proc _) → worker_system with
      | RClaim w d caps => λ k,
          if decide (token ∈ used) then s else
          let '(x, db') := claim_next ∅ token w d caps ck db in
          if shutdown
          then Build_worker_system db' (k None) ({[token]} ∪ used) ({[token]} ∪ mine) un (Some token)
          else Build_worker_system db' (k (Some x)) ({[token]} ∪ used) ({[token]} ∪ mine) un ov
      | RComplete l => λ k,
          let '(x, db') := complete_lease l ck db in Build_worker_system db' (k x) used mine un ov
      | RSettle job l st => λ k,
          let '(x, db') := settle_lease 99 job l st ck db in Build_worker_system db' (k x) used mine un ov
      | RRun job l e => λ k, Build_worker_system db (k (RaceHandler (Ok tt))) used mine (∅ ∪ un) ov
      | RAwaitHandler l => λ k, Build_worker_system db (k (Ok tt)) used mine (∅ ∪ un) ov
      | RSleep _ => λ k, Build_worker_system db (k true) used mine un ov
      | RCancel => λ k, Build_worker_system db (k tt) used mine un ov
      | RStopHeartbeat => λ k, Build_worker_system db (k tt) used mine un ov
      | RAwaitHeartbeat => λ k, Build_worker_system db (k HbStopped) used mine un ov
      | RNow => λ k, Build_worker_system db (k 200) used mine un ov
      end k
  end.

Lemma drive_worker_steps shutdown token s : rtc worker_step s (drive_worker shutdown token s).
Proof.
  destruct s as [db p used mine un ov]. unfold drive_worker. destruct p as [a|c k]; [done|].
  destruct c; try (apply rtc_once; by apply ws_free).
  - case_decide; [done|]. destruct (claim_next _ _ _ _ _ _ _) as [x db'] eqn:Hc.
    destruct shutdown; apply rtc_once.
    + eapply (ws_claim_overtaken _ _ _ _ _ _ _ _ _ (demo_runner_supply token)); eauto.
    + eapply (ws_claim _ _ _ _ _ _ _ _ _ (demo_runner_supply token)); eauto. by left.
  - apply rtc_once. apply (ws_run _ _ _ _ _ _ _ _ _ (RaceHandler (Ok tt))).
  - apply rtc_once. apply (ws_await _ _ _ _ _ _ _ (Ok tt)).
  - destruct (complete_lease _ _ _) as [x db'] eqn:Hc. apply rtc_once.
    eapply (ws_complete _ _ _ _ _ _ _ (demo_runner_supply token)); eauto. by left.
  - destruct (settle_lease _ _ _ _ _ _) as [x db'] eqn:Hc. apply rtc_once.
    eapply (ws_settle _ _ _ _ _ _ _ _ _ (demo_runner_supply token)); eauto. by left.
Qed.

Definition demo_worker : Worker :=
  {| wk_registry := register JobType.InspectSource (register JobType.ProbeAsset registry_new);
     wk_id := lit "worker-b"; wk_poll_interval := 5; wk_lease_duration := 60 |}.
Definition demo_worked : worker_system :=
  drive_worker true 81 (drive_worker false 80 (drive_worker false 80 (drive_worker false 80
    (drive_worker false 80 (drive_worker false 80 (worker_start demo_queue {[70%N]} demo_worker 9)))))).

Lemma stopped_worker_holds_no_lease_witness :
  (job_state <$> (db_jobs (ws_db demo_worked) !! 6%N) = Some JobStatus.Succeeded
   ∧ (db_jobs (ws_db demo_worked) !! 5%N ≫= job_lease_token) = Some 81%N)
  ∧ ∀ i r t, db_jobs (ws_db demo_worked) !! i = Some r → job_lease_token r = Some t →
      t ∈ ws_mine demo_worked → t ∈ ws_unresolved demo_worked ∨ ws_overtaken demo_worked = Some t.
Proof.
  split; [split; by_vm|].
  apply (stopped_worker_holds_no_lease demo_queue {[70%N]} demo_worker 9 demo_worked
    {| wc_polls := 2; wc_claimed := 1; wc_succeeded := 1; wc_retried := 0; wc_failed := 0;
       wc_shutdown_requeued := 0 |}).
  - apply db_wfb_sound. by_vm.
  - apply tokens_issuedb_sound. by_vm.
  - unfold demo_worked. do 5 (etrans; [|apply drive_worker_steps]). apply drive_worker_steps.
  - reflexivity.
Defined.
