(* ===== verification/Retention.v ===== *)
(** * Retention: pruning of terminal technical jobs

    [persistence/src/retention.rs]: the policy, the ordered candidate scan, the
    decision of the owner, the recheck of the queue row and the prune loop.
    What other connections do between the statements of a pass is a parameter
    ([Surroundings]): the time, the rows they hold locked, and how they have
    changed the database since. *)

From S2P Require Import Prelude Enums Jobs Db Queue Cleanup Library LibraryRepo LibraryStorage.
From S2P Require Import Publisher PublisherRepo PublisherOps PublisherSend Settlement.

Section Retention.
Context {J : Json} {P : PayloadSerde}.

Record JobRetentionPolicy := {
  succeeded_after : Z;
  cancelled_after : Z;
  failed_after : Z;
  batch_size : Z;
  scan_size : Z;
}.

(** The variant [Database] has no counterpart: no statement of a pass can fail
    on the modelled tables. *)
Inductive JobRetentionError := InvalidBatchSize | InvalidHorizon | InvalidScanSize.

(** [Duration::days(3650)] in microseconds. *)
Definition MAX_HORIZON : Z := 3650 * 86400 * 1000000.

Definition policy_validate (p : JobRetentionPolicy) : result JobRetentionError unit :=
  if (succeeded_after p <=? 0) || (MAX_HORIZON <? succeeded_after p)
     || (cancelled_after p <=? 0) || (MAX_HORIZON <? cancelled_after p)
     || (failed_after p <=? 0) || (MAX_HORIZON <? failed_after p) then Err InvalidHorizon
  else if (batch_size p =? 0) || (10000 <? batch_size p) then Err InvalidBatchSize
  else if (scan_size p <? batch_size p) || (100000 <? scan_size p) then Err InvalidScanSize
  else Ok tt.

Definition cutoff (p : JobRetentionPolicy) (status : JobStatus.t) (now : Z) : option Z :=
  match status with
  | JobStatus.Succeeded => Some (now - succeeded_after p)
  | JobStatus.Cancelled => Some (now - cancelled_after p)
  | JobStatus.Failed => Some (now - failed_after p)
  | JobStatus.Queued | JobStatus.Running => None
  end.

Record JobRetentionStats := { st_candidates : Z; st_eligible : Z; st_pruned : Z }.
Record JobRetentionCursor := { cu_completed_at : Z; cu_id : Uuid }.
Record JobRetentionRun := {
  run_stats : JobRetentionStats;
  run_next_cursor : option JobRetentionCursor;
}.

(** [(completed_at, id) > (t, id')]. *)
Definition after_cursor (c : option JobRetentionCursor) (t : Z) (id : Uuid) : bool :=
  match c with
  | None => true
  | Some c => negb (lex_le [t; Z.of_N id] [cu_completed_at c; Z.of_N (cu_id c)])
  end.

Definition retention_candidate (p : JobRetentionPolicy) (now : Z) (c : option JobRetentionCursor)
    (r : JobRow) : bool :=
  match job_completed_at r, cutoff p (job_state r) now with
  | Some t, Some limit => after_cursor c t (job_id r) && (t <=? limit)
  | _, _ => false
  end.

(** [ORDER BY completed_at ASC, id ASC]. *)
Definition retention_le (a b : JobRow) : bool :=
  lex_le [default 0 (job_completed_at a); Z.of_N (job_id a)]
         [default 0 (job_completed_at b); Z.of_N (job_id b)].

Definition load_candidates (db : Db) (p : JobRetentionPolicy) (now : Z)
    (c : option JobRetentionCursor) : list JobRow :=
  take (Z.to_nat (scan_size p))
    (order_by retention_le (select_rows (retention_candidate p now c) (db_jobs db))).

(** The owner of a job decides whether its record may go. *)
Definition owner_allows_prune (db : Db) (job : Job) : bool :=
  match jb_command job with
  | InspectSource _ | DownloadSource _ | ProbeAsset _ | NormalizeAsset _
  | ComputeFingerprint _ | FinalizeIngest _ =>
      ingest_retention_eligible db (jb_id job) (jb_command job)
  | MaterializePublication _ | PublishPost _ =>
      terminal_job_retention_eligible db (jb_command job)
  | UploadStorageAsset _ | SyncStorageCaption _ => library_retention_eligible db (jb_command job)
  | CleanupWorkspace _ => cleanup_retention_eligible db (jb_status job) (jb_command job)
  end.

(** [WHERE id = $1 AND state = $2 AND completed_at <= $3]. *)
Definition terminal_match (status : JobStatus.t) (limit : Z) (r : JobRow) : bool :=
  bool_decide (job_state r = status)
  && match job_completed_at r with Some t => t <=? limit | None => false end.

(** [.. FOR UPDATE SKIP LOCKED]. *)
Definition lock_terminal_candidate (db : Db) (locked : gset Uuid) (job : Job) (limit : Z)
    : option JobRow :=
  r ← db_jobs db !! jb_id job;
  if terminal_match (jb_status job) limit r && negb (bool_decide (jb_id job ∈ locked))
  then Some r else None.

(** [DELETE], with the number of affected rows. *)
Definition delete_terminal (db : Db) (job : Job) (limit : Z) : Z * Db :=
  match db_jobs db !! jb_id job with
  | Some r =>
      if terminal_match (jb_status job) limit r
      then (1, db <| db_jobs := delete (jb_id job) (db_jobs db) |>) else (0, db)
  | None => (0, db)
  end.

(** One candidate: whether its owner let it go, and, when the transaction was
    committed, how many rows were deleted. *)
Definition prune_candidate (p : JobRetentionPolicy) (now : Z) (locked : gset Uuid)
    (candidate : JobRow) (db : Db) : bool * option Z * Db :=
  match into_job candidate with
  | Err _ => (false, None, db)
  | Ok job =>
      match cutoff p (jb_status job) now with
      | None => (false, None, db)
      | Some limit =>
          if match jb_completed_at job with Some t => limit <? t | None => true end
          then (false, None, db)
          else if negb (owner_allows_prune db job) then (false, None, db)
          else
            match lock_terminal_candidate db locked job limit with
            | None => (true, None, db)
            | Some row =>
                match validate_locked_command row (jb_command job) with
                | Err _ => (true, None, db)
                | Ok _ =>
                    let '(n, db') := delete_terminal db job limit in (true, Some n, db')
                end
            end
      end
  end.

(** What a statement of the pass finds around it. *)
Record Surroundings := {
  su_now : Z;
  su_locked : gset Uuid;
  su_others : Db → Db;
}.

(** [candidate.completed_at.expect(..)]: the query returns only rows with one. *)
Definition cursor_at (r : JobRow) : JobRetentionCursor :=
  {| cu_completed_at := default 0 (job_completed_at r); cu_id := job_id r |}.

Definition count_candidate (s : JobRetentionStats) (eligible : bool) (n : option Z)
    : JobRetentionStats :=
  {| st_candidates := st_candidates s + 1;
     st_eligible := if eligible then st_eligible s + 1 else st_eligible s;
     st_pruned := if bool_decide (n = Some 1) then st_pruned s + 1 else st_pruned s |}.

(** The [for] loop over one page.  [inl] is the early return of a full batch. *)
Fixpoint prune_each (around : Z → Surroundings) (p : JobRetentionPolicy) (page : list JobRow)
    (s : JobRetentionStats) (c : option JobRetentionCursor) (db : Db)
    : (JobRetentionRun + JobRetentionStats * option JobRetentionCursor) * Db :=
  match page with
  | [] => (inr (s, c), db)
  | r :: page =>
      let env := around (st_candidates s) in
      let '(eligible, n, db') :=
        prune_candidate p (su_now env) (su_locked env) r (su_others env db) in
      let s' := count_candidate s eligible n in
      let c' := Some (cursor_at r) in
      if is_some n && (batch_size p <=? st_pruned s')
      then (inl {| run_stats := s'; run_next_cursor := c' |}, db')
      else prune_each around p page s' c' db'
  end.

(** The outer [loop]; [None] is exhausted fuel. *)
Fixpoint prune_loop (fuel : nat) (before around : Z → Surroundings) (p : JobRetentionPolicy)
    (s : JobRetentionStats) (c : option JobRetentionCursor) (db : Db)
    : option (JobRetentionRun * Db) :=
  match fuel with
  | O => None
  | S fuel =>
      let env := before (st_candidates s) in
      let db1 := su_others env db in
      match load_candidates db1 p (su_now env) c with
      | [] => Some ({| run_stats := s; run_next_cursor := None |}, db1)
      | page =>
          match prune_each around p page s c db1 with
          | (inl run, db') => Some (run, db')
          | (inr (s', c'), db') =>
              if scan_size p <=? st_candidates s'
              then Some ({| run_stats := s'; run_next_cursor := c' |}, db')
              else prune_loop fuel before around p s' c' db'
          end
      end
  end.

Definition no_stats : JobRetentionStats := {| st_candidates := 0; st_eligible := 0; st_pruned := 0 |}.

Definition prune_terminal_jobs_from (fuel : nat) (before around : Z → Surroundings)
    (p : JobRetentionPolicy) (c : option JobRetentionCursor) (db : Db)
    : option (result JobRetentionError JobRetentionRun * Db) :=
  match policy_validate p with
  | Err e => Some (Err e, db)
  | Ok _ => (λ r, (Ok r.1, r.2)) <$> prune_loop fuel before around p no_stats c db
  end.

Definition prune_terminal_jobs (fuel : nat) (before around : Z → Surroundings)
    (p : JobRetentionPolicy) (db : Db)
    : option (result JobRetentionError JobRetentionRun * Db) :=
  prune_terminal_jobs_from fuel before around p None db.
End Retention.
