(* ===== verification/RetentionSpec.v ===== *)
(** * RetentionSpec: the prune pass ends, stays within its batch and deletes
    only what its owners released

    [prune_trace] is the abstract pass: numbered visits, each beside what other connections
    do at that moment, and each deleting at most one job that may go.  The loop is shown to
    terminate, to respect its bounds and to refine such a trace whatever happens around it. *)

From S2P Require Import Prelude Enums Jobs Db Queue Instances Cleanup Library LibraryRepo.
From S2P Require Import LibraryStorage Publisher PublisherRepo PublisherOps PublisherSend.
From S2P Require Import PublisherDemo Settlement Retention.

Section Spec.
Context {J : Json} {P : PayloadSerde}.
Implicit Types (db : Db) (p : JobRetentionPolicy) (s : JobRetentionStats) (job : Job).

(** ** What may be deleted *)

(** Completed at [t], a job of this state has passed its horizon at [now]. *)
Definition expired p (state : JobStatus.t) (t now : Z) : Prop :=
  match state with
  | JobStatus.Succeeded => t + succeeded_after p ≤ now
  | JobStatus.Cancelled => t + cancelled_after p ≤ now
  | JobStatus.Failed => t + failed_after p ≤ now
  | JobStatus.Queued | JobStatus.Running => False
  end.

(** A job other than [i] that is still to work on the ingest. *)
Definition unfinished_for (ingest i : Uuid) (x : JobRow) : Prop :=
  job_id x ≠ i ∧ job_state x ∈ [JobStatus.Queued; JobStatus.Running]
  ∧ job_kind x ≠ JobType.CleanupWorkspace
  ∧ json_text (job_payload x) "ingest_id" = Some (uuid_to_string ingest).

(** Nothing will be done for the ingest any more. *)
Definition ingest_closed db (ingest i : Uuid) : Prop :=
  ∃ x, db_ingests db !! ingest = Some x
    ∧ ingest_state x ∈ [IngestStatus.Completed; IngestStatus.FailedTerminal; IngestStatus.Cancelled]
    ∧ ∀ k y, db_jobs db !! k = Some y → ¬ unfinished_for ingest i y.
Definition media_settled (m : MediaRow) : Prop :=
  media_storage_state m ∈ [MediaStorageState.Ready; MediaStorageState.Missing].

(** The record of job [i] with command [c] is of no further use to its owner. *)
Definition released db (i : Uuid) (state : JobStatus.t) (c : JobCommand) : Prop :=
  match c with
  | InspectSource q => ingest_closed db (inspect_ingest_id q) i
  | DownloadSource q => ingest_closed db (download_ingest_id q) i
  | ProbeAsset q | NormalizeAsset q | ComputeFingerprint q | FinalizeIngest q =>
      ingest_closed db (ingest_job_id q) i
  | MaterializePublication q =>
      ∃ x, db_ingests db !! materialize_ingest_id q = Some x
        ∧ (ingest_requested_action x = RequestedAction.Save
           ∨ ingest_state x = IngestStatus.Completed
             ∧ ∃ k y, db_posts db !! k = Some y ∧ post_origin_ingest_id y = Some (materialize_ingest_id q))
  | PublishPost q =>
      ∃ x, db_posts db !! publish_post_id q = Some x
        ∧ post_state x ∈ [PostState.Published; PostState.Failed; PostState.Cancelled]
  | UploadStorageAsset q => ∃ x, db_media db !! media_job_id q = Some x ∧ media_settled x
  | SyncStorageCaption q =>
      ∃ x, db_media db !! media_job_id q = Some x
        ∧ media_caption_sync_state x
            ∈ [CaptionSyncState.NotRequired; CaptionSyncState.Synced; CaptionSyncState.Failed]
  | CleanupWorkspace q =>
      ∃ x, db_ingests db !! cleanup_ingest_id q = Some x
        ∧ (ingest_workspace_id x ≠ cleanup_workspace_id q
           ∨ state = JobStatus.Succeeded
             ∧ ingest_state x ∈ [IngestStatus.Completed; IngestStatus.DuplicatePending;
                                 IngestStatus.FailedTerminal; IngestStatus.Cancelled;
                                 IngestStatus.Storing]
             ∧ ∀ m, ingest_media_id x = Some m →
                 ∃ y, db_media db !! m = Some y ∧ media_settled y ∧ media_local_work_path y = None)
  end.

Record deletable p now (locked : gset Uuid) (i : Uuid) (r : JobRow) db : Prop := {
  de_row : db_jobs db !! i = Some r;
  de_unlocked : i ∉ locked;
  de_old : ∃ t, job_completed_at r = Some t ∧ expired p (job_state r) t now;
  de_released : ∃ job, into_job r = Ok job ∧ released db i (job_state r) (jb_command job);
}.

Definition without_job (i : Uuid) db : Db := db <| db_jobs := delete i (db_jobs db) |>.

(** ** The code deletes only such jobs *)

Lemma live_ingest_job_false db i ingest : live_ingest_job db i ingest = false →
  ∀ k y, db_jobs db !! k = Some y → ¬ unfinished_for ingest i y.
Proof.
  unfold live_ingest_job. intros Hl k y Hy (Hi & Hs & Hk & Hj).
  apply not_true_iff_false in Hl. apply Hl, existsb_exists. exists y. split.
  - apply list_elem_of_In, elem_of_select_rows. exists k. split; [done|].
    rewrite !andb_true_iff. split_and!; [|by rewrite bool_decide_false|by apply bool_decide_true].
    rewrite orb_true_iff, !bool_decide_eq_true. set_solver.
  - by rewrite bool_decide_false.
Qed.

Lemma ingest_eligible_closed db i c : ingest_retention_eligible db i c = true →
  ∃ ingest, stage_ingest_id c = Ok ingest ∧ ingest_closed db ingest i.
Proof.
  unfold ingest_retention_eligible. destruct (stage_ingest_id c) as [ingest|]; [|done].
  destruct (db_ingests db !! ingest) as [x|] eqn:Hx; [|done].
  destruct (IngestStatus.is_terminal (ingest_state x)) eqn:Ht; simpl; [|done]. intros Hl%negb_true_iff.
  exists ingest. split; [done|]. exists x. split_and!; [done| |by apply live_ingest_job_false].
  destruct (ingest_state x); try done; set_solver.
Qed.

Lemma owner_allows_released db job : owner_allows_prune db job = true →
  released db (jb_id job) (jb_status job) (jb_command job).
Proof.
  unfold owner_allows_prune. destruct (jb_command job) as [q|q|q|q|q|q|q|q|q|q|q] eqn:Hc; simpl;
    try (intros (ingest & [= <-] & Hi)%ingest_eligible_closed; exact Hi).
  - destruct (db_ingests db !! _) as [x|]; [|done]. intros Ho. exists x. split; [done|].
    case_bool_decide; [by left|]. case_bool_decide; [|done]. simpl in Ho. right. split; [done|].
    destruct (find_row _ _) as [y|] eqn:Hy; [|done]. apply find_row_Some in Hy as (k & Hk & Hp).
    exists k, y. split; [done|]. by apply bool_decide_eq_true in Hp.
  - destruct (db_media db !! _) as [x|]; [|done]. unfold storage_in, media_settled. intros Ho.
    exists x. split; [done|]. apply orb_true_iff in Ho. rewrite !bool_decide_eq_true in Ho. set_solver.
  - destruct (db_media db !! _) as [x|]; [|done]. intros Ho. exists x. split; [done|].
    destruct (media_caption_sync_state x); try done; set_solver.
  - destruct (db_posts db !! _) as [x|]; [|done]. intros Ho. exists x. split; [done|].
    destruct (post_state x); try done; set_solver.
  - destruct (db_ingests db !! _) as [x|]; [|done]. intros Ho. exists x. split; [done|].
    case_bool_decide; simpl in Ho; [|by left]. case_bool_decide as Hst; simpl in Ho; [|done]. right. split; [done|].
    destruct (cleanup_resting (ingest_state x)) eqn:Hr; simpl in Ho; [|done]. split.
    + destruct (ingest_state x); try done; set_solver.
    + intros m Hm. rewrite Hm in Ho. destruct (db_media db !! m) as [y|]; [|done]. exists y.
      apply andb_true_iff in Ho as [Ho Hp]. unfold media_settled.
      split_and!; [done|destruct (media_storage_state y); try done; set_solver|].
      by destruct (media_local_work_path y).
Qed.

(** A command of the same owner is released with it. *)
Lemma same_owner_released db i state c c' :
  commands_have_same_owner c c' = true → released db i state c → released db i state c'.
Proof.
  destruct c, c'; simpl; intros Hs; try done; rewrite ?andb_true_iff, ?N.eqb_eq in Hs; destruct_and?;
    repeat match goal with H : _ = _ :> Uuid |- _ => rewrite H; clear H end; done.
Qed.

Lemma prune_candidate_cases p now locked r0 db e n db' :
  prune_candidate p now locked r0 db = (e, n, db') →
  (n = None ∧ db' = db)
  ∨ (e = true ∧ n = Some 1 ∧ ∃ i r, deletable p now locked i r db ∧ db' = without_job i db).
Proof.
  unfold prune_candidate. destruct (into_job r0) as [job|] eqn:Hj; [|naive_solver].
  destruct (cutoff p (jb_status job) now) as [limit|] eqn:Hc; [|naive_solver].
  case_match; [naive_solver|].
  destruct (owner_allows_prune db job) eqn:Ho; simpl; [|naive_solver].
  unfold lock_terminal_candidate, delete_terminal.
  destruct (db_jobs db !! jb_id job) as [r|] eqn:Hr; simpl; [|naive_solver].
  destruct (terminal_match (jb_status job) limit r) eqn:Ht; simpl; [|naive_solver].
  case_bool_decide as Hl; simpl; [naive_solver|].
  destruct (validate_locked_command r (jb_command job)) as [c|] eqn:Hv; [|naive_solver].
  intros [= <- <- <-]. right. split_and!; [done..|]. exists (jb_id job), r. split; [|done].
  unfold terminal_match in Ht. apply andb_true_iff in Ht as [Hs Ht]. apply bool_decide_eq_true in Hs.
  destruct (job_completed_at r) as [t|] eqn:Hct; [|done]. apply Z.leb_le in Ht.
  unfold validate_locked_command in Hv. destruct (into_job r) as [job'|] eqn:Hj'; [|done]. simpl in Hv.
  destruct (commands_have_same_owner _ _) eqn:Hsame; [|done].
  split; [done|done| |].
  - exists t. split; [done|]. unfold cutoff, expired in *. rewrite Hs. destruct (jb_status job); simplify_eq; lia.
  - exists job'. split; [done|]. eapply same_owner_released; [done|]. rewrite Hs. by apply owner_allows_released.
Qed.

(** ** Bounds of one page and of the pass *)

Record stats_ok p s : Prop := {
  so_pruned : 0 ≤ st_pruned s ≤ st_eligible s;
  so_eligible : st_eligible s ≤ st_candidates s;
  so_room : st_pruned s < batch_size p;
}.

(** What is known of a result: the batch may now be full. *)
Definition run_within p (extra : Z) s : Prop :=
  0 ≤ st_pruned s ≤ st_eligible s ∧ st_eligible s ≤ st_candidates s
  ∧ st_pruned s ≤ batch_size p ∧ st_candidates s ≤ extra.

Lemma count_candidate_within p s e n (Hs : stats_ok p s) :
  n = None ∨ e = true ∧ n = Some 1 →
  run_within p (st_candidates s + 1) (count_candidate s e n)
  ∧ (is_some n && (batch_size p <=? st_pruned (count_candidate s e n)) = false →
     stats_ok p (count_candidate s e n)).
Proof.
  destruct Hs as [? ? ?]. unfold run_within. intros [->|[-> ->]]; simpl.
  - destruct e; (split; [lia|]; intros _; constructor; simpl; lia).
  - split; [lia|]. intros Hb%Z.leb_gt. constructor; simpl in *; lia.
Qed.

Lemma prune_each_within around p page s c db :
  stats_ok p s →
  match (prune_each around p page s c db).1 with
  | inl run => run_within p (st_candidates s + Z.of_nat (length page)) (run_stats run)
  | inr (s', _) => stats_ok p s' ∧ st_candidates s' = st_candidates s + Z.of_nat (length page)
  end.
Proof.
  revert s c db. induction page as [|r page IH]; intros s c db Hs; simpl; [split; [done|lia]|].
  destruct (prune_candidate _ _ _ _ _) as [[e n] db1] eqn:Hp.
  apply prune_candidate_cases in Hp.
  destruct (count_candidate_within p s e n Hs) as [Hw Hc]; [naive_solver|].
  destruct (is_some n && _) eqn:Hb; simpl.
  - unfold run_within in *. lia.
  - specialize (IH (count_candidate s e n) (Some (cursor_at r)) db1 (Hc eq_refl)).
    destruct (prune_each _ _ _ _ _ _) as [[run|[s' c']] db2]; simpl in *;
      [unfold run_within in *; lia|]. destruct IH as [? ->]. split; [done|lia].
Qed.

Lemma load_candidates_length db p now c :
  Z.of_nat (length (load_candidates db p now c)) ≤ Z.max 0 (scan_size p).
Proof. unfold load_candidates. rewrite length_take. lia. Qed.

Lemma prune_loop_terminates fuel before around p s c db :
  stats_ok p s → st_candidates s < scan_size p → scan_size p - st_candidates s < Z.of_nat fuel →
  ∃ run db', prune_loop fuel before around p s c db = Some (run, db')
    ∧ run_within p (2 * scan_size p - 1) (run_stats run).
Proof.
  revert s c db. induction fuel as [|fuel IH]; intros s c db Hs Hlt Hf; [lia|].
  cbn [prune_loop].
  pose proof (load_candidates_length (su_others (before (st_candidates s)) db) p
    (su_now (before (st_candidates s))) c) as Hlen.
  destruct (load_candidates _ _ _ _) as [|r page] eqn:Hload.
  { eexists _, _. split; [done|]. simpl. destruct Hs. unfold run_within. lia. }
  pose proof (prune_each_within around p (r :: page) s c
    (su_others (before (st_candidates s)) db) Hs) as Hw.
  destruct (prune_each _ _ _ _ _ _) as [[run|[s' c']] db2]; simpl in Hw, Hlen.
  { eexists _, _. split; [done|]. unfold run_within in *. lia. }
  destruct Hw as [Hs' Hc']. destruct (Z.leb_spec (scan_size p) (st_candidates s')).
  - eexists _, _. split; [done|]. simpl. destruct Hs'. unfold run_within. lia.
  - apply IH; [done|lia|lia].
Qed.

(** ** Refinement of the abstract pass *)

(** The abstract pass.  Its visits are numbered; the [k]-th happens at the time, beside the
    locks and after the changes of [around k], and deletes one job that may be deleted
    there, or none.  Between visits a page may be read, after the changes of [before k].
    [prune_trace before around p k n db db']: from the [k]-th visit on, [n] jobs are
    deleted, from [db] to [db']. *)
Inductive prune_trace (before around : Z → Surroundings) p : Z → nat → Db → Db → Prop :=
| pt_done k db : prune_trace before around p k 0 db db
| pt_page k n db db' :
    prune_trace before around p k n (su_others (before k) db) db' → prune_trace before around p k n db db'
| pt_keep k n db db' :
    prune_trace before around p (k + 1) n (su_others (around k) db) db' →
    prune_trace before around p k n db db'
| pt_delete k i r n db db' :
    deletable p (su_now (around k)) (su_locked (around k)) i r (su_others (around k) db) →
    prune_trace before around p (k + 1) n (without_job i (su_others (around k) db)) db' →
    prune_trace before around p k (S n) db db'.

Section Trace.
Context (before around : Z → Surroundings) (p : JobRetentionPolicy).
Abbreviation trace := (prune_trace before around p).

(** One visit. *)
Lemma visit_trace k r0 db e n db1 m db' :
  prune_candidate p (su_now (around k)) (su_locked (around k)) r0 (su_others (around k) db) = (e, n, db1) →
  trace (k + 1) m db1 db' → trace k (if bool_decide (n = Some 1) then S m else m) db db'.
Proof.
  intros [[-> ->]|(-> & -> & i & r & Hd & ->)]%prune_candidate_cases Ht; [by apply pt_keep|].
  rewrite bool_decide_true by done. by eapply pt_delete.
Qed.

(** A page: what follows it, for [m] more deletions, follows it from the first visit. *)
Lemma prune_each_trace page s c db res db1 :
  prune_each around p page s c db = (res, db1) →
  let s' := match res with inl run => run_stats run | inr (s', _) => s' end in
  st_pruned s ≤ st_pruned s'
  ∧ ∀ m db', trace (st_candidates s') m db1 db' →
      trace (st_candidates s) (Z.to_nat (st_pruned s' - st_pruned s) + m) db db'.
Proof.
  revert s c db. induction page as [|r page IH]; intros s c db; simpl.
  { intros [= <- <-]. split; [lia|]. intros m db' Ht. by rewrite Z.sub_diag. }
  destruct (prune_candidate _ _ _ _ _) as [[e n] db2] eqn:Hp. intros H.
  assert (∀ m db', trace (st_candidates s + 1) m db2 db' →
    trace (st_candidates s) (Z.to_nat (st_pruned (count_candidate s e n) - st_pruned s) + m) db db') as Hone.
  { intros m db' Ht. apply (visit_trace _ _ _ _ _ _ _ _ Hp) in Ht. simpl. case_bool_decide.
    - by replace (Z.to_nat (st_pruned s + 1 - st_pruned s) + m)%nat with (S m) by lia.
    - by rewrite Z.sub_diag. }
  assert (st_pruned s ≤ st_pruned (count_candidate s e n)) as Hle by (simpl; case_bool_decide; lia).
  destruct (is_some n && _).
  - injection H as <- <-. simpl run_stats. split; [done|]. exact Hone.
  - destruct (IH _ _ _ H) as [Hle' Ht']. split; [lia|]. intros m db' Ht%Ht'.
    apply Hone in Ht. by replace (Z.to_nat (_ - st_pruned s) + m)%nat with
      (Z.to_nat (st_pruned (count_candidate s e n) - st_pruned s)
       + (Z.to_nat (st_pruned (match res with inl run => run_stats run | inr (s', _) => s' end)
                    - st_pruned (count_candidate s e n)) + m))%nat by lia.
Qed.

Lemma prune_loop_trace fuel s c db run db' :
  prune_loop fuel before around p s c db = Some (run, db') →
  st_pruned s ≤ st_pruned (run_stats run)
  ∧ trace (st_candidates s) (Z.to_nat (st_pruned (run_stats run) - st_pruned s)) db db'.
Proof.
  revert s c db. induction fuel as [|fuel IH]; intros s c db; [done|]. cbn [prune_loop].
  set (db1 := su_others (before (st_candidates s)) db).
  destruct (load_candidates _ _ _ _) as [|r page] eqn:Hload.
  { intros [= <- <-]. simpl. split; [lia|]. rewrite Z.sub_diag. apply pt_page. constructor. }
  destruct (prune_each around p (r :: page) s c db1) as [res db2] eqn:He.
  apply prune_each_trace in He as [Hle Htr].
  assert (∀ run, run_stats run = match res with inl run => run_stats run | inr (s', _) => s' end →
    st_pruned s ≤ st_pruned (run_stats run)
    ∧ trace (st_candidates s) (Z.to_nat (st_pruned (run_stats run) - st_pruned s)) db db2) as Hend.
  { intros run0 ->. split; [done|]. apply pt_page. rewrite <-(Nat.add_0_r (Z.to_nat _)). apply Htr. constructor. }
  destruct res as [run1|[s' c']]; [intros [= <- <-]; by apply Hend|].
  destruct (scan_size p <=? _); [intros [= <- <-]; by apply Hend|]. intros H.
  destruct (IH _ _ _ H) as [Hle' Ht']. split; [lia|]. apply Htr in Ht'. apply pt_page.
  by replace (Z.to_nat (st_pruned (run_stats run) - st_pruned s)) with
    (Z.to_nat (st_pruned s' - st_pruned s) + Z.to_nat (st_pruned (run_stats run) - st_pruned s'))%nat by lia.
Qed.
End Trace.

(** ** What a quiet pass keeps

    With no one else writing, only approved jobs go and nothing else changes.
    Deleting a terminal job does not change what an owner says of another. *)

Record quiet_pass (around : Z → Surroundings) p (n : nat) db db' : Prop := {
  qp_tables : db_ingests db' = db_ingests db ∧ db_media db' = db_media db
    ∧ db_channels db' = db_channels db ∧ db_posts db' = db_posts db;
  qp_jobs : ∀ i r, db_jobs db !! i = Some r → db_jobs db' !! i = Some r
    ∨ db_jobs db' !! i = None
      ∧ ∃ k, deletable p (su_now (around k)) (su_locked (around k)) i r db;
  qp_old : db_jobs db' ⊆ db_jobs db;
  qp_count : size (db_jobs db) = (size (db_jobs db') + n)%nat;
}.

Lemma released_without db j x i state c :
  db_jobs db !! j = Some x → job_state x ∉ [JobStatus.Queued; JobStatus.Running] →
  released (without_job j db) i state c → released db i state c.
Proof.
  intros Hx Hs. assert (∀ ingest, ingest_closed (without_job j db) ingest i → ingest_closed db ingest i) as Hcl.
  { intros ingest (y & Hy & Ht & Hall). exists y. split_and!; [done|done|]. intros k z Hz Hu.
    destruct (decide (k = j)) as [->|Hne]; [rewrite Hx in Hz; simplify_eq; by destruct Hu as (_ & ? & _)|].
    apply (Hall k z); [simpl; by rewrite lookup_delete_ne|done]. }
  destruct c; simpl; auto.
Qed.

Lemma expired_terminal p state t now : expired p state t now → state ∉ [JobStatus.Queued; JobStatus.Running].
Proof. destruct state; simpl; try done; intros _; set_solver. Qed.

Lemma deletable_without p now locked j x i r db :
  db_jobs db !! j = Some x → job_state x ∉ [JobStatus.Queued; JobStatus.Running] →
  deletable p now locked i r (without_job j db) → deletable p now locked i r db.
Proof.
  intros Hx Hs [Hr Hl Ho (job & Hj & Hre)]. split; [|done|done|].
  - simpl in Hr. by apply lookup_delete_Some in Hr as [_ ?].
  - exists job. split; [done|]. by eapply released_without.
Qed.

Lemma quiet_trace before around p k n db db' :
  (∀ k, su_others (before k) = id ∧ su_others (around k) = id) →
  prune_trace before around p k n db db' → quiet_pass around p n db db'.
Proof.
  intros Hq. induction 1 as [k db|k n db db' _ IH|k n db db' _ IH|k i r n db db' Hd _ IH];
    [by constructor; auto|destruct (Hq k) as [Hb Ha]; by rewrite Hb in IH|destruct (Hq k) as [Hb Ha]; by rewrite Ha in IH|].
  destruct (Hq k) as [_ Ha]. rewrite Ha in Hd, IH. unfold id in Hd, IH. simpl in Hd, IH.
  pose proof (de_row _ _ _ _ _ _ Hd) as Hrow.
  assert (job_state r ∉ [JobStatus.Queued; JobStatus.Running]) as Hs
    by (destruct (de_old _ _ _ _ _ _ Hd) as (t & _ & He); by eapply expired_terminal).
  destruct IH as [Htab Hjobs Hold Hcount]. constructor; [exact Htab|..].
  - intros j x Hx. destruct (decide (j = i)) as [->|Hne].
    + right. assert (x = r) as -> by congruence. split; [|by exists k].
      destruct (db_jobs db' !! i) eqn:Hi; [|done].
      apply (lookup_weaken _ _ _ _ Hi) in Hold. simpl in Hold. by rewrite lookup_delete_eq in Hold.
    + destruct (Hjobs j x) as [?|(Hnone & k' & Hd')]; [by simpl; rewrite lookup_delete_ne|by left|].
      right. split; [done|]. exists k'. by eapply deletable_without; [exact Hrow|..].
  - etrans; [exact Hold|]. apply delete_subseteq.
  - simpl in Hcount. rewrite map_size_delete, Hrow in Hcount. simpl in Hcount.
    assert (size (db_jobs db) ≠ 0%nat); [|lia].
    intros H0. apply map_size_empty_inv in H0. by rewrite H0, lookup_empty in Hrow.
Qed.

(** A post that may still be sent, or whose outcome is open. *)
Definition publication_open (r : PostRow) : Prop :=
  post_state r ∉ [PostState.Published; PostState.Failed; PostState.Cancelled].

Lemma open_publication_stays p now locked i r db j q x :
  deletable p now locked i r db → into_job r = Ok j → jb_command j = PublishPost q →
  db_posts db !! publish_post_id q = Some x → publication_open x → False.
Proof.
  intros Hd Hj Hq Hx Hopen. destruct (de_released _ _ _ _ _ _ Hd) as (job & Hj' & Hr).
  assert (job = j) as -> by congruence. rewrite Hq in Hr. destruct Hr as (y & Hy & Hs).
  assert (y = x) as -> by congruence. done.
Qed.

Lemma policy_validate_ok p :
  policy_validate p = Ok tt → 0 ≤ batch_size p → 0 < batch_size p ≤ scan_size p.
Proof.
  unfold policy_validate. repeat case_match; try done. intros _ Hb. bool_norm. lia.
Qed.

Lemma no_stats_ok p : 0 < batch_size p → stats_ok p no_stats.
Proof. intros. constructor; simpl; lia. Qed.

Lemma prune_from_loop fuel before around p c db run db' :
  prune_terminal_jobs_from fuel before around p c db = Some (Ok run, db') →
  policy_validate p = Ok tt ∧ prune_loop fuel before around p no_stats c db = Some (run, db').
Proof.
  unfold prune_terminal_jobs_from. destruct (policy_validate p) as [[]|]; [|done].
  intros ([run1 db1] & Hp & Heq)%fmap_Some. by simplify_eq/=.
Qed.

(** ** The promises *)

(** C25: a retention pass ends.  Under a valid policy, from any cursor and
    whatever other connections do in between, [scan_size + 1] rounds of the
    outer loop are enough; at most [batch_size] jobs are deleted, every deleted
    job was counted as eligible, every eligible one as a candidate, and fewer
    than twice [scan_size] candidates are inspected. *)
Theorem retention_pass_terminates fuel before around p c db :
  policy_validate p = Ok tt → 0 ≤ batch_size p → scan_size p < Z.of_nat fuel →
  ∃ run db', prune_terminal_jobs_from fuel before around p c db = Some (Ok run, db')
    ∧ 0 ≤ st_pruned (run_stats run) ≤ st_eligible (run_stats run)
    ∧ st_eligible (run_stats run) ≤ st_candidates (run_stats run)
    ∧ st_pruned (run_stats run) ≤ batch_size p
    ∧ st_candidates (run_stats run) < 2 * scan_size p.
Proof.
  intros Hv Hb Hf. pose proof (policy_validate_ok p Hv Hb) as Hp.
  destruct (prune_loop_terminates fuel before around p no_stats c db) as (run & db' & Hl & Hw);
    [apply no_stats_ok; lia|simpl; lia|simpl; lia|].
  exists run, db'. unfold prune_terminal_jobs_from, run_within in *. rewrite Hv, Hl. simpl.
  split; [done|lia].
Qed.

(** C26: a retention pass is nothing but single deletions that are allowed.  Interleaved
    with whatever others commit, the pass leads from the first database to the last by
    exactly as many deletions as it reports; each visit deletes at most one job, which at
    the time of that visit has been terminal for longer than the horizon of its state, is
    not locked by anyone at that moment, and has been released by its owner: the ingest is
    closed and no other job is to work on it, the post is published, failed or cancelled,
    the upload or caption is settled, the workspace is another one or has been cleaned. *)
Theorem retention_refines_approved_deletions fuel before around p c db run db' :
  prune_terminal_jobs_from fuel before around p c db = Some (Ok run, db') →
  prune_trace before around p 0 (Z.to_nat (st_pruned (run_stats run))) db db'.
Proof.
  intros [_ H]%prune_from_loop. apply prune_loop_trace in H as [_ H]. by rewrite Z.sub_0_r in H.
Qed.

(** with no other writer a pass changes the queue alone, deletes as many
    rows as it reports, keeps every job whose owner does not release it, and in
    particular keeps the publication job of every post that is still a draft,
    queued, being sent or of unknown outcome. *)
Theorem retention_keeps_unfinished_work fuel before around p c db run db' :
  prune_terminal_jobs_from fuel before around p c db = Some (Ok run, db') →
  (∀ k, su_others (before k) = id ∧ su_others (around k) = id) →
  quiet_pass around p (Z.to_nat (st_pruned (run_stats run))) db db'
  ∧ ∀ i r j q x, db_jobs db !! i = Some r → into_job r = Ok j → jb_command j = PublishPost q →
      db_posts db !! publish_post_id q = Some x → publication_open x →
      db_jobs db' !! i = Some r.
Proof.
  intros [_ H]%prune_from_loop Hquiet. apply prune_loop_trace in H as [_ H].
  rewrite Z.sub_0_r in H. apply quiet_trace in H as Hq; [|done].
  split; [done|]. intros i r j q x Hr Hj Hc Hx Hopen.
  destruct (qp_jobs _ _ _ _ _ Hq _ _ Hr) as [?|(_ & k & Hd)]; [done|].
  by destruct (open_publication_stays _ _ _ _ _ _ _ _ _ Hd Hj Hc Hx Hopen).
Qed.
End Spec.

(** ** The promises at a concrete queue

    Post 3 was published and its job 4 succeeded; ten days later post 6 still
    waits with its job 7. *)

Definition day_us : Z := 24 * hour.
Definition demo_policy : JobRetentionPolicy :=
  {| succeeded_after := 7 * day_us; cancelled_after := 7 * day_us; failed_after := 30 * day_us;
     batch_size := 5; scan_size := 10 |}.
Definition demo_retired : Db :=
  (complete_lease demo_attempt (demo_clock (9 * hour + 2)) demo_published).2.
Definition demo_quiet (_ : Z) : Surroundings :=
  {| su_now := 10 * day_us; su_locked := ∅; su_others := id |}.
Definition demo_pruned : Db :=
  demo_retired <| db_jobs := delete 4%N (db_jobs demo_retired) |>.
Definition demo_run : JobRetentionRun :=
  {| run_stats := {| st_candidates := 1; st_eligible := 1; st_pruned := 1 |};
     run_next_cursor := None |}.

#[global] Instance retention_stats_eq_dec : EqDecision JobRetentionStats.
Proof. solve_decision. Defined.
#[global] Instance retention_cursor_eq_dec : EqDecision JobRetentionCursor.
Proof. solve_decision. Defined.
#[global] Instance retention_run_eq_dec : EqDecision JobRetentionRun.
Proof. solve_decision. Defined.
#[global] Instance retention_error_eq_dec : EqDecision JobRetentionError.
Proof. solve_decision. Defined.
#[global] Instance result_eq_dec {E A} `{EqDecision E, EqDecision A} : EqDecision (result E A).
Proof. solve_decision. Defined.

Lemma demo_prunes :
  prune_terminal_jobs_from 11 demo_quiet demo_quiet demo_policy None demo_retired
  = Some (Ok demo_run, demo_pruned).
Proof. by_vm. Qed.

Lemma retention_pass_terminates_witness :
  ∃ run db', prune_terminal_jobs_from 11 demo_quiet demo_quiet demo_policy None demo_retired
      = Some (Ok run, db')
    ∧ st_pruned (run_stats run) ≤ batch_size demo_policy.
Proof.
  destruct (retention_pass_terminates 11 demo_quiet demo_quiet demo_policy None demo_retired)
    as (run & db' & H & _ & _ & Hb & _).
  - by_vm.
  - apply Z.leb_le. by_vm.
  - apply Z.ltb_lt. by_vm.
  - exists run, db'. exact (conj H Hb).
Defined.

Lemma retention_refines_approved_deletions_witness :
  prune_trace demo_quiet demo_quiet demo_policy 0 1 demo_retired demo_pruned.
Proof.
  exact (retention_refines_approved_deletions 11 demo_quiet demo_quiet demo_policy None
    demo_retired demo_run demo_pruned demo_prunes).
Defined.

Lemma retention_keeps_unfinished_work_witness :
  quiet_pass demo_quiet demo_policy 1 demo_retired demo_pruned.
Proof.
  apply (retention_keeps_unfinished_work 11 demo_quiet demo_quiet demo_policy None
    demo_retired demo_run demo_pruned).
  - exact demo_prunes.
  - intros k. by split.
Defined.
