(* ===== verification/Inbox.v ===== *)
(** * Inbox: submissions and the ingest aggregate

    [inbox/src/lib.rs]: URL normalisation, the validation of API and Telegram
    submissions, the request hash and the [Ingest] record with its transitions.
    The [url] crate, RFC 3339 formatting and the serialisation behind the
    request hash are interfaces. *)

From S2P Require Import Prelude Text Enums Jobs Publisher Db PublisherRepo Envelope.

(** ** The [url] crate

    A parsed URL through its components; a setter changes its own component.
    A default port is never reported, and [scheme] is lower case. *)
Record UrlParts := {
  url_scheme : Str;
  url_username : Str;
  url_password : option Str;
  url_host : option Str;
  url_port : option Z;
  url_query : list (Str * Str);
  url_fragment : option Str;
}.
#[global] Instance eta_url_parts : Eta UrlParts := fun u =>
  Build_UrlParts (url_scheme u) (url_username u) (url_password u) (url_host u) (url_port u)
    (url_query u) (url_fragment u).

Class UrlLib := {
  Url : Type;
  url_parse : Str → option Url;
  url_text : Url → Str;
  parts : Url → UrlParts;
  set_scheme : Str → Url → option Url;
  set_host : Str → Url → option Url;
  clear_port : Url → option Url;
  clear_fragment : Url → Url;
  clear_query : Url → Url;
  set_query_pairs : list (Str * Str) → Url → Url;
  scheme_lower : ∀ u, to_ascii_lowercase (url_scheme (parts u)) = url_scheme (parts u);
  set_host_parts : ∀ h u u', set_host h u = Some u' →
    parts u' = (parts u) <| url_host := Some h |>;
  clear_port_parts : ∀ u u', clear_port u = Some u' → parts u' = (parts u) <| url_port := None |>;
  clear_fragment_parts : ∀ u, parts (clear_fragment u) = (parts u) <| url_fragment := None |>;
  clear_fragment_none : ∀ u, url_fragment (parts u) = None → clear_fragment u = u;
  clear_query_parts : ∀ u, parts (clear_query u) = (parts u) <| url_query := [] |>;
  set_query_pairs_parts : ∀ q u, parts (set_query_pairs q u) = (parts u) <| url_query := q |>;
  url_parse_text : ∀ u, url_parse (url_text u) = Some u;
  url_text_trimmed : ∀ u, trim (url_text u) = url_text u ∧ url_text u ≠ [];
}.

Class SubmissionText {J : Json} := {
  (** [OffsetDateTime::format(&Rfc3339)]. *)
  rfc3339 : Z → Str;
}.

Inductive IngestValidationError :=
| EmptyUrl (field : Str)
| InvalidUrl (field : Str)
| UnsupportedScheme (field : Str)
| MissingHost (field : Str)
| CredentialsNotAllowed (field : Str)
| EmptyIdempotencyKey
| IdempotencyKeyTooLong
| InvalidInputEnvelope (e : IngestDataError)
| EmptyTag
| RequestedPublishAtForbidden
| RequestedPublishAtForbiddenForPostNow
| RequestedPublishAtNotFuture
| RequestedPostCaptionForbidden
| RequestedPostCaptionTooLong (max : Z)
| RequestedPostCaptionControlCharacter.

(** ** URL normalisation *)

Definition is_tracking_parameter (name : Str) : bool :=
  let name := to_ascii_lowercase name in
  starts_with (lit "utm_") name
  || existsb (λ n, bool_decide (name = lit n))
       ["fbclid"; "gclid"; "dclid"; "msclkid"; "mc_cid"; "mc_eid"]%string.

Definition is_http (scheme : Str) : bool :=
  bool_decide (scheme = lit "http") || bool_decide (scheme = lit "https").

Section Urls.
Context {U : UrlLib}.

Definition lower_scheme (field : Str) (u : Url) : result IngestValidationError Url :=
  let scheme := to_ascii_lowercase (url_scheme (parts u)) in
  if bool_decide (url_scheme (parts u) = scheme) then Ok u
  else ok_or (set_scheme scheme u) (InvalidUrl field).

Definition lower_host (field : Str) (u : Url) : result IngestValidationError Url :=
  match url_host (parts u) with
  | Some host =>
      let lower := to_ascii_lowercase host in
      if bool_decide (host = lower) then Ok u else ok_or (set_host lower u) (InvalidUrl field)
  | None => Ok u
  end.

Definition drop_default_port (field scheme : Str) (u : Url) : result IngestValidationError Url :=
  if (bool_decide (scheme = lit "http") && bool_decide (url_port (parts u) = Some 80))
     || (bool_decide (scheme = lit "https") && bool_decide (url_port (parts u) = Some 443))
  then ok_or (clear_port u) (InvalidUrl field) else Ok u.

Definition drop_tracking (u : Url) : Url :=
  let query := url_query (parts u) in
  let filtered := List.filter (λ p : Str * Str, negb (is_tracking_parameter p.1)) query in
  if (length filtered =? length query)%nat then u
  else match filtered with [] => clear_query u | _ => set_query_pairs filtered u end.

Definition normalize_url (input : Str) (field : Str) : result IngestValidationError Str :=
  let input := trim input in
  if is_empty input then Err (EmptyUrl field)
  else
    u ← ok_or (url_parse input) (InvalidUrl field);
    let scheme := to_ascii_lowercase (url_scheme (parts u)) in
    if negb (is_http scheme) then Err (UnsupportedScheme field)
    else if match url_host (parts u) with None => true | Some _ => false end
    then Err (MissingHost field)
    else if negb (is_empty (url_username (parts u)))
            || match url_password (parts u) with Some _ => true | None => false end
    then Err (CredentialsNotAllowed field)
    else
      u ← lower_scheme field u;
      u ← lower_host field u;
      u ← drop_default_port field scheme u;
      Ok (url_text (drop_tracking (clear_fragment u))).
End Urls.

(** ** Text fields *)

Definition MAX_IDEMPOTENCY_KEY_LENGTH : Z := 255.
Definition MAX_REQUESTED_POST_CAPTION_LENGTH : Z := 1024.

Definition normalize_idempotency_key (value : option Str)
    : result IngestValidationError (option Str) :=
  match value with
  | None => Ok None
  | Some value =>
      let value := trim value in
      if is_empty value then Err EmptyIdempotencyKey
      else if MAX_IDEMPOTENCY_KEY_LENGTH <? char_count value then Err IdempotencyKeyTooLong
      else Ok (Some value)
  end.

Definition normalize_optional_text (value : option Str) : option Str :=
  match value with
  | Some v => let v := trim v in if is_empty v then None else Some v
  | None => None
  end.

(** [for tag in input.supplied_tags]: [acc] holds the tags accepted so far. *)
Fixpoint normalize_supplied_tags (acc tags : list Str) : result IngestValidationError (list Str) :=
  match tags with
  | [] => Ok acc
  | tag :: tags =>
      let tag := to_ascii_lowercase (trim tag) in
      if is_empty tag then Err EmptyTag
      else normalize_supplied_tags
             (if existsb (λ existing, bool_decide (existing = tag)) acc then acc else acc ++ [tag])
             tags
  end.

Definition validate_requested_caption (caption : option Str) : result IngestValidationError unit :=
  match caption with
  | Some caption =>
      if MAX_REQUESTED_POST_CAPTION_LENGTH <? char_count caption
      then Err (RequestedPostCaptionTooLong MAX_REQUESTED_POST_CAPTION_LENGTH)
      else if existsb (λ c, is_control c && negb ((c =? 10) || (c =? 13) || (c =? 9))) caption
      then Err RequestedPostCaptionControlCharacter
      else Ok tt
  | None => Ok tt
  end.

Definition validate_requested_intent (action : RequestedAction.t) (at_ : option Z)
    (caption : option Str) (fresh : bool) (now : Z) : result IngestValidationError unit :=
  validate_requested_caption caption;;
  match action with
  | RequestedAction.Save =>
      match at_, caption with
      | Some _, _ => Err RequestedPublishAtForbidden
      | None, Some _ => Err RequestedPostCaptionForbidden
      | None, None => Ok tt
      end
  | RequestedAction.Queue =>
      match at_ with
      | Some t => if fresh && (t <=? now) then Err RequestedPublishAtNotFuture else Ok tt
      | None => Ok tt
      end
  | RequestedAction.PostNow =>
      match at_ with
      | Some _ => Err RequestedPublishAtForbiddenForPostNow
      | None => Ok tt
      end
  end.

(** ** Submissions *)

Record IngestSubmissionInput := {
  in_source_url : Str;
  in_submitted_via : SubmittedVia.t;
  in_page_url : option Str;
  in_page_title : option Str;
  in_supplied_caption : option Str;
  in_supplied_description : option Str;
  in_supplied_tags : list Str;
  in_requested_action : RequestedAction.t;
  in_requested_publish_at : option Z;
  in_requested_post_caption : option Str;
  in_idempotency_key : option Str;
}.

Section Submissions.
Context {J : Json} {S : JsonShape} {E : EnvelopeSerde} {U : UrlLib} {X : SubmissionText}
  {D : Digests}.

Record TelegramSubmissionInput := {
  tg_source_reference : Str;
  tg_submitted_via : SubmittedVia.t;
  tg_original_input : Value;
  tg_supplied_caption : option Str;
  tg_idempotency_key : option Str;
}.

Record IngestSubmission := {
  sub_kind : IngestKind.t;
  sub_submitted_via : SubmittedVia.t;
  sub_original_url : Str;
  sub_normalized_url : Str;
  sub_original_input : Value;
  sub_page_url : option Str;
  sub_page_title : option Str;
  sub_supplied_caption : option Str;
  sub_supplied_description : option Str;
  sub_supplied_tags : list Str;
  sub_requested_action : RequestedAction.t;
  sub_requested_publish_at : option Z;
  sub_requested_post_caption : option Str;
  sub_idempotency_key : option Str;
}.

(** [Serialize] of an optional string. *)
Definition opt_text (o : option Str) : Value := match o with Some s => of_str s | None => jnull end.

Definition submission_input (url : Str) (page_url page_title selected description : option Str)
    (tags : list Str) (action : RequestedAction.t) (at_ : option Z) (caption : option Str)
    : Value :=
  of_object (list_to_map
    [(lit "url", of_str url); (lit "page_url", opt_text page_url);
     (lit "page_title", opt_text page_title); (lit "selected_text", opt_text selected);
     (lit "description", opt_text description); (lit "tags", of_array (of_str <$> tags));
     (lit "requested_action", of_str (as_str action));
     (lit "requested_publish_at", opt_text (rfc3339 <$> at_));
     (lit "requested_post_caption", opt_text caption)]).

Definition normalize_page_url (page : option Str) : result IngestValidationError (option Str) :=
  match page with
  | Some p => Some <$> normalize_url p (lit "page URL")
  | None => Ok None
  end.

Definition try_new_inner (i : IngestSubmissionInput) (fresh : bool) (now : Z)
    : result IngestValidationError IngestSubmission :=
  let original_url := trim (in_source_url i) in
  normalized_url ← normalize_url original_url (lit "source URL");
  page_url ← normalize_page_url (in_page_url i);
  key ← normalize_idempotency_key (in_idempotency_key i);
  tags ← normalize_supplied_tags [] (in_supplied_tags i);
  let page_title := normalize_optional_text (in_page_title i) in
  let caption := normalize_optional_text (in_supplied_caption i) in
  let description := normalize_optional_text (in_supplied_description i) in
  let post_caption := normalize_optional_text (in_requested_post_caption i) in
  validate_requested_intent (in_requested_action i) (in_requested_publish_at i) post_caption
    fresh now;;
  Ok {| sub_kind := IngestKind.Url; sub_submitted_via := in_submitted_via i;
        sub_original_url := original_url; sub_normalized_url := normalized_url;
        sub_original_input :=
          submission_input original_url page_url page_title caption description tags
            (in_requested_action i) (in_requested_publish_at i) post_caption;
        sub_page_url := page_url; sub_page_title := page_title;
        sub_supplied_caption := caption; sub_supplied_description := description;
        sub_supplied_tags := tags; sub_requested_action := in_requested_action i;
        sub_requested_publish_at := in_requested_publish_at i;
        sub_requested_post_caption := post_caption; sub_idempotency_key := key |}.
Definition try_new (i : IngestSubmissionInput) (now : Z) := try_new_inner i true now.
Definition try_new_for_idempotency_lookup (i : IngestSubmissionInput) (now : Z) :=
  try_new_inner i false now.

Definition try_new_telegram (i : TelegramSubmissionInput)
    : result IngestValidationError IngestSubmission :=
  let reference := trim (tg_source_reference i) in
  if is_empty reference then Err (EmptyUrl (lit "Telegram source reference"))
  else
    key ← normalize_idempotency_key (tg_idempotency_key i);
    map_err InvalidInputEnvelope (decode (tg_original_input i));;
    Ok {| sub_kind := IngestKind.TelegramMessage; sub_submitted_via := tg_submitted_via i;
          sub_original_url := reference; sub_normalized_url := reference;
          sub_original_input := tg_original_input i; sub_page_url := None;
          sub_page_title := None;
          sub_supplied_caption := normalize_optional_text (tg_supplied_caption i);
          sub_supplied_description := None; sub_supplied_tags := [];
          sub_requested_action := RequestedAction.Save; sub_requested_publish_at := None;
          sub_requested_post_caption := None; sub_idempotency_key := key |}.

(** ** The aggregate *)

Record Ingest := {
  ig_id : Uuid;
  ig_workspace_id : Uuid;
  ig_kind : IngestKind.t;
  ig_status : IngestStatus.t;
  ig_submitted_via : SubmittedVia.t;
  ig_original_input : Value;
  ig_source_url : Str;
  ig_page_url : option Str;
  ig_page_title : option Str;
  ig_supplied_caption : option Str;
  ig_supplied_description : option Str;
  ig_supplied_tags : list Str;
  ig_requested_action : RequestedAction.t;
  ig_requested_publish_at : option Z;
  ig_requested_post_caption : option Str;
  ig_requested_channel_id : option Uuid;
  ig_idempotency_key : option Str;
  ig_media_id : option Uuid;
  ig_force_save : bool;
  ig_duplicate_evidence : option Value;
  ig_error_code : option Str;
  ig_error_message : option Str;
  ig_created_at : Z;
  ig_updated_at : Z;
  ig_completed_at : option Z;
}.
#[global] Instance eta_ingest : Eta Ingest := fun r =>
  Build_Ingest (ig_id r) (ig_workspace_id r) (ig_kind r) (ig_status r) (ig_submitted_via r)
    (ig_original_input r) (ig_source_url r) (ig_page_url r) (ig_page_title r)
    (ig_supplied_caption r) (ig_supplied_description r) (ig_supplied_tags r)
    (ig_requested_action r) (ig_requested_publish_at r) (ig_requested_post_caption r)
    (ig_requested_channel_id r) (ig_idempotency_key r) (ig_media_id r) (ig_force_save r)
    (ig_duplicate_evidence r) (ig_error_code r) (ig_error_message r) (ig_created_at r)
    (ig_updated_at r) (ig_completed_at r).

Record IngestStateError := { state_from : IngestStatus.t; state_to : IngestStatus.t }.

Definition from_submission (id : Uuid) (s : IngestSubmission) (now : Z)
    : result IngestDataError Ingest :=
  data ← decode (sub_original_input s);
  input ← encode data;
  Ok {| ig_id := id; ig_workspace_id := id; ig_kind := sub_kind s;
        ig_status := IngestStatus.Received; ig_submitted_via := sub_submitted_via s;
        ig_original_input := input; ig_source_url := sub_normalized_url s;
        ig_page_url := sub_page_url s; ig_page_title := sub_page_title s;
        ig_supplied_caption := sub_supplied_caption s;
        ig_supplied_description := sub_supplied_description s;
        ig_supplied_tags := sub_supplied_tags s;
        ig_requested_action := sub_requested_action s;
        ig_requested_publish_at := sub_requested_publish_at s;
        ig_requested_post_caption := sub_requested_post_caption s;
        ig_requested_channel_id := None; ig_idempotency_key := sub_idempotency_key s;
        ig_media_id := None; ig_force_save := false; ig_duplicate_evidence := None;
        ig_error_code := None; ig_error_message := None; ig_created_at := now;
        ig_updated_at := now; ig_completed_at := None |}.

Definition transition_to (r : Ingest) (target : IngestStatus.t) : result IngestStateError Ingest :=
  if negb (IngestStatus.can_transition_to (ig_status r) target)
  then Err {| state_from := ig_status r; state_to := target |}
  else Ok (r <| ig_status := target |>).

Definition input_data (r : Ingest) : result IngestDataError IngestData := decode (ig_original_input r).
Definition set_input_data (r : Ingest) (d : IngestData) : result IngestDataError Ingest :=
  v ← encode d; Ok (r <| ig_original_input := v |>).
End Submissions.

(** [serde_json::to_vec(&LegacyIngestSubmission { .. })]: the fields of the
    submission with the retired administrator id. *)
Class SubmissionDigest {J : Json} := {
  legacy_submission_json : option Uuid → IngestSubmission → list Z;
}.
Definition request_hash {J : Json} {D : Digests} {G : SubmissionDigest} (s : IngestSubmission)
    : list Z :=
  sha256 (legacy_submission_json None s).
