(* ===== verification/InboxRepo.v ===== *)
(** * InboxRepo: the ingest pipeline

    [persistence/src/inbox.rs]: creation of an ingest under its idempotency
    key, the stages of the pipeline (each begins and completes under the lease
    of its job, in one transaction with the row), failures, force-save,
    duplicate acceptance, storage notifications, workspace cleanup and the
    acknowledgement of failures.  [fresh] names the identifiers a call draws. *)

From S2P Require Import Prelude Text Enums Jobs Db Queue Cleanup Library LibraryRepo LibraryStorage.
From S2P Require Import Publisher PublisherRepo PublisherOps Envelope Inbox.

Inductive InboxRepositoryError :=
| IdempotencyConflict (key : Str)
| IngestNotFound (id : Uuid)
| MissingSourceUrl (id : Uuid)
| MissingMediaId (id : Uuid)
| InputEnvelope (e : IngestDataError)
| RequestNotFuture
| RequestedChannelNotConfigured
| RequestedChannelAmbiguous
| InvalidFailureStatus (s : IngestStatus.t)
| ForceSaveNotAllowed (s : IngestStatus.t)
| DuplicateDecisionNotAllowed (s : IngestStatus.t)
| DuplicateEvidenceMissing (id : Uuid)
| DuplicateCandidateNotEvidenced (id : Uuid)
| DuplicateCandidateMissing (id : Uuid)
| DuplicateCandidateUnavailable (id : Uuid) (state : Str)
| VideoFinalizationNotAllowed
| InboxEvidenceTooLarge (max : Z)
| InboxEvidenceTooManyMatches (max : Z)
| InvalidStateTransition (e : IngestStateError)
| InboxJobLeaseLost
| InboxDatabase (e : SqlError)
| InboxSerialization (e : Str)
| InboxLibrary (e : LibraryRepositoryError).

(** [fmt::Debug] of what appears in messages. *)
Class InboxText {J : Json} := {
  debug_str : Str → Str;
  debug_error : InboxRepositoryError → Str;
}.

Section Repo.
Context {J : Json} {P : PayloadSerde} {S : JsonShape} {E : EnvelopeSerde} {U : UrlLib}
  {X : SubmissionText} {D : Digests} {G : SubmissionDigest} {T : InboxText}.
Abbreviation itxn A := (txn Db InboxRepositoryError A).

(** ** Rows *)

Definition into_ingest (r : IngestRow) : result InboxRepositoryError Ingest :=
  data ← map_err InputEnvelope (decode (ingest_input_json r));
  canonical ← map_err InputEnvelope (encode data);
  url ← ok_or (ingest_source_url r) (MissingSourceUrl (ingest_id r));
  Ok {| ig_id := ingest_id r; ig_workspace_id := ingest_workspace_id r;
        ig_kind := ingest_input_kind r; ig_status := ingest_state r;
        ig_submitted_via := ingest_submitted_via r; ig_original_input := canonical;
        ig_source_url := url; ig_page_url := ingest_page_url r;
        ig_page_title := ingest_page_title r; ig_supplied_caption := ingest_supplied_caption r;
        ig_supplied_description := ingest_supplied_description r;
        ig_supplied_tags := ingest_supplied_tags r;
        ig_requested_action := ingest_requested_action r;
        ig_requested_publish_at := ingest_requested_publish_at r;
        ig_requested_post_caption := ingest_requested_post_caption r;
        ig_requested_channel_id := ingest_requested_channel_id r;
        ig_idempotency_key := Some (ingest_input_key r); ig_media_id := ingest_media_id r;
        ig_force_save := ingest_force_save r;
        ig_duplicate_evidence := ingest_duplicate_evidence r;
        ig_error_code := ingest_error_code r; ig_error_message := ingest_error_message r;
        ig_created_at := ingest_created_at r; ig_updated_at := ingest_updated_at r;
        ig_completed_at := ingest_completed_at r |}.

Definition load_request (id : Uuid) : itxn Ingest :=
  o ← select_ingest id;
  r ← require o (IngestNotFound id);
  lift (into_ingest r).

(** The columns [update_ingest_state] writes. *)
Definition with_request (q : Ingest) (r : IngestRow) : IngestRow :=
  r <| ingest_state := ig_status q; ingest_input_json := ig_original_input q;
       ingest_workspace_id := ig_workspace_id q; ingest_media_id := ig_media_id q;
       ingest_force_save := ig_force_save q;
       ingest_duplicate_evidence := ig_duplicate_evidence q;
       ingest_error_code := ig_error_code q; ingest_error_message := ig_error_message q;
       ingest_updated_at := ig_updated_at q; ingest_completed_at := ig_completed_at q |>.

Definition update_ingest_row (id : Uuid) (set : IngestRow → IngestRow) : itxn unit :=
  o ← select_ingest id;
  match o with Some r => write_ingest (set r) | None => mret tt end.
Definition update_ingest_state (q : Ingest) : itxn unit :=
  update_ingest_row (ig_id q) (with_request q).

(** ** Transitions of the loaded request *)

Fixpoint transitions (q : Ingest) (targets : list IngestStatus.t) : result IngestStateError Ingest :=
  match targets with
  | [] => Ok q
  | t :: targets => q ← transition_to q t; transitions q targets
  end.
Definition move (q : Ingest) (targets : list IngestStatus.t) : itxn Ingest :=
  lift (map_err InvalidStateTransition (transitions q targets)).

(** [error_code = None; error_message = None; completed_at = None; updated_at = now]. *)
Definition cleared (now : Z) (q : Ingest) : Ingest :=
  q <| ig_error_code := None; ig_error_message := None; ig_completed_at := None;
       ig_updated_at := now |>.

(** Move, clear the error columns and save. *)
Definition advance (q : Ingest) (targets : list IngestStatus.t) : itxn Ingest :=
  ck ← get_clock;
  q ← move q targets;
  let q := cleared (app_now ck) q in
  update_ingest_state q;;
  mret q.

Definition request_data (q : Ingest) : result InboxRepositoryError IngestData :=
  map_err InputEnvelope (input_data q).
Definition save_data (q : Ingest) (d : IngestData) : itxn Ingest :=
  lift (map_err InputEnvelope (set_input_data q d)).

(** ** Leases *)

Definition current_attempt (l : JobLease) (ck : Clock) (r : JobRow) : bool :=
  bool_decide (job_state r = JobStatus.Running)
  && (job_attempt_count r =? jl_attempt_number l)
  && bool_decide (job_lease_owner r = Some (jl_lease_owner l))
  && bool_decide (job_lease_token r = Some (jl_lease_token l))
  && match job_lease_expires_at r with Some t => sql_clock ck <? t | None => false end.

Definition lock_ingest_attempt (l : JobLease) : itxn bool :=
  ck ← get_clock;
  o ← select_job (jl_job_id l);
  mret (match o with Some r => current_attempt l ck r | None => false end).

Definition succeed_current_job_attempt (l : JobLease) : itxn unit :=
  ck ← get_clock;
  o ← select_job (jl_job_id l);
  r ← require o InboxJobLeaseLost;
  fail_if (negb (current_attempt l ck r)) InboxJobLeaseLost;;
  write_job (succeeded_job (sql_now ck) r).

(** ** Jobs of the pipeline *)

Definition insert_job (fresh : Uuid) (j : NewJob) (key : Str) : itxn unit :=
  insert_job_if_absent InboxDatabase fresh (with_dedupe_key key j).
Definition stage_dedupe_key (q : Ingest) (key : Str) : Str :=
  if ig_force_save q then key ++ lit ":force_save" else key.
Definition ingest_key (id : Uuid) (stage : string) : Str :=
  lit "ingest:" ++ uuid_to_string id ++ lit stage.

Definition insert_inspect_job (fresh : Uuid) (q : Ingest) : itxn unit :=
  insert_job fresh (new_inspect_source (ig_id q))
    (stage_dedupe_key q (ingest_key (ig_id q) ":inspect_source:v1")).
Definition insert_probe_job (fresh : Uuid) (q : Ingest) : itxn unit :=
  insert_job fresh (new_probe_asset (ig_id q))
    (stage_dedupe_key q (ingest_key (ig_id q) ":probe_asset:v1")).
Definition insert_finalize_job (fresh : Uuid) (q : Ingest) : itxn unit :=
  insert_job fresh (new_finalize_ingest (ig_id q))
    (stage_dedupe_key q (ingest_key (ig_id q) ":finalize_ingest:v1")).
Definition insert_normalize_job (fresh : Uuid) (q : Ingest) (force : bool) : itxn unit :=
  insert_job fresh (new_normalize_asset (ig_id q))
    (ingest_key (ig_id q) (if force then ":normalize_asset:v1:force_save" else ":normalize_asset:v1")).
Definition insert_fingerprint_job (fresh : Uuid) (q : Ingest) (force : bool) : itxn unit :=
  insert_job fresh (new_compute_fingerprint (ig_id q))
    (ingest_key (ig_id q)
       (if force then ":compute_fingerprint:v2:force_save" else ":compute_fingerprint:v2")).
Definition insert_materialization_job (fresh id : Uuid) : itxn unit :=
  insert_job fresh (new_materialize_publication id) (materialize_key id).
Definition insert_storage_job (fresh media : Uuid) : itxn unit :=
  o ← select_media media;
  match o with
  | Some r =>
      if storage_in MediaStorageState.Pending r then
        insert_job fresh (new_upload_storage_asset_generation media (media_storage_generation r))
          (upload_key media (media_storage_generation r))
      else mret tt
  | None => mret tt
  end.

(** The first job of an ingest, by its kind. *)
Definition insert_first_job (fresh : Uuid) (q : Ingest) : itxn unit :=
  match ig_kind q with
  | IngestKind.Url => insert_inspect_job fresh q
  | IngestKind.TelegramMessage | IngestKind.Upload => insert_probe_job fresh q
  end.
End Repo.
