(* ===== verification/InboxOps.v ===== *)
(** * InboxOps: the operations of the ingest repository

    The public methods of [InboxRepository]: one definition per method, each a
    transaction over the database. *)

From S2P Require Import Prelude Text Enums Jobs Db Queue Cleanup Library LibraryRepo LibraryStorage.
From S2P Require Import Preview MediaIdentity Publisher PublisherRepo PublisherOps Envelope Inbox InboxRepo.

(** [SourceInspectionStart], [SourceDownloadStart], [AssetProbeStart],
    [AssetNormalizationStart], [IngestFinalizationStart] and
    [IngestFingerprintStart] all have these two variants. *)
Inductive StageStart {J : Json} :=
| StageReady (q : Ingest)
| AlreadyAdvanced (q : Ingest).

Inductive WorkspaceCleanupStart := CleanupReady | CleanupDeferred | CleanupAlreadyAdvanced.

Record CreateIngestResult {J : Json} := { cr_ingest : Ingest; cr_created : bool }.
Record ForceSaveResult {J : Json} := { fs_ingest : Ingest; fs_resumed : bool }.
Record AcceptDuplicateResult {J : Json} := { ad_ingest : Ingest; ad_replayed : bool }.

(** Image formats the normaliser accepts. *)
Module ImageFormat.
Inductive t := Jpeg | Png | Unsupported | Unknown.
#[global] Instance t_eq_dec : EqDecision t.
Proof. solve_decision. Defined.
Definition debug (k : t) : Str :=
  lit match k with
      | Jpeg => "Jpeg" | Png => "Png" | Unsupported => "Unsupported" | Unknown => "Unknown"
      end.
End ImageFormat.

Section Ops.
Context {J : Json} {P : PayloadSerde} {S : JsonShape} {E : EnvelopeSerde} {U : UrlLib}
  {X : SubmissionText} {D : Digests} {G : SubmissionDigest} {T : InboxText} {C : CaseMapping}
  {I : ImageLib} {H : Sha256} {L : LibraryText}.
Abbreviation itxn A := (txn Db InboxRepositoryError A).

(** ** Creation *)

Definition has_input_key (k : Str) (r : IngestRow) : bool := bool_decide (ingest_input_key r = k).

Definition input_key (s : IngestSubmission) : Str :=
  default (as_str (sub_kind s) ++ lit ":" ++ sub_normalized_url s) (sub_idempotency_key s).

(** An existing row under the key: the same request is replayed. *)
Definition replay_ingest (r : IngestRow) (hash : list Z) (key : Str) : itxn CreateIngestResult :=
  fail_if (negb (bool_decide (ingest_request_hash r = hash))) (IdempotencyConflict key);;
  q ← load_request (ingest_id r);
  mret {| cr_ingest := q; cr_created := false |}.

Definition inserted_ingest (key : Str) (hash : list Z) (q : Ingest) : IngestRow :=
  {| ingest_id := ig_id q; ingest_workspace_id := ig_workspace_id q; ingest_input_key := key;
     ingest_request_hash := hash; ingest_input_kind := ig_kind q;
     ingest_state := IngestStatus.Queued; ingest_submitted_via := ig_submitted_via q;
     ingest_input_json := ig_original_input q; ingest_source_url := Some (ig_source_url q);
     ingest_page_url := ig_page_url q; ingest_page_title := ig_page_title q;
     ingest_supplied_caption := ig_supplied_caption q;
     ingest_supplied_description := ig_supplied_description q;
     ingest_supplied_tags := ig_supplied_tags q;
     ingest_requested_action := ig_requested_action q;
     ingest_requested_publish_at := ig_requested_publish_at q;
     ingest_requested_post_caption := ig_requested_post_caption q;
     ingest_requested_channel_id := ig_requested_channel_id q;
     ingest_media_id := ig_media_id q; ingest_force_save := false;
     ingest_duplicate_evidence := None; ingest_error_code := ig_error_code q;
     ingest_error_message := ig_error_message q; ingest_created_at := ig_created_at q;
     ingest_updated_at := ig_updated_at q; ingest_completed_at := ig_completed_at q;
     ingest_acknowledged_failure_at := None |}.

(** The publication target is fixed when the request is made. *)
Definition requested_channel (q : Ingest) : itxn Ingest :=
  if bool_decide (ig_requested_action q = RequestedAction.Save) then mret q
  else
    db ← get_state;
    match select_enabled_channel_candidates db with
    | [] => throw RequestedChannelNotConfigured
    | [c] => mret (q <| ig_requested_channel_id := Some c |>)
    | _ => throw RequestedChannelAmbiguous
    end.

(** [transition_to(Queued).expect(..)] cannot fail from [Received]. *)
Definition new_request (fresh : Uuid) (s : IngestSubmission) (now : Z)
    : result InboxRepositoryError Ingest :=
  q ← map_err InputEnvelope (from_submission fresh s now);
  q ← map_err InvalidStateTransition (transition_to q IngestStatus.Queued);
  d ← request_data q;
  let workspace := src_telegram_workspace_id (id_source d) ≫= parse_uuid in
  Ok (q <| ig_workspace_id := default (ig_id q) workspace |>).

Definition create_ingest_at (fresh fresh_job : Uuid) (s : IngestSubmission) (now : Z)
    : itxn CreateIngestResult :=
  let hash := request_hash s in
  let key := input_key s in
  db ← get_state;
  match find_row (has_input_key key) (db_ingests db) with
  | Some existing => replay_ingest existing hash key
  | None =>
      ck ← get_clock;
      q ← lift (new_request fresh s (app_now ck));
      fail_if (bool_decide (ig_requested_action q = RequestedAction.Queue)
               && match ig_requested_publish_at q with Some t => t <=? now | None => false end)
        RequestNotFuture;;
      q ← requested_channel q;
      (* [ON CONFLICT (input_key) DO NOTHING]: no row has the key here *)
      fail_if (is_some (db_ingests db !! fresh)) (InboxDatabase UniqueViolation);;
      write_ingest (inserted_ingest key hash q);;
      insert_first_job fresh_job q;;
      mret {| cr_ingest := q; cr_created := true |}
  end.
Definition create_ingest (fresh fresh_job : Uuid) (s : IngestSubmission) : itxn CreateIngestResult :=
  ck ← get_clock; create_ingest_at fresh fresh_job s (app_now ck).

(** ** Beginning a stage

    Under the current lease the stage starts from its own state, or resumes a
    retryable failure through the states in between. *)

Definition begin_stage (q : Ingest) (ready : IngestStatus.t → option (list IngestStatus.t))
    : itxn StageStart :=
  match ready (ig_status q) with
  | Some [] => mret (StageReady q)
  | Some targets => q ← advance q targets; mret (StageReady q)
  | None => mret (AlreadyAdvanced q)
  end.

Definition under_lease (l : JobLease) (q : Ingest) (m : itxn StageStart) : itxn StageStart :=
  current ← lock_ingest_attempt l;
  if (current : bool) then m else mret (AlreadyAdvanced q).

Definition begin_source_inspection (id : Uuid) (l : JobLease) : itxn StageStart :=
  q ← load_request id;
  under_lease l q (begin_stage q (λ s, match s with
    | IngestStatus.Queued => Some []
    | IngestStatus.FailedRetryable => Some [IngestStatus.Queued]
    | _ => None
    end)).

Definition begin_asset_probe (id : Uuid) (l : JobLease) : itxn StageStart :=
  q ← load_request id;
  under_lease l q (begin_stage q (λ s, match s with
    | IngestStatus.Queued => Some [IngestStatus.Downloading; IngestStatus.Probing]
    | IngestStatus.Downloading => Some [IngestStatus.Probing]
    | IngestStatus.Probing => Some []
    | IngestStatus.FailedRetryable =>
        Some [IngestStatus.Queued; IngestStatus.Downloading; IngestStatus.Probing]
    | _ => None
    end)).

Definition begin_source_download (id : Uuid) (l : JobLease) : itxn StageStart :=
  q ← load_request id;
  d ← lift (request_data q);
  if is_some (id_download d) then mret (AlreadyAdvanced q)
  else under_lease l q (begin_stage q (λ s, match s with
    | IngestStatus.Downloading => Some []
    | IngestStatus.FailedRetryable => Some [IngestStatus.Queued; IngestStatus.Downloading]
    | _ => None
    end)).

Definition begin_asset_normalization (id : Uuid) (l : JobLease) : itxn StageStart :=
  q ← load_request id;
  d ← lift (request_data q);
  if is_some (id_normalization d) && negb (ig_force_save q) then mret (AlreadyAdvanced q)
  else under_lease l q (begin_stage q (λ s, match s with
    | IngestStatus.Normalizing => Some []
    | IngestStatus.FailedRetryable =>
        Some [IngestStatus.Queued; IngestStatus.Downloading; IngestStatus.Probing;
              IngestStatus.Normalizing]
    | _ => None
    end)).

Definition begin_ingest_finalization (id : Uuid) (l : JobLease) : itxn StageStart :=
  q ← load_request id;
  under_lease l q (begin_stage q (λ s, match s with
    | IngestStatus.Storing => Some []
    | IngestStatus.FailedRetryable => Some [IngestStatus.Storing]
    | _ => None
    end)).

Definition begin_ingest_fingerprinting (id : Uuid) (l : JobLease) : itxn StageStart :=
  q ← load_request id;
  under_lease l q (begin_stage q (λ s, match s with
    | IngestStatus.Fingerprinting => Some []
    | IngestStatus.FailedRetryable => Some [IngestStatus.Fingerprinting]
    | _ => None
    end)).

(** ** Image formats *)

Definition request_media_kind (q : Ingest) : result InboxRepositoryError (option SourceMediaKind.t) :=
  d ← request_data q; Ok (data_media_kind d).
Definition normalized_media_kind (q : Ingest)
    : result InboxRepositoryError (option SourceMediaKind.t) :=
  d ← request_data q; Ok (an_media_kind <$> id_normalization d).
Definition request_mime_type (q : Ingest) : result InboxRepositoryError (option Str) :=
  d ← request_data q; Ok (data_mime_type d).
Definition request_file_name (q : Ingest) : result InboxRepositoryError (option Str) :=
  d ← request_data q; Ok (src_file_name (id_source d)).

Definition image_format_from_mime (mime : Str) : ImageFormat.t :=
  let mime := trim (before_char 59 mime) in
  if eq_ignore_ascii_case mime (lit "image/jpeg") then ImageFormat.Jpeg
  else if eq_ignore_ascii_case mime (lit "image/png") then ImageFormat.Png
  else if starts_with (lit "image/") (to_ascii_lowercase mime) then ImageFormat.Unsupported
  else ImageFormat.Unknown.

Definition image_format_from_file_name (name : Str) : ImageFormat.t :=
  let ext := to_ascii_lowercase (after_last_char 46 name) in
  let ext_is s := bool_decide (ext = lit s) in
  if ext_is "jpg" || ext_is "jpeg" then ImageFormat.Jpeg
  else if ext_is "png" then ImageFormat.Png
  else if ext_is "gif" || ext_is "webp" || ext_is "avif" then ImageFormat.Unsupported
  else ImageFormat.Unknown.

Definition probed_image_format (probe : Value) : ImageFormat.t :=
  match probe_image_format probe with
  | Some value =>
      let value := to_ascii_lowercase value in
      if contains (lit "jpeg") value || contains (lit "mjpeg") value then ImageFormat.Jpeg
      else if contains (lit "png") value then ImageFormat.Png
      else if contains (lit "gif") value || contains (lit "webp") value
              || contains (lit "avif") value then ImageFormat.Unsupported
      else ImageFormat.Unknown
  | None => ImageFormat.Unknown
  end.

Definition declared_image_format (mime file : option Str) : ImageFormat.t :=
  match image_format_from_mime <$> mime with
  | Some f =>
      if bool_decide (f = ImageFormat.Unknown)
      then default ImageFormat.Unknown (image_format_from_file_name <$> file) else f
  | None => default ImageFormat.Unknown (image_format_from_file_name <$> file)
  end.

Definition request_image_format_is_supported (q : Ingest) (probe : Value)
    : result InboxRepositoryError bool :=
  mime ← request_mime_type q;
  file ← request_file_name q;
  Ok match probed_image_format probe with
     | ImageFormat.Jpeg | ImageFormat.Png => true
     | ImageFormat.Unsupported => false
     | ImageFormat.Unknown =>
         match declared_image_format mime file with
         | ImageFormat.Jpeg | ImageFormat.Png => true
         | _ => false
         end
     end.

(** [{:?}] of a [Result<Option<String>, _>]. *)
Definition debug_text (r : result InboxRepositoryError (option Str)) : Str :=
  match r with
  | Ok (Some s) => lit "Ok(Some(" ++ debug_str s ++ lit "))"
  | Ok None => lit "Ok(None)"
  | Err e => lit "Err(" ++ debug_error e ++ lit ")"
  end.
Definition debug_kind (k : SourceMediaKind.t) : Str :=
  lit match k with
      | SourceMediaKind.Video => "Video" | SourceMediaKind.Image => "Image"
      | SourceMediaKind.Audio => "Audio" | SourceMediaKind.Animation => "Animation"
      | SourceMediaKind.Unknown => "Unknown"
      end.

(** ** Completing a stage *)

Definition failed (code message : Str) (completed : option Z) (now : Z) (q : Ingest) : Ingest :=
  q <| ig_error_code := Some code; ig_error_message := Some message;
       ig_completed_at := completed; ig_updated_at := now |>.

Definition cleanup_later (fresh : Uuid) (q : Ingest) (delay : Z) : itxn unit :=
  ck ← get_clock;
  enqueue_workspace_cleanup InboxDatabase fresh (ig_id q) (ig_workspace_id q) (app_now ck + delay).

(** A completion that finds the stage already done answers the current row. *)
Definition complete_under (l : JobLease) (q : Ingest) (expected : bool) (m : itxn Ingest)
    : itxn Ingest :=
  if negb expected then mret q
  else
    current ← lock_ingest_attempt l;
    if (current : bool) then m else mret q.

Definition complete_source_inspection (fresh id : Uuid) (l : JobLease) (i : SourceInspection)
    : itxn Ingest :=
  q ← load_request id;
  complete_under l q (bool_decide (ig_status q = IngestStatus.Queued))
    (d ← lift (request_data q);
     q ← save_data q (d <| id_inspection := Some i |>);
     q ← advance q [IngestStatus.Downloading];
     insert_job fresh (new_download_source id i)
       (stage_dedupe_key q (ingest_key id ":download_source:v1"));;
     succeed_current_job_attempt l;;
     mret q).

Definition complete_source_download (fresh id : Uuid) (l : JobLease) (x : SourceDownload)
    : itxn Ingest :=
  q ← load_request id;
  d ← lift (request_data q);
  complete_under l q (bool_decide (ig_status q = IngestStatus.Downloading)
                      && is_none (id_download d))
    (ck ← get_clock;
     q ← save_data q (d <| id_download := Some x |>);
     let q := q <| ig_error_code := None; ig_error_message := None;
                   ig_updated_at := app_now ck |> in
     update_ingest_row (ig_id q) (λ r,
       r <| ingest_input_json := ig_original_input q; ingest_error_code := ig_error_code q;
            ingest_error_message := ig_error_message q;
            ingest_updated_at := ig_updated_at q |>);;
     insert_probe_job fresh q;;
     succeed_current_job_attempt l;;
     mret q).

Definition unsupported_code (kind : option SourceMediaKind.t) (image : bool) : Str :=
  match kind with
  | Some SourceMediaKind.Image =>
      if image then lit "unsupported_image_format" else lit "unsupported_media_kind"
  | Some _ => lit "unsupported_media_kind"
  | None => lit "invalid_ingest_state"
  end.
Definition unsupported_message (q : Ingest) (kind : option SourceMediaKind.t) (image : bool)
    (probed : ImageFormat.t) : Str :=
  let composed k := lit "asset media kind " ++ debug_kind k
                    ++ lit " is not supported by the composed normalizers" in
  match kind with
  | Some SourceMediaKind.Image =>
      if image then
        lit "image input is not a supported JPEG/PNG (declared MIME "
          ++ debug_text (request_mime_type q) ++ lit ", file name "
          ++ debug_text (request_file_name q) ++ lit ", probed format "
          ++ ImageFormat.debug probed ++ lit ")"
      else composed SourceMediaKind.Image
  | Some k => composed k
  | None => lit "ingest request has no stored source media kind"
  end.

Definition supported_kind (kind : option SourceMediaKind.t) : bool :=
  match kind with
  | Some (SourceMediaKind.Video | SourceMediaKind.Image | SourceMediaKind.Animation
          | SourceMediaKind.Audio) => true
  | _ => false
  end.

Definition complete_asset_probe (fresh id : Uuid) (l : JobLease) (probe : Value) : itxn Ingest :=
  q ← load_request id;
  complete_under l q (bool_decide (ig_status q = IngestStatus.Probing))
    (ck ← get_clock;
     d ← lift (request_data q);
     declared ← lift (request_media_kind q);
     let detected := probe_media_kind probe in
     let kind := match detected with Some k => Some k | None => declared end in
     image ← lift (if bool_decide (kind = Some SourceMediaKind.Image)
                   then negb <$> request_image_format_is_supported q probe else Ok false);
     q ← save_data q (d <| id_probe := Some probe; id_probed_media_kind := detected |>);
     let q := q <| ig_updated_at := app_now ck |> in
     update_ingest_row (ig_id q) (λ r,
       r <| ingest_input_json := ig_original_input q; ingest_updated_at := ig_updated_at q |>);;
     if negb (supported_kind kind) || image then
       q1 ← move q [IngestStatus.FailedTerminal];
       let q1 := failed (unsupported_code kind image)
                   (unsupported_message q kind image (probed_image_format probe))
                   (Some (app_now ck)) (app_now ck) q1 in
       update_ingest_state q1;;
       cleanup_later fresh q1 WORKSPACE_CLEANUP_RETENTION;;
       succeed_current_job_attempt l;;
       mret q1
     else
       q ← advance q [IngestStatus.Normalizing];
       insert_normalize_job fresh q (ig_force_save q);;
       succeed_current_job_attempt l;;
       mret q).

Definition complete_asset_normalization (fresh id : Uuid) (l : JobLease) (n : AssetNormalization)
    : itxn Ingest :=
  q ← load_request id;
  d ← lift (request_data q);
  complete_under l q (bool_decide (ig_status q = IngestStatus.Normalizing)
                      && negb (is_some (id_normalization d) && negb (ig_force_save q)))
    (q ← save_data q (d <| id_normalization := Some n |>);
     kind ← lift (normalized_media_kind q);
     let is_video := bool_decide (kind = Some SourceMediaKind.Video) in
     q ← advance q [if is_video then IngestStatus.Fingerprinting else IngestStatus.Storing];
     (if is_video then insert_fingerprint_job fresh q (ig_force_save q)
      else insert_finalize_job fresh q);;
     succeed_current_job_attempt l;;
     mret q).

(** ** After the media is known *)

(** [request.media_id = Some(..)] and the error columns cleared. *)
Definition with_media (media : Uuid) (q : Ingest) : Ingest :=
  q <| ig_media_id := Some media; ig_error_code := None; ig_error_message := None;
       ig_completed_at := None |>.

Definition advance_after_media_processing (fresh_m fresh_c : Uuid) (q : Ingest) (media : Uuid)
    : itxn Ingest :=
  ck ← get_clock;
  o ← select_media media;
  r ← require o (MissingMediaId (ig_id q));
  let q := with_media media q in
  q ← match media_storage_state r with
      | MediaStorageState.Ready =>
          q ← move q [IngestStatus.Completed];
          let q := q <| ig_completed_at := Some (app_now ck) |> in
          (if bool_decide (ig_requested_action q = RequestedAction.Save) then mret tt
           else insert_materialization_job fresh_m (ig_id q));;
          cleanup_later fresh_c q 0;;
          mret q
      | MediaStorageState.Pending =>
          q ← move q [IngestStatus.Storing];
          insert_storage_job fresh_m media;;
          mret q
      | MediaStorageState.Unknown | MediaStorageState.Missing =>
          q ← move q [IngestStatus.FailedTerminal];
          let q := failed (lit "storage_unknown")
                     (lit "media storage requires explicit reconciliation before ingest can complete")
                     (Some (app_now ck)) (ig_updated_at q) q in
          cleanup_later fresh_c q WORKSPACE_CLEANUP_RETENTION;;
          mret q
      end;
  let q := q <| ig_updated_at := app_now ck |> in
  update_ingest_state q;;
  mret q.

Definition complete_ingest_finalization (fresh_m fresh_c id : Uuid) (l : JobLease)
    (f : IngestFinalization) : itxn Ingest :=
  q ← load_request id;
  d ← lift (request_data q);
  complete_under l q (bool_decide (ig_status q = IngestStatus.Storing)
                      && is_none (id_finalization d))
    (ck ← get_clock;
     kind ← lift (normalized_media_kind q);
     fail_if (bool_decide (kind = Some SourceMediaKind.Video)) VideoFinalizationNotAllowed;;
     q ← save_data (q <| ig_media_id := Some (fin_media_id f) |>)
           (d <| id_finalization := Some f |>);
     let q := q <| ig_error_code := None; ig_error_message := None;
                   ig_updated_at := app_now ck |> in
     q ← advance_after_media_processing fresh_m fresh_c q (fin_media_id f);
     succeed_current_job_attempt l;;
     mret q).

(** ** Video identity

    The advisory lock of [VideoIdentitySession] orders the two transactions
    against other identity decisions and has no effect on data. *)

Inductive IngestVideoIdentityStart :=
| VideoReady (q : Ingest) (p : VideoIdentityPreparation)
| VideoAlreadyAdvanced (q : Ingest).

Definition begin_video_identity (id : Uuid) (l : JobLease) (i : MediaIngest)
    (f : option VideoFingerprintInput) : itxn IngestVideoIdentityStart :=
  q ← load_request id;
  current ← (if negb (bool_decide (ig_status q = IngestStatus.Fingerprinting)) then mret false
             else lock_ingest_attempt l);
  if negb (current : bool) then mret (VideoAlreadyAdvanced q)
  else
    db ← get_state;
    p ← lift (map_err InboxLibrary (prepare_video_identity i f (ig_force_save q) db));
    mret (VideoReady q p).

(** The ingest waits at the duplicate gate with its evidence. *)
Definition hold_duplicate (fresh_c : Uuid) (q : Ingest) (e : VideoDuplicateEvidence) : itxn Ingest :=
  fail_if (MAX_VIDEO_DUPLICATE_MATCHES <? Z.of_nat (length (ev_matches e)))
    (InboxEvidenceTooManyMatches MAX_VIDEO_DUPLICATE_MATCHES);;
  fail_if (MAX_VIDEO_DUPLICATE_EVIDENCE_BYTES <? evidence_len e)
    (InboxEvidenceTooLarge MAX_VIDEO_DUPLICATE_EVIDENCE_BYTES);;
  q ← move q [IngestStatus.DuplicatePending];
  let q := q <| ig_media_id := None; ig_duplicate_evidence := Some (to_value e);
                ig_error_code := None; ig_error_message := None; ig_completed_at := None |> in
  cleanup_later fresh_c q WORKSPACE_CLEANUP_RETENTION;;
  mret q.

Definition complete_video_identity (fresh fresh_job fresh_m fresh_c id : Uuid) (l : JobLease)
    (i : MediaIngest) (f : option VideoFingerprintInput) (d : VideoIdentityDecision)
    : itxn Ingest :=
  q ← load_request id;
  complete_under l q (bool_decide (ig_status q = IngestStatus.Fingerprinting))
    (outcome ← lift_err InboxLibrary
                 (persist_video_identity fresh fresh_job i f d (ig_force_save q));
     ck ← get_clock;
     q ← match outcome with
         | DuplicatePendingOutcome e => hold_duplicate fresh_c q e
         | ExactDuplicate media | NewMediaRow media =>
             advance_after_media_processing fresh_m fresh_c
               (q <| ig_duplicate_evidence := None |>) media
         end;
     let q := q <| ig_updated_at := app_now ck |> in
     update_ingest_state q;;
     succeed_current_job_attempt l;;
     mret q).

(** ** Failures *)

Definition is_failure (s : IngestStatus.t) : bool :=
  match s with IngestStatus.FailedRetryable | IngestStatus.FailedTerminal => true | _ => false end.

Record IngestFailureGuard := {
  ignore_completed_download : bool;
  guard_attempt : option JobLease;
  guard_expected_status : option IngestStatus.t;
}.

Definition fail_ingest_step (fresh id : Uuid) (status : IngestStatus.t) (code message : Str)
    (guard : IngestFailureGuard) : itxn Ingest :=
  fail_if (negb (is_failure status)) (InvalidFailureStatus status);;
  q ← load_request id;
  skip ← lift (if ignore_completed_download guard
               then (d ← request_data q; Ok (is_some (id_download d))) else Ok false);
  if (skip : bool) then mret q
  else if match guard_expected_status guard with
          | Some s => negb (bool_decide (ig_status q = s))
          | None => false
          end then mret q
  else
    current ← match guard_attempt guard with Some l => lock_ingest_attempt l | None => mret true end;
    if negb (current : bool) then mret q
    else if IngestStatus.is_terminal (ig_status q) then mret q
    else
      ck ← get_clock;
      q ← move q [status];
      let terminal := bool_decide (status = IngestStatus.FailedTerminal) in
      let q := failed code message (if terminal then Some (app_now ck) else None) (app_now ck) q in
      update_ingest_state q;;
      (if terminal then cleanup_later fresh q WORKSPACE_CLEANUP_RETENTION else mret tt);;
      mret q.

Definition stage_guard (ignore : bool) (l : JobLease) (s : IngestStatus.t) : IngestFailureGuard :=
  {| ignore_completed_download := ignore; guard_attempt := Some l;
     guard_expected_status := Some s |}.
Definition fail_source_inspection (fresh id : Uuid) (l : JobLease) (s : IngestStatus.t)
    (code message : Str) : itxn Ingest :=
  fail_ingest_step fresh id s code message (stage_guard false l IngestStatus.Queued).
Definition fail_source_download (fresh id : Uuid) (l : JobLease) (s : IngestStatus.t)
    (code message : Str) : itxn Ingest :=
  fail_ingest_step fresh id s code message (stage_guard true l IngestStatus.Downloading).
Definition fail_asset_probe (fresh id : Uuid) (l : JobLease) (s : IngestStatus.t)
    (code message : Str) : itxn Ingest :=
  fail_ingest_step fresh id s code message (stage_guard false l IngestStatus.Probing).
Definition fail_asset_normalization (fresh id : Uuid) (l : JobLease) (s : IngestStatus.t)
    (code message : Str) : itxn Ingest :=
  fail_ingest_step fresh id s code message (stage_guard false l IngestStatus.Normalizing).
Definition fail_ingest_fingerprint (fresh id : Uuid) (l : JobLease) (s : IngestStatus.t)
    (code message : Str) : itxn Ingest :=
  fail_ingest_step fresh id s code message (stage_guard false l IngestStatus.Fingerprinting).
Definition fail_ingest_finalization (fresh id : Uuid) (l : JobLease) (s : IngestStatus.t)
    (code message : Str) : itxn Ingest :=
  fail_ingest_step fresh id s code message (stage_guard false l IngestStatus.Storing).

(** ** Decisions about duplicates *)

Definition clear_pipeline_artifacts (q : Ingest) : itxn Ingest :=
  d ← lift (request_data q);
  save_data q (d <| id_inspection := None; id_download := None; id_probe := None;
                    id_probed_media_kind := None; id_normalization := None;
                    id_finalization := None |>).

(** The states in which a force-saved ingest answers a repeated command. *)
Definition force_save_underway (s : IngestStatus.t) : bool :=
  match s with
  | IngestStatus.Queued | IngestStatus.Downloading | IngestStatus.Probing
  | IngestStatus.Normalizing | IngestStatus.Fingerprinting | IngestStatus.Storing
  | IngestStatus.Completed => true
  | _ => false
  end.

Definition force_save (fresh_w fresh id : Uuid) : itxn ForceSaveResult :=
  q ← load_request id;
  if bool_decide (ig_status q = IngestStatus.DuplicatePending) then
    let q := q <| ig_force_save := true; ig_workspace_id := fresh_w;
                  ig_duplicate_evidence := None |> in
    q ← clear_pipeline_artifacts q;
    q ← advance q [IngestStatus.Queued];
    insert_first_job fresh q;;
    mret {| fs_ingest := q; fs_resumed := true |}
  else if force_save_underway (ig_status q) && ig_force_save q then
    mret {| fs_ingest := q; fs_resumed := false |}
  else throw (ForceSaveNotAllowed (ig_status q)).

Definition merge_duplicate_tags (existing incoming : list Str) : list Str :=
  fold_left (λ tags tag, if existsb (λ t, bool_decide (t = tag)) tags then tags else tags ++ [tag])
    incoming existing.

Definition accepted_media (d : IngestData) : option Uuid :=
  x ← id_duplicate_decision d;
  if (dd_version x =? 1) && match dd_kind x with Accepted => true end
  then Some (dd_media_id x) else None.

Definition accept_decision (media : Uuid) : DuplicateDecisionData :=
  {| dd_version := 1; dd_kind := Accepted; dd_media_id := media |}.

Definition load_evidence (q : Ingest) : result InboxRepositoryError VideoDuplicateEvidence :=
  v ← ok_or (ig_duplicate_evidence q) (DuplicateEvidenceMissing (ig_id q));
  map_err InboxSerialization (from_value v).

Definition storage_state_text (s : MediaStorageState.t) : Str := as_str s.

(** A request that has been decided answers only the same decision; otherwise
    the ingest must wait at the duplicate gate. *)
Definition accept_duplicate (fresh id media : Uuid) : itxn AcceptDuplicateResult :=
  q ← load_request id;
  d ← lift (request_data q);
  match id_duplicate_decision d with
  | Some _ =>
      if negb (ig_force_save q) && is_some (accepted_media d)
         && bool_decide (ig_media_id q = accepted_media d)
         && bool_decide (accepted_media d = Some media)
      then mret {| ad_ingest := q; ad_replayed := true |}
      else throw (DuplicateDecisionNotAllowed (ig_status q))
  | None =>
      fail_if (negb (bool_decide (ig_status q = IngestStatus.DuplicatePending)))
        (DuplicateDecisionNotAllowed (ig_status q));;
      ev ← lift (load_evidence q);
      fail_if (negb (existsb (λ m, (vm_media_id m =? media)%N) (ev_matches ev)))
        (DuplicateCandidateNotEvidenced media);;
      o ← select_media media;
      r ← require o (DuplicateCandidateMissing media);
      fail_if (negb (storage_in MediaStorageState.Ready r || storage_in MediaStorageState.Pending r))
        (DuplicateCandidateUnavailable media (storage_state_text (media_storage_state r)));;
      ck ← get_clock;
      let description := normalize_optional_text (ig_supplied_description q) in
      _ ← update_media_where InboxDatabase media (λ _, true)
            (λ m, m <| media_tags := merge_duplicate_tags (media_tags r) (ig_supplied_tags q);
                       media_description := match description with
                                            | Some x => Some x
                                            | None => media_description m
                                            end;
                       media_updated_at := sql_now ck |>);
      q ← save_data (q <| ig_media_id := Some media |>)
            (d <| id_duplicate_decision := Some (accept_decision media) |>);
      let q := q <| ig_duplicate_evidence := None; ig_error_code := None;
                    ig_error_message := None; ig_completed_at := None |> in
      q ← move q [IngestStatus.Storing];
      q ← (if storage_in MediaStorageState.Ready r then
             q ← move q [IngestStatus.Completed];
             let q := q <| ig_completed_at := Some (app_now ck) |> in
             (if bool_decide (ig_requested_action q = RequestedAction.Save) then mret tt
              else insert_materialization_job fresh (ig_id q));;
             mret q
           else mret q);
      let q := q <| ig_updated_at := app_now ck |> in
      update_ingest_state q;;
      mret {| ad_ingest := q; ad_replayed := false |}
  end.

(** ** Notifications from storage *)

(** [.. (state = 'storing' OR (state IN ('failed_retryable', 'failed_terminal')
    AND error_code IN ('storage_upload', 'storage_unknown')))]. *)
Definition storage_pending_ingest (media : Uuid) (i : IngestRow) : bool :=
  linked media i
  && (ingest_in IngestStatus.Storing i
      || (ingest_in IngestStatus.FailedRetryable i && storage_error i)
      || (ingest_in IngestStatus.FailedTerminal i && storage_error i)).

Definition complete_storage_for_media (gen gen_c : Uuid → Uuid) (media : Uuid) : itxn Z :=
  ck ← get_clock;
  db ← get_state;
  let ready := match db_media db !! media with
               | Some r => storage_in MediaStorageState.Ready r
               | None => false
               end in
  let guard i := ready && storage_pending_ingest media i in
  let updated := select_rows guard (db_ingests db) in
  update_ingests_where guard (completed_ingest (app_now ck));;
  for_each (λ i, if bool_decide (ingest_requested_action i = RequestedAction.Save) then mret tt
                 else insert_materialization_job (gen (ingest_id i)) (ingest_id i)) updated;;
  _ ← update_media_where InboxDatabase media (storage_in MediaStorageState.Ready)
        (λ m, m <| media_local_work_path := None |>);
  enqueue_workspace_cleanup_for_media InboxDatabase gen_c media (app_now ck);;
  mret (Z.of_nat (length updated)).

Definition fail_storage_for_media (gen_c : Uuid → Uuid) (media : Uuid) (status : IngestStatus.t)
    (code message : Str) : itxn Z :=
  fail_if (negb (is_failure status)) (InvalidFailureStatus status);;
  ck ← get_clock;
  let now := app_now ck in
  let terminal := bool_decide (status = IngestStatus.FailedTerminal) in
  let guard i := linked media i
                 && (ingest_in IngestStatus.Storing i
                     || (ingest_in IngestStatus.FailedRetryable i
                         && bool_decide (ingest_error_code i = Some (lit "storage_upload")))) in
  db ← get_state;
  let n := length (select_rows guard (db_ingests db)) in
  update_ingests_where guard (λ i,
    i <| ingest_state := status; ingest_error_code := Some code;
         ingest_error_message := Some message;
         ingest_completed_at := (if terminal then Some now else None);
         ingest_updated_at := now |>);;
  (if terminal then
     o ← update_media_where InboxDatabase media (storage_in MediaStorageState.Pending)
           (without_upload MediaStorageState.Missing now);
     if is_some o
     then enqueue_workspace_cleanup_for_media InboxDatabase gen_c media
            (now + WORKSPACE_CLEANUP_RETENTION)
     else mret tt
   else mret tt);;
  mret (Z.of_nat n).

(** ** Workspace cleanup

    The advisory fence and the row locks order concurrent callers and have no
    effect on data. *)

Definition media_or_ingest_job (db : Db) (job ingest : Uuid) (media : option Uuid) : bool :=
  existsb (λ j, negb (bool_decide (job_id j = job)))
    (select_rows (λ j,
       (bool_decide (job_state j = JobStatus.Queued) || bool_decide (job_state j = JobStatus.Running))
       && negb (bool_decide (job_kind j = JobType.CleanupWorkspace))
       && (bool_decide (json_text (job_payload j) "ingest_id" = Some (uuid_to_string ingest))
           || match media with
              | Some m => bool_decide (json_text (job_payload j) "media_id" = Some (uuid_to_string m))
              | None => false
              end))
     (db_jobs db)).

Definition storage_resolved (o : option MediaRow) : bool :=
  match media_storage_state <$> o with
  | None | Some MediaStorageState.Ready | Some MediaStorageState.Missing => true
  | Some _ => false
  end.

Definition begin_workspace_cleanup (l : JobLease) (ingest workspace : Uuid)
    : itxn WorkspaceCleanupStart :=
  current ← lock_ingest_attempt l;
  if negb (current : bool) then mret CleanupAlreadyAdvanced
  else
    o ← select_ingest ingest;
    r ← require o (IngestNotFound ingest);
    if negb (bool_decide (ingest_workspace_id r = workspace)) then mret CleanupReady
    else
      db ← get_state;
      if media_or_ingest_job db (jl_job_id l) ingest (ingest_media_id r) then mret CleanupDeferred
      else if cleanup_resting (ingest_state r)
              && storage_resolved (ingest_media_id r ≫= (db_media db !!.)) then
        ck ← get_clock;
        match ingest_media_id r with
        | Some m =>
            _ ← update_media_where InboxDatabase m
                  (λ x, (storage_in MediaStorageState.Ready x || storage_in MediaStorageState.Missing x)
                        && is_some (media_local_work_path x))
                  (λ x, x <| media_local_work_path := None; media_updated_at := sql_now ck |>);
            mret CleanupReady
        | None => mret CleanupReady
        end
      else mret CleanupDeferred.

(** ** Review of terminal failures

    [failure_revision] is the MD5 digest of the listed failures. *)

Definition failure_at (i : IngestRow) : Z :=
  match ingest_completed_at i with Some t => t | None => ingest_updated_at i end.
Definition unreviewed (i : IngestRow) : bool :=
  ingest_in IngestStatus.FailedTerminal i
  && negb (bool_decide (ingest_acknowledged_failure_at i = Some (failure_at i))).
Definition ingest_failures (db : Db) : list (Uuid * Z) :=
  order_by (λ a b, (a.1 <=? b.1)%N)
    ((λ i, (ingest_id i, failure_at i)) <$> select_rows unreviewed (db_ingests db)).

Context (failure_revision : list (Uuid * Z) → Str).

Definition ingest_failure_summary (db : Db) : Z * Str :=
  (Z.of_nat (length (ingest_failures db)), failure_revision (ingest_failures db)).

Definition acknowledge_ingest_failures (expected : Str) : itxn bool :=
  db ← get_state;
  let '(count, revision) := ingest_failure_summary db in
  let ok := (count =? 0) || bool_decide (revision = expected) in
  (if ok then update_ingests_where unreviewed
                (λ i, i <| ingest_acknowledged_failure_at := Some (failure_at i) |>)
   else mret tt);;
  mret ok.
End Ops.
