(* ===== verification/UploadProvider.v ===== *)
(** * UploadProvider: uploads to the storage chat

    [telegram/src/storage.rs], [StorageUploadProvider::upload_with_cancellation], and
    the two storage handlers of [apps/worker/src/storage.rs], as programs over the
    calls they await: the library and ingest repositories, the file system, the
    cancellation flag and Telegram.

    The upload runs concurrently with the renewal of its reservation inside a
    [select!] loop.  [UDispatch] starts the request; [USelect] is one round of the
    loop, answered by what happened first; a round may see the renewal timer, so the
    loop takes a bound [ticks] on the number of renewals, and the last round
    ([UAwait]) can only see the end of the request or a cancellation.  The upload
    client has a timeout of at most a day, which bounds the renewals, one a minute;
    every theorem holds for every bound. *)

From S2P Require Import Prelude Enums Jobs Db Queue Proc Preview Library LibraryRepo.
From S2P Require Import LibraryStorage Telegram MediaIdentity Inbox InboxRepo InboxOps.
From S2P Require Import Text.

(** ** Errors *)

Inductive StorageUploadApiError :=
| StApi (e : RequestError)
| StMissingFileReference (media_kind : MediaKind.t)
| StorageChatNotPrivateChannel
| StorageBotNotAdministrator
| StorageBotCannotPost.

Definition api_error_is_retryable (e : StorageUploadApiError) : bool :=
  match e with
  | StApi (RequestApi (ApiUnknown _)) | StApi (Network _) | StApi (InvalidJson _)
  | StApi (RequestIo _) | StApi (RetryAfter _) => true
  | _ => false
  end.

Record StorageUploadInput := { ui_media_id : Uuid; ui_generation : Z }.
Record StorageUploadRequest := {
  ur_storage_chat_id : Z;
  ur_media_kind : MediaKind.t;
  ur_local_work_path : Str;
  ur_caption : Str;
  ur_duration : option Z;
  ur_width : option Z;
  ur_height : option Z;
  ur_thumbnail_path : option Str;
}.
Record StorageUploadResult := {
  us_message_id : Z;
  us_file_id : Str;
  us_file_unique_id : Str;
}.
Record StorageCaptionEditRequest := {
  ce_chat_id : Z;
  ce_message_id : Z;
  ce_caption : Str;
}.
Inductive StorageUploadOutcome := Uploaded (r : StorageReceipt) | ReusedReceipt (r : StorageReceipt).

(** The traits; their calls are calls of the programs.  [as_storage_error] is the
    [downcast_ref] of a boxed error. *)
Class TelegramStorageApi := {
  UpError : Type;
  up_is_ambiguous : UpError → bool;
  as_storage_error : UpError → option StorageUploadApiError;
}.
Class TelegramStorageCaptionApi := {
  CapError : Type;
  caption_is_retryable : CapError → bool;
}.

Definition teloxide_upload_is_ambiguous (e : StorageUploadApiError) : bool :=
  match e with
  | StApi (RequestApi (ApiUnknown _)) | StApi (Network _) | StApi (InvalidJson _)
  | StApi (RequestIo _) => true
  | StApi _ => false
  | StMissingFileReference _ => true
  | StorageChatNotPrivateChannel | StorageBotNotAdministrator | StorageBotCannotPost => false
  end.
#[global] Instance TeloxideStorageApi : TelegramStorageApi :=
  {| UpError := StorageUploadApiError; up_is_ambiguous := teloxide_upload_is_ambiguous;
     as_storage_error := Some |}.

Inductive StorageCaptionApiError :=
| CapApi (e : RequestError)
| CapInvalidMessageId (id : Z).
Definition teloxide_caption_is_retryable (e : StorageCaptionApiError) : bool :=
  match e with
  | CapApi (RequestApi (ApiUnknown _)) | CapApi (Network _) | CapApi (InvalidJson _)
  | CapApi (RequestIo _) | CapApi (RetryAfter _) => true
  | _ => false
  end.
#[global] Instance TeloxideCaptionApi : TelegramStorageCaptionApi :=
  {| CapError := StorageCaptionApiError; caption_is_retryable := teloxide_caption_is_retryable |}.

Definition is_idempotent_caption_edit_error (e : RequestError) : bool :=
  match e with RequestApi MessageNotModified => true | _ => false end.

(** [edit_storage_caption]: the answer, given what the Bot API says to the edit. *)
Definition edit_storage_caption (q : StorageCaptionEditRequest)
    (bot : Z → Z → Str → result RequestError unit) : result StorageCaptionApiError unit :=
  if (i32_min <=? ce_message_id q) && (ce_message_id q <=? i32_max) then
    match bot (ce_chat_id q) (ce_message_id q) (ce_caption q) with
    | Ok _ => Ok tt
    | Err e => if is_idempotent_caption_edit_error e then Ok tt else Err (CapApi e)
    end
  else Err (CapInvalidMessageId (ce_message_id q)).

Inductive StorageUploadError {Ua : TelegramStorageApi} :=
| InvalidStorageChatId
| UpMediaMissing (id : Uuid)
| MediaMissingSha256 (id : Uuid)
| UpWorkspaceReclaimed (id : Uuid)
| UpInvalidSha256Length (actual : nat)
| LocalFileUnavailable (path : Str)
| LocalFileOutsideWorkRoot (path root : Str)
| StorageOutputLimitExceeded (size limit : Z)
| TelegramUploadLimitExceeded (size limit : Z)
| UpHash (e : Str)
| HashMismatch (expected actual : Str)
| InvalidVideoMetadata (field : string)
| InvalidVideoThumbnail (reason : string)
| ThumbnailStaging (path source : Str)
| UpInProgress (retry_at : option Z)
| UpReconciliationRequired (id : Uuid)
| UpStaleGeneration (requested current : Z)
| CancelledBeforeDispatch
| CancelledAfterDispatch
| Persistence (e : LibraryRepositoryError)
| UpApi (e : UpError)
| AmbiguousApi (e : UpError)
| AmbiguousPersistence (e : LibraryRepositoryError).

Section Errors.
Context {Ua : TelegramStorageApi}.

Definition is_retryable (e : StorageUploadError) : bool :=
  match e with
  | UpInProgress _ | Persistence _ => true
  | UpApi source =>
      match as_storage_error source with Some e => api_error_is_retryable e | None => true end
  | CancelledBeforeDispatch => true
  | _ => false
  end.

Definition is_terminal_configuration (e : StorageUploadError) : bool :=
  match e with
  | UpApi source =>
      match as_storage_error source with
      | Some e => negb (api_error_is_retryable e)
      | None => false
      end
  | _ => false
  end.

Definition is_ambiguous (e : StorageUploadError) : bool :=
  match e with
  | AmbiguousApi _ | AmbiguousPersistence _ | CancelledAfterDispatch => true
  | _ => false
  end.
End Errors.

(** ** Calls *)

(** [symlink_metadata]: is it a file, is it a link. *)
Record FileKind := { fk_is_file : bool; fk_is_symlink : bool }.

(** The first branch of the [select!] that is ready: the cancellation (with the value
    of the [dispatched] flag), the end of the request, the renewal timer. *)
Inductive upload_event {Ua : TelegramStorageApi} :=
| EvCancelled (dispatched : bool)
| EvDone (r : result UpError StorageUploadResult)
| EvTick.
(** The same without the timer. *)
Inductive upload_end {Ua : TelegramStorageApi} :=
| EndCancelled (dispatched : bool)
| EndDone (r : result UpError StorageUploadResult).

Section Calls.
Context {J : Json} {Ua : TelegramStorageApi} {Ca : TelegramStorageCaptionApi}.

Inductive storage_call :=
| UFindMedia (media : Uuid)
| UFindReceipt (media : Uuid)
| UFindPreview (media : Uuid)
| UReserve (media : Uuid) (generation : Z)
| URenew (media token : Uuid)
| URelease (media token : Uuid)
| UMark (media token : Uuid)
| UComplete (media token : Uuid) (a : StorageUploadAttachment)
| USymlinkMetadata (path : Str)
| UCanonicalize (path : Str)
| UFileLength (path : Str)
| USha256 (path : Str)
| UDrawName
| UStageFile (path : Str) (bytes : list Z)
| URemoveFile (path : Str)
| UIsCancelled
| UDispatch (token : Uuid) (request : StorageUploadRequest)
| USelect (token : Uuid)
| UAwait (token : Uuid)
| UCompleteIngests (media : Uuid)
| UFailIngests (media : Uuid) (status : IngestStatus.t) (code message : Str)
| UBeginCaption (media : Uuid) (generation : Z) (token : Uuid)
| UEditCaption (request : StorageCaptionEditRequest)
| UCompleteCaption (media : Uuid) (generation : Z) (token : Uuid) (succeeded retry : bool)
    (error : option Str).

(** A completion may lose the race against the cancellation: [None], with its
    transaction committed or not. *)
#[global] Instance storage_interface : Interface :=
  {| call := storage_call;
     answer c := match c with
       | UFindMedia _ => result LibraryRepositoryError (option Media)
       | UFindReceipt _ => result LibraryRepositoryError (option StorageReceipt)
       | UFindPreview _ => result LibraryRepositoryError (option MediaPreviewData)
       | UReserve _ _ => result LibraryRepositoryError StorageUploadReservation
       | URenew _ _ => result LibraryRepositoryError Z
       | URelease _ _ | UMark _ _ => result LibraryRepositoryError unit
       | UComplete _ _ _ => option (result LibraryRepositoryError StorageReceipt)
       | USymlinkMetadata _ => option FileKind
       | UCanonicalize _ => option Str
       | UFileLength _ => option Z
       | USha256 _ => result Str FileDigest
       | UDrawName => Uuid
       | UStageFile _ _ => result Str unit
       | URemoveFile _ => unit
       | UIsCancelled => bool
       | UDispatch _ _ => unit
       | USelect _ => upload_event
       | UAwait _ => upload_end
       | UCompleteIngests _ => result InboxRepositoryError Z
       | UFailIngests _ _ _ _ => result InboxRepositoryError Z
       | UBeginCaption _ _ _ => result LibraryRepositoryError (option CaptionSyncClaim)
       | UEditCaption _ => result CapError unit
       | UCompleteCaption _ _ _ _ _ _ => result LibraryRepositoryError CaptionSyncCompletion
       end |}.
End Calls.

(** ** The provider *)

Record StorageUploadProvider := {
  sp_chat_id : Z;
  sp_max_storage_bytes : option Z;
  sp_work_root : option Str;
  sp_api_limit : option Z;           (* [api.max_upload_bytes()] *)
}.

Section Provider.
Context {J : Json} {Ua : TelegramStorageApi} {Ca : TelegramStorageCaptionApi} {Im : ImageLib}.
Abbreviation upload A := (proc (result StorageUploadError A)).

Definition provider_new (chat : Z) (api_limit : option Z)
    : result StorageUploadError StorageUploadProvider :=
  if 0 <=? chat then Err InvalidStorageChatId
  else Ok {| sp_chat_id := chat; sp_max_storage_bytes := None; sp_work_root := None;
             sp_api_limit := api_limit |}.

Definition fail {A} (e : StorageUploadError) : upload A := Done (Err e).
(** [.map_err(|error| StorageUploadError::Persistence(..))?]. *)
Definition stored {A} (r : result LibraryRepositoryError A) : upload A :=
  Done (map_err Persistence r).
Definition unless {A} (o : option A) (e : StorageUploadError) : upload A := Done (ok_or o e).

Definition checked_video_dimension (value : option Z) (field : string)
    : result StorageUploadError (option Z) :=
  match value with
  | Some v => if 0 <? v then Ok (Some v) else Err (InvalidVideoMetadata field)
  | None => Ok None
  end.

(** The local file: a regular file inside the work root and within the limits. *)
Definition check_local_file (pv : StorageUploadProvider) (path : Str) : upload unit :=
  kind ←? (o ← ask (USymlinkMetadata path); unless o (LocalFileUnavailable path));
  if negb (fk_is_file kind) || fk_is_symlink kind then fail (LocalFileUnavailable path)
  else
    _ ←? match sp_work_root pv with
         | None => Done (Ok tt)
         | Some root =>
             croot ←? (o ← ask (UCanonicalize root); unless o (LocalFileUnavailable root));
             cfile ←? (o ← ask (UCanonicalize path); unless o (LocalFileUnavailable path));
             if path_starts_with cfile croot then Done (Ok tt)
             else fail (LocalFileOutsideWorkRoot path croot)
         end;
    size ←? (o ← ask (UFileLength path); unless o (LocalFileUnavailable path));
    let over := λ limit : option Z, match limit with Some l => l <? size | None => false end in
    if over (sp_max_storage_bytes pv)
    then fail (StorageOutputLimitExceeded size (default 0 (sp_max_storage_bytes pv)))
    else if over (sp_api_limit pv)
    then fail (TelegramUploadLimitExceeded size (default 0 (sp_api_limit pv)))
    else Done (Ok tt).

(** What a video needs besides its file. *)
Definition video_fields (media : Media) : result StorageUploadError (Z * Z * Z) :=
  duration ← match md_duration_ms media with
             | Some d =>
                 if 0 <? d then
                   let s := (d + 999) / 1000 in
                   if s <=? u32_max then Ok s else Err (InvalidVideoMetadata "duration_ms")
                 else Err (InvalidVideoMetadata "duration_ms")
             | None => Err (InvalidVideoMetadata "duration_ms")
             end;
  w ← checked_video_dimension (md_width media) "width";
  width ← ok_or w (InvalidVideoMetadata "width");
  h ← checked_video_dimension (md_height media) "height";
  height ← ok_or h (InvalidVideoMetadata "height");
  Ok (duration, width, height).

(** [stage_video_thumbnail]: the path of the staged file. *)
Definition stage_video_thumbnail (canonical : Str) (p : MediaPreviewData) : upload Str :=
  let m := pd_metadata p in
  if negb (bool_decide (pm_mime_type m = lit "image/jpeg"))
  then fail (InvalidVideoThumbnail "Telegram video thumbnails must be JPEG")
  else
    match validate_bounded_preview_for_mime (pd_bytes p) (Some (lit "image/jpeg")) with
    | Err _ => fail (InvalidVideoThumbnail "thumbnail bytes must be a bounded JPEG")
    | Ok wh =>
        if negb (pm_width m =? wh.1) || negb (pm_height m =? wh.2)
        then fail (InvalidVideoThumbnail "thumbnail dimensions do not match encoded JPEG")
        else if negb (length (pm_sha256 m) =? 32)%nat
        then fail (InvalidVideoThumbnail "thumbnail SHA-256 must contain 32 bytes")
        else
          match path_parent canonical with
          | None => fail (InvalidVideoThumbnail "canonical media path has no workspace parent")
          | Some parent =>
              name ← ask UDrawName;
              let path := path_join parent
                (lit ".sooqa-storage-thumbnail-" ++ uuid_to_string name ++ lit ".jpg") in
              _ ←? (r ← ask (UStageFile path (pd_bytes p));
                    Done (map_err (ThumbnailStaging path) r));
              (* the guard removes the staged file on the two early returns *)
              r ← ask (USha256 path);
              match r with
              | Err e => _ ← ask (URemoveFile path); fail (UpHash e)
              | Ok digest =>
                  if bool_decide (fd_sha256 digest = hex_digest (pm_sha256 m)) then Done (Ok path)
                  else
                    _ ← ask (URemoveFile path);
                    fail (InvalidVideoThumbnail "thumbnail SHA-256 does not match encoded JPEG")
              end
          end
    end.
(** Give a reservation up after its request may have been delivered; [e] is the error
    to report. *)
Definition mark_unknown {A} (media token : Uuid) (e : StorageUploadError) : upload A :=
  Ask (UMark media token) (λ r,
    match r with
    | Err mark => fail (AmbiguousPersistence mark)
    | Ok _ => fail e
    end).
(** Give a reservation back before its request was delivered. *)
Definition release {A} (media token : Uuid) (e : StorageUploadError) : upload A :=
  Ask (URelease media token) (λ r,
    match r with
    | Err err => fail (Persistence err)
    | Ok _ => fail e
    end).

Definition cancelled {A} (media token : Uuid) (dispatched : bool) : upload A :=
  if dispatched then mark_unknown media token CancelledAfterDispatch
  else release media token CancelledBeforeDispatch.

(** The [select!] loop, with at most [ticks] renewals. *)
Fixpoint await_upload (media token : Uuid) (ticks : nat)
    : upload (result UpError StorageUploadResult) :=
  match ticks with
  | O => Ask (UAwait token) (λ e,
      match e with
      | EndCancelled dispatched => cancelled media token dispatched
      | EndDone r => Done (Ok r)
      end)
  | S ticks => Ask (USelect token) (λ e,
      match e with
      | EvCancelled dispatched => cancelled media token dispatched
      | EvDone r => Done (Ok r)
      | EvTick => Ask (URenew media token) (λ r,
          match r with
          | Ok _ => await_upload media token ticks
          | Err err => mark_unknown media token (AmbiguousPersistence err)
          end)
      end)
  end.

Definition attachment_of (pv : StorageUploadProvider) (caption : StorageCaptionMetadata)
    (u : StorageUploadResult) : StorageUploadAttachment :=
  {| at_chat_id := sp_chat_id pv; at_message_id := us_message_id u;
     at_file_id := Some (us_file_id u); at_file_unique_id := Some (us_file_unique_id u);
     at_caption_metadata := Some caption |}.

(** After Telegram confirmed the message. *)
Definition complete_upload (media token : Uuid) (a : StorageUploadAttachment)
    : upload StorageUploadOutcome :=
  Ask UIsCancelled (λ c : bool,
    if c then mark_unknown media token CancelledAfterDispatch
    else Ask (UComplete media token a) (λ r,
      match r with
      | None => mark_unknown media token CancelledAfterDispatch
      | Some (Ok receipt) => Done (Ok (Uploaded receipt))
      | Some (Err err) => mark_unknown media token (AmbiguousPersistence err)
      end)).

(** The reserved part: dispatch, await, settle. *)
Definition reserved_upload (pv : StorageUploadProvider) (media token : Uuid) (ticks : nat)
    (caption : StorageCaptionMetadata) (request : StorageUploadRequest)
    : upload StorageUploadOutcome :=
  Ask UIsCancelled (λ c : bool,
    if c then release media token CancelledBeforeDispatch
    else Ask (UDispatch token request) (λ _,
      r ←? await_upload media token ticks;
      match r with
      | Ok u => complete_upload media token (attachment_of pv caption u)
      | Err e =>
          if up_is_ambiguous e then mark_unknown media token (AmbiguousApi e)
          else release media token (UpApi e)
      end)).

(** From the reservation to the end: stage the thumbnail, upload, remove it. *)
Definition upload_reserved (pv : StorageUploadProvider) (ticks : nat) (media_kind : MediaKind.t)
    (path : Str) (video : option (Z * Z * Z)) (preview : option MediaPreviewData)
    (media token : Uuid) (caption : StorageCaptionMetadata) : upload StorageUploadOutcome :=
  staged ← match preview with
           | None => Done (Ok None)
           | Some p => t ←? stage_video_thumbnail path p; Done (Ok (Some t))
           end;
  match staged with
  | Err e => Ask (URelease media token) (λ _, fail e)
  | Ok thumbnail =>
      r ← reserved_upload pv media token ticks caption
            {| ur_storage_chat_id := sp_chat_id pv; ur_media_kind := media_kind;
               ur_local_work_path := path; ur_caption := storage_caption caption;
               ur_duration := (λ v, v.1.1) <$> video; ur_width := (λ v, v.1.2) <$> video;
               ur_height := (λ v, v.2) <$> video; ur_thumbnail_path := thumbnail |};
      match thumbnail with
      | Some t => Ask (URemoveFile t) (λ _, Done r)
      | None => Done r
      end
  end.

Definition upload_with_cancellation (pv : StorageUploadProvider) (ticks : nat)
    (input : StorageUploadInput) : upload StorageUploadOutcome :=
  let id := ui_media_id input in
  found ←? (r ← ask (UFindMedia id); stored r);
  media ←? unless found (UpMediaMissing id);
  receipt ←? (r ← ask (UFindReceipt id); stored r);
  match receipt with
  | Some receipt => Done (Ok (ReusedReceipt receipt))
  | None =>
      sha ←? unless (md_sha256 media) (MediaMissingSha256 id);
      if negb (length sha =? 32)%nat then fail (UpInvalidSha256Length (length sha))
      else
        path ←? unless (md_local_work_path media) (UpWorkspaceReclaimed id);
        _ ←? check_local_file pv path;
        digest ←? (r ← ask (USha256 path); Done (map_err UpHash r));
        if negb (bool_decide (fd_sha256 digest = hex_digest sha))
        then fail (HashMismatch (hex_digest sha) (fd_sha256 digest))
        else
          extra ←? (if bool_decide (md_kind media = MediaKind.Video) then
                      v ←? Done (video_fields media);
                      p ←? (r ← ask (UFindPreview id); stored r);
                      Done (Ok (Some v, p))
                    else Done (Ok (None, None)));
          reservation ←? (r ← ask (UReserve id (ui_generation input)); stored r);
          match reservation with
          | Reserved reserved token caption =>
              upload_reserved pv ticks (md_kind media) path extra.1 extra.2 reserved token caption
          | Reused receipt => Done (Ok (ReusedReceipt receipt))
          | InProgress retry_at => fail (UpInProgress retry_at)
          | ReconciliationRequired => fail (UpReconciliationRequired id)
          | StaleGeneration current => fail (UpStaleGeneration (ui_generation input) current)
          end
  end.
End Provider.

(** ** The handlers *)

Section Handlers.
Context {J : Json} {Ua : TelegramStorageApi} {Ca : TelegramStorageCaptionApi} {Im : ImageLib}.
Context {Du : Display StorageUploadError} {Dl : Display LibraryRepositoryError}.
Context {Di : Display InboxRepositoryError} {Dc : Display CapError}.
Abbreviation handler := (proc (result HandlerFailure unit)).

Definition map_library_error (e : LibraryRepositoryError) : HandlerFailure :=
  match e with
  | LibDatabase _ => retryable (lit "database_error") (display e)
  | _ => permanent (lit "library_error") (display e)
  end.

Definition map_inbox_error (e : InboxRepositoryError) : HandlerFailure :=
  match e with
  | InboxLibrary l => map_library_error l
  | InputEnvelope _ | IngestNotFound _ | MissingSourceUrl _ | InvalidFailureStatus _
  | InvalidStateTransition _ | VideoFinalizationNotAllowed | InboxEvidenceTooManyMatches _
  | InboxEvidenceTooLarge _ => permanent (lit "invalid_ingest_state") (display e)
  | _ => retryable (lit "database_error") (display e)
  end.

(** The last attempt of a job. *)
Definition exhausted (job : Job) : bool := jb_max_attempts job <=? jb_attempt_count job.

(** Record the failure on the ingests that wait for the media. *)
Definition settle_upload_failure (job : Job) (media : Uuid) (e : StorageUploadError) : handler :=
  let message := display e in
  let terminal := negb (is_retryable e) || exhausted job in
  let status := if terminal then IngestStatus.FailedTerminal else IngestStatus.FailedRetryable in
  Ask (UFailIngests media status (lit "storage_upload") message) (λ r,
    match r with
    | Err err => mret (Err (map_inbox_error err))
    | Ok _ => mret (Err (if terminal then permanent (lit "storage_upload") message
                         else retryable (lit "storage_upload") message))
    end).

(** What the handler makes of a failed upload. *)
Definition upload_failed (job : Job) (media : Uuid) (e : StorageUploadError) : handler :=
  let message := display e in
  match e with
  | UpStaleGeneration _ _ => mret (Ok tt)
  | CancelledBeforeDispatch =>
      mret (Err (retryable_without_consuming_attempt (lit "storage_upload_cancelled") message))
  | AmbiguousPersistence _ => mret (Err (storage_reconciliation_required message))
  | AmbiguousApi _ | CancelledAfterDispatch =>
      mret (Err (permanent (lit "storage_upload_unknown") message))
  | UpInProgress (Some retry_at) =>
      if exhausted job then settle_upload_failure job media e
      else mret (Err (failure_defer (lit "storage_upload_in_progress") message retry_at))
  | _ => settle_upload_failure job media e
  end.

Definition upload_storage_asset (pv : StorageUploadProvider) (ticks : nat) (job : Job) : handler :=
  match jb_command job with
  | UploadStorageAsset p =>
      r ← upload_with_cancellation pv ticks
            {| ui_media_id := media_job_id p; ui_generation := media_job_generation p |};
      match r with
      | Ok _ => Ask (UCompleteIngests (media_job_id p)) (λ r,
          mret (match r with Ok _ => Ok tt | Err e => Err (map_inbox_error e) end))
      | Err e => upload_failed job (media_job_id p) e
      end
  | _ => mret (Err (permanent (lit "invalid_payload")
           (lit "upload_storage_asset handler received a different job command")))
  end.

Definition sync_storage_caption (job : Job) : handler :=
  match jb_command job with
  | SyncStorageCaption p =>
      match lease job with
      | None => mret (Err (permanent (lit "invalid_job_state")
                  (lit "sync_storage_caption handler requires a running job lease")))
      | Some attempt =>
          let media := media_job_id p in
          let generation := media_job_generation p in
          let token := jl_lease_token attempt in
          Ask (UBeginCaption media generation token) (λ r,
            match r with
            | Err e => mret (Err (map_library_error e))
            | Ok None => mret (Ok tt)
            | Ok (Some claim) =>
                Ask (UEditCaption {| ce_chat_id := cc_chat_id claim;
                       ce_message_id := cc_message_id claim;
                       ce_caption := storage_caption (cc_metadata claim) |}) (λ edited,
                  match edited with
                  | Ok _ =>
                      Ask (UCompleteCaption media generation token true false None) (λ r,
                        mret (match r with Ok _ => Ok tt | Err e => Err (map_library_error e) end))
                  | Err error =>
                      let message := display error in
                      let again := caption_is_retryable error
                                   && (jb_attempt_count job <? jb_max_attempts job) in
                      Ask (UCompleteCaption media generation token false again (Some message)) (λ r,
                        mret (match r with
                              | Err e => Err (map_library_error e)
                              | Ok _ => Err (if again then retryable (lit "caption_sync") message
                                             else permanent (lit "caption_sync") message)
                              end))
                  end)
            end)
      end
  | _ => mret (Err (permanent (lit "invalid_payload")
           (lit "sync_storage_caption handler received a different job command")))
  end.
End Handlers.
