(* ===== verification/Bot.v ===== *)
(** * Bot: the Telegram intake of the server

    [telegram/src/service.rs] (messages, commands and media sent to the bot, the limiter of
    its replies), [telegram/src/polling.rs] (long polling, retries, the offset that
    acknowledges updates), the errors and records of [telegram/src/lib.rs] they exchange, the
    polling part of [telegram/src/client.rs], and [DatabaseIngestService] of
    [apps/server/src/main.rs], as programs over the calls they await.

    A [teloxide] message is seen through the accessors the source reads.  The limiter is
    shared by handlers that run one after the other, and is threaded through them.  The
    polling loops take a bound on their rounds; [None] is the answer of a loop that has
    reached it.  Durations and instants are in microseconds. *)

From S2P Require Import Prelude Enums Text Jobs Db Publisher PublisherRepo Envelope Inbox InboxRepo InboxOps.
From S2P Require Import Proc Library Telegram UploadProvider.

(** ** Pieces of text *)

(** [str::trim_matches] with a set of characters. *)
Fixpoint trim_start_matches (p : Z → bool) (s : Str) : Str :=
  match s with [] => [] | c :: s' => if p c then trim_start_matches p s' else s end.
Definition trim_matches (p : Z → bool) (s : Str) : Str :=
  reverse (trim_start_matches p (reverse (trim_start_matches p s))).

(** ** What the crate exchanges *)

Inductive TelegramMedia :=
| Supported (media_kind : MediaKind.t) (file_id file_unique_id : Str) (file_size : option Z)
    (mime_type file_name : option Str)
| ProbeableDocument (file_id file_unique_id : Str) (file_size : option Z)
    (mime_type file_name : option Str)
| UnsupportedDocument (file_name mime_type : option Str).

Record IncomingMessage := {
  im_update_id : Z;
  im_message_id : Z;
  im_reply_to_message_id : option Z;
  im_user_id : option Z;
  im_chat_id : Z;
  im_is_private : bool;
  im_text : option Str;
  im_caption : option Str;
  im_media : option TelegramMedia;
}.

Inductive Command := Start | Help | Add | Status.
#[global] Instance command_eq_dec : EqDecision Command.
Proof. solve_decision. Defined.

Inductive HandleOutcome :=
| NonMessageIgnored | NonPrivateIgnored | RateLimited | MediaRejected | Unauthorized
| UnrecognizedIgnored | CallbackHandled
| Responded (c : Command).

Record UrlIngestCommand := {
  uc_source_url : Str;
  uc_idempotency_key : Str;
  uc_submitted_by_user_id : Z;
}.
Record MediaIngestCommand := {
  mc_update_id : Z;
  mc_message_id : Z;
  mc_chat_id : Z;
  mc_submitted_by_user_id : Z;
  mc_media_kind : option MediaKind.t;
  mc_file_id : Str;
  mc_file_unique_id : Str;
  mc_file_size : option Z;
  mc_mime_type : option Str;
  mc_file_name : option Str;
  mc_caption : option Str;
  mc_idempotency_key : Str;
}.
Record IngestAccepted := { ia_request_id : Uuid; ia_status : Str }.

Definition START_RESPONSE : Str := lit "sooqa is ready. You are authorized.".
Definition STATUS_RESPONSE : Str := lit "sooqa is online.".
Definition UNAUTHORIZED_RESPONSE : Str :=
  lit "This bot is restricted to its configured administrator.".
Definition ADD_USAGE_RESPONSE : Str := lit "Send one http(s) URL after /add, or send a bare URL.".
(** A line of the help text: the command, an em dash and its meaning. *)
Definition help_line (command meaning : string) : Str :=
  10 :: lit command ++ [32; 8212; 32] ++ lit meaning.
Definition HELP_RESPONSE : Str :=
  lit "Available commands:" ++ help_line "/start" "show authorization"
    ++ help_line "/help" "show this help" ++ help_line "/add <url>" "queue a URL"
    ++ help_line "/status" "show service status".

(** ** [teloxide] *)

Record TgFile := {
  tf_id : Str;
  tf_unique_id : Str;
  tf_size : Z;
  tf_mime_type : option Str;
  tf_file_name : option Str;
}.

(** A message through its accessors; [tg_photo] is the list of sizes of a photograph. *)
Record TgMessage := {
  tg_id : Z;
  tg_reply_to : option Z;
  tg_from : option Z;
  tg_chat_id : Z;
  tg_is_private : bool;
  tg_text : option Str;
  tg_caption : option Str;
  tg_photo : option (list TgFile);
  tg_video : option TgFile;
  tg_animation : option TgFile;
  tg_document : option TgFile;
}.
Inductive UpdateKind := UpdateMessage (m : TgMessage) | UpdateCallback (id : Str) | UpdateOther.
Record Update := { update_id : Z; update_kind : UpdateKind }.

(** [UpdateId::as_offset]: the offset that acknowledges the update. *)
Class UpdateOffsets := {
  as_offset : Z → Z;
  as_offset_next : ∀ i, 0 ≤ i < i32_max → as_offset i = i + 1;
}.

(** ** Errors *)

Inductive TelegramPollingError :=
| PollApi (e : RequestError)
| PollStorage (e : StorageUploadApiError).

Inductive TelegramIngestError {J : Json} :=
| TiValidation (e : IngestValidationError)
| TiRepository (e : InboxRepositoryError).

(** The [Box<dyn Error>] of [TelegramError::Api]: what the source puts in or looks for. *)
Inductive boxed_error :=
| BoxedRequest (e : RequestError)
| BoxedApi (e : TelegramApiError)
| BoxedPolling (e : TelegramPollingError).
Inductive boxed_ingest_error {J : Json} := IngestUnavailable | BoxedIngest (e : TelegramIngestError).

Inductive TelegramError {J : Json} :=
| TeApi (source : boxed_error)
| TeInvalidPollTimeout
| TeInvalidPollingBackoff
| TeIngest (source : boxed_ingest_error).

(** ** The calls *)

Inductive intake_call {J : Json} :=
| BSendText (chat : Z) (text : Str)
| BAnswerCallback (id : Str)
| BCreateIngest (s : IngestSubmission)
| BInstant
| BWallClock
| BSleep (delay : Z)
| BWaitForRetry (delay : Z)                 (* [false]: shutdown came first *)
| BVerifyStorageChat (chat : Z)             (* [None]: shutdown came first *)
| BDeleteWebhook
| BGetUpdates (offset timeout_seconds : Z).

#[export] Instance intake_interface {J : Json} : Interface | 0 := {|
  call := intake_call;
  answer c := match c with
    | BSendText _ _ | BAnswerCallback _ => result TelegramApiError unit
    | BCreateIngest _ => result InboxRepositoryError CreateIngestResult
    | BInstant | BWallClock => Z
    | BSleep _ => unit
    | BWaitForRetry _ => bool
    | BVerifyStorageChat _ | BDeleteWebhook => option (result TelegramPollingError unit)
    | BGetUpdates _ _ => option (result TelegramPollingError (list Update))
    end |}.

(** ** Parsing messages *)

Definition parse_command (text : Str) : option Command :=
  word ← head (split_whitespace text []);
  command ← strip_prefix (lit "/") word;
  let command := to_ascii_lowercase (before_char 64 command) in
  if bool_decide (command = lit "start") then Some Start
  else if bool_decide (command = lit "help") then Some Help
  else if bool_decide (command = lit "add") then Some Add
  else if bool_decide (command = lit "status") then Some Status
  else None.

Inductive MessageAction := ActCommand (c : Command) | ActUrl (url : Str) | ActIgnore.

Section Parsing.
Context {U : UrlLib}.

Definition is_safe_http_url (value : Str) : bool :=
  match url_parse value with
  | Some u =>
      is_http (url_scheme (parts u)) && is_some (url_host (parts u))
      && is_empty (url_username (parts u)) && negb (is_some (url_password (parts u)))
  | None => false
  end.

Definition is_bracket (c : Z) : bool := existsb (Z.eqb c) (lit "<>[](){}").
Definition parse_http_url (token : Str) : option Str :=
  if is_safe_http_url token then Some token
  else
    let unwrapped := trim_matches is_bracket token in
    if negb (bool_decide (unwrapped = token)) && is_safe_http_url unwrapped then Some unwrapped
    else None.

(** The words in which the URL is looked for; [None] for a command other than [/add]. *)
Definition url_words (text : Str) : option (list Str) :=
  match split_whitespace text [] with
  | [] => Some []
  | first :: rest =>
      if starts_with (lit "/") first then
        command ← strip_prefix (lit "/") first;
        if eq_ignore_ascii_case (before_char 64 command) (lit "add") then Some rest else None
      else Some (first :: rest)
  end.
Definition parse_single_url (text : Str) : option Str :=
  tokens ← url_words text;
  match omap parse_http_url tokens with [url] => Some url | _ => None end.

Definition parse_message_action (text : Str) : MessageAction :=
  match parse_command text with
  | Some command =>
      if bool_decide (command = Add)
      then match parse_single_url text with Some url => ActUrl url | None => ActCommand Add end
      else ActCommand command
  | None =>
      if starts_with (lit "/") (trim_start text) then ActIgnore
      else match parse_single_url text with Some url => ActUrl url | None => ActIgnore end
  end.
End Parsing.

(** ** Classifying documents *)

Inductive DocumentClassification := DocSupported (k : MediaKind.t) | DocProbeable | DocUnsupported.

Definition one_of (value : Str) (names : list string) : bool :=
  existsb (λ n, bool_decide (value = lit n)) names.

Definition classify_document_filename (name : option Str) : DocumentClassification :=
  match to_ascii_lowercase <$> (name ≫= extension) with
  | Some e =>
      if one_of e ["gif"] then DocSupported MediaKind.Animation
      else if one_of e ["jpg"; "jpeg"; "png"] then DocSupported MediaKind.Image
      else if one_of e ["mp4"; "webm"; "mkv"; "mov"; "avi"] then DocSupported MediaKind.Video
      else if one_of e ["mp3"; "m4a"; "wav"; "flac"; "ogg"] then DocSupported MediaKind.Audio
      else if one_of e ["avif"; "webp"; "zip"; "rar"; "7z"; "pdf"; "txt"; "doc"; "docx"; "xls";
                        "xlsx"; "ppt"; "pptx"] then DocUnsupported
      else DocProbeable
  | None => DocProbeable
  end%string.

Definition classify_document (mime_type file_name : option Str) : DocumentClassification :=
  match mime_type with
  | Some mime =>
      let mime := to_ascii_lowercase (trim (before_char 59 mime)) in
      if starts_with (lit "video/") mime then DocSupported MediaKind.Video
      else if bool_decide (mime = lit "image/gif") then DocSupported MediaKind.Animation
      else if one_of mime ["image/jpeg"; "image/png"] then DocSupported MediaKind.Image
      else if starts_with (lit "image/") mime then DocUnsupported
      else if starts_with (lit "audio/") mime then DocSupported MediaKind.Audio
      else if one_of mime ["application/pdf"; "application/zip"; "application/x-7z-compressed";
                           "application/x-rar-compressed"; "text/plain"] then DocUnsupported
      else classify_document_filename file_name
  | None => classify_document_filename file_name
  end%string.

Definition message_media (m : TgMessage) : option TelegramMedia :=
  match tg_photo m ≫= last with
  | Some f =>
      Some (Supported MediaKind.Image (tf_id f) (tf_unique_id f) (Some (tf_size f))
              (Some (lit "image/jpeg")) None)
  | None =>
  let supported k f :=
    Some (Supported k (tf_id f) (tf_unique_id f) (Some (tf_size f)) (tf_mime_type f) (tf_file_name f)) in
  match tg_video m, tg_animation m, tg_document m with
  | Some f, _, _ => supported MediaKind.Video f
  | None, Some f, _ => supported MediaKind.Animation f
  | None, None, Some f =>
      match classify_document (tf_mime_type f) (tf_file_name f) with
      | DocSupported k => supported k f
      | DocProbeable =>
          Some (ProbeableDocument (tf_id f) (tf_unique_id f) (Some (tf_size f)) (tf_mime_type f)
                  (tf_file_name f))
      | DocUnsupported => Some (UnsupportedDocument (tf_file_name f) (tf_mime_type f))
      end
  | None, None, None => None
  end
  end.

(** ** The limiter of replies *)

Definition RESPONSE_RATE_LIMIT : Z := 1000000.
Record RateLimitKey := { rl_user_id : option Z; rl_chat_id : Z }.
#[global] Instance rate_limit_key_eq_dec : EqDecision RateLimitKey.
Proof. solve_decision. Defined.
#[global] Instance rate_limit_key_countable : Countable RateLimitKey.
Proof.
  refine (inj_countable' (λ k, (rl_user_id k, rl_chat_id k)) (λ p, {| rl_user_id := p.1; rl_chat_id := p.2 |}) _).
  by intros [].
Defined.
Abbreviation Limiter := (gmap RateLimitKey Z).

Definition recent (now last : Z) : bool := Z.max 0 (now - last) <? RESPONSE_RATE_LIMIT.
Definition allow_response (now : Z) (key : RateLimitKey) (limiter : Limiter) : bool * Limiter :=
  let limiter := filter (λ p, recent now p.2 = true) limiter in
  match limiter !! key with
  | Some last => if recent now last then (false, limiter) else (true, <[key := now]> limiter)
  | None => (true, <[key := now]> limiter)
  end.
Definition clear_response (key : RateLimitKey) (limiter : Limiter) : Limiter := delete key limiter.

(** ** Handlers: the limiter is their state, [TelegramError] their failure *)

Definition bot {J : Json} (A : Type) : Type := Limiter → proc (result TelegramError A * Limiter).

Section Handlers.
Context {J : Json}.

#[global] Instance bot_ret : MRet bot := λ A a lim, Done (Ok a, lim).
#[global] Instance bot_bind : MBind bot := λ A B f t lim,
  r ← t lim; match r with (Ok a, lim) => f a lim | (Err e, lim) => Done (Err e, lim) end.
Definition bot_fail {A} (e : TelegramError) : bot A := λ lim, Done (Err e, lim).

(** [allow_response] at the current instant. *)
Definition allowed (key : RateLimitKey) : bot bool := λ lim,
  now ← ask BInstant; let '(b, lim) := allow_response now key lim in Done (Ok b, lim).
(** An awaited result whose error lifts the limit again. *)
Definition or_clear {E A} (key : RateLimitKey) (wrap : E → TelegramError) (t : proc (result E A))
    : bot A := λ lim,
  r ← t;
  match r with
  | Ok a => Done (Ok a, lim)
  | Err e => Done (Err (wrap e), clear_response key lim)
  end.
Definition send_response (chat : Z) (text : Str) (key : RateLimitKey) : bot unit :=
  or_clear key (λ e, TeApi (BoxedApi e)) (ask (BSendText chat text)).

(** Reply within the limit, and answer [outcome]. *)
Definition reply (key : RateLimitKey) (text : Str) (outcome : HandleOutcome) : bot HandleOutcome :=
  b ← allowed key;
  if (b : bool) then send_response (rl_chat_id key) text key;; mret outcome else mret RateLimited.
End Handlers.

(** The trait [IngestService]. *)
Record IngestService {J : Json} := {
  create_url : UrlIngestCommand → proc (result TelegramIngestError IngestAccepted);
  create_media : MediaIngestCommand → proc (result TelegramIngestError IngestAccepted);
}.
Record TelegramService {J : Json} := {
  ts_ingest_service : option IngestService;
  ts_admin_user_ids : gset Z;
  ts_source_download_max_bytes : Z;
}.

Definition update_key (update_id : Z) : Str := lit "telegram:update:" ++ show update_id ++ lit ":v1".

(** The file a media message offers; [None] for an unsupported document. *)
Definition offered (message : IncomingMessage) (media : TelegramMedia) (user_id : Z)
    : option MediaIngestCommand :=
  let command kind file_id unique size mime name :=
    {| mc_update_id := im_update_id message; mc_message_id := im_message_id message;
       mc_chat_id := im_chat_id message; mc_submitted_by_user_id := user_id;
       mc_media_kind := kind; mc_file_id := file_id; mc_file_unique_id := unique;
       mc_file_size := size; mc_mime_type := mime; mc_file_name := name;
       mc_caption := im_caption message; mc_idempotency_key := update_key (im_update_id message) |} in
  match media with
  | Supported kind file_id unique size mime name => Some (command (Some kind) file_id unique size mime name)
  | ProbeableDocument file_id unique size mime name => Some (command None file_id unique size mime name)
  | UnsupportedDocument _ _ => None
  end.
Definition oversized (limit : Z) (size : option Z) : bool :=
  match size with Some size => limit <? size | None => false end.

Definition check_mark : Str := [9989].
Definition warning_sign : Str := [9888; 65039].
Definition optional_part (before : string) (value : option Str) (after : string) : Str :=
  match value with Some v => lit before ++ v ++ lit after | None => [] end.
Definition unsupported_response (media : TelegramMedia) : Str :=
  match media with
  | UnsupportedDocument name mime =>
      warning_sign ++ lit " Unsupported Telegram document" ++ optional_part ": " name ""
        ++ optional_part " (" mime ")"
  | _ => []
  end.
Definition too_large_response (limit : Z) : Str :=
  warning_sign ++ lit " Telegram file exceeds the configured download limit of " ++ show limit
    ++ lit " bytes".

Section Service.
Context {J : Json} {U : UrlLib} (service : TelegramService).

Definition queued_response (a : IngestAccepted) : Str :=
  check_mark ++ lit " Ingest queued" ++ [10] ++ lit "ID: " ++ uuid_to_string (ia_request_id a) ++ [10]
    ++ lit "Status: " ++ ia_status a.

Definition key_of (message : IncomingMessage) : RateLimitKey :=
  {| rl_user_id := im_user_id message; rl_chat_id := im_chat_id message |}.

(** Hand a submission to the ingest service, then reply. *)
Definition submit (key : RateLimitKey)
    (create : IngestService → proc (result TelegramIngestError IngestAccepted)) : bot HandleOutcome :=
  match ts_ingest_service service with
  | None => bot_fail (TeIngest IngestUnavailable)
  | Some ingest =>
      accepted ← or_clear key (λ e, TeIngest (BoxedIngest e)) (create ingest);
      reply key (queued_response accepted) (Responded Add)
  end.

Definition handle_media_message (message : IncomingMessage) (media : TelegramMedia) (user_id : Z)
    : bot HandleOutcome :=
  let key := key_of message in
  match offered message media user_id with
  | None => reply key (unsupported_response media) MediaRejected
  | Some command =>
      if oversized (ts_source_download_max_bytes service) (mc_file_size command)
      then reply key (too_large_response (ts_source_download_max_bytes service)) MediaRejected
      else submit key (λ ingest, create_media ingest command)
  end.

Definition command_response (c : Command) : Str :=
  match c with
  | Start => START_RESPONSE | Help => HELP_RESPONSE | Status => STATUS_RESPONSE | Add => ADD_USAGE_RESPONSE
  end.

(** The user, when he is an administrator. *)
Definition admin_of (message : IncomingMessage) : option Z :=
  u ← im_user_id message; if decide (u ∈ ts_admin_user_ids service) then Some u else None.

Definition handle_message (message : IncomingMessage) : bot HandleOutcome :=
  let key := key_of message in
  if negb (im_is_private message) then mret NonPrivateIgnored
  else match admin_of message with
  | None => reply key UNAUTHORIZED_RESPONSE Unauthorized
  | Some user_id =>
      match im_media message with
      | Some media => handle_media_message message media user_id
      | None =>
          match default ActIgnore (parse_message_action <$> im_text message) with
          | ActUrl url =>
              submit key (λ ingest, create_url ingest
                {| uc_source_url := url; uc_idempotency_key := update_key (im_update_id message);
                   uc_submitted_by_user_id := user_id |})
          | ActCommand command => reply key (command_response command) (Responded command)
          | ActIgnore => mret UnrecognizedIgnored
          end
      end
  end.

Definition acknowledge_callback (callback_id : Str) : bot HandleOutcome := λ lim,
  r ← ask (BAnswerCallback callback_id);
  Done (match r with Ok _ => Ok CallbackHandled | Err e => Err (TeApi (BoxedApi e)) end, lim).

Definition incoming (update : Z) (m : TgMessage) : IncomingMessage :=
  {| im_update_id := update; im_message_id := tg_id m; im_reply_to_message_id := tg_reply_to m;
     im_user_id := (u ← tg_from m; if u <=? i64_max then Some u else None);
     im_chat_id := tg_chat_id m; im_is_private := tg_is_private m; im_text := tg_text m;
     im_caption := tg_caption m; im_media := message_media m |}.

Definition handle_update (u : Update) : bot HandleOutcome :=
  match update_kind u with
  | UpdateMessage m => handle_message (incoming (update_id u) m)
  | UpdateCallback id => acknowledge_callback id
  | UpdateOther => mret NonMessageIgnored
  end.
End Service.

(** ** The ingest service of the server *)

Section Database.
Context {J : Json} {S : JsonShape} {E : EnvelopeSerde} {U : UrlLib} {X : SubmissionText}.

Definition new_submission_input (source_url : Str) (via : SubmittedVia.t) : IngestSubmissionInput :=
  {| in_source_url := source_url; in_submitted_via := via; in_page_url := None; in_page_title := None;
     in_supplied_caption := None; in_supplied_description := None; in_supplied_tags := [];
     in_requested_action := RequestedAction.Save; in_requested_publish_at := None;
     in_requested_post_caption := None; in_idempotency_key := None |}.

Definition url_input (c : UrlIngestCommand) : IngestSubmissionInput :=
  let i := new_submission_input (uc_source_url c) SubmittedVia.TelegramBot in
  {| in_source_url := in_source_url i; in_submitted_via := in_submitted_via i;
     in_page_url := in_page_url i; in_page_title := in_page_title i;
     in_supplied_caption := in_supplied_caption i; in_supplied_description := in_supplied_description i;
     in_supplied_tags := in_supplied_tags i; in_requested_action := in_requested_action i;
     in_requested_publish_at := in_requested_publish_at i;
     in_requested_post_caption := in_requested_post_caption i;
     in_idempotency_key := Some (uc_idempotency_key c) |}.

Definition opt_int (z : option Z) : Value := match z with Some z => of_int z | None => jnull end.
Definition media_input_json (c : MediaIngestCommand) : Value :=
  of_object (list_to_map
    [(lit "source_type", of_str (lit "telegram")); (lit "telegram_update_id", of_int (mc_update_id c));
     (lit "telegram_chat_id", of_int (mc_chat_id c)); (lit "telegram_message_id", of_int (mc_message_id c));
     (lit "telegram_user_id", of_int (mc_submitted_by_user_id c));
     (lit "telegram_file_id", of_str (mc_file_id c));
     (lit "telegram_file_unique_id", of_str (mc_file_unique_id c));
     (lit "file_size", opt_int (mc_file_size c)); (lit "mime_type", opt_text (mc_mime_type c));
     (lit "file_name", opt_text (mc_file_name c));
     (lit "media_kind", opt_text (as_str <$> mc_media_kind c))]).
Definition media_input (c : MediaIngestCommand) : TelegramSubmissionInput :=
  {| tg_source_reference :=
       lit "telegram://" ++ show (mc_chat_id c) ++ lit "/" ++ show (mc_message_id c);
     tg_submitted_via := SubmittedVia.TelegramBot; tg_original_input := media_input_json c;
     tg_supplied_caption := mc_caption c; tg_idempotency_key := Some (mc_idempotency_key c) |}.

Definition record_submission (s : result IngestValidationError IngestSubmission)
    : proc (result TelegramIngestError IngestAccepted) :=
  submission ←? Done (map_err TiValidation s);
  created ←? mapped TiRepository (ask (BCreateIngest submission));
  Done (Ok {| ia_request_id := ig_id (cr_ingest created);
              ia_status := as_str (ig_status (cr_ingest created)) |}).

Definition database_ingest_service : IngestService := {|
  create_url c := now ← ask BWallClock; record_submission (try_new (url_input c) now);
  create_media c := record_submission (try_new_telegram (media_input c));
|}.
End Database.

(** ** Polling *)

Definition RETRY_DELAY : Z := 1000000.
Definition MAX_HANDLER_ATTEMPTS : nat := 5.
Definition MAX_POLL_RETRY_DELAY : Z := 60000000.
(** [Duration::MAX], in microseconds. *)
Definition DURATION_MAX : Z := 2 ^ 64 * 1000000 - 1.

Record PollBackoff := { pb_next_delay : Z; pb_initial_delay : Z; pb_max_delay : Z }.
Definition new_backoff (initial max : Z) : PollBackoff :=
  {| pb_next_delay := initial; pb_initial_delay := initial; pb_max_delay := max |}.
Definition backoff_reset (b : PollBackoff) : PollBackoff :=
  {| pb_next_delay := pb_initial_delay b; pb_initial_delay := pb_initial_delay b; pb_max_delay := pb_max_delay b |}.
Definition backoff_next (suggested : option Z) (b : PollBackoff) : Z * PollBackoff :=
  let doubled := pb_next_delay b * 2 in
  (Z.max (pb_next_delay b) (default 0 suggested),
   {| pb_next_delay := Z.min (if doubled <=? DURATION_MAX then doubled else pb_max_delay b) (pb_max_delay b);
      pb_initial_delay := pb_initial_delay b; pb_max_delay := pb_max_delay b |}).

Definition is_terminal_error (e : TelegramPollingError) : bool :=
  match e with
  | PollApi (RequestApi InvalidToken) | PollStorage StorageChatNotPrivateChannel
  | PollStorage StorageBotNotAdministrator | PollStorage StorageBotCannotPost
  | PollStorage (StApi (RequestApi InvalidToken)) => true
  | _ => false
  end.
Definition retry_after (e : TelegramPollingError) : option Z :=
  match e with PollApi (RetryAfter seconds) => Some (seconds * 1000000) | _ => None end.

Section Polling.
Context {J : Json}.

Definition is_terminal_bot_error (e : TelegramError) : bool :=
  match e with
  | TeApi (BoxedRequest (RequestApi InvalidToken)) | TeApi (BoxedApi (TgApi (RequestApi InvalidToken))) => true
  | _ => false
  end.
Definition bot_retry_delay (e : TelegramError) : Z :=
  match e with
  | TeApi (BoxedRequest (RetryAfter seconds)) | TeApi (BoxedApi (TgApi (RetryAfter seconds))) =>
      seconds * 1000000
  | _ => RETRY_DELAY
  end.

(** How a loop of the runtime ends: it goes on with its state, or the runtime returns. *)
Inductive runs_on {A : Type} := Continue (a : A) | Return (r : result TelegramError unit).
Arguments runs_on : clear implicits.

Record TelegramRuntime := {
  tr_service : TelegramService;
  tr_poll_timeout : Z;
  tr_storage_chat_id : option Z;
  tr_retry_initial_delay : Z;
  tr_retry_max_delay : Z;
}.
Definition new_with_api (service : TelegramService) (poll_timeout : Z) (storage_chat_id : option Z)
    : TelegramRuntime :=
  {| tr_service := service; tr_poll_timeout := poll_timeout; tr_storage_chat_id := storage_chat_id;
     tr_retry_initial_delay := RETRY_DELAY; tr_retry_max_delay := MAX_POLL_RETRY_DELAY |}.
Definition with_polling_backoff (initial max : Z) (r : TelegramRuntime) : result TelegramError TelegramRuntime :=
  if (initial =? 0) || (max =? 0) || (max <? initial) then Err TeInvalidPollingBackoff
  else Ok {| tr_service := tr_service r; tr_poll_timeout := tr_poll_timeout r;
             tr_storage_chat_id := tr_storage_chat_id r;
             tr_retry_initial_delay := initial; tr_retry_max_delay := max |}.

(** The two loops before polling: ask until the call succeeds. *)
Fixpoint until_ready (rounds : nat) (t : proc (option (result TelegramPollingError unit)))
    (b : PollBackoff) : proc (option (runs_on PollBackoff)) :=
  match rounds with
  | O => Done None
  | S rounds =>
      r ← t;
      match r with
      | None => Done (Some (Return (Ok tt)))
      | Some (Ok _) => Done (Some (Continue (backoff_reset b)))
      | Some (Err e) =>
          if is_terminal_error e then Done (Some (Return (Err (TeApi (BoxedPolling e)))))
          else
            let '(delay, b) := backoff_next (retry_after e) b in
            go_on ← ask (BWaitForRetry delay);
            if (go_on : bool) then until_ready rounds t b else Done (Some (Return (Ok tt)))
      end
  end.

Section Loop.
Context {U : UrlLib} {Of : UpdateOffsets} (service : TelegramService).

(** [for attempt in 1..=MAX_HANDLER_ATTEMPTS]; [attempts] counts those still allowed. *)
Fixpoint handle_with_attempts (attempts : nat) (u : Update) : bot Z := λ lim,
  r ← handle_update service u lim;
  match r, attempts with
  | (Ok _, lim), _ => Done (Ok (as_offset (update_id u)), lim)
  | (Err e, lim), S (S _ as fewer) =>
      _ ← ask (BSleep (bot_retry_delay e)); handle_with_attempts fewer u lim
  | (Err e, lim), _ => Done (Err e, lim)
  end.
Definition handle_update_with_retries : Update → bot Z := handle_with_attempts MAX_HANDLER_ATTEMPTS.

(** [for update in updates]; the state is the offset, the backoff and the limiter. *)
Fixpoint handle_batch (updates : list Update) (offset : Z) (b : PollBackoff) (lim : Limiter)
    : proc (runs_on (Z * PollBackoff * Limiter)) :=
  match updates with
  | [] => Done (Continue (offset, b, lim))
  | u :: updates =>
      r ← handle_update_with_retries u lim;
      match r with
      | (Ok next_offset, lim) => handle_batch updates next_offset b lim
      | (Err e, lim) =>
          if is_terminal_bot_error e then Done (Return (Err e))
          else
            let '(delay, b) := backoff_next (Some (bot_retry_delay e)) b in
            go_on ← ask (BWaitForRetry delay);
            Done (if (go_on : bool) then Continue (offset, b, lim) else Return (Ok tt))
      end
  end.

Fixpoint poll_loop (rounds : nat) (timeout offset : Z) (b : PollBackoff) (lim : Limiter)
    : proc (option (result TelegramError unit)) :=
  match rounds with
  | O => Done None
  | S rounds =>
      r ← ask (BGetUpdates offset timeout);
      match r with
      | None => Done (Some (Ok tt))
      | Some (Ok updates) =>
          e ← handle_batch updates offset (backoff_reset b) lim;
          match e with
          | Continue (offset, b, lim) => poll_loop rounds timeout offset b lim
          | Return r => Done (Some r)
          end
      | Some (Err e) =>
          if is_terminal_error e then Done (Some (Err (TeApi (BoxedPolling e))))
          else
            let '(delay, b) := backoff_next (retry_after e) b in
            go_on ← ask (BWaitForRetry delay);
            if (go_on : bool) then poll_loop rounds timeout offset b lim else Done (Some (Ok tt))
      end
  end.
End Loop.

Context {U : UrlLib} {Of : UpdateOffsets}.

Definition run_with_shutdown (rounds : nat) (rt : TelegramRuntime)
    : proc (option (result TelegramError unit)) :=
  if (tr_poll_timeout rt =? 0) || (u32_max <? tr_poll_timeout rt / 1000000)
  then Done (Some (Err TeInvalidPollTimeout))
  else
    let timeout := tr_poll_timeout rt / 1000000 in
    let b := new_backoff (tr_retry_initial_delay rt) (tr_retry_max_delay rt) in
    r ← match tr_storage_chat_id rt with
        | Some chat => until_ready rounds (ask (BVerifyStorageChat chat)) b
        | None => Done (Some (Continue b))
        end;
    match r with
    | None => Done None
    | Some (Return r) => Done (Some r)
    | Some (Continue b) =>
        r ← until_ready rounds (ask BDeleteWebhook) b;
        match r with
        | None => Done None
        | Some (Return r) => Done (Some r)
        | Some (Continue b) => poll_loop (tr_service rt) rounds timeout 0 b ∅
        end
    end.
End Polling.
Arguments runs_on {J} A.
