(* ===== verification/BotSpec.v ===== *)
(** * BotSpec: what the Telegram intake promises

    Telegram keeps an update until a later request for updates carries an offset above its
    identifier.  Whatever fails, the bot passes over an administrator's submission only
    after the repository has answered that it is recorded, under a key made of the
    identifier of the update; nothing that others write reaches the repository, and replies
    go only to private chats that have written.  A reply that Telegram refuses for good, on
    the other hand, keeps the bot at its offset for ever. *)

From S2P Require Import Prelude Enums Text Jobs Db Publisher PublisherRepo Envelope Inbox InboxRepo InboxOps.
From S2P Require Import Proc Library Telegram UploadProvider Bot.

(** ** Keys *)

Lemma trim_ends s a z : head s = Some a → last s = Some z →
  is_whitespace a = false → is_whitespace z = false → trim s = s.
Proof.
  intros Ha Hz Wa Wz. unfold trim. rewrite trim_start_id by (intros c Hc; by simplify_eq).
  unfold trim_end. rewrite trim_start_id; [apply reverse_involutive|].
  intros c Hc. rewrite <- last_reverse, reverse_involutive in Hc. by simplify_eq.
Qed.

Lemma trim_update_key i : trim (update_key i) = update_key i.
Proof.
  apply (trim_ends _ 116 49); [done| |done|done].
  unfold update_key. rewrite app_assoc. by rewrite last_app.
Qed.

Lemma normalized_update_key i k :
  normalize_idempotency_key (Some (update_key i)) = Ok k → k = Some (update_key i).
Proof. simpl. rewrite trim_update_key. repeat case_match; by intros [= <-]. Qed.

Lemma update_key_inj i j : update_key i = update_key j → i = j.
Proof.
  unfold update_key, show. intros H%app_inv_head%app_inv_tail%lit_inj. by apply (inj pretty).
Qed.

(** ** The protocol *)

Section Protocol.
Context {J : Json} {S : JsonShape} {E : EnvelopeSerde} {U : UrlLib} {X : SubmissionText} {Of : UpdateOffsets}.
Context (service : TelegramService).

(** A private message of an administrator, and one that submits something: a file the bot
    takes, of an allowed size, or one address. *)
Definition private_message (u : Update) (m : TgMessage) : Prop :=
  update_kind u = UpdateMessage m ∧ tg_is_private m = true.
Definition admin_message (u : Update) (m : TgMessage) : Prop :=
  private_message u m
  ∧ ∃ a, tg_from m = Some a ∧ a ≤ i64_max ∧ a ∈ ts_admin_user_ids service.
Definition takes_file (media : TelegramMedia) : Prop :=
  match media with
  | Supported _ _ _ size _ _ | ProbeableDocument _ _ size _ _ =>
      ∀ n, size = Some n → n ≤ ts_source_download_max_bytes service
  | UnsupportedDocument _ _ => False
  end.
Definition submits (m : TgMessage) : Prop :=
  match message_media m with
  | Some media => takes_file media
  | None => ∃ text url, tg_text m = Some text ∧ parse_message_action text = ActUrl url
  end.

(** What Telegram has handed out, and the keys the repository has recorded. *)
Record intake := { ik_fetched : list Update; ik_recorded : list Str }.

(** Nothing submitted is passed over by this offset before it is recorded. *)
Definition passes (φ : intake) (offset : Z) : Prop :=
  ∀ u m, u ∈ ik_fetched φ → update_id u < offset → admin_message u m → submits m →
    update_key (update_id u) ∈ ik_recorded φ.
(** Telegram answers with updates that are not acknowledged, in their order, and leaves out
    none that it has handed out before. *)
Definition before (u v : Update) : Prop := update_id u < update_id v.
Definition handed_out (φ : intake) (offset : Z) (us : list Update) : Prop :=
  StronglySorted before us
  ∧ Forall (λ u, 0 ≤ update_id u < i32_max ∧ offset ≤ update_id u) us
  ∧ ∀ u v, u ∈ ik_fetched φ → v ∈ us → offset ≤ update_id u ≤ update_id v → u ∈ us.

Definition intake_rule (c : intake_call) (φ : intake) (go : intake → answer c → Prop) : Prop :=
  match c return (intake → answer c → Prop) → Prop with
  | BGetUpdates offset _ => λ go,
      passes φ offset
      ∧ (offset = 0 ∨ ∃ u, u ∈ ik_fetched φ ∧ offset = update_id u + 1)
      ∧ go φ None ∧ (∀ e, go φ (Some (Err e)))
      ∧ ∀ us, handed_out φ offset us →
          go {| ik_fetched := ik_fetched φ ++ us; ik_recorded := ik_recorded φ |} (Some (Ok us))
  | BCreateIngest s => λ go,
      ∃ u m, u ∈ ik_fetched φ ∧ admin_message u m ∧ submits m
        ∧ sub_submitted_via s = SubmittedVia.TelegramBot
        ∧ sub_idempotency_key s = Some (update_key (update_id u))
        ∧ (∀ e, go φ (Err e))
        ∧ ∀ r, go {| ik_fetched := ik_fetched φ; ik_recorded := update_key (update_id u) :: ik_recorded φ |} (Ok r)
  | BSendText chat _ => λ go,
      (∃ u m, u ∈ ik_fetched φ ∧ private_message u m ∧ tg_chat_id m = chat) ∧ ∀ x, go φ x
  | _ => λ go, ∀ x, go φ x
  end go.

#[local] Instance intake_rule_mono : RuleMono intake_rule.
Proof.
  intros c φ go go' Hgo. destruct c; simpl; try naive_solver.
Qed.
Abbreviation wp := (@wp intake_interface intake intake_rule).

Lemma wp_bot_bind {A B} φ (t : bot A) (f : A → bot B) lim Q :
  wp φ (t lim) (λ φ r, match r with (Ok a, lim) => wp φ (f a lim) Q | (Err e, lim) => Q φ (Err e, lim) end) →
  wp φ ((t ≫= f) lim) Q.
Proof.
  intros H. unfold mbind, bot_bind. apply wp_bind. eapply wp_mono; [|exact H]. by intros φ' [[a|e] lim'].
Qed.

(** Handling leaves what was fetched alone and forgets nothing that was recorded. *)
Definition grows (φ φ' : intake) : Prop :=
  ik_fetched φ' = ik_fetched φ ∧ ik_recorded φ ⊆ ik_recorded φ'.
#[local] Instance grows_preorder : PreOrder grows.
Proof.
  split; [by intros φ|]. intros φ1 φ2 φ3 [H1 H2] [H3 H4]. split; [congruence|set_solver].
Qed.

(** *** Replies *)

Lemma wp_reply φ u m key text outcome lim :
  u ∈ ik_fetched φ → private_message u m → tg_chat_id m = rl_chat_id key →
  wp φ (reply key text outcome lim) (λ φ' _, φ' = φ).
Proof.
  intros Hu Hm Hc. unfold reply. apply wp_bot_bind. unfold allowed. apply wp_bind. intros now. cbn [Proc.wp].
  destruct (allow_response now key lim) as [[] lim']; cbn [Proc.wp]; [|done].
  apply wp_bot_bind. unfold send_response, or_clear. apply wp_bind. split; [eauto|].
  by intros [x|e].
Qed.

(** *** Submissions *)

(** Recording a submission under the key of an update. *)
Lemma wp_record φ u m s : u ∈ ik_fetched φ → admin_message u m → submits m →
  (∀ q, s = Ok q → sub_submitted_via q = SubmittedVia.TelegramBot
                   ∧ sub_idempotency_key q = Some (update_key (update_id u))) →
  wp φ (record_submission s) (λ φ' r, grows φ φ' ∧
    match r with Ok _ => update_key (update_id u) ∈ ik_recorded φ' | Err _ => True end).
Proof.
  intros Hu Hm Hs Hq. unfold record_submission. destruct s as [q|e]; simpl; [|done].
  destruct (Hq q eq_refl). exists u, m. split_and!; [done..|].
  intros r. simpl. split; [|set_solver]. split; [done|set_solver].
Qed.

Lemma url_submission_key c i now q :
  uc_idempotency_key c = update_key i → try_new (url_input c) now = Ok q →
  sub_submitted_via q = SubmittedVia.TelegramBot ∧ sub_idempotency_key q = Some (update_key i).
Proof.
  intros Hk H. unfold try_new, try_new_inner in H. cbn [url_input in_idempotency_key in_submitted_via] in H.
  rewrite Hk in H. result_inv.
  match goal with H : Ok _ = Ok q |- _ => injection H as <- end. simpl.
  split; [done|]. by apply normalized_update_key.
Qed.
Lemma media_submission_key c i q :
  mc_idempotency_key c = update_key i → try_new_telegram (media_input c) = Ok q →
  sub_submitted_via q = SubmittedVia.TelegramBot ∧ sub_idempotency_key q = Some (update_key i).
Proof.
  intros Hk H. unfold try_new_telegram in H. cbn [media_input tg_idempotency_key tg_submitted_via] in H.
  rewrite Hk in H. case_match; [done|]. result_inv.
  match goal with H : Ok _ = Ok q |- _ => injection H as <- end. simpl.
  split; [done|]. by apply normalized_update_key.
Qed.

Context (Hdb : ts_ingest_service service = Some database_ingest_service).

(** What the handling of an update leaves behind. *)
Definition handled (u : Update) (φ φ' : intake) (ok : bool) : Prop :=
  grows φ φ' ∧ (ok = true → ∀ m, admin_message u m → submits m → update_key (update_id u) ∈ ik_recorded φ').

Lemma wp_submit φ u m key create lim : u ∈ ik_fetched φ → admin_message u m → tg_chat_id m = rl_chat_id key →
  wp φ (create database_ingest_service) (λ φ' r, grows φ φ' ∧
    match r with Ok _ => update_key (update_id u) ∈ ik_recorded φ' | Err _ => True end) →
  wp φ (submit service key create lim) (λ φ' r, handled u φ φ' (is_ok r.1)).
Proof.
  intros Hu [Hp Ha] Hc Hcreate. unfold submit. rewrite Hdb. apply wp_bot_bind. unfold or_clear.
  apply wp_bind. eapply wp_mono; [|exact Hcreate]. intros φ1 [a|e] [Hg Hk]; cbn [Proc.wp]; [|by split].
  eapply wp_mono; [|eapply (wp_reply φ1 u m); [by rewrite (proj1 Hg)|done|done]].
  intros φ2 r ->. by split.
Qed.
(** *** Messages *)

Lemma incoming_admin u m a : update_kind u = UpdateMessage m → tg_is_private m = true →
  admin_of service (incoming (update_id u) m) = Some a → admin_message u m.
Proof.
  intros Hk Hp. unfold admin_of, incoming. simpl. destruct (tg_from m) as [x|] eqn:Hf; [|done]. simpl.
  destruct (Z.leb_spec x i64_max); [|done]. simpl. case_decide; [|done]. intros _. split; [done|]. eauto.
Qed.
Lemma admin_incoming u m : admin_message u m → is_Some (admin_of service (incoming (update_id u) m)).
Proof.
  intros (_ & a & Hf & Ha & Hin). unfold admin_of, incoming. simpl. rewrite Hf. simpl.
  destruct (Z.leb_spec a i64_max); [|lia]. simpl. rewrite decide_True by done. done.
Qed.

Lemma takes_file_offered message media user c : offered message media user = Some c →
  takes_file media ↔ oversized (ts_source_download_max_bytes service) (mc_file_size c) = false.
Proof.
  destruct media as [k i n size mime name|i n size mime name|]; simpl; [| |done]; intros [= <-]; simpl;
    (destruct size as [n'|]; simpl; [rewrite Z.ltb_ge; naive_solver|naive_solver]).
Qed.
Lemma offered_key message media user c : offered message media user = Some c →
  mc_idempotency_key c = update_key (im_update_id message).
Proof. destruct media; by intros [= <-]. Qed.

Lemma wp_handle_media φ u m media user lim : u ∈ ik_fetched φ → admin_message u m →
  message_media m = Some media →
  wp φ (handle_media_message service (incoming (update_id u) m) media user lim)
    (λ φ' r, handled u φ φ' (is_ok r.1)).
Proof.
  intros Hu Hm Hmedia. unfold handle_media_message.
  assert (∀ text, ¬ takes_file media →
    wp φ (reply (key_of (incoming (update_id u) m)) text MediaRejected lim)
      (λ φ' r, handled u φ φ' (is_ok r.1))) as Hreject.
  { intros text Hno. eapply wp_mono; [|by eapply (wp_reply φ u m); [|apply Hm|]].
    intros φ' r ->. split; [done|]. intros _ m' [[Hk' _] _] Hs. destruct Hm as [[Hk _] _].
    rewrite Hk in Hk'. injection Hk' as <-. unfold submits in Hs. by rewrite Hmedia in Hs. }
  destruct (offered _ media user) as [c|] eqn:Ho.
  - destruct (oversized _ _) eqn:Hl.
    + apply Hreject. rewrite (takes_file_offered _ _ _ _ Ho), Hl. done.
    + apply (wp_submit φ u m); [done|done|done|]. apply (wp_record φ u m); [done|done| |].
      * unfold submits. rewrite Hmedia. by apply (takes_file_offered _ _ _ _ Ho).
      * intros q Hq. eapply media_submission_key; [|exact Hq]. by apply offered_key in Ho.
  - apply Hreject. destruct media; [discriminate Ho|discriminate Ho|by intros []].
Qed.

Lemma submits_of_message u m m' : admin_message u m' → update_kind u = UpdateMessage m → m' = m.
Proof. intros [[Hk _] _] Hk'. rewrite Hk in Hk'. by injection Hk'. Qed.

Lemma wp_handle_update φ u lim : u ∈ ik_fetched φ →
  wp φ (handle_update service u lim) (λ φ' r, handled u φ φ' (is_ok r.1)).
Proof.
  intros Hu. unfold handle_update. destruct (update_kind u) as [m|id|] eqn:Hk; cycle 1.
  { unfold acknowledge_callback. apply wp_bind. intros [x|e]; simpl; (split; [done|]);
      intros _ m [[Hk' _] _]; by rewrite Hk in Hk'. }
  { cbn. split; [done|]. intros _ m [[Hk' _] _]; by rewrite Hk in Hk'. }
  assert (∀ φ' r, φ' = φ → (∀ m', admin_message u m' → ¬ submits m) → handled u φ φ' r) as Hidle.
  { intros φ' r -> Hno. split; [done|]. intros _ m' Ha Hs. rewrite (submits_of_message u m m') in Hs by done. by destruct (Hno m' Ha). }
  unfold handle_message. cbn [incoming im_is_private im_media im_text].
  destruct (tg_is_private m) eqn:Hp; cbn [negb]; cycle 1.
  { cbn. apply Hidle; [done|]. intros m' Ha. rewrite (submits_of_message u m m') in Ha by done. destruct Ha as [[_ Hp'] _]. congruence. }
  destruct (admin_of service _) as [a|] eqn:Ha; cycle 1.
  { eapply wp_mono; [|by eapply (wp_reply φ u m)]. intros φ' r ->. apply Hidle; [done|]. intros m' Hm'.
    rewrite (submits_of_message u m m') in Hm' by done. apply admin_incoming in Hm'. rewrite Ha in Hm'. by destruct Hm'. }
  pose proof (incoming_admin u m a Hk Hp Ha) as Hm.
  destruct (message_media m) as [media|] eqn:Hmedia; [by apply wp_handle_media|].
  assert (¬ submits m ∨ ∃ text url, tg_text m = Some text ∧ parse_message_action text = ActUrl url) as Hcases.
  { unfold submits. rewrite Hmedia. destruct (tg_text m) as [t|]; [|left; by intros (? & ? & ? & _)].
    destruct (parse_message_action t) as [c|url|] eqn:Hpa; [left|right; eauto|left];
      intros (? & ? & [= <-] & ?); congruence. }
  destruct Hcases as [Hno|(text & url & Htext & Hpa)].
  - destruct (default ActIgnore _) as [c|url|] eqn:Hd; [|exfalso|].
    + eapply wp_mono; [|by eapply (wp_reply φ u m)]. intros φ' r ->. by apply Hidle.
    + destruct (tg_text m) as [t|] eqn:Ht; simplify_eq/=. apply Hno. unfold submits. rewrite Hmedia. eauto.
    + cbn. by apply Hidle.
  - rewrite Htext. simpl. rewrite Hpa. apply (wp_submit φ u m); [done|done|done|].
    apply wp_bind. intros now. cbn [Proc.wp]. apply (wp_record φ u m); [done|done| |].
    + unfold submits. rewrite Hmedia. eauto.
    + intros q Hq. eapply url_submission_key; [|exact Hq]. done.
Qed.

Lemma wp_attempts n φ u lim : u ∈ ik_fetched φ →
  wp φ (handle_with_attempts service n u lim) (λ φ' r,
    grows φ φ' ∧ match r.1 with
                 | Ok o => o = as_offset (update_id u)
                           ∧ ∀ m, admin_message u m → submits m → update_key (update_id u) ∈ ik_recorded φ'
                 | Err _ => True end).
Proof.
  revert φ lim. induction n as [|n IH]; intros φ lim Hu; cbn [handle_with_attempts]; apply wp_bind;
    (eapply wp_mono; [|by apply wp_handle_update]); intros φ1 [[o|e] lim1] [Hg Hh]; cbn [Proc.wp fst].
  - split; [done|]. split; [done|]. by apply Hh.
  - done.
  - split; [done|]. split; [done|]. by apply Hh.
  - destruct n as [|n]; [done|]. apply wp_bind. intros slept. cbn [Proc.wp].
    eapply wp_mono; [|apply IH; by rewrite (proj1 Hg)].
    intros φ2 r [Hg2 Hr]. split; [by transitivity φ1|done].
Qed.

(** *** Batches *)

(** What is known of the offset while a batch is handled: [us] are the updates left. *)
Definition acked (φ : intake) (offset : Z) : Prop :=
  passes φ offset ∧ (offset = 0 ∨ ∃ u, u ∈ ik_fetched φ ∧ offset = update_id u + 1).
Definition left_over (φ : intake) (offset : Z) (us : list Update) : Prop :=
  us ⊆ ik_fetched φ ∧ StronglySorted before us
  ∧ Forall (λ u, 0 ≤ update_id u < i32_max ∧ offset ≤ update_id u) us
  ∧ ∀ u v, u ∈ ik_fetched φ → v ∈ us → offset ≤ update_id u ≤ update_id v → u ∈ us.

Lemma grows_acked φ φ' offset : grows φ φ' → acked φ offset → acked φ' offset.
Proof.
  intros [Hf Hr] [Hp Ho]. split; [|by rewrite Hf]. intros u m Hu Hlt Hm Hs. rewrite Hf in Hu.
  apply Hr. by eapply Hp.
Qed.
Lemma grows_left_over φ φ' offset us : grows φ φ' → left_over φ offset us → left_over φ' offset us.
Proof. intros [Hf _]. unfold left_over. by rewrite Hf. Qed.

Lemma acked_next φ offset u us : left_over φ offset (u :: us) → acked φ offset →
  (∀ m, admin_message u m → submits m → update_key (update_id u) ∈ ik_recorded φ) →
  acked φ (update_id u + 1) ∧ left_over φ (update_id u + 1) us.
Proof.
  intros (Hsub & [Hs Hlt]%StronglySorted_inv & [Hu Hall]%Forall_cons & Hin) [Hp Ho] Hrec.
  rewrite Forall_forall in Hlt. split_and!; [split|split_and!].
  - intros v m Hv Hvu Hm Hsm. destruct (Z.lt_decidable (update_id v) offset); [by eapply Hp|].
    assert (v ∈ u :: us) as [->|Hvs]%elem_of_cons by (apply (Hin v u); [done|set_solver|lia]).
    + by eapply Hrec.
    + specialize (Hlt v Hvs). unfold before in Hlt. lia.
  - right. exists u. split; [set_solver|done].
  - set_solver.
  - done.
  - apply Forall_forall. intros v Hv. specialize (Hlt v Hv). unfold before in Hlt.
    rewrite Forall_forall in Hall. specialize (Hall v Hv). lia.
  - intros v w Hv Hw Hle. assert (v ∈ u :: us) as [->|?]%elem_of_cons; [|lia|done].
    apply (Hin v w); [done|set_solver|lia].
Qed.

Lemma wp_batch φ us offset b lim : left_over φ offset us → acked φ offset →
  wp φ (handle_batch service us offset b lim) (λ φ' r,
    match r with Continue (o, _, _) => acked φ' o | Return _ => True end).
Proof.
  revert φ offset lim. induction us as [|u us IH]; intros φ offset lim Hl Ha; [done|].
  cbn [handle_batch]. apply wp_bind. eapply wp_mono; [|apply wp_attempts; apply Hl; set_solver].
  intros φ1 [[o|e] lim1] [Hg Hr]; cbn [Proc.wp].
  - destruct Hr as [-> Hrec]. rewrite as_offset_next by (destruct Hl as (_ & _ & [? _]%Forall_cons & _); lia).
    destruct (acked_next φ1 offset u us) as [Ha' Hl']; [by eapply grows_left_over|by eapply grows_acked|done|].
    by apply IH.
  - destruct (is_terminal_bot_error e); [done|]. destruct (backoff_next _ _) as [delay b'].
    intros []; [by eapply grows_acked|done].
Qed.

Lemma wp_poll_loop rounds φ timeout offset b lim : acked φ offset →
  wp φ (poll_loop service rounds timeout offset b lim) (λ _ _, True).
Proof.
  revert φ offset b lim. induction rounds as [|n IH]; intros φ offset b lim [Hp Ho]; [done|].
  cbn [poll_loop]. apply wp_bind. split_and!; [done|done|done| |].
  - intros e. cbn [Proc.wp]. case_match; [done|]. destruct (backoff_next _ _) as [delay b'].
    intros []; [|done]. by apply IH.
  - intros us (Hs & Hall & Hin). cbn [Proc.wp]. apply wp_bind. eapply wp_mono; [|apply wp_batch].
    + intros φ1 [[[o b1] lim1]|r] Hr; [by apply IH|done].
    + split_and!; simpl; [set_solver|done|done|]. intros u v [Hu|Hu]%elem_of_app Hv Hle; [by eapply Hin|done].
    + split; simpl; [|set_solver]. intros u m [Hu|Hu]%elem_of_app Hlt Hm Hsm; [by eapply Hp|].
      rewrite Forall_forall in Hall. specialize (Hall u Hu). lia.
Qed.

Lemma wp_until_ready rounds φ t b : wp φ t (λ φ' _, φ' = φ) →
  wp φ (until_ready rounds t b) (λ φ' _, φ' = φ).
Proof.
  intros Ht. revert b. induction rounds as [|n IH]; intros b; [done|]. cbn [until_ready].
  apply wp_bind. eapply wp_mono; [|exact Ht]. intros φ' [[x|e]|] ->; [done| |done]. cbn [Proc.wp].
  case_match; [done|]. destruct (backoff_next _ _) as [delay b']. intros []; [apply IH|done].
Qed.

(** Whatever Telegram, the repository and the clock answer, for any number of rounds: the
    bot asks for updates with an offset above a submission of an administrator only after
    the repository has recorded it under the key of that update; it never passes an update
    it has not been handed, hands the repository only submissions of administrators, and
    writes only to private chats that have written to it. *)
Theorem acknowledged_submissions_are_recorded rounds timeout chat initial max :
  wp {| ik_fetched := []; ik_recorded := [] |}
    (run_with_shutdown rounds
       {| tr_service := service; tr_poll_timeout := timeout; tr_storage_chat_id := chat;
          tr_retry_initial_delay := initial; tr_retry_max_delay := max |})
    (λ _ _, True).
Proof.
  unfold run_with_shutdown. simpl. case_match; [done|]. set (φ := {| ik_fetched := [] |}).
  apply wp_bind. eapply (wp_mono _ _ (λ φ' _, φ' = φ)).
  2: { destruct chat; [|done]. apply wp_until_ready. by intros x. }
  intros φ1 [[b|r]|] ->; [|done|done]. apply wp_bind. eapply wp_mono; [|apply wp_until_ready; by intros x].
  intros φ2 [[b2|r]|] ->; [|done|done]. apply wp_poll_loop. split; [|by left]. intros u m Hu. by apply elem_of_nil in Hu.
Qed.
End Protocol.

(** ** A reply that is refused for good *)

Section Blocked.
Context {J : Json} {U : UrlLib} {Of : UpdateOffsets} (service : TelegramService).
Context (chat : Z) (refusal : TelegramApiError).

(** Telegram refuses every message to [chat], and the first update it hands out is a
    private message from there, of somebody who is not an administrator; the bot is always
    at offset zero. *)
Definition outsider_first (us : list Update) : Prop :=
  ∃ u m us', us = u :: us' ∧ update_kind u = UpdateMessage m ∧ tg_is_private m = true
    ∧ tg_chat_id m = chat ∧ ∀ a, tg_from m = Some a → a ∉ ts_admin_user_ids service.
Definition refused_rule (c : intake_call) (φ : unit) (go : unit → answer c → Prop) : Prop :=
  match c return (unit → answer c → Prop) → Prop with
  | BGetUpdates offset _ => λ go, offset = 0 ∧ ∀ us, outsider_first us → go tt (Some (Ok us))
  | BSendText to _ => λ go, to = chat ∧ go tt (Err refusal)
  | _ => λ go, ∀ x, go tt x
  end go.
#[local] Instance refused_rule_mono : RuleMono refused_rule.
Proof. intros c φ go go' Hgo. destruct c; simpl; naive_solver. Qed.
Abbreviation wp := (@wp intake_interface unit refused_rule).

Lemma allow_first now key : allow_response now key ∅ = (true, <[key := now]> ∅).
Proof. unfold allow_response. by rewrite map_filter_empty, lookup_empty. Qed.

Lemma refused_update u m : update_kind u = UpdateMessage m → tg_is_private m = true → tg_chat_id m = chat →
  (∀ a, tg_from m = Some a → a ∉ ts_admin_user_ids service) →
  wp tt (handle_update service u ∅) (λ _ r, r = (Err (TeApi (BoxedApi refusal)), ∅)).
Proof.
  intros Hk Hp Hc Hout. unfold handle_update. rewrite Hk. unfold handle_message.
  cbn [incoming im_is_private]. rewrite Hp. cbn [negb].
  assert (admin_of service (incoming (update_id u) m) = None) as ->.
  { unfold admin_of, incoming. simpl. destruct (tg_from m) as [a|] eqn:Hf; [|done]. simpl.
    destruct (a <=? i64_max); [|done]. simpl. rewrite decide_False; [done|by apply Hout]. }
  intros now. unfold proc_bind. cbn [proc_bind_go]. rewrite allow_first. split; [done|].
  cbn. unfold clear_response. by rewrite delete_insert_id.
Qed.

Lemma refused_attempts n u m : update_kind u = UpdateMessage m → tg_is_private m = true → tg_chat_id m = chat →
  (∀ a, tg_from m = Some a → a ∉ ts_admin_user_ids service) →
  wp tt (handle_with_attempts service n u ∅) (λ _ r, r = (Err (TeApi (BoxedApi refusal)), ∅)).
Proof.
  intros Hk Hp Hc Hout. induction n as [|n IH]; cbn [handle_with_attempts]; apply wp_bind;
    (eapply wp_mono; [|by eapply refused_update]); intros [] r ->; [done|].
  destruct n as [|n]; [done|]. intros slept. exact IH.
Qed.

(** However often the bot polls, it asks for the updates from the first one again: no later
    update is ever handled or acknowledged. *)
Theorem refused_reply_blocks_intake rounds timeout b :
  is_terminal_bot_error (TeApi (BoxedApi refusal)) = false →
  wp tt (poll_loop service rounds timeout 0 b ∅) (λ _ _, True).
Proof.
  intros Hterm. revert b. induction rounds as [|n IH]; intros b; [done|]. cbn [poll_loop]. apply wp_bind.
  split; [done|]. intros us (u & m & us' & -> & Hk & Hp & Hc & Hout). cbn [Proc.wp handle_batch]. apply wp_bind. apply wp_bind.
  eapply wp_mono; [|by eapply refused_attempts]. intros [] r ->. cbn [Proc.wp]. rewrite Hterm.
  destruct (backoff_next _ _) as [delay b']. intros []; [apply IH|done].
Qed.
End Blocked.
