(* ===== verification/Workspace.v ===== *)
(** * Workspace: the directories in which the pipeline works

    [media/src/workspace.rs] and [media/src/disk.rs], the workspace helpers of
    [apps/worker/src/common.rs], the cleanup handler of [apps/worker/src/cleanup.rs] and the
    reconciliation of [apps/worker/src/main.rs], as programs over the calls of the worker:
    the file system with the network and the external tools, the clock, and the ingest
    repository.

    The stages of the pipeline share the interface; its repository calls name the stage
    they belong to.  A directory listing is the sequence of entries its stream yields, a
    name that is not Unicode as [None].  The manifest, [MediaWorkspace::cleanup] and
    [scavenge_stale_artifacts] are called by tests only and left out.  Durations and
    instants are in microseconds. *)

From S2P Require Import Prelude Enums Jobs Db Queue Cleanup Text Envelope Proc Preview Normalize.
From S2P Require Import Execute Download Library LibraryRepo Inbox InboxRepo InboxOps UploadProvider.

(** ** Calls *)

(** The stages whose handlers are modelled in [IngestWorker]. *)
Inductive PipelineStage := SourceInspectionStage | SourceDownloadStage | AssetProbeStage | AssetNormalizationStage.
#[global] Instance stage_eq_dec : EqDecision PipelineStage.
Proof. solve_decision. Defined.

(** What a stage hands to its completion. *)
Inductive StageOutput {J : Json} :=
| Inspected (x : SourceInspection)
| Downloaded (x : SourceDownload)
| Probed (x : Value)
| Normalized (x : AssetNormalization).
Definition output_stage {J : Json} (o : StageOutput) : PipelineStage :=
  match o with
  | Inspected _ => SourceInspectionStage | Downloaded _ => SourceDownloadStage
  | Probed _ => AssetProbeStage | Normalized _ => AssetNormalizationStage
  end.

(** What the image normaliser answers. *)
Inductive CanonicalImageFormat := CanonicalJpeg | CanonicalPng.
Definition image_extension (f : CanonicalImageFormat) : Str :=
  lit match f with CanonicalJpeg => "jpg" | CanonicalPng => "png" end.
Definition image_mime_type (f : CanonicalImageFormat) : Str :=
  lit match f with CanonicalJpeg => "image/jpeg" | CanonicalPng => "image/png" end.
Record ImageNormalizationResult := {
  ir_canonical_path : Str;
  ir_thumbnail_path : Str;
  ir_format : CanonicalImageFormat;
  ir_thumbnail_format : CanonicalImageFormat;
  ir_has_transparency : bool;
  ir_width : Z;
  ir_height : Z;
  ir_thumbnail_width : Z;
  ir_thumbnail_height : Z;
  ir_canonical_digest : FileDigest;
  ir_thumbnail_digest : FileDigest;
}.

Inductive worker_call {J : Json} :=
| Http (c : http_call)
| CreateDir (path : Str)
| Canonicalize (path : Str)
| SetPermissions (path : Str) (mode : Z)
| ReadEntries (path : Str)
| Modified (path : Str)                     (* [symlink_metadata] and its [modified] *)
| SystemNow
| Statvfs (path : Str)
| WriteFile (path : Str) (bytes : list Z)
| NowUtc
| DownloadTelegramFile (file_id path : Str)
| NormalizeImage (root input : Str)         (* [ImageNormalizer::plan] and [execute] *)
| DecodeFirstFrame (path : Str)
| FindIngest (id : Uuid)
| BeginStage (s : PipelineStage) (id : Uuid) (l : JobLease)
| CompleteStage (id : Uuid) (l : JobLease) (o : StageOutput)
| FailStage (s : PipelineStage) (id : Uuid) (l : JobLease) (status : IngestStatus.t) (class message : Str)
| BeginCleanup (l : JobLease) (ingest workspace : Uuid)
| ProtectedWorkspaceIds.

#[export] Instance worker_interface {J : Json} {Im : ImageLib} : Interface | 0 :=
  {| call := worker_call;
     answer c := match c with
       | Http c => @answer http_interface c
       | CreateDir _ | SetPermissions _ _ | WriteFile _ _ => result io_error unit
       | Canonicalize _ => result io_error Str
       | ReadEntries _ => result io_error (list (result io_error (option Str)))
       | Modified _ => result io_error (FileType * option Z)
       | SystemNow | NowUtc => Z
       | Statvfs _ => result Str (Z * Z)
       | DownloadTelegramFile _ _ => result HandlerFailure unit
       | NormalizeImage _ _ => result (Str + Str) ImageNormalizationResult
       | DecodeFirstFrame _ => result Str Picture
       | FindIngest _ => result InboxRepositoryError (option Ingest)
       | BeginStage _ _ _ => result InboxRepositoryError StageStart
       | CompleteStage _ _ _ | FailStage _ _ _ _ _ _ => result InboxRepositoryError Ingest
       | BeginCleanup _ _ _ => result InboxRepositoryError WorkspaceCleanupStart
       | ProtectedWorkspaceIds => result JobRepositoryError (list Uuid)
       end |}.

(** [Uuid]'s [FromStr] and the shape of its [Display], hexadecimal digits and hyphens. *)
Class UuidText {J : Json} := {
  parse_uuid : Str → option Uuid;
  parse_uuid_text : ∀ u, parse_uuid (uuid_to_string u) = Some u;
}.

(** ** Workspaces *)

Inductive WorkspaceArea := AreaSource | AreaNormalized | AreaFrames | AreaPreviews | AreaLogs.
Definition directory_name (a : WorkspaceArea) : Str :=
  lit match a with
      | AreaSource => "source" | AreaNormalized => "normalized" | AreaFrames => "frames"
      | AreaPreviews => "previews" | AreaLogs => "logs"
      end.
Definition areas : list WorkspaceArea := [AreaSource; AreaNormalized; AreaFrames; AreaPreviews; AreaLogs].

Record MediaWorkspace := { mw_jobs_root : Str; mw_root : Str; mw_job_id : Uuid }.

Inductive WorkspaceError :=
| InvalidFileName (name : Str)
| OutsideConfiguredRoot (path : Str)
| SymlinkPath (path : Str)
| NotDirectory (path : Str)
| WorkspaceIo (path : Str) (source : io_error).

Definition ensure_directory_metadata (path : Str) (t : FileType) : result WorkspaceError unit :=
  if ft_is_symlink t then Err (SymlinkPath path)
  else if negb (ft_is_dir t) then Err (NotDirectory path)
  else Ok tt.

Definition validate_file_name (name : Str) : result WorkspaceError unit :=
  if is_empty name || bool_decide (name = lit ".") || bool_decide (name = lit "..")
     || existsb (Z.eqb slash) name || existsb (Z.eqb 92) name || starts_with [slash] name
     || existsb (λ c, bool_decide (c = lit "..")) (split_path name [])
  then Err (InvalidFileName name)
  else Ok tt.

(** [SystemTime::checked_sub] from a 64-bit count of seconds, or the epoch. *)
Definition cutoff_before (now age : Z) : Z :=
  if now - age <? - 2 ^ 63 * 1000000 then 0 else now - age.

Section Workspace.
Context {J : Json} {Im : ImageLib}.
Abbreviation worker E A := (@proc worker_interface (result E A)).
Abbreviation workspace A := (worker WorkspaceError A).

(** A program over the network and the file system. *)
Fixpoint on_http {A} (t : @proc http_interface A) : @proc worker_interface A :=
  match t with
  | Done a => Done a
  | Ask c k => @Ask worker_interface A (Http c) (λ x, on_http (k x))
  end.
Definition on_disk {A} (t : @proc file_interface A) : @proc worker_interface A := on_http (on_files t).

Definition stat (path : Str) : worker io_error FileType := on_disk (@ask file_interface (SymlinkMetadata path)).
Definition at_path {A} (path : Str) (t : worker io_error A) : workspace A := mapped (WorkspaceIo path) t.

Definition ensure_directory (path : Str) : workspace unit :=
  found ← stat path;
  match found with
  | Ok t => Done (ensure_directory_metadata path t)
  | Err IoNotFound =>
      _ ←? at_path path (ask (CreateDir path));
      t ←? at_path path (stat path);
      Done (ensure_directory_metadata path t)
  | Err source => Done (Err (WorkspaceIo path source))
  end.

Definition set_restrictive_permissions (path : Str) : workspace unit :=
  at_path path (ask (SetPermissions path 448)).

Fixpoint ensure_areas (root : Str) (l : list WorkspaceArea) : workspace unit :=
  match l with
  | [] => Done (Ok tt)
  | a :: l =>
      let area_path := path_join root (directory_name a) in
      _ ←? ensure_directory area_path;
      _ ←? set_restrictive_permissions area_path;
      ensure_areas root l
  end.

Definition workspace_create (work_root : Str) (job_id : Uuid) : workspace MediaWorkspace :=
  _ ←? ensure_directory work_root;
  work_root ←? at_path work_root (ask (Canonicalize work_root));
  let jobs_root := path_join work_root (lit "jobs") in
  _ ←? ensure_directory jobs_root;
  jobs_root ←? at_path jobs_root (ask (Canonicalize jobs_root));
  let root := path_join jobs_root (uuid_to_string job_id) in
  _ ←? ensure_directory root;
  _ ←? ensure_areas root areas;
  _ ←? set_restrictive_permissions root;
  Done (Ok {| mw_jobs_root := jobs_root; mw_root := root; mw_job_id := job_id |}).

Definition ensure_real_directory (path : Str) : workspace unit :=
  t ←? at_path path (stat path);
  Done (ensure_directory_metadata path t).

Fixpoint validate_areas (root : Str) (l : list WorkspaceArea) : workspace unit :=
  match l with
  | [] => Done (Ok tt)
  | a :: l =>
      _ ←? ensure_real_directory (path_join root (directory_name a));
      validate_areas root l
  end.
Definition workspace_validate (w : MediaWorkspace) : workspace unit :=
  _ ←? ensure_real_directory (mw_jobs_root w);
  _ ←? ensure_real_directory (mw_root w);
  validate_areas (mw_root w) areas.

Definition reject_existing_symlink (path : Str) : workspace unit :=
  found ← stat path;
  Done match found with
       | Ok t => if ft_is_symlink t then Err (SymlinkPath path) else Ok tt
       | Err IoNotFound => Ok tt
       | Err source => Err (WorkspaceIo path source)
       end.

Definition workspace_path (w : MediaWorkspace) (area : WorkspaceArea) (name : Str) : workspace Str :=
  _ ←? Done (validate_file_name name);
  _ ←? ensure_real_directory (mw_jobs_root w);
  _ ←? ensure_real_directory (mw_root w);
  let area_path := path_join (mw_root w) (directory_name area) in
  _ ←? ensure_real_directory area_path;
  let path := path_join area_path name in
  _ ←? reject_existing_symlink path;
  Done (Ok path).

(** ** Removal *)

Definition existing_jobs_root (work_root : Str) : workspace (option Str) :=
  found ← stat work_root;
  match found with
  | Err IoNotFound => Done (Ok None)
  | Err source => Done (Err (WorkspaceIo work_root source))
  | Ok t =>
      _ ←? Done (ensure_directory_metadata work_root t);
      let jobs_root := path_join work_root (lit "jobs") in
      found ← stat jobs_root;
      match found with
      | Err IoNotFound => Done (Ok None)
      | Err source => Done (Err (WorkspaceIo jobs_root source))
      | Ok t =>
          _ ←? Done (ensure_directory_metadata jobs_root t);
          Done (Ok (Some jobs_root))
      end
  end.

Definition remove_workspace_root (jobs_root workspace_root : Str) : workspace unit :=
  if negb (bool_decide (path_parent workspace_root = Some jobs_root))
  then Done (Err (OutsideConfiguredRoot workspace_root))
  else
    found ← stat workspace_root;
    match found with
    | Err IoNotFound => Done (Ok tt)
    | Err source => Done (Err (WorkspaceIo workspace_root source))
    | Ok t =>
        _ ←? Done (ensure_directory_metadata workspace_root t);
        r ← on_disk (@ask file_interface (RemoveDirAll workspace_root));
        Done match r with
             | Ok _ | Err IoNotFound => Ok tt
             | Err source => Err (WorkspaceIo workspace_root source)
             end
    end.

Definition cleanup_existing (work_root : Str) (workspace_id : Uuid) : workspace unit :=
  found ←? existing_jobs_root work_root;
  match found : option Str with
  | None => Done (Ok tt)
  | Some jobs_root =>
      remove_workspace_root jobs_root (path_join jobs_root (uuid_to_string workspace_id))
  end.

Section Scavenge.
Context {U : UuidText}.

(** What the loop does with one entry: [true] when the workspace was removed. *)
Definition scavenge_entry (jobs_root : Str) (cutoff : Z) (protected : list Uuid) (name : option Str)
    : workspace bool :=
  match name ≫= (λ n, pair n <$> parse_uuid n) with
  | None => Done (Ok false)
  | Some (name, workspace_id) =>
      if bool_decide (workspace_id ∈ protected) then Done (Ok false)
      else
        let workspace_root := path_join jobs_root name in
        m ←? at_path workspace_root (ask (Modified workspace_root));
        let '(t, modified) := (m : FileType * option Z) in
        if ft_is_symlink t || negb (ft_is_dir t) then Done (Ok false)
        else if match modified with Some modified => cutoff <? modified | None => true end
        then Done (Ok false)
        else _ ←? remove_workspace_root jobs_root workspace_root; Done (Ok true)
  end.

Fixpoint scavenge_entries (jobs_root : Str) (cutoff : Z) (protected : list Uuid) (limit removed : Z)
    (entries : list (result io_error (option Str))) : workspace Z :=
  match entries with
  | [] => Done (Ok removed)
  | Err source :: _ => Done (Err (WorkspaceIo jobs_root source))
  | Ok name :: entries =>
      gone ←? scavenge_entry jobs_root cutoff protected name;
      if gone : bool then
        if limit <=? removed + 1 then Done (Ok (removed + 1))
        else scavenge_entries jobs_root cutoff protected limit (removed + 1) entries
      else scavenge_entries jobs_root cutoff protected limit removed entries
  end.

Definition scavenge_completed_workspaces (work_root : Str) (max_age : Z) (protected : list Uuid)
    (limit : Z) : workspace Z :=
  if limit =? 0 then Done (Ok 0)
  else
    found ←? existing_jobs_root work_root;
    match found : option Str with
    | None => Done (Ok 0)
    | Some jobs_root =>
        now ← ask SystemNow;
        let cutoff := cutoff_before now max_age in
        entries ←? at_path jobs_root (ask (ReadEntries jobs_root));
        scavenge_entries jobs_root cutoff protected limit 0 entries
    end.

(** [reconcile_workspaces] of [apps/worker/src/main.rs]. *)
Definition reconcile_workspaces (work_root : Str) (max_age limit : Z)
    : worker (JobRepositoryError + WorkspaceError) Z :=
  protected ←? mapped inl (ask ProtectedWorkspaceIds);
  mapped inr (scavenge_completed_workspaces work_root max_age protected limit).
End Scavenge.
End Workspace.

(** ** Free space *)

Definition MAX_CONCURRENT_WORKSPACE_OPERATIONS : Z := 2.
Definition u64_saturating_mul (a b : Z) : Z := Z.min (a * b) u64_max.
Definition concurrent_operation_budget (operation_bytes concurrency : Z) : Z :=
  u64_saturating_mul operation_bytes concurrency.
Definition admits (available reserve required : Z) : bool :=
  (reserve + required <=? u64_max) && (reserve + required <=? available).

Inductive DiskAdmissionError :=
| StatFailed (path message : Str)
| Insufficient (path : Str) (available reserve required : Z).

Record WorkspaceAdmission := { wa_reserve_bytes : Z; wa_enabled : bool }.
Definition admission_disabled : WorkspaceAdmission := {| wa_reserve_bytes := 0; wa_enabled := false |}.
Definition admission_new (reserve : Z) : WorkspaceAdmission :=
  {| wa_reserve_bytes := reserve; wa_enabled := true |}.
Definition DISK_ADMISSION_RETRY_DELAY : Z := 60 * 1000000.

Section Handlers.
Context {J : Json} {Im : ImageLib} {Dd : Display DiskAdmissionError} {Dw : Display WorkspaceError}.
Context {Di : Display InboxRepositoryError} {Dl : Display LibraryRepositoryError} {Do : Display io_error}.
Abbreviation worker E A := (@proc worker_interface (result E A)).
Abbreviation handler A := (worker HandlerFailure A).

Definition filesystem_space (path : Str) : worker DiskAdmissionError Z :=
  stats ←? mapped (StatFailed path) (ask (Statvfs path));
  let '(available_blocks, fragment_size) := (stats : Z * Z) in
  let available_bytes := available_blocks * fragment_size in
  Done (if available_bytes <=? u64_max then Ok available_bytes
        else Err (StatFailed path (lit "filesystem free-space value overflowed u64"))).
Definition check_disk_space (path : Str) (reserve required : Z) : worker DiskAdmissionError Z :=
  available ←? filesystem_space path;
  Done (if admits available reserve required then Ok available
        else Err (Insufficient path available reserve required)).

Definition admit_work (a : WorkspaceAdmission) (work_root : Str) (required_bytes : Z) : handler unit :=
  if negb (wa_enabled a) then Done (Ok tt)
  else
    r ← check_disk_space work_root (wa_reserve_bytes a)
          (concurrent_operation_budget required_bytes MAX_CONCURRENT_WORKSPACE_OPERATIONS);
    match r with
    | Ok _ => Done (Ok tt)
    | Err e =>
        now ← ask NowUtc;
        Done (Err (failure_defer_without_consuming_attempt (lit "work_disk_low") (display (e : DiskAdmissionError))
          (now + DISK_ADMISSION_RETRY_DELAY)))
    end.

(** ** Helpers of the handlers *)

Definition map_workspace_error (e : WorkspaceError) : HandlerFailure :=
  match e with
  | WorkspaceIo _ _ => retryable (lit "workspace_error") (display e)
  | _ => permanent (lit "workspace_error") (display e)
  end.

Definition load_ingest_for_admission (id : Uuid) : handler Ingest :=
  found ←? mapped map_inbox_error (ask (FindIngest id));
  Done (ok_or found (permanent (lit "ingest_missing") (lit "ingest request was not found"))).

Definition source_artifact_exists (path : Str) : handler bool :=
  found ← stat path;
  Done match found with
       | Ok t => if ft_is_symlink t
                 then Err (permanent (lit "source_reconstruction") (lit "source artifact is a symlink"))
                 else Ok (ft_is_file t && (0 <? ft_len t))
       | Err IoNotFound => Ok false
       | Err e => Err (permanent (lit "source_reconstruction")
                         (lit "could not inspect source artifact: " ++ display e))
       end.

(** ** The cleanup handler *)

Definition cleanup_workspace (work_root : Str) (job : Job) : handler unit :=
  match jb_command job with
  | CleanupWorkspace p =>
      attempt ←? Done (ok_or (lease job) (permanent (lit "invalid_job_state")
                    (lit "cleanup_workspace handler requires a running job lease")));
      start ←? mapped map_inbox_error
                 (ask (BeginCleanup attempt (cleanup_ingest_id p) (cleanup_workspace_id p)));
      match start : WorkspaceCleanupStart with
      | CleanupDeferred =>
          now ← ask NowUtc;
          Done (Err (failure_defer (lit "workspace_protected")
            (lit "workspace is still protected by durable ingest or storage state")
            (now + 60 * 1000000)))
      | CleanupAlreadyAdvanced => Done (Ok tt)
      | CleanupReady =>
          r ← cleanup_existing work_root (cleanup_workspace_id p);
          Done match r with
               | Ok _ => Ok tt
               | Err e => Err (match e with
                               | WorkspaceIo _ _ => retryable (lit "workspace_cleanup") (display e)
                               | _ => permanent (lit "workspace_cleanup") (display e)
                               end)
               end
      end
  | _ => Done (Err (permanent (lit "invalid_payload")
           (lit "cleanup_workspace handler received a different job command")))
  end.
End Handlers.
