(* ===== verification/IngestWorker.v ===== *)
(** * IngestWorker: the handlers of the ingest pipeline

    [apps/worker/src/ingest.rs] (inspection, download and probe of a source) and the
    handler of [apps/worker/src/normalization.rs], as programs over the calls of
    [Workspace].  The downloader, the video normalisation and the publication of files are
    the programs of [YtDlp], [NormalizeVideo] and [Execute].

    The image normaliser and the decoder of animations are calls.  A [DownloadAttemptArtifact]
    removes its file when it is dropped: its path is armed while the value lives. *)

From S2P Require Import Prelude Enums Jobs Db Queue Text Envelope Proc Preview Normalize.
From S2P Require Import Execute NormalizeVideo Download Library LibraryRepo Inbox InboxRepo InboxOps.
From S2P Require Import UploadProvider Workspace.

Definition probe_stage_may_run (s : IngestStatus.t) : bool :=
  match s with
  | IngestStatus.Queued | IngestStatus.Downloading | IngestStatus.Probing
  | IngestStatus.FailedRetryable => true
  | _ => false
  end.
Definition normalization_stage_may_run (s : IngestStatus.t) : bool :=
  match s with IngestStatus.Normalizing | IngestStatus.FailedRetryable => true | _ => false end.

Section Handlers.
Context {J : Json} {Sh : JsonShape} {E : EnvelopeSerde} {Im : ImageLib} {Sp : Serde MediaProbe} {Dg : Sha256}.
Context `{Eqv : !EqDecision Value}.
Context {Dd : Display DiskAdmissionError} {Dw : Display WorkspaceError} {Dx : Display IngestDataError}.
Context {Di : Display InboxRepositoryError} {Dl : Display LibraryRepositoryError} {Do : Display io_error}.
Context {Dp : Display ProbeError} {Da : Display ArtifactPublicationError} {Dn : Display NormalizationError}.
Context {De : Display NormalizationExecutionError} {Dh : Display HashError}.
Abbreviation handler A := (@proc worker_interface (result HandlerFailure A)).

#[global] Instance inspection_dec : EqDecision SourceInspection.
Proof. solve_decision. Defined.

(** ** The frame of a stage *)

Definition no_lease (name : string) : HandlerFailure :=
  permanent (lit "invalid_job_state") (lit name ++ lit " handler requires a running job lease").
Definition wrong_command {A} (name : string) : handler A :=
  Done (Err (permanent (lit "invalid_payload") (lit name ++ lit " handler received a different job command"))).

(** [begin_*], and the two answers that end the handler. *)
Definition with_stage (s : PipelineStage) (id : Uuid) (l : JobLease) (k : Ingest → handler unit)
    : handler unit :=
  started ← ask (BeginStage s id l);
  match started : result InboxRepositoryError StageStart with
  | Ok (StageReady request) => k request
  | Ok (AlreadyAdvanced _) => Done (Ok tt)
  | Err e => Done (Err (map_inbox_error e))
  end.
Definition complete (id : Uuid) (l : JobLease) (o : StageOutput) : handler unit :=
  _ ←? mapped map_inbox_error (ask (CompleteStage id l o));
  Done (Ok tt).

(** [fail_probe], [fail_download] and [fail_normalization]. *)
Definition fail_stage (s : PipelineStage) (id : Uuid) (l : JobLease) (failure : HandlerFailure)
    : handler unit :=
  let status := if hf_retryable failure then IngestStatus.FailedRetryable
                else IngestStatus.FailedTerminal in
  _ ←? mapped map_inbox_error
         (ask (FailStage s id l status (hf_class failure) (hf_message failure)));
  Done (Err failure).
Definition fail_probe := fail_stage AssetProbeStage.
Definition fail_download := fail_stage SourceDownloadStage.
Definition fail_normalization := fail_stage AssetNormalizationStage.

(** [match t { Ok(value) => .., Err(error) => return fail(map_workspace_error(error)) }]. *)
Definition or_fail {A} (fail : HandlerFailure → handler unit) (t : handler A) (k : A → handler unit)
    : handler unit :=
  r ← t; match r with Ok a => k a | Err failure => fail failure end.
Definition in_workspace {A} (t : @proc worker_interface (result WorkspaceError A)) : handler A :=
  mapped map_workspace_error t.

Definition verdict (terminal : bool) (class message : Str) : HandlerFailure :=
  if terminal then permanent class message else retryable class message.

(** The scope of a [DownloadAttemptArtifact]. *)
Definition with_artifact {A} (path : Str) (body : @proc worker_interface A) : @proc worker_interface A :=
  _ ← on_disk (@ask file_interface (Arm path));
  r ← body;
  _ ← on_disk (drop_artifact path);
  Done r.

Definition new_uuid : @proc worker_interface Uuid := on_disk (@ask file_interface NewUuid).

(** ** Inspection *)

Definition inspect_source (downloader : SourceDownloader) (job : Job) : handler unit :=
  match jb_command job with
  | InspectSource p =>
      let id := inspect_ingest_id p in
      attempt ←? Done (ok_or (lease job) (no_lease "inspect_source"));
      with_stage SourceInspectionStage id attempt (λ request,
        let source := Build_SourceInput id (ig_source_url request) (ig_page_url request) in
        r ← on_http (sd_inspect downloader source);
        match r with
        | Ok inspection => complete id attempt (Inspected inspection)
        | Err error =>
            let terminal := negb (download_is_retryable error) || exhausted job in
            let status := if terminal then IngestStatus.FailedTerminal
                          else IngestStatus.FailedRetryable in
            let class := download_class error in
            let message := display (error : DownloadError) in
            _ ←? mapped map_inbox_error
                   (ask (FailStage SourceInspectionStage id attempt status class message));
            Done (Err (verdict terminal class message))
        end)
  | _ => wrong_command "inspect_source"
  end.

(** ** Download *)

Definition download_stage_may_run (request : Ingest) : bool :=
  match ig_status request with
  | IngestStatus.Downloading | IngestStatus.FailedRetryable =>
      match input_data request with Ok data => is_none (id_download data) | Err _ => false end
  | _ => false
  end.

Definition download_failure (error : DownloadError) (terminal : bool) : HandlerFailure :=
  verdict terminal (download_class error) (display error).

Definition artifact_failure (message : Str) : HandlerFailure :=
  permanent (lit "download_artifact") message.

Definition read_source_artifact (w : MediaWorkspace) (path : Str) (mime_type : option Str)
    : handler DownloadedSource :=
  _ ←? in_workspace (workspace_validate w);
  t ←? mapped (λ error, artifact_failure
         (lit "downloaded source is not accessible: " ++ display (error : io_error))) (stat path);
  Done (if ft_is_symlink t || negb (ft_is_file t)
        then Err (artifact_failure (lit "downloaded source is not a regular file"))
        else Ok {| ds_path := path; ds_bytes := ft_len t; ds_mime_type := mime_type;
                   ds_selected_format := None |}).

Definition validate_downloaded_source (w : MediaWorkspace) (path : Str) (d : DownloadedSource)
    : handler unit :=
  _ ←? in_workspace (workspace_validate w);
  _ ←? check (bool_decide (ds_path d = path)) (artifact_failure
         (lit "source downloader returned a path outside the requested workspace destination"));
  stored ←? read_source_artifact w path (ds_mime_type d);
  check (ds_bytes stored =? ds_bytes d)
    (artifact_failure (lit "downloaded source size does not match adapter metadata")).

(** The published source, whoever published it. *)
Definition published_source (w : MediaWorkspace) (attempt source : Str) (d : DownloadedSource)
    : handler DownloadedSource :=
  r ← on_disk (publish_artifact attempt source);
  match r with
  | Ok _ =>
      published ←? read_source_artifact w source (ds_mime_type d);
      _ ←? check (ds_bytes published =? ds_bytes d)
             (artifact_failure (lit "published source size does not match adapter metadata"));
      Done (Ok {| ds_path := ds_path published; ds_bytes := ds_bytes published;
                  ds_mime_type := ds_mime_type published;
                  ds_selected_format := ds_selected_format d |})
  | Err ArtifactConflict =>
      published ←? read_source_artifact w source (ds_mime_type d);
      Done (Ok {| ds_path := ds_path published; ds_bytes := ds_bytes published;
                  ds_mime_type := ds_mime_type published;
                  ds_selected_format := ds_selected_format d |})
  | Err error => Done (Err (artifact_failure (display (error : ArtifactPublicationError))))
  end.

(** Inside the workspace, with the snapshot of the inspection. *)
Definition download_into (w : MediaWorkspace) (source attempt_path : Str) (downloader : SourceDownloader)
    (limits : DownloadLimits) (job : Job) (id : Uuid) (l : JobLease) (inspection : SourceInspection)
    : handler unit :=
  with_artifact attempt_path (
    r ← on_http (sd_download downloader inspection attempt_path limits);
    match r with
    | Err error =>
        let terminal := negb (download_is_retryable error) || exhausted job in
        fail_download id l (download_failure error terminal)
    | Ok downloaded =>
        or_fail (fail_download id l) (validate_downloaded_source w attempt_path downloaded) (λ _,
        or_fail (fail_download id l) (published_source w attempt_path source downloaded) (λ downloaded,
        complete id l (Downloaded {| sd_bytes := ds_bytes downloaded;
                                     sd_mime_type := ds_mime_type downloaded;
                                     sd_media_kind := si_media_kind inspection;
                                     sd_selected_format := ds_selected_format downloaded |})))
    end).

Definition download_source (work_root : Str) (downloader : SourceDownloader) (limits : DownloadLimits)
    (admission : WorkspaceAdmission) (job : Job) : handler unit :=
  match jb_command job with
  | DownloadSource p =>
      let id := download_ingest_id p in
      attempt ←? Done (ok_or (lease job) (no_lease "download_source"));
      current ←? load_ingest_for_admission id;
      _ ←? (if download_stage_may_run current
            then admit_work admission work_root (u64_saturating_mul (dl_max_bytes limits) 3)
            else Done (Ok tt));
      with_stage SourceDownloadStage id attempt (λ request,
        data ←? Done (map_err (λ error, permanent (lit "invalid_ingest_state")
                   (display (error : IngestDataError))) (input_data request));
        if bool_decide (id_inspection data = Some (download_inspection p)) then
          or_fail (fail_download id attempt) (in_workspace (workspace_create work_root id)) (λ w,
          or_fail (fail_download id attempt) (in_workspace (workspace_validate w)) (λ _,
          or_fail (fail_download id attempt)
            (in_workspace (workspace_path w AreaSource (lit "source.bin"))) (λ source,
          u ← new_uuid;
          or_fail (fail_download id attempt)
            (in_workspace (workspace_path w AreaSource
               (lit ".sooqa-source-" ++ uuid_to_string u ++ lit ".tmp"))) (λ path,
          download_into w source path downloader limits job id attempt (download_inspection p)))))
        else
          fail_download id attempt (permanent (lit "invalid_ingest_state")
            (lit "download inspection does not match the durable ingest snapshot")))
  | _ => wrong_command "download_source"
  end.

(** ** Probe *)

Definition reconstruction_failure (message : Str) : HandlerFailure :=
  permanent (lit "source_reconstruction") message.

Definition ensure_telegram_source (w : MediaWorkspace) (request : Ingest) (telegram_source : bool)
    : handler unit :=
  data ←? Done (map_err (λ error, permanent (lit "invalid_ingest_state")
             (display (error : IngestDataError))) (input_data request));
  file_id ←? Done (ok_or (file_id ← src_telegram_file_id (id_source data);
                          if is_empty file_id then None else Some file_id)
               (reconstruction_failure (lit "Telegram ingest has no durable file ID")));
  _ ←? check telegram_source (reconstruction_failure
         (lit "Telegram source reconstruction is not configured in this worker"));
  source ←? in_workspace (workspace_path w AreaSource (lit "telegram-input.bin"));
  u ← new_uuid;
  temporary ←? in_workspace (workspace_path w AreaSource
                 (lit ".sooqa-telegram-source-" ++ uuid_to_string u ++ lit ".tmp"));
  with_artifact temporary (
    _ ←? ask (DownloadTelegramFile file_id temporary);
    downloaded ←? read_source_artifact w temporary None;
    _ ←? check (negb (ds_bytes downloaded =? 0))
           (reconstruction_failure (lit "Telegram source reconstruction produced an empty file"));
    r ← on_disk (publish_artifact temporary source);
    match r with
    | Ok _ | Err ArtifactConflict =>
        existing ←? read_source_artifact w source None;
        check (negb (ds_bytes existing =? 0))
          (reconstruction_failure (lit "Telegram source artifact is empty after reconstruction"))
    | Err error => Done (Err (reconstruction_failure (display (error : ArtifactPublicationError))))
    end).

(** Before the stage begins: the workspace of a Telegram source and the room for it, or the
    failure to record once the stage has begun. *)
Definition preflight_probe (work_root : Str) (admission : WorkspaceAdmission) (max_bytes : Z)
    (current : Ingest) : handler (option (MediaWorkspace * Str) + HandlerFailure) :=
  if bool_decide (ig_kind current = IngestKind.TelegramMessage)
     && probe_stage_may_run (ig_status current) then
    r ← in_workspace (
          w ←? workspace_create work_root (ig_workspace_id current);
          _ ←? workspace_validate w;
          input ←? workspace_path w AreaSource (lit "telegram-input.bin");
          Done (Ok (w, input)));
    match r with
    | Err failure => Done (Ok (inr failure))
    | Ok (w, input) =>
        found ← source_artifact_exists input;
        match found with
        | Ok true => Done (Ok (inl (Some (w, input))))
        | Ok false => _ ←? admit_work admission (mw_root w) max_bytes; Done (Ok (inl (Some (w, input))))
        | Err failure => Done (Ok (inr failure))
        end
    end
  else Done (Ok (inl None)).

Definition probe_input (k : IngestKind.t) : Str :=
  if bool_decide (k = IngestKind.Url) then lit "source.bin" else lit "telegram-input.bin".

Definition open_input (work_root : Str) (request : Ingest) : handler (MediaWorkspace * Str) :=
  in_workspace (
    w ←? workspace_create work_root (ig_workspace_id request);
    _ ←? workspace_validate w;
    input ←? workspace_path w AreaSource (probe_input (ig_kind request));
    Done (Ok (w, input))).

(** Once the source is there. *)
Definition run_probe (input : Str) (job : Job) (id : Uuid) (l : JobLease) : handler unit :=
  r ← on_disk (@ask file_interface (ProbeFile input));
  match r : result ProbeError MediaProbe with
  | Ok probe => complete id l (Probed (to_value probe))
  | Err error =>
      let terminal := negb (probe_error_is_retryable error) || exhausted job in
      let class := probe_error_class error in
      let message := display error in
      _ ←? mapped map_inbox_error
             (ask (FailStage AssetProbeStage id l
               (if terminal then IngestStatus.FailedTerminal else IngestStatus.FailedRetryable)
               class message));
      Done (Err (verdict terminal class message))
  end.

Definition probe_asset (work_root : Str) (telegram_source : bool) (admission : WorkspaceAdmission)
    (max_bytes : Z) (job : Job) : handler unit :=
  match jb_command job with
  | ProbeAsset p =>
      let id := ingest_job_id p in
      attempt ←? Done (ok_or (lease job) (no_lease "probe_asset"));
      current ←? load_ingest_for_admission id;
      preflight ←? preflight_probe work_root admission max_bytes current;
      with_stage AssetProbeStage id attempt (λ request,
        match preflight : option (MediaWorkspace * Str) + HandlerFailure with
        | inr failure => fail_probe id attempt failure
        | inl ready =>
            or_fail (fail_probe id attempt)
              (match ready with Some ready => Done (Ok ready) | None => open_input work_root request end)
              (λ opened, let '(w, input) := (opened : MediaWorkspace * Str) in
                missing ←? (if bool_decide (ig_kind request = IngestKind.TelegramMessage)
                            then found ←? source_artifact_exists input; Done (Ok (negb found))
                            else Done (Ok false));
                if missing : bool then
                  r ← ensure_telegram_source w request telegram_source;
                  match r with
                  | Ok _ => run_probe input job id attempt
                  | Err failure =>
                      let terminal := negb (hf_retryable failure) || exhausted job in
                      fail_probe id attempt
                        (if terminal then permanent (hf_class failure) (hf_message failure) else failure)
                  end
                else run_probe input job id attempt)
        end)
  | _ => wrong_command "probe_asset"
  end.

(** ** Normalisation *)

Definition worker_media_kind (request : Ingest) : option SourceMediaKind.t :=
  match input_data request with Ok data => data_media_kind data | Err _ => None end.
Definition source_mime_type (request : Ingest) : option Str :=
  match input_data request with Ok data => data_mime_type data | Err _ => None end.

Definition media_probe_kind (probe : MediaProbe) : option SourceMediaKind.t :=
  let container := to_ascii_lowercase <$> mp_container_format probe in
  let in_container f := match container with Some value => f value | None => false end in
  let video_streams :=
    filter (λ s, st_kind s = StreamVideo ∧ st_attached_picture s = false) (mp_streams probe) in
  let codecs := omap st_codec video_streams in
  let some_codec names := existsb (λ c, existsb (λ f, eq_ignore_ascii_case c (lit f)) names) codecs in
  if in_container (contains (lit "gif"))
     || existsb (λ c, contains (lit "gif") (to_ascii_lowercase c)) codecs
  then Some SourceMediaKind.Animation
  else if in_container (λ value, existsb (λ f, contains (lit f) value)
            ["image2"; "png"; "jpeg"; "jpg"; "webp"; "avif"; "mjpeg"]%string)
          || some_codec ["png"; "webp"]%string
          || (is_none container && some_codec ["mjpeg"]%string)
  then Some SourceMediaKind.Image
  else if existsb (λ _, true) video_streams then Some SourceMediaKind.Video
  else if existsb (λ s, bool_decide (st_kind s = StreamAudio)) (mp_streams probe)
  then Some SourceMediaKind.Audio
  else None.

Definition invalid_state (message : Str) : HandlerFailure := permanent (lit "invalid_ingest_state") message.

Definition stored_probe_and_kind (request : Ingest) : result HandlerFailure (MediaProbe * SourceMediaKind.t) :=
  data ← map_err (λ error, invalid_state (display (error : IngestDataError))) (input_data request);
  stored ← ok_or (id_probe data) (invalid_state (lit "ingest request has no stored media probe"));
  probe ← map_err (λ error, invalid_state
            (lit "stored media probe could not be decoded: " ++ error)) (from_value stored);
  kind ← ok_or (or_else (media_probe_kind probe) (worker_media_kind request))
           (invalid_state (lit "ingest request has no stored source media kind"));
  Ok (probe, kind).

(** Room is asked for before the stage begins; a malformed request is a failure to record
    once it has. *)
Definition preflight_normalization (request : Ingest) (work_root : Str) (admission : WorkspaceAdmission)
    (max_bytes : Z) : handler (option HandlerFailure) :=
  if negb (normalization_stage_may_run (ig_status request)) then Done (Ok None)
  else
    match input_data request with
    | Err error => Done (Ok (Some (invalid_state (display (error : IngestDataError)))))
    | Ok data =>
        if is_some (id_normalization data) && negb (ig_force_save request) then Done (Ok None)
        else
          match stored_probe_and_kind request with
          | Err failure => Done (Ok (Some failure))
          | Ok (_, kind) =>
              _ ←? (match kind with
                    | SourceMediaKind.Video => admit_work admission work_root (u64_saturating_mul max_bytes 2)
                    | _ => admit_work admission work_root max_bytes
                    end);
              Done (Ok None)
          end
    end.

Definition prepare_workspace (work_root : Str) (request : Ingest) : handler (MediaWorkspace * Str) :=
  in_workspace (
    w ←? workspace_create work_root (ig_workspace_id request);
    _ ←? workspace_validate w;
    Done (Ok (w, probe_input (ig_kind request)))).

Definition normalization_error_is_retryable (e : NormalizationExecutionError) : bool :=
  match e with
  | ExecCommand e => is_timeout e
  | ExecProbe e => probe_error_is_retryable e
  | _ => false
  end.
Definition map_video_normalization_error (e : NormalizationExecutionError) (job : Job) : HandlerFailure :=
  if normalization_error_is_retryable e && (jb_attempt_count job <? jb_max_attempts job)
  then retryable (lit "normalize_timeout") (display e)
  else permanent (lit "normalize") (display e).

Definition normalization_metadata (r : NormalizationResult) : AssetNormalization :=
  let probe := nr_probe r in
  let video := find_stream StreamVideo probe in
  let audio := find_stream StreamAudio probe in
  {| an_local_work_path := nr_output_path r; an_file_size_bytes := fd_bytes (nr_digest r);
     an_sha256 := fd_sha256 (nr_digest r); an_media_kind := SourceMediaKind.Video;
     an_profile_version := Some CANONICAL_VIDEO_PROFILE_VERSION;
     an_mime_type := Some (lit "video/mp4"); an_container := mp_container_format probe;
     an_video_codec := video ≫= st_codec; an_audio_codec := audio ≫= st_codec;
     an_width := video ≫= st_width; an_height := video ≫= st_height;
     an_duration_ms := mp_duration_ms probe; an_bit_rate := mp_bit_rate probe;
     an_thumbnail := None |}.

Definition normalize_video_asset (work_root : Str) (pl : NormalizationPlanner) (x : FfmpegExecutor)
    (request : Ingest) (probe : MediaProbe) (job : Job) (max_bytes : Z) : handler AssetNormalization :=
  opened ←? prepare_workspace work_root request;
  let '(w, input_name) := (opened : MediaWorkspace * Str) in
  input ←? in_workspace (workspace_path w AreaSource input_name);
  output ←? in_workspace (workspace_path w AreaNormalized (lit "canonical.mp4"));
  first ←? Done (map_err (λ error, permanent (lit "normalize_plan") (display (error : NormalizationError)))
              (plan pl input output probe));
  result ←? mapped (λ error, map_video_normalization_error error job)
              (on_disk (execute_video_normalization pl x input output probe max_bytes first));
  Done (Ok (normalization_metadata result)).

Definition normalized_storage_limit_failure (bytes limit : Z) : option HandlerFailure :=
  if limit <? bytes
  then Some (permanent (lit "normalized_storage_too_large")
         (lit "canonical normalized media is " ++ show bytes
          ++ lit " bytes, above the configured storage ceiling of " ++ show limit ++ lit " bytes"))
  else None.

Definition image_normalization_metadata (r : ImageNormalizationResult) : AssetNormalization :=
  {| an_local_work_path := ir_canonical_path r;
     an_file_size_bytes := fd_bytes (ir_canonical_digest r);
     an_sha256 := fd_sha256 (ir_canonical_digest r); an_media_kind := SourceMediaKind.Image;
     an_profile_version := None; an_mime_type := Some (image_mime_type (ir_format r));
     an_container := Some (image_extension (ir_format r)); an_video_codec := None; an_audio_codec := None;
     an_width := Some (ir_width r); an_height := Some (ir_height r); an_duration_ms := None;
     an_bit_rate := None;
     an_thumbnail := Some {| th_local_work_path := ir_thumbnail_path r;
       th_file_size_bytes := fd_bytes (ir_thumbnail_digest r);
       th_sha256 := fd_sha256 (ir_thumbnail_digest r);
       th_mime_type := Some (image_mime_type (ir_thumbnail_format r));
       th_width := Some (ir_thumbnail_width r); th_height := Some (ir_thumbnail_height r) |} |}.

Definition normalize_image_asset (work_root : Str) (request : Ingest) (max_bytes : Z)
    : handler AssetNormalization :=
  opened ←? prepare_workspace work_root request;
  let '(w, input_name) := (opened : MediaWorkspace * Str) in
  result ←? mapped (λ error, match error with
                       | inl message => permanent (lit "normalize_plan") message
                       | inr message => permanent (lit "normalize_image") message
                       end) (ask (NormalizeImage (mw_root w) input_name));
  Done match normalized_storage_limit_failure (fd_bytes (ir_canonical_digest result)) max_bytes with
       | Some failure => Err failure
       | None => Ok (image_normalization_metadata result)
       end.

(** The preview of an animation; any failure of decoding, encoding or publication only means
    that there is none. *)
Definition animation_preview (w : MediaWorkspace) (canonical : Str)
    : handler (option AssetThumbnailNormalization) :=
  frame ← ask (DecodeFirstFrame canonical);
  match frame : result Str Picture with
  | Err _ => Done (Ok None)
  | Ok frame =>
      match encode_bounded_preview frame with
      | Some (Ok preview) =>
          thumbnail ←? in_workspace (workspace_path w AreaPreviews (lit "animation-preview.jpg"));
          u ← new_uuid;
          temporary ←? in_workspace (workspace_path w AreaPreviews
                         (lit ".animation-preview-" ++ uuid_to_string u ++ lit ".tmp"));
          _ ←? mapped (λ error, permanent (lit "normalize_animation_preview")
                         (lit "animation preview could not be staged: " ++ display (error : io_error)))
                 (ask (WriteFile temporary (bp_bytes preview)));
          published ← on_disk (publish_artifact temporary thumbnail);
          _ ← on_disk (@ask file_interface (RemoveFile temporary));
          Done (Ok match published with
                   | Ok _ | Err ArtifactConflict =>
                       Some {| th_local_work_path := thumbnail;
                               th_file_size_bytes := fd_bytes (bp_digest preview);
                               th_sha256 := fd_sha256 (bp_digest preview);
                               th_mime_type := Some (lit "image/jpeg");
                               th_width := Some (bp_width preview);
                               th_height := Some (bp_height preview) |}
                   | Err _ => None
                   end)
      | _ => Done (Ok None)
      end
  end.

Definition canonical_name (k : SourceMediaKind.t) : Str :=
  lit match k with
      | SourceMediaKind.Animation => "canonical.animation"
      | SourceMediaKind.Audio => "canonical.audio"
      | SourceMediaKind.Video | SourceMediaKind.Image | SourceMediaKind.Unknown => "canonical.media"
      end.

Definition normalize_exact_asset (work_root : Str) (request : Ingest) (kind : SourceMediaKind.t)
    (probe : MediaProbe) (max_bytes : Z) : handler AssetNormalization :=
  opened ←? prepare_workspace work_root request;
  let '(w, input_name) := (opened : MediaWorkspace * Str) in
  input ←? in_workspace (workspace_path w AreaSource input_name);
  canonical ←? in_workspace (workspace_path w AreaNormalized (canonical_name kind));
  there ←? source_artifact_exists canonical;
  _ ←? (if there : bool then Done (Ok tt)
        else published ← on_disk (publish_artifact input canonical);
             Done match published with
                  | Ok _ | Err ArtifactConflict => Ok tt
                  | Err error => Err (permanent (lit "normalize_exact")
                                   (display (error : ArtifactPublicationError)))
                  end);
  digest ←? mapped (λ error, permanent (lit "normalize_exact") (display (error : HashError)))
              (on_disk (@ask file_interface (Sha256File canonical)));
  match normalized_storage_limit_failure (fd_bytes digest) max_bytes with
  | Some failure => Done (Err failure)
  | None =>
      thumbnail ←? (if bool_decide (kind = SourceMediaKind.Animation) then animation_preview w canonical
                    else Done (Ok None));
      let video := find_stream StreamVideo probe in
      let audio := find_stream StreamAudio probe in
      Done (Ok {| an_local_work_path := canonical; an_file_size_bytes := fd_bytes digest;
                  an_sha256 := fd_sha256 digest; an_media_kind := kind; an_profile_version := None;
                  an_mime_type := source_mime_type request; an_container := mp_container_format probe;
                  an_video_codec := video ≫= st_codec; an_audio_codec := audio ≫= st_codec;
                  an_width := video ≫= st_width; an_height := video ≫= st_height;
                  an_duration_ms := mp_duration_ms probe; an_bit_rate := mp_bit_rate probe;
                  an_thumbnail := thumbnail |})
  end.

Definition settle_normalization (id : Uuid) (l : JobLease) (artifact : result HandlerFailure AssetNormalization)
    : handler unit :=
  match artifact with
  | Ok normalization => complete id l (Normalized normalization)
  | Err failure => fail_normalization id l failure
  end.

Definition normalize_asset (work_root : Str) (pl : NormalizationPlanner) (x : FfmpegExecutor)
    (max_bytes : Z) (admission : WorkspaceAdmission) (job : Job) : handler unit :=
  match jb_command job with
  | NormalizeAsset p =>
      let id := ingest_job_id p in
      attempt ←? Done (ok_or (lease job) (no_lease "normalize_asset"));
      current ←? load_ingest_for_admission id;
      preflight ←? preflight_normalization current work_root admission max_bytes;
      with_stage AssetNormalizationStage id attempt (λ request,
        match preflight : option HandlerFailure with
        | Some failure => settle_normalization id attempt (Err failure)
        | None =>
            match stored_probe_and_kind request with
            | Err failure => settle_normalization id attempt (Err failure)
            | Ok (probe, kind) =>
                artifact ← match kind with
                  | SourceMediaKind.Image => normalize_image_asset work_root request max_bytes
                  | SourceMediaKind.Animation | SourceMediaKind.Audio =>
                      normalize_exact_asset work_root request kind probe max_bytes
                  | SourceMediaKind.Video =>
                      normalize_video_asset work_root pl x request probe job max_bytes
                  | SourceMediaKind.Unknown => Done (Err (permanent (lit "unsupported_media_kind")
                      (lit "asset media kind " ++ debug_kind kind
                       ++ lit " is not supported by the video normalizer")))
                  end;
                settle_normalization id attempt artifact
            end
        end)
  | _ => wrong_command "normalize_asset"
  end.
End Handlers.
