(* ===== verification/UploadSystem.v ===== *)
(** * UploadSystem: the protocol of an upload, and uploads running against the library

    [rule] says which call is allowed in which phase of an upload and in which phase
    its answers leave the program; [wp] extends it to programs, with a rule for
    sequencing; the storage handlers satisfy it.

    The system in which the storage handlers of [UploadProvider] run: any number of
    them, started for any job at any time, interleaved with each other and with the
    transactions of everybody else that may touch a media row, cut off at any call,
    and with every repository call possibly answered by a connection error whether or
    not it was committed.

    A request that was started may take effect at any later time, even after its
    handler is gone.  The log therefore records the message of a request when the
    request is started, if it will ever be delivered: at every moment the log holds at
    least the messages that exist.  What the handler sees later has to agree with it. *)

From S2P Require Import Prelude Enums Jobs Db Queue Proc Preview Library LibraryRepo LibraryStorage.
From S2P Require Import Telegram MediaIdentity Inbox InboxRepo InboxOps UploadProvider Cleanup.
From S2P Require Import LibraryInv LibrarySpec Publisher PublisherRepo PublisherOps Envelope.

(** How far a program has got: no reservation (or nothing more will be sent under it);
    reserved under [t] and nothing delivered; started under [t], with or without a
    message; confirmed. *)
Inductive phase :=
| Unreserved
| Waiting (t : Uuid)
| Flying (t : Uuid)
| Sent (t : Uuid) (r : StorageUploadResult).

#[global] Instance upload_result_eq_dec : EqDecision StorageUploadResult.
Proof. solve_decision. Defined.
#[global] Instance phase_eq_dec : EqDecision phase.
Proof. solve_decision. Defined.

(** The reservation of a phase. *)
Definition holder (φ : phase) : option Uuid :=
  match φ with Unreserved => None | Waiting t | Flying t | Sent t _ => Some t end.

(** What Telegram's errors have to mean: a message that exists is only ever hidden
    behind an error the adapter calls ambiguous. *)
Class UploadLaws (Ua : TelegramStorageApi) (delivered : UpError → bool) :=
  delivered_up_ambiguous : ∀ e, delivered e = true → up_is_ambiguous e = true.

Section Protocol.
Context {J : Json} {Ua : TelegramStorageApi} {Ca : TelegramStorageCaptionApi}.
Context (delivered : UpError → bool) (i : StorageUploadInput).

Definition carries (a : StorageUploadAttachment) (r : StorageUploadResult) : Prop :=
  at_message_id a = us_message_id r ∧ at_file_id a = Some (us_file_id r)
  ∧ at_file_unique_id a = Some (us_file_unique_id r).

Definition after_error (t : Uuid) (e : UpError) : phase :=
  if delivered e then Flying t else Waiting t.

Definition rule (c : call) (φ : phase) : (phase → answer c → Prop) → Prop :=
  match c return (phase → answer c → Prop) → Prop with
  | UReserve m g => λ go,
      φ = Unreserved ∧ m = ui_media_id i ∧ g = ui_generation i
      ∧ (∀ t cap, go (Waiting t) (Ok (Reserved m t cap)))
      ∧ (∀ x, (∀ m' t cap, x ≠ Ok (Reserved m' t cap)) → go Unreserved x)
  | URelease m t => λ go, m = ui_media_id i ∧ φ = Waiting t ∧ ∀ x, go Unreserved x
  | UMark m t => λ go, m = ui_media_id i ∧ holder φ = Some t ∧ ∀ x, go Unreserved x
  | UDispatch t _ => λ go, φ = Waiting t ∧ go (Flying t) tt
  | USelect t => λ go,
      φ = Flying t ∧ go (Waiting t) (EvCancelled false) ∧ go (Flying t) (EvCancelled true)
      ∧ go (Flying t) EvTick ∧ (∀ r, go (Sent t r) (EvDone (Ok r)))
      ∧ (∀ e, go (after_error t e) (EvDone (Err e)))
  | UAwait t => λ go,
      φ = Flying t ∧ go (Waiting t) (EndCancelled false) ∧ go (Flying t) (EndCancelled true)
      ∧ (∀ r, go (Sent t r) (EndDone (Ok r)))
      ∧ (∀ e, go (after_error t e) (EndDone (Err e)))
  | UComplete m t a => λ go,
      m = ui_media_id i ∧ ∃ r, φ = Sent t r ∧ carries a r
      ∧ (∀ x, go Unreserved (Some (Ok x))) ∧ go φ None ∧ (∀ e, go φ (Some (Err e)))
  | _ => λ go, ∀ x, go φ x
  end.

#[global] Instance upload_rule_mono : RuleMono rule.
Proof. intros c φ go go' Hgo. destruct c; simpl; firstorder. Qed.

Definition follows {A} (φ : phase) (t : proc A) : Prop := wp rule φ t (λ _ _, True).
End Protocol.

(** Split what is written as a conjunction, without unfolding programs. *)
Ltac conjuncts := repeat lazymatch goal with |- _ ∧ _ => split end.

#[global] Arguments mark_unknown : simpl never.
#[global] Arguments release : simpl never.
#[global] Arguments cancelled : simpl never.

(** ** The handlers *)

Section Handlers.
Context {J : Json} {Ua : TelegramStorageApi} {Ca : TelegramStorageCaptionApi} {Im : ImageLib}.
Context {Du : Display StorageUploadError} {Dl : Display LibraryRepositoryError}.
Context {Di : Display InboxRepositoryError} {Dc : Display CapError}.
Context {delivered : UpError → bool} {Laws : UploadLaws Ua delivered} (i : StorageUploadInput).
Abbreviation wp := (wp (rule delivered i)).
Abbreviation media := (ui_media_id i).
Abbreviation upload A := (proc (result StorageUploadError A)).

(** The reservation is given up and an error reported. *)
Definition gave_up {A} (φ : phase) (r : result StorageUploadError A) : Prop :=
  φ = Unreserved ∧ ∃ e, r = Err e.

Lemma mark_gives_up {A} φ t e : holder φ = Some t → wp φ (mark_unknown media t e : upload A) gave_up.
Proof.
  intros Hφ. unfold mark_unknown. simpl. conjuncts; [done..|]. intros []; split; simpl; eauto.
Qed.
Lemma release_gives_up {A} t e : wp (Waiting t) (release media t e : upload A) gave_up.
Proof. unfold release. simpl. conjuncts; [done..|]. intros []; split; simpl; eauto. Qed.

Lemma cancelled_gives_up {A} t (d : bool) :
  wp (if d then Flying t else Waiting t) (cancelled media t d : upload A) gave_up.
Proof. destruct d; [by apply mark_gives_up|apply release_gives_up]. Qed.

(** The loop ends with the reservation given up, or with what Telegram answered. *)
Definition awaited (t : Uuid) (φ : phase)
    (r : result StorageUploadError (result UpError StorageUploadResult)) : Prop :=
  match r with
  | Err _ => φ = Unreserved
  | Ok (Ok u) => φ = Sent t u
  | Ok (Err e) => φ = after_error delivered t e
  end.
Lemma gave_up_awaited t φ r : gave_up φ r → awaited t φ r.
Proof. by intros [-> [e ->]]. Qed.

Lemma await_upload_wp t ticks : wp (Flying t) (await_upload media t ticks) (awaited t).
Proof.
  induction ticks as [|ticks IH]; cbn [Proc.wp await_upload rule].
  - conjuncts; try done.
    + eapply wp_mono; [apply gave_up_awaited|apply (cancelled_gives_up t false)].
    + eapply wp_mono; [apply gave_up_awaited|apply (cancelled_gives_up t true)].
  - conjuncts; try done.
    + eapply wp_mono; [apply gave_up_awaited|apply (cancelled_gives_up t false)].
    + eapply wp_mono; [apply gave_up_awaited|apply (cancelled_gives_up t true)].
    + intros []; [done|]. eapply wp_mono; [apply gave_up_awaited|by apply mark_gives_up].
Qed.

(** Nothing is reserved any more. *)
Definition resting {A} (φ : phase) (_ : A) : Prop := φ = Unreserved.
Lemma gave_up_resting {A} φ (r : result StorageUploadError A) : gave_up φ r → resting φ r.
Proof. by intros [-> _]. Qed.

Lemma complete_upload_wp t u a :
  carries a u → wp (Sent t u) (complete_upload media t a) resting.
Proof.
  intros Ha. unfold complete_upload. cbn [Proc.wp rule]. intros []; cbn [Proc.wp rule].
  - eapply wp_mono; [apply gave_up_resting|by apply mark_gives_up].
  - split; [done|]. exists u. conjuncts; [done..| |intros e];
      (eapply wp_mono; [apply gave_up_resting|by apply mark_gives_up]).
Qed.

Lemma reserved_upload_wp pv t ticks cap q :
  wp (Waiting t) (reserved_upload pv media t ticks cap q) resting.
Proof.
  unfold reserved_upload. cbn [Proc.wp rule]. intros []; cbn [Proc.wp rule].
  - eapply wp_mono; [apply gave_up_resting|apply release_gives_up].
  - split; [done|]. apply wp_try. eapply wp_mono; [|apply await_upload_wp].
    intros φ [[u|e]|e]; simpl; [intros ->|intros ->|done].
    + by apply complete_upload_wp.
    + destruct (up_is_ambiguous e) eqn:He.
      * eapply wp_mono; [apply gave_up_resting|apply mark_gives_up].
        unfold after_error. by destruct (delivered e).
      * unfold after_error. destruct (delivered e) eqn:Hd.
        { by rewrite (delivered_up_ambiguous e Hd) in He. }
        eapply wp_mono; [apply gave_up_resting|apply release_gives_up].
Qed.

(** A program whose calls leave every phase as it is. *)
Definition harmless {A} (p : proc A) : Prop := ∀ φ, wp φ p (λ ψ _, ψ = φ).
Lemma harmless_done {A} (a : A) : harmless (Done a).
Proof. done. Qed.
Lemma harmless_bind {A B} (p : proc A) (f : A → proc B) :
  harmless p → (∀ a, harmless (f a)) → harmless (p ≫= f).
Proof.
  intros Hp Hf φ. apply wp_bind. eapply wp_mono; [|apply Hp]. intros ψ a ->. apply Hf.
Qed.
Lemma harmless_try {Er A B} (p : proc (result Er A)) (f : A → proc (result Er B)) :
  harmless p → (∀ a, harmless (f a)) → harmless (try_bind p f).
Proof. intros Hp Hf. apply harmless_bind; [done|]. by intros []. Qed.
Lemma harmless_ask c : (∀ φ go, (∀ x, go φ x) → rule delivered i c φ go) → harmless (ask c).
Proof. intros Hc φ. apply Hc. done. Qed.
Lemma wp_harmless {A} φ (p : proc A) Q : harmless p → (∀ a, Q φ a) → wp φ p Q.
Proof. intros Hp HQ. eapply wp_mono; [|apply Hp]. by intros ψ a ->. Qed.
End Handlers.

(** Prove a program harmless by its structure. *)
Ltac harmless := repeat first
  [ apply harmless_done
  | apply harmless_bind; [|intros]
  | apply harmless_try; [|intros]
  | apply harmless_ask; by intros
  | case_match ].

Section Uploads.
Context {J : Json} {Ua : TelegramStorageApi} {Ca : TelegramStorageCaptionApi} {Im : ImageLib}.
Context {Du : Display StorageUploadError} {Dl : Display LibraryRepositoryError}.
Context {Di : Display InboxRepositoryError} {Dc : Display CapError}.
Context {delivered : UpError → bool} {Laws : UploadLaws Ua delivered} (i : StorageUploadInput).
Abbreviation wp := (wp (rule delivered i)).
Abbreviation harmless := (harmless (delivered := delivered) i).

Lemma check_local_file_harmless pv path : harmless (check_local_file pv path).
Proof. unfold check_local_file, unless, fail. harmless. Qed.
Lemma stage_thumbnail_harmless path p : harmless (stage_video_thumbnail path p).
Proof. unfold stage_video_thumbnail, fail. harmless. Qed.

Lemma upload_reserved_wp pv ticks kind path video preview t cap :
  wp (Waiting t) (upload_reserved pv ticks kind path video preview (ui_media_id i) t cap) resting.
Proof.
  unfold upload_reserved. apply wp_bind. apply wp_harmless.
  { destruct preview; [|apply harmless_done].
    apply harmless_try; [apply stage_thumbnail_harmless|]. intros. apply harmless_done. }
  intros [thumbnail|e].
  - apply wp_bind. eapply wp_mono; [|apply reserved_upload_wp]. intros φ r ->.
    by destruct thumbnail.
  - simpl. conjuncts; done.
Qed.

Lemma upload_with_cancellation_wp pv ticks :
  wp Unreserved (upload_with_cancellation pv ticks i) resting.
Proof.
  unfold upload_with_cancellation, stored, unless, fail.
  apply wp_try, wp_harmless; [harmless|]. intros [found|]; [|done].
  apply wp_try, wp_harmless; [harmless|]. intros [media|]; [|done].
  apply wp_try, wp_harmless; [harmless|]. intros [[receipt|]|]; [done| |done].
  apply wp_try, wp_harmless; [harmless|]. intros [sha|]; [|done].
  case_match; [done|].
  apply wp_try, wp_harmless; [harmless|]. intros [path|]; [|done].
  apply wp_try, wp_harmless; [apply check_local_file_harmless|]. intros [[]|]; [|done].
  apply wp_try, wp_harmless; [harmless|]. intros [digest|]; [|done].
  case_match; [done|].
  apply wp_try, wp_harmless; [harmless|]. intros [extra|]; [|done].
  apply wp_try, wp_bind. apply wp_ask. cbn [rule]. conjuncts; [done..| |].
  - intros t cap. apply upload_reserved_wp.
  - intros [[m t cap|rc|ra| |g]|e] Hx; try done. by destruct (Hx m t cap).
Qed.

(** ** The handlers *)

Lemma settle_failure_harmless job m e : harmless (settle_upload_failure job m e).
Proof. intros φ [n|x]; done. Qed.
Lemma upload_failed_harmless job m e : harmless (upload_failed job m e).
Proof.
  unfold upload_failed. destruct e as [| | | | | | | | | | | | | |[]| | | | | | | |];
    first [apply settle_failure_harmless|apply harmless_done|idtac].
  case_match; [apply settle_failure_harmless|apply harmless_done].
Qed.

Lemma upload_storage_asset_follows pv ticks job p :
  jb_command job = UploadStorageAsset p →
  i = {| ui_media_id := media_job_id p; ui_generation := media_job_generation p |} →
  follows delivered i Unreserved (upload_storage_asset pv ticks job).
Proof.
  intros Hj Hi. unfold follows, upload_storage_asset. rewrite Hj, <-Hi.
  apply wp_bind. eapply wp_mono; [|apply upload_with_cancellation_wp]. intros φ [o|e] ->.
  - by intros x.
  - apply wp_harmless; [apply upload_failed_harmless|done].
Qed.

Lemma sync_storage_caption_follows job :
  follows delivered i Unreserved (sync_storage_caption job).
Proof.
  unfold follows, sync_storage_caption. destruct (jb_command job); try done.
  destruct (lease job); [|done]. intros [[claim|]|]; [|done..]. intros []; by intros x.
Qed.
End Uploads.

(** What one call reads besides the tables: the clocks and the identifiers it draws. *)
Record storage_supply := {
  ss_clock : Clock;
  ss_token : Uuid;
  ss_job : Uuid → Uuid;
  ss_cleanup : Uuid → Uuid;
}.

(** A message in the storage chat, with the upload it belongs to. *)
Record stored_message := {
  sm_input : StorageUploadInput;
  sm_token : Uuid;
  sm_result : StorageUploadResult;
}.
#[global] Instance upload_input_eq_dec : EqDecision StorageUploadInput.
Proof. solve_decision. Defined.

Definition STORAGE_UPLOAD_LEASE_DURATION : Z := 600 * 1000000.

Section System.
Context {J : Json} {P : PayloadSerde} {Sh : JsonShape} {E : EnvelopeSerde} {U : UrlLib}
  {X : SubmissionText} {D : Digests} {G : SubmissionDigest} {It : InboxText} {C : CaseMapping}
  {Im : ImageLib} {Dg : Sha256} {Lt : LibraryText}.
Context {Ua : TelegramStorageApi} {Ca : TelegramStorageCaptionApi}.
Context {Du : Display StorageUploadError} {Dl : Display LibraryRepositoryError}.
Context {Di : Display InboxRepositoryError} {Dc : Display CapError}.
Abbreviation reply := (result HandlerFailure unit).

(** The answer of a repository call and the committed tables. *)
Definition exec_storage (su : storage_supply) (c : call) (db : Db) : option (answer c * Db) :=
  let ck := ss_clock su in
  match c return option (answer c * Db) with
  | UFindMedia m => Some (run_txn (find_media m) ck db)
  | UFindReceipt m => Some (run_txn (find_storage_receipt m) ck db)
  | UFindPreview m => Some (run_txn (find_media_preview m) ck db)
  | UReserve m g => Some (run_txn (reserve_storage_upload (ss_token su) m g) ck db)
  | URenew m t => Some (run_txn (renew_storage_upload m t STORAGE_UPLOAD_LEASE_DURATION) ck db)
  | URelease m t => Some (run_txn (release_storage_upload m t) ck db)
  | UMark m t => Some (run_txn (mark_upload_unknown m t) ck db)
  | UComplete m t a =>
      let '(r, db') := complete_storage_upload (ss_job su m) (ss_cleanup su) m t a ck db in
      Some (Some r, db')
  | UCompleteIngests m =>
      Some (run_txn (complete_storage_for_media (ss_job su) (ss_cleanup su) m) ck db)
  | UFailIngests m status code msg =>
      Some (run_txn (fail_storage_for_media (ss_cleanup su) m status code msg) ck db)
  | UBeginCaption m g t => Some (run_txn (begin_caption_sync m g t) ck db)
  | UCompleteCaption m g t s again e =>
      Some (run_txn (complete_caption_sync (ss_job su m) m g t s again e) ck db)
  | _ => None
  end.

(** The answers of a repository call that was not answered by the database: the
    connection failed, or the cancellation was faster than the completion. *)
Definition unanswered (c : call) : answer c → Prop :=
  match c return answer c → Prop with
  | UFindMedia _ | UFindReceipt _ | UFindPreview _ | UReserve _ _ | URenew _ _ | URelease _ _
  | UMark _ _ | UBeginCaption _ _ _ | UCompleteCaption _ _ _ _ _ _ =>
      λ y, ∃ s, y = Err (LibDatabase s)
  | UComplete _ _ _ => λ y, y = None ∨ ∃ s, y = Some (Err (LibDatabase s))
  | UCompleteIngests _ | UFailIngests _ _ _ _ => λ y, ∃ s, y = Err (InboxDatabase s)
  | _ => λ _, False
  end.

(** Calls answered neither by a repository nor by the upload in flight: the file
    system, the cancellation flag, a drawn name and the edit of a caption. *)
Definition free_call (c : call) : bool :=
  match c with
  | USymlinkMetadata _ | UCanonicalize _ | UFileLength _ | USha256 _ | UDrawName
  | UStageFile _ _ | URemoveFile _ | UIsCancelled | UEditCaption _ => true
  | _ => false
  end.

Record storage_system := {
  st_db : Db;
  st_threads : gmap nat (thread StorageUploadInput reply);
  st_log : list stored_message;
  st_tokens : gset Uuid;               (* the tokens drawn so far *)
}.

(** Nothing was, or will be, delivered for the request started under [t]. *)
Definition undelivered (t : Uuid) (log : list stored_message) : Prop :=
  Forall (λ e, sm_token e ≠ t) log.

(** What the handler may learn about the request started under [t]: a confirmed
    message exists; an error [e] is answered for a delivered message only when
    [delivered e]; a request that was never polled was not sent. *)
Definition agrees (delivered : UpError → bool) (i : StorageUploadInput) (t : Uuid)
    (log : list stored_message) (r : result UpError StorageUploadResult) : Prop :=
  match r with
  | Ok res => {| sm_input := i; sm_token := t; sm_result := res |} ∈ log
  | Err e => delivered e = false → undelivered t log
  end.
Definition event_agrees delivered i t log (e : upload_event) : Prop :=
  match e with
  | EvCancelled dispatched => dispatched = false → undelivered t log
  | EvDone r => agrees delivered i t log r
  | EvTick => True
  end.
Definition end_agrees delivered i t log (e : upload_end) : Prop :=
  match e with
  | EndCancelled dispatched => dispatched = false → undelivered t log
  | EndDone r => agrees delivered i t log r
  end.

(** Everybody else: transactions that leave the media alone, the library except the
    provider's own calls, and the four ingest transactions that write media rows.
    (The fifth, the end of a video identification, is [MPersistVideo] followed by
    writes to other tables.) *)
Inductive environment_step (db db' : Db) : Prop :=
| EOther : db_media db' = db_media db → db_wf db' → environment_step db db'
| ELibrary o d : library_step o d db db' → o ≠ Uploader → environment_step db db'
| EStored ck gen gc m n :
    complete_storage_for_media gen gc m ck db = Ok (n, db') → environment_step db db'
| ENotStored ck gc m status code msg n :
    fail_storage_for_media gc m status code msg ck db = Ok (n, db') → environment_step db db'
| EAccept ck f id m r : accept_duplicate f id m ck db = Ok (r, db') → environment_step db db'
| ECleanup ck l i w r : begin_workspace_cleanup l i w ck db = Ok (r, db') → environment_step db db'.

(** The handler a job of the two storage kinds is given to. *)
Definition storage_handler (pv : StorageUploadProvider) (ticks : nat) (job : Job)
    : option (thread StorageUploadInput reply) :=
  match jb_command job with
  | UploadStorageAsset p =>
      Some (Build_thread {| ui_media_id := media_job_id p; ui_generation := media_job_generation p |}
              (upload_storage_asset pv ticks job))
  | SyncStorageCaption p =>
      Some (Build_thread {| ui_media_id := media_job_id p; ui_generation := media_job_generation p |}
              (sync_storage_caption job))
  | _ => None
  end.

Inductive storage_step (delivered : UpError → bool) : storage_system → storage_system → Prop :=
| st_env db db' ts log tk :
    environment_step db db' →
    storage_step delivered (Build_storage_system db ts log tk) (Build_storage_system db' ts log tk)
| st_start db ts log tk n pv ticks job t :
    ts !! n = None → storage_handler pv ticks job = Some t →
    storage_step delivered (Build_storage_system db ts log tk)
      (Build_storage_system db (<[n := t]> ts) log tk)
| st_call db ts log tk n i c k su x db' y d :
    ts !! n = Some (Build_thread i (Ask c k)) → exec_storage su c db = Some (x, db') →
    ss_token su ∉ tk → (y = x ∧ d = db') ∨ unanswered c y ∧ (d = db ∨ d = db') →
    storage_step delivered (Build_storage_system db ts log tk)
      (Build_storage_system d (<[n := Build_thread i (k y)]> ts) log ({[ss_token su]} ∪ tk))
| st_free db ts log tk n i c k y :
    ts !! n = Some (Build_thread i (Ask c k)) → free_call c = true →
    storage_step delivered (Build_storage_system db ts log tk)
      (Build_storage_system db (<[n := Build_thread i (k y)]> ts) log tk)
| st_dispatch db ts log tk n i t q k new :
    ts !! n = Some (Build_thread i (Ask (UDispatch t q) k)) →
    new = [] ∨ (∃ res, new = [{| sm_input := i; sm_token := t; sm_result := res |}]) →
    storage_step delivered (Build_storage_system db ts log tk)
      (Build_storage_system db (<[n := Build_thread i (k tt)]> ts) (log ++ new) tk)
| st_select db ts log tk n i t k e :
    ts !! n = Some (Build_thread i (Ask (USelect t) k)) → event_agrees delivered i t log e →
    storage_step delivered (Build_storage_system db ts log tk)
      (Build_storage_system db (<[n := Build_thread i (k e)]> ts) log tk)
| st_await db ts log tk n i t k e :
    ts !! n = Some (Build_thread i (Ask (UAwait t) k)) → end_agrees delivered i t log e →
    storage_step delivered (Build_storage_system db ts log tk)
      (Build_storage_system db (<[n := Build_thread i (k e)]> ts) log tk)
| st_crash db ts log tk n :
    storage_step delivered (Build_storage_system db ts log tk)
      (Build_storage_system db (delete n ts) log tk).

(** The messages of one generation of one media object. *)
Definition messages (i : StorageUploadInput) (log : list stored_message) : list stored_message :=
  filter (λ e, sm_input e = i) log.
End System.
