(* ===== verification/InboxInv.v ===== *)
(** * InboxInv: what the statements and the stages of the ingest repository do

    A loaded request tracks its row ([tracks]); every statement of a stage touches only
    that row, the job of the lease and new jobs ([touched]).  [at_stage] describes a stage
    between its first read and its commit: which state and envelope the loaded request
    holds, and what the transaction has done so far; every statement of
    [persistence/src/inbox.rs] that a stage uses keeps it. *)

From S2P Require Import Prelude Text Enums Jobs Db Queue QueueSpec Cleanup Library LibraryRepo.
From S2P Require Import LibraryStorage LibraryInv SettlementSpec Preview MediaIdentity Publisher.
From S2P Require Import PublisherRepo PublisherOps Envelope EnvelopeSpec Inbox InboxRepo InboxOps.

Section Changes.
Context {J : Json} {P : PayloadSerde} {Sh : JsonShape} {E : EnvelopeSerde}.
Implicit Types (db : Db) (ck : Clock) (q : Ingest).

(** ** One ingest row *)

(** What was asked for never changes. *)
Record same_request (i i' : IngestRow) : Prop := {
  sr_id : ingest_id i' = ingest_id i;
  sr_key : ingest_input_key i' = ingest_input_key i;
  sr_hash : ingest_request_hash i' = ingest_request_hash i;
  sr_kind : ingest_input_kind i' = ingest_input_kind i;
  sr_via : ingest_submitted_via i' = ingest_submitted_via i;
  sr_url : ingest_source_url i' = ingest_source_url i;
  sr_page : ingest_page_url i' = ingest_page_url i ∧ ingest_page_title i' = ingest_page_title i;
  sr_supplied : ingest_supplied_caption i' = ingest_supplied_caption i
    ∧ ingest_supplied_description i' = ingest_supplied_description i
    ∧ ingest_supplied_tags i' = ingest_supplied_tags i;
  sr_requested : ingest_requested_action i' = ingest_requested_action i
    ∧ ingest_requested_publish_at i' = ingest_requested_publish_at i
    ∧ ingest_requested_post_caption i' = ingest_requested_post_caption i
    ∧ ingest_requested_channel_id i' = ingest_requested_channel_id i;
  sr_created : ingest_created_at i' = ingest_created_at i;
}.
#[global] Instance same_request_preorder : PreOrder same_request.
Proof.
  split; [by constructor|].
  intros a b c [] []. constructor; repeat match goal with H : _ ∧ _ |- _ => destruct H end;
    split_and?; congruence.
Qed.

(** A permitted transition, or the rescue of an ingest whose upload failed and
    whose media turned out to be stored. *)
Definition lifecycle (s t : IngestStatus.t) : Prop :=
  IngestStatus.can_transition_to s t = true
  ∨ (s = IngestStatus.FailedTerminal ∧ t = IngestStatus.Completed).
Definition moves : IngestStatus.t → IngestStatus.t → Prop := rtc lifecycle.

(** An ingest that nothing reopens. *)
Definition settled (i : IngestRow) : Prop :=
  ingest_state i = IngestStatus.Completed ∨ ingest_state i = IngestStatus.Cancelled
  ∨ (ingest_state i = IngestStatus.FailedTerminal ∧ storage_error i = false).

Lemma settled_terminal i : settled i → IngestStatus.is_terminal (ingest_state i) = true.
Proof. by intros [-> | [-> | [-> _]]]. Qed.

(** An envelope the next reader accepts. *)
Definition canonical (v : Value) : Prop := ∃ d, source_typed (id_source d) ∧ encode d = Ok v.
Definition readable (i : IngestRow) : Prop := ∃ q, into_ingest i = Ok q.

Lemma canonical_readable i : canonical (ingest_input_json i) → is_some (ingest_source_url i) = true →
  readable i.
Proof.
  intros (d & Ht & He) Hu. unfold readable, into_ingest, mbind, result_bind.
  rewrite (decode_encode d _ Ht He). simpl. rewrite He. simpl.
  destruct (ingest_source_url i); [|done]. simpl. eauto.
Qed.

Lemma into_ingest_ok i q : into_ingest i = Ok q →
  ig_id q = ingest_id i ∧ ig_status q = ingest_state i ∧ canonical (ig_original_input q)
  ∧ is_some (ingest_source_url i) = true
  ∧ ∃ d, input_data q = Ok d ∧ decode (ingest_input_json i) = Ok d
  ∧ q = {| ig_id := ingest_id i; ig_workspace_id := ingest_workspace_id i;
        ig_kind := ingest_input_kind i; ig_status := ingest_state i;
        ig_submitted_via := ingest_submitted_via i; ig_original_input := ig_original_input q;
        ig_source_url := ig_source_url q; ig_page_url := ingest_page_url i;
        ig_page_title := ingest_page_title i; ig_supplied_caption := ingest_supplied_caption i;
        ig_supplied_description := ingest_supplied_description i;
        ig_supplied_tags := ingest_supplied_tags i;
        ig_requested_action := ingest_requested_action i;
        ig_requested_publish_at := ingest_requested_publish_at i;
        ig_requested_post_caption := ingest_requested_post_caption i;
        ig_requested_channel_id := ingest_requested_channel_id i;
        ig_idempotency_key := Some (ingest_input_key i); ig_media_id := ingest_media_id i;
        ig_force_save := ingest_force_save i;
        ig_duplicate_evidence := ingest_duplicate_evidence i;
        ig_error_code := ingest_error_code i; ig_error_message := ingest_error_message i;
        ig_created_at := ingest_created_at i; ig_updated_at := ingest_updated_at i;
        ig_completed_at := ingest_completed_at i |}.
Proof.
  unfold into_ingest. intros H. result_inv. simplify_eq. simpl.
  match goal with H : decode _ = Ok ?d |- _ => pose proof (decode_valid _ _ H) as (Ht & _ & _) end.
  split_and!; try done; [by eexists|by destruct (ingest_source_url i)|].
  eexists. split_and!; [|done..]. unfold input_data. simpl. by eapply decode_encode.
Qed.

Record pipeline_change (i i' : IngestRow) : Prop := {
  pc_same : same_request i i';
  pc_moves : moves (ingest_state i) (ingest_state i');
  pc_readable : readable i → readable i';
  (* only the review of the failure is recorded on a settled ingest *)
  pc_settled : settled i →
    i' = i <| ingest_acknowledged_failure_at := ingest_acknowledged_failure_at i' |>;
}.

Lemma settled_reviewed i a : settled i → settled (i <| ingest_acknowledged_failure_at := a |>).
Proof. done. Qed.

#[global] Instance pipeline_change_preorder : PreOrder pipeline_change.
Proof.
  split.
  - intros i. constructor; [done|apply rtc_refl|done|]. by destruct i.
  - intros a b c [S1 M1 R1 T1] [S2 M2 R2 T2]. constructor; [by etrans|unfold moves in *; by etrans|auto|].
    intros Ha. specialize (T1 Ha). rewrite T1 in T2. specialize (T2 (settled_reviewed _ _ Ha)).
    rewrite T2 at 1. done.
Qed.

(** ** One transaction *)

Definition job_change (l : option JobLease) ck (r r' : JobRow) : Prop :=
  r' = r ∨ ∃ l0, l = Some l0 ∧ current_attempt l0 ck r = true ∧ job_id r = jl_job_id l0
    ∧ r' = succeeded_job (sql_now ck) r.

Lemma succeeded_not_current l ck now r : current_attempt l ck (succeeded_job now r) = false.
Proof. done. Qed.

Lemma job_change_trans l ck a b c : job_change l ck a b → job_change l ck b c → job_change l ck a c.
Proof.
  intros [->|Hab]; [done|]. intros [->|(l1 & _ & Hc & _)]; [by right|].
  destruct Hab as (l0 & _ & _ & _ & ->). by rewrite succeeded_not_current in Hc.
Qed.

(** Everything but one ingest, the job of the lease and the media is kept or
    only added to. *)
Record touched (id : Uuid) (l : option JobLease) ck db db' : Prop := {
  to_posts : db_posts db' = db_posts db;
  to_channels : db_channels db' = db_channels db;
  to_wf : db_wf db → db_wf db';
  to_other : ∀ k, k ≠ id → db_ingests db' !! k = db_ingests db !! k;
  to_row : option_relation pipeline_change (λ _, False) (λ _, False)
             (db_ingests db !! id) (db_ingests db' !! id);
  to_jobs : ∀ k r, db_jobs db !! k = Some r →
    ∃ r', db_jobs db' !! k = Some r' ∧ job_change l ck r r';
}.
#[global] Instance touched_preorder id l ck : PreOrder (touched id l ck).
Proof.
  split.
  - intros db. constructor; try done; [by destruct (db_ingests db !! id); simpl|].
    intros k r Hr. exists r. split; [done|by left].
  - intros a b c [P1 C1 W1 O1 R1 J1] [P2 C2 W2 O2 R2 J2]. constructor; [congruence..|auto| | |].
    + intros k Hk. by rewrite O2, O1.
    + destruct (db_ingests a !! id), (db_ingests b !! id), (db_ingests c !! id); simpl in *; try done.
      by etrans.
    + intros k r (r1 & Hr1 & H1)%J1. apply J2 in Hr1 as (r2 & Hr2 & H2).
      exists r2. split; [done|]. by eapply job_change_trans.
Qed.

(** Ingests stay and jobs are only added. *)
Record grows db db' : Prop := {
  gw_posts : db_posts db' = db_posts db;
  gw_channels : db_channels db' = db_channels db;
  gw_wf : db_wf db → db_wf db';
  gw_ingests : db_ingests db' = db_ingests db;
  gw_jobs : db_jobs db ⊆ db_jobs db';
}.
#[global] Instance grows_preorder : PreOrder grows.
Proof.
  split; [by intros db; constructor|]. intros a b c [] []. constructor; [congruence..|auto|congruence|by etrans].
Qed.

Lemma touched_grows id l ck db db' : grows db db' → touched id l ck db db'.
Proof.
  intros [? ? ? Hi Hj]. constructor; try done.
  - intros. by rewrite Hi.
  - rewrite Hi. by destruct (db_ingests db !! id); simpl.
  - intros k r Hr. exists r. split; [by eapply lookup_weaken|by left].
Qed.

Definition set_ingest (i : IngestRow) db : Db :=
  db <| db_ingests := <[ingest_id i := i]> (db_ingests db) |>.

Lemma wf_set_ingest db i : db_wf db → db_wf (set_ingest i db).
Proof.
  intros [? ? ? ? ? ? Hk ? ?]. constructor; simpl; try done.
  intros k x [[<- <-]|[? ?]]%lookup_insert_Some; eauto.
Qed.

(** ** Adding jobs *)

Lemma grows_side db db' :
  side_effect db db' → db_jobs db ⊆ db_jobs db' → db_ingests db' = db_ingests db → grows db db'.
Proof. intros [] ? ?. by constructor. Qed.

Lemma insert_absent_grows {Er} (inj : SqlError → Er) fresh j ck db u db' :
  insert_job_if_absent inj fresh j ck db = Ok (u, db') → 0 < nj_max_attempts j → grows db db'.
Proof.
  intros H Hm. apply grows_side; [by eapply insert_job_if_absent_ok in H|..];
    by apply insert_job_if_absent_rows in H as [[? ?] ?].
Qed.

Lemma set_media_grows db r : media_check r = true → grows db (set_media r db).
Proof. intros. constructor; simpl; try done. intros. by apply wf_set_media. Qed.

Lemma update_media_where_grows {Er} (inj : SqlError → Er) id guard set ck db o db' :
  update_media_where inj id guard set ck db = Ok (o, db') → grows db db'.
Proof.
  intros [(_ & -> & _)|(r & _ & _ & _ & Hc & ->)]%update_media_where_ok; [done|].
  by apply set_media_grows.
Qed.

Lemma for_each_grows {Er A} (f : A → txn Db Er unit) xs ck db u db' :
  (∀ x db u db', f x ck db = Ok (u, db') → grows db db') →
  for_each f xs ck db = Ok (u, db') → grows db db'.
Proof.
  intros Hf. revert db. induction xs as [|x xs IH]; intros db H; simpl in H; db_inv; [done|].
  etrans; [by eapply Hf|]. by eapply IH.
Qed.

Lemma cleanup_for_media_grows {Er} (inj : SqlError → Er) gen m t ck db u db' :
  enqueue_workspace_cleanup_for_media inj gen m t ck db = Ok (u, db') → grows db db'.
Proof.
  unfold enqueue_workspace_cleanup_for_media, enqueue_workspace_cleanup. intros H. db_inv.
  eapply for_each_grows; [|done]. intros x db1 u1 db2 Hx.
  by apply insert_absent_grows in Hx.
Qed.

Lemma merge_existing_media_grows {C : CaseMapping} merge f sha x ck db r db' :
  merge_existing_media merge f sha x ck db = Ok (r, db') → grows db db'.
Proof.
  unfold merge_existing_media. intros H. db_inv.
  match goal with H : update_media_where _ _ _ _ _ _ = _ |- _ =>
    apply update_media_where_grows in H end.
  etrans; [done|]. case_match; db_inv; [|done]. by eapply insert_absent_grows.
Qed.

Lemma persist_video_identity_grows {C : CaseMapping} {Im : ImageLib} {Dg : Sha256} {T : LibraryText}
    f fj i vf d force ck db out db' :
  persist_video_identity f fj i vf d force ck db = Ok (out, db') → grows db db'.
Proof.
  unfold persist_video_identity. intros H. db_inv.
  case_match; db_inv; [by eapply merge_existing_media_grows|].
  case_match; db_inv; [done|]. unfold insert_media in *. db_inv.
  by apply (set_media_grows db (inserted_media f i _ _ _)).
Qed.
End Changes.

Section Stage.
Context {J : Json} {P : PayloadSerde} {Sh : JsonShape} {E : EnvelopeSerde}.
Implicit Types (db : Db) (ck : Clock) (q : Ingest) (l : option JobLease).

Record at_stage (id : Uuid) l ck db0 db (s : IngestStatus.t) (v : Value) : Prop := {
  as_wf : db_wf db;
  as_touched : touched id l ck db0 db;
  as_canonical : canonical v;
  as_open : ∃ i, db_ingests db0 !! id = Some i ∧ IngestStatus.is_terminal (ingest_state i) = false
    ∧ is_some (ingest_source_url i) = true ∧ moves (ingest_state i) s;
}.

(** The request [q] of ingest [id] is at this point. *)
Definition holding id l ck db0 db q : Prop :=
  ig_id q = id ∧ at_stage id l ck db0 db (ig_status q) (ig_original_input q).

Lemma load_request_ok id l ck db q db' :
  load_request id ck db = Ok (q, db') → db_wf db →
  db' = db ∧ ig_id q = id
  ∧ (IngestStatus.is_terminal (ig_status q) = false → holding id l ck db db q).
Proof.
  unfold load_request. intros H Hwf. db_inv.
  match goal with H : into_ingest ?r = Ok _, Hr : Some ?r = _ |- _ =>
    pose proof (wf_ingest_key _ Hwf _ _ (eq_sym Hr)) as <-; apply into_ingest_ok in H as (Hid & Hs & Hc & Hu & _) end.
  split_and!; [done..|]. intros Hopen. split; [done|]. rewrite Hs in *.
  constructor; [done..| |]; [done|]. eexists. by split_and!.
Qed.

Section Steps.
Context {id : Uuid} {l : option JobLease} {ck : Clock} {db0 : Db}.

Lemma at_stage_grows db db' s v :
  at_stage id l ck db0 db s v → grows db db' → at_stage id l ck db0 db' s v.
Proof.
  intros [Hwf Ht Hc Ho] Hg. constructor; [by apply Hg|etrans; [done|by apply touched_grows]|done|done].
Qed.

Lemma holding_grows db db' q : holding id l ck db0 db q → grows db db' → holding id l ck db0 db' q.
Proof. intros [? ?] ?. split; [done|]. by eapply at_stage_grows. Qed.

(** The row of a stage in progress. *)
Lemma at_stage_row db s v : at_stage id l ck db0 db s v →
  ∃ i0 i, db_ingests db0 !! id = Some i0 ∧ db_ingests db !! id = Some i ∧ pipeline_change i0 i
    ∧ IngestStatus.is_terminal (ingest_state i0) = false
    ∧ is_some (ingest_source_url i0) = true ∧ moves (ingest_state i0) s.
Proof.
  intros [_ Ht _ (i0 & Hi0 & ? & ? & ?)]. pose proof (to_row _ _ _ _ _ Ht) as Hr. rewrite Hi0 in Hr.
  destruct (db_ingests db !! id) as [i|]; [|done]. exists i0, i. by split_and!.
Qed.

Lemma update_ingest_row_at db s v set u db' :
  at_stage id l ck db0 db s v → update_ingest_row id set ck db = Ok (u, db') →
  (∀ i, same_request i (set i)) → (∀ i, ingest_input_json (set i) = v) →
  (∀ i, ingest_state (set i) = s ∨ ingest_state (set i) = ingest_state i) →
  at_stage id l ck db0 db' s v.
Proof.
  intros Ha H Hsame Hv Hs. pose proof (at_stage_row _ _ _ Ha) as (i0 & i & Hi0 & Hi & Hpc & Hop & Hu & Hm).
  unfold update_ingest_row in H. db_inv. rewrite Hi in *. db_inv.
  pose proof (sr_id _ _ (Hsame i)) as Hid. rewrite (wf_ingest_key _ (as_wf _ _ _ _ _ _ _ Ha) _ _ Hi) in Hid.
  destruct Ha as [Hwf Ht Hc Ho].
  assert (pipeline_change i0 (set i)) as Hpc'.
  { constructor.
    - etrans; [apply Hpc|done].
    - destruct (Hs i) as [-> | ->]; [done|apply Hpc].
    - intros _. apply canonical_readable; [by rewrite Hv|].
      by rewrite (sr_url _ _ (Hsame i)), (sr_url _ _ (pc_same _ _ Hpc)).
    - intros Hset%settled_terminal. by rewrite Hset in Hop. }
  constructor; [by apply wf_set_ingest| |done|done].
  destruct Ht as [? ? Hw Hoth Hr Hj]. constructor; simpl; try done.
  - intros. by apply (wf_set_ingest _ (set i)), Hw.
  - intros k Hk. rewrite Hid, lookup_insert_ne; [auto|congruence].
  - by rewrite Hi0, Hid, lookup_insert_eq.
Qed.

Lemma update_ingest_state_at db q u db' :
  holding id l ck db0 db q → update_ingest_state q ck db = Ok (u, db') → holding id l ck db0 db' q.
Proof.
  intros [Hid Ha] H. unfold update_ingest_state in H. rewrite Hid in H. split; [done|].
  eapply update_ingest_row_at; [done..| |done|by left].
  intros i. by constructor.
Qed.

Lemma transitions_moves q ts q' : transitions q ts = Ok q' →
  q' = q <| ig_status := ig_status q' |> ∧ moves (ig_status q) (ig_status q').
Proof.
  revert q. induction ts as [|t ts IH]; simpl; intros q H.
  { simplify_eq. split; [by destruct q'|apply rtc_refl]. }
  result_inv. unfold transition_to in *. case_match; simplify_eq. bool_norm.
  match goal with H : transitions _ _ = _ |- _ => apply IH in H as [-> Hm] end. simpl in *.
  split; [done|]. eapply rtc_l; [by left|done].
Qed.

Lemma move_at db q ts q' db' :
  holding id l ck db0 db q → move q ts ck db = Ok (q', db') →
  db' = db ∧ holding id l ck db0 db q' ∧ q' = q <| ig_status := ig_status q' |>.
Proof.
  unfold move. intros [Hid [Hwf Ht Hc (i & Hi & Ho & Hu & Hm)]] H. db_inv. result_inv.
  match goal with H : transitions _ _ = _ |- _ => apply transitions_moves in H as [Hq Hm'] end.
  split_and!; [done| |done]. rewrite Hq. split; [done|]. simpl. constructor; [done..|].
  exists i. split_and!; try done. unfold moves in *. by etrans.
Qed.

Lemma request_data_typed q d : request_data q = Ok d → source_typed (id_source d).
Proof.
  unfold request_data, input_data. intros H. result_inv.
  by match goal with H : decode _ = _ |- _ => apply decode_valid in H as (? & _ & _) end.
Qed.

Lemma save_data_at db q d q' db' :
  holding id l ck db0 db q → save_data q d ck db = Ok (q', db') → source_typed (id_source d) →
  db' = db ∧ holding id l ck db0 db q' ∧ q' = q <| ig_original_input := ig_original_input q' |>.
Proof.
  unfold save_data, set_input_data. intros [Hid [Hwf Htc Hc Ho]] H Ht. db_inv. result_inv. simplify_eq.
  split_and!; [done| |done]. split; [done|]. simpl.
  constructor; try done; [by eexists|]. eexists. by split_and!.
Qed.

Lemma advance_at db q ts q' db' :
  holding id l ck db0 db q → advance q ts ck db = Ok (q', db') → holding id l ck db0 db' q'.
Proof.
  unfold advance. intros Hh H. db_inv.
  match goal with H : move _ _ _ _ = _ |- _ => eapply move_at in H as (-> & Hh' & _); [|done] end.
  by eapply update_ingest_state_at; [|eassumption].
Qed.
End Steps.

Lemma move_one q t ck db q' db' :
  move q [t] ck db = Ok (q', db') → db' = db ∧ q' = q <| ig_status := t |>.
Proof.
  unfold move. intros H. txn_inv. result_inv. simpl in *. result_inv.
  unfold transition_to in *. case_match; by simplify_eq.
Qed.

(** The job of the lease becomes succeeded, at most once. *)
Lemma succeed_at id (l : JobLease) ck db0 db q u db' :
  holding id (Some l) ck db0 db q → succeed_current_job_attempt l ck db = Ok (u, db') →
  holding id (Some l) ck db0 db' q.
Proof.
  unfold succeed_current_job_attempt. intros [Hid [Hwf Ht Hc Ho]] H. db_inv.
  match goal with Hr : Some ?r = db_jobs _ !! _ |- _ =>
    symmetry in Hr; rename Hr into Hj; rename r into r0 end.
  pose proof (wf_job_key _ Hwf _ _ Hj) as Hk. split; [done|].
  assert (db_wf (db <| db_jobs := <[job_id r0 := succeeded_job (sql_now ck) r0]> (db_jobs db) |>)) as Hwf'.
  { rewrite <-Hk in Hj. apply (wf_update_job db r0 (succeeded_job (sql_now ck) r0)); auto.
    apply job_inv_succeeded. by eapply (wf_job_inv _ Hwf). }
  constructor; [done| |done|by eauto 10]. etrans; [done|]. constructor; simpl; try done.
  - by destruct (db_ingests db !! ig_id q); simpl.
  - intros k r Hr. destruct (decide (k = job_id r0)) as [->|Hne].
    + rewrite lookup_insert_eq. rewrite Hk in Hr. simplify_eq. eexists. split; [done|].
      right. eexists. by split_and!.
    + rewrite lookup_insert_ne by done. exists r. split; [done|by left].
Qed.

(** ** Jobs of the pipeline *)

Lemma insert_job_grows fresh j key ck db u db' :
  insert_job fresh j key ck db = Ok (u, db') → 0 < nj_max_attempts j → grows db db'.
Proof. intros H Hm. by eapply insert_absent_grows. Qed.
Lemma insert_inspect_job_grows fresh q ck db u db' :
  insert_inspect_job fresh q ck db = Ok (u, db') → grows db db'.
Proof. intros H. by eapply insert_job_grows. Qed.
Lemma insert_probe_job_grows fresh q ck db u db' :
  insert_probe_job fresh q ck db = Ok (u, db') → grows db db'.
Proof. intros H. by eapply insert_job_grows. Qed.
Lemma insert_finalize_job_grows fresh q ck db u db' :
  insert_finalize_job fresh q ck db = Ok (u, db') → grows db db'.
Proof. intros H. by eapply insert_job_grows. Qed.
Lemma insert_normalize_job_grows fresh q b ck db u db' :
  insert_normalize_job fresh q b ck db = Ok (u, db') → grows db db'.
Proof. intros H. by eapply insert_job_grows. Qed.
Lemma insert_fingerprint_job_grows fresh q b ck db u db' :
  insert_fingerprint_job fresh q b ck db = Ok (u, db') → grows db db'.
Proof. intros H. by eapply insert_job_grows. Qed.
Lemma insert_materialization_job_grows fresh id ck db u db' :
  insert_materialization_job fresh id ck db = Ok (u, db') → grows db db'.
Proof. intros H. by eapply insert_job_grows. Qed.
Lemma insert_first_job_grows fresh q ck db u db' :
  insert_first_job fresh q ck db = Ok (u, db') → grows db db'.
Proof.
  unfold insert_first_job. case_match; eauto using insert_inspect_job_grows, insert_probe_job_grows.
Qed.
Lemma insert_storage_job_grows fresh m ck db u db' :
  insert_storage_job fresh m ck db = Ok (u, db') → grows db db'.
Proof.
  unfold insert_storage_job. intros H. db_inv. case_match; db_inv; [|done].
  case_match; db_inv; [|done]. by eapply insert_job_grows.
Qed.
Lemma cleanup_later_grows fresh q d ck db u db' :
  cleanup_later fresh q d ck db = Ok (u, db') → grows db db'.
Proof.
  unfold cleanup_later, enqueue_workspace_cleanup. intros H. db_inv. by eapply insert_absent_grows.
Qed.
End Stage.
