(* ===== verification/InboxCalls.v ===== *)
(** * InboxCalls: the effect of every call of a pipeline stage

    The public methods of [InboxRepository] that run under the lease of a job:
    each does nothing, or its lease is current and it touches one ingest. *)

From S2P Require Import Prelude Text Enums Jobs Db Queue QueueSpec Cleanup Library LibraryRepo LibraryStorage.
From S2P Require Import LibraryInv SettlementSpec Preview MediaIdentity Publisher PublisherRepo PublisherOps.
From S2P Require Import Envelope EnvelopeSpec Inbox InboxRepo InboxOps InboxInv.

(** Follow a stage statement by statement. *)
Ltac stage_step :=
  match goal with
  | Hh : holding _ _ _ _ ?db _, H : advance _ _ _ ?db = Ok _ |- _ =>
      eapply advance_at in H; [|exact Hh]
  | Hh : holding _ _ _ _ ?db _, H : update_ingest_state _ _ ?db = Ok _ |- _ =>
      eapply update_ingest_state_at in H; [|exact Hh]
  | Hh : holding _ _ _ _ ?db _, H : move _ _ _ ?db = Ok _ |- _ =>
      eapply move_at in H as (? & ? & _); [|exact Hh]
  | Hh : holding _ _ _ _ ?db _, H : save_data _ _ _ ?db = Ok _ |- _ =>
      eapply save_data_at in H as (? & ? & _); [|exact Hh|simpl; by eapply request_data_typed]
  | Hh : holding _ (Some _) _ _ ?db _, H : succeed_current_job_attempt _ _ ?db = Ok _ |- _ =>
      eapply succeed_at in H; [|exact Hh]
  | H : insert_job _ _ _ _ _ = Ok _ |- _ => apply insert_job_grows in H; [|done]
  | H : insert_inspect_job _ _ _ _ = Ok _ |- _ => apply insert_inspect_job_grows in H
  | H : insert_probe_job _ _ _ _ = Ok _ |- _ => apply insert_probe_job_grows in H
  | H : insert_finalize_job _ _ _ _ = Ok _ |- _ => apply insert_finalize_job_grows in H
  | H : insert_normalize_job _ _ _ _ _ = Ok _ |- _ => apply insert_normalize_job_grows in H
  | H : insert_fingerprint_job _ _ _ _ _ = Ok _ |- _ => apply insert_fingerprint_job_grows in H
  | H : insert_materialization_job _ _ _ _ = Ok _ |- _ =>
      apply insert_materialization_job_grows in H
  | H : insert_storage_job _ _ _ _ = Ok _ |- _ => apply insert_storage_job_grows in H
  | H : insert_first_job _ _ _ _ = Ok _ |- _ => apply insert_first_job_grows in H
  | H : cleanup_later _ _ _ _ _ = Ok _ |- _ => apply cleanup_later_grows in H
  | H : update_media_where _ _ _ _ _ _ = Ok _ |- _ => apply update_media_where_grows in H
  | H : persist_video_identity _ _ _ _ _ _ _ _ = Ok _ |- _ => apply persist_video_identity_grows in H
  | Hh : holding _ _ _ _ ?db _, H : grows ?db _ |- _ => eapply holding_grows in H; [|exact Hh]
  | H : (if ?b then _ else _) _ _ = Ok _ |- _ => destruct b eqn:?
  end.
Ltac stage_inv := repeat (stage_step || txn_inv_step || db_inv_step || bool_norm_step; simplify_eq/=).

(** Take the two branches of a conditional transaction. *)
Ltac branch :=
  match goal with H : (if ?b then _ else _) _ _ = Ok _ |- _ => destruct b eqn:?; txn_inv end.

Section Calls.
Context {J : Json} {P : PayloadSerde} {Sh : JsonShape} {E : EnvelopeSerde} {T : InboxText}
  {C : CaseMapping} {Im : ImageLib} {Dg : Sha256} {Lt : LibraryText}.
Implicit Types (db : Db) (ck : Clock) (q : Ingest) (l : JobLease).

Definition holds_attempt l ck db : Prop :=
  ∃ r, db_jobs db !! jl_job_id l = Some r ∧ current_attempt l ck r = true.

(** What a call under a lease commits. *)
Definition fenced (id : Uuid) l ck db db' : Prop :=
  db' = db ∨ (holds_attempt l ck db ∧ touched id (Some l) ck db db').

Lemma lock_ingest_attempt_ok l ck db b db' :
  lock_ingest_attempt l ck db = Ok (b, db') → db' = db ∧ (b = true → holds_attempt l ck db).
Proof.
  unfold lock_ingest_attempt. intros H. db_inv. split; [done|].
  destruct (db_jobs db !! jl_job_id l) as [r|] eqn:Hr; [|done]. intros Hc. by exists r.
Qed.

Lemma holding_touched id l ck db0 db q : holding id (Some l) ck db0 db q → touched id (Some l) ck db0 db.
Proof. by intros [_ [_ ? _ _]]. Qed.

Lemma under_lease_fenced id l q m ck db r db' :
  under_lease l q m ck db = Ok (r, db') →
  (m ck db = Ok (r, db') → touched id (Some l) ck db db') → fenced id l ck db db'.
Proof.
  unfold under_lease. intros H Hm. db_inv.
  match goal with H : lock_ingest_attempt _ _ _ = _ |- _ => apply lock_ingest_attempt_ok in H as [-> Hl] end.
  case_match; db_inv; [right; auto|by left].
Qed.

Lemma complete_under_fenced id l q e m ck db q' db' :
  complete_under l q e m ck db = Ok (q', db') →
  (e = true → m ck db = Ok (q', db') → touched id (Some l) ck db db') → fenced id l ck db db'.
Proof.
  unfold complete_under. intros H Hm. destruct e; simpl in H; db_inv; [|by left].
  match goal with H : lock_ingest_attempt _ _ _ = _ |- _ => apply lock_ingest_attempt_ok in H as [-> Hl] end.
  case_match; db_inv; [right; auto|by left].
Qed.

(** ** Beginning *)

Lemma begin_stage_touched id l q ready ck db r db' :
  begin_stage q ready ck db = Ok (r, db') → db_wf db →
  (IngestStatus.is_terminal (ig_status q) = false → holding id (Some l) ck db db q) →
  (∀ s ts, ready s = Some ts → IngestStatus.is_terminal s = false) →
  touched id (Some l) ck db db'.
Proof.
  unfold begin_stage. intros H Hwf Hh Hr. destruct (ready (ig_status q)) as [[|t ts]|] eqn:Hs; db_inv; [done| |done].
  specialize (Hh (Hr _ _ Hs)). stage_inv. by eapply holding_touched.
Qed.

Ltac load_stage :=
  match goal with
  | H : load_request _ ?ck ?db = Ok _, Hwf : db_wf ?db |- fenced _ ?l _ _ _ =>
      apply (load_request_ok _ (Some l)) in H as (-> & Hid & Hh); [|exact Hwf]
  end.
Ltac begin_fenced :=
  intros H Hwf; txn_inv; load_stage; try (case_match; txn_inv; [by left|]);
  eapply under_lease_fenced; [eassumption|]; intros Hm;
  eapply begin_stage_touched; [eassumption..|]; intros []; naive_solver.

Lemma begin_source_inspection_fenced id l ck db r db' :
  begin_source_inspection id l ck db = Ok (r, db') → db_wf db → fenced id l ck db db'.
Proof. unfold begin_source_inspection. begin_fenced. Qed.
Lemma begin_asset_probe_fenced id l ck db r db' :
  begin_asset_probe id l ck db = Ok (r, db') → db_wf db → fenced id l ck db db'.
Proof. unfold begin_asset_probe. begin_fenced. Qed.
Lemma begin_source_download_fenced id l ck db r db' :
  begin_source_download id l ck db = Ok (r, db') → db_wf db → fenced id l ck db db'.
Proof. unfold begin_source_download. begin_fenced. Qed.
Lemma begin_asset_normalization_fenced id l ck db r db' :
  begin_asset_normalization id l ck db = Ok (r, db') → db_wf db → fenced id l ck db db'.
Proof. unfold begin_asset_normalization. begin_fenced. Qed.
Lemma begin_ingest_finalization_fenced id l ck db r db' :
  begin_ingest_finalization id l ck db = Ok (r, db') → db_wf db → fenced id l ck db db'.
Proof. unfold begin_ingest_finalization. begin_fenced. Qed.
Lemma begin_ingest_fingerprinting_fenced id l ck db r db' :
  begin_ingest_fingerprinting id l ck db = Ok (r, db') → db_wf db → fenced id l ck db db'.
Proof. unfold begin_ingest_fingerprinting. begin_fenced. Qed.

(** ** Completing *)

(** Start following the body of a completion. *)
Ltac complete_fenced :=
  intros H Hwf; txn_inv; load_stage; eapply complete_under_fenced; [eassumption|];
  intros He Hm; bool_norm;
  match goal with
  | Hs : ig_status ?q = _, Hq : _ = false → holding _ _ _ _ _ ?q |- _ =>
      rewrite Hs in Hq; specialize (Hq eq_refl)
  end.

Lemma complete_source_inspection_fenced f id l i ck db q db' :
  complete_source_inspection f id l i ck db = Ok (q, db') → db_wf db → fenced id l ck db db'.
Proof.
  unfold complete_source_inspection. complete_fenced. stage_inv.
  by eapply holding_touched.
Qed.

(** The two completions that write the envelope on its own. *)
Lemma update_envelope_at id l ck db0 db q set u db' :
  holding id (Some l) ck db0 db q → update_ingest_row (ig_id q) set ck db = Ok (u, db') →
  (∀ i, same_request i (set i)) → (∀ i, ingest_input_json (set i) = ig_original_input q) →
  (∀ i, ingest_state (set i) = ingest_state i) → holding id (Some l) ck db0 db' q.
Proof.
  intros [<- Ha] H ? ? ?. split; [done|]. eapply update_ingest_row_at; eauto.
Qed.
Ltac envelope_step :=
  match goal with
  | Hh : holding _ _ _ _ ?db ?q, H : update_ingest_row _ _ _ ?db = Ok _ |- _ =>
      eapply (update_envelope_at _ _ _ _ _ q) in H; [|exact Hh|by intros; constructor|done|done]
  end.

Lemma complete_source_download_fenced f id l x ck db q db' :
  complete_source_download f id l x ck db = Ok (q, db') → db_wf db → fenced id l ck db db'.
Proof.
  unfold complete_source_download. complete_fenced. stage_inv. envelope_step. stage_inv.
  by eapply holding_touched.
Qed.

Lemma complete_asset_probe_fenced f id l probe ck db q db' :
  complete_asset_probe f id l probe ck db = Ok (q, db') → db_wf db → fenced id l ck db db'.
Proof.
  unfold complete_asset_probe. complete_fenced. stage_inv; envelope_step; stage_inv;
  by eapply holding_touched.
Qed.

Lemma complete_asset_normalization_fenced f id l n ck db q db' :
  complete_asset_normalization f id l n ck db = Ok (q, db') → db_wf db → fenced id l ck db db'.
Proof.
  unfold complete_asset_normalization. complete_fenced. stage_inv; by eapply holding_touched.
Qed.

Lemma advance_after_media_processing_at id l ck db0 db fm fc q m q' db' :
  advance_after_media_processing fm fc q m ck db = Ok (q', db') →
  holding id (Some l) ck db0 db q → holding id (Some l) ck db0 db' q'.
Proof.
  unfold advance_after_media_processing. intros H Hh. db_inv. case_match; stage_inv; done.
Qed.

Lemma complete_ingest_finalization_fenced fm fc id l x ck db q db' :
  complete_ingest_finalization fm fc id l x ck db = Ok (q, db') → db_wf db → fenced id l ck db db'.
Proof.
  unfold complete_ingest_finalization. complete_fenced. stage_inv.
  match goal with H : advance_after_media_processing _ _ _ _ _ _ = Ok _ |- _ =>
    eapply advance_after_media_processing_at in H; [|eassumption] end.
  stage_inv. by eapply holding_touched.
Qed.

(** ** Video identity *)

Lemma begin_video_identity_fenced id l i f ck db r db' :
  begin_video_identity id l i f ck db = Ok (r, db') → db_wf db → fenced id l ck db db'.
Proof.
  unfold begin_video_identity. intros H Hwf. txn_inv. load_stage. left.
  match goal with H : (if ?b then _ else _) _ _ = Ok (?c, ?d) |- _ =>
    assert (d = db) as ->; [by destruct b; [txn_inv|apply lock_ingest_attempt_ok in H as [-> _]]|];
    clear H; destruct c; simpl in *; by txn_inv end.
Qed.

Lemma hold_duplicate_at id l ck db0 db fc q e q' db' :
  hold_duplicate fc q e ck db = Ok (q', db') →
  holding id (Some l) ck db0 db q → holding id (Some l) ck db0 db' q'.
Proof. unfold hold_duplicate. intros H Hh. stage_inv. done. Qed.

Lemma complete_video_identity_fenced f fj fm fc id l i vf d ck db q db' :
  complete_video_identity f fj fm fc id l i vf d ck db = Ok (q, db') → db_wf db →
  fenced id l ck db db'.
Proof.
  unfold complete_video_identity. complete_fenced. stage_inv.
  match goal with H : match ?o with _ => _ end _ ?d = Ok (?q, ?d'), Hh : holding ?id ?l ?ck ?d0 ?d _ |- _ =>
    assert (holding id l ck d0 d' q) end.
  { case_match; first [eapply hold_duplicate_at; eassumption
                      |eapply advance_after_media_processing_at; eassumption]. }
  stage_inv. by eapply holding_touched.
Qed.

(** ** Failures *)

Lemma fail_ingest_step_fenced f id s code m ignore l expected ck db q db' :
  fail_ingest_step f id s code m (stage_guard ignore l expected) ck db = Ok (q, db') → db_wf db →
  fenced id l ck db db'.
Proof.
  unfold fail_ingest_step. intros H Hwf. txn_inv. load_stage. branch; [by left|].
  branch; [by left|].
  match goal with H : lock_ingest_attempt _ _ _ = _ |- _ => apply lock_ingest_attempt_ok in H as [-> Hl] end.
  branch; [by left|]. branch; [by left|].
  right. split; [auto|]. specialize (Hh ltac:(done)). stage_inv; by eapply holding_touched.
Qed.

(** ** Cleanup *)

Lemma begin_workspace_cleanup_fenced id l w ck db r db' :
  begin_workspace_cleanup l id w ck db = Ok (r, db') → fenced id l ck db db'.
Proof.
  unfold begin_workspace_cleanup. intros H. txn_inv.
  match goal with H : lock_ingest_attempt _ _ _ = _ |- _ => apply lock_ingest_attempt_ok in H as [-> Hl] end.
  branch; [by left|]. db_inv. branch; [by left|]. branch; [by left|]. branch; [|by left].
  case_match; txn_inv; [|by left]. right. split; [auto|]. apply touched_grows.
  by eapply update_media_where_grows.
Qed.

(** ** All of them *)

Inductive stage_call (id : Uuid) l ck db db' : Prop :=
| CBeginInspection r : begin_source_inspection id l ck db = Ok (r, db') → stage_call id l ck db db'
| CBeginDownload r : begin_source_download id l ck db = Ok (r, db') → stage_call id l ck db db'
| CBeginProbe r : begin_asset_probe id l ck db = Ok (r, db') → stage_call id l ck db db'
| CBeginNormalization r :
    begin_asset_normalization id l ck db = Ok (r, db') → stage_call id l ck db db'
| CBeginFinalization r :
    begin_ingest_finalization id l ck db = Ok (r, db') → stage_call id l ck db db'
| CBeginFingerprinting r :
    begin_ingest_fingerprinting id l ck db = Ok (r, db') → stage_call id l ck db db'
| CBeginIdentity i vf r : begin_video_identity id l i vf ck db = Ok (r, db') → stage_call id l ck db db'
| CBeginCleanup w r : begin_workspace_cleanup l id w ck db = Ok (r, db') → stage_call id l ck db db'
| CInspected f x q :
    complete_source_inspection f id l x ck db = Ok (q, db') → stage_call id l ck db db'
| CDownloaded f x q :
    complete_source_download f id l x ck db = Ok (q, db') → stage_call id l ck db db'
| CProbed f v q : complete_asset_probe f id l v ck db = Ok (q, db') → stage_call id l ck db db'
| CNormalized f n q :
    complete_asset_normalization f id l n ck db = Ok (q, db') → stage_call id l ck db db'
| CFinalized fm fc x q :
    complete_ingest_finalization fm fc id l x ck db = Ok (q, db') → stage_call id l ck db db'
| CIdentified f fj fm fc i vf d q :
    complete_video_identity f fj fm fc id l i vf d ck db = Ok (q, db') → stage_call id l ck db db'
| CFailInspection f s c m q :
    fail_source_inspection f id l s c m ck db = Ok (q, db') → stage_call id l ck db db'
| CFailDownload f s c m q :
    fail_source_download f id l s c m ck db = Ok (q, db') → stage_call id l ck db db'
| CFailProbe f s c m q :
    fail_asset_probe f id l s c m ck db = Ok (q, db') → stage_call id l ck db db'
| CFailNormalization f s c m q :
    fail_asset_normalization f id l s c m ck db = Ok (q, db') → stage_call id l ck db db'
| CFailFingerprint f s c m q :
    fail_ingest_fingerprint f id l s c m ck db = Ok (q, db') → stage_call id l ck db db'
| CFailFinalization f s c m q :
    fail_ingest_finalization f id l s c m ck db = Ok (q, db') → stage_call id l ck db db'.

Lemma stage_call_fenced id l ck db db' : stage_call id l ck db db' → db_wf db → fenced id l ck db db'.
Proof.
  destruct 1; eauto using begin_source_inspection_fenced, begin_source_download_fenced,
    begin_asset_probe_fenced, begin_asset_normalization_fenced, begin_ingest_finalization_fenced,
    begin_ingest_fingerprinting_fenced, begin_video_identity_fenced,
    begin_workspace_cleanup_fenced, complete_source_inspection_fenced,
    complete_source_download_fenced, complete_asset_probe_fenced,
    complete_asset_normalization_fenced, complete_ingest_finalization_fenced,
    complete_video_identity_fenced, fail_ingest_step_fenced.
Qed.
End Calls.
