(* ===== verification/InboxSpec.v ===== *)
(** * InboxSpec: what the ingest repository promises

    Histories of every writing method of [InboxRepository]: requests are
    immutable, states follow the lifecycle, settled ingests stay settled, stale
    workers change nothing, submissions are idempotent and decisions about
    duplicates are final. *)

From S2P Require Import Prelude Text Enums Jobs Db Queue QueueSpec Cleanup Library LibraryRepo LibraryStorage.
From S2P Require Import LibraryInv SettlementSpec Preview MediaIdentity Publisher PublisherRepo PublisherOps.
From S2P Require Import Envelope EnvelopeSpec Inbox InboxRepo InboxOps InboxInv InboxCalls.

Section Changes.
Context {J : Json} {P : PayloadSerde} {Sh : JsonShape} {E : EnvelopeSerde}.
Implicit Types (db : Db) (ck : Clock) (q : Ingest) (i : IngestRow).

#[local] Hint Extern 1 (pipeline_change _ _) => reflexivity : core.

(** [UNIQUE (input_key)]. *)
Definition keys_unique db : Prop := ∀ k k' i i', db_ingests db !! k = Some i →
  db_ingests db !! k' = Some i' → ingest_input_key i = ingest_input_key i' → k = k'.

Definition job_kept_or_done (r r' : JobRow) : Prop :=
  r' = r ∨ (job_state r = JobStatus.Running ∧ ∃ now, r' = succeeded_job now r).

(** What a history of the repository may do to the database. *)
Record inbox_change db db' : Prop := {
  ic_posts : db_posts db' = db_posts db;
  ic_channels : db_channels db' = db_channels db;
  ic_wf : db_wf db → db_wf db';
  ic_rows : ∀ id i, db_ingests db !! id = Some i →
    ∃ i', db_ingests db' !! id = Some i' ∧ pipeline_change i i';
  ic_new : ∀ id i', db_ingests db' !! id = Some i' → db_ingests db !! id = None → readable i';
  ic_keys : keys_unique db → keys_unique db';
  ic_jobs : ∀ k r, db_jobs db !! k = Some r →
    ∃ r', db_jobs db' !! k = Some r' ∧ job_kept_or_done r r';
}.
#[global] Instance inbox_change_preorder : PreOrder inbox_change.
Proof.
  split.
  - intros db. constructor; try done; [by eauto| |].
    + intros id i' H1 H2. by simplify_eq.
    + intros k r Hr. exists r. split; [done|by left].
  - intros a b c [P1 C1 W1 R1 N1 K1 J1] [P2 C2 W2 R2 N2 K2 J2].
    constructor; [congruence|congruence|auto| | |auto|].
    + intros id i (i1 & Hi1 & H1)%R1. apply R2 in Hi1 as (i2 & Hi2 & H2).
      exists i2. split; [done|by etrans].
    + intros id i' Hi' Hn. destruct (db_ingests b !! id) as [i|] eqn:Hb; [|by eapply N2].
      destruct (R2 _ _ Hb) as (i2 & Hi2 & Hc). simplify_eq. apply Hc. by eapply N1.
    + intros k r (r1 & Hr1 & H1)%J1. apply J2 in Hr1 as (r2 & Hr2 & H2). exists r2. split; [done|].
      destruct H1 as [->|[Hrun [n ->]]]; [done|]. destruct H2 as [->|[Hbad _]]; [|done].
      right. eauto.
Qed.

Lemma touched_change id l ck db db' : touched id l ck db db' → inbox_change db db'.
Proof.
  intros [Hp Hc Hw Ho Hr Hj].
  assert (∀ k i', db_ingests db' !! k = Some i' →
    ∃ i, db_ingests db !! k = Some i ∧ pipeline_change i i') as Hback.
  { intros k i' Hi'. destruct (decide (k = id)) as [->|Hk]; [|rewrite Ho in Hi' by done; by eauto].
    rewrite Hi' in Hr. destruct (db_ingests db !! id); [|done]. eauto. }
  constructor; try done.
  - intros k i Hi. destruct (decide (k = id)) as [->|Hk]; [|rewrite Ho by done; by eauto].
    rewrite Hi in Hr. destruct (db_ingests db' !! id); [|done]. eauto.
  - intros k i' (i & Hi & _)%Hback Hn. by simplify_eq.
  - intros Hu k k' i i' (x & Hx & [Sx _ _ _])%Hback (y & Hy & [Sy _ _ _])%Hback Hk.
    eapply Hu; [exact Hx|exact Hy|]. by rewrite <-(sr_key _ _ Sx), <-(sr_key _ _ Sy).
  - intros k r (r' & Hr' & Hjc)%Hj. exists r'. split; [done|].
    destruct Hjc as [->|(l0 & _ & Hcur & _ & ->)]; [by left|]. right. split; [|by eauto].
    unfold current_attempt in Hcur. by bool_norm.
Qed.

Lemma grows_change db db' : grows db db' → inbox_change db db'.
Proof. intros Hg. eapply (touched_change 0%N None {| sql_now := 0; sql_clock := 0; app_now := 0 |}). by apply touched_grows. Qed.

(** One statement over many rows. *)
Lemma update_ingests_where_change {Er} guard set ck db u db' :
  (update_ingests_where guard set : txn Db Er unit) ck db = Ok (u, db') →
  (∀ i, guard i = true → pipeline_change i (set i)) → inbox_change db db'.
Proof.
  unfold update_ingests_where. intros H Hset. db_inv.
  set (f := λ i, if guard i then set i else i).
  assert (∀ i, pipeline_change i (f i)) as Hf.
  { intros i. unfold f. destruct (guard i) eqn:?; [by apply Hset|done]. }
  constructor; simpl; try done.
  - intros [? ? ? ? ? ? Hi ? ?]. constructor; simpl; try done.
    intros k r. rewrite lookup_fmap_Some. intros (x & <- & Hx).
    rewrite (sr_id _ _ (pc_same _ _ (Hf x))). eauto.
  - intros k i Hi. exists (f i). split; [by rewrite lookup_fmap, Hi|done].
  - intros k i'. rewrite lookup_fmap_Some. intros (x & _ & Hx) Hn. by simplify_eq.
  - intros Hu k k' i i'. simpl. rewrite !lookup_fmap_Some. intros (x & <- & Hx) (y & <- & Hy) Hk.
    eapply Hu; [exact Hx|exact Hy|].
    by rewrite <-(sr_key _ _ (pc_same _ _ (Hf x))), <-(sr_key _ _ (pc_same _ _ (Hf y))).
  - intros k r Hr. exists r. split; [done|by left].
Qed.

Lemma readable_same i i' : ingest_input_json i' = ingest_input_json i →
  ingest_source_url i' = ingest_source_url i → readable i → readable i'.
Proof.
  intros Hj Hu [q Hq]. unfold readable, into_ingest in *. result_inv.
  unfold mbind, result_bind. rewrite Hj, Hu.
  repeat match goal with H : _ = Ok _ |- _ => rewrite H; clear H; simpl end.
  match goal with H : ingest_source_url _ = Some _ |- _ => rewrite H end. simpl. eauto.
Qed.
End Changes.

Section Histories.
Context {J : Json} {P : PayloadSerde} {Sh : JsonShape} {E : EnvelopeSerde} {U : UrlLib}
  {X : SubmissionText} {D : Digests} {G : SubmissionDigest} {T : InboxText} {C : CaseMapping}
  {Im : ImageLib} {Dg : Sha256} {Lt : LibraryText}.
Context (failure_revision : list (Uuid * Z) → Str).
Implicit Types (db : Db) (ck : Clock) (q : Ingest) (i : IngestRow) (l : JobLease).

(** ** Notifications and reviews *)

Lemma for_each_materialize_grows gen rows ck db u db' :
  for_each (λ i, if bool_decide (ingest_requested_action i = RequestedAction.Save) then mret tt
                 else insert_materialization_job (gen (ingest_id i)) (ingest_id i)) rows ck db
    = Ok (u, db') → grows db db'.
Proof.
  apply for_each_grows. intros i db1 u1 db2 H. branch; [done|].
  by eapply insert_materialization_job_grows.
Qed.

(** A permitted change of the state and error columns alone. *)
Lemma outcome_change i i' :
  same_request i i' → ingest_input_json i' = ingest_input_json i →
  moves (ingest_state i) (ingest_state i') → ¬ settled i → pipeline_change i i'.
Proof.
  intros Hs Hj Hm Hn. constructor; [done|done| |done].
  apply readable_same; [done|apply Hs].
Qed.

Lemma open_not_settled i : IngestStatus.is_terminal (ingest_state i) = false → ¬ settled i.
Proof. intros Ho Hs%settled_terminal. by rewrite Ho in Hs. Qed.

Lemma completed_by_storage m now i :
  storage_pending_ingest m i = true → pipeline_change i (completed_ingest now i).
Proof.
  unfold storage_pending_ingest, ingest_in. intros [_ Hs]%andb_true_iff.
  rewrite !orb_true_iff, !andb_true_iff, !bool_decide_eq_true in Hs.
  apply outcome_change; [by constructor|done|simpl|].
  - destruct Hs as [[-> |[-> _]]|[-> _]].
    + apply rtc_once. by left.
    + eapply rtc_l with IngestStatus.Storing; [by left|]. apply rtc_once. by left.
    + apply rtc_once. by right.
  - intros Hset. destruct Hs as [[Hs|[Hs _]]|[Hs He]];
      destruct Hset as [Hc|[Hc|[Hc Hne]]]; rewrite Hs in Hc; try done. by rewrite He in Hne.
Qed.

Lemma complete_storage_change gen gc m ck db n db' :
  complete_storage_for_media gen gc m ck db = Ok (n, db') → inbox_change db db'.
Proof.
  unfold complete_storage_for_media. intros H. txn_inv.
  repeat match goal with
  | H : update_ingests_where _ _ _ _ = Ok _ |- _ => eapply update_ingests_where_change in H;
      [|intros i [_ Hi]%andb_true_iff; by eapply completed_by_storage]
  | H : for_each _ _ _ _ = Ok _ |- _ => apply for_each_materialize_grows, grows_change in H
  | H : update_media_where _ _ _ _ _ _ = Ok _ |- _ => apply update_media_where_grows, grows_change in H
  | H : enqueue_workspace_cleanup_for_media _ _ _ _ _ _ = Ok _ |- _ =>
      apply cleanup_for_media_grows, grows_change in H
  end.
  by repeat (etrans; [eassumption|]).
Qed.

Lemma failed_by_storage m i status set :
  is_failure status = true → (∀ i, same_request i (set i)) →
  (∀ i, ingest_input_json (set i) = ingest_input_json i) → (∀ i, ingest_state (set i) = status) →
  linked m i && (ingest_in IngestStatus.Storing i
    || (ingest_in IngestStatus.FailedRetryable i
        && bool_decide (ingest_error_code i = Some (lit "storage_upload")))) = true →
  pipeline_change i (set i).
Proof.
  intros Hf Hsr Hj Hst [_ Hs]%andb_true_iff. unfold ingest_in in Hs.
  rewrite !orb_true_iff, !andb_true_iff, !bool_decide_eq_true in Hs.
  apply outcome_change; [done|done| |].
  - rewrite Hst. apply rtc_once. left. destruct Hs as [-> |[-> _]]; by destruct status.
  - apply open_not_settled. by destruct Hs as [-> |[-> _]].
Qed.

Lemma fail_storage_change gc m status code msg ck db n db' :
  fail_storage_for_media gc m status code msg ck db = Ok (n, db') → inbox_change db db'.
Proof.
  unfold fail_storage_for_media. intros H. txn_inv.
  match goal with H : update_ingests_where _ _ _ _ = Ok _ |- _ =>
    eapply update_ingests_where_change in H; [|intros i Hi; simpl;
      eapply (failed_by_storage m i status (λ i, _)); [done|by constructor|done|done|exact Hi]] end.
  etrans; [eassumption|]. branch; [|done].
  match goal with H : update_media_where _ _ _ _ _ _ = Ok _ |- _ =>
    apply update_media_where_grows, grows_change in H; etrans; [exact H|clear H] end.
  branch; [|done]. by eapply grows_change, cleanup_for_media_grows.
Qed.

Lemma acknowledge_change expected ck db b db' :
  acknowledge_ingest_failures failure_revision expected ck db = Ok (b, db') → inbox_change db db'.
Proof.
  unfold acknowledge_ingest_failures. intros H. txn_inv. 
  branch; [|done].
  eapply update_ingests_where_change; [eassumption|]. intros i _.
  constructor; simpl; [by constructor|apply rtc_refl|by apply readable_same|done].
Qed.

(** ** What a saved request shows to the next reader *)

Definition shows db (id : Uuid) q : Prop :=
  ∃ i q', db_ingests db !! id = Some i ∧ into_ingest i = Ok q' ∧ ig_id q' = ingest_id i
    ∧ ig_status q' = ig_status q ∧ ig_force_save q' = ig_force_save q
    ∧ ig_media_id q' = ig_media_id q ∧ ig_original_input q' = ig_original_input q.

Lemma shows_grows db db' id q : shows db id q → grows db db' → shows db' id q.
Proof. intros (i & q' & Hi & H) Hg. exists i, q'. by rewrite (gw_ingests _ _ Hg). Qed.

Lemma saved_shows id (l : option JobLease) ck db0 db q u db' :
  holding id l ck db0 db q → update_ingest_state q ck db = Ok (u, db') → shows db' id q.
Proof.
  intros [Hid Ha] H. pose proof (at_stage_row _ _ _ Ha) as (i0 & i & Hi0 & Hi & Hpc & _ & Hu & _).
  unfold update_ingest_state, update_ingest_row in H. rewrite Hid in H. db_inv. rewrite Hi in *. db_inv.
  pose proof (wf_ingest_key _ (as_wf _ _ _ _ _ _ _ Ha) _ _ Hi) as Hk.
  destruct (as_canonical _ _ _ _ _ _ _ Ha) as (d & Ht & He).
  rewrite <-(sr_url _ _ (pc_same _ _ Hpc)) in Hu. unfold shows. simpl. rewrite <-Hk, lookup_insert_eq.
  exists (with_request q i). unfold into_ingest, mbind, result_bind. simpl.
  rewrite (decode_encode _ _ Ht He). simpl.
  rewrite He. simpl. destruct (ingest_source_url i); [|done]. simpl. eexists. by split_and!.
Qed.

Lemma saved_then_grows id (l : option JobLease) ck db0 db q u db1 db' :
  holding id l ck db0 db q → update_ingest_state q ck db = Ok (u, db1) → grows db1 db' →
  touched id l ck db0 db' ∧ shows db' id q.
Proof.
  intros Hh Hu Hg. split; [|eapply shows_grows; [|done]; by eapply saved_shows].
  eapply update_ingest_state_at in Hu; [|done]. by eapply holding_grows in Hg as [_ [_ ? _ _]].
Qed.

Lemma shows_load db id q ck : shows db id q →
  ∃ q', load_request id ck db = Ok (q', db) ∧ ig_status q' = ig_status q
    ∧ ig_force_save q' = ig_force_save q ∧ ig_media_id q' = ig_media_id q
    ∧ ig_original_input q' = ig_original_input q.
Proof.
  intros (i & q' & Hi & Hq & _ & H). exists q'. split; [|done].
  unfold load_request, mbind, txn_bind, require, lift, ok_or. rewrite select_ingest_run. by rewrite Hi, Hq.
Qed.

(** ** Decisions about duplicates *)

Lemma force_save_ok fw f id ck db r db' :
  force_save fw f id ck db = Ok (r, db') → db_wf db →
  (db' = db ∧ fs_resumed r = false)
  ∨ (fs_resumed r = true ∧ touched id None ck db db'
     ∧ ∃ q, shows db' id q ∧ ig_status q = IngestStatus.Queued ∧ ig_force_save q = true).
Proof.
  unfold force_save. intros H Hwf. txn_inv.
  match goal with H : load_request _ _ _ = _ |- _ =>
    apply (load_request_ok _ None) in H as (-> & Hid & Hh); [|done] end.
  branch; [|by branch; left]. right. split; [done|].
  match goal with H : ig_status ?q = _ |- _ => rewrite H in Hh; specialize (Hh eq_refl) end.
  unfold clear_pipeline_artifacts in *. txn_inv.
  match goal with H : save_data ?q _ _ _ = Ok _ |- _ =>
    eapply (save_data_at _ q) in H as (-> & Hh' & Hq);
      [|exact Hh|simpl; by eapply request_data_typed] end.
  unfold advance in *. txn_inv.
  match goal with H : move _ _ _ _ = Ok _ |- _ =>
    pose proof H as Hmv; eapply move_at in H as (-> & Hh2 & _); [|exact Hh'] end.
  match goal with H : update_ingest_state _ _ _ = Ok _, H2 : insert_first_job _ _ _ _ = Ok _ |- _ =>
    apply insert_first_job_grows in H2; eapply saved_then_grows in H as [Ht Hs]; [|exact Hh2|exact H2] end.
  split; [done|].
  eexists. split; [exact Hs|]. simpl. unfold move in Hmv. txn_inv. result_inv.
  unfold transition_to in *. case_match; simplify_eq. split; [done|]. simpl. by rewrite Hq.
Qed.

(** The states an accepted duplicate can be left in. *)
Definition accepted_status (s : IngestStatus.t) : Prop :=
  s = IngestStatus.Storing ∨ s = IngestStatus.Completed.

(** The last step of an acceptance: storing, or completed when the media is stored. *)
Lemma accepted_tail id (l : option JobLease) ck db0 f (ready : bool) q db q1 db1 q' db' :
  move q [IngestStatus.Storing] ck db = Ok (q1, db1) →
  (if ready then
     q2 ← move q1 [IngestStatus.Completed];
     let q2 := q2 <| ig_completed_at := Some (app_now ck) |> in
     (if bool_decide (ig_requested_action q2 = RequestedAction.Save) then mret tt
      else insert_materialization_job f (ig_id q2));;
     mret q2
   else mret q1) ck db1 = Ok (q', db') →
  holding id l ck db0 db q →
  holding id l ck db0 db' q' ∧ accepted_status (ig_status q')
  ∧ ig_force_save q' = ig_force_save q ∧ ig_media_id q' = ig_media_id q
  ∧ ig_original_input q' = ig_original_input q.
Proof.
  intros Hm H Hh. pose proof (move_one _ _ _ _ _ _ Hm) as [-> Hq].
  eapply move_at in Hm as (_ & Hh1 & _); [|done]. destruct ready; txn_inv; [|by split_and!; [|left|..]].
  match goal with H : move _ _ _ _ = Ok _ |- _ =>
    pose proof (move_one _ _ _ _ _ _ H) as [-> Hq]; eapply move_at in H as (_ & Hh2 & _); [|done] end.
  simplify_eq/=. split_and!; [|by right|done..].
  branch; [exact Hh2|]. eapply holding_grows; [exact Hh2|]. by eapply insert_materialization_job_grows.
Qed.

Lemma saved_decodes q d ck db q' db' :
  save_data q d ck db = Ok (q', db') → source_typed (id_source d) →
  decode (ig_original_input q') = Ok d.
Proof.
  unfold save_data, set_input_data. intros H Ht. txn_inv. result_inv. simplify_eq. simpl.
  by apply decode_encode.
Qed.

Lemma accept_duplicate_ok f id m ck db r db' :
  accept_duplicate f id m ck db = Ok (r, db') → db_wf db →
  (db' = db ∧ ad_replayed r = true)
  ∨ (ad_replayed r = false ∧ touched id None ck db db'
     ∧ ∃ q d, shows db' id q ∧ accepted_status (ig_status q) ∧ ig_media_id q = Some m
         ∧ ig_force_save q = ig_force_save (ad_ingest r)
         ∧ decode (ig_original_input q) = Ok d
         ∧ id_duplicate_decision d = Some (accept_decision m)).
Proof.
  unfold accept_duplicate. intros H Hwf. txn_inv.
  match goal with H : load_request _ _ _ = _ |- _ =>
    apply (load_request_ok _ None) in H as (-> & Hid & Hh); [|done] end.
  case_match; [branch; by left|]. right. db_inv.
  match goal with H : ig_status ?q = _ |- _ => rewrite H in Hh; specialize (Hh eq_refl) end.
  match goal with H : update_media_where _ _ _ _ _ _ = Ok _ |- _ =>
    apply update_media_where_grows in H; eapply holding_grows in H; [|exact Hh] end.
  match goal with H : save_data ?q ?d _ ?db1 = Ok _, Hh : holding _ _ _ _ ?db1 _ |- _ =>
    pose proof H as Hsave; eapply (save_data_at _ q) in H as (-> & Hh' & Hq);
      [|exact Hh|simpl; by eapply request_data_typed] end.
  match goal with H : move _ _ _ _ = Ok _, H2 : (if _ then _ else _) _ _ = Ok _ |- _ =>
    eapply accepted_tail in H2 as (Hh2 & Hacc & Hf & Hm & Ho); [|exact H|exact Hh'] end.
  match goal with H : update_ingest_state _ _ _ = Ok _ |- _ =>
    eapply saved_then_grows in H as [Ht Hs]; [|exact Hh2|reflexivity] end.
  split_and!; [done|done|]. eexists _, _. split_and!; [exact Hs|exact Hacc| |done| |]; simpl.
  - rewrite Hm. simpl. by rewrite Hq.
  - rewrite Ho. simpl. eapply saved_decodes; [exact Hsave|]. simpl. by eapply request_data_typed.
  - done.
Qed.

(** ** Captions of accepted media *)

Lemma update_ingest_row_media id set ck db u db' :
  update_ingest_row id set ck db = Ok (u, db') → db_media db' = db_media db.
Proof. unfold update_ingest_row. intros H. db_inv. case_match; by db_inv. Qed.

(** The row an acceptance writes. *)
Definition accepted_row (q : Ingest) (now : Z) (x : MediaRow) : MediaRow :=
  x <| media_tags := merge_duplicate_tags (media_tags x) (ig_supplied_tags q);
       media_description := match normalize_optional_text (ig_supplied_description q) with
                            | Some t => Some t
                            | None => media_description x
                            end;
       media_updated_at := now |>.

Lemma accept_duplicate_media f id m ck db r db' :
  accept_duplicate f id m ck db = Ok (r, db') → db_wf db →
  (db_media db' = db_media db ∧ ad_replayed r = true)
  ∨ ∃ q x, load_request id ck db = Ok (q, db) ∧ db_media db !! m = Some x
      ∧ db_media db' = <[m := accepted_row q (sql_now ck) x]> (db_media db).
Proof.
  unfold accept_duplicate. intros H Hwf. txn_inv.
  match goal with H : load_request _ _ _ = Ok (?q, _) |- _ =>
    pose proof H as Hload; apply (load_request_ok _ None) in H as (-> & _ & _); [|done] end.
  case_match; [branch; txn_inv; by left|]. right. db_inv.
  match goal with H : Some ?x = db_media _ !! _ |- _ => symmetry in H; rename H into Hx end.
  match goal with H : update_media_where _ _ _ _ _ _ = Ok _ |- _ =>
    apply update_media_where_ok in H as [(_ & _ & Hno)|(row & Hrow & _ & _ & _ & ->)] end;
    [by specialize (Hno _ Hx)|].
  simplify_eq. eexists _, _. split; [done|]. split; [done|].
  match goal with H : update_ingest_state _ _ _ = Ok _ |- _ => apply update_ingest_row_media in H as -> end.
  match goal with H : save_data _ _ _ _ = Ok _ |- _ =>
    unfold save_data in H; txn_inv end.
  match goal with H : move _ _ _ _ = Ok _ |- _ => apply move_one in H as [-> _] end.
  match goal with H : (if _ then _ else _) _ ?d = Ok (_, ?d') |- _ =>
    assert (db_media d' = db_media d) as -> end.
  { branch; [|done]. match goal with H : move _ _ _ _ = Ok _ |- _ => apply move_one in H as [-> _] end.
    branch; [done|].
    match goal with H : insert_materialization_job _ _ _ _ = Ok _ |- _ =>
      unfold insert_materialization_job, insert_job in H; by apply insert_job_if_absent_ok in H as [] end. }
  pose proof (wf_media_key _ Hwf _ _ Hx) as <-. done.
Qed.

(** An acceptance writes the description and the tags of the media and leaves the
    columns of the caption alone, also when the caption that shows them has
    already been sent. *)
Theorem accepting_schedules_no_caption f id m ck db r db' :
  accept_duplicate f id m ck db = Ok (r, db') → db_wf db → ad_replayed r = false →
  ∃ q x x', load_request id ck db = Ok (q, db)
    ∧ db_media db !! m = Some x ∧ db_media db' !! m = Some x'
    ∧ media_tags x' = merge_duplicate_tags (media_tags x) (ig_supplied_tags q)
    ∧ media_description x' = match normalize_optional_text (ig_supplied_description q) with
                             | Some t => Some t
                             | None => media_description x
                             end
    ∧ media_caption_sync_state x' = media_caption_sync_state x
    ∧ media_caption_sync_generation x' = media_caption_sync_generation x.
Proof.
  intros H Hwf Hr. apply accept_duplicate_media in H as [[_ Ho]|(q & x & Hq & Hx & Hm)];
    [congruence| |done].
  exists q, x, (accepted_row q (sql_now ck) x). rewrite Hm, lookup_insert_eq. by split_and!.
Qed.

(** ** Creation *)

Lemma new_request_ok f sub now q : new_request f sub now = Ok q →
  ig_id q = f ∧ canonical (ig_original_input q).
Proof.
  unfold new_request, from_submission. intros H. result_inv. simplify_eq.
  unfold transition_to in *. repeat (case_match; simplify_eq). simpl. split; [done|].
  match goal with H : decode _ = Ok ?d, He : encode ?d = Ok _ |- _ =>
    apply decode_valid in H as (Ht & _ & _); by exists d end.
Qed.

Lemma requested_channel_ok q ck db q' db' : requested_channel q ck db = Ok (q', db') →
  db' = db ∧ ig_id q' = ig_id q ∧ ig_original_input q' = ig_original_input q.
Proof.
  unfold requested_channel. intros H. branch; [done|]. by repeat (case_match; txn_inv).
Qed.

(** A row under a key that no row has. *)
Lemma insert_ingest_change db i :
  db_ingests db !! ingest_id i = None → readable i →
  (∀ k x, db_ingests db !! k = Some x → ingest_input_key x ≠ ingest_input_key i) →
  inbox_change db (set_ingest i db).
Proof.
  intros Hn Hr Hk. constructor; simpl; try done.
  - intros. by apply wf_set_ingest.
  - intros k x Hx. exists x. split; [|done]. by rewrite lookup_insert_ne by congruence.
  - intros k x [[<- <-]|[_ Hx]]%lookup_insert_Some Hno; [done|by simplify_eq].
  - intros Hu k k' x y. simpl.
    intros [[<- <-]|[Hne Hx]]%lookup_insert_Some [[<- <-]|[Hne' Hy]]%lookup_insert_Some He;
      [done|by apply Hk in Hy|by apply Hk in Hx|by eapply Hu].
  - intros k j Hj. exists j. split; [done|by left].
Qed.

Lemma create_ingest_ok f fj sub now ck db r db' :
  create_ingest_at f fj sub now ck db = Ok (r, db') → db_wf db →
  inbox_change db db'
  ∧ ∃ i, db_ingests db' !! ig_id (cr_ingest r) = Some i ∧ ingest_input_key i = input_key sub
      ∧ ingest_request_hash i = request_hash sub ∧ readable i.
Proof.
  unfold create_ingest_at. intros H Hwf. txn_inv. case_match eqn:Hfind.
  - unfold replay_ingest, load_request in *. db_inv. split; [done|].
    apply find_row_Some in Hfind as (k & Hk & Hkey). pose proof (wf_ingest_key _ Hwf _ _ Hk) as <-.
    rewrite Hk in *. simplify_eq. unfold has_input_key in Hkey. bool_norm.
    match goal with H : into_ingest ?i = Ok _ |- _ =>
      pose proof (into_ingest_ok _ _ H) as (-> & _); exists i; split_and!; try done; by eexists end.
  - txn_inv. match goal with H : new_request _ _ _ = _ |- _ => apply new_request_ok in H as [Hid Hc] end.
    match goal with H : requested_channel _ _ _ = _ |- _ =>
      apply requested_channel_ok in H as (-> & Hid' & Ho) end. db_inv.
    match goal with H : insert_first_job _ ?q _ _ = _ |- _ =>
      apply insert_first_job_grows in H as Hg;
      set (i := inserted_ingest (input_key sub) (request_hash sub) q) in * end.
    assert (readable i) as Hread by (apply canonical_readable; simpl; [by rewrite Ho|done]).
    split.
    + etrans; [|by apply grows_change]. apply (insert_ingest_change db i).
      * simpl. rewrite Hid'. match goal with H : is_some ?o = false |- _ => by destruct o end.
      * done.
      * intros k x Hx Heq. eapply find_row_None in Hfind; [|exact Hx].
        unfold has_input_key in Hfind. by rewrite bool_decide_true in Hfind.
    + exists i. rewrite (gw_ingests _ _ Hg). simpl. by rewrite lookup_insert_eq.
Qed.

(** ** Every writing method *)

Inductive inbox_step db db' : Prop :=
| ICreate ck f fj sub now r :
    create_ingest_at f fj sub now ck db = Ok (r, db') → inbox_step db db'
| IStage ck id l : stage_call id l ck db db' → inbox_step db db'
| IForceSave ck fw f id r : force_save fw f id ck db = Ok (r, db') → inbox_step db db'
| IAccept ck f id m r : accept_duplicate f id m ck db = Ok (r, db') → inbox_step db db'
| IStored ck gen gc m n :
    complete_storage_for_media gen gc m ck db = Ok (n, db') → inbox_step db db'
| INotStored ck gc m status code msg n :
    fail_storage_for_media gc m status code msg ck db = Ok (n, db') → inbox_step db db'
| IReviewed ck expected b :
    acknowledge_ingest_failures failure_revision expected ck db = Ok (b, db') → inbox_step db db'.

Lemma inbox_step_change db db' : inbox_step db db' → db_wf db → inbox_change db db'.
Proof.
  destruct 1 as [? ? ? ? ? ? H|? ? ? H|? ? ? ? ? H|? ? ? ? ? H|? ? ? ? ? H|? ? ? ? ? ? ? H|? ? ? H];
    intros Hwf.
  - by apply create_ingest_ok in H as [? _].
  - apply stage_call_fenced in H as [-> |[_ H]]; [done|by eapply touched_change|done].
  - apply force_save_ok in H as [[-> _]|(_ & H & _)]; [done|by eapply touched_change|done].
  - apply accept_duplicate_ok in H as [[-> _]|(_ & H & _)]; [done|by eapply touched_change|done].
  - by eapply complete_storage_change.
  - by eapply fail_storage_change.
  - by eapply acknowledge_change.
Qed.

Lemma inbox_history_change db db' : rtc inbox_step db db' → db_wf db → inbox_change db db'.
Proof.
  induction 1 as [|a b c Hs _ IH]; intros Hwf; [done|].
  apply inbox_step_change in Hs; [|done]. etrans; [done|]. by apply IH, Hs.
Qed.

Lemma find_ingest_by_key db k i key :
  keys_unique db → db_ingests db !! k = Some i → ingest_input_key i = key →
  find_row (has_input_key key) (db_ingests db) = Some i.
Proof.
  intros Hu Hi Hk. destruct (find_row _ _) as [x|] eqn:Hf.
  - apply find_row_Some in Hf as (k' & Hx & Hkx). unfold has_input_key in Hkx. bool_norm.
    assert (k' = k) as -> by (eapply Hu; [done..|congruence]). by simplify_eq.
  - eapply find_row_None in Hf; [|done]. unfold has_input_key in Hf. by bool_norm.
Qed.

(** How a decided ingest answers the next command. *)
(** ** Decided duplicates *)





(** What everybody else may do to a decided ingest: its upload succeeds or fails, and its
    failure is reviewed. *)
Record outcome_only i i' : Prop := {
  oo_json : ingest_input_json i' = ingest_input_json i;
  oo_url : ingest_source_url i' = ingest_source_url i;
  oo_media : ingest_media_id i' = ingest_media_id i;
  oo_force : ingest_force_save i' = ingest_force_save i;
  oo_state : ingest_state i' = ingest_state i
    ∨ ingest_state i ≠ IngestStatus.Queued
      ∧ ingest_state i' ∈ [IngestStatus.Completed; IngestStatus.FailedRetryable; IngestStatus.FailedTerminal];
}.
Lemma outcome_refl i : outcome_only i i.
Proof. constructor; auto. Qed.
#[local] Hint Resolve outcome_refl : core.














(** ** Properties *)

(** C32: over every history of the ingest repository the request of an ingest
    (key, hash, kind, links, supplied and requested fields) never changes, its
    state moves only along the permitted transitions or is rescued by a stored
    upload, a settled ingest only records the review of its failure, a row that
    could be read can still be read and new rows can be read, input keys stay
    unique, jobs are only added or completed, posts and channels are untouched
    and the tables stay well formed. *)
Theorem ingest_history_respects_requests db db' :
  db_wf db → rtc inbox_step db db' → inbox_change db db'.
Proof. intros Hwf Hh. by apply inbox_history_change. Qed.

(** C33: a call of a pipeline stage under a lease that is no longer current
    changes nothing, and under a current lease it touches one ingest, the job of
    the lease, media and new jobs only. *)
Theorem stage_calls_are_fenced id l ck db db' :
  db_wf db → stage_call id l ck db db' →
  (¬ holds_attempt l ck db → db' = db) ∧ touched id (Some l) ck db db'.
Proof. intros Hwf [-> |[Hl Ht]]%stage_call_fenced; [done| |done]. split; [|done]. by intros []. Qed.

(** C34: after a submission was accepted, and after any further history, the same
    submission under the same key answers the same ingest without a change, and a
    different submission under the key is refused. *)
Theorem create_ingest_is_idempotent f fj sub now ck db r db1 db2 :
  db_wf db → keys_unique db → create_ingest_at f fj sub now ck db = Ok (r, db1) →
  rtc inbox_step db1 db2 →
  ∀ f' fj' sub' now' ck', input_key sub' = input_key sub →
  (request_hash sub' = request_hash sub →
     ∃ q, create_ingest_at f' fj' sub' now' ck' db2
            = Ok ({| cr_ingest := q; cr_created := false |}, db2)
          ∧ ig_id q = ig_id (cr_ingest r))
  ∧ (request_hash sub' ≠ request_hash sub →
     create_ingest_at f' fj' sub' now' ck' db2 = Err (IdempotencyConflict (input_key sub'))).
Proof.
  intros Hwf Hu (Hc & i & Hi & Hkey & Hhash & Hread)%create_ingest_ok Hh f' fj' sub' now' ck' Hsk; [|done].
  assert (db_wf db1) as Hwf1 by by apply Hc.
  apply inbox_history_change in Hh as Hc2; [|done]. destruct (ic_rows _ _ Hc2 _ _ Hi) as (i2 & Hi2 & Hpc).
  destruct (pc_readable _ _ Hpc Hread) as [q Hq].
  assert (find_row (has_input_key (input_key sub')) (db_ingests db2) = Some i2) as Hfind.
  { eapply find_ingest_by_key; [by apply Hc2, Hc|exact Hi2|].
    by rewrite (sr_key _ _ (pc_same _ _ Hpc)), Hkey. }
  assert (ingest_id i2 = ig_id (cr_ingest r)) as Hid by (eapply wf_ingest_key; [by apply Hc2|done]).
  assert (ingest_request_hash i2 = request_hash sub) as Hh2
    by by rewrite (sr_hash _ _ (pc_same _ _ Hpc)).
  unfold create_ingest_at, mbind, txn_bind, get_state. rewrite Hfind.
  unfold replay_ingest, mbind, txn_bind, fail_if. rewrite Hh2. split; intros Hr.
  - rewrite bool_decide_true by done. simpl. unfold load_request, mbind, txn_bind.
    rewrite select_ingest_run, Hid, Hi2. simpl. unfold lift. rewrite Hq. exists q. split; [done|].
    by apply into_ingest_ok in Hq as (-> & _).
  - by rewrite bool_decide_false by congruence.
Qed.

End Histories.
