(* ===== verification/IngestWorkerSpec.v ===== *)
(** * IngestWorkerSpec: what the pipeline handlers record, and what the scavenger spares

    The handlers of [IngestWorker] run against the ingest repository, interleaved with
    every other transaction, with answers that may be lost: what a handler reports to the
    runner is what it has recorded.  The reconciliation of [Workspace] runs beside the
    repository: no current workspace is ever removed. *)

From S2P Require Import Prelude Text Enums Jobs Db Queue QueueSpec Cleanup Library LibraryRepo LibraryStorage.
From S2P Require Import LibraryInv SettlementSpec Proc Preview MediaIdentity Publisher PublisherRepo PublisherOps.
From S2P Require Import Envelope EnvelopeSpec Normalize Execute NormalizeVideo Download Inbox InboxRepo InboxOps.
From S2P Require Import InboxInv InboxCalls UploadProvider Workspace IngestWorker.

(** ** Silent programs: no repository call that writes *)

Definition is_silent {J : Json} (c : worker_call) : Prop :=
  match c with
  | BeginStage _ _ _ | CompleteStage _ _ _ | FailStage _ _ _ _ _ _ | BeginCleanup _ _ _
  | ProtectedWorkspaceIds => False
  | _ => True
  end.

Section Silent.
Context {J : Json} {Im : ImageLib}.

Fixpoint silent {A} (t : @proc worker_interface A) : Prop :=
  match t with
  | Done _ => True
  | Ask c k => is_silent c ∧ ∀ x, silent (k x)
  end.

Lemma silent_ask c : is_silent c → silent (@ask worker_interface c).
Proof. by split. Qed.
Lemma silent_bind {A B} (t : @proc worker_interface A) (f : A → @proc worker_interface B) :
  silent t → (∀ a, silent (f a)) → silent (t ≫= f).
Proof. intros Ht Hf. induction t as [a|c k IH]; [apply Hf|]. destruct Ht. split; naive_solver. Qed.
Lemma silent_try {E A B} (t : @proc worker_interface (result E A)) (f : A → @proc worker_interface (result E B)) :
  silent t → (∀ a, silent (f a)) → silent (try_bind t f).
Proof. intros Ht Hf. apply silent_bind; [done|]. by intros []. Qed.
Lemma silent_mapped {E F A} (f : E → F) (t : @proc worker_interface (result E A)) :
  silent t → silent (mapped f t).
Proof. intros Ht. by apply silent_bind. Qed.
Lemma silent_on_http {A} (t : @proc http_interface A) : silent (on_http t).
Proof. induction t; simpl; auto. Qed.
Lemma silent_on_disk {A} (t : @proc file_interface A) : silent (on_disk t).
Proof. apply silent_on_http. Qed.
End Silent.
#[export] Hint Resolve silent_ask silent_mapped silent_on_http silent_on_disk : silent.

(** Walk through a program that never writes to the repository. *)
Ltac silent_step :=
  first [ done
        | solve [eauto with silent]
        | apply silent_try; [|intros ?]
        | apply silent_bind; [|intros ?]
        | apply silent_mapped
        | case_match ].
Ltac silent := repeat silent_step.

Section WorkspaceSilent.
Context {J : Json} {Im : ImageLib}.

Lemma silent_ensure_directory p : silent (ensure_directory p).
Proof. unfold ensure_directory, at_path, stat. silent. Qed.
Lemma silent_permissions p : silent (set_restrictive_permissions p).
Proof. unfold set_restrictive_permissions, at_path. silent. Qed.
#[local] Hint Resolve silent_ensure_directory silent_permissions : silent.
Lemma silent_ensure_areas r l : silent (ensure_areas r l).
Proof. induction l; cbn [ensure_areas validate_areas]; silent. Qed.
#[local] Hint Resolve silent_ensure_areas : silent.
Lemma silent_workspace_create r i : silent (workspace_create r i).
Proof. unfold workspace_create, at_path. silent. Qed.
Lemma silent_ensure_real p : silent (ensure_real_directory p).
Proof. unfold ensure_real_directory, at_path, stat. silent. Qed.
#[local] Hint Resolve silent_ensure_real : silent.
Lemma silent_validate_areas r l : silent (validate_areas r l).
Proof. induction l; cbn [ensure_areas validate_areas]; silent. Qed.
#[local] Hint Resolve silent_validate_areas : silent.
Lemma silent_workspace_validate w : silent (workspace_validate w).
Proof. unfold workspace_validate. silent. Qed.
Lemma silent_workspace_path w a n : silent (workspace_path w a n).
Proof. unfold workspace_path, reject_existing_symlink, stat. silent. Qed.
End WorkspaceSilent.
#[export] Hint Resolve silent_workspace_create silent_workspace_validate silent_workspace_path : silent.

(** ** The protocol of a stage *)

Inductive closing {J : Json} :=
| Advanced                                        (* the stage had been left before *)
| Completed (o : StageOutput)
| Recorded (status : IngestStatus.t) (class message : Str)
| Broken (e : InboxRepositoryError).              (* a repository call answered an error *)
Inductive stage_phase {J : Json} := Outside | Begun | Closed (c : closing).

Definition closed_by {J : Json} {A} (c : closing) (x : result InboxRepositoryError A) : stage_phase :=
  match x with Ok _ => Closed c | Err e => Closed (Broken e) end.
Definition begun_by {J : Json} (x : result InboxRepositoryError StageStart) : stage_phase :=
  match x with
  | Ok (StageReady _) => Begun
  | Ok (AlreadyAdvanced _) => Closed Advanced
  | Err e => Closed (Broken e)
  end.
Definition failure_status (f : HandlerFailure) : IngestStatus.t :=
  if hf_retryable f then IngestStatus.FailedRetryable else IngestStatus.FailedTerminal.

Section Protocol.
Context {J : Json} {Im : ImageLib}.
Context {Di : Display InboxRepositoryError} {Dl : Display LibraryRepositoryError}.
Context (s : PipelineStage) (id : Uuid) (l : JobLease).

(** The stage is begun once, closed at most once, and only with its own ingest and lease. *)
Definition stage_rule (c : worker_call)
    : stage_phase → (stage_phase → @answer worker_interface c → Prop) → Prop :=
  match c with
  | BeginStage s' id' l' => λ φ go,
      φ = Outside ∧ s' = s ∧ id' = id ∧ l' = l ∧ ∀ x, go (begun_by x) x
  | CompleteStage id' l' o => λ φ go,
      φ = Begun ∧ output_stage o = s ∧ id' = id ∧ l' = l ∧ ∀ x, go (closed_by (Completed o) x) x
  | FailStage s' id' l' status class message => λ φ go,
      φ = Begun ∧ s' = s ∧ id' = id ∧ l' = l ∧ is_failure status = true
      ∧ ∀ x, go (closed_by (Recorded status class message) x) x
  | BeginCleanup _ _ _ | ProtectedWorkspaceIds => λ _ _, False
  | _ => λ φ go, ∀ x, go φ x
  end.

#[global] Instance stage_rule_mono : RuleMono stage_rule.
Proof. intros c φ go go' Hgo. destruct c; simpl; naive_solver. Qed.

(** What a handler that answers [r] has recorded. *)
Definition stage_verdict (φ : stage_phase) (r : result HandlerFailure unit) : Prop :=
  match r with
  | Ok _ => φ = Closed Advanced ∨ ∃ o, φ = Closed (Completed o)
  | Err f =>
      φ = Outside
      ∨ (φ = Begun ∧ hf_retryable f = false ∧ hf_defer_until f = None)
      ∨ φ = Closed (Recorded (failure_status f) (hf_class f) (hf_message f))
      ∨ ∃ e, φ = Closed (Broken e) ∧ f = map_inbox_error e
  end.

Abbreviation wp := (wp stage_rule).
Abbreviation settles t := (wp Begun t stage_verdict).

Lemma wp_silent {A} φ (t : @proc worker_interface A) Q : silent t → (∀ a, Q φ a) → wp φ t Q.
Proof.
  intros Ht HQ. induction t as [a|c k IH]; [apply HQ|]. destruct Ht as [Hc Hk]. simpl.
  destruct c; simpl in *; naive_solver.
Qed.

(** Run the silent first part of a program. *)
Lemma wp_silent_bind {A B} φ (t : @proc worker_interface A) (f : A → @proc worker_interface B) Q :
  silent t → (∀ a, wp φ (f a) Q) → wp φ (t ≫= f) Q.
Proof. intros Ht Hf. apply wp_bind. by apply wp_silent. Qed.
Lemma wp_silent_try {E A B} φ (t : @proc worker_interface (result E A))
    (f : A → @proc worker_interface (result E B)) Q :
  silent t → (∀ a, wp φ (f a) Q) → (∀ e, Q φ (Err e)) → wp φ (try_bind t f) Q.
Proof. intros Ht Hf He. apply wp_try, wp_silent; [done|]. intros []; auto. Qed.

Lemma wp_given {E A B} φ (a : A) (f : A → @proc worker_interface (result E B)) Q :
  wp φ (f a) Q → wp φ (try_bind (Done (Ok a)) f) Q.
Proof. done. Qed.

Lemma wp_complete o : output_stage o = s → settles (complete id l o).
Proof. intros Hs. simpl. split_and!; auto. intros []; simpl; naive_solver. Qed.

Lemma wp_fail_stage f : settles (fail_stage s id l f).
Proof.
  unfold fail_stage. simpl. split_and!; auto; [by destruct (hf_retryable f)|].
  intros []; simpl; [|naive_solver]. right; right; left. by unfold failure_status; destruct (hf_retryable f).
Qed.

Lemma wp_or_fail {A} (t : @proc worker_interface (result HandlerFailure A)) k :
  silent t → (∀ a, settles (k a)) → settles (or_fail (fail_stage s id l) t k).
Proof. intros Ht Hk. apply wp_silent_bind; [done|]. intros []; [apply Hk|apply wp_fail_stage]. Qed.

Lemma wp_with_stage k : (∀ q, settles (k q)) → wp Outside (with_stage s id l k) stage_verdict.
Proof. intros Hk. unfold with_stage. simpl. split_and!; auto. intros [[]|]; simpl; naive_solver. Qed.

Lemma wp_with_artifact path (t : @proc worker_interface (result HandlerFailure unit)) :
  settles t → settles (with_artifact path t).
Proof.
  intros Ht. apply wp_silent_bind; [apply silent_on_disk|]. intros _. apply wp_bind.
  eapply wp_mono; [|exact Ht]. intros φ r Hr. by apply wp_silent_bind; [apply silent_on_disk|].
Qed.
End Protocol.

(** ** The handlers follow it *)

(** What [main] gives to the handlers. *)
Record pipeline {J : Json} := {
  pp_work_root : Str;
  pp_downloader : SourceDownloader;
  pp_limits : DownloadLimits;
  pp_admission : WorkspaceAdmission;
  pp_telegram_source : bool;
  pp_telegram_max_bytes : Z;
  pp_planner : NormalizationPlanner;
  pp_executor : FfmpegExecutor;
  pp_max_bytes : Z;
}.

(** The ingest a job of a stage is about. *)
Definition stage_subject {J : Json} (s : PipelineStage) (c : JobCommand) : option Uuid :=
  match s, c with
  | SourceInspectionStage, InspectSource p => Some (inspect_ingest_id p)
  | SourceDownloadStage, DownloadSource p => Some (download_ingest_id p)
  | AssetProbeStage, ProbeAsset p | AssetNormalizationStage, NormalizeAsset p => Some (ingest_job_id p)
  | _, _ => None
  end.

Section Handlers.
Context {J : Json} {Sh : JsonShape} {E : EnvelopeSerde} {Im : ImageLib} {Sp : Serde MediaProbe} {Dg : Sha256}.
Context `{Eqv : !EqDecision Value}.
Context {Dd : Display DiskAdmissionError} {Dw : Display WorkspaceError} {Dx : Display IngestDataError}.
Context {Di : Display InboxRepositoryError} {Dl : Display LibraryRepositoryError} {Do : Display io_error}.
Context {Dp : Display ProbeError} {Da : Display ArtifactPublicationError} {Dn : Display NormalizationError}.
Context {De : Display NormalizationExecutionError} {Dh : Display HashError}.

Definition stage_handler (p : pipeline) (s : PipelineStage) (job : Job)
    : @proc worker_interface (result HandlerFailure unit) :=
  match s with
  | SourceInspectionStage => inspect_source (pp_downloader p) job
  | SourceDownloadStage =>
      download_source (pp_work_root p) (pp_downloader p) (pp_limits p) (pp_admission p) job
  | AssetProbeStage =>
      probe_asset (pp_work_root p) (pp_telegram_source p) (pp_admission p) (pp_telegram_max_bytes p) job
  | AssetNormalizationStage =>
      normalize_asset (pp_work_root p) (pp_planner p) (pp_executor p) (pp_max_bytes p) (pp_admission p) job
  end.

Lemma silent_admit a r b : silent (admit_work a r b).
Proof. unfold admit_work, check_disk_space, filesystem_space. silent. Qed.
Lemma silent_load i : silent (load_ingest_for_admission i).
Proof. unfold load_ingest_for_admission. silent. Qed.
Lemma silent_artifact_exists p : silent (source_artifact_exists p).
Proof. unfold source_artifact_exists, stat. silent. Qed.
Lemma silent_read_artifact w p m : silent (read_source_artifact w p m).
Proof. unfold read_source_artifact, in_workspace, stat. silent. Qed.
#[local] Hint Resolve silent_admit silent_load silent_artifact_exists silent_read_artifact : silent.
Lemma silent_validate_downloaded w p d : silent (validate_downloaded_source w p d).
Proof. unfold validate_downloaded_source, in_workspace, check. silent. Qed.
Lemma silent_published_source w a p d : silent (published_source w a p d).
Proof. unfold published_source, check. silent. Qed.
Lemma silent_with_artifact {A} p (t : @proc worker_interface A) : silent t → silent (with_artifact p t).
Proof. intros Ht. unfold with_artifact. silent. Qed.
Lemma silent_telegram_source w q b : silent (ensure_telegram_source w q b).
Proof.
  unfold ensure_telegram_source, in_workspace, new_uuid, check. silent.
Qed.
Lemma silent_open_input r q : silent (open_input r q).
Proof. unfold open_input, in_workspace. silent. Qed.
Lemma silent_prepare r q : silent (prepare_workspace r q).
Proof. unfold prepare_workspace, in_workspace. silent. Qed.
Lemma silent_preflight_probe r a b q : silent (preflight_probe r a b q).
Proof. unfold preflight_probe, in_workspace. silent. Qed.
Lemma silent_preflight_normalization q r a b : silent (preflight_normalization q r a b).
Proof. unfold preflight_normalization. silent. Qed.
#[local] Hint Resolve silent_validate_downloaded silent_published_source silent_telegram_source
  silent_open_input silent_prepare silent_preflight_probe silent_preflight_normalization : silent.
Lemma silent_normalize_video r pl x q p j b : silent (normalize_video_asset r pl x q p j b).
Proof. unfold normalize_video_asset, in_workspace. silent. Qed.
Lemma silent_normalize_image r q b : silent (normalize_image_asset r q b).
Proof. unfold normalize_image_asset. silent. Qed.
Lemma silent_animation_preview w c : silent (animation_preview w c).
Proof. unfold animation_preview, in_workspace, new_uuid. silent. Qed.
#[local] Hint Resolve silent_animation_preview : silent.
Lemma silent_normalize_exact r q k p b : silent (normalize_exact_asset r q k p b).
Proof. unfold normalize_exact_asset, in_workspace. silent. Qed.
#[local] Hint Resolve silent_normalize_video silent_normalize_image silent_normalize_exact : silent.

Section Stage.
Context (job : Job) (id : Uuid) (l : JobLease) (Hl : lease job = Some l).
Abbreviation runs s t := (wp (stage_rule s id l) Outside t stage_verdict).
Abbreviation settles s t := (wp (stage_rule s id l) Begun t stage_verdict).

Lemma inspect_source_runs d p : jb_command job = InspectSource p → inspect_ingest_id p = id →
  runs SourceInspectionStage (inspect_source d job).
Proof.
  intros Hc Hi. unfold inspect_source. rewrite Hc, Hl. cbv zeta. rewrite ?Hi. apply wp_with_stage. intros q.
  apply wp_silent_bind; [apply silent_on_http|]. intros [i|e]; [by apply wp_complete|].
  simpl. split_and!; auto; [by case_match|]. intros []; simpl; [|naive_solver].
  right; right; left. unfold verdict, failure_status. by case_match.
Qed.

Lemma download_into_settles w a b d ls i :
  settles SourceDownloadStage (download_into w a b d ls job id l i).
Proof.
  apply wp_with_artifact, wp_silent_bind; [apply silent_on_http|]. intros [x|e]; [|apply wp_fail_stage].
  apply wp_or_fail; [auto with silent|]. intros _. apply wp_or_fail; [auto with silent|]. intros y.
  by apply wp_complete.
Qed.

Lemma download_source_runs r d ls a p : jb_command job = DownloadSource p → download_ingest_id p = id →
  runs SourceDownloadStage (download_source r d ls a job).
Proof.
  intros Hc Hi. unfold download_source. rewrite Hc, Hl. cbv zeta. rewrite ?Hi. apply wp_given.
  apply wp_silent_try; [auto with silent| |by left]. intros q0.
  apply wp_silent_try; [by case_match; auto with silent| |by left]. intros _.
  apply wp_with_stage. intros q. destruct (input_data q) as [data|e]; [apply wp_given|simpl; naive_solver].
  case_bool_decide; [|apply wp_fail_stage].
  do 3 (apply wp_or_fail; [unfold in_workspace; auto with silent|]; intros ?).
  apply wp_silent_bind; [apply silent_on_disk|]. intros u.
  apply wp_or_fail; [unfold in_workspace; auto with silent|]. intros ?. apply download_into_settles.
Qed.

Lemma run_probe_settles i : settles AssetProbeStage (run_probe i job id l).
Proof.
  apply wp_silent_bind; [apply silent_on_disk|]. intros [x|e]; [by apply wp_complete|].
  simpl. split_and!; auto; [by case_match|]. intros []; simpl; [|naive_solver].
  right; right; left. unfold verdict, failure_status. by case_match.
Qed.

(** The one look at a file whose failure is not recorded. *)
Lemma artifact_exists_wp s φ p (Q : stage_phase → result HandlerFailure bool → Prop) :
  (∀ b, Q φ (Ok b)) → (∀ class message, Q φ (Err (permanent class message))) →
  wp (stage_rule s id l) φ (source_artifact_exists p) Q.
Proof.
  intros Hok Herr. apply wp_silent_bind; [apply silent_on_disk|].
  intros [t|[]]; simpl; [case_match|..]; auto.
Qed.

Lemma probe_asset_runs r t a b p : jb_command job = ProbeAsset p → ingest_job_id p = id →
  runs AssetProbeStage (probe_asset r t a b job).
Proof.
  intros Hc Hi. unfold probe_asset. rewrite Hc, Hl. cbv zeta. rewrite ?Hi. apply wp_given.
  apply wp_silent_try; [auto with silent| |by left]. intros q0.
  apply wp_silent_try; [auto with silent| |by left]. intros pre.
  apply wp_with_stage. intros q. destruct pre as [ready|f]; [|apply wp_fail_stage].
  apply wp_or_fail; [by destruct ready; auto with silent|]. intros [w i]. apply wp_try.
  assert (∀ b : bool, settles AssetProbeStage
    (if b then r ← ensure_telegram_source w q t;
        match r with
        | Ok _ => run_probe i job id l
        | Err failure => fail_probe id l
            (if negb (hf_retryable failure) || exhausted job
             then permanent (hf_class failure) (hf_message failure) else failure)
        end else run_probe i job id l)) as Hrest.
  { intros []; [|apply run_probe_settles]. apply wp_silent_bind; [auto with silent|].
    intros []; [apply run_probe_settles|apply wp_fail_stage]. }
  case_bool_decide; [|apply (Hrest false)].
  apply wp_try, artifact_exists_wp; [|naive_solver]. intros found. apply (Hrest (negb found)).
Qed.

Lemma normalize_asset_runs r pl x b a p : jb_command job = NormalizeAsset p → ingest_job_id p = id →
  runs AssetNormalizationStage (normalize_asset r pl x b a job).
Proof.
  intros Hc Hi. unfold normalize_asset. rewrite Hc, Hl. cbv zeta. rewrite ?Hi. apply wp_given.
  apply wp_silent_try; [auto with silent| |by left]. intros q0.
  apply wp_silent_try; [auto with silent| |by left]. intros pre.
  apply wp_with_stage. intros q. destruct pre as [f|]; [apply wp_fail_stage|].
  destruct (stored_probe_and_kind q) as [[pr k]|f]; [|apply wp_fail_stage].
  apply wp_silent_bind; [destruct k; auto with silent; done|].
  intros []; [by apply wp_complete|apply wp_fail_stage].
Qed.
End Stage.

(** Every handler obeys the protocol of its stage; a job that is not one of the stage, or
    has no lease, is refused before any call. *)
Lemma stage_handler_runs p s job :
  (∃ f, stage_handler p s job = Done (Err f))
  ∨ ∃ id l, stage_subject s (jb_command job) = Some id ∧ lease job = Some l
      ∧ wp (stage_rule s id l) Outside (stage_handler p s job) stage_verdict.
Proof.
  destruct (lease job) as [l|] eqn:Hl.
  - destruct s; simpl; destruct (jb_command job) eqn:Hc;
      try (left; unfold inspect_source, download_source, probe_asset, normalize_asset;
           rewrite Hc; by eexists);
      right; do 2 eexists; (split; [done|split; [done|]]);
      eauto using inspect_source_runs, download_source_runs, probe_asset_runs, normalize_asset_runs.
  - left. destruct s; simpl; unfold inspect_source, download_source, probe_asset, normalize_asset;
      destruct (jb_command job); rewrite ?Hl; by eexists.
Qed.
End Handlers.

(** ** What the repository has done when it answers *)

(** The job of the lease has succeeded; the ingest shows the failure. *)
Definition job_succeeded {J : Json} (l : JobLease) (db : Db) : Prop :=
  ∃ r, db_jobs db !! jl_job_id l = Some r ∧ job_state r = JobStatus.Succeeded.
Definition shows_failure {J : Json} (id : Uuid) (status : IngestStatus.t) (class message : Str) (db : Db) : Prop :=
  ∃ i, db_ingests db !! id = Some i ∧ ingest_state i = status
       ∧ ingest_error_code i = Some class ∧ ingest_error_message i = Some message.

Section Repository.
Context {J : Json} {P : PayloadSerde} {Sh : JsonShape} {E : EnvelopeSerde} {T : InboxText}
  {C : CaseMapping} {Im : ImageLib} {Dg : Sha256} {Lt : LibraryText}.
Implicit Types (db : Db) (ck : Clock) (l : JobLease).
Abbreviation itxn A := (txn Db InboxRepositoryError A).

Definition begin_of (s : PipelineStage) (id : Uuid) l : itxn StageStart :=
  match s with
  | SourceInspectionStage => begin_source_inspection id l
  | SourceDownloadStage => begin_source_download id l
  | AssetProbeStage => begin_asset_probe id l
  | AssetNormalizationStage => begin_asset_normalization id l
  end.
Definition complete_of (fresh id : Uuid) l (o : StageOutput) : itxn Ingest :=
  match o with
  | Inspected x => complete_source_inspection fresh id l x
  | Downloaded x => complete_source_download fresh id l x
  | Probed x => complete_asset_probe fresh id l x
  | Normalized x => complete_asset_normalization fresh id l x
  end.
Definition fail_of (s : PipelineStage) (fresh id : Uuid) l status class message : itxn Ingest :=
  match s with
  | SourceInspectionStage => fail_source_inspection fresh id l status class message
  | SourceDownloadStage => fail_source_download fresh id l status class message
  | AssetProbeStage => fail_asset_probe fresh id l status class message
  | AssetNormalizationStage => fail_asset_normalization fresh id l status class message
  end.

Lemma begin_of_call s id l ck db r db' : begin_of s id l ck db = Ok (r, db') → stage_call id l ck db db'.
Proof. destruct s; [eapply CBeginInspection|eapply CBeginDownload|eapply CBeginProbe|eapply CBeginNormalization]. Qed.
(** A stage that had been left, or whose lease was lost, is not touched. *)
Lemma begin_of_advanced s id l ck db q db' :
  begin_of s id l ck db = Ok (AlreadyAdvanced q, db') → db_wf db → db' = db.
Proof.
  intros H Hwf. destruct s; simpl in H; unfold begin_source_inspection, begin_source_download,
    begin_asset_probe, begin_asset_normalization, under_lease, begin_stage in H; txn_inv;
    match goal with H : load_request _ _ _ = Ok _ |- _ => apply (load_request_ok _ None) in H as (-> & _); [|done] end;
    repeat (case_match; txn_inv; try done);
    match goal with H : lock_ingest_attempt _ _ _ = _ |- _ => by apply lock_ingest_attempt_ok in H as [-> _] end.
Qed.
Lemma complete_of_call f id l o ck db q db' :
  complete_of f id l o ck db = Ok (q, db') → stage_call id l ck db db'.
Proof. destruct o; [eapply CInspected|eapply CDownloaded|eapply CProbed|eapply CNormalized]. Qed.
Lemma fail_of_call s f id l st c m ck db q db' :
  fail_of s f id l st c m ck db = Ok (q, db') → stage_call id l ck db db'.
Proof.
  destruct s; [eapply CFailInspection|eapply CFailDownload|eapply CFailProbe|eapply CFailNormalization].
Qed.

Lemma succeed_done l ck db u db' :
  succeed_current_job_attempt l ck db = Ok (u, db') → db_wf db' → job_succeeded l db'.
Proof.
  unfold succeed_current_job_attempt. intros H Hwf. db_inv.
  match goal with Hr : Some ?r = db_jobs _ !! _ |- _ => rename Hr into Hj; rename r into r0 end.
  destruct (decide (job_id r0 = jl_job_id l)) as [Hk|Hne].
  - exists (succeeded_job (sql_now ck) r0). simpl. by rewrite Hk, lookup_insert_eq.
  - exfalso. apply Hne. eapply (wf_job_key _ Hwf). simpl. by rewrite lookup_insert_ne.
Qed.

Lemma complete_under_done l q e m ck db q' db' :
  complete_under l q e m ck db = Ok (q', db') → db' = db ∨ m ck db = Ok (q', db').
Proof.
  unfold complete_under. intros H. destruct e; simpl in H; db_inv; [|by left].
  match goal with H : lock_ingest_attempt _ _ _ = _ |- _ => apply lock_ingest_attempt_ok in H as [-> _] end.
  case_match; db_inv; auto.
Qed.

(** A completion has done nothing, because the stage had been left or the lease was lost, or
    the job of the lease has succeeded with it. *)
Lemma complete_of_done f id l o ck db q db' :
  complete_of f id l o ck db = Ok (q, db') → db_wf db → db' = db ∨ job_succeeded l db'.
Proof.
  intros H Hwf. pose proof (stage_call_fenced _ _ _ _ _ (complete_of_call _ _ _ _ _ _ _ _ H) Hwf) as [?|[_ Ht]];
    [by left|].
  pose proof (to_wf _ _ _ _ _ Ht Hwf) as Hwf'. clear Ht.
  destruct o; simpl in H; unfold complete_source_inspection, complete_source_download,
    complete_asset_probe, complete_asset_normalization in H; txn_inv;
    match goal with H : load_request _ _ _ = Ok _ |- _ => apply (load_request_ok _ None) in H as (-> & _); [|done] end;
    match goal with H : complete_under _ _ _ _ _ _ = Ok _ |- _ =>
      apply complete_under_done in H as [->|H]; [by left|] end;
    txn_inv; repeat branch; eauto using succeed_done.
Qed.

Lemma update_state_done id q ck db u db' :
  update_ingest_state q ck db = Ok (u, db') → db_wf db → ig_id q = id → is_Some (db_ingests db !! id) →
  ∃ i, db_ingests db' !! id = Some (with_request q i).
Proof.
  unfold update_ingest_state, update_ingest_row. intros H Hwf <- [r Hr]. db_inv. rewrite Hr in *. db_inv.
  pose proof (wf_ingest_key _ Hwf _ _ Hr) as Hk. exists r. simpl. by rewrite Hk, lookup_insert_eq.
Qed.

(** A failure has done nothing, because the stage had been left or the lease was lost, or the
    ingest shows it. *)
Lemma fail_step_done f id st c m ignore l expected ck db q db' :
  fail_ingest_step f id st c m (stage_guard ignore l expected) ck db = Ok (q, db') → db_wf db →
  db' = db ∨ shows_failure id st c m db'.
Proof.
  unfold fail_ingest_step. intros H Hwf. txn_inv.
  match goal with H : load_request _ _ _ = Ok _ |- _ => apply (load_request_ok _ None) in H as (-> & Hid & Hh); [|done] end.
  branch; [by left|]. branch; [by left|].
  match goal with H : lock_ingest_attempt _ _ _ = _ |- _ => apply lock_ingest_attempt_ok in H as [-> _] end.
  branch; [by left|]. branch; [by left|]. right.
  match goal with H : move _ _ _ _ = Ok _ |- _ => apply move_one in H as [-> ->] end.
  destruct (Hh eq_refl) as [_ Ha]. apply at_stage_row in Ha as (_ & i0 & _ & Hi0 & _).
  match goal with H : update_ingest_state _ _ _ = Ok _ |- _ =>
    apply (update_state_done (ig_id x1)) in H as [i Hi]; [|done..|by eexists] end.
  assert (db_ingests x8 = db_ingests x6) as Hsame.
  { branch; [|done]. by match goal with H : cleanup_later _ _ _ _ _ = Ok _ |- _ => apply cleanup_later_grows in H; apply H end. }
  eexists. rewrite Hsame. by split; [exact Hi|].
Qed.

Lemma fail_of_done s f id l st c m ck db q db' :
  fail_of s f id l st c m ck db = Ok (q, db') → db_wf db → db' = db ∨ shows_failure id st c m db'.
Proof. destruct s; apply fail_step_done. Qed.
End Repository.

(** ** The handler beside everybody else *)

(** A transaction a handler has committed. *)
Record commit {J : Json} := {
  cm_call : worker_call;
  cm_clock : Clock;
  cm_before : Db;
  cm_after : Db;
}.

Section System.
Context {J : Json} {P : PayloadSerde} {Sh : JsonShape} {E : EnvelopeSerde} {T : InboxText}
  {C : CaseMapping} {Im : ImageLib} {Dg : Sha256} {Lt : LibraryText}.
Context {Di : Display InboxRepositoryError} {Dl : Display LibraryRepositoryError}.
Implicit Types (db : Db) (ck : Clock) (l : JobLease).
Abbreviation reply := (result HandlerFailure unit).

(** What the repository does with a call, and the answer it gives. *)
Definition repository (c : worker_call) (fresh : Uuid) ck db : option (@answer worker_interface c * Db) :=
  match c with
  | BeginStage s id l => Some (run_txn (begin_of s id l) ck db)
  | CompleteStage id l o => Some (run_txn (complete_of fresh id l o) ck db)
  | FailStage s id l st class message => Some (run_txn (fail_of s fresh id l st class message) ck db)
  | _ => None
  end.
(** A connection that broke before the answer arrived. *)
Definition broken (c : worker_call) (e : SqlError) : option (@answer worker_interface c) :=
  match c with
  | BeginStage _ _ _ | CompleteStage _ _ _ | FailStage _ _ _ _ _ _ => Some (Err (InboxDatabase e))
  | _ => None
  end.

Record stage_system := {
  sy_db : Db;
  sy_proc : @proc worker_interface reply;
  sy_log : list commit;
}.

(** Other transactions leave well-formed tables; a call of the handler is executed and
    answered, or its connection breaks before or after the commit; files, network and tools
    answer anything. *)
Inductive stage_step : stage_system → stage_system → Prop :=
| sy_others db db' p log : db_wf db' →
    stage_step (Build_stage_system db p log) (Build_stage_system db' p log)
| sy_executed c k f ck db x db' log : repository c f ck db = Some (x, db') →
    stage_step (Build_stage_system db (Ask c k) log)
      (Build_stage_system db' (k x) (log ++ [Build_commit _ c ck db db']))
| sy_unanswered c k f ck db x db' e y log :
    repository c f ck db = Some (x, db') → broken c e = Some y →
    stage_step (Build_stage_system db (Ask c k) log)
      (Build_stage_system db' (k y) (log ++ [Build_commit _ c ck db db']))
| sy_unsent c k e y db log : broken c e = Some y →
    stage_step (Build_stage_system db (Ask c k) log) (Build_stage_system db (k y) log)
| sy_silent c k x db log : is_silent c →
    stage_step (Build_stage_system db (Ask c k) log) (Build_stage_system db (k x) log).

(** The commits of a handler agree with the phase of its protocol.  After a broken call
    nothing is said about the last one. *)
Definition log_of (s : PipelineStage) (id : Uuid) l (φ : stage_phase) (log : list commit) : Prop :=
  match φ with
  | Outside => log = []
  | Begun => ∃ b, log = [b] ∧ cm_call b = BeginStage s id l
  | Closed Advanced => ∃ b, log = [b] ∧ cm_call b = BeginStage s id l ∧ cm_after b = cm_before b
  | Closed (Completed o) => ∃ b e, log = [b; e] ∧ cm_call b = BeginStage s id l
      ∧ cm_call e = CompleteStage id l o
      ∧ (cm_after e = cm_before e ∨ job_succeeded l (cm_after e))
  | Closed (Recorded st class message) => ∃ b e, log = [b; e] ∧ cm_call b = BeginStage s id l
      ∧ cm_call e = FailStage s id l st class message
      ∧ (cm_after e = cm_before e ∨ shows_failure id st class message (cm_after e))
  | Closed (Broken _) => True
  end.
Definition log_fenced (id : Uuid) l (log : list commit) : Prop :=
  Forall (λ e, fenced id l (cm_clock e) (cm_before e) (cm_after e)) log.

Definition stage_inv (s : PipelineStage) (id : Uuid) l (sys : stage_system) : Prop :=
  db_wf (sy_db sys) ∧ log_fenced id l (sy_log sys)
  ∧ ∃ φ, log_of s id l φ (sy_log sys) ∧ wp (stage_rule s id l) φ (sy_proc sys) stage_verdict.

Lemma run_txn_fenced {A} (m : txn Db InboxRepositoryError A) id l ck db x db' :
  run_txn m ck db = (x, db') → (∀ a, m ck db = Ok (a, db') → stage_call id l ck db db') →
  db_wf db → fenced id l ck db db'.
Proof.
  unfold run_txn. intros H Hm Hwf. destruct (m ck db) as [[a d]|e] eqn:Hr; simplify_eq; [|by left].
  eapply stage_call_fenced; eauto.
Qed.

Lemma fenced_wf id l ck db db' : fenced id l ck db db' → db_wf db → db_wf db'.
Proof. intros [->|[_ Ht]] Hwf; [done|by apply Ht]. Qed.

(** One executed call. *)
Lemma executed_inv s id l c k f ck db x db' log φ :
  repository c f ck db = Some (x, db') → db_wf db → log_of s id l φ log →
  wp (stage_rule s id l) φ (Ask c k) stage_verdict →
  fenced id l ck db db'
  ∧ (∃ φ', log_of s id l φ' (log ++ [Build_commit _ c ck db db']) ∧ wp (stage_rule s id l) φ' (k x) stage_verdict)
  ∧ ∀ e y, broken c e = Some y → ∃ φ', log_of s id l φ' (log ++ [Build_commit _ c ck db db'])
      ∧ wp (stage_rule s id l) φ' (k y) stage_verdict.
Proof.
  intros Hr Hwf Hlog Hp. destruct c; try done; injection Hr as Hr; simpl in Hp.
  - destruct Hp as (-> & -> & -> & -> & Hgo). split_and!.
    + eapply run_txn_fenced; [exact Hr|intros ?; apply begin_of_call|done].
    + exists (begun_by x). split; [|apply Hgo]. simpl in Hlog. subst log.
      destruct x as [[]|]; simpl; eauto. apply run_txn_ok in Hr. eauto using begin_of_advanced.
    + intros e y [= <-]. exists (begun_by (Err (InboxDatabase e))). split; [done|apply Hgo].
  - destruct Hp as (-> & Ho & -> & -> & Hgo). destruct Hlog as (b & -> & Hb). split_and!.
    + eapply run_txn_fenced; [exact Hr|intros ?; apply complete_of_call|done].
    + exists (closed_by (Completed o) x). split; [|apply Hgo]. destruct x as [q|e]; simpl; [|done].
      do 2 eexists. split_and!; [done..|]. simpl. apply run_txn_ok in Hr. eauto using complete_of_done.
    + intros e y [= <-]. exists (closed_by (Completed o) (Err (A := Ingest) (InboxDatabase e))).
      split; [done|apply Hgo].
  - destruct Hp as (-> & -> & -> & -> & _ & Hgo). destruct Hlog as (b & -> & Hb). split_and!.
    + eapply run_txn_fenced; [exact Hr|intros ?; apply fail_of_call|done].
    + exists (closed_by (Recorded status class message) x). split; [|apply Hgo]. destruct x as [q|e]; simpl; [|done].
      do 2 eexists. split_and!; [done..|]. simpl. apply run_txn_ok in Hr. eauto using fail_of_done.
    + intros e y [= <-]. exists (closed_by (Recorded status class message) (Err (A := Ingest) (InboxDatabase e))).
      split; [done|apply Hgo].
Qed.

Lemma broken_inv s id l c k e y φ :
  broken c e = Some y → wp (stage_rule s id l) φ (Ask c k) stage_verdict →
  ∃ e', wp (stage_rule s id l) (Closed (Broken e')) (k y) stage_verdict.
Proof.
  intros Hb Hp. exists (InboxDatabase e).
  destruct c; try done; injection Hb as <-; simpl in Hp;
    first [destruct Hp as (_ & _ & _ & _ & _ & Hgo)|destruct Hp as (_ & _ & _ & _ & Hgo)];
    apply (Hgo (Err (InboxDatabase e))).
Qed.

Lemma stage_step_inv s id l sys sys' : stage_step sys sys' → stage_inv s id l sys → stage_inv s id l sys'.
Proof.
  intros Hstep (Hwf & Hlog & φ & Hφ & Hp).
  destruct Hstep as [db db' p log Hwf'|c k f ck db x db' log Hr|c k f ck db x db' e y log Hr Hb
                    |c k e y db log Hb|c k x db log Hc]; simpl in *.
  - split_and!; eauto.
  - destruct (executed_inv _ _ _ _ _ _ _ _ _ _ _ _ Hr Hwf Hφ Hp) as (Hf & Hnext & _).
    split_and!; [by eapply fenced_wf|by apply Forall_app; split; [|constructor]|done].
  - destruct (executed_inv _ _ _ _ _ _ _ _ _ _ _ _ Hr Hwf Hφ Hp) as (Hf & _ & Hnext).
    split_and!; [by eapply fenced_wf|by apply Forall_app; split; [|constructor]|by eapply Hnext].
  - destruct (broken_inv _ _ _ _ _ _ _ _ Hb Hp) as [e' Hp']. split_and!; [done..|].
    by exists (Closed (Broken e')).
  - split_and!; [done..|]. exists φ. split; [done|]. by destruct c; simpl in *.
Qed.

(** What the log of a finished handler says about its answer. *)
Definition accounted (s : PipelineStage) (id : Uuid) l (log : list commit) (r : reply) : Prop :=
  match r with
  | Ok _ =>
      (∃ b, log = [b] ∧ cm_call b = BeginStage s id l ∧ cm_after b = cm_before b)
      ∨ ∃ b e o, log = [b; e] ∧ cm_call b = BeginStage s id l ∧ cm_call e = CompleteStage id l o
          ∧ (cm_after e = cm_before e ∨ job_succeeded l (cm_after e))
  | Err f =>
      log = []
      ∨ (∃ b, log = [b] ∧ cm_call b = BeginStage s id l ∧ hf_retryable f = false
              ∧ hf_defer_until f = None)
      ∨ (∃ b e, log = [b; e] ∧ cm_call b = BeginStage s id l
           ∧ cm_call e = FailStage s id l (failure_status f) (hf_class f) (hf_message f)
           ∧ (cm_after e = cm_before e
              ∨ shows_failure id (failure_status f) (hf_class f) (hf_message f) (cm_after e)))
      ∨ ∃ e, f = map_inbox_error e
  end.

Lemma verdict_accounted s id l φ log r :
  log_of s id l φ log → stage_verdict φ r → accounted s id l log r.
Proof.
  intros Hl Hv. destruct r as [u|f]; simpl in *.
  - destruct Hv as [->|[o ->]]; simpl in Hl; [by left|]. destruct Hl as (b & e & ?). right. by exists b, e, o.
  - destruct Hv as [->|[(-> & ? & ?)|[->|(e & -> & ->)]]]; simpl in Hl; naive_solver.
Qed.
End System.

Section Account.
Context {J : Json} {P : PayloadSerde} {Sh : JsonShape} {E : EnvelopeSerde} {T : InboxText}
  {C : CaseMapping} {Im : ImageLib} {Dg : Sha256} {Lt : LibraryText} {Sp : Serde MediaProbe}.
Context `{Eqv : !EqDecision Value}.
Context {Dd : Display DiskAdmissionError} {Dw : Display WorkspaceError} {Dx : Display IngestDataError}.
Context {Di : Display InboxRepositoryError} {Dl : Display LibraryRepositoryError} {Do : Display io_error}.
Context {Dp : Display ProbeError} {Da : Display ArtifactPublicationError} {Dn : Display NormalizationError}.
Context {De : Display NormalizationExecutionError} {Dh : Display HashError}.

(** C5: whatever the files, the network, the tools and every other transaction do, and
    wherever a connection breaks, a stage handler that has ended reports what it has
    recorded.  Everything it committed was under its lease and confined to its ingest.  A
    success is a stage that had been left, or a completion with which the job succeeded; a
    failure was refused before the stage began, or is permanent, or is shown by the ingest
    with its class, its message and the status that goes with it, or is the error the
    repository gave. *)
Theorem stage_handlers_report_what_they_recorded p s job db sys r :
  db_wf db → rtc stage_step (Build_stage_system db (stage_handler p s job) []) sys →
  sy_proc sys = Done r →
  (sy_log sys = [] ∧ ∃ f, r = Err f)
  ∨ ∃ id l, stage_subject s (jb_command job) = Some id ∧ lease job = Some l
      ∧ log_fenced id l (sy_log sys) ∧ accounted s id l (sy_log sys) r.
Proof.
  intros Hwf Hrun Hdone. destruct (stage_handler_runs p s job) as [[f Hf]|(id & l & Hid & Hl & Hp)].
  - left. rewrite Hf in Hrun. assert (sy_proc sys = Done (Err f) ∧ sy_log sys = []) as [Hp Hlog].
    { remember (Build_stage_system db (Done (Err f)) []) as s0 eqn:H0.
      assert (sy_proc s0 = Done (Err f) ∧ sy_log s0 = []) as H1 by by subst. clear H0 Hdone.
      induction Hrun as [|a b c Hab _ IH]; [done|]. apply IH. destruct H1. by destruct Hab. }
    rewrite Hdone in Hp. injection Hp as ->. eauto.
  - right. exists id, l. split; [done|split; [done|]].
    assert (stage_inv s id l sys) as (_ & Hlog & φ & Hφ & Hv).
    { assert (stage_inv s id l (Build_stage_system db (stage_handler p s job) [])) as Hs
        by (split_and!; [done|by constructor|by exists Outside]).
      clear Hdone Hp Hwf. induction Hrun; eauto using stage_step_inv. }
    rewrite Hdone in Hv. split; [done|by eapply verdict_accounted].
Qed.
End Account.

(** ** The scavenger *)

(** An identifier is the current workspace of an ingest. *)
Definition current_workspace {J : Json} (db : Db) (w : Uuid) : Prop :=
  ∃ i r, db_ingests db !! i = Some r ∧ ingest_workspace_id r = w.

Inductive scavenge_phase :=
| Fresh
| Snapshot (protected : list Uuid)
| Cut (protected : list Uuid) (now : Z) (removed : nat)
| Old (protected : list Uuid) (now : Z) (removed : nat) (path : Str) (modified : Z).

Section Scavenger.
Context {J : Json} {Im : ImageLib} {U : UuidText}.
Context (work_root : Str) (max_age limit : Z).
Implicit Types (db : Db) (φ : scavenge_phase).
Abbreviation jobs := (path_join work_root (lit "jobs")).

(** A directory is removed right after it was found old, by a name that is an identifier
    outside the snapshot, and at most [limit] times. *)
Definition scavenge_rule (c : worker_call)
    : scavenge_phase → (scavenge_phase → @answer worker_interface c → Prop) → Prop :=
  match c with
  | ProtectedWorkspaceIds => λ φ go, φ = Fresh
      ∧ ∀ x, go (match x with Ok l => Snapshot l | Err _ => Fresh end) x
  | SystemNow => λ φ go, ∃ l, φ = Snapshot l ∧ ∀ now, go (Cut l now 0) now
  | Modified p => λ φ go, ∀ x,
      match φ with
      | Cut l t n | Old l t n _ _ =>
          go (match x with Ok (_, Some m) => Old l t n p m | _ => Cut l t n end) x
      | _ => False
      end
  | Http (Files (RemoveDirAll p)) => λ φ go,
      ∃ l t n m name w, φ = Old l t n p m ∧ m ≤ cutoff_before t max_age ∧ Z.of_nat n < limit
        ∧ p = path_join jobs name ∧ parse_uuid name = Some w ∧ w ∉ l
        ∧ ∀ x, go (Cut l t (S n)) x
  | _ => λ φ go, ∀ x, go φ x
  end.

#[global] Instance scavenge_rule_mono : RuleMono scavenge_rule.
Proof.
  intros c φ go go' Hgo. destruct c as [c| | | | | | | | | | | | | | | | | |]; simpl; try (destruct c; simpl; try destruct c; simpl);
    try naive_solver.
  all: intros H x; specialize (H x); destruct φ; auto.
Qed.

Abbreviation wp := (wp scavenge_rule).

Lemma wp_stat {B} φ p (f : result io_error FileType → @proc worker_interface B) Q :
  (∀ x, wp φ (f x) Q) → wp φ (stat p ≫= f) Q.
Proof. intros Hf x. apply Hf. Qed.
Lemma wp_mapped {E F A} φ (f : E → F) (t : @proc worker_interface (result E A)) Q :
  wp φ t (λ φ r, Q φ (map_err f r)) → wp φ (mapped f t) Q.
Proof. intros Ht. apply wp_bind. eapply wp_mono; [|exact Ht]. by intros φ' []. Qed.

(** The phases in which the loop stands between two entries. *)
Definition cut_at l t (k : Z) φ : Prop :=
  ∃ n, Z.of_nat n ≤ k ∧ (φ = Cut l t n ∨ ∃ p m, φ = Old l t n p m).

Lemma remove_root_wp l t n p m name w k Q :
  m ≤ cutoff_before t max_age → Z.of_nat n < limit → Z.of_nat n ≤ k →
  p = path_join jobs name → parse_uuid name = Some w → w ∉ l →
  (∀ φ r, cut_at l t (k + 1) φ → Q φ r) → wp (Old l t n p m) (remove_workspace_root jobs p) Q.
Proof.
  intros Hm Hn Hk Hp Hw Hl HQ. unfold remove_workspace_root. case_match.
  { apply HQ. exists n. split; [lia|]. right. by do 2 eexists. }
  apply wp_stat. intros [ty|e].
  - apply wp_try. unfold ensure_directory_metadata.
    destruct (ft_is_symlink ty), (ft_is_dir ty); simpl.
    3: { exists l, t, n, m, name, w. split_and!; auto. intros x. apply HQ.
         exists (S n). split; [lia|by left]. }
    all: apply HQ; exists n; split; [lia|]; right; by do 2 eexists.
  - destruct e; simpl; apply HQ; (exists n; split; [lia|]); right; by do 2 eexists.
Qed.

Lemma scavenge_entry_wp l t k name φ :
  cut_at l t k φ → k < limit →
  wp φ (scavenge_entry jobs (cutoff_before t max_age) l name)
    (λ φ r, match r with Ok b => cut_at l t (k + if b : bool then 1 else 0) φ | Err _ => True end).
Proof.
  intros (n & Hn & Hφ) Hk. unfold scavenge_entry.
  assert (cut_at l t (k + 0) φ) as Hsame by (exists n; split; [lia|done]).
  destruct (name ≫= _) as [[nm w]|] eqn:Hname; [|done].
  apply bind_Some in Hname as (nm' & -> & Hname). apply fmap_Some in Hname as (w' & Hw & [= -> ->]).
  case_bool_decide as Hl; [done|].
  assert (∀ x : result io_error (FileType * option Z),
    wp match x with Ok (_, Some m) => Old l t n (path_join jobs nm') m | _ => Cut l t n end
      (try_bind (Done (map_err (WorkspaceIo (path_join jobs nm')) x)) (λ mm,
        let '(ty, modified) := mm in
        if ft_is_symlink ty || negb (ft_is_dir ty) then Done (Ok false)
        else if match modified with Some m => cutoff_before t max_age <? m | None => true end
        then Done (Ok false)
        else _ ←? remove_workspace_root jobs (path_join jobs nm'); Done (Ok true)))
      (λ φ r, match r with Ok b => cut_at l t (k + if b : bool then 1 else 0) φ | Err _ => True end)) as Hgo.
  { intros [[ty [m|]]|e]; apply wp_try; cbn [map_err Proc.wp]; [| |done].
    - assert (cut_at l t (k + 0) (Old l t n (path_join jobs nm') m)) by (exists n; split; [lia|eauto]).
      destruct (_ || _); [done|]. destruct (_ <? m) eqn:Hm; [done|]. apply wp_try.
      eapply remove_root_wp; eauto; [apply Z.ltb_ge in Hm; done|lia|].
      intros φ' [u|e] Hc; [done|done].
    - destruct (_ || _); (exists n; split; [lia|by left]). }
  intros x. destruct Hφ as [->|(p & m & ->)]; apply (Hgo x).
Qed.

Lemma scavenge_entries_wp l t k entries φ :
  cut_at l t k φ → k < limit →
  wp φ (scavenge_entries jobs (cutoff_before t max_age) l limit k entries) (λ _ _, True).
Proof.
  revert k φ. induction entries as [|[name|e] entries IH]; intros k φ Hc Hk; [done| |done].
  cbn [scavenge_entries]. apply wp_try. eapply wp_mono; [|by apply scavenge_entry_wp].
  intros φ' [[]|e] Hc'; [| |done].
  - destruct (limit <=? k + 1) eqn:Hl; [done|]. apply IH; [done|lia].
  - apply IH; [|done]. by replace k with (k + 0) by lia.
Qed.

Lemma reconcile_wp : 0 ≤ limit → wp Fresh (reconcile_workspaces work_root max_age limit) (λ _ _, True).
Proof.
  intros Hl. unfold reconcile_workspaces. split; [done|]. intros [l|e]; [|done].
  apply wp_mapped. unfold scavenge_completed_workspaces. destruct (limit =? 0) eqn:H0; [done|].
  apply wp_try. unfold existing_jobs_root. apply wp_stat. intros [ty|[]]; [|done..].
  apply wp_try. destruct (ensure_directory_metadata work_root ty) as [u|e]; [|done].
  apply wp_stat. intros [ty'|[]]; [|done..].
  apply wp_try. destruct (ensure_directory_metadata jobs ty') as [u'|e]; [|done].
  exists l. split; [done|]. intros now. apply wp_try, wp_mapped. intros [entries|e]; [|done].
  apply (scavenge_entries_wp l now 0 entries (Cut l now 0)); [|lia]. exists 0%nat. split; [lia|by left].
Qed.

(** ** The scavenger beside the repository *)

(** [sv_born] are the workspace identifiers drawn since the start with the time at which they
    were drawn, [sv_seen] the directories the scavenger has looked at, and [sv_removed] the
    directories it asked to remove with the tables at that moment. *)
Record scavenger := {
  sv_db : Db;
  sv_proc : @proc worker_interface (result (JobRepositoryError + WorkspaceError) Z);
  sv_now : Z;
  sv_born : gmap Uuid Z;
  sv_seen : gset Str;
  sv_snapshot : option Z;
  sv_removed : list (Str * Db);
}.

Definition directory_of (w : Uuid) : Str := path_join jobs (uuid_to_string w).

(** The directory of an identifier is made after the identifier was drawn. *)
Definition honest (born : gmap Uuid Z) (p : Str) (x : result io_error (FileType * option Z)) : Prop :=
  ∀ w b t m, p = directory_of w → born !! w = Some b → x = Ok (t, Some m) → b ≤ m.

(** A workspace that becomes current is a new identifier, no directory has its name yet, and
    the clock is read within [max_age] of the query. *)
Inductive scavenge_step : scavenger → scavenger → Prop :=
| sv_time db p now now' born seen sn rm : now ≤ now' →
    scavenge_step (Build_scavenger db p now born seen sn rm) (Build_scavenger db p now' born seen sn rm)
| sv_others db db' p now born seen sn rm w :
    (∀ v, current_workspace db' v → v = w ∨ current_workspace db v) →
    born !! w = None → directory_of w ∉ seen →
    scavenge_step (Build_scavenger db p now born seen sn rm)
      (Build_scavenger db' p now (<[w := now]> born) seen sn rm)
| sv_query db k now born seen sn rm x :
    x = Ok (protected_workspace_ids db) ∨ (∃ e, x = Err e) →
    scavenge_step (Build_scavenger db (Ask ProtectedWorkspaceIds k) now born seen sn rm)
      (Build_scavenger db (k x) now born seen (Some now) rm)
| sv_clock db k now born seen t0 rm : now - t0 < max_age →
    scavenge_step (Build_scavenger db (Ask SystemNow k) now born seen (Some t0) rm)
      (Build_scavenger db (k now) now born seen (Some t0) rm)
| sv_look db p k now born seen sn rm x : honest born p x →
    scavenge_step (Build_scavenger db (Ask (Modified p) k) now born seen sn rm)
      (Build_scavenger db (k x) now born ({[p]} ∪ seen) sn rm)
| sv_remove db p k now born seen sn rm x :
    scavenge_step (Build_scavenger db (Ask (Http (Files (RemoveDirAll p))) k) now born seen sn rm)
      (Build_scavenger db (k x) now born seen sn (rm ++ [(p, db)]))
| sv_files db c k now born seen sn rm x :
    (∀ p, c ≠ Files (RemoveDirAll p)) →
    scavenge_step (Build_scavenger db (Ask (Http c) k) now born seen sn rm)
      (Build_scavenger db (k x) now born seen sn rm)
| sv_entries db p k now born seen sn rm x :
    scavenge_step (Build_scavenger db (Ask (ReadEntries p) k) now born seen sn rm)
      (Build_scavenger db (k x) now born seen sn rm).

(** A removal that was right: a directory of the jobs root by the name of an identifier, and
    not the workspace of an ingest. *)
Definition orphan (e : Str * Db) : Prop :=
  (∃ name w, parse_uuid name = Some w ∧ e.1 = path_join jobs name)
  ∧ ∀ w, current_workspace e.2 w → e.1 ≠ directory_of w.

(** What is known in a phase: every current workspace is protected or younger than the query. *)
Definition covered (l : list Uuid) db (born : gmap Uuid Z) (t0 : Z) : Prop :=
  ∀ w, current_workspace db w → w ∈ l ∨ ∃ b, born !! w = Some b ∧ t0 ≤ b.
Definition since (s : scavenger) l (t0 : Z) : Prop :=
  sv_snapshot s = Some t0 ∧ t0 ≤ sv_now s ∧ covered l (sv_db s) (sv_born s) t0.
Definition knows (s : scavenger) φ : Prop :=
  match φ with
  | Fresh => sv_removed s = []
  | Snapshot l => sv_removed s = [] ∧ ∃ t0, since s l t0
  | Cut l t n => length (sv_removed s) = n ∧ 0 ≤ t ∧ ∃ t0, since s l t0 ∧ t - t0 < max_age
  | Old l t n p m => length (sv_removed s) = n ∧ 0 ≤ t ∧ (∃ t0, since s l t0 ∧ t - t0 < max_age)
      ∧ p ∈ sv_seen s ∧ ∀ w b, p = directory_of w → sv_born s !! w = Some b → b ≤ m
  end.
Definition scavenger_inv (s : scavenger) : Prop :=
  0 ≤ sv_now s ∧ Forall orphan (sv_removed s) ∧ Z.of_nat (length (sv_removed s)) ≤ limit
  ∧ ∃ φ, knows s φ ∧ wp φ (sv_proc s) (λ _ _, True).

Lemma protected_covers db now born : covered (protected_workspace_ids db) db born now.
Proof.
  intros w (i & r & Hi & <-). left. apply elem_of_remove_dups, list_elem_of_fmap_2.
  apply elem_of_select_rows. eauto.
Qed.

(** Time passes, and others draw new identifiers. *)
Lemma since_later db p now now' born seen sn rm l t0 : now ≤ now' →
  since (Build_scavenger db p now born seen sn rm) l t0 →
  since (Build_scavenger db p now' born seen sn rm) l t0.
Proof. intros Hn (? & ? & ?). split_and!; simpl in *; [done|lia|done]. Qed.
Lemma since_others db db' p now born seen sn rm l t0 w :
  (∀ v, current_workspace db' v → v = w ∨ current_workspace db v) → born !! w = None →
  since (Build_scavenger db p now born seen sn rm) l t0 →
  since (Build_scavenger db' p now (<[w := now]> born) seen sn rm) l t0.
Proof.
  intros Hdb Hw (Hs & Ht & Hc). split_and!; simpl in *; [done..|].
  intros v Hv. destruct (decide (v = w)) as [->|Hne].
  - right. exists now. by rewrite lookup_insert_eq.
  - destruct (Hdb v Hv) as [->|Hold]; [done|]. rewrite lookup_insert_ne by done. by apply Hc.
Qed.

Lemma knows_later db p now now' born seen sn rm φ : now ≤ now' →
  knows (Build_scavenger db p now born seen sn rm) φ → knows (Build_scavenger db p now' born seen sn rm) φ.
Proof. intros Hn. destruct φ; simpl; try done; naive_solver eauto using since_later. Qed.

Lemma knows_others db db' p now born seen sn rm φ w :
  (∀ v, current_workspace db' v → v = w ∨ current_workspace db v) → born !! w = None →
  directory_of w ∉ seen → knows (Build_scavenger db p now born seen sn rm) φ →
  knows (Build_scavenger db' p now (<[w := now]> born) seen sn rm) φ.
Proof.
  intros Hdb Hw Hseen. destruct φ as [|l|l t n|l t n q m]; simpl; [done|..].
  - intros (? & t0 & ?). split; [done|]. exists t0. by eapply since_others.
  - intros (? & ? & t0 & ? & ?). split_and!; [done..|]. exists t0. split; [by eapply since_others|done].
  - intros (? & ? & (t0 & ? & ?) & Hq & Hb). split_and!; [done..| |done|].
    + exists t0. split; [by eapply since_others|done].
    + intros v b Hv Hlook. apply (Hb v); [done|]. rewrite lookup_insert_ne in Hlook; [done|].
      intros ->. by subst q.
Qed.

(** The phase does not depend on the program. *)
Lemma knows_proc db p p' now born seen sn rm φ :
  knows (Build_scavenger db p now born seen sn rm) φ → knows (Build_scavenger db p' now born seen sn rm) φ.
Proof. by destruct φ. Qed.

Context (Hage : max_age ≤ 2 ^ 63 * 1000000).

(** A directory that was found old is an orphan. *)
Lemma old_is_orphan s l t n p m name w :
  knows s (Old l t n p m) → m ≤ cutoff_before t max_age → p = path_join jobs name →
  parse_uuid name = Some w → w ∉ l → orphan (p, sv_db s).
Proof.
  intros (_ & Ht & (t0 & (_ & _ & Hc) & Hlate) & _ & Hb) Hm Hp Hw Hl. split; [by eauto|].
  intros v Hv Hpv. simpl in Hpv. assert (name = uuid_to_string v) as -> by (eapply path_join_inj; by rewrite <-Hp).
  rewrite parse_uuid_text in Hw. injection Hw as ->.
  destruct (Hc w Hv) as [|(b & Hlook & Ht0)]; [done|].
  specialize (Hb _ _ Hpv Hlook). unfold cutoff_before in Hm.
  destruct (Z.ltb_spec (t - max_age) (- 2 ^ 63 * 1000000)); lia.
Qed.

Lemma scavenge_step_inv s s' : scavenge_step s s' → scavenger_inv s → scavenger_inv s'.
Proof.
  intros Hstep (Hnow & Horph & Hlen & φ & Hk & Hp).
  destruct Hstep as [db p now now' born seen sn rm Hn|db db' p now born seen sn rm w Hdb Hw Hs
    |db k now born seen sn rm x Hx|db k now born seen t0 rm Ht|db p k now born seen sn rm x Hh
    |db p k now born seen sn rm x|db c k now born seen sn rm x Hc|db p k now born seen sn rm x];
    simpl in Hnow, Horph, Hlen, Hp; (split; [simpl; lia|]).
  - split_and!; [done..|]. exists φ. split; [by eapply knows_later|done].
  - split_and!; [done..|]. exists φ. split; [by eapply knows_others|done].
  - destruct Hp as [-> Hgo]. split_and!; [done..|]. eexists. split; [|apply Hgo]. simpl in *.
    destruct Hx as [->|[e ->]]; [|done]. split; [done|]. exists now. split_and!; [done..|apply protected_covers].
  - destruct Hp as (l & -> & Hgo). split_and!; [done..|]. exists (Cut l now 0). split; [|apply Hgo].
    destruct Hk as (Hrm & t1 & (Hs & Ht1 & Hc)). simpl in *. simplify_eq. split_and!; [done|lia|]. by eexists.
  - split_and!; [done..|].
    destruct φ as [|l|l t n|l t n q m0]; [by destruct (Hp x)|by destruct (Hp x)|..];
      (eexists; split; [|apply (Hp x)]); destruct x as [[ty [m|]]|e]; simpl in *;
      destruct_and?; split_and?; try done; try set_solver; intros v b Hv Hb; by eapply Hh.
  - destruct Hp as (l & t & n & m & name & w & -> & Hm & Hn & Hpath & Hparse & Hl & Hgo).
    pose proof (old_is_orphan _ _ _ _ _ _ _ _ Hk Hm Hpath Hparse Hl) as Ho.
    destruct Hk as (Hrm & Ht & Hsince & _). simpl in *. split_and!.
    + apply Forall_app. by split; [|constructor].
    + rewrite length_app. simpl. lia.
    + exists (Cut l t (S n)). split; [|apply Hgo]. simpl. split_and!; [|done|done].
      rewrite length_app. simpl. lia.
  - split_and!; [done..|]. exists φ. split; [by eapply knows_proc|].
    destruct c as [c| | | | | | | |]; try apply (Hp x). destruct c; try apply (Hp x). by destruct (Hc path).
  - split_and!; [done..|]. exists φ. split; [by eapply knows_proc|apply (Hp x)].
Qed.

(** C8: a pass of the reconciliation that runs beside every other transaction asks to remove
    at most [limit] directories, each a directory of the jobs root by the name of an
    identifier, and none of them is at that moment the workspace of an ingest, provided that
    a new workspace is a new identifier whose directory is made after it was drawn, and that
    the pass reads the clock within the retention age of its query. *)
Theorem scavenger_spares_current_workspaces db now sys :
  0 ≤ limit → 0 ≤ now →
  rtc scavenge_step
    (Build_scavenger db (reconcile_workspaces work_root max_age limit) now ∅ ∅ None []) sys →
  Z.of_nat (length (sv_removed sys)) ≤ limit ∧ Forall orphan (sv_removed sys).
Proof.
  intros Hl Hn Hrun.
  assert (scavenger_inv (Build_scavenger db (reconcile_workspaces work_root max_age limit) now ∅ ∅ None []))
    as Hinv by (split_and!; [done|by constructor|done|]; exists Fresh; split; [done|by apply reconcile_wp]).
  assert (scavenger_inv sys) as (_ & ? & ? & _); [|done].
  clear Hn. induction Hrun; eauto using scavenge_step_inv.
Qed.
End Scavenger.
