(* ===== verification/UploadSpec.v ===== *)
(** * UploadSpec: a generation of a media object has at most one message

    How the rows move under everybody else, the invariant of the system of
    [UploadSystem], its preservation by every step, and the theorem. *)

From stdpp Require Import functions.
From S2P Require Import Prelude Enums Jobs Db Queue Instances Proc Preview Library LibraryRepo.
From S2P Require Import LibraryStorage Telegram Cleanup MediaIdentity LibraryInv LibrarySpec.
From S2P Require Import Publisher PublisherRepo PublisherOps Envelope Inbox InboxRepo InboxOps InboxInv.
From S2P Require Import InboxCalls InboxSpec UploadProvider UploadSystem.

(** ** The rows under everybody else *)

Section Rows.
Context {J : Json}.
Implicit Types (r : MediaRow).

(** One media row in a transaction that is not the provider's.  The ingest side may
    also declare a pending object missing, whether or not it is reserved. *)
Inductive row_step : option MediaRow → option MediaRow → Prop :=
| row_same row : row_step row row
| row_moved o d r r' : o ≠ Uploader → upload_move o d r r' → row_step (Some r) (Some r')
| row_missing r r' :
    media_storage_state r = MediaStorageState.Pending →
    upload_ends MediaStorageState.Missing r r' →
    media_storage_generation r' = media_storage_generation r → row_step (Some r) (Some r')
| row_inserted r : new_media_row r → row_step None (Some r).

Lemma upload_same_step r r' : upload_same r r' → row_step (Some r) (Some r').
Proof. intros H. eapply (row_moved Background None); [done|by apply up_same]. Qed.
End Rows.

Section Environment.
Context {J : Json} {P : PayloadSerde} {Sh : JsonShape} {E : EnvelopeSerde} {U : UrlLib}
  {X : SubmissionText} {D : Digests} {G : SubmissionDigest} {It : InboxText} {C : CaseMapping}
  {Im : ImageLib} {Dg : Sha256} {Lt : LibraryText}.
Implicit Types (db : Db) (r : MediaRow) (ck : Clock).

Definition rows_step db db' : Prop := ∀ m, row_step (db_media db !! m) (db_media db' !! m).

Lemma rows_same db db' : db_media db' = db_media db → rows_step db db'.
Proof. intros H m. rewrite H. constructor. Qed.
Lemma rows_side db db1 db' : rows_step db db1 → side_effect db1 db' → rows_step db db'.
Proof. intros H [Hm _ _ _] m. rewrite Hm. apply H. Qed.
Lemma side_rows db db1 db' : side_effect db db1 → rows_step db1 db' → rows_step db db'.
Proof. intros [Hm _ _ _] H m. rewrite <-Hm. apply H. Qed.

(** One row is rewritten. *)
Lemma rows_set db id r r' :
  db_wf db → db_media db !! id = Some r → media_id r' = media_id r →
  row_step (Some r) (Some r') → rows_step db (set_media r' db).
Proof.
  intros Hwf Hr Hid Hstep m. simpl. pose proof (wf_media_key _ Hwf _ _ Hr) as <-. rewrite Hid.
  destruct (decide (media_id r = m)) as [<-|Hne].
  - by rewrite Hr, lookup_insert_eq.
  - rewrite lookup_insert_ne by done. constructor.
Qed.

Lemma library_effect_rows o d db db' :
  o ≠ Uploader → library_effect o d db db' → rows_step db db'.
Proof.
  intros Ho [[Heq|r r' Hr Heq Hc|r Hr Heq Hn _] _ _] m; rewrite Heq; [constructor|..];
    (destruct (decide (media_id r = m)) as [<-|Hne];
      [rewrite Hr, lookup_insert_eq|rewrite lookup_insert_ne by done; constructor]).
  - eapply row_moved; [done|apply Hc].
  - by constructor.
Qed.

Lemma materialize_jobs_side gen rows ck db u db' :
  for_each (λ i, if bool_decide (ingest_requested_action i = RequestedAction.Save) then mret tt
                 else insert_materialization_job (gen (ingest_id i)) (ingest_id i)) rows ck db
    = Ok (u, db') → side_effect db db'.
Proof.
  apply for_each_ok. intros i ck1 db1 u1 db2 H. lib_inv; [done|].
  unfold insert_materialization_job, insert_job in H. by lib_inv.
Qed.

Lemma complete_storage_rows gen gc m ck db n db' :
  complete_storage_for_media gen gc m ck db = Ok (n, db') → db_wf db → rows_step db db'.
Proof.
  unfold complete_storage_for_media. intros H Hwf. txn_inv.
  match goal with H : update_ingests_where _ _ _ _ = Ok _ |- _ =>
    apply update_ingests_where_ok in H as H1; [|done] end.
  match goal with H : for_each _ _ _ _ = Ok _ |- _ => apply materialize_jobs_side in H as H2 end.
  eapply side_rows; [exact H1|]. eapply side_rows; [exact H2|].
  lib_inv; eapply rows_side; [by apply rows_same|done| |done].
  eapply rows_set; [by apply H2, H1|done|done|]. by apply upload_same_step.
Qed.

Lemma fail_storage_rows gc m status code msg ck db n db' :
  fail_storage_for_media gc m status code msg ck db = Ok (n, db') → db_wf db → rows_step db db'.
Proof.
  unfold fail_storage_for_media. intros H Hwf. txn_inv.
  match goal with H : update_ingests_where _ _ _ _ = Ok _ |- _ =>
    apply update_ingests_where_ok in H as H1; [|done] end.
  eapply side_rows; [exact H1|]. clear H.
  lib_inv; try (by apply rows_same).
  - eapply rows_side; [|done]. eapply rows_set; [by apply H1|done|done|].
    apply row_missing; [|done|done]. unfold storage_in in *. by bool_norm.
Qed.
Lemma accept_duplicate_rows f id m ck db a db' :
  accept_duplicate f id m ck db = Ok (a, db') → db_wf db → rows_step db db'.
Proof.
  intros H Hwf k. apply accept_duplicate_media in H as [[-> _]|(q & x & _ & Hx & ->)];
    [constructor| |done].
  destruct (decide (m = k)) as [<-|Hne];
    [rewrite Hx, lookup_insert_eq; by apply upload_same_step|].
  rewrite lookup_insert_ne by done. constructor.
Qed.

Lemma begin_workspace_cleanup_rows l i w ck db a db' :
  begin_workspace_cleanup l i w ck db = Ok (a, db') → db_wf db → rows_step db db'.
Proof.
  unfold begin_workspace_cleanup. intros H Hwf. txn_inv.
  match goal with H : lock_ingest_attempt _ _ _ = _ |- _ =>
    apply lock_ingest_attempt_ok in H as [-> Hl] end.
  branch; [by apply rows_same|]. db_inv.
  branch; [by apply rows_same|]. branch; [by apply rows_same|]. branch; [|by apply rows_same].
  case_match; txn_inv; [|by apply rows_same].
  match goal with H : update_media_where _ _ _ _ _ _ = Ok _ |- _ =>
    apply update_media_where_ok in H as [(_ & -> & _)|(row & Hrow & _ & _ & _ & ->)] end;
    [by apply rows_same|].
  eapply rows_set; [done|done|done|]. by apply upload_same_step.
Qed.

Lemma environment_rows db db' :
  environment_step db db' → db_wf db → db_wf db' ∧ rows_step db db'.
Proof.
  intros [Hm Hwf'|o d Hs Ho|? ? ? ? ? H|? ? ? ? ? ? ? H|? ? ? ? ? H|? ? ? ? ? H] Hwf.
  - split; [done|by apply rows_same].
  - pose proof (library_step_effect _ _ _ _ Hs Hwf) as He.
    split; [apply He|by eapply library_effect_rows].
  - split; [by eapply ic_wf, Hwf; eapply complete_storage_change|by eapply complete_storage_rows].
  - split; [by eapply ic_wf, Hwf; eapply fail_storage_change|by eapply fail_storage_rows].
  - split; [|by eapply accept_duplicate_rows].
    apply accept_duplicate_ok in H as [[-> _]|(_ & H & _)]; [done| |done].
    by eapply ic_wf, Hwf; eapply touched_change.
  - split; [|by eapply begin_workspace_cleanup_rows].
    apply begin_workspace_cleanup_fenced in H as [-> |[_ H]]; [done|].
    by eapply ic_wf, Hwf; eapply touched_change.
Qed.
End Environment.

(** ** The invariant *)

Section Invariant.
Context {J : Json}.
Implicit Types (r : MediaRow) (row : option MediaRow) (log : list stored_message) (tk : gset Uuid).
Implicit Types (i : StorageUploadInput).

Definition tagged (t : Uuid) (e : stored_message) : Prop := sm_token e = t.
Definition generation_of (m : Uuid) (g : Z) : StorageUploadInput :=
  {| ui_media_id := m; ui_generation := g |}.

(** A media row and its messages: at most one in every generation; none in a later
    generation; none in the present one while it can still be reserved; and under a
    reservation only the reserving upload has sent one. *)
Definition row_inv tk (m : Uuid) row log : Prop :=
  (∀ g, (length (messages (generation_of m g) log) ≤ 1)%nat) ∧
  match row with
  | None => ∀ g, messages (generation_of m g) log = []
  | Some r =>
      (∀ g, media_storage_generation r < g → messages (generation_of m g) log = [])
      ∧ (media_storage_state r = MediaStorageState.Pending → media_storage_token r = None →
         messages (generation_of m (media_storage_generation r)) log = [])
      ∧ (∀ t, media_storage_token r = Some t → t ∈ tk
           ∧ Forall (tagged t) (messages (generation_of m (media_storage_generation r)) log))
  end.

(** The upload of [i] was reserved under [t]: it still is, or it can no longer be
    reserved in this generation. *)
Definition reserved_once i (t : Uuid) row : Prop := ∃ r, row = Some r
  ∧ ui_generation i ≤ media_storage_generation r
  ∧ (ui_generation i = media_storage_generation r →
       media_storage_token r = Some t
       ∨ media_storage_token r = None ∧ media_storage_state r ≠ MediaStorageState.Pending)
  ∧ (media_storage_token r = Some t → media_storage_generation r = ui_generation i).

Definition phase_inv tk i (φ : phase) row log : Prop :=
  match φ with
  | Unreserved => True
  | Waiting t => t ∈ tk ∧ reserved_once i t row ∧ messages i log = []
  | Flying t => t ∈ tk ∧ reserved_once i t row ∧ Forall (tagged t) (messages i log)
  | Sent t res =>
      t ∈ tk ∧ reserved_once i t row
      ∧ messages i log = [{| sm_input := i; sm_token := t; sm_result := res |}]
  end.

(** *** Under everybody else *)

Lemma reserved_once_step i t row row' :
  row_step row row' → reserved_once i t row → reserved_once i t row'.
Proof.
  intros Hstep (r & -> & Hle & Heq & Htok).
  inversion Hstep as [x|o d x r' Ho Hm|x r' Hp He Hg|]; simplify_eq; [by exists r|..].
  - exists r'. split; [done|].
    destruct Hm as [(Es & Et & _ & Eg)|? ? ? ? ? ? ? ? ?|? Es Et ? Eg|? ? (Es & Et & _) Eg
      |? ? ? ?|? (Es & Et & _) Eg|? ? (Es & Et & _) Eg|? ? (Es & Et & _) Eg];
      try done; rewrite ?Es, ?Et, ?Eg; split_and!; try done; try lia; intros; by right.
  - exists r'. destruct He as (Es & Et & _). rewrite Es, Et, Hg.
    split_and!; try done. intros. by right.
Qed.

Lemma phase_step tk i φ row row' log :
  row_step row row' → phase_inv tk i φ row log → phase_inv tk i φ row' log.
Proof.
  intros Hs. destruct φ; simpl; intros H; [done|..]; destruct H as (? & ? & ?);
    eauto using reserved_once_step.
Qed.

Lemma row_inv_step tk m row row' log : row_step row row' → row_inv tk m row log → row_inv tk m row' log.
Proof.
  intros Hs [Hlen Hr]. split; [done|].
  destruct Hs as [x|o d r r' Ho Hm|r r' Hp (Es & Et & _) Eg|r Hn]; [done|..].
  - destruct Hr as (Hfut & Hfree & Htok).
    destruct Hm as [(Es & Et & _ & Eg)|? ? ? ? ? ? ? ? ?|? Es Et ? Eg|? ? (Es & Et & _) Eg
      |? ? ? ?|? (Es & Et & _) Eg|? ? (Es & Et & _) Eg|? ? (Es & Et & _) Eg];
      try done; rewrite ?Es, ?Et, ?Eg; split_and!; auto; try done.
    + intros g Hg. apply Hfut. lia.
    + intros _ _. apply Hfut. lia.
  - destruct Hr as (Hfut & _ & _). rewrite Es, Et, Eg. by split_and!.
  - split_and!; auto. rewrite (nr_token _ Hn). done.
Qed.

Lemma row_inv_tokens tk tk' m row log : tk ⊆ tk' → row_inv tk m row log → row_inv tk' m row log.
Proof.
  intros Ht [Hlen Hr]. split; [done|]. destruct row as [r|]; [|done].
  destruct Hr as (? & ? & Htok). split_and!; auto. intros t Hr'.
  destruct (Htok t Hr'). split; [set_solver|done].
Qed.
Lemma phase_tokens tk tk' i φ row log : tk ⊆ tk' → phase_inv tk i φ row log → phase_inv tk' i φ row log.
Proof. intros Ht. destruct φ; simpl; [done|..]; intros (? & ? & ?); split_and!; auto; set_solver. Qed.
End Invariant.

(** ** The invariant of the system *)

Section System.
Context {J : Json} {P : PayloadSerde} {Sh : JsonShape} {E : EnvelopeSerde} {U : UrlLib}
  {X : SubmissionText} {D : Digests} {G : SubmissionDigest} {It : InboxText} {C : CaseMapping}
  {Im : ImageLib} {Dg : Sha256} {Lt : LibraryText}.
Context {Ua : TelegramStorageApi} {Ca : TelegramStorageCaptionApi}.
Context {Du : Display StorageUploadError} {Dl : Display LibraryRepositoryError}.
Context {Di : Display InboxRepositoryError} {Dc : Display CapError}.
Context {delivered : UpError → bool} {Laws : UploadLaws Ua delivered}.
Abbreviation reply := (result HandlerFailure unit).
Implicit Types (db : Db) (ts : gmap nat (thread StorageUploadInput reply)).
Implicit Types (log : list stored_message) (tk : gset Uuid) (Φ : nat → phase).

Record upload_inv db ts log tk Φ : Prop := {
  uv_wf : db_wf db;
  uv_thread n t : ts !! n = Some t →
    follows delivered (th_work t) (Φ n) (th_proc t)
    ∧ phase_inv tk (th_work t) (Φ n) (db_media db !! ui_media_id (th_work t)) log;
  uv_unique n n' t t' : ts !! n = Some t → ts !! n' = Some t' → th_work t = th_work t' →
    Φ n ≠ Unreserved → Φ n' ≠ Unreserved → n = n';
  uv_row m : row_inv tk m (db_media db !! m) log;
}.

(** No other thread holds, or held, the upload [i]. *)
Definition only_uploader ts Φ (i : StorageUploadInput) (n : nat) : Prop := ∀ n' t,
  ts !! n' = Some t → th_work t = i → Φ n' ≠ Unreserved → n' = n.

Lemma uploader_is_only db ts log tk Φ n i t :
  upload_inv db ts log tk Φ → ts !! n = Some (Build_thread i t) → Φ n ≠ Unreserved →
  only_uploader ts Φ i n.
Proof. intros Hv Hn Hi n' t' Hn' Hw Hi'. eapply uv_unique; eauto. Qed.

(** One thread takes a step; what it does to the rows and the log suits the others. *)
Lemma upload_thread_step db db' ts log log' tk tk' Φ n i t t' φ :
  upload_inv db ts log tk Φ → ts !! n = Some (Build_thread i t) → db_wf db' →
  (∀ m, row_inv tk' m (db_media db' !! m) log') →
  (∀ n' x, n' ≠ n → ts !! n' = Some x →
     phase_inv tk' (th_work x) (Φ n') (db_media db' !! ui_media_id (th_work x)) log') →
  φ = Unreserved ∨ only_uploader ts Φ i n →
  follows delivered i φ t' → phase_inv tk' i φ (db_media db' !! ui_media_id i) log' →
  upload_inv db' (<[n := Build_thread i t']> ts) log' tk' (<[n := φ]> Φ).
Proof.
  intros Hv Hn Hwf Hrows Hoth Hone Hf Hph. constructor; [done| | |done].
  - intros n' x Hx. destruct (decide (n' = n)) as [->|Hne].
    + rewrite lookup_insert_eq in Hx. simplify_eq/=. by rewrite fn_lookup_insert.
    + rewrite lookup_insert_ne in Hx by done. rewrite fn_lookup_insert_ne by done.
      split; [by eapply uv_thread|by apply Hoth].
  - intros n1 n2 x1 x2 H1 H2 Hw Hi1 Hi2.
    assert (∀ k x, <[n := Build_thread i t']> ts !! k = Some x → k ≠ n → (<[n := φ]> Φ) k ≠ Unreserved →
      ts !! k = Some x ∧ Φ k ≠ Unreserved) as Hold.
    { intros k x Hk Hne. by rewrite lookup_insert_ne in Hk; [rewrite fn_lookup_insert_ne|]. }
    destruct (decide (n1 = n)) as [->|Hne1], (decide (n2 = n)) as [->|Hne2]; try done.
    + destruct (Hold _ _ H2 Hne2 Hi2) as [H2' Hi2']. rewrite lookup_insert_eq in H1.
      rewrite fn_lookup_insert in Hi1. simplify_eq/=.
      destruct Hone as [?|Hone]; [done|]. symmetry. by eapply Hone.
    + destruct (Hold _ _ H1 Hne1 Hi1) as [H1' Hi1']. rewrite lookup_insert_eq in H2.
      rewrite fn_lookup_insert in Hi2. simplify_eq/=.
      destruct Hone as [?|Hone]; [done|]. by eapply Hone.
    + destruct (Hold _ _ H1 Hne1 Hi1), (Hold _ _ H2 Hne2 Hi2).
      by eapply (uv_unique _ _ _ _ _ Hv).
Qed.

Lemma tokens_step db ts log tk tk' Φ :
  tk ⊆ tk' → upload_inv db ts log tk Φ → upload_inv db ts log tk' Φ.
Proof.
  intros Ht Hv. constructor; [by eapply uv_wf| |by eapply uv_unique|].
  - intros n t Hn. destruct (uv_thread _ _ _ _ _ Hv _ _ Hn). eauto using phase_tokens.
  - intros m. eapply row_inv_tokens; [done|by eapply uv_row].
Qed.

Lemma rows_step_inv db db' ts log tk Φ :
  rows_step db db' → db_wf db' → upload_inv db ts log tk Φ → upload_inv db' ts log tk Φ.
Proof.
  intros Hr Hwf Hv. constructor; [done| |by eapply uv_unique|].
  - intros n t Hn. destruct (uv_thread _ _ _ _ _ Hv _ _ Hn). split; [done|].
    by eapply phase_step.
  - intros m. eapply row_inv_step; [done|by eapply uv_row].
Qed.

(** The thread goes on; the tables and the log are as they were. *)
Lemma upload_quiet_step db ts log tk Φ n i t t' φ :
  upload_inv db ts log tk Φ → ts !! n = Some (Build_thread i t) → follows delivered i φ t' →
  φ = Unreserved ∨ Φ n ≠ Unreserved → phase_inv tk i φ (db_media db !! ui_media_id i) log →
  upload_inv db (<[n := Build_thread i t']> ts) log tk (<[n := φ]> Φ).
Proof.
  intros Hv Hn Hf Hφ Hph. eapply upload_thread_step; eauto using uv_wf, uv_row.
  - intros n' x _ Hx. by eapply uv_thread.
  - destruct Hφ; [by left|right; by eapply uploader_is_only].
Qed.

(** Its phase stays the same. *)
Lemma same_phase_step db ts log tk Φ n i t t' :
  upload_inv db ts log tk Φ → ts !! n = Some (Build_thread i t) → follows delivered i (Φ n) t' →
  upload_inv db (<[n := Build_thread i t']> ts) log tk (<[n := Φ n]> Φ).
Proof.
  intros Hv Hn Hf. eapply upload_quiet_step; [done..| |by eapply (uv_thread _ _ _ _ _ Hv _ _ Hn)].
  destruct (Φ n); auto.
Qed.
End System.

(** ** The provider's own transactions *)

Section Provider.
Context {J : Json} {P : PayloadSerde}.
Implicit Types (db : Db) (r : MediaRow) (ck : Clock).

Lemma reserve_row t m g ck db res db' :
  reserve_storage_upload t m g ck db = Ok (res, db') → db_wf db →
  (db' = db ∧ ∀ m' t' cap, res ≠ Reserved m' t' cap)
  ∨ ∃ r r' cap, res = Reserved m t cap ∧ db_media db !! m = Some r
      ∧ media_storage_state r = MediaStorageState.Pending ∧ media_storage_token r = None
      ∧ media_storage_generation r = g ∧ db_media db' = <[m := r']> (db_media db)
      ∧ media_storage_token r' = Some t ∧ media_storage_generation r' = g.
Proof.
  unfold reserve_storage_upload, storage_in. intros H Hwf. lib_inv; try (by left).
  match goal with H : db_media db !! m = Some _ |- _ =>
    pose proof (wf_media_key _ Hwf _ _ H) as <- end.
  right. eexists _, _, _. split_and!; try done. by destruct (media_storage_token _).
Qed.

Lemma release_row m t ck db u db' :
  release_storage_upload m t ck db = Ok (u, db') → db_wf db →
  db' = db
  ∨ ∃ r r', db_media db !! m = Some r ∧ media_storage_token r = Some t
      ∧ db_media db' = <[m := r']> (db_media db)
      ∧ upload_ends MediaStorageState.Pending r r'
      ∧ media_storage_generation r' = media_storage_generation r.
Proof.
  unfold release_storage_upload, owns_upload. intros H Hwf. lib_inv; [by left|].
  match goal with H : db_media db !! m = Some _ |- _ =>
    pose proof (wf_media_key _ Hwf _ _ H) as <- end.
  right. eexists _, _. by split_and!.
Qed.
End Provider.

Section Steps.
Context {J : Json} {P : PayloadSerde} {Sh : JsonShape} {E : EnvelopeSerde} {U : UrlLib}
  {X : SubmissionText} {D : Digests} {G : SubmissionDigest} {It : InboxText} {C : CaseMapping}
  {Im : ImageLib} {Dg : Sha256} {Lt : LibraryText}.
Context {Ua : TelegramStorageApi} {Ca : TelegramStorageCaptionApi}.
Context {Du : Display StorageUploadError} {Dl : Display LibraryRepositoryError}.
Context {Di : Display InboxRepositoryError} {Dc : Display CapError}.
Context {delivered : UpError → bool} {Laws : UploadLaws Ua delivered}.
Abbreviation reply := (result HandlerFailure unit).
Abbreviation upload_inv := (upload_inv (delivered := delivered)).
Implicit Types (db : Db) (ts : gmap nat (thread StorageUploadInput reply)).
Implicit Types (log : list stored_message) (tk : gset Uuid) (Φ : nat → phase).

Lemma generation_eta i : generation_of (ui_media_id i) (ui_generation i) = i.
Proof. by destruct i. Qed.

(** The holder of a phase was reserved, and its token drawn. *)
Lemma phase_holder tk i φ row log t :
  phase_inv tk i φ row log → holder φ = Some t → t ∈ tk ∧ reserved_once i t row.
Proof. destruct φ; simpl; intros H ?; simplify_eq; by destruct H as (? & ? & _). Qed.
Lemma holder_active φ : φ ≠ Unreserved → ∃ t, holder φ = Some t.
Proof. destruct φ; simpl; eauto; done. Qed.

(** Another upload of the same object, of another generation, keeps its phase when the
    reservation of the row changes hands. *)
Lemma phase_other_row tk i φ r r' log :
  phase_inv tk i φ (Some r) log → (∀ t, holder φ = Some t → media_storage_token r' ≠ Some t) →
  ui_generation i ≠ media_storage_generation r →
  media_storage_generation r' = media_storage_generation r →
  phase_inv tk i φ (Some r') log.
Proof.
  intros Hph Hne Hg Eg.
  assert (∀ t', holder φ = Some t' → reserved_once i t' (Some r')) as Hres.
  { intros t' Ht'. destruct (phase_holder _ _ _ _ _ _ Hph Ht') as (_ & x & [= <-] & Hle & _ & _).
    exists r'. rewrite Eg. split_and!; try done. intros Htr. by destruct (Hne t' Ht'). }
  destruct φ; simpl in *; [done|..]; destruct Hph as (? & _ & ?); split_and!; auto.
Qed.

Lemma reserve_moves db ts log tk Φ n i t t' φ su ck cap db' :
  upload_inv db ts log tk Φ → ts !! n = Some (Build_thread i t) →
  reserve_storage_upload su (ui_media_id i) (ui_generation i) ck db
    = Ok (Reserved (ui_media_id i) su cap, db') →
  su ∉ tk → φ = Unreserved ∨ φ = Waiting su → follows delivered i φ t' →
  upload_inv db' (<[n := Build_thread i t']> ts) log ({[su]} ∪ tk) (<[n := φ]> Φ).
Proof.
  intros Hv Hn Hr Hsu Hφ Hf. pose proof (uv_wf _ _ _ _ _ Hv) as Hwf.
  pose proof (le_wf _ _ _ _ (reserve_storage_upload_effect _ _ _ _ _ _ _ Hr Hwf)) as Hwf'.
  apply reserve_row in Hr as [[_ Hno]|(r & r' & cap' & _ & Hrow & Hp & Ht & Hg & Hm & Ht' & Hg')];
    [by destruct (Hno _ _ _ eq_refl)| |done].
  apply (tokens_step _ _ _ _ ({[su]} ∪ tk)) in Hv as Hv'; [|set_solver].
  pose proof (uv_row _ _ _ _ _ Hv' (ui_media_id i)) as Hri. rewrite Hrow in Hri.
  destruct Hri as (Hlen & Hfut & Hfree & _). specialize (Hfree Hp Ht).
  assert (∀ m, m ≠ ui_media_id i → db_media db' !! m = db_media db !! m) as Hother.
  { intros m Hne. by rewrite Hm, lookup_insert_ne. }
  assert (db_media db' !! ui_media_id i = Some r') as Hnew by by rewrite Hm, lookup_insert_eq.
  eapply (upload_thread_step db db' ts log log ({[su]} ∪ tk)); try done.
  - intros m. destruct (decide (m = ui_media_id i)) as [->|Hne].
    + rewrite Hnew. split; [done|]. rewrite Hg'. rewrite Hg in *. split_and!; [done| |].
      * intros _ Hnone. congruence.
      * intros x Hx. simplify_eq. split; [set_solver|]. by rewrite Hfree.
    + rewrite Hother by done. by eapply uv_row.
  - intros n' x Hne Hx. destruct (uv_thread _ _ _ _ _ Hv' _ _ Hx) as [_ Hph].
    destruct (decide (ui_media_id (th_work x) = ui_media_id i)) as [Hw|Hw];
      [|by rewrite Hother].
    rewrite Hw in *. rewrite Hnew. rewrite Hrow in Hph.
    destruct (decide (Φ n' = Unreserved)) as [->|Hact]; [done|].
    eapply phase_other_row; [exact Hph| | |congruence].
    + intros tx Htx. rewrite Ht'. intros [= ->]. destruct (uv_thread _ _ _ _ _ Hv _ _ Hx) as [_ Hph0].
      by destruct (phase_holder _ _ _ _ _ _ Hph0 Htx).
    + intros Heq. destruct (holder_active _ Hact) as [tx Htx].
      destruct (phase_holder _ _ _ _ _ _ Hph Htx) as (_ & y & [= <-] & _ & Hcase & _).
      destruct (Hcase Heq) as [?|[_ ?]]; congruence.
  - destruct Hφ as [->| ->]; [by left|right]. intros n' x Hx Hw Hact. exfalso.
    destruct (uv_thread _ _ _ _ _ Hv _ _ Hx) as [_ Hph]. rewrite Hw, Hrow in Hph.
    destruct (holder_active _ Hact) as [tx Htx].
    destruct (phase_holder _ _ _ _ _ _ Hph Htx) as (_ & y & [= <-] & _ & Hcase & _).
    destruct (Hcase (eq_sym Hg)) as [?|[_ ?]]; congruence.
  - destruct Hφ as [->| ->]; [done|]. simpl. split; [set_solver|]. split.
    + exists r'. rewrite Hg'. split_and!; auto. lia.
    + rewrite <-(generation_eta i), <-Hg. exact Hfree.
Qed.
Lemma release_moves db ts log tk Φ n i t t' tok ck u db' :
  upload_inv db ts log tk Φ → ts !! n = Some (Build_thread i t) → Φ n = Waiting tok →
  release_storage_upload (ui_media_id i) tok ck db = Ok (u, db') → follows delivered i Unreserved t' →
  upload_inv db' (<[n := Build_thread i t']> ts) log tk (<[n := Unreserved]> Φ).
Proof.
  intros Hv Hn Hi Hr Hf. pose proof (uv_wf _ _ _ _ _ Hv) as Hwf.
  pose proof (le_wf _ _ _ _ (release_storage_upload_effect _ _ _ _ _ _ Hr Hwf)) as Hwf'.
  destruct (uv_thread _ _ _ _ _ Hv _ _ Hn) as [_ Hph]. rewrite Hi in Hph. simpl in Hph.
  destruct Hph as (_ & (r0 & Hr0 & _ & _ & Hgen) & Hnil).
  apply release_row in Hr as [->|(r & r' & Hrow & Ht & Hm & (Es & Et & _) & Eg)]; [| |done].
  { eapply upload_quiet_step; eauto. done. }
  simplify_eq. specialize (Hgen Ht).
  pose proof (uv_row _ _ _ _ _ Hv (ui_media_id i)) as Hri. rewrite Hrow in Hri.
  destruct Hri as (Hlen & Hfut & _ & _).
  assert (∀ m, m ≠ ui_media_id i → db_media db' !! m = db_media db !! m) as Hother.
  { intros m Hne. by rewrite Hm, lookup_insert_ne. }
  assert (db_media db' !! ui_media_id i = Some r') as Hnew by by rewrite Hm, lookup_insert_eq.
  assert (only_uploader ts Φ i n) as Honly by (eapply uploader_is_only; [done..|by rewrite Hi]).
  eapply (upload_thread_step db db' ts log log tk); try done; [| |by left].
  - intros m. destruct (decide (m = ui_media_id i)) as [->|Hne].
    + rewrite Hnew. split; [done|]. rewrite Eg, Hgen, Et, (generation_eta i) in *. by split_and!.
    + rewrite Hother by done. by eapply uv_row.
  - intros n' x Hne Hx. destruct (uv_thread _ _ _ _ _ Hv _ _ Hx) as [_ Hph].
    destruct (decide (ui_media_id (th_work x) = ui_media_id i)) as [Hw|Hw];
      [|by rewrite Hother].
    rewrite Hw in *. rewrite Hnew. rewrite Hrow in Hph.
    destruct (decide (Φ n' = Unreserved)) as [->|Hact]; [done|].
    eapply phase_other_row; [exact Hph|by rewrite Et| |done].
    intros Heq. apply Hne, (Honly _ _ Hx); [|done].
    destruct (th_work x), i; simpl in *; congruence.
Qed.

(** *** The log *)

Lemma messages_app i log new : messages i (log ++ new) = messages i log ++ messages i new.
Proof.
  unfold messages. induction log as [|e log IH]; [done|]. simpl.
  rewrite !filter_cons. case_decide; simpl; by rewrite IH.
Qed.

Lemma messages_none i e : sm_input e ≠ i → messages i [e] = [].
Proof. intros H. unfold messages. by rewrite filter_cons_False. Qed.
Lemma messages_one i e : sm_input e = i → messages i [e] = [e].
Proof. intros H. unfold messages. by rewrite filter_cons_True. Qed.

Lemma undelivered_nil i t log :
  undelivered t log → Forall (tagged t) (messages i log) → messages i log = [].
Proof.
  intros Hu Ht. destruct (messages i log) as [|e l] eqn:Hm; [done|].
  apply Forall_cons in Ht as [Ht _].
  assert (e ∈ log) as He. { eapply list_elem_of_filter. unfold messages in Hm. rewrite Hm. set_solver. }
  unfold undelivered in Hu. rewrite Forall_forall in Hu. by destruct (Hu _ He).
Qed.

Lemma dispatch_moves db ts log tk Φ n i t t' tok new :
  upload_inv db ts log tk Φ → ts !! n = Some (Build_thread i t) → Φ n = Waiting tok →
  new = [] ∨ (∃ res, new = [{| sm_input := i; sm_token := tok; sm_result := res |}]) →
  follows delivered i (Flying tok) t' →
  upload_inv db (<[n := Build_thread i t']> ts) (log ++ new) tk (<[n := Flying tok]> Φ).
Proof.
  intros Hv Hn Hi Hnew Hf.
  assert (only_uploader ts Φ i n) as Honly by (eapply uploader_is_only; [done..|by rewrite Hi]).
  destruct (uv_thread _ _ _ _ _ Hv _ _ Hn) as [_ Hph]. rewrite Hi in Hph. simpl in Hph.
  destruct Hph as (Htk & Hres & Hnil).
  assert (∀ j, j ≠ i → messages j (log ++ new) = messages j log) as Hother.
  { intros j Hne. rewrite messages_app. destruct Hnew as [->|[res ->]]; [by rewrite app_nil_r|].
    rewrite messages_none, app_nil_r; [done|]. simpl. congruence. }
  assert (messages i (log ++ new) = new) as Hown.
  { rewrite messages_app, Hnil. by destruct Hnew as [->|[res ->]]; [|rewrite messages_one]. }
  assert (Forall (tagged tok) new ∧ (length new ≤ 1)%nat) as [Htag Hle].
  { destruct Hnew as [->|[res ->]]; (split; [by repeat constructor|simpl; lia]). }
  eapply (upload_thread_step db db ts log _ tk); try done; [by eapply uv_wf| | |by right|].
  - intros m. destruct (uv_row _ _ _ _ _ Hv m) as [Hlen Hrow]. split.
    + intros g. destruct (decide (generation_of m g = i)) as [->|Hne]; [by rewrite Hown|].
      by rewrite Hother.
    + destruct Hres as (r & Hr & Hge & Hcase & Htok).
      destruct (decide (m = ui_media_id i)) as [->|Hne].
      * rewrite Hr in *. destruct Hrow as (Hfut & Hfree & Hres').
        destruct (decide (ui_generation i = media_storage_generation r)) as [Hg|Hg].
        { rewrite <-Hg, (generation_eta i) in *. rewrite Hown. split_and!.
          - intros g Hlt. rewrite Hother; [by apply Hfut|].
            intros He. apply (f_equal ui_generation) in He. simpl in He. lia.
          - intros Hp Hnone. destruct (Hcase eq_refl) as [?|[_ ?]]; congruence.
          - intros x Hx. destruct (Hres' x Hx) as [Hin _]. split; [done|].
            destruct (Hcase eq_refl) as [Hc|[Hc _]]; rewrite Hc in Hx; by simplify_eq. }
        { assert (∀ g, g ≠ ui_generation i →
            messages (generation_of (ui_media_id i) g) (log ++ new)
            = messages (generation_of (ui_media_id i) g) log) as Hgen.
          { intros g Hne. apply Hother. intros He. by apply (f_equal ui_generation) in He. }
          rewrite !Hgen by done. split_and!; auto. intros g Hlt. rewrite Hgen by lia. auto. }
      * assert (∀ g, messages (generation_of m g) (log ++ new) = messages (generation_of m g) log)
          as Hgen.
        { intros g. apply Hother. intros He. by apply (f_equal ui_media_id) in He. }
        destruct (db_media db !! m) as [x|]; [|intros g; by rewrite Hgen].
        destruct Hrow as (? & ? & ?). rewrite !Hgen. split_and!; auto.
        intros g Hlt. rewrite Hgen. auto.
  - intros n' x Hne Hx. destruct (uv_thread _ _ _ _ _ Hv _ _ Hx) as [_ Hphx].
    destruct (decide (Φ n' = Unreserved)) as [->|Hact]; [done|].
    assert (th_work x ≠ i) as Hw by (intros Hw; by apply Hne, (Honly _ _ Hx)).
    destruct (Φ n'); simpl in *; [done|..]; by rewrite Hother.
  - simpl. by rewrite Hown.
Qed.
(** *** What the loop sees *)

Lemma message_found i t res log :
  (length (messages i log) ≤ 1)%nat →
  {| sm_input := i; sm_token := t; sm_result := res |} ∈ log →
  messages i log = [{| sm_input := i; sm_token := t; sm_result := res |}].
Proof.
  intros Hlen Hin.
  assert ({| sm_input := i; sm_token := t; sm_result := res |} ∈ messages i log) as Hm.
  { by apply list_elem_of_filter. }
  destruct (messages i log) as [|e [|e' l]]; simpl in Hlen; [set_solver| |lia].
  apply list_elem_of_singleton in Hm. by rewrite Hm.
Qed.

Lemma undelivered_waiting tk i t row log :
  undelivered t log → phase_inv tk i (Flying t) row log → phase_inv tk i (Waiting t) row log.
Proof. intros Hu (? & ? & ?). simpl. split_and!; try done. by eapply undelivered_nil. Qed.

Lemma answered_phase tk i t row log r :
  (length (messages i log) ≤ 1)%nat → agrees delivered i t log r →
  phase_inv tk i (Flying t) row log →
  phase_inv tk i (match r with Ok res => Sent t res | Err e => after_error delivered t e end) row log.
Proof.
  intros Hlen Ha Hph. destruct r as [res|e]; simpl in Ha.
  - destruct Hph as (? & ? & _). simpl. split_and!; try done. by apply message_found.
  - unfold after_error. destruct (delivered e); [done|]. apply undelivered_waiting; auto.
Qed.

(** The phase the loop goes on in. *)
Lemma flight_step db ts log tk Φ n i t tok t' φ :
  upload_inv db ts log tk Φ → ts !! n = Some (Build_thread i t) → Φ n = Flying tok →
  (phase_inv tk i (Flying tok) (db_media db !! ui_media_id i) log →
   (length (messages i log) ≤ 1)%nat → phase_inv tk i φ (db_media db !! ui_media_id i) log) →
  follows delivered i φ t' →
  upload_inv db (<[n := Build_thread i t']> ts) log tk (<[n := φ]> Φ).
Proof.
  intros Hv Hn Hi Hφ Hf. destruct (uv_thread _ _ _ _ _ Hv _ _ Hn) as [_ Hph].
  rewrite Hi in Hph. eapply upload_quiet_step; [done..|right; by rewrite Hi|]. apply Hφ; [done|].
  destruct (uv_row _ _ _ _ _ Hv (ui_media_id i)) as [Hlen _].
  specialize (Hlen (ui_generation i)). by rewrite generation_eta in Hlen.
Qed.

Lemma select_step db ts log tk Φ n i tok k e :
  upload_inv db ts log tk Φ → ts !! n = Some (Build_thread i (Ask (USelect tok) k)) →
  event_agrees delivered i tok log e →
  ∃ φ, upload_inv db (<[n := Build_thread i (k e)]> ts) log tk (<[n := φ]> Φ).
Proof.
  intros Hv Hn Ha. destruct (uv_thread _ _ _ _ _ Hv _ _ Hn) as [Hf _].
  destruct Hf as (Hi & Hc0 & Hc1 & Ht & Hok & Herr). simpl in Hi.
  destruct e as [[]|r|].
  - exists (Flying tok). by eapply flight_step.
  - exists (Waiting tok). eapply flight_step; [done..| |done].
    intros Hph _. by apply undelivered_waiting; [apply Ha|].
  - eexists. eapply flight_step; [done..| |].
    + intros Hph Hlen. by eapply answered_phase.
    + destruct r; [apply Hok|apply Herr].
  - exists (Flying tok). by eapply flight_step.
Qed.

Lemma await_step db ts log tk Φ n i tok k e :
  upload_inv db ts log tk Φ → ts !! n = Some (Build_thread i (Ask (UAwait tok) k)) →
  end_agrees delivered i tok log e →
  ∃ φ, upload_inv db (<[n := Build_thread i (k e)]> ts) log tk (<[n := φ]> Φ).
Proof.
  intros Hv Hn Ha. destruct (uv_thread _ _ _ _ _ Hv _ _ Hn) as [Hf _].
  destruct Hf as (Hi & Hc0 & Hc1 & Hok & Herr). simpl in Hi.
  destruct e as [[]|r].
  - exists (Flying tok). by eapply flight_step.
  - exists (Waiting tok). eapply flight_step; [done..| |done].
    intros Hph _. by apply undelivered_waiting; [apply Ha|].
  - eexists. eapply flight_step; [done..| |].
    + intros Hph Hlen. by eapply answered_phase.
    + destruct r; [apply Hok|apply Herr].
Qed.
(** *** Repository calls *)

(** A transaction that suits every other upload. *)
Definition suits db db' : Prop := db_wf db' ∧ rows_step db db'.

Lemma suits_refl db : db_wf db → suits db db.
Proof. intros. split; [done|by apply rows_same]. Qed.
Lemma suits_background d db db' : library_effect Background d db db' → suits db db'.
Proof. intros He. split; [apply He|]. eapply library_effect_rows; [|exact He]. done. Qed.

Lemma suits_run {Er A} (m : txn Db Er A) ck db x db' :
  run_txn m ck db = (x, db') → db_wf db → (∀ a, m ck db = Ok (a, db') → suits db db') →
  suits db db'.
Proof. intros [->|(a & _ & Ha)]%run_txn_cases Hwf Hm; [by apply suits_refl|eauto]. Qed.

(** The calls that neither reserve nor release. *)
Lemma exec_suits su c db x db' :
  exec_storage su c db = Some (x, db') → db_wf db →
  match c with UReserve _ _ | URelease _ _ => False | _ => True end → suits db db'.
Proof.
  intros Hx Hwf Hc. destruct c; try done; simpl in Hx;
    try (injection Hx as Hx; apply (suits_run _ _ _ _ _ Hx Hwf); intros a Ha).
  - unfold find_media in Ha. assert (db' = db) as ->; [|by apply suits_refl].
    lib_inv. by repeat case_match; lib_inv.
  - unfold find_storage_receipt in Ha. assert (db' = db) as ->; [|by apply suits_refl].
    lib_inv. by repeat case_match; lib_inv.
  - unfold find_media_preview in Ha. assert (db' = db) as ->; [|by apply suits_refl].
    by lib_inv.
  - eapply suits_background, renew_storage_upload_effect; eauto.
  - eapply suits_background, mark_upload_unknown_effect; eauto.
  - destruct (complete_storage_upload _ _ _ _ _ _ _) as [r d] eqn:Hco. simplify_eq.
    unfold complete_storage_upload in Hco.
    apply commit_then_state in Hco as [->|(row & _ & Hrow)]; [by apply suits_refl|].
    eapply suits_background, complete_storage_upload_effect; eauto.
  - split; [by eapply ic_wf, Hwf; eapply complete_storage_change|by eapply complete_storage_rows].
  - split; [by eapply ic_wf, Hwf; eapply fail_storage_change|by eapply fail_storage_rows].
  - eapply suits_background, begin_caption_sync_effect; eauto.
  - eapply suits_background, complete_caption_sync_effect; eauto.
Qed.

Lemma suits_inv db d ts log tk tk' Φ :
  suits db d → tk ⊆ tk' → upload_inv db ts log tk Φ → upload_inv d ts log tk' Φ.
Proof. intros [Hwf Hr] Ht Hv. eapply tokens_step; [done|]. by eapply rows_step_inv. Qed.

(** What a program sees of a repository call that commits [db']. *)
Definition seen {c : call} (x : answer c) db db' (y : answer c) d : Prop :=
  (y = x ∧ d = db') ∨ unanswered c y ∧ (d = db ∨ d = db').

Lemma reserve_call db ts log tk Φ n i m g k su x db' y d :
  upload_inv db ts log tk Φ → ts !! n = Some (Build_thread i (Ask (UReserve m g) k)) →
  exec_storage su (UReserve m g) db = Some (x, db') → ss_token su ∉ tk →
  seen (c := UReserve m g) x db db' y d →
  ∃ φ, upload_inv d (<[n := Build_thread i (k y)]> ts) log ({[ss_token su]} ∪ tk) (<[n := φ]> Φ).
Proof.
  intros Hv Hn [= Hx] Hsu Hy. destruct (uv_thread _ _ _ _ _ Hv _ _ Hn) as [Hf _].
  destruct Hf as (Hi & Hm & Hg & Hok & Helse). simpl in *. subst m g.
  pose proof (uv_wf _ _ _ _ _ Hv) as Hwf.
  assert (∀ t', follows delivered i Unreserved t' → ∃ φ,
    upload_inv db (<[n := Build_thread i t']> ts) log ({[ss_token su]} ∪ tk) (<[n := φ]> Φ)) as Hquiet.
  { intros t' Ht. exists Unreserved. eapply upload_quiet_step; [|done|done|by left|done].
    eapply tokens_step; [|done]. set_solver. }
  assert (∀ s, follows delivered i Unreserved (k (Err s))) as Herr by (intros s; by apply Helse).
  apply run_txn_inv in Hx as [(a & -> & Ha)|(err & -> & ->)].
  - pose proof Ha as Ha'. apply reserve_row in Ha' as [[-> Hno]|(r & r' & cap & -> & _)]; [| |done].
    + destruct Hy as [[-> ->]|[[s ->] [-> | ->]]]; apply Hquiet; [|apply Herr..].
      apply Helse. intros m' t' cap [= ->]. by eapply Hno.
    + destruct Hy as [[-> ->]|[[s ->] [-> | ->]]].
      * exists (Waiting (ss_token su)). eapply reserve_moves; eauto. apply Hok.
      * by apply Hquiet.
      * exists Unreserved. eapply reserve_moves; eauto.
  - destruct Hy as [[-> ->]|[[s ->] [-> | ->]]]; by apply Hquiet.
Qed.

Lemma release_call db ts log tk Φ n i m t k su x db' y d :
  upload_inv db ts log tk Φ → ts !! n = Some (Build_thread i (Ask (URelease m t) k)) →
  exec_storage su (URelease m t) db = Some (x, db') →
  seen (c := URelease m t) x db db' y d →
  ∃ φ, upload_inv d (<[n := Build_thread i (k y)]> ts) log ({[ss_token su]} ∪ tk) (<[n := φ]> Φ).
Proof.
  intros Hv Hn [= Hx] Hy. destruct (uv_thread _ _ _ _ _ Hv _ _ Hn) as [Hf _].
  destruct Hf as (Hm & Hi & Hf). simpl in *. subst m. exists Unreserved.
  eapply (tokens_step _ _ _ tk); [set_solver|].
  assert (d = db ∨ d = db') as Hd by (destruct Hy as [[_ ->]|[_ ?]]; auto).
  apply run_txn_cases in Hx as [->|(a & _ & Ha)].
  - assert (d = db) as -> by naive_solver. eapply upload_quiet_step; [done..|apply Hf|by left|done].
  - destruct Hd as [->| ->].
    + eapply upload_quiet_step; [done..|apply Hf|by left|done].
    + eapply release_moves; [done..|apply Hf].
Qed.

Lemma storage_call_step db ts log tk Φ n i c k su x db' y d :
  upload_inv db ts log tk Φ → ts !! n = Some (Build_thread i (Ask c k)) →
  exec_storage su c db = Some (x, db') → ss_token su ∉ tk → seen x db db' y d →
  ∃ φ, upload_inv d (<[n := Build_thread i (k y)]> ts) log ({[ss_token su]} ∪ tk) (<[n := φ]> Φ).
Proof.
  intros Hv Hn Hx Hsu Hy. pose proof (uv_wf _ _ _ _ _ Hv) as Hwf.
  destruct (uv_thread _ _ _ _ _ Hv _ _ Hn) as [Hf _].
  assert (match c with UReserve _ _ | URelease _ _ => False | _ => True end →
    upload_inv d ts log ({[ss_token su]} ∪ tk) Φ) as Hd.
  { intros Hc. pose proof (exec_suits _ _ _ _ _ Hx Hwf Hc) as Hs.
    eapply (suits_inv db d ts log tk); [|set_solver|done].
    destruct Hy as [[_ ->]|[_ [->| ->]]]; auto using suits_refl. }
  destruct c; try done; try (exists (Φ n); eapply same_phase_step; [by apply Hd|done|apply Hf]).
  - by eapply reserve_call.
  - by eapply release_call.
  - destruct Hf as (_ & _ & Hf). exists Unreserved.
    eapply upload_quiet_step; [by apply Hd|done|apply Hf|by left|done].
  - destruct Hf as (_ & r & Hi & _ & Hok & Hnone & Herr). simpl in Hi.
    destruct y as [[receipt|e]|].
    + exists Unreserved. eapply upload_quiet_step; [by apply Hd|done|apply Hok|by left|done].
    + exists (Φ n). eapply same_phase_step; [by apply Hd|done|apply Herr].
    + exists (Φ n). eapply same_phase_step; [by apply Hd|done|apply Hnone].
Qed.

(** *** Threads come and go *)

Lemma start_step db ts log tk Φ n t pv ticks job :
  upload_inv db ts log tk Φ → ts !! n = None → storage_handler pv ticks job = Some t →
  upload_inv db (<[n := t]> ts) log tk (<[n := Unreserved]> Φ).
Proof.
  intros Hv Hn Ht. assert (follows delivered (th_work t) Unreserved (th_proc t)) as Hf.
  { unfold storage_handler in Ht. destruct (jb_command job) eqn:Hj; simplify_eq/=;
      [by eapply upload_storage_asset_follows|by apply sync_storage_caption_follows]. }
  constructor; [by eapply uv_wf| | |by eapply uv_row].
  - intros n' x Hx. destruct (decide (n' = n)) as [->|Hne].
    + rewrite lookup_insert_eq in Hx. simplify_eq. by rewrite fn_lookup_insert.
    + rewrite lookup_insert_ne in Hx by done. rewrite fn_lookup_insert_ne by done.
      by eapply uv_thread.
  - intros n1 n2 x1 x2 H1 H2 Hw Hi1 Hi2.
    destruct (decide (n1 = n)) as [->|]; [by rewrite fn_lookup_insert in Hi1|].
    destruct (decide (n2 = n)) as [->|]; [by rewrite fn_lookup_insert in Hi2|].
    rewrite lookup_insert_ne in H1, H2 by done. rewrite fn_lookup_insert_ne in Hi1, Hi2 by done.
    by eapply (uv_unique _ _ _ _ _ Hv).
Qed.

Lemma crash_step db ts log tk Φ n :
  upload_inv db ts log tk Φ → upload_inv db (delete n ts) log tk Φ.
Proof.
  intros Hv. constructor; [by eapply uv_wf| | |by eapply uv_row].
  - intros n' x [_ Hx]%lookup_delete_Some. by eapply uv_thread.
  - intros n1 n2 x1 x2 [_ H1]%lookup_delete_Some [_ H2]%lookup_delete_Some.
    by eapply (uv_unique _ _ _ _ _ Hv).
Qed.

Definition system_inv (s : storage_system) : Prop :=
  ∃ Φ, upload_inv (st_db s) (st_threads s) (st_log s) (st_tokens s) Φ.

Lemma storage_step_inv s s' : storage_step delivered s s' → system_inv s → system_inv s'.
Proof.
  intros Hs [Φ Hv]. destruct Hs as [db db' ts log tk He|db ts log tk n pv ticks job t Hn Ht
    |db ts log tk n i c k su x db' y d Hn Hx Hsu Hy|db ts log tk n i c k y Hn Hc
    |db ts log tk n i t q k new Hn Hnew|db ts log tk n i t k e Hn Ha|db ts log tk n i t k e Hn Ha
    |db ts log tk n]; unfold system_inv; simpl in *.
  - exists Φ. apply environment_rows in He as [? ?]; [|by eapply uv_wf]. by eapply rows_step_inv.
  - eexists. by eapply start_step.
  - destruct (storage_call_step _ _ _ _ _ _ _ _ _ _ _ _ _ _ Hv Hn Hx Hsu Hy) as [φ ?]. by eexists.
  - exists (<[n := Φ n]> Φ). eapply same_phase_step; [done..|].
    destruct (uv_thread _ _ _ _ _ Hv _ _ Hn) as [Hf _]. destruct c; try done; apply Hf.
  - destruct (uv_thread _ _ _ _ _ Hv _ _ Hn) as [[Hi Hf] _]. simpl in Hi.
    exists (<[n := Flying t]> Φ). by eapply dispatch_moves.
  - destruct (select_step _ _ _ _ _ _ _ _ _ _ Hv Hn Ha) as [φ ?]. by eexists.
  - destruct (await_step _ _ _ _ _ _ _ _ _ _ Hv Hn Ha) as [φ ?]. by eexists.
  - exists Φ. by apply crash_step.
Qed.

Lemma storage_steps_inv s s' : rtc (storage_step delivered) s s' → system_inv s → system_inv s'.
Proof. induction 1; eauto using storage_step_inv. Qed.

(** Before the first upload. *)
Definition storage_initial (s : storage_system) : Prop :=
  db_wf (st_db s) ∧ st_threads s = ∅ ∧ st_log s = []
  ∧ map_Forall (λ _ r, ∀ t, media_storage_token r = Some t → t ∈ st_tokens s) (db_media (st_db s)).

Lemma storage_initial_inv s : storage_initial s → system_inv s.
Proof.
  intros (Hwf & Hts & Hlog & Htok). exists (λ _, Unreserved). rewrite Hts, Hlog.
  constructor; try done. intros m. split; [simpl; lia|].
  destruct (db_media (st_db s) !! m) as [r|] eqn:Hr; [|done]. split_and!; try done.
  intros t Ht. split; [by eapply Htok|done].
Qed.

(** C2: an object is stored at most once.  The handlers of the storage jobs are started
    any number of times and in any interleaving, with each other and with every other
    transaction that may write a media row; each may be cut off at any call; every call
    to the repository may be answered by a connection error, committed or not; a request
    may be delivered although its answer is an error, provided that error is one the
    adapter calls ambiguous.  In every reachable state every generation of every media
    object has at most one message in the storage chat, and a generation that may still
    be reserved, or is still to come, has none. *)
Theorem generation_has_at_most_one_message s s' i :
  storage_initial s → rtc (storage_step delivered) s s' →
  (length (messages i (st_log s')) ≤ 1)%nat
  ∧ ∀ r, db_media (st_db s') !! ui_media_id i = Some r →
    media_storage_generation r < ui_generation i
    ∨ media_storage_generation r = ui_generation i
      ∧ media_storage_state r = MediaStorageState.Pending ∧ media_storage_token r = None →
    messages i (st_log s') = [].
Proof.
  intros Hs Hrun. apply storage_initial_inv in Hs.
  destruct (storage_steps_inv _ _ Hrun Hs) as [Φ Hv].
  destruct (uv_row _ _ _ _ _ Hv (ui_media_id i)) as [Hlen Hrow].
  rewrite <-(generation_eta i). split; [apply Hlen|]. simpl. intros r Hr Hcase. rewrite Hr in Hrow.
  destruct Hrow as (Hfut & Hfree & _). destruct Hcase as [Hlt|(Hg & Hp & Ht)]; [by apply Hfut|].
  rewrite <-Hg. by apply Hfree.
Qed.
End Steps.
