(* ===== verification/InboxWitness.v ===== *)
(** * InboxWitness: the ingest claims at concrete requests

    Creation, a stage under its lease and a duplicate decision; an inspection handler that
    runs to its end, and a pass of the scavenger. *)

From S2P Require Import Prelude Text Enums Jobs Db Queue Instances QueueSpec Envelope EnvelopeSpec Cleanup.
From S2P Require Import Preview Library LibraryRepo LibraryStorage MediaIdentity IdentityWitness.
From S2P Require Import Publisher PublisherRepo PublisherOps PublisherDemo Inbox InboxRepo InboxOps.
From S2P Require Import InboxInv InboxCalls InboxSpec Proc Normalize Execute Download UploadProvider Workspace.
From S2P Require Import IngestWorker IngestWorkerSpec.

#[global] Instance demo_submission_digest : SubmissionDigest :=
  {| legacy_submission_json _ s := sub_original_url s |}.
#[global] Instance demo_inbox_text : InboxText :=
  {| debug_str s := s; debug_error _ := lit "error" |}.
Definition demo_revision (l : list (Uuid * Z)) : Str := lit "revision".

#[global] Instance ingest_eq_dec : EqDecision (@Ingest demo_json).
Proof. solve_decision. Defined.
#[global] Instance create_result_eq_dec : EqDecision (@CreateIngestResult demo_json).
Proof. solve_decision. Defined.
#[global] Instance force_save_result_eq_dec : EqDecision (@ForceSaveResult demo_json).
Proof. solve_decision. Defined.
#[global] Instance accept_result_eq_dec : EqDecision (@AcceptDuplicateResult demo_json).
Proof. solve_decision. Defined.

(** ** A submission *)

Definition demo_submission (url : Str) : IngestSubmission :=
  {| sub_kind := IngestKind.Url; sub_submitted_via := SubmittedVia.Api; sub_original_url := url;
     sub_normalized_url := url; sub_original_input := of_object {[ lit "url" := of_str url ]};
     sub_page_url := None; sub_page_title := None; sub_supplied_caption := None;
     sub_supplied_description := Some (lit "a cat"); sub_supplied_tags := [lit "cat"];
     sub_requested_action := RequestedAction.Save; sub_requested_publish_at := None;
     sub_requested_post_caption := None; sub_idempotency_key := Some (lit "key-1") |}.
Definition demo_url : Str := lit "https://example.org/cat.mp4".

Definition demo_creation := create_ingest_at 1 2 (demo_submission demo_url) 100.
Definition demo_created_db : Db := (run_txn demo_creation (demo_clock 100) empty_db).2.
Definition demo_created : option CreateIngestResult :=
  match demo_creation (demo_clock 100) empty_db with Ok (r, _) => Some r | Err _ => None end.

Lemma creation_runs : ∃ r, demo_creation (demo_clock 100) empty_db = Ok (r, demo_created_db)
  ∧ ig_id (cr_ingest r) = 1%N.
Proof.
  destruct demo_created as [r|] eqn:Hr; [|by vm_compute in Hr].
  unfold demo_created, demo_created_db, run_txn in *.
  destruct (demo_creation (demo_clock 100) empty_db) as [[r' db']|] eqn:H; [|done].
  exists r'. split; [done|].
  assert (match demo_creation (demo_clock 100) empty_db with
          | Ok (r, _) => bool_decide (ig_id (cr_ingest r) = 1%N) | Err _ => false end = true) as Hid
    by by_vm.
  rewrite H in Hid. by apply bool_decide_eq_true in Hid.
Defined.

Lemma empty_keys_unique : keys_unique empty_db.
Proof. intros k k' i i' Hi. simpl in Hi. by apply lookup_empty_Some in Hi. Qed.

Lemma ingest_history_respects_requests_witness :
  (∃ i, db_ingests demo_created_db !! 1%N = Some i) ∧ inbox_change empty_db demo_created_db.
Proof.
  split.
  - destruct (db_ingests demo_created_db !! 1%N) as [i|] eqn:Hi; [by exists i|].
    assert (is_some (db_ingests demo_created_db !! 1%N) = true) as Hs by by_vm. by rewrite Hi in Hs.
  - apply (ingest_history_respects_requests demo_revision).
    + apply db_wfb_sound. by_vm.
    + destruct creation_runs as (r & Hr & _). apply rtc_once. by eapply ICreate.
Defined.

Lemma create_ingest_is_idempotent_witness :
  (∃ q, create_ingest_at 8 9 (demo_submission demo_url) 900 (demo_clock 900) demo_created_db
          = Ok ({| cr_ingest := q; cr_created := false |}, demo_created_db) ∧ ig_id q = 1%N)
  ∧ create_ingest_at 8 9 (demo_submission (lit "https://example.org/dog.mp4")) 900 (demo_clock 900)
      demo_created_db = Err (IdempotencyConflict (lit "key-1")).
Proof.
  destruct creation_runs as (r & Hr & Hid).
  pose proof (create_ingest_is_idempotent demo_revision 1 2 (demo_submission demo_url) 100
    (demo_clock 100) empty_db r demo_created_db demo_created_db) as Hall.
  split.
  - destruct (Hall ltac:(apply db_wfb_sound; by_vm) empty_keys_unique Hr ltac:(apply rtc_refl)
      8%N 9%N (demo_submission demo_url) 900 (demo_clock 900) eq_refl) as [Hs _].
    destruct (Hs eq_refl) as (q & Hq & Hqid). exists q.
    split; [exact Hq|]. rewrite Hqid. exact Hid.
  - destruct (Hall ltac:(apply db_wfb_sound; by_vm) empty_keys_unique Hr ltac:(apply rtc_refl)
      8%N 9%N (demo_submission (lit "https://example.org/dog.mp4")) 900 (demo_clock 900) eq_refl)
      as [_ Hs]. apply Hs. apply (bool_decide_eq_false_1 _). by_vm.
Defined.

(** ** A stage under its lease *)

Definition demo_claimed_db : Db :=
  (run_txn (claim_next_txn ∅ 70%N (lit "worker") 60000000 [JobType.InspectSource]) (demo_clock 200)
     demo_created_db).2.
Definition demo_stage_lease : JobLease :=
  {| jl_job_id := 2%N; jl_attempt_number := 1; jl_lease_token := 70%N;
     jl_lease_owner := lit "worker" |}.
Definition demo_inspection : SourceInspection :=
  {| si_adapter := lit "direct"; si_source_url := demo_url; si_resolved_url := None;
     si_media_kind := SourceMediaKind.Video; si_mime_type := None; si_content_length_bytes := None;
     si_title := None; si_metadata := VNull : Value |}.
Definition demo_inspected :=
  complete_source_inspection 3 1 demo_stage_lease demo_inspection (demo_clock 300) demo_claimed_db.
Definition demo_inspected_db : Db :=
  match demo_inspected with Ok (_, db) => db | Err _ => demo_claimed_db end.

(** The claimed inspection moves the ingest to the download. *)
Lemma stage_calls_are_fenced_witness :
  (ingest_state <$> db_ingests demo_inspected_db !! 1%N) = Some IngestStatus.Downloading
  ∧ touched 1 (Some demo_stage_lease) (demo_clock 300) demo_claimed_db demo_inspected_db.
Proof.
  split; [by_vm|].
  apply (stage_calls_are_fenced 1 demo_stage_lease (demo_clock 300) demo_claimed_db demo_inspected_db).
  - apply db_wfb_sound. by_vm.
  - assert (is_ok demo_inspected = true) as Hok by by_vm.
    unfold demo_inspected_db. destruct demo_inspected as [[q db]|] eqn:H; [|done].
    by eapply (CInspected _ _ _ _ _ 3%N demo_inspection q).
Defined.

(** ** A duplicate that is accepted *)




(** ** A handler that runs to its end *)

Definition stream_kind_code (k : MediaStreamKind) : nat + Str :=
  match k with
  | StreamVideo => inl 0%nat | StreamAudio => inl 1%nat | StreamSubtitle => inl 2%nat
  | StreamData => inl 3%nat | StreamAttachment => inl 4%nat | StreamOther n => inr n
  end.
Definition stream_kind_of (c : nat + Str) : MediaStreamKind :=
  match c with
  | inl 0%nat => StreamVideo | inl 1%nat => StreamAudio | inl 2%nat => StreamSubtitle
  | inl 3%nat => StreamData | inl _ => StreamAttachment | inr n => StreamOther n
  end.
#[global] Instance stream_kind_countable : Countable MediaStreamKind.
Proof. apply (inj_countable' stream_kind_code stream_kind_of). by intros []. Defined.
#[global] Instance frame_rate_countable : Countable FrameRate.
Proof.
  apply (inj_countable' (λ r, (fr_numerator r, fr_denominator r)) (λ p, Build_FrameRate p.1 p.2)). by intros [].
Defined.
#[global] Instance media_stream_eq_dec : EqDecision MediaStream.
Proof. solve_decision. Defined.
#[global] Instance media_stream_countable : Countable MediaStream.
Proof.
  apply (inj_countable'
    (λ s, ((st_index s, st_kind s, st_codec s, st_attached_picture s, st_codec_tag s),
           (st_codec_mime s, st_level s, st_profile s, st_pixel_format s),
           (st_width s, st_height s, st_display_aspect_ratio s, st_frame_rate s),
           (st_rotation_degrees s, st_sample_rate_hz s, st_channels s, st_bit_rate s)))
    (λ '(a, b, c, k, t, (m, v, p, x), (w, h, d, f), (r, z, n, y)),
      Build_MediaStream a b c k t m v p x w h d f r z n y)). by intros [].
Defined.
#[global] Instance media_probe_eq_dec : EqDecision MediaProbe.
Proof. solve_decision. Defined.
#[global] Instance media_probe_countable : Countable MediaProbe.
Proof.
  apply (inj_countable'
    (λ p, (mp_container_format p, mp_duration_ms p, mp_size_bytes p, mp_bit_rate p, mp_streams p))
    (λ '(a, b, c, d, e), Build_MediaProbe a b c d e)). by intros [].
Defined.
#[global] Instance demo_probe_serde : Serde MediaProbe.
Proof.
  refine {| to_value p := VOne (Npos (countable.encode p));
            from_value v := match v with
                            | VOne (Npos n) => match countable.decode n with Some p => Ok p | None => Err [] end
                            | _ => Err [] end |}.
  intros p. by rewrite countable.decode_encode.
Defined.
#[local] Instance demo_display A : Display A := λ _, lit "error".

(** A downloader that finds the video at once. *)
Definition demo_downloader : SourceDownloader :=
  {| sd_inspect := λ _, Done (Ok demo_inspection);
     sd_download := λ _ _ _, Done (Err NotImplemented) |}.
Definition demo_pipeline : pipeline :=
  {| pp_work_root := lit "/work"; pp_downloader := demo_downloader; pp_limits := default_limits;
     pp_admission := admission_disabled; pp_telegram_source := false; pp_telegram_max_bytes := 1000;
     pp_planner := {| pl_ffmpeg := lit "ffmpeg"; pl_profile := default_video_profile |};
     pp_executor := {| ex_timeout := 1000; ex_max_output_bytes := 1000 |}; pp_max_bytes := 1000 |}.
Definition demo_inspect_job : Job :=
  {| jb_id := 2%N; jb_command := InspectSource {| inspect_ingest_id := 1%N |};
     jb_status := JobStatus.Running; jb_priority := 0; jb_run_at := 0; jb_attempt_count := 1;
     jb_max_attempts := 3; jb_lease_token := Some 70%N; jb_lease_owner := Some (lit "worker");
     jb_lease_expires_at := None; jb_last_heartbeat_at := None; jb_last_error_class := None;
     jb_last_error_message := None; jb_dedupe_key := None; jb_created_at := 0; jb_updated_at := 0;
     jb_completed_at := None |}.

(** One repository call, executed and answered. *)
Definition drive_stage (sys : stage_system) : stage_system :=
  match sy_proc sys with
  | Done _ => sys
  | Ask c k =>
      match repository c 3%N (demo_clock 300) (sy_db sys) with
      | Some (x, db') => Build_stage_system db' (k x)
          (sy_log sys ++ [Build_commit _ c (demo_clock 300) (sy_db sys) db'])
      | None => sys
      end
  end.
Lemma drive_stage_steps sys : rtc stage_step sys (drive_stage sys).
Proof.
  destruct sys as [db [a|c k] log]; [done|]. unfold drive_stage. cbn [sy_proc sy_db sy_log].
  destruct (repository c 3%N (demo_clock 300) db) as [[x db']|] eqn:Hr; [|done].
  apply rtc_once. by eapply sy_executed.
Qed.

Definition demo_handled : stage_system :=
  drive_stage (drive_stage
    (Build_stage_system demo_claimed_db (stage_handler demo_pipeline SourceInspectionStage demo_inspect_job) [])).

Lemma stage_handlers_report_what_they_recorded_witness :
  (job_state <$> db_jobs (sy_db demo_handled) !! 2%N) = Some JobStatus.Succeeded
  ∧ log_fenced 1 demo_stage_lease (sy_log demo_handled)
  ∧ accounted SourceInspectionStage 1 demo_stage_lease (sy_log demo_handled) (Ok tt).
Proof.
  split; [by_vm|].
  destruct (stage_handlers_report_what_they_recorded demo_pipeline SourceInspectionStage demo_inspect_job
    demo_claimed_db demo_handled (Ok tt)) as [[_ [f [=]]]|(id & l & [= <-] & [= <-] & Hf & Ha)].
  - apply db_wfb_sound. by_vm.
  - unfold demo_handled. etrans; apply drive_stage_steps.
  - assert (match sy_proc demo_handled with Done (Ok tt) => true | _ => false end = true) as H by by_vm.
    by destruct (sy_proc demo_handled) as [[[]|]|].
  - by split.
Defined.

(** ** A pass of the scavenger *)

#[global] Instance demo_uuid_text : UuidText.
Proof.
  refine {| parse_uuid s := Z.to_N <$> parse_digits s |}.
  intros u. assert (uuid_to_string u = show (Z.of_N u)) as -> by by destruct u.
  destruct (show_digits (Z.of_N u) (N2Z.is_nonneg u)) as (-> & _). simpl. by rewrite N2Z.id.
Defined.

Definition demo_directory : FileType :=
  {| ft_is_file := false; ft_is_dir := true; ft_is_symlink := false; ft_len := 0 |}.
Definition demo_retention : Z := 10.

(** The jobs root holds the workspace [1] of the ingest, an orphan [7] and a file by another
    name; every directory is old. *)
Definition drive_scavenger (s : scavenger) : scavenger :=
  let '(Build_scavenger db p now born seen sn rm) := s in
  match p with
  | Done _ => s
  | Ask c k =>
      match c return (@answer worker_interface c → _) → scavenger with
      | ProtectedWorkspaceIds => λ k,
          Build_scavenger db (k (Ok (protected_workspace_ids db))) now born seen (Some now) rm
      | SystemNow => λ k,
          match sn with
          | Some t0 => if now - t0 <? demo_retention then Build_scavenger db (k now) now born seen sn rm else s
          | None => s
          end
      | Modified q => λ k,
          if decide (born = ∅)
          then Build_scavenger db (k (Ok (demo_directory, Some 0))) now born ({[q]} ∪ seen) sn rm else s
      | Http (Files (RemoveDirAll q)) => λ k, Build_scavenger db (k (Ok tt)) now born seen sn (rm ++ [(q, db)])
      | Http (Files (SymlinkMetadata q)) => λ k, Build_scavenger db (k (Ok demo_directory)) now born seen sn rm
      | ReadEntries q => λ k,
          Build_scavenger db (k (Ok [Ok (Some (lit "1")); Ok (Some (lit "7")); Ok (Some (lit "x"))]))
            now born seen sn rm
      | _ => λ _, s
      end k
  end.

Lemma drive_scavenger_steps s :
  rtc (scavenge_step (lit "/work") demo_retention) s (drive_scavenger s).
Proof.
  destruct s as [db p now born seen sn rm]. destruct p as [a|c k]; [done|].
  destruct c as [c| | | | | | | | | | | | | | | | | |]; try done; simpl.
  - destruct c as [c| | | | | | | |]; try done. destruct c; try done.
    + apply rtc_once. by apply sv_files.
    + apply rtc_once. apply sv_remove.
  - apply rtc_once. apply sv_entries.
  - case_decide; [|done]. subst. apply rtc_once. apply sv_look. intros w b t m _ Hb. done.
  - destruct sn as [t0|]; [|done]. destruct (Z.ltb_spec (now - t0) demo_retention); [|done].
    apply rtc_once. by apply sv_clock.
  - apply rtc_once. apply sv_query. by left.
Qed.

Definition demo_scavenged : scavenger :=
  Nat.iter 9 drive_scavenger
    (Build_scavenger demo_created_db (reconcile_workspaces (lit "/work") demo_retention 5) 1000 ∅ ∅ None []).

Lemma scavenger_spares_current_workspaces_witness :
  (sv_removed demo_scavenged).*1 = [lit "/work/jobs/7"]
  ∧ Z.of_nat (length (sv_removed demo_scavenged)) ≤ 5
  ∧ Forall (orphan (lit "/work")) (sv_removed demo_scavenged).
Proof.
  split; [by_vm|].
  apply (scavenger_spares_current_workspaces (lit "/work") demo_retention 5 ltac:(done)
    demo_created_db 1000 demo_scavenged); [done|done|].
  unfold demo_scavenged. cbn [Nat.iter]. do 8 (etrans; [|apply drive_scavenger_steps]). apply drive_scavenger_steps.
Defined.
