(* ===== verification/UploadWitness.v ===== *)
(** * UploadWitness: two uploads of one object racing

    An executable scheduler for [storage_step], proved to take only steps of the
    system, and a run in which two handlers of the same job compete. *)

From S2P Require Import Prelude Enums Jobs Db Queue Instances Proc Preview Library LibraryRepo.
From S2P Require Import LibraryStorage Telegram Cleanup MediaIdentity LibraryInv LibrarySpec.
From S2P Require Import Publisher PublisherRepo PublisherOps Envelope EnvelopeSpec Inbox InboxRepo InboxOps.
From S2P Require Import PublishWorkerSpec UploadProvider UploadSystem UploadSpec.
From S2P Require Import IdentityWitness InboxWitness.

#[local] Existing Instance storage_interface | 0.

(** A message may hide behind every error the adapter calls ambiguous. *)
#[global] Instance demo_upload_laws : UploadLaws TeloxideStorageApi teloxide_upload_is_ambiguous.
Proof. by intros e. Defined.

#[global] Instance stored_message_eq_dec : EqDecision stored_message.
Proof. solve_decision. Defined.

(** ** A scheduler *)

(** The file system holds the canonical bytes of [demo_media_ingest], and nobody cancels. *)
Definition demo_answer (c : storage_call) : option (answer c) :=
  match c return option (answer c) with
  | USymlinkMetadata _ => Some (Some {| fk_is_file := true; fk_is_symlink := false |})
  | UCanonicalize p => Some (Some p)
  | UFileLength _ => Some (Some 9)
  | USha256 _ => Some (Ok {| fd_bytes := 9; fd_sha256 := hex_digest (demo_bytes 7) |})
  | UDrawName => Some 5%N
  | UStageFile _ _ => Some (Ok tt)
  | URemoveFile _ => Some tt
  | UIsCancelled => Some false
  | UEditCaption _ => Some (Ok tt)
  | _ => None
  end.
Definition demo_result : StorageUploadResult :=
  {| us_message_id := 77; us_file_id := lit "file"; us_file_unique_id := lit "unique" |}.
Definition demo_storage_supply (token : Uuid) : storage_supply :=
  {| ss_clock := demo_clock 500; ss_token := token; ss_job m := (1000 + token)%N;
     ss_cleanup m := (2000 + token)%N |}.
Definition demo_message (i : StorageUploadInput) (t : Uuid) : stored_message :=
  {| sm_input := i; sm_token := t; sm_result := demo_result |}.

(** Thread [n] takes one step; a request it starts is delivered.  [lost] makes the answer
    to that request get lost in the network. *)
Definition drive (lost : bool) (token : Uuid) (n : nat) (s : storage_system) : storage_system :=
  let '(Build_storage_system db ts log tk) := s in
  let go i t := <[n := Build_thread i t]> ts in
  match ts !! n with
  | Some (Build_thread i (Ask c k)) =>
      match c return (answer c → proc _) → storage_system with
      | UDispatch t q => λ k, Build_storage_system db (go i (k tt)) (log ++ [demo_message i t]) tk
      | USelect t => λ k,
          if lost then Build_storage_system db (go i (k (EvDone (Err (StApi (Network [])))))) log tk
          else if decide (demo_message i t ∈ log)
          then Build_storage_system db (go i (k (EvDone (Ok demo_result)))) log tk else s
      | c => λ k,
          match exec_storage (demo_storage_supply token) c db, demo_answer c with
          | Some (x, d), _ =>
              if decide (token ∈ tk) then s
              else Build_storage_system d (go i (k x)) log ({[token]} ∪ tk)
          | None, Some y => Build_storage_system db (go i (k y)) log tk
          | None, None => s
          end
      end k
  | _ => s
  end.

Lemma drive_steps lost token n s :
  rtc (storage_step teloxide_upload_is_ambiguous) s (drive lost token n s).
Proof.
  destruct s as [db ts log tk]. unfold drive.
  destruct (ts !! n) as [[i [a|c k]]|] eqn:Hn; [done| |done].
  assert (∀ x d, exec_storage (demo_storage_supply token) c db = Some (x, d) → token ∉ tk →
    rtc (storage_step teloxide_upload_is_ambiguous) (Build_storage_system db ts log tk)
      (Build_storage_system d (<[n := Build_thread i (k x)]> ts) log ({[token]} ∪ tk))) as Hcall.
  { intros x d Hx Ht. apply rtc_once.
    eapply (st_call _ _ _ _ _ _ _ _ _ (demo_storage_supply token)); eauto. }
  assert (∀ y, free_call c = true →
    rtc (storage_step teloxide_upload_is_ambiguous) (Build_storage_system db ts log tk)
      (Build_storage_system db (<[n := Build_thread i (k y)]> ts) log tk)) as Hfree.
  { intros y Hc. apply rtc_once. by eapply st_free. }
  destruct c; cbn [demo_answer]; try (by apply Hfree);
    try (destruct (exec_storage _ _ _) as [[x d]|] eqn:Hx; [case_decide; [done|by apply Hcall]|done]).
  - apply rtc_once. eapply st_dispatch; [done|]. right. by exists demo_result.
  - destruct lost; [|case_decide; [|done]]; apply rtc_once; by eapply st_select.
Qed.

(** Every step draws a fresh token. *)
Fixpoint schedule (l : list (bool * nat)) (token : Uuid) (s : storage_system) : storage_system :=
  match l with
  | [] => s
  | (lost, n) :: l => schedule l (N.succ token) (drive lost token n s)
  end.
Lemma schedule_steps l token s :
  rtc (storage_step teloxide_upload_is_ambiguous) s (schedule l token s).
Proof.
  revert token s. induction l as [|[lost n] l IH]; intros token s; [done|]. simpl.
  etrans; [apply drive_steps|apply IH].
Qed.

(** ** Two handlers of one job *)

Definition demo_upload : StorageUploadInput := {| ui_media_id := 30; ui_generation := 0 |}.
Definition demo_upload_job : Job :=
  {| jb_id := 31;
     jb_command := UploadStorageAsset {| media_job_id := 30; media_job_generation := 0 |};
     jb_status := JobStatus.Running; jb_priority := 0; jb_run_at := 0; jb_attempt_count := 1;
     jb_max_attempts := 5; jb_lease_token := Some 70%N; jb_lease_owner := Some (lit "worker-a");
     jb_lease_expires_at := None; jb_last_heartbeat_at := None; jb_last_error_class := None;
     jb_last_error_message := None; jb_dedupe_key := None; jb_created_at := 0; jb_updated_at := 0;
     jb_completed_at := None |}.
Definition demo_provider : StorageUploadProvider :=
  {| sp_chat_id := -100500; sp_max_storage_bytes := Some 100; sp_work_root := Some (lit "w");
     sp_api_limit := None |}.
Definition demo_uploader := Build_thread demo_upload (upload_storage_asset demo_provider 3 demo_upload_job).
Definition demo_before : storage_system := Build_storage_system demo_first_db ∅ [] ∅.
Definition demo_started : storage_system :=
  Build_storage_system demo_first_db (<[1%nat := demo_uploader]> (<[0%nat := demo_uploader]> ∅)) [] ∅.
(** The handlers alternate; [lost] is the fate of the answer. *)
Definition demo_race (lost : bool) : storage_system :=
  schedule (concat (replicate 25 [(lost, 0%nat); (lost, 1%nat)])) 100 demo_started.

Lemma demo_race_runs lost :
  rtc (storage_step teloxide_upload_is_ambiguous) demo_before (demo_race lost).
Proof.
  eapply rtc_l; [by apply (st_start _ _ ∅ _ _ 0 demo_provider 3 demo_upload_job)|].
  eapply rtc_l; [by apply (st_start _ _ _ _ _ 1 demo_provider 3 demo_upload_job)|].
  apply schedule_steps.
Qed.

(** Both handlers ran and one message exists; with the answer lost the object is fenced
    for reconciliation, not sent again. *)
Lemma generation_has_at_most_one_message_witness :
  (media_storage_state <$> (db_media (st_db (demo_race false)) !! 30%N) = Some MediaStorageState.Ready
   ∧ messages demo_upload (st_log (demo_race false)) = [demo_message demo_upload 114])
  ∧ (media_storage_state <$> (db_media (st_db (demo_race true)) !! 30%N) = Some MediaStorageState.Unknown
     ∧ messages demo_upload (st_log (demo_race true)) = [demo_message demo_upload 114])
  ∧ (length (messages demo_upload (st_log (demo_race true))) ≤ 1)%nat
  ∧ ∀ r, db_media (st_db (demo_race true)) !! ui_media_id demo_upload = Some r →
    media_storage_generation r < ui_generation demo_upload
    ∨ media_storage_generation r = ui_generation demo_upload
      ∧ media_storage_state r = MediaStorageState.Pending ∧ media_storage_token r = None →
    messages demo_upload (st_log (demo_race true)) = [].
Proof.
  split; [split; by_vm|]. split; [split; by_vm|].
  apply (generation_has_at_most_one_message (Ua := TeloxideStorageApi)
    (delivered := teloxide_upload_is_ambiguous) demo_before).
  - unfold storage_initial. split; [apply db_wfb_sound; by_vm|]. split; [done|]. split; [done|].
    assert (bool_decide (map_Forall (λ _ r, media_storage_token r = None)
      (db_media (st_db demo_before))) = true) as Ht%bool_decide_eq_true by by_vm.
    eapply map_Forall_impl; [exact Ht|]. simpl. intros _ r ->. done.
  - apply demo_race_runs.
Defined.
