(* ===== verification/ConfigSpec.v ===== *)
(** * ConfigSpec: what a configuration guarantees

    The destructive storage commands have been confirmed on the command line, the allowed
    page hosts are known providers, and the values [apps/worker/src/main.rs] builds from a
    loaded configuration are accepted by the constructors of the components. *)

From S2P Require Import Prelude Text Net Config Enums Jobs Db Queue Proc Preview Normalize Execute.
From S2P Require Import Download YtDlp DownloadSpec YtDlpSpec NetSpec Instances Library.
From S2P Require Import LibraryRepo Telegram UploadProvider Settlement Runner Retention.

(** ** The command line *)

(** The words of a command, as they stand on the command line. *)
Definition spelled (c : CliCommand) : list Str → Prop :=
  match c with
  | CliMigrate => eq [lit "migrate"]
  | CliStorage StorageList => eq [lit "storage"; lit "list"]
  | CliStorage (StorageMarkUnknown id force) =>
      eq ([lit "storage"; lit "mark-unknown"; id] ++ if force then [lit "--force"; lit "--confirm"] else [])
  | CliStorage (StorageReset id) => eq [lit "storage"; lit "reset"; id; lit "--confirm"]
  | CliStorage (StorageAttach id generation chat message file unique) =>
      eq [lit "storage"; lit "attach"; id; generation; chat; message; file; unique]
  end.

Lemma next_argument name l a l' : next_storage_argument name l = Ok (a, l') → l = a :: l'.
Proof. destruct l; simpl; [done|]. by intros [= -> ->]. Qed.

Ltac next_argument := repeat match goal with
  | x : (_ * list Str)%type |- _ => destruct x
  | H : next_storage_argument _ _ = Ok _ |- _ => apply next_argument in H; subst
  | H : mbind _ _ = Ok _ |- _ => apply result_bind_ok in H as (? & ? & ?)
  end.

Lemma parse_storage_command_spelled l c l' : parse_storage_command l = Ok (c, l') →
  ∃ words, lit "storage" :: l = words ++ l' ∧ spelled (CliStorage c) words.
Proof.
  unfold parse_storage_command. intros H. next_argument.
  repeat case_decide; subst; next_argument; simplify_eq.
  - eexists [_; _]. by split.
  - unfold mark_unknown_force in *. repeat case_match; simplify_eq.
    + eexists [_; _; _]. by split.
    + eexists [_; _; _; _; _]. by split.
  - repeat case_match; simplify_eq. eexists [_; _; _; _]. by split.
  - eexists [_; _; _; _; _; _; _; _]. by split.
Qed.

Lemma parse_argument_spelled o a l o' l' : parse_argument o a l = Ok (o', l') →
  ∃ words, a :: l = words ++ l' ∧ words ≠ []
    ∧ (cli_command o' = cli_command o ∨ ∃ c, cli_command o' = Some c ∧ spelled c words).
Proof.
  unfold parse_argument. intros H. repeat case_decide; subst; simplify_eq.
  - exists [lit "--check-config"]. split_and!; [done|done|by left].
  - exists [lit "migrate"]. split_and!; [done|done|right]. by exists CliMigrate.
  - next_argument. simplify_eq. match goal with H : parse_storage_command _ = _ |- _ =>
      apply parse_storage_command_spelled in H as (words & Hw & Hs) end.
    exists words. split_and!; [done| |right; by eexists]. intros ->.
    rename select StorageCommand into sc. by destruct sc as [|? []|?|].
  - destruct l as [|path l]; simplify_eq. exists [lit "--config"; path]. split_and!; [done|done|by left].
Qed.

Lemma parse_arguments_spelled rounds : ∀ o l o' c, parse_arguments rounds o l = Ok o' →
  cli_command o' = Some c → cli_command o = Some c ∨ ∃ pre words post, l = pre ++ words ++ post ∧ spelled c words.
Proof.
  induction rounds as [|rounds IH]; intros o l o' c H Hc.
  - destruct l; simpl in H; simplify_eq; by left.
  - destruct l as [|a l]; simpl in H; simplify_eq; [by left|]. next_argument.
    match goal with H : parse_argument _ _ _ = _ |- _ =>
      apply parse_argument_spelled in H as (words & Hw & _ & Ho) end.
    match goal with H : parse_arguments _ _ _ = _ |- _ =>
      destruct (IH _ _ _ c H Hc) as [Hc'|(pre & ws & post & -> & Hs)] end.
    + destruct Ho as [Ho|(c' & Ho & Hs)]; [left; congruence|]. right. eexists [], words, _.
      split; [exact Hw|]. congruence.
    + right. exists (words ++ pre), ws, post. rewrite Hw. by rewrite <-!(assoc_L (++)).
Qed.

(** The rounds are enough: every argument is read. *)
Lemma parse_arguments_enough rounds more : ∀ o l, (length l <= rounds)%nat →
  parse_arguments (rounds + more) o l = parse_arguments rounds o l.
Proof.
  induction rounds as [|rounds IH]; intros o l Hl.
  - destruct l; [by destruct more|simpl in Hl; lia].
  - destruct l as [|a l]; [done|]. simpl. destruct (parse_argument o a l) as [[o' l']|e] eqn:Hp; [|done].
    simpl. apply IH. apply parse_argument_spelled in Hp as (words & Hw & Hne & _).
    apply (f_equal length) in Hw. rewrite length_app in Hw. destruct words; [done|]. simpl in *. lia.
Qed.

(** C40: What the command line does was spelled out on it: the command that is executed
    stands there word for word, so that resetting a storage generation, and forcing one to
    unknown, is only ever done with [--confirm]; and the argument loop reads every
    argument. *)
Theorem commands_are_spelled_out l o c more : cli_parse l = Ok o → cli_command o = Some c →
  (∃ pre words post, l = pre ++ words ++ post ∧ spelled c words)
  ∧ parse_arguments (length l + more)
      {| cli_check_config := false; cli_command := None; cli_config_path := None |} l = Ok o.
Proof.
  intros Hp Hc. split.
  - destruct (parse_arguments_spelled _ _ _ _ _ Hp Hc) as [|H]; [done|exact H].
  - by rewrite parse_arguments_enough.
Qed.

(** ** A witness *)

Definition demo_arguments : list Str :=
  [lit "--config"; lit "sooqa.toml"; lit "storage"; lit "reset"; lit "m1"; lit "--confirm"].
Lemma commands_are_spelled_out_witness :
  (∃ pre words post, demo_arguments = pre ++ words ++ post
     ∧ spelled (CliStorage (StorageReset (lit "m1"))) words)
  ∧ parse_arguments (length demo_arguments + 1)
      {| cli_check_config := false; cli_command := None; cli_config_path := None |} demo_arguments
    = Ok {| cli_check_config := false; cli_command := Some (CliStorage (StorageReset (lit "m1")));
            cli_config_path := Some (lit "sooqa.toml") |}.
Proof. apply commands_are_spelled_out; [by vm_compute|done]. Defined.

(** ** Allowed hosts *)

Lemma ends_with_dot s : ends_with (lit ".") s = false → trim_end_dots s = s.
Proof.
  unfold ends_with, starts_with, trim_end_dots. change (reverse (lit ".")) with [46].
  rewrite bool_decide_eq_false. destruct (reverse s) as [|c r] eqn:Hr.
  - intros _. simpl. by rewrite <-(reverse_involutive s), Hr.
  - simpl. intros Hc. destruct (Z.eqb_spec c 46) as [->|]; [by rewrite take_0 in Hc|].
    by rewrite <-Hr, reverse_involutive.
Qed.

(** The configuration and the adapter know the same providers. *)
Lemma supported_family s : ends_with (lit ".") s = false →
  is_supported_ytdlp_host (to_ascii_lowercase s) = true →
  to_ascii_lowercase s = lit "t.co" ∨ is_Some (provider_family_for_host (to_ascii_lowercase s)).
Proof.
  intros Hd Hs. unfold provider_family_for_host.
  rewrite trim_dots_lower, (ends_with_dot _ Hd), to_ascii_lowercase_idemp. set (h := to_ascii_lowercase s) in *.
  unfold is_supported_ytdlp_host in Hs. unfold is_domain_or_subdomain.
  change (lit "." ++ lit "youtube.com") with (lit ".youtube.com").
  change (lit "." ++ lit "youtu.be") with (lit ".youtu.be").
  destruct (_ || _) eqn:Hy in |- *; [right; by eexists|].
  rewrite !orb_false_iff in Hy. destruct Hy as [[H1 H2] [H3 H4]].
  rewrite H1, H2, H3, H4 in Hs. cbn [orb] in Hs. apply bool_decide_eq_true in Hs.
  cbn [fmap list_fmap] in Hs. rewrite !elem_of_cons, elem_of_nil in Hs.
  repeat destruct Hs as [Hs|Hs]; try done; rewrite Hs;
    first [by left | right; vm_compute; by eexists].
Qed.

(** ** Sorting *)

Lemma str_le_total a : ∀ b, str_le a b = false → str_le b a = true.
Proof.
  induction a as [|x a IH]; intros [|y b]; simpl; try done.
  destruct (Z.ltb_spec x y), (Z.eqb_spec x y), (Z.ltb_spec y x), (Z.eqb_spec y x); simpl; try lia; auto.
Qed.
Lemma str_le_antisym a : ∀ b, str_le a b = true → str_le b a = true → a = b.
Proof.
  induction a as [|x a IH]; intros [|y b]; simpl; try done.
  destruct (Z.ltb_spec x y), (Z.eqb_spec x y), (Z.ltb_spec y x), (Z.eqb_spec y x); simpl; try lia; try done.
  intros ??. subst. f_equal. by apply IH.
Qed.
#[local] Instance str_le_trans : Transitive (λ a b, str_le a b = true).
Proof.
  intros a. induction a as [|x a IH]; intros [|y b] [|z c]; simpl; try done.
  destruct (Z.ltb_spec x y), (Z.eqb_spec x y), (Z.ltb_spec y z), (Z.eqb_spec y z),
    (Z.ltb_spec x z), (Z.eqb_spec x z); simpl; try lia; try done. apply IH.
Qed.

Definition sorted (l : list Str) : Prop := Sorted (λ a b, str_le a b = true) l.
Definition strictly_sorted (l : list Str) : Prop := Sorted (λ a b, str_le a b = true ∧ a ≠ b) l.

Lemma str_insert_sorted s l : sorted l → sorted (str_insert s l).
Proof.
  induction l as [|x l IH]; intros Hl; simpl; [by repeat constructor|].
  destruct (str_le s x) eqn:Hs; [by constructor; [|constructor]|]. apply Sorted_inv in Hl as [Hl Hx].
  constructor; [by apply IH|]. apply str_le_total in Hs. destruct l as [|y l]; simpl; [by constructor|].
  destruct (str_le s y); constructor; [done|]. by inversion Hx.
Qed.
Lemma str_sort_sorted l : sorted (str_sort l).
Proof. induction l as [|x l IH]; [constructor|]. by apply str_insert_sorted. Qed.
Lemma str_insert_elem s l x : x ∈ str_insert s l ↔ x = s ∨ x ∈ l.
Proof. induction l as [|y l IH]; simpl; [set_solver|]. destruct (str_le s y); set_solver. Qed.
Lemma str_sort_elem l x : x ∈ str_sort l ↔ x ∈ l.
Proof. induction l as [|y l IH]; [done|]. cbn [str_sort foldr]. rewrite str_insert_elem, elem_of_cons. by rewrite <-IH. Qed.

Lemma str_dedup_elem l x : x ∈ str_dedup l ↔ x ∈ l.
Proof.
  induction l as [|y l IH]; [done|]. destruct l as [|z l]; [done|]. cbn [str_dedup]. case_decide; set_solver.
Qed.
Lemma str_dedup_head x l : ∃ r, str_dedup (x :: l) = x :: r.
Proof. induction l as [|y l IH]; [by eexists|]. cbn [str_dedup]. case_decide; [subst; exact IH|by eexists]. Qed.
Lemma str_dedup_cons x y l : str_dedup (x :: y :: l) = if decide (x = y) then str_dedup (y :: l) else x :: str_dedup (y :: l).
Proof. done. Qed.
Lemma str_dedup_strict l : sorted l → strictly_sorted (str_dedup l).
Proof.
  induction l as [|x l IH]; intros Hl; [constructor|]. destruct l as [|y l]; [by repeat constructor|].
  apply Sorted_inv in Hl as [Hl Hx]. inversion Hx. rewrite str_dedup_cons. case_decide; [by apply IH|].
  constructor; [by apply IH|]. destruct (str_dedup_head y l) as [r ->]. by constructor.
Qed.

Section Hosts.
Context {U : UrlSyntax}.

Lemma parse_allowed_host_supported name raw h : parse_allowed_host name raw = Ok h →
  h = lit "t.co" ∨ is_Some (provider_family_for_host h).
Proof.
  unfold parse_allowed_host. intros Hp. result_inv. simplify_eq. apply supported_family; [|done].
  match goal with H : negb (_ || _ || _ || _ || _) = true |- _ =>
    apply negb_true_iff, orb_false_iff in H as [[[_ Hd]%orb_false_iff _]%orb_false_iff _] end.
  exact Hd.
Qed.
Lemma parse_each_supported name values : ∀ l, parse_each name values = Ok l →
  Forall (λ h, h = lit "t.co" ∨ is_Some (provider_family_for_host h)) l.
Proof.
  induction values as [|raw values IH]; intros l Hp; simpl in Hp; simplify_eq; [constructor|].
  result_inv. simplify_eq. constructor; [by eapply parse_allowed_host_supported|by apply IH].
Qed.

(** The page hosts of the configuration: an accepted list is strictly sorted, hence
    without duplicates, and every host of it belongs to a provider family of the yt-dlp
    adapter or is the short-link host. *)
Theorem allowed_hosts_are_supported name values l : parse_ytdlp_allowed_hosts name values = Ok l →
  strictly_sorted l ∧ Forall (λ h, h = lit "t.co" ∨ is_Some (provider_family_for_host h)) l.
Proof.
  unfold parse_ytdlp_allowed_hosts. intros Hp. result_inv. simplify_eq.
  split; [apply str_dedup_strict, str_sort_sorted|]. apply Forall_forall. intros h.
  rewrite str_dedup_elem, str_sort_elem. revert h. apply Forall_forall. by eapply parse_each_supported.
Qed.
End Hosts.

(** ** The types of the values *)

(** The unsigned values the worker computes with are not negative. *)
Record horizons_typed (c : JobRetentionConfig) : Prop := {
  ht_succeeded : 0 <= jrc_succeeded_seconds c;
  ht_cancelled : 0 <= jrc_cancelled_seconds c;
  ht_failed : 0 <= jrc_failed_seconds c;
}.
Definition typed (c : AppConfig) : Prop :=
  horizons_typed (wkc_job_retention (ac_worker c)) ∧ 0 <= mdc_source_download_max_bytes (ac_media c).

Lemma digits_value_nonneg s : ∀ acc n, 0 <= acc → digits_value acc s = Some n → 0 <= n.
Proof.
  induction s as [|c s IH]; intros acc n Ha; simpl; [congruence|].
  intros (d & Hd & Hn)%bind_Some. eapply IH; [|exact Hn]. unfold digit in Hd. case_match; simplify_eq. lia.
Qed.
Lemma parse_unsigned_nonneg bound s n : parse_unsigned bound s = Some n → 0 <= n.
Proof.
  unfold parse_unsigned. intros (m & Hm & Hn)%bind_Some. case_match; simplify_eq.
  unfold parse_digits in Hm. case_match; [done|]. by eapply digits_value_nonneg.
Qed.
Lemma environment_natural get name reason v :
  optional_env_value get parse_u64 name reason = Ok v → natural v.
Proof.
  unfold optional_env_value. intros H. result_inv. case_match; simplify_eq; [|done]. result_inv. simplify_eq.
  by eapply parse_unsigned_nonneg.
Qed.

(** An assignment keeps what its update keeps. *)
Lemma assign_keeps {R A} (P : R → Prop) (update : A → R → R) v r :
  (∀ x, v = Some x → P r → P (update x r)) → P r → P (assign update v r).
Proof. intros Hu Hr. destruct v; [by apply Hu|done]. Qed.

Lemma job_retention_environment_typed get c c' : job_retention_environment get c = Ok c' →
  horizons_typed c → horizons_typed c'.
Proof.
  unfold job_retention_environment. intros H Hc. result_inv. simplify_eq.
  repeat match goal with H : optional_duration_seconds _ _ = Ok _ |- _ => apply environment_natural in H end.
  repeat (apply assign_keeps; [intros ? -> []; by split|]). exact Hc.
Qed.
Lemma worker_environment_typed get c c' : worker_environment get c = Ok c' →
  horizons_typed (wkc_job_retention c) → horizons_typed (wkc_job_retention c').
Proof.
  unfold worker_environment. intros H Hc. result_inv. simplify_eq.
  match goal with H : job_retention_environment _ _ = _ |- _ =>
    apply job_retention_environment_typed in H; [exact H|] end.
  by repeat (apply (assign_keeps (λ w, horizons_typed (wkc_job_retention w))); [done|]).
Qed.

Section Load.
Context {U : UrlSyntax} {T : Toml}.

Lemma media_environment_typed get c c' : media_environment get c = Ok c' →
  0 <= mdc_source_download_max_bytes c → 0 <= mdc_source_download_max_bytes c'.
Proof.
  pose (P := λ m : MediaConfig, 0 <= mdc_source_download_max_bytes m).
  unfold media_environment. intros H Hc. cbv zeta in H. change (P c) in Hc. change (P c'). result_inv.
  match goal with H : match ?v with Some _ => _ | None => _ end = Ok ?m, H' : match _ with Some _ => _ | None => Ok ?m end = Ok ?m' |- _ =>
    assert (P m) as Hm; [|assert (P m') as Hm'] end.
  - destruct x5; result_inv; simplify_eq;
      by repeat (apply (assign_keeps P); [done|]).
  - destruct x7; result_inv; simplify_eq; exact Hm.
  - match goal with H : Ok _ = Ok c' |- _ => injection H as <- end.
    match goal with H : optional_byte_size _ "SOOQA_MEDIA_SOURCE_DOWNLOAD_MAX_BYTES" = Ok _ |- _ =>
      apply environment_natural in H end.
    apply (assign_keeps P); [done|]. apply (assign_keeps P); [by intros ? ->|].
    apply (assign_keeps P); [done|]. exact Hm'.
Qed.

Lemma from_toml_typed role path s c : from_toml_str role path s = Ok c → typed c.
Proof.
  unfold from_toml_str. intros H. result_inv. simplify_eq.
  match goal with H : toml_from_str _ = Ok _ |- _ => apply toml_typed in H as (_ & _ & Hs & Hc & Hf & _ & _ & Hm & _) end.
  match goal with H : read_media _ = Ok _ |- _ => unfold read_media in H; result_inv; simplify_eq end.
  split; [split; simpl|simpl].
  - destruct (rjr_succeeded_seconds _); simpl in *; lia.
  - destruct (rjr_cancelled_seconds _); simpl in *; lia.
  - destruct (rjr_failed_seconds _); simpl in *; lia.
  - destruct (rmd_source_download_max_bytes _); simpl in *; lia.
Qed.

Lemma apply_environment_typed get c c' : apply_environment get c = Ok c' → typed c → typed c'.
Proof.
  unfold apply_environment. intros H [Hw Hm]. result_inv. simplify_eq. split; simpl.
  - by eapply worker_environment_typed.
  - by eapply media_environment_typed.
Qed.

Lemma load_valid read env role path c : load read env role path = Ok c →
  typed c ∧ app_validate c = Ok tt ∧ ac_role c = role.
Proof.
  unfold load. intros H. result_inv. simplify_eq.
  match goal with H : app_validate _ = Ok ?u |- _ => destruct u end.
  match goal with H : from_toml_str _ _ _ = Ok _ |- _ =>
    pose proof (from_toml_typed _ _ _ _ H) as Ht; unfold from_toml_str in H; result_inv; simplify_eq end.
  match goal with H : apply_environment _ _ = Ok _ |- _ =>
    pose proof (apply_environment_typed _ _ _ H Ht); unfold apply_environment in H; result_inv; simplify_eq end.
  done.
Qed.

(** ** What the worker builds *)

Definition microseconds (seconds : Z) : Z := seconds * 1000000.
Definition retention_policy_of (c : JobRetentionConfig) : JobRetentionPolicy :=
  {| succeeded_after := microseconds (jrc_succeeded_seconds c);
     cancelled_after := microseconds (jrc_cancelled_seconds c);
     failed_after := microseconds (jrc_failed_seconds c);
     batch_size := jrc_batch_size c; scan_size := jrc_scan_size c |}.
Definition video_profile_of (c : InlineVideoConfig) : CanonicalVideoProfile :=
  default_video_profile <| vp_target_max_bytes := ivc_target_max_bytes c |>
    <| vp_quality_crf := ivc_quality_crf c |> <| vp_minimum_short_edge := ivc_minimum_short_edge c |>.
Definition download_limits_of (c : MediaConfig) : DownloadLimits :=
  {| dl_max_bytes := mdc_source_download_max_bytes c; dl_max_redirects := dl_max_redirects default_limits;
     dl_timeout := dl_timeout default_limits |}.

Lemma retention_accepted c : horizons_typed c → job_retention_validate c = Ok tt →
  policy_validate (retention_policy_of c) = Ok tt.
Proof.
  intros [Hs Hc Hf] H. unfold job_retention_validate, horizon, within in H. result_inv.
  unfold policy_validate, retention_policy_of, microseconds, MAX_HORIZON. simpl.
  unfold MAX_JOB_RETENTION_HORIZON_SECONDS, MAX_JOB_RETENTION_BATCH_SIZE, MAX_JOB_RETENTION_SCAN_SIZE in *.
  rewrite !negb_true_iff, !orb_false_iff, ?Z.eqb_neq, ?Z.ltb_ge in *.
  repeat case_match; try done; exfalso;
    repeat match goal with H : _ || _ = true |- _ => apply orb_prop in H as [H|H] end; lia.
Qed.

Lemma profile_accepted c : inline_video_validate c = Ok tt → profile_validate (video_profile_of c) = Ok tt.
Proof.
  intros H. unfold inline_video_validate, above_zero in H. result_inv. unfold profile_validate. simpl.
  rewrite !negb_true_iff, !Z.leb_le in *.
  repeat match goal with H : _ = false |- _ => rewrite H end.
  rewrite (proj2 (Z.ltb_ge 51 _)) by lia. rewrite (proj2 (Z.ltb_ge _ (ivc_minimum_short_edge c))) by lia. done.
Qed.

Lemma api_accepted c s : telegram_validate c s = Ok tt → tgc_poll_timeout_seconds c <= u32_max →
  is_ok (api_new (tgc_api_base_url c) (tgc_poll_timeout_seconds c) (tgc_upload_timeout_seconds c)) = true.
Proof.
  intros H Hp. unfold telegram_validate, above_zero in H. result_inv. unfold api_new.
  unfold MAX_TELEGRAM_UPLOAD_TIMEOUT_SECONDS, MAX_UPLOAD_TIMEOUT_SECONDS in *. rewrite !negb_true_iff, !Z.leb_le in *.
  repeat match goal with H : _ = false |- _ => rewrite H end.
  rewrite (proj2 (Z.ltb_ge u32_max _)) by lia. rewrite (proj2 (Z.ltb_ge (24 * 60 * 60) _)) by lia. simpl.
  match goal with H : url_info _ = Some _ |- _ => rewrite H; simpl; erewrite safe_internal_is_safe_api; [done|exact H|done] end.
Qed.

Lemma format_accepted c executable : media_validate c = Ok tt →
  byte_len (mdc_ytdlp_format c) <= MAX_YTDLP_FORMAT_SELECTION_BYTES →
  is_ok (ytdlp_config_new executable (mdc_ytdlp_format c)) = true.
Proof.
  intros H Hl. unfold media_validate in H. result_inv. unfold ytdlp_config_new, validate_format_selection.
  rewrite !negb_true_iff in *. repeat match goal with H : _ = false |- _ => rewrite H end.
  by rewrite (proj2 (Z.ltb_ge _ _)) by lia.
Qed.

Lemma timing_accepted c registry id : worker_validate c = Ok tt →
  job_retention_validate (wkc_job_retention c) = Ok tt
  ∧ is_ok (worker_new registry id (microseconds (wkc_poll_interval_seconds c))
             (microseconds (wkc_lease_duration_seconds c))) = true.
Proof.
  intros H. unfold worker_validate, above_zero in H. result_inv. split; [done|].
  rewrite !negb_true_iff, !Z.eqb_neq in *. unfold worker_new, validate_timing, microseconds.
  by rewrite !(proj2 (Z.eqb_neq _ 0)) by lia.
Qed.
Lemma limits_accepted c : media_validate c = Ok tt → 0 <= mdc_source_download_max_bytes c →
  inline_video_validate (mdc_inline_video c) = Ok tt
  ∧ validate_limits (download_limits_of c) = Ok tt ∧ 0 < dl_max_bytes (download_limits_of c).
Proof.
  intros H Hb. unfold media_validate, above_zero in H. result_inv. repeat match goal with u : () |- _ => destruct u end.
  match goal with H : negb (mdc_source_download_max_bytes c =? 0) = true |- _ =>
    apply negb_true_iff in H as Hz end.
  split; [done|]. unfold validate_limits. simpl. rewrite Hz. apply Z.eqb_neq in Hz. split; [done|lia].
Qed.
Lemma chat_accepted c s chat limit : telegram_validate c s = Ok tt → tgc_storage_chat_id c = Some chat →
  is_ok (provider_new chat limit) = true.
Proof.
  intros H Hc. unfold telegram_validate in H. result_inv.
  match goal with H : context [tgc_storage_chat_id c] |- _ => rewrite Hc in H; apply Z.ltb_lt in H end.
  unfold provider_new. by rewrite (proj2 (Z.leb_gt 0 chat)) by lia.
Qed.

(** C38: The worker starts from every configuration it loads: from the file, the defaults and
    the environment together, the retention policy, the timing of the queue loop, the video
    profile, the download limits and the storage chat are accepted by the components that
    receive them; the Telegram client accepts its base URL and timeouts if the poll timeout
    fits thirty-two bits, and yt-dlp its format selection if it is not too long. *)
Theorem loaded_worker_configuration_is_accepted read env path c registry id executable :
  load read env RoleWorker path = Ok c →
  let w := ac_worker c in
  let m := ac_media c in
  let t := ac_telegram c in
  policy_validate (retention_policy_of (wkc_job_retention w)) = Ok tt
  ∧ is_ok (worker_new registry id (microseconds (wkc_poll_interval_seconds w))
             (microseconds (wkc_lease_duration_seconds w))) = true
  ∧ is_ok (planner_new (mdc_ffmpeg_path m) (video_profile_of (mdc_inline_video m))) = true
  ∧ validate_limits (download_limits_of m) = Ok tt ∧ 0 < dl_max_bytes (download_limits_of m)
  ∧ (∀ chat limit, tgc_storage_chat_id t = Some chat → is_ok (provider_new chat limit) = true)
  ∧ (tgc_poll_timeout_seconds t <= u32_max →
     is_ok (api_new (tgc_api_base_url t) (tgc_poll_timeout_seconds t) (tgc_upload_timeout_seconds t)) = true)
  ∧ (byte_len (mdc_ytdlp_format m) <= MAX_YTDLP_FORMAT_SELECTION_BYTES →
     is_ok (ytdlp_config_new executable (mdc_ytdlp_format m)) = true).
Proof.
  intros ([Hh Hb] & Hv & Hr)%load_valid w m t. unfold app_validate in Hv. rewrite Hr in Hv. result_inv.
  repeat match goal with u : () |- _ => destruct u end.
  rename select (telegram_validate _ _ = Ok tt) into Ht. rename select (worker_validate _ = _) into Hw.
  rename select (media_validate _ = _) into Hm.
  destruct (timing_accepted _ registry id Hw) as [Hj Hwk]. destruct (limits_accepted _ Hm Hb) as (Hi & Hl & Hp).
  split_and!; [by apply retention_accepted|done| |done|done| | |].
  - unfold planner_new. by rewrite profile_accepted.
  - intros chat limit. by eapply chat_accepted.
  - by eapply api_accepted.
  - by apply format_accepted.
Qed.

(** ** Late refusals *)

(** The configuration accepts a poll timeout the Telegram client refuses. *)
Theorem long_poll_timeout_is_refused_late c s : telegram_validate c s = Ok tt →
  u32_max < tgc_poll_timeout_seconds c →
  api_new (tgc_api_base_url c) (tgc_poll_timeout_seconds c) (tgc_upload_timeout_seconds c)
  = Err ApiInvalidPollTimeout.
Proof.
  intros _ Hp. unfold api_new. rewrite (proj2 (Z.ltb_lt _ _) Hp), orb_true_r. done.
Qed.

(** The configuration accepts a format selection the yt-dlp adapter refuses. *)
Theorem long_format_is_refused_late c executable : media_validate c = Ok tt →
  MAX_YTDLP_FORMAT_SELECTION_BYTES < byte_len (mdc_ytdlp_format c) →
  ytdlp_config_new executable (mdc_ytdlp_format c) = Err FormatSelectionTooLong.
Proof.
  intros H Hl. unfold media_validate in H. result_inv. unfold ytdlp_config_new, validate_format_selection.
  rewrite !negb_true_iff in *. repeat match goal with H : is_empty (trim _) = false |- _ => rewrite H end.
  by rewrite (proj2 (Z.ltb_lt _ _) Hl).
Qed.
End Load.

(** ** Witnesses *)

Definition demo_raw : RawConfig :=
  {| rc_server := Build_RawServerConfig None None None;
     rc_worker := Build_RawWorkerConfig None None (Build_RawJobRetentionConfig None None None None None None);
     rc_media := Build_RawMediaConfig None None None None None None [lit "YouTube.com"; lit "t.co"; lit "youtube.com"]
                   (Some (lit "https://pot.local")) None None None (Build_RawInlineVideoConfig None None None);
     rc_companion := Build_RawCompanionConfig None None None None None None;
     rc_database := Build_RawDatabaseConfig None None;
     rc_telegram := Build_RawTelegramConfig None [] None None None None (Some (-100));
     rc_observability := Build_RawObservabilityConfig None None;
     rc_secrets := Build_RawSecretConfig None None None |}.
#[local] Instance demo_toml : Toml.
Proof. refine {| toml_from_str _ := Ok demo_raw |}. intros s r [= <-]. by repeat split. Defined.
Definition demo_env (name : Str) : option (list Z) :=
  if decide (name = lit "SOOQA_WORKER_POLL_INTERVAL_SECONDS") then Some (lit "7") else None.
Definition demo_load : result ConfigError AppConfig :=
  load (λ _, Err []) demo_env RoleWorker None.

Lemma loaded_worker_configuration_is_accepted_witness :
  ∃ c, demo_load = Ok c ∧ wkc_poll_interval_seconds (ac_worker c) = 7
       ∧ mdc_ytdlp_allowed_hosts (ac_media c) = [lit "t.co"; lit "youtube.com"]
       ∧ policy_validate (retention_policy_of (wkc_job_retention (ac_worker c))) = Ok tt.
Proof.
  destruct demo_load as [c|e] eqn:H; [|by vm_compute in H]. exists c.
  split; [done|]. split; [by vm_compute in H; simplify_eq|]. split; [by vm_compute in H; simplify_eq|].
  exact (proj1 (loaded_worker_configuration_is_accepted (λ _, Err []) demo_env None c registry_new [] [] H)).
Defined.

Lemma allowed_hosts_are_supported_witness :
  strictly_sorted [lit "t.co"; lit "youtube.com"]
  ∧ Forall (λ h, h = lit "t.co" ∨ is_Some (provider_family_for_host h)) [lit "t.co"; lit "youtube.com"].
Proof.
  apply (allowed_hosts_are_supported "media.ytdlp_allowed_hosts"
           [lit "YouTube.com"; lit "t.co"; lit "youtube.com"]). by vm_compute.
Defined.
